(* ===== verification/_CoqProject ===== *)
-Q . S2P
Prelude.v
Dict.v
Crc32.v
PyStr.v
PyFloat.v
Hashes.v
Models.v
Protocol.v
RingBuffer.v
WsProto.v
Entitlements.v
Gateway.v
Bus.v
Mcast.v
Gaps.v
Ledger.v
Json.v
Contest.v
Desk.v
Indicators.v
Strategies.v
Engine.v
Backtest.v
Clock.v
Writer.v
Retention.v
Supervisor.v
PyInt.v
Auth.v
Catalog.v
Migration.v
Url.v
Http.v
Quality.v
Paper.v
Archive.v
Adapter.v
Feed.v
Backup.v
GapStore.v
Storage.v
Sqlite.v
StoreOpen.v
JsonValue.v
Exchanges.v
Token.v
Broker.v
Notice.v
WsGateway.v
ContestService.v
Polling.v
RestApi.v
