(* ===== verification/Prelude.v ===== *)
(** * MDFeed: a market-data feed platform, modelled and verified

    MDFeed (Python, src/src/mdfeed and src/quant; paths below are relative to src/src/mdfeed
    unless they say otherwise) collects trades and quotes from exchanges, frames them,
    publishes them on local buses, distributes them over TCP, WebSocket and multicast,
    stores and archives them, computes indicators and trading signals, and runs two
    order books of its own: a desk that sends real orders to a broker, and a contest with
    play money.  This library is a shallow embedding of the Python code: pure functions are
    functions, classes are records, a method is a function from the state before to the
    state after and the result, an exception is the [Err] of [result].  Definitions keep the
    names of the source and compute, so the examples and witnesses evaluate them.

    ** The parts and how they interact

    - The language and its libraries, as far as the sources use them: [Prelude] (results,
      bytes, big-endian integers, list lemmas, the tactics and hint databases), [Dict]
      (dictionaries the code iterates over), [PyStr] (text and UTF-8), [PyFloat] (binary64
      on the Standard Library's [SpecFloat]), [PyInt] ([int(s)], [bytes.fromhex]), [Crc32],
      [Hashes] (SHA-1, SHA-256, base64), [Json] (flat objects, written and read),
      [JsonValue] ([json.loads] of any text), [Url] (query strings and addresses).
    - Data and wire: [Models] (models.py; the type class [WireRecord] states what a packed
      record promises) and [Protocol] (protocol.py: frames, the resynchronising parser, the
      sequence tracker).  Bus, gateway, multicast client, writer and backtest use both.
    - Sources: [Adapter] (adapters/base.py: sessions, the watchdog, giving up), [Exchanges]
      (the messages of adapters/upbit.py, binance.py and kis.py), [Polling]
      (adapters/kis_rest.py, kis_macro.py), [Token] (adapters/kis_token.py, one token for
      several processes), [Feed] (services/feedd.py and
      the replay of adapters/replay.py).
    - Transport: [Bus] (bus.py, Unix sockets between the services), [RingBuffer]
      (ringbuffer.py, shared memory), [WsProto] (wsproto.py), [Gateway]
      (services/tcp_gateway.py, over [Entitlements], entitlements.py), [Mcast]
      (mcast_client.py), [WsGateway] (services/ws_gateway.py, the dashboards), [Http]
      (httpd.py, the admin and web server).
    - Decisions: [Indicators], [Strategies] (the type class [Strategy] is the interface the
      engine and the backtest run every strategy through), [Engine] (services/strategy.py,
      live), [Backtest] (src/quant/backtest.py) and their agreement, [Paper]
      (src/quant/paper_ledger.py).
    - Observation: [Quality] (quality.py, services/quality.py), [Clock] (clock.py),
      [Supervisor] (supervisor.py, keeps the tasks of every service alive).
    - Storage: [Writer] (services/writer.py and the transactional batch of storage/db.py),
      [Retention] (retention.py), [Catalog] (storage/catalog.py), [Migration]
      (migration/), [Gaps] (gaps.py, the in-memory repository of gap_repository.py), [GapStore]
      (its SQLite and PostgreSQL repositories); [Storage] and [Sqlite] (the PostgreSQL and
      the SQLite side of storage/db.py), [StoreOpen] (which of them a service opens), [RestApi]
      (services/rest_api.py, the queries over them); [Archive] (archive.py) and [Backup] (backup.py).
    - Money: [Ledger] (ledger.py) and over it [Desk] (services/order_desk.py), with its
      login in [Auth] (auth.py), the broker's client in [Broker] (kis_trading.py, composed
      with the desk and an account of what the broker took) and its notices in [Notice]
      (kis_notice.py, composed with the ledger); [Contest] (contest.py) and over it
      [ContestService] (services/contest.py).

    One Module per file holds the component's data, operations, invariant and theorems.

    ** Concurrency

    The services are asyncio programs, one thread with [await]s.  The code between two
    awaits is one atomic step, a theorem about a component quantifies over lists of steps,
    and so over all interleavings ([Bus.Bus.bus_step], [Gateway.Gateway.gw_step], [Desk.Desk.desk_step],
    [Engine], [Writer.Writer.step], [Auth.Auth.step], [Supervisor.Supervisor.step],
    [WsGateway.WsGateway.ws_step], [ContestService.ContestService.step]).
    Worker threads block one task only: the start and the end of their work are two steps.
    The ring buffer is shared by processes, so there single loads and stores are the steps;
    the token's file and lock are shared by the threads of several processes ([Token]).
    Databases are lists of rows; a transaction is atomic, and its failures (rolled back, or
    committed with the answer lost) are inputs.

    ** What the theorems show

    - Framing and parsing: the frames found do not depend on how the stream was cut,
      encoding and parsing are inverse, a damaged frame costs only itself; records survive
      packing; fragmented WebSocket messages are put together again ([Protocol], [Models],
      [WsProto]).
    - Delivery: conservation laws (what was owed is written, queued or counted as lost),
      order and completeness of recovery, exact retransmission requests; with the
      entitlement check on, a subscriber is sent only what its token of that moment covered; a
      dashboard shows the gateway's own prices ([Bus], [Gateway], [Mcast], [RingBuffer],
      [WsGateway]).
    - Sources: an exchange's batch becomes exactly its trades and quotes, a limit the
      exchange taught is kept, polled volumes become exactly the trades of their rises, at
      most one token is asked for at a time and in a token's life ([Exchanges], [Adapter],
      [Polling], [Token], [Feed]).
    - Money: books reconcile with their journal, the journal is tamper-evident, the broker's
      totals are applied exactly, limits hold under every interleaving, no order is sent or
      taken twice, a notice counts once; the contest takes orders from its participants in
      its hours only, a halt stops them, each is answered for what it is, and whoever is
      logged in has an account ([Ledger], [Contest], [Desk],
      [Broker], [Notice], [ContestService]).
    - Strategy parity: live engine and backtest make the same decisions on the same bars,
      and neither looks ahead; paper fills are at the next open ([Backtest], [Engine],
      [Paper]).
    - Storage: rows are written exactly once through failures, retention deletes only what
      an archive receipt covers and ends, a migration killed at any point copies everything
      exactly once and completes; PostgreSQL keeps every batch the writer handed over once,
      SQLite's newest prices are never older than what was acknowledged, and exact while no
      insert is torn; a gap counts as recovered only with its evidence, an archived
      day that is deleted can be restored, a backup that passes its drill holds the tables
      ([Writer], [Retention], [Migration], [Catalog], [Gaps], [GapStore], [Storage], [Sqlite],
      [StoreOpen], [Archive], [Backup]).
    - Service: supervised tasks live, guarded requests need a login, guesses are spaced,
      a request never reaches outside the served directory, quality alarms mean what they
      say ([Supervisor], [Auth], [Http], [Quality]).
    - Where the code does not do what it says, an [Example] runs the case, and some theorems
      state the bug (for instance [RingBuffer.Ring.torn_read_delivered]).

    ** Bounds and fuel

    Loops that are not structural take fuel, and a lemma shows that the fuel given is enough:
    the frame parser and the WebSocket decoder get the length of their buffer (every turn
    but the last consumes a byte), the retention walk the number of days there are, the retention loop
    the batches its rows make ([Retention.Retention.prune_terminates]), reading JSON the
    length of the text ([JsonValue]), a migration the
    transactions it lives to commit ([Migration.Migration.migration_completes] says how many
    suffice).  Fixed-width integers are written with their range checks ([Models.put_u]);
    Python's own integers are [Z].

    ** Parameters

    Third-party or outside code is a Section variable, an argument of the definitions that
    use it: random bytes, the clock, JSON of nested values, the order a database returns
    rows in, the reading of ISO dates, the text of a float, Unicode's decimal digits.
    Hypotheses on them are stated where they are used and witnesses instantiate them.

    ** Not modelled

    Opening sockets and files, TLS, HTTP exchanges with other machines, decryption (a third
    party's), logging, metrics, process figures and command lines are I/O: what the code
    receives from them are events or arguments.  Not modelled at all: the client library
    (client.py), the configuration from the environment, the research scripts of src/quant
    that report on backtests or hand data to other tools, benchmarks, operations scripts, the
    C++ gateway and the web pages.  Status pages and some read-only reports are left out of
    the components that are otherwise modelled. *)

From stdpp Require Export base option list gmap strings.
From Stdlib Require Export ZArith Lia.

#[export] Set Default Proof Using "Type".

(** ** Results of fallible Python code *)

(** A Python call returns a value or raises; [E] is the exception type of the
    component at hand. *)
Inductive result (E A : Type) : Type :=
| Ok (a : A)
| Err (e : E).
Arguments Ok {E A} _.
Arguments Err {E A} _.

Definition rbind {E A B} (m : result E A) (k : A -> result E B) : result E B :=
  match m with Ok a => k a | Err e => Err e end.

Definition rmap {E A B} (f : A -> B) (m : result E A) : result E B :=
  match m with Ok a => Ok (f a) | Err e => Err e end.

Declare Scope py_scope.
Delimit Scope py_scope with py.

Notation "'let!' x := m 'in' k" := (rbind m (fun x => k))
  (at level 10, x pattern, m at level 100, k at level 200) : py_scope.
Notation "'guard!' c 'else' e 'in' k" := (if c then k else Err e)
  (at level 10, c at level 100, e at level 100, k at level 200) : py_scope.

#[global] Open Scope py_scope.
#[global] Open Scope Z_scope.

Lemma rbind_Ok {E A B} (m : result E A) (k : A -> result E B) b :
  rbind m k = Ok b <-> exists a, m = Ok a /\ k a = Ok b.
Proof. destruct m; simpl; [|by split; [|intros (? & ? & ?)]].
  split; [by eauto|]. by intros (a' & [= <-] & ?).
Qed.

Lemma rbind_assoc {E A B C} (m : result E A) (k : A -> result E B) (h : B -> result E C) :
  rbind (rbind m k) h = rbind m (fun a => rbind (k a) h).
Proof. by destruct m. Qed.

(** ** Byte strings *)

(** A Python [bytes] value is a list of integers; [bytes_ok] says that each is
    a byte.  Every definition computes on [list Z], so nothing has to be
    decoded before a witness is evaluated. *)
Abbreviation bytes := (list Z) (only parsing).

Definition byte_ok (b : Z) : Prop := 0 <= b < 256.
Definition bytes_ok (bs : bytes) : Prop := Forall byte_ok bs.

#[export] Instance byte_ok_dec b : Decision (byte_ok b).
Proof. unfold byte_ok. apply _. Defined.
#[export] Instance bytes_ok_dec bs : Decision (bytes_ok bs).
Proof. unfold bytes_ok. apply _. Defined.

Create HintDb bytes.

Lemma bytes_ok_nil : bytes_ok [].
Proof. constructor. Qed.

Lemma bytes_ok_cons b bs : byte_ok b -> bytes_ok bs -> bytes_ok (b :: bs).
Proof. by constructor. Qed.

Lemma bytes_ok_app a b : bytes_ok a -> bytes_ok b -> bytes_ok (a ++ b).
Proof. intros. by apply Forall_app. Qed.

Lemma bytes_ok_take n bs : bytes_ok bs -> bytes_ok (take n bs).
Proof. apply Forall_take. Qed.

Lemma bytes_ok_drop n bs : bytes_ok bs -> bytes_ok (drop n bs).
Proof. apply Forall_drop. Qed.

Lemma bytes_ok_replicate n b : byte_ok b -> bytes_ok (replicate n b).
Proof. apply Forall_replicate. Qed.

Lemma byte_ok_mod v : byte_ok (v mod 256).
Proof. unfold byte_ok. pose proof (Z.mod_pos_bound v 256). lia. Qed.

#[export] Hint Resolve bytes_ok_nil bytes_ok_cons bytes_ok_app bytes_ok_take
  bytes_ok_drop bytes_ok_replicate byte_ok_mod : bytes.

(** *** Big-endian integers ([struct]'s ["!"] formats) *)

Fixpoint be_pack (n : nat) (v : Z) : bytes :=
  match n with
  | O => []
  | S m => (v / 256 ^ Z.of_nat m) mod 256 :: be_pack m v
  end.

Definition be_step (acc b : Z) : Z := acc * 256 + b.

Definition be_unpack (bs : bytes) : Z := foldl be_step 0 bs.

Lemma be_pack_length n v : length (be_pack n v) = n.
Proof. induction n; simpl; congruence. Qed.

Lemma be_pack_ok n v : bytes_ok (be_pack n v).
Proof. induction n; simpl; auto with bytes. Qed.

#[export] Hint Resolve be_pack_ok : bytes.

Lemma be_foldl acc bs :
  foldl be_step acc bs = acc * 256 ^ Z.of_nat (length bs) + be_unpack bs.
Proof.
  unfold be_unpack. revert acc. induction bs as [|b bs IH]; intros acc; simpl length.
  - simpl. lia.
  - cbn [foldl]. rewrite IH, (IH (be_step 0 b)). unfold be_step.
    rewrite Nat2Z.inj_succ, Z.pow_succ_r by lia. lia.
Qed.

Lemma be_unpack_cons b bs :
  be_unpack (b :: bs) = b * 256 ^ Z.of_nat (length bs) + be_unpack bs.
Proof. unfold be_unpack at 1. cbn [foldl]. by rewrite be_foldl. Qed.

Lemma be_unpack_app a b :
  be_unpack (a ++ b) = be_unpack a * 256 ^ Z.of_nat (length b) + be_unpack b.
Proof. unfold be_unpack at 1. rewrite foldl_app. apply be_foldl. Qed.

Lemma be_unpack_pack n v : be_unpack (be_pack n v) = v mod 256 ^ Z.of_nat n.
Proof.
  induction n as [|n IH]; [by rewrite Z.mod_1_r|].
  cbn [be_pack]. rewrite be_unpack_cons, IH, be_pack_length.
  rewrite Nat2Z.inj_succ, Z.pow_succ_r, (Z.mul_comm 256) by lia.
  rewrite Z.rem_mul_r by lia. lia.
Qed.

Lemma be_unpack_bound bs :
  bytes_ok bs -> 0 <= be_unpack bs < 256 ^ Z.of_nat (length bs).
Proof.
  induction 1 as [|b bs Hb _ IH]; [done|].
  rewrite be_unpack_cons. simpl length. rewrite Nat2Z.inj_succ, Z.pow_succ_r by lia.
  unfold byte_ok in Hb. nia.
Qed.

Lemma be_unpack_pack_id n v :
  0 <= v < 256 ^ Z.of_nat n -> be_unpack (be_pack n v) = v.
Proof. intros. rewrite be_unpack_pack. by apply Z.mod_small. Qed.

Lemma be_pack_mod n v w :
  v mod 256 ^ Z.of_nat n = w mod 256 ^ Z.of_nat n -> be_pack n v = be_pack n w.
Proof.
  revert v w. induction n as [|n IH]; intros v w H; [done|].
  rewrite Nat2Z.inj_succ, Z.pow_succ_r, (Z.mul_comm 256) in H by lia.
  rewrite !Z.rem_mul_r in H by lia. cbn [be_pack].
  pose proof (Z.mod_pos_bound v (256 ^ Z.of_nat n)) as Hv.
  pose proof (Z.mod_pos_bound w (256 ^ Z.of_nat n)) as Hw.
  assert (0 < 256 ^ Z.of_nat n) as Hp by lia.
  specialize (Hv Hp). specialize (Hw Hp).
  remember ((v / 256 ^ Z.of_nat n) mod 256) as x.
  remember ((w / 256 ^ Z.of_nat n) mod 256) as y.
  assert (x = y) as -> by nia.
  f_equal. apply IH. lia.
Qed.

Lemma be_pack_unpack bs : bytes_ok bs -> be_pack (length bs) (be_unpack bs) = bs.
Proof.
  induction 1 as [|b bs Hb Hbs IH]; [done|].
  pose proof (be_unpack_bound bs Hbs). unfold byte_ok in Hb.
  rewrite be_unpack_cons. cbn [length be_pack]. f_equal.
  - rewrite Z.div_add_l, (Z.div_small (be_unpack bs)) by lia.
    rewrite Z.mod_small; lia.
  - transitivity (be_pack (length bs) (be_unpack bs)); [|done].
    apply be_pack_mod. rewrite Z.add_comm, Z.mod_add by lia. done.
Qed.

(** *** [bytes.find(sub, start)] *)

Fixpoint is_prefix (p l : list Z) : bool :=
  match p, l with
  | [], _ => true
  | a :: p', b :: l' => Z.eqb a b && is_prefix p' l'
  | _ :: _, [] => false
  end.

(** The index of the first occurrence of [p] in [l], or [None] (Python's -1). *)
Fixpoint find_sub (p l : list Z) : option nat :=
  if is_prefix p l then Some O
  else match l with
       | [] => None
       | _ :: l' => S <$> find_sub p l'
       end.

Definition find_from (p l : list Z) (start : nat) : option nat :=
  (Nat.add start) <$> find_sub p (drop start l).

Lemma is_prefix_spec p l : is_prefix p l = true <-> exists k, l = p ++ k.
Proof.
  revert l. induction p as [|a p IH]; intros [|b l]; simpl.
  - split; [by exists []|done].
  - split; [by exists (b :: l)|done].
  - split; [done|by intros (? & ?)].
  - rewrite andb_true_iff, Z.eqb_eq, IH. split.
    + intros [-> [k ->]]. by exists k.
    + intros [k [= -> ->]]. eauto.
Qed.

Lemma is_prefix_app p l k : is_prefix p l = true -> is_prefix p (l ++ k) = true.
Proof. rewrite !is_prefix_spec. intros [r ->]. exists (r ++ k). by rewrite app_assoc. Qed.

Lemma is_prefix_app_inv p l k :
  (length p <= length l)%nat -> is_prefix p (l ++ k) = is_prefix p l.
Proof.
  revert l. induction p as [|a p IH]; intros [|b l] Hl; simpl in *; try done; [lia|].
  by rewrite IH by lia.
Qed.

Lemma is_prefix_length p l : is_prefix p l = true -> (length p <= length l)%nat.
Proof. rewrite is_prefix_spec. intros [k ->]. rewrite length_app. lia. Qed.

Lemma is_prefix_take p l : is_prefix p l = bool_decide (take (length p) l = p).
Proof.
  revert l. induction p as [|a p IH]; intros [|b l]; simpl; try done.
  rewrite IH. destruct (Z.eqb_spec a b) as [->|]; simpl.
  - apply bool_decide_ext. split; congruence.
  - symmetry. apply bool_decide_eq_false. congruence.
Qed.

Lemma find_sub_Some p l i :
  find_sub p l = Some i ->
  is_prefix p (drop i l) = true /\ forall j, (j < i)%nat -> is_prefix p (drop j l) = false.
Proof.
  revert i. induction l as [|b l IH]; intros i; cbn [find_sub].
  - destruct (is_prefix p []) eqn:E; [|done]. intros [= <-]. split; [done|lia].
  - destruct (is_prefix p (b :: l)) eqn:E.
    + intros [= <-]. split; [done|lia].
    + rewrite fmap_Some. intros (k & Hk & ->). destruct (IH _ Hk) as [H1 H2].
      split; [done|]. intros [|j] Hj; [done|]. simpl. apply H2. lia.
Qed.

Lemma find_sub_None p l :
  find_sub p l = None <-> forall j, is_prefix p (drop j l) = false.
Proof.
  induction l as [|b l IH]; cbn [find_sub].
  - destruct (is_prefix p []) eqn:E; split; try done.
    + intros H. specialize (H O). simpl in H. congruence.
    + intros _ j. by destruct j.
  - destruct (is_prefix p (b :: l)) eqn:E; split; try done.
    + intros H. specialize (H O). simpl in H. congruence.
    + rewrite fmap_None. intros H [|j]; [done|]. by apply IH.
    + intros H. apply fmap_None, IH. intros j. apply (H (S j)).
Qed.

Lemma find_sub_intro p l i :
  is_prefix p (drop i l) = true ->
  (forall j, (j < i)%nat -> is_prefix p (drop j l) = false) ->
  find_sub p l = Some i.
Proof.
  intros H1 H2. destruct (find_sub p l) as [k|] eqn:E.
  - apply find_sub_Some in E as [H3 H4]. f_equal.
    destruct (lt_eq_lt_dec k i) as [[Hl|?]|Hl]; [|done|].
    + rewrite H2 in H3; done.
    + rewrite H4 in H1; done.
  - pose proof (proj1 (find_sub_None p l) E i). congruence.
Qed.

(** [l[a:b]] for [0 <= a <= b]. *)
Definition slice (a b : nat) (l : list Z) : list Z := take (b - a) (drop a l).

(** [len(l)]. *)
Abbreviation zlen l := (Z.of_nat (length l)).

Lemma slice_app_l a b (l k : list Z) :
  (b <= length l)%nat -> slice a b (l ++ k) = slice a b l.
Proof.
  intros H. unfold slice. destruct (decide (a <= length l)%nat).
  - rewrite drop_app_le, take_app_le by (rewrite ?length_drop; lia). done.
  - replace (b - a)%nat with O by lia. by rewrite !take_0.
Qed.

Lemma slice_length a b (l : list Z) : (b <= length l)%nat -> length (slice a b l) = (b - a)%nat.
Proof. intros. unfold slice. rewrite length_take, length_drop. lia. Qed.

Lemma slice_ok a b l : bytes_ok l -> bytes_ok (slice a b l).
Proof. unfold slice. auto with bytes. Qed.

#[export] Hint Resolve slice_ok : bytes.

Lemma slice_mid i j (a m r : list Z) :
  length a = i -> length m = (j - i)%nat -> slice i j (a ++ m ++ r) = m.
Proof.
  intros <- H. unfold slice. rewrite drop_app_length, <- H. by rewrite take_app_length.
Qed.

(** The first of two concatenated fields, and the second. *)
Lemma slice_head' j (m r : list Z) : length m = j -> slice 0 (0 + j) (m ++ r) = m.
Proof. intros <-. unfold slice. rewrite drop_0, Nat.add_0_l, Nat.sub_0_r. apply take_app_length. Qed.

Lemma slice_app_r i n (a b : list Z) :
  length a = i -> length b = n -> slice i (i + n) (a ++ b) = b.
Proof.
  intros <- <-. unfold slice. rewrite drop_app_length, Nat.add_sub_swap, Nat.sub_diag by lia.
  by apply take_ge.
Qed.

Lemma take_app_le' (n : nat) (l k : list Z) :
  (n <= length l)%nat -> take n (l ++ k) = take n l.
Proof. intros. by rewrite take_app_le. Qed.

(** A sublist that is no shorter is the whole list. *)
Lemma sublist_full {A} (l k : list A) : l `sublist_of` k -> (length k <= length l)%nat -> l = k.
Proof.
  induction 1 as [|x l k Hs IH|x l k Hs IH]; intros Hl; simpl in *; [done|rewrite IH by lia; done|].
  apply sublist_length in Hs. lia.
Qed.

(** A decidable fact about small numbers, settled by evaluation. *)
Lemma forall_below (P : Z -> bool) N :
  forallb P (Z.of_nat <$> seq 0 N) = true -> forall n, 0 <= n < Z.of_nat N -> P n = true.
Proof.
  rewrite forallb_forall. intros H n Hn. apply H, list_elem_of_In, list_elem_of_fmap.
  exists (Z.to_nat n). rewrite elem_of_seq. lia.
Qed.

(** ** Shared tactics *)

(** Splits every [match] and [if] of the goal or of a hypothesis. *)
Ltac split_matches :=
  repeat (case_match || case_bool_decide || case_decide); simplify_eq/=; try done.

(** Turns the boolean comparisons of the code into propositions for [lia]. *)
Ltac reflect_cmp :=
  repeat match goal with
  | H : (_ && _)%bool = true |- _ => apply andb_true_iff in H as [? ?]
  | H : (_ || _)%bool = false |- _ => apply orb_false_iff in H as [? ?]
  | H : negb _ = true |- _ => apply negb_true_iff in H
  | H : negb _ = false |- _ => apply negb_false_iff in H
  | H : (_ <=? _) = true |- _ => apply Z.leb_le in H
  | H : (_ <=? _) = false |- _ => apply Z.leb_gt in H
  | H : (_ <? _) = true |- _ => apply Z.ltb_lt in H
  | H : (_ <? _) = false |- _ => apply Z.ltb_ge in H
  | H : (_ =? _) = true |- _ => apply Z.eqb_eq in H
  | H : (_ =? _) = false |- _ => apply Z.eqb_neq in H
  | H : (_ <=? _)%nat = true |- _ => apply Nat.leb_le in H
  | H : (_ <=? _)%nat = false |- _ => apply Nat.leb_gt in H
  | H : (_ <? _)%nat = true |- _ => apply Nat.ltb_lt in H
  | H : (_ <? _)%nat = false |- _ => apply Nat.ltb_ge in H
  | H : (_ =? _)%nat = true |- _ => apply Nat.eqb_eq in H
  | H : (_ =? _)%nat = false |- _ => apply Nat.eqb_neq in H
  end.
