(* ===== verification/Dict.v ===== *)
(** * Python dictionaries that keep insertion order

    A dict the code iterates over is an association list without duplicate keys;
    where the order is never seen the components use [gmap]. *)

From S2P Require Import Prelude.

Section dict.
Context {K V : Type} `{EqDecision K}.
Implicit Types (d : list (K * V)) (k : K) (v : V).

(** [d.get(k)]. *)
Fixpoint dget k d : option V :=
  match d with [] => None | (k', v) :: d => if bool_decide (k' = k) then Some v else dget k d end.

(** [d[k] = v]: in place when the key is there, at the end otherwise. *)
Fixpoint dset k v d : list (K * V) :=
  match d with
  | [] => [(k, v)]
  | (k', v') :: d => if bool_decide (k' = k) then (k', v) :: d else (k', v') :: dset k v d
  end.

(** [del d[k]], or [d.pop(k, None)]. *)
Fixpoint ddel k d : list (K * V) :=
  match d with [] => [] | (k', v) :: d => if bool_decide (k' = k) then d else (k', v) :: ddel k d end.

Definition dict_ok d : Prop := NoDup d.*1.

Lemma dget_dset_eq k v d : dget k (dset k v d) = Some v.
Proof.
  induction d as [|[k' v'] d IH]; cbn; [by rewrite bool_decide_true by done|].
  case_bool_decide as E; cbn; [by rewrite bool_decide_true by done|]. by rewrite bool_decide_false.
Qed.

Lemma dget_dset_ne k k2 v d : k2 <> k -> dget k2 (dset k v d) = dget k2 d.
Proof.
  intros Hk. induction d as [|[k' v'] d IH]; cbn; [by rewrite bool_decide_false by congruence|].
  case_bool_decide as E; cbn; [|by rewrite IH]. subst k'. by rewrite bool_decide_false by congruence.
Qed.

Lemma dget_None k d : dget k d = None <-> k ∉ d.*1.
Proof.
  induction d as [|[k' v'] d IH]; cbn; [split; [intros _; apply not_elem_of_nil|done]|].
  rewrite not_elem_of_cons, <- IH. case_bool_decide as E; [|naive_solver]. split; [done|intros [? _]; congruence].
Qed.

Lemma dget_In k v d : dget k d = Some v -> (k, v) ∈ d.
Proof.
  induction d as [|[k' v'] d IH]; cbn; [done|]. case_bool_decide as E.
  - intros [= <-]. subst k'. apply list_elem_of_here.
  - intros H. by apply list_elem_of_further, IH.
Qed.

Lemma dget_intro k v d : dict_ok d -> (k, v) ∈ d -> dget k d = Some v.
Proof.
  unfold dict_ok. induction d as [|[k' v'] d IH]; cbn; [by intros _ ?%elem_of_nil|].
  intros [H1 H2]%NoDup_cons [[= <- <-]|Hin]%elem_of_cons; [by rewrite bool_decide_true|].
  rewrite bool_decide_false; [auto|]. intros ->. apply H1, list_elem_of_fmap. by exists (k, v).
Qed.

Lemma dget_ddel_ne k k2 d : k2 <> k -> dget k2 (ddel k d) = dget k2 d.
Proof.
  intros Hk. induction d as [|[k' v'] d IH]; cbn; [done|]. case_bool_decide as E; cbn.
  - subst k'. by rewrite bool_decide_false by congruence.
  - by rewrite IH.
Qed.

Lemma dget_ddel_eq k d : dict_ok d -> dget k (ddel k d) = None.
Proof.
  unfold dict_ok. induction d as [|[k' v'] d IH]; cbn; [done|]. intros [H1 H2]%NoDup_cons. case_bool_decide as E; cbn.
  - subst k'. by apply dget_None.
  - rewrite bool_decide_false by done. auto.
Qed.

Lemma dset_keys_In k v d x : x ∈ (dset k v d).*1 -> x = k \/ x ∈ d.*1.
Proof.
  induction d as [|[k' v'] d IH]; cbn; [by intros ->%list_elem_of_singleton; left|].
  case_bool_decide as E; cbn; [by right|]. rewrite !elem_of_cons. naive_solver.
Qed.

Lemma ddel_keys_In k d x : x ∈ (ddel k d).*1 -> x ∈ d.*1.
Proof.
  induction d as [|[k' v'] d IH]; cbn; [done|]. rewrite elem_of_cons. case_bool_decide; cbn; [by right|].
  rewrite elem_of_cons. naive_solver.
Qed.

Lemma dset_ok k v d : dict_ok d -> dict_ok (dset k v d).
Proof.
  unfold dict_ok. induction d as [|[k' v'] d IH]; cbn; [intros _; apply NoDup_singleton|].
  intros [H1 H2]%NoDup_cons. case_bool_decide as E; cbn; apply NoDup_cons; [done|].
  split; [|auto]. intros [?|?]%dset_keys_In; congruence.
Qed.

Lemma ddel_ok k d : dict_ok d -> dict_ok (ddel k d).
Proof.
  unfold dict_ok. induction d as [|[k' v'] d IH]; cbn; [done|].
  intros [H1 H2]%NoDup_cons. case_bool_decide as E; cbn; [done|]. apply NoDup_cons.
  split; [|auto]. by intros ?%ddel_keys_In.
Qed.

Lemma dict_ok_nil : dict_ok [].
Proof. constructor. Qed.
End dict.

Arguments dict_ok {K V} d : rename.

Create HintDb dict.
#[export] Hint Resolve dset_ok ddel_ok dict_ok_nil : dict.

(** Entries that remain, and how many of a kind. *)

Lemma ddel_In {K V} `{EqDecision K} (k : K) (d : list (K * V)) x : x ∈ ddel k d -> x ∈ d.
Proof.
  induction d as [|[k' v] d IH]; [done|]. cbn. case_bool_decide; rewrite !elem_of_cons; [by right|]. intros [->|H']; [by left|right; auto].
Qed.

Lemma dset_In {K V} `{EqDecision K} (k : K) (v : V) (d : list (K * V)) x : x ∈ dset k v d -> x = (k, v) \/ x ∈ d.
Proof.
  induction d as [|[k' v'] d IH]; cbn; [rewrite list_elem_of_singleton; by left|].
  case_bool_decide as E; rewrite !elem_of_cons; [subst; intros [->|H']; [by left|by right; right]|].
  intros [->|H']; [by right; left|]. destruct (IH H'); [by left|by right; right].
Qed.

Lemma ddel_filter_le {K V} `{EqDecision K} (f : K * V -> bool) (k : K) (d : list (K * V)) :
  (length (List.filter f (ddel k d)) <= length (List.filter f d))%nat.
Proof.
  induction d as [|[k' v] d IH]; [done|]. cbn [ddel List.filter]. case_bool_decide; [destruct (f (k', v)); cbn; lia|].
  cbn [List.filter]. destruct (f (k', v)); cbn [length]; lia.
Qed.
