(* ===== verification/Crc32.v ===== *)
(** * CRC-32 as [zlib.crc32] computes it

    The reflected CRC-32 (polynomial 0xEDB88320, initial value and final XOR
    0xFFFFFFFF), bit by bit, with what the frame parser relies on: the result is a
    32-bit value, and a message in which one byte was changed has another CRC. *)

From S2P Require Import Prelude.

Definition crc_poly : Z := 0xEDB88320.
Definition crc_mask : Z := 0xFFFFFFFF.

Definition crc_bit (c : Z) : Z :=
  if Z.testbit c 0 then Z.lxor (Z.shiftr c 1) crc_poly else Z.shiftr c 1.

Definition crc_byte (c b : Z) : Z := Nat.iter 8 crc_bit (Z.lxor c b).

Definition crc_run (c : Z) (bs : bytes) : Z := foldl crc_byte c bs.

Definition crc32 (bs : bytes) : Z := Z.lxor (crc_run crc_mask bs) crc_mask.

(** The check value of the CRC-32 catalogue: the CRC of "123456789". *)
Example crc32_check : crc32 [49; 50; 51; 52; 53; 54; 55; 56; 57] = 0xCBF43926.
Proof. reflexivity. Qed.

Definition word32 (c : Z) : Prop := 0 <= c < 2 ^ 32.

Lemma word32_high c i : word32 c -> 32 <= i -> Z.testbit c i = false.
Proof.
  unfold word32. intros [H0 H] Hi. destruct (Z.eq_dec c 0) as [->|]; [apply Z.testbit_0_l|].
  apply Z.bits_above_log2; [done|]. apply Z.log2_lt_pow2; [lia|].
  eapply Z.lt_le_trans; [exact H|]. apply Z.pow_le_mono_r; lia.
Qed.

Lemma word32_intro c : 0 <= c -> (forall i, 32 <= i -> Z.testbit c i = false) -> word32 c.
Proof.
  intros Hc H. split; [done|]. destruct (Z.eq_dec c 0) as [->|]; [done|].
  apply Z.log2_lt_pow2; [lia|]. destruct (Z.lt_ge_cases (Z.log2 c) 32) as [|Hge]; [done|].
  pose proof (Z.bit_log2 c). rewrite H in H0 by done. assert (0 < c) by lia. naive_solver.
Qed.

Lemma word32_lxor a b : word32 a -> word32 b -> word32 (Z.lxor a b).
Proof.
  intros Ha Hb. apply word32_intro.
  - apply Z.lxor_nonneg. unfold word32 in *. lia.
  - intros i Hi. by rewrite Z.lxor_spec, !word32_high.
Qed.

Lemma word32_byte b : byte_ok b -> word32 b.
Proof. unfold byte_ok, word32. lia. Qed.

Lemma crc_shift_bound c : word32 c -> 0 <= Z.shiftr c 1 < 2 ^ 31.
Proof.
  unfold word32. intros H. rewrite Z.shiftr_div_pow2 by lia. change (2 ^ 1) with 2.
  split; [apply Z.div_pos; lia|]. apply Z.div_lt_upper_bound; lia.
Qed.

Create HintDb crc.

Lemma crc_bit_ok c : word32 c -> word32 (crc_bit c).
Proof.
  intros H. pose proof (crc_shift_bound c H). unfold crc_bit. case_match.
  - apply word32_lxor; unfold word32, crc_poly; lia.
  - unfold word32; lia.
Qed.

Lemma crc_byte_ok c b : word32 c -> byte_ok b -> word32 (crc_byte c b).
Proof.
  intros Hc Hb. unfold crc_byte. cbn [Nat.iter].
  repeat apply crc_bit_ok. by apply word32_lxor, word32_byte.
Qed.

#[export] Hint Resolve crc_bit_ok crc_byte_ok word32_lxor word32_byte : crc.

Lemma crc_run_ok c bs : word32 c -> bytes_ok bs -> word32 (crc_run c bs).
Proof.
  unfold crc_run. intros Hc H. revert c Hc.
  induction H; intros c Hc; simpl; eauto with crc.
Qed.

Lemma crc32_range bs : bytes_ok bs -> word32 (crc32 bs).
Proof. intros. apply word32_lxor; [by apply crc_run_ok|done]. Qed.

(** Bit 31 of the result tells which branch [crc_bit] took, so the step can be
    undone. *)
Lemma crc_bit_top c : word32 c -> Z.testbit (crc_bit c) 31 = Z.testbit c 0.
Proof.
  intros H. assert (Z.testbit (Z.shiftr c 1) 31 = false) as Hs.
  { rewrite Z.shiftr_spec by lia. apply word32_high; [done|lia]. }
  unfold crc_bit. destruct (Z.testbit c 0) eqn:E; [|done].
  by rewrite Z.lxor_spec, Hs.
Qed.

Lemma half_bit_inj c d :
  Z.testbit c 0 = Z.testbit d 0 -> Z.shiftr c 1 = Z.shiftr d 1 -> c = d.
Proof.
  intros H0 H1. apply Z.bits_inj'. intros i Hi.
  destruct (Z.eq_dec i 0) as [->|]; [done|].
  replace i with ((i - 1) + 1) by lia. rewrite <- !Z.shiftr_spec by lia. by rewrite H1.
Qed.

Lemma lxor_inj_r a b c : Z.lxor a c = Z.lxor b c -> a = b.
Proof.
  intros H. rewrite <- (Z.lxor_0_r a), <- (Z.lxor_0_r b), <- (Z.lxor_nilpotent c).
  by rewrite <- !Z.lxor_assoc, H.
Qed.

Lemma crc_bit_inj c d : word32 c -> word32 d -> crc_bit c = crc_bit d -> c = d.
Proof.
  intros Hc Hd H. assert (Z.testbit c 0 = Z.testbit d 0) as E.
  { by rewrite <- (crc_bit_top c), <- (crc_bit_top d), H. }
  apply half_bit_inj; [done|]. revert H. unfold crc_bit. rewrite E.
  case_match; [apply lxor_inj_r|done].
Qed.

Lemma crc_iter_inj n c d :
  word32 c -> word32 d -> Nat.iter n crc_bit c = Nat.iter n crc_bit d -> c = d.
Proof.
  assert (forall k x, word32 x -> word32 (Nat.iter k crc_bit x)) as Hok.
  { intros k x Hx. induction k; simpl; auto with crc. }
  intros Hc Hd. induction n as [|n IH]; simpl; [done|].
  intros H. apply IH. by apply crc_bit_inj in H; auto.
Qed.

Lemma crc_byte_inj_l c d b :
  word32 c -> word32 d -> byte_ok b -> crc_byte c b = crc_byte d b -> c = d.
Proof.
  unfold crc_byte. intros Hc Hd Hb H.
  apply crc_iter_inj in H; auto with crc. by apply lxor_inj_r in H.
Qed.

Lemma crc_byte_inj_r c b b' :
  word32 c -> byte_ok b -> byte_ok b' -> crc_byte c b = crc_byte c b' -> b = b'.
Proof.
  unfold crc_byte. intros Hc Hb Hb' H.
  apply crc_iter_inj in H; auto with crc.
  rewrite !(Z.lxor_comm c) in H. by apply lxor_inj_r in H.
Qed.

Lemma crc_run_inj c d bs :
  word32 c -> word32 d -> bytes_ok bs -> crc_run c bs = crc_run d bs -> c = d.
Proof.
  unfold crc_run. intros Hc Hd H. revert c d Hc Hd.
  induction H as [|b bs Hb Hbs IH]; intros c d Hc Hd E; simpl in E; [done|].
  apply IH in E; auto with crc. by eapply crc_byte_inj_l.
Qed.

(** A change confined to one byte is always detected. *)
Lemma crc32_single_byte pre b b' post :
  bytes_ok pre -> byte_ok b -> byte_ok b' -> bytes_ok post -> b <> b' ->
  crc32 (pre ++ b :: post) <> crc32 (pre ++ b' :: post).
Proof.
  intros Hpre Hb Hb' Hpost Hne E. apply Hne.
  unfold crc32 in E. apply lxor_inj_r in E. unfold crc_run in E.
  rewrite !foldl_app in E. cbn [foldl] in E.
  assert (word32 (foldl crc_byte crc_mask pre)) by (apply (crc_run_ok crc_mask); done).
  apply crc_run_inj in E; auto with crc. by eapply crc_byte_inj_r.
Qed.
