(* ===== verification/PyStr.v ===== *)
(** * Python strings: code points, UTF-8, splitting

    A [str] is its list of code points.  This file has the built-in operations
    the sources use on text: [encode("utf-8")], [decode("utf-8", "ignore")],
    [strip], [split], [splitlines], and the UTF-8 round trip. *)

From S2P Require Import Prelude.

Abbreviation pystr := (list Z) (only parsing).

(** ASCII literals. *)
Definition lit (s : string) : pystr :=
  (fun a => Z.of_N (Ascii.N_of_ascii a)) <$> String.list_ascii_of_string s.

(** ** UTF-8 *)

Definition cont (c : Z) : Z := 0x80 + c mod 64.

(** One code point; [None] for a surrogate (UnicodeEncodeError) or a value that
    is not a code point. *)
Definition utf8_char (c : Z) : option bytes :=
  if (c <? 0) then None
  else if c <? 0x80 then Some [c]
  else if c <? 0x800 then Some [0xC0 + c / 64; cont c]
  else if c <? 0x10000 then
    if (0xD800 <=? c) && (c <? 0xE000) then None
    else Some [0xE0 + c / 4096; cont (c / 64); cont c]
  else if c <? 0x110000 then
    Some [0xF0 + c / 262144; cont (c / 4096); cont (c / 64); cont c]
  else None.

Fixpoint utf8_encode (s : pystr) : option bytes :=
  match s with
  | [] => Some []
  | c :: s' => b ← utf8_char c; r ← utf8_encode s'; Some (b ++ r)
  end.

Definition is_cont (b : Z) : bool := (0x80 <=? b) && (b <? 0xC0).

(** The second byte of a 3-byte (4-byte) sequence starting with [b0]. *)
Definition ok_second3 (b0 b1 : Z) : bool :=
  is_cont b1 && negb (if b1 <? 0xA0 then b0 =? 0xE0 else b0 =? 0xED).
Definition ok_second4 (b0 b1 : Z) : bool :=
  is_cont b1 && negb (if b1 <? 0x90 then b0 =? 0xF0 else b0 =? 0xF4).

(** [bytes.decode("utf-8", "ignore")]: an invalid start byte is skipped, an
    invalid continuation skips the bytes read before it, and a sequence cut off by
    the end of the input is dropped. *)
Fixpoint utf8_decode_ignore (bs : bytes) : pystr :=
  match bs with
  | [] => []
  | b0 :: r1 =>
      if b0 <? 0x80 then b0 :: utf8_decode_ignore r1
      else if (b0 <? 0xC2) || (0xF5 <=? b0) then utf8_decode_ignore r1
      else if b0 <? 0xE0 then
        match r1 with
        | [] => []
        | b1 :: r2 =>
            if is_cont b1 then ((b0 - 0xC0) * 64 + (b1 - 0x80)) :: utf8_decode_ignore r2
            else utf8_decode_ignore r1
        end
      else if b0 <? 0xF0 then
        match r1 with
        | [] => []
        | b1 :: r2 =>
            if negb (ok_second3 b0 b1) then utf8_decode_ignore r1
            else match r2 with
                 | [] => []
                 | b2 :: r3 =>
                     if is_cont b2 then
                       ((b0 - 0xE0) * 4096 + (b1 - 0x80) * 64 + (b2 - 0x80))
                         :: utf8_decode_ignore r3
                     else utf8_decode_ignore r2
                 end
        end
      else
        match r1 with
        | [] => []
        | b1 :: r2 =>
            if negb (ok_second4 b0 b1) then utf8_decode_ignore r1
            else match r2 with
                 | [] => []
                 | b2 :: r3 =>
                     if negb (is_cont b2) then utf8_decode_ignore r2
                     else match r3 with
                          | [] => []
                          | b3 :: r4 =>
                              if is_cont b3 then
                                ((b0 - 0xF0) * 262144 + (b1 - 0x80) * 4096
                                 + (b2 - 0x80) * 64 + (b3 - 0x80))
                                  :: utf8_decode_ignore r4
                              else utf8_decode_ignore r3
                          end
                 end
        end
  end.

(** ** Whitespace and splitting *)

Definition is_space (c : Z) : bool :=
  ((9 <=? c) && (c <=? 13)) || ((28 <=? c) && (c <=? 32))
  || bool_decide (c ∈ [0x85; 0xA0; 0x1680; 0x2028; 0x2029; 0x202F; 0x205F; 0x3000])
  || ((0x2000 <=? c) && (c <=? 0x200A)).

Definition is_linebreak (c : Z) : bool :=
  ((10 <=? c) && (c <=? 13)) || ((28 <=? c) && (c <=? 30))
  || bool_decide (c ∈ [0x85; 0x2028; 0x2029]).

Fixpoint lstrip_by (p : Z -> bool) (s : list Z) : list Z :=
  match s with [] => [] | c :: s' => if p c then lstrip_by p s' else s end.

Definition rstrip_by (p : Z -> bool) (s : list Z) : list Z := rev (lstrip_by p (rev s)).

Definition strip (s : pystr) : pystr := rstrip_by is_space (lstrip_by is_space s).

(** The longest prefix of characters that do not satisfy [p], and the rest. *)
Fixpoint break_at (p : Z -> bool) (s : list Z) : list Z * list Z :=
  match s with
  | [] => ([], [])
  | c :: s' => if p c then ([], s) else let '(a, b) := break_at p s' in (c :: a, b)
  end.

(** [s.split(c)]: always at least one piece. *)
Fixpoint split_char (c : Z) (s : pystr) : list pystr :=
  match s with
  | [] => [[]]
  | x :: s' =>
      match split_char c s' with
      | [] => [[x]]
      | h :: t => if x =? c then [] :: h :: t else (x :: h) :: t
      end
  end.

(** [s.split(c, 1)[0]]. *)
Definition before_char (c : Z) (s : pystr) : pystr := (break_at (Z.eqb c) s).1.

(** [s.split(None, 1)]. *)
Definition split_ws1 (s : pystr) : list pystr :=
  match lstrip_by is_space s with
  | [] => []
  | s1 =>
      let '(a, b) := break_at is_space s1 in
      match lstrip_by is_space b with [] => [a] | b1 => [a; b1] end
  end.

(** [s.splitlines()]: no piece after a final line break, ["\r\n"] is one break. *)
Fixpoint splitlines_aux (s cur : pystr) : list pystr :=
  match s with
  | [] => match cur with [] => [] | _ => [rev cur] end
  | 13 :: ((10 :: s'') as s') => rev cur :: splitlines_aux s'' []
  | c :: s' =>
      if is_linebreak c then rev cur :: splitlines_aux s' []
      else splitlines_aux s' (c :: cur)
  end.
Definition splitlines (s : pystr) : list pystr := splitlines_aux s [].

Example splitlines_ex :
  splitlines [97; 13; 10; 98; 10; 10; 99] = [[97]; [98]; []; [99]].
Proof. reflexivity. Qed.
Example split_ws1_ex : split_ws1 (lit "  ab  cd e ") = [lit "ab"; lit "cd e "].
Proof. reflexivity. Qed.

(** ** Lemmas *)

Ltac zdm := Z.div_mod_to_equations; lia.

Lemma cont_is_cont c : is_cont (cont c) = true.
Proof.
  unfold is_cont, cont. pose proof (Z.mod_pos_bound c 64).
  apply andb_true_iff. rewrite Z.leb_le, Z.ltb_lt. lia.
Qed.

(** The encodings, by width. *)
Inductive utf8_shape (c : Z) : bytes -> Prop :=
| Shape1 : 0 <= c < 0x80 -> utf8_shape c [c]
| Shape2 : 0x80 <= c < 0x800 -> utf8_shape c [0xC0 + c / 64; cont c]
| Shape3 : 0x800 <= c < 0xD800 \/ 0xE000 <= c < 0x10000 ->
    utf8_shape c [0xE0 + c / 4096; cont (c / 64); cont c]
| Shape4 : 0x10000 <= c < 0x110000 ->
    utf8_shape c [0xF0 + c / 262144; cont (c / 4096); cont (c / 64); cont c].

Lemma utf8_char_shape c b : utf8_char c = Some b -> utf8_shape c b.
Proof.
  unfold utf8_char. intros H.
  repeat match type of H with
  | (if ?x then _ else _) = _ => destruct x eqn:?; try done
  end; simplify_eq; reflect_cmp; constructor; try lia.
Qed.

Lemma decode_char c b r :
  utf8_char c = Some b -> utf8_decode_ignore (b ++ r) = c :: utf8_decode_ignore r.
Proof.
  intros H%utf8_char_shape. destruct H as [H|H|H|H]; cbn [app utf8_decode_ignore].
  - by rewrite (proj2 (Z.ltb_lt c 0x80)) by lia.
  - rewrite (proj2 (Z.ltb_ge (0xC0 + c / 64) 0x80)) by zdm.
    rewrite (proj2 (Z.ltb_ge (0xC0 + c / 64) 0xC2)) by zdm.
    rewrite (proj2 (Z.leb_gt 0xF5 (0xC0 + c / 64))) by zdm.
    rewrite (proj2 (Z.ltb_lt (0xC0 + c / 64) 0xE0)) by zdm.
    rewrite cont_is_cont. cbn [orb]. f_equal. unfold cont. zdm.
  - rewrite (proj2 (Z.ltb_ge (0xE0 + c / 4096) 0x80)) by zdm.
    rewrite (proj2 (Z.ltb_ge (0xE0 + c / 4096) 0xC2)) by zdm.
    rewrite (proj2 (Z.leb_gt 0xF5 (0xE0 + c / 4096))) by zdm.
    rewrite (proj2 (Z.ltb_ge (0xE0 + c / 4096) 0xE0)) by zdm.
    rewrite (proj2 (Z.ltb_lt (0xE0 + c / 4096) 0xF0)) by zdm.
    assert (ok_second3 (0xE0 + c / 4096) (cont (c / 64)) = true) as ->.
    { unfold ok_second3. rewrite cont_is_cont. unfold cont. simpl.
      apply negb_true_iff. case_match; apply Z.eqb_neq; reflect_cmp; zdm. }
    rewrite cont_is_cont. cbn [orb negb]. f_equal. unfold cont. zdm.
  - rewrite (proj2 (Z.ltb_ge (0xF0 + c / 262144) 0x80)) by zdm.
    rewrite (proj2 (Z.ltb_ge (0xF0 + c / 262144) 0xC2)) by zdm.
    rewrite (proj2 (Z.leb_gt 0xF5 (0xF0 + c / 262144))) by zdm.
    rewrite (proj2 (Z.ltb_ge (0xF0 + c / 262144) 0xE0)) by zdm.
    rewrite (proj2 (Z.ltb_ge (0xF0 + c / 262144) 0xF0)) by zdm.
    assert (ok_second4 (0xF0 + c / 262144) (cont (c / 4096)) = true) as ->.
    { unfold ok_second4. rewrite cont_is_cont. unfold cont. simpl.
      apply negb_true_iff. case_match; apply Z.eqb_neq; reflect_cmp; zdm. }
    rewrite !cont_is_cont. cbn [orb negb]. f_equal. unfold cont. zdm.
Qed.

(** Decoding undoes encoding. *)
Lemma utf8_roundtrip s b r :
  utf8_encode s = Some b -> utf8_decode_ignore (b ++ r) = s ++ utf8_decode_ignore r.
Proof.
  revert b. induction s as [|c s IH]; intros b; simpl.
  - by intros [= <-].
  - rewrite bind_Some. intros (b1 & H1 & H). apply bind_Some in H as (b2 & H2 & [= <-]).
    by rewrite <- app_assoc, (decode_char c), (IH b2).
Qed.

Lemma utf8_encode_app s t :
  utf8_encode (s ++ t) = (a ← utf8_encode s; b ← utf8_encode t; Some (a ++ b)).
Proof.
  induction s as [|c s IH]; simpl.
  - by destruct (utf8_encode t).
  - rewrite IH. destruct (utf8_char c); [|done]. simpl.
    destruct (utf8_encode s); [|done]. simpl. destruct (utf8_encode t); [|done]. simpl.
    by rewrite app_assoc.
Qed.

Lemma utf8_char_ok c b : utf8_char c = Some b -> bytes_ok b.
Proof.
  intros H%utf8_char_shape.
  assert (forall x, byte_ok (cont x)) as Hc.
  { intros x. unfold byte_ok, cont. pose proof (Z.mod_pos_bound x 64). lia. }
  destruct H; repeat constructor; try apply Hc; unfold byte_ok; zdm.
Qed.

Lemma utf8_encode_ok s b : utf8_encode s = Some b -> bytes_ok b.
Proof.
  revert b. induction s as [|c s IH]; intros b; simpl.
  - intros [= <-]. constructor.
  - rewrite bind_Some. intros (b1 & H1 & H). apply bind_Some in H as (b2 & H2 & [= <-]).
    apply bytes_ok_app; eauto using utf8_char_ok.
Qed.

(** A character is a lead byte followed by continuation bytes. *)
Lemma utf8_char_lead c b :
  utf8_char c = Some b ->
  exists l cs, b = l :: cs /\ is_cont l = false /\ Forall (fun x => is_cont x = true) cs /\
    (cs = [] <-> l < 0x80) /\ (cs <> [] -> 0xC0 <= l).
Proof.
  intros H%utf8_char_shape. destruct H as [H|H|H|H];
    (eexists _, _; split; [done|]; unfold is_cont at 1;
     split; [apply andb_false_iff; rewrite Z.leb_gt, Z.ltb_ge; zdm|];
     split; [repeat constructor; apply cont_is_cont|];
     split; [split; [done|intros ?; exfalso; zdm]|intros ?; zdm]) || idtac.
  eexists _, []. split; [done|]. unfold is_cont.
  split; [apply andb_false_iff; rewrite Z.leb_gt, Z.ltb_ge; lia|].
  split; [done|]. split; [split; [lia|done]|done].
Qed.

Lemma rstrip_by_last p s x : p x = false -> rstrip_by p (s ++ [x]) = s ++ [x].
Proof. intros H. unfold rstrip_by. rewrite rev_app_distr. simpl. rewrite H. simpl.
  by rewrite rev_involutive.
Qed.

Lemma rstrip_by_drop p s t :
  Forall (fun x => p x = true) t -> rstrip_by p (s ++ t) = rstrip_by p s.
Proof.
  intros H. unfold rstrip_by. rewrite rev_app_distr. f_equal.
  apply Forall_rev in H. revert H. generalize (rev t). induction 1 as [|x l Hx _ IH]; [done|].
  simpl. by rewrite Hx.
Qed.

Lemma rstrip_by_nil p : rstrip_by p [] = [].
Proof. done. Qed.
