(* ===== verification/PyFloat.v ===== *)
(** * Python floats: IEEE binary64 on the Standard Library's [SpecFloat]

    A Python [float] is a [spec_float] (53-bit precision, maximal exponent 1024;
    one NaN).  Arithmetic is the library's correctly rounded one; here are Python's
    comparisons, [min]/[max], [int/int] division, [round], and the 64-bit
    representation [struct]'s ["d"] reads and writes. *)

From Stdlib Require Export SpecFloat.
From S2P Require Import Prelude.

Abbreviation float := spec_float (only parsing).

Definition prec : Z := 53.
Definition emax : Z := 1024.

Definition fadd : float -> float -> float := SFadd prec emax.
Definition fsub : float -> float -> float := SFsub prec emax.
Definition fmul : float -> float -> float := SFmul prec emax.
Definition fdiv : float -> float -> float := SFdiv prec emax.

(** [float(z)], rounded to nearest even. *)
Definition of_int (z : Z) : float := binary_normalize prec emax z 0 false.

Definition flt (a b : float) : bool := SFltb a b.
Definition fle (a b : float) : bool := SFleb a b.
Definition fgt (a b : float) : bool := SFltb b a.
Definition feq (a b : float) : bool := SFeqb a b.

(** [bool(x)]: only zeros are false. *)
Definition truthy (a : float) : bool :=
  match a with S754_zero _ => false | _ => true end.

Definition is_nan (a : float) : bool :=
  match a with S754_nan => true | _ => false end.

(** [max(a, b)] and [min(a, b)]: the first argument unless the second compares
    strictly beyond it. *)
Definition fmax (a b : float) : float := if fgt b a then b else a.
Definition fmin (a b : float) : float := if flt b a then b else a.

(** [sorted] of floats without a NaN: stable, by [<]. *)
Fixpoint insort (x : float) (l : list float) : list float :=
  match l with [] => [x] | y :: l => if flt x y then x :: y :: l else y :: insort x l end.
Definition fsorted (l : list float) : list float := foldl (fun acc x => insort x acc) [] l.

(** [a / b] on Python ints: the correctly rounded quotient. *)
Definition int_div (a b : Z) : float :=
  match a, b with
  | _, 0 => S754_nan                     (* ZeroDivisionError; callers exclude it *)
  | 0, _ => S754_zero false
  | Zpos x, Zpos y => fdiv (S754_finite false x 0) (S754_finite false y 0)
  | Zpos x, Zneg y => fdiv (S754_finite false x 0) (S754_finite true y 0)
  | Zneg x, Zpos y => fdiv (S754_finite true x 0) (S754_finite false y 0)
  | Zneg x, Zneg y => fdiv (S754_finite true x 0) (S754_finite true y 0)
  end.

(** [round(x)]: nearest integer, ties to even. *)
Definition round_half_even (num den : Z) : Z :=
  let q := num / den in
  let r := num mod den in
  if 2 * r <? den then q
  else if den <? 2 * r then q + 1
  else if Z.even q then q else q + 1.

Definition fround (a : float) : Z :=
  match a with
  | S754_finite s m e =>
      let v := if s then Zneg m else Zpos m in
      if 0 <=? e then v * 2 ^ e else round_half_even v (2 ^ (- e))
  | _ => 0
  end.

(** [round(x, n)]: the float nearest to the decimal with [n] places that is nearest to
    the exact value, ties to even. *)
Definition fround_to (a : float) (n : Z) : float :=
  match a with
  | S754_finite s m e =>
      let v := Z.pos m * 10 ^ n in
      let k := if 0 <=? e then v * 2 ^ e else round_half_even v (2 ^ (- e)) in
      if k =? 0 then S754_zero s else int_div (if s then - k else k) (10 ^ n)
  | _ => a
  end.

Example fround_to_places : fround_to (int_div 5 4) 1 = int_div 12 10 /\ fround_to (int_div (-27) 20) 1 = int_div (-14) 10
                          /\ fround_to (int_div 1 3) 8 = int_div 33333333 100000000.
Proof. by vm_compute. Qed.

Example int_div_round : fround (int_div 7 2) = 4 /\ fround (int_div 5 2) = 2
                        /\ fround (int_div (-1) 3) = 0.
Proof. by vm_compute. Qed.

(** ** The 64-bit pattern *)

Definition sign_bit (s : bool) : Z := if s then 2 ^ 63 else 0.

Definition to_bits (a : float) : Z :=
  match a with
  | S754_zero s => sign_bit s
  | S754_infinity s => sign_bit s + 2047 * 2 ^ 52
  | S754_nan => 2047 * 2 ^ 52 + 2 ^ 51
  | S754_finite s m e =>
      if Zpos m <? 2 ^ 52 then sign_bit s + Zpos m
      else sign_bit s + (e + 1075) * 2 ^ 52 + (Zpos m - 2 ^ 52)
  end.

Definition of_bits (z : Z) : float :=
  let s := (2 ^ 63 <=? z) in
  let ex := (z / 2 ^ 52) mod 2048 in
  let m := z mod 2 ^ 52 in
  if ex =? 2047 then (if m =? 0 then S754_infinity s else S754_nan)
  else if ex =? 0 then
    match m with Zpos p => S754_finite s p (-1074) | _ => S754_zero s end
  else match m + 2 ^ 52 with
       | Zpos p => S754_finite s p (ex - 1075)
       | _ => S754_nan
       end.

Example to_bits_one : to_bits (of_int 1) = 0x3FF0000000000000.
Proof. by vm_compute. Qed.
Example to_bits_third : to_bits (int_div 1 3) = 0x3FD5555555555555.
Proof. by vm_compute. Qed.

Definition valid (a : float) : bool := valid_binary prec emax a.

Lemma digits2_bound p : 2 ^ (Zpos (digits2_pos p) - 1) <= Zpos p < 2 ^ Zpos (digits2_pos p).
Proof.
  induction p as [p IH|p IH|]; cbn [digits2_pos]; [| |done].
  all: rewrite Pos2Z.inj_succ; unfold Z.succ; rewrite Z.add_simpl_r, Z.pow_add_r by lia;
    replace (Zpos (digits2_pos p)) with (Zpos (digits2_pos p) - 1 + 1) in IH |- * by lia;
    rewrite !Z.pow_add_r in IH |- * by lia; rewrite ?Z.add_simpl_r in *; lia.
Qed.

(** What [valid] says of a finite float. *)
Lemma valid_finite s m e :
  valid (S754_finite s m e) = true ->
  -1074 <= e <= 971 /\ Zpos m < 2 ^ 53 /\ (e = -1074 \/ 2 ^ 52 <= Zpos m).
Proof.
  unfold valid, valid_binary, bounded, canonical_mantissa, fexp, emin, prec, emax.
  rewrite andb_true_iff, Z.leb_le. intros [H1%Zeq_bool_eq H2].
  pose proof (digits2_bound m) as [Hlo Hhi].
  remember (Zpos (digits2_pos m)) as d.
  assert (d <= 53) as Hd by lia.
  split; [lia|]. split.
  - eapply Z.lt_le_trans; [exact Hhi|]. apply Z.pow_le_mono_r; lia.
  - destruct (Z.eq_dec e (-1074)); [by left|]. right.
    assert (d = 53) as -> by lia. done.
Qed.

Lemma to_bits_bound a : valid a = true -> 0 <= to_bits a < 2 ^ 64.
Proof.
  destruct a as [s|s| |s m e]; cbn [to_bits].
  - destruct s; cbn; lia.
  - destruct s; cbn; lia.
  - cbn; lia.
  - intros (He & Hm & Hc)%valid_finite. unfold sign_bit.
    destruct (Z.ltb_spec (Zpos m) (2 ^ 52)); destruct s; lia.
Qed.

Lemma of_bits_split s ex m :
  0 <= ex < 2048 -> 0 <= m < 2 ^ 52 ->
  let z := sign_bit s + ex * 2 ^ 52 + m in
  (2 ^ 63 <=? z) = s /\ (z / 2 ^ 52) mod 2048 = ex /\ z mod 2 ^ 52 = m.
Proof.
  intros He Hm z.
  assert (z = (ex + (if s then 2048 else 0)) * 2 ^ 52 + m) as Hz.
  { unfold z, sign_bit. destruct s; lia. }
  split; [|rewrite Hz; split].
  - unfold z, sign_bit. destruct s; [apply Z.leb_le|apply Z.leb_gt]; lia.
  - rewrite Z.div_add_l, (Z.div_small m) by lia. rewrite Z.add_0_r.
    destruct s.
    + replace (ex + 2048) with (ex + 1 * 2048) by lia. rewrite Z.mod_add by lia.
      by apply Z.mod_small.
    + rewrite Z.add_0_r. by apply Z.mod_small.
  - rewrite Z.add_comm, Z.mod_add by lia. by apply Z.mod_small.
Qed.

(** Writing a float and reading it back is the identity. *)
Lemma of_to_bits a : valid a = true -> of_bits (to_bits a) = a.
Proof.
  destruct a as [s|s| |s m e]; cbn [to_bits].
  - by destruct s.
  - by destruct s.
  - done.
  - intros (He & Hm & Hc)%valid_finite. unfold of_bits.
    destruct (Z.ltb_spec (Zpos m) (2 ^ 52)) as [Hlt|Hge].
    + destruct (of_bits_split s 0 (Zpos m)) as (H1 & H2 & H3); [lia|lia|].
      replace (sign_bit s + Zpos m) with (sign_bit s + 0 * 2 ^ 52 + Zpos m) by lia.
      rewrite H1, H2, H3. destruct Hc as [->|?]; [done|lia].
    + destruct (of_bits_split s (e + 1075) (Zpos m - 2 ^ 52)) as (H1 & H2 & H3); [lia|lia|].
      rewrite H1, H2, H3.
      rewrite (proj2 (Z.eqb_neq _ _)), (proj2 (Z.eqb_neq (e + 1075) 0)) by lia.
      replace (Zpos m - 2 ^ 52 + 2 ^ 52) with (Zpos m) by lia.
      by replace (e + 1075 - 1075) with e by lia.
Qed.

(** ** Order *)

(** Floats other than NaN are ordered like these triples, lexicographically. *)
Definition rank (a : float) : Z * Z * Z :=
  match a with
  | S754_infinity true => (-2, 0, 0)
  | S754_finite true m e => (-1, - e, Zneg m)
  | S754_zero _ | S754_nan => (0, 0, 0)
  | S754_finite false m e => (1, e, Zpos m)
  | S754_infinity false => (2, 0, 0)
  end.

Definition rank_lt (x y : Z * Z * Z) : Prop :=
  let '(a, b, c) := x in let '(a', b', c') := y in
  a < a' \/ (a = a' /\ (b < b' \/ (b = b' /\ c < c'))).

Lemma flt_rank a b :
  is_nan a = false -> is_nan b = false -> flt a b = true <-> rank_lt (rank a) (rank b).
Proof.
  unfold flt, SFltb, rank_lt. intros Ha Hb.
  destruct a as [[]|[]| |[] m e], b as [[]|[]| |[] m' e']; try done; simpl;
    try (split; intros; (done || lia)).
  - rewrite (Pos.compare_cont_antisym _ _ Eq); simpl. change (Pos.compare_cont Eq m' m) with (Pos.compare m' m).
    destruct (Z.compare_spec e e'); simpl; [|split; [done|lia]|split; [lia|done]].
    subst. destruct (Pos.compare_spec m' m); simpl; split; intros; (done || lia).
  - change (Pos.compare_cont Eq m m') with (Pos.compare m m').
    destruct (Z.compare_spec e e'); simpl; [|split; [lia|done]|split; [done|lia]].
    subst. destruct (Pos.compare_spec m m'); simpl; split; intros; (done || lia).
Qed.

Lemma flt_nan_l b : flt S754_nan b = false.
Proof. by destruct b. Qed.
Lemma flt_nan_r a : flt a S754_nan = false.
Proof. by destruct a. Qed.

Lemma flt_not_nan a b : flt a b = true -> is_nan a = false /\ is_nan b = false.
Proof. destruct a, b; try done. Qed.

Lemma flt_irrefl a : flt a a = false.
Proof.
  destruct (is_nan a) eqn:Ha; [by destruct a|].
  apply not_true_iff_false. rewrite flt_rank by done. unfold rank_lt.
  destruct (rank a) as [[]]. lia.
Qed.

(** [ge a b]: [a] is not below [b]. *)
Definition fnlt (a b : float) : Prop := flt a b = false.

Lemma fnlt_trans a b c :
  is_nan b = false -> fnlt a b -> fnlt b c -> is_nan a = false -> is_nan c = false -> fnlt a c.
Proof.
  unfold fnlt. intros Hb H1 H2 Ha Hc.
  apply not_true_iff_false in H1, H2. apply not_true_iff_false.
  rewrite flt_rank in H1, H2 |- * by done. unfold rank_lt in *.
  destruct (rank a) as [[]], (rank b) as [[]], (rank c) as [[]]. lia.
Qed.

Lemma flt_asym a b : flt a b = true -> flt b a = false.
Proof.
  intros H. destruct (flt_not_nan _ _ H) as [Ha Hb]. apply not_true_iff_false.
  rewrite flt_rank in H |- * by done. unfold rank_lt in *.
  destruct (rank a) as [[]], (rank b) as [[]]. lia.
Qed.

(** [fmax a b] is one of its arguments and below neither. *)
Lemma fmax_ge a b : fnlt (fmax a b) a /\ fnlt (fmax a b) b.
Proof.
  unfold fnlt, fmax, fgt. destruct (flt a b) eqn:E.
  - change (SFltb a b) with (flt a b). rewrite E. auto using flt_asym, flt_irrefl.
  - change (SFltb a b) with (flt a b). rewrite E. auto using flt_irrefl.
Qed.

Lemma fmin_le a b : fnlt a (fmin a b) /\ fnlt b (fmin a b).
Proof.
  unfold fnlt, fmin. destruct (flt b a) eqn:E; rewrite ?E; auto using flt_asym, flt_irrefl.
Qed.
