(* ===== verification/Hashes.v ===== *)
(** * SHA-1, SHA-256 and base64 as the standard library computes them

    The hash functions the sources call ([hashlib.sha1], [hashlib.sha256]) on byte
    strings, executable, with published test vectors; [base64.b64encode]. *)

From S2P Require Import Prelude PyStr.

Definition w32 (x : Z) : Z := Z.land x 0xFFFFFFFF.
Definition rotl (x n : Z) : Z := w32 (Z.lor (Z.shiftl x n) (Z.shiftr x (32 - n))).
Definition rotr (x n : Z) : Z := rotl x (32 - n).
Definition not32 (x : Z) : Z := Z.lxor x 0xFFFFFFFF.

(** Padding to whole 64-byte blocks, the bit length in the last 8 bytes. *)
Definition sha_pad (m : bytes) : bytes :=
  let l := zlen m in
  m ++ [0x80] ++ replicate (Z.to_nat ((55 - l) mod 64)) 0 ++ be_pack 8 (8 * l).

Fixpoint words (n : nat) (b : bytes) : list Z :=
  match n with O => [] | S n => be_unpack (take 4 b) :: words n (drop 4 b) end.

Fixpoint blocks (n : nat) (b : bytes) : list (list Z) :=
  match n with O => [] | S n => words 16 (take 64 b) :: blocks n (drop 64 b) end.

Definition sha_blocks (m : bytes) : list (list Z) :=
  let p := sha_pad m in blocks (length p / 64) p.

(** The message schedule is kept newest first: [nth i] is the word [i+1] back. *)
Definition back (ws : list Z) (i : nat) : Z := nth (i - 1) ws 0.

Definition sha1_next (ws : list Z) : Z :=
  rotl (Z.lxor (Z.lxor (back ws 3) (back ws 8)) (Z.lxor (back ws 14) (back ws 16))) 1.

Definition sha256_next (ws : list Z) : Z :=
  let s0 x := Z.lxor (Z.lxor (rotr x 7) (rotr x 18)) (Z.shiftr x 3) in
  let s1 x := Z.lxor (Z.lxor (rotr x 17) (rotr x 19)) (Z.shiftr x 10) in
  w32 (back ws 16 + s0 (back ws 15) + back ws 7 + s1 (back ws 2)).

Definition schedule (next : list Z -> Z) (n : nat) (block : list Z) : list Z :=
  rev (Nat.iter n (fun ws => next ws :: ws) (rev block)).

Definition sha1_round (st : Z * Z * Z * Z * Z * Z) (w : Z) : Z * Z * Z * Z * Z * Z :=
  let '(t, a, b, c, d, e) := st in
  let '(f, k) :=
    if t <? 20 then (Z.lor (Z.land b c) (Z.land (not32 b) d), 0x5A827999)
    else if t <? 40 then (Z.lxor (Z.lxor b c) d, 0x6ED9EBA1)
    else if t <? 60 then (Z.lor (Z.lor (Z.land b c) (Z.land b d)) (Z.land c d), 0x8F1BBCDC)
    else (Z.lxor (Z.lxor b c) d, 0xCA62C1D6) in
  (t + 1, w32 (rotl a 5 + f + e + k + w), a, rotl b 30, c, d).

Definition sha1_block (h : list Z) (block : list Z) : list Z :=
  match h with
  | [h0; h1; h2; h3; h4] =>
      let '(_, a, b, c, d, e) :=
        foldl sha1_round (0, h0, h1, h2, h3, h4) (schedule sha1_next 64 block) in
      [w32 (h0 + a); w32 (h1 + b); w32 (h2 + c); w32 (h3 + d); w32 (h4 + e)]
  | _ => h
  end.

Definition sha1 (m : bytes) : bytes :=
  concat (be_pack 4 <$> foldl sha1_block
    [0x67452301; 0xEFCDAB89; 0x98BADCFE; 0x10325476; 0xC3D2E1F0] (sha_blocks m)).

(** The constants of SHA-256: the first 32 bits of the fractional parts of the roots of
    the first primes, found bit by bit. *)
Definition is_prime (n : Z) : bool :=
  (2 <=? n) && forallb (fun d => negb (n mod d =? 0)) (seqZ 2 (Z.sqrt n - 1)).
Definition primes (k : nat) : list Z := take k (List.filter is_prime (seqZ 2 400)).
Definition root (e n : Z) : Z :=
  foldl (fun r i => if (r + 2 ^ i) ^ e <=? n then r + 2 ^ i else r) 0 (rev (seqZ 0 40)).
Definition root_bits (e p : Z) : Z := root e (p * 2 ^ (32 * e)) mod 2 ^ 32.

Definition sha256_k : list Z := Eval cbv in root_bits 3 <$> primes 64.
Definition sha256_h : list Z := Eval cbv in root_bits 2 <$> primes 8.

Definition sha256_round (st : list Z) (kw : Z * Z) : list Z :=
  match st with
  | [a; b; c; d; e; f; g; h] =>
      let s1 := Z.lxor (Z.lxor (rotr e 6) (rotr e 11)) (rotr e 25) in
      let ch := Z.lxor (Z.land e f) (Z.land (not32 e) g) in
      let t1 := h + s1 + ch + kw.1 + kw.2 in
      let s0 := Z.lxor (Z.lxor (rotr a 2) (rotr a 13)) (rotr a 22) in
      let mj := Z.lxor (Z.lxor (Z.land a b) (Z.land a c)) (Z.land b c) in
      [w32 (t1 + s0 + mj); a; b; c; w32 (d + t1); e; f; g]
  | _ => st
  end.

Definition sha256_block (h : list Z) (block : list Z) : list Z :=
  zip_with (fun x y => w32 (x + y)) h
    (foldl sha256_round h (zip sha256_k (schedule sha256_next 48 block))).

Definition sha256 (m : bytes) : bytes :=
  concat (be_pack 4 <$> foldl sha256_block
    sha256_h (sha_blocks m)).

(** [hexdigest()], as code points. *)
Definition hex_digit (d : Z) : Z := if d <? 10 then 48 + d else 87 + d.
Definition hexdigest (b : bytes) : pystr :=
  concat ((fun x => [hex_digit (x / 16); hex_digit (x mod 16)]) <$> b).

(** [base64.b64encode]. *)
Definition b64_char (x : Z) : Z :=
  if x <? 26 then 65 + x else if x <? 52 then 71 + x else if x <? 62 then x - 4
  else if x =? 62 then 43 else 47.

Fixpoint b64encode (b : bytes) : pystr :=
  match b with
  | [] => []
  | [x] => [b64_char (x / 4); b64_char (x mod 4 * 16); 61; 61]
  | [x; y] => [b64_char (x / 4); b64_char (x mod 4 * 16 + y / 16);
               b64_char (y mod 16 * 4); 61]
  | x :: y :: z :: r =>
      b64_char (x / 4) :: b64_char (x mod 4 * 16 + y / 16)
        :: b64_char (y mod 16 * 4 + z / 64) :: b64_char (z mod 64) :: b64encode r
  end.

(** FIPS 180 and RFC 4648 test vectors. *)
Example sha1_abc : hexdigest (sha1 (lit "abc")) = lit "a9993e364706816aba3e25717850c26c9cd0d89d".
Proof. by vm_compute. Qed.
Example sha256_abc : hexdigest (sha256 (lit "abc"))
  = lit "ba7816bf8f01cfea414140de5dae2223b00361a396177a9cb410ff61f20015ad".
Proof. by vm_compute. Qed.
Example sha256_two_blocks :
  hexdigest (sha256 (lit "abcdbcdecdefdefgefghfghighijhijkijkljklmklmnlmnomnopnopq"))
  = lit "248d6a61d20638b8e5c026930c3e6039a33ce45964ff2167f6ecedd419db06c1".
Proof. by vm_compute. Qed.
Example b64_foobar : b64encode (lit "fooba") = lit "Zm9vYmE=".
Proof. by vm_compute. Qed.

(** A hex digest determines its bytes. *)
Lemma hex_digit_inj x y : 0 <= x < 16 -> 0 <= y < 16 -> hex_digit x = hex_digit y -> x = y.
Proof. unfold hex_digit. intros. repeat case_match; reflect_cmp; lia. Qed.

Lemma hexdigest_inj a b : bytes_ok a -> bytes_ok b -> hexdigest a = hexdigest b -> a = b.
Proof.
  unfold hexdigest. intros Ha. revert b.
  induction Ha as [|x a Hx _ IH]; intros [|y b] Hb H; try done.
  apply Forall_cons in Hb as [Hy Hb]. cbn in H. injection H as H1 H2 H3. unfold byte_ok in *.
  apply hex_digit_inj in H1; [|zdm..]. apply hex_digit_inj in H2; [|zdm..].
  f_equal; [zdm|by apply IH].
Qed.

Lemma concat_be_pack_ok n ws : bytes_ok (concat (be_pack n <$> ws)).
Proof. induction ws as [|w ws IH]; [constructor|]. apply bytes_ok_app; [apply be_pack_ok|exact IH]. Qed.

Lemma sha256_ok m : bytes_ok (sha256 m).
Proof. apply concat_be_pack_ok. Qed.

(** A digest has 32 bytes. *)
Lemma sha256_length m : length (sha256 m) = 32%nat.
Proof.
  assert (forall kws st, length st = 8%nat -> length (foldl sha256_round st kws) = 8%nat) as Hr.
  { induction kws as [|kw kws IH]; intros st H; [done|]. cbn [foldl]. apply IH. do 8 (destruct st as [|? st]; [done|]).
    by destruct st. }
  assert (forall bs h, length h = 8%nat -> length (foldl sha256_block h bs) = 8%nat) as Hb.
  { induction bs as [|b bs IH]; intros h H; [done|]. cbn [foldl]. apply IH. unfold sha256_block.
    rewrite length_zip_with, Hr by done. lia. }
  unfold sha256. assert (forall ws, length (concat (be_pack 4 <$> ws)) = (4 * length ws)%nat) as ->; [|by rewrite Hb].
  induction ws as [|w ws IH]; [done|]. cbn [fmap list_fmap concat]. rewrite length_app, be_pack_length.
  cbn [length]. etransitivity; [apply f_equal, IH|]. lia.
Qed.

Lemma hexdigest_length b : length (hexdigest b) = (2 * length b)%nat.
Proof.
  unfold hexdigest. induction b as [|x b IH]; [done|]. rewrite fmap_cons. cbn [concat length app]. rewrite IH. lia.
Qed.

Lemma hexdigest_chars b : bytes_ok b -> Forall (fun c => 48 <= c <= 57 \/ 97 <= c <= 102) (hexdigest b).
Proof.
  unfold hexdigest. induction 1 as [|x b Hx _ IH]; [constructor|]. unfold byte_ok in Hx.
  assert (forall y, 0 <= y < 16 -> 48 <= hex_digit y <= 57 \/ 97 <= hex_digit y <= 102) as H.
  { intros y Hy. unfold hex_digit. destruct (Z.ltb_spec y 10); lia. }
  cbn. constructor; [apply H; zdm|]. constructor; [apply H; zdm|exact IH].
Qed.
