(* ===== verification/Models.v ===== *)
(** * The normalised market-data records (src/mdfeed/models.py)

    Trades, top-of-book quotes, signals and bars, their fixed-width wire layouts and
    the fixed-width symbol encoding [_fix] with its truncation bookkeeping.  Texts are
    code-point lists ([PyStr]), prices and quantities binary64 floats ([PyFloat]). *)

From S2P Require Import Prelude PyStr PyFloat.

Module Models.

Definition MSG_HEARTBEAT : Z := 1.
Definition MSG_TRADE : Z := 2.
Definition MSG_BOOK : Z := 3.
Definition MSG_SIGNAL : Z := 4.
Definition MSG_SNAPSHOT : Z := 5.
Definition MSG_SUBSCRIBE : Z := 6.
Definition MSG_ACK : Z := 7.
Definition MSG_RETRANS : Z := 8.

Definition SIDE_UNKNOWN : Z := 0.
Definition SIDE_BUY : Z := 1.
Definition SIDE_SELL : Z := 2.

Definition SIDE_NAMES (side : Z) : option string :=
  if side =? SIDE_UNKNOWN then Some "UNKNOWN"%string
  else if side =? SIDE_BUY then Some "BUY"%string
  else if side =? SIDE_SELL then Some "SELL"%string
  else None.

Inductive ModelError :=
| UnicodeEncodeError
| StructError.

(** ** Fixed-width text *)

(** [_TRUNCATED] and [_TRUNC_MAP]. *)
Record Trunc := mkTrunc
  { truncated : gmap pystr Z; trunc_map : gmap bytes (gset pystr) }.

Definition no_trunc : Trunc := mkTrunc ∅ ∅.

(** [truncated_symbols]. *)
Definition truncated_symbols (st : Trunc) : gmap pystr Z := truncated st.

Definition rstrip0 (b : bytes) : bytes := rstrip_by (Z.eqb 0) b.

(** [symbol_collisions]: the truncated forms shared by more than one symbol. *)
Definition symbol_collisions (st : Trunc) : gmap pystr (gset pystr) :=
  list_to_map ((fun '(w, originals) => (utf8_decode_ignore (rstrip0 w), originals)) <$>
    List.filter (fun '(_, originals) => (1 <? size originals)%nat) (map_to_list (trunc_map st))).

(** The end of a cut byte string: trailing continuation bytes go, then a lead byte. *)
Definition trim_cut (b : bytes) : bytes :=
  match lstrip_by (fun x => Z.land x 0xC0 =? 0x80) (rev b) with
  | [] => []
  | x :: r => if Z.land x 0xC0 =? 0xC0 then rev r else rev (x :: r)
  end.

Definition ljust0 (n : nat) (b : bytes) : bytes := b ++ replicate (n - length b) 0.

Definition count_trunc (st : Trunc) (s : pystr) (b : bytes) : Trunc :=
  mkTrunc (<[s := default 0 (truncated st !! s) + 1]> (truncated st))
          (<[b := {[s]} ∪ default ∅ (trunc_map st !! b)]> (trunc_map st)).

Definition fix_ (st : Trunc) (s : pystr) (n : nat) : Trunc * result ModelError bytes :=
  match utf8_encode s with
  | None => (st, Err UnicodeEncodeError)
  | Some b =>
      if (n <? length b)%nat then
        let b := trim_cut (take n b) in (count_trunc st s b, Ok (ljust0 n b))
      else (st, Ok (ljust0 n b))
  end.

Definition unfix (b : bytes) : pystr := utf8_decode_ignore (rstrip0 b).

(** ** struct fields *)

Definition put_u (w : nat) (v : Z) : result ModelError bytes :=
  guard! (0 <=? v) && (v <? 256 ^ Z.of_nat w) else StructError in Ok (be_pack w v).

(** Format ["b"]: a signed byte. *)
Definition put_b (v : Z) : result ModelError bytes :=
  guard! (-128 <=? v) && (v <? 128) else StructError in Ok (be_pack 1 (v mod 256)).

Definition get_b (b : bytes) : Z :=
  let v := be_unpack b in if v <? 128 then v else v - 256.

Definition put_d (x : float) : bytes := be_pack 8 (to_bits x).
Definition get_d (b : bytes) : float := of_bits (be_unpack b).

(** ** Trade *)

Record Trade := mkTrade
  { venue : pystr; symbol : pystr; ts_event_ns : Z; ts_recv_ns : Z;
    price : float; qty : float; side : Z }.

Definition TRADE_SIZE : nat := 64.

Definition pack (st : Trunc) (t : Trade) : Trunc * result ModelError bytes :=
  let '(st, sym) := fix_ st (symbol t) 16 in
  match sym with
  | Err e => (st, Err e)
  | Ok sym =>
      let '(st, ven) := fix_ st (venue t) 8 in
      (st, let! ven := ven in
           let! te := put_u 8 (ts_event_ns t) in
           let! tr := put_u 8 (ts_recv_ns t) in
           let! sd := put_u 1 (side t) in
           Ok (sym ++ ven ++ te ++ tr ++ put_d (price t) ++ put_d (qty t) ++ sd
               ++ replicate 7 0))
  end.

Definition unpack (buf : bytes) : result ModelError Trade :=
  guard! (TRADE_SIZE <=? length buf)%nat else StructError in
  Ok (mkTrade (unfix (slice 16 24 buf)) (unfix (slice 0 16 buf))
        (be_unpack (slice 24 32 buf)) (be_unpack (slice 32 40 buf))
        (get_d (slice 40 48 buf)) (get_d (slice 48 56 buf)) (be_unpack (slice 56 57 buf))).

Definition latency_us (t : Trade) : float :=
  fdiv (of_int (ts_recv_ns t - ts_event_ns t)) (of_int 1000).

Definition notional (t : Trade) : float := fmul (price t) (qty t).

(** ** BookTop *)

Record BookTop := mkBook
  { bk_venue : pystr; bk_symbol : pystr; bk_ts_event_ns : Z; bk_ts_recv_ns : Z;
    bid : float; bid_qty : float; ask : float; ask_qty : float }.

Definition BOOK_SIZE : nat := 72.

Definition book_pack (st : Trunc) (t : BookTop) : Trunc * result ModelError bytes :=
  let '(st, sym) := fix_ st (bk_symbol t) 16 in
  match sym with
  | Err e => (st, Err e)
  | Ok sym =>
      let '(st, ven) := fix_ st (bk_venue t) 8 in
      (st, let! ven := ven in
           let! te := put_u 8 (bk_ts_event_ns t) in
           let! tr := put_u 8 (bk_ts_recv_ns t) in
           Ok (sym ++ ven ++ te ++ tr ++ put_d (bid t) ++ put_d (bid_qty t)
               ++ put_d (ask t) ++ put_d (ask_qty t)))
  end.

Definition book_unpack (buf : bytes) : result ModelError BookTop :=
  guard! (BOOK_SIZE <=? length buf)%nat else StructError in
  Ok (mkBook (unfix (slice 16 24 buf)) (unfix (slice 0 16 buf))
        (be_unpack (slice 24 32 buf)) (be_unpack (slice 32 40 buf))
        (get_d (slice 40 48 buf)) (get_d (slice 48 56 buf))
        (get_d (slice 56 64 buf)) (get_d (slice 64 72 buf))).

Definition mid (t : BookTop) : float :=
  if truthy (bid t) && truthy (ask t) then fdiv (fadd (bid t) (ask t)) (of_int 2)
  else S754_zero false.

Definition spread_bp (t : BookTop) : float :=
  let m := mid t in
  if truthy m then fmul (fdiv (fsub (ask t) (bid t)) m) (of_int 10000) else S754_zero false.

(** ** Signal *)

Record Signal := mkSignal
  { sg_venue : pystr; sg_symbol : pystr; ts_ns : Z; strategy : pystr; action : Z;
    strength : float; ref_price : float }.

Definition SIGNAL_SIZE : nat := 72.

Definition signal_pack (st : Trunc) (t : Signal) : Trunc * result ModelError bytes :=
  let '(st, sym) := fix_ st (sg_symbol t) 16 in
  match sym with
  | Err e => (st, Err e)
  | Ok sym =>
      let '(st, ven) := fix_ st (sg_venue t) 8 in
      match ven with
      | Err e => (st, Err e)
      | Ok ven =>
          let '(st, str) := fix_ st (strategy t) 16 in
          (st, let! str := str in
               let! ts := put_u 8 (ts_ns t) in
               let! ac := put_b (action t) in
               Ok (sym ++ ven ++ str ++ ts ++ ac ++ put_d (strength t) ++ put_d (ref_price t)
                   ++ replicate 7 0))
      end
  end.

Definition signal_unpack (buf : bytes) : result ModelError Signal :=
  guard! (SIGNAL_SIZE <=? length buf)%nat else StructError in
  Ok (mkSignal (unfix (slice 16 24 buf)) (unfix (slice 0 16 buf))
        (be_unpack (slice 40 48 buf)) (unfix (slice 24 40 buf)) (get_b (slice 48 49 buf))
        (get_d (slice 49 57 buf)) (get_d (slice 57 65 buf))).

Definition action_name (t : Signal) : string :=
  if action t =? 1 then "BUY" else if action t =? -1 then "SELL" else "HOLD".

(** ** Bar *)

Record Bar := mkBar
  { br_venue : pystr; br_symbol : pystr; bucket_ns : Z; interval_s : Z;
    open : float; high : float; low : float; close : float;
    volume : float; br_notional : float; tick_count : Z }.

Definition new_bar (v s : pystr) (bucket interval : Z) : Bar :=
  let z := S754_zero false in mkBar v s bucket interval z z z z z z 0.

Definition update (b : Bar) (t : Trade) : Bar :=
  let first := tick_count b =? 0 in
  let o := if first then price t else open b in
  let h := if first then price t else high b in
  let l := if first then price t else low b in
  mkBar (br_venue b) (br_symbol b) (bucket_ns b) (interval_s b)
    o (fmax h (price t)) (fmin l (price t)) (price t)
    (fadd (volume b) (qty t)) (fadd (br_notional b) (notional t)) (tick_count b + 1).

Definition vwap (b : Bar) : float :=
  if truthy (volume b) then fdiv (br_notional b) (volume b) else close b.

(** ** Lemmas: fixed-width text *)

Lemma byte_cases (P : Z -> bool) x :
  forallb P (Z.of_nat <$> seq 0 256) = true -> byte_ok x -> P x = true.
Proof.
  intros H [Hlo Hhi]. rewrite forallb_forall in H. apply H.
  apply list_elem_of_In, list_elem_of_fmap. exists (Z.to_nat x). split; [lia|].
  apply elem_of_seq. lia.
Qed.

Lemma land_cont x : byte_ok x -> (Z.land x 0xC0 =? 0x80) = is_cont x.
Proof.
  intros H. apply eqb_prop.
  apply (byte_cases (fun x => eqb (Z.land x 0xC0 =? 0x80) (is_cont x))); [by vm_compute|done].
Qed.

Lemma land_lead x : byte_ok x -> (Z.land x 0xC0 =? 0xC0) = (0xC0 <=? x).
Proof.
  intros H. apply eqb_prop.
  apply (byte_cases (fun x => eqb (Z.land x 0xC0 =? 0xC0) (0xC0 <=? x))); [by vm_compute|done].
Qed.

Lemma lstrip_by_stop (p : Z -> bool) a l b :
  p l = false ->
  exists x r, lstrip_by p (a ++ [l]) = x :: r /\ lstrip_by p (a ++ l :: b) = x :: r ++ b.
Proof.
  intros Hl. induction a as [|y a IH]; simpl.
  - rewrite Hl. eauto.
  - destruct (p y); [exact IH|]. eexists _, _. split; [done|]. by rewrite <- app_assoc.
Qed.

Lemma trim_cut_app a l t :
  (Z.land l 0xC0 =? 0x80) = false -> trim_cut (a ++ l :: t) = a ++ trim_cut (l :: t).
Proof.
  intros Hl. unfold trim_cut. rewrite rev_app_distr. cbn [rev].
  rewrite <- app_assoc. cbn [app].
  destruct (lstrip_by_stop (fun x => Z.land x 0xC0 =? 0x80) (rev t) l (rev a) Hl)
    as (x & r & -> & ->).
  case_match; cbn [rev]; rewrite rev_app_distr, rev_involutive; [done|].
  by rewrite <- app_assoc.
Qed.

Lemma lstrip_by_all p l : Forall (fun x => p x = true) l -> lstrip_by p l = [].
Proof. induction 1 as [|x l Hx _ IH]; simpl; [done|]. by rewrite Hx. Qed.

Lemma lstrip_by_conts p l a :
  Forall (fun x => p x = true) l -> lstrip_by p (l ++ a) = lstrip_by p a.
Proof. induction 1 as [|x l Hx _ IH]; simpl; [done|]. by rewrite Hx. Qed.

(** A lead byte with (some of) its continuation bytes is trimmed away. *)
Lemma trim_cut_partial l cs :
  byte_ok l -> 0xC0 <= l -> Forall (fun x => is_cont x = true) cs -> bytes_ok cs ->
  trim_cut (l :: cs) = [].
Proof.
  intros Hl Hlead Hcs Hok. unfold trim_cut. cbn [rev].
  rewrite lstrip_by_conts.
  - simpl. rewrite land_cont by done. unfold is_cont.
    rewrite (proj2 (Z.ltb_ge l 0xC0)), andb_false_r by done.
    rewrite land_lead by done. by rewrite (proj2 (Z.leb_le _ _) Hlead).
  - apply Forall_rev. apply Forall_forall. intros x Hx. rewrite land_cont.
    + by eapply (proj1 (Forall_forall _ _) Hcs).
    + by eapply (proj1 (Forall_forall _ _) Hok).
Qed.

Lemma trim_cut_ascii l : byte_ok l -> l < 0x80 -> trim_cut [l] = [l].
Proof.
  intros Hl Hlt. unfold trim_cut. simpl. rewrite land_cont by done. unfold is_cont.
  rewrite (proj2 (Z.leb_gt 0x80 l)) by done. cbn [andb].
  rewrite land_lead by done. by rewrite (proj2 (Z.leb_gt 0xC0 l)) by lia.
Qed.

(** The cut keeps a whole number of characters. *)
Lemma trim_cut_prefix s b n :
  utf8_encode s = Some b -> exists k, utf8_encode (take k s) = Some (trim_cut (take n b)).
Proof.
  revert b n. induction s as [|c s IH]; intros b n; cbn [utf8_encode].
  { intros [= <-]. exists O. by destruct n. }
  rewrite bind_Some. intros (ch & Hch & H). apply bind_Some in H as (r & Hr & [= <-]).
  pose proof (utf8_char_ok _ _ Hch) as Hok.
  destruct (utf8_char_lead _ _ Hch) as (l & cs & -> & Hnc & Hcs & Hcs0 & Hlead).
  apply Forall_cons in Hok as [Hl Hcsok].
  destruct (decide (n < length (l :: cs))%nat) as [Hlt|Hge].
  - (* the cut is inside the first character *)
    exists O. rewrite take_app_le' by lia. destruct n as [|n]; [done|]. cbn [take].
    rewrite trim_cut_partial; [done|done| |by apply Forall_take|by apply Forall_take].
    apply Hlead. intros ->. simpl in Hlt. lia.
  - rewrite take_app_ge by lia.
    destruct (take (n - length (l :: cs)) r) as [|l' t] eqn:Ht.
    + (* the cut is right after it *)
      rewrite app_nil_r. destruct cs as [|c1 cs].
      * exists 1%nat. rewrite trim_cut_ascii by tauto. simpl. by rewrite Hch.
      * exists O. rewrite trim_cut_partial; auto.
    + (* the cut is in a later character *)
      destruct (IH r (n - length (l :: cs))%nat Hr) as [k Hk]. exists (S k).
      assert ((Z.land l' 0xC0 =? 0x80) = false) as Hl'.
      { destruct s as [|c' s]; simpl in Hr; [simplify_eq; by rewrite take_nil in Ht|].
        apply bind_Some in Hr as (ch' & Hch' & Hr). apply bind_Some in Hr as (r' & _ & [= <-]).
        pose proof (utf8_char_ok _ _ Hch') as Hok'.
        destruct (utf8_char_lead _ _ Hch') as (l0 & cs0 & -> & Hnc0 & _).
        destruct (n - _)%nat; simplify_eq/=. apply Forall_cons in Hok' as [? _].
        by rewrite land_cont. }
      rewrite trim_cut_app, <- Ht by done. cbn [take utf8_encode]. rewrite Hch. simpl.
      by rewrite Hk.
Qed.

Lemma utf8_no_nul s b : utf8_encode s = Some b -> 0 ∉ s -> 0 ∉ b.
Proof.
  revert b. induction s as [|c s IH]; intros b; cbn [utf8_encode].
  { intros [= <-]. done. }
  rewrite bind_Some. intros (ch & Hch & H) Hn. apply bind_Some in H as (r & Hr & [= <-]).
  rewrite not_elem_of_cons in Hn. destruct Hn as [Hc Hs].
  rewrite elem_of_app. intros [Hin|Hin]; [|by eapply IH].
  apply utf8_char_shape in Hch.
  assert (forall x, 0 <> cont x) as Hcont.
  { intros x. unfold cont. pose proof (Z.mod_pos_bound x 64). lia. }
  revert Hin. change (0 ∉ ch). destruct Hch as [H|H|H|H];
    rewrite ?not_elem_of_cons; split_and?; auto using not_elem_of_nil; zdm.
Qed.

Lemma rstrip0_no_nul b n : 0 ∉ b -> rstrip0 (ljust0 n b) = b.
Proof.
  intros H. unfold rstrip0, ljust0. rewrite rstrip_by_drop.
  - destruct b as [|x b _] using rev_ind; [done|]. apply rstrip_by_last.
    apply Z.eqb_neq. intros <-. apply H. rewrite elem_of_app. right. by left.
  - apply Forall_replicate. done.
Qed.

Lemma ljust0_length n b : (length b <= n)%nat -> length (ljust0 n b) = n.
Proof. intros. unfold ljust0. rewrite length_app, length_replicate. lia. Qed.

Lemma lstrip_by_length p (l : list Z) : (length (lstrip_by p l) <= length l)%nat.
Proof. induction l as [|x l IH]; simpl; [lia|]. case_match; simpl; lia. Qed.

Lemma trim_cut_length b : (length (trim_cut b) <= length b)%nat.
Proof.
  unfold trim_cut.
  pose proof (lstrip_by_length (fun x => Z.land x 0xC0 =? 0x80) (rev b)) as H.
  rewrite length_rev in H.
  destruct (lstrip_by _ _) as [|x r]; simpl in *; [lia|].
  case_match; cbn [rev]; rewrite ?length_app, ?length_rev; simpl; lia.
Qed.

Definition fits (s : pystr) (n : nat) : Prop :=
  exists b, utf8_encode s = Some b /\ (length b <= n)%nat /\ 0 ∉ s.

#[export] Instance fits_dec s n : Decision (fits s n).
Proof.
  refine (match utf8_encode s as o return utf8_encode s = o -> _ with
          | Some b => fun E => match decide ((length b <= n)%nat /\ 0 ∉ s) with
                               | left H => left _
                               | right H => right _
                               end
          | None => fun E => right _
          end eq_refl); unfold fits.
  - exists b. tauto.
  - intros (b' & E' & ?). simplify_eq. tauto.
  - intros (b' & E' & ?). congruence.
Defined.

Lemma fix_fits st s n :
  fits s n -> exists b, fix_ st s n = (st, Ok b) /\ length b = n /\ unfix b = s.
Proof.
  intros (b & Hb & Hl & H0). unfold fix_. rewrite Hb.
  rewrite (proj2 (Nat.ltb_ge _ _) Hl). eexists. split; [done|].
  split; [by apply ljust0_length|]. unfold unfix.
  rewrite rstrip0_no_nul by (by eapply utf8_no_nul).
  rewrite <- (app_nil_r b), (utf8_roundtrip _ _ _ Hb). by rewrite app_nil_r.
Qed.

(** ** The wire records as one interface

    What the gateways and the bus need of a payload type: a fixed size, and that
    packing a well-formed record touches no truncation counter and unpacks to the
    same record, whatever follows it in the buffer. *)

Class WireRecord (T : Type) := {
  w_size : nat;
  w_pack : Trunc -> T -> Trunc * result ModelError bytes;
  w_unpack : bytes -> result ModelError T;
  w_ok : T -> Prop;
  w_roundtrip st t rest :
    w_ok t -> exists raw, w_pack st t = (st, Ok raw) /\ length raw = w_size /\
                          w_unpack (raw ++ rest) = Ok t }.

Definition u64 (v : Z) : Prop := 0 <= v < 2 ^ 64.

Definition trade_ok (t : Trade) : Prop :=
  fits (symbol t) 16 /\ fits (venue t) 8 /\ u64 (ts_event_ns t) /\ u64 (ts_recv_ns t) /\
  0 <= side t < 256 /\ valid (price t) = true /\ valid (qty t) = true.

Definition book_ok (t : BookTop) : Prop :=
  fits (bk_symbol t) 16 /\ fits (bk_venue t) 8 /\ u64 (bk_ts_event_ns t) /\
  u64 (bk_ts_recv_ns t) /\ valid (bid t) = true /\ valid (bid_qty t) = true /\
  valid (ask t) = true /\ valid (ask_qty t) = true.

Definition signal_ok (t : Signal) : Prop :=
  fits (sg_symbol t) 16 /\ fits (sg_venue t) 8 /\ fits (strategy t) 16 /\ u64 (ts_ns t) /\
  -128 <= action t < 128 /\ valid (strength t) = true /\ valid (ref_price t) = true.

#[export] Instance trade_ok_dec t : Decision (trade_ok t).
Proof. unfold trade_ok, u64. apply _. Defined.

Lemma put_u_ok w v : 0 <= v < 256 ^ Z.of_nat w -> put_u w v = Ok (be_pack w v).
Proof.
  intros [H1 H2]. unfold put_u.
  by rewrite (proj2 (Z.leb_le _ _) H1), (proj2 (Z.ltb_lt _ _) H2).
Qed.

Lemma put_b_ok v : -128 <= v < 128 -> put_b v = Ok (be_pack 1 (v mod 256)).
Proof.
  intros [H1 H2]. unfold put_b.
  by rewrite (proj2 (Z.leb_le _ _) H1), (proj2 (Z.ltb_lt _ _) H2).
Qed.

Lemma get_put_b v : -128 <= v < 128 -> get_b (be_pack 1 (v mod 256)) = v.
Proof.
  intros H. unfold get_b. rewrite be_unpack_pack_id by (simpl; zdm).
  case_match; reflect_cmp; zdm.
Qed.

Lemma get_put_d x : valid x = true -> get_d (put_d x) = x.
Proof.
  intros H. unfold get_d, put_d. rewrite be_unpack_pack_id.
  - by apply of_to_bits.
  - by apply to_bits_bound.
Qed.

Lemma put_d_length x : length (put_d x) = 8%nat.
Proof. apply be_pack_length. Qed.

(** Reads the [k]-th of a list of concatenated fields. *)
Lemma slice_skip i j (a r : list Z) :
  (length a <= i)%nat -> slice i j (a ++ r) = slice (i - length a) (j - length a) r.
Proof.
  intros H. unfold slice. rewrite drop_app_ge by done. f_equal. lia.
Qed.

Lemma slice_head j (m r : list Z) : length m = j -> slice 0 j (m ++ r) = m.
Proof. intros <-. unfold slice. rewrite drop_0, Nat.sub_0_r. apply take_app_length. Qed.

Ltac field_length := rewrite ?be_pack_length, ?put_d_length, ?length_replicate; assumption || lia.

Ltac read_fields :=
  repeat match goal with
  | |- context [slice ?i ?j (?a ++ ?r)] =>
      first [ rewrite (slice_head j a r) by field_length
            | let n := fresh in
              assert (length a <= i)%nat as n by field_length;
              rewrite (slice_skip i j a r n); clear n;
              rewrite ?be_pack_length, ?put_d_length;
              repeat match goal with H : length a = _ |- _ => rewrite H end;
              cbn [Nat.sub] ]
  end.

#[export, refine] Instance trade_wire : WireRecord Trade :=
  {| w_size := TRADE_SIZE; w_pack := pack; w_unpack := unpack; w_ok := trade_ok |}.
Proof.
  intros st t rest (Hs & Hv & He & Hr & Hd & Hp & Hq). unfold pack.
  destruct (fix_fits st _ _ Hs) as (sym & -> & Ls & Us).
  destruct (fix_fits st _ _ Hv) as (ven & -> & Lv & Uv).
  rewrite !put_u_ok by done. cbn [rbind]. eexists. split; [done|].
  split; [rewrite !length_app, !be_pack_length, !put_d_length, Ls, Lv; done|].
  unfold unpack. rewrite (proj2 (Nat.leb_le _ _))
    by (rewrite !length_app, !be_pack_length, !put_d_length, Ls, Lv; unfold TRADE_SIZE, BOOK_SIZE; simpl; lia).
  rewrite <- !app_assoc. read_fields.
  rewrite Us, Uv, !get_put_d, !be_unpack_pack_id by done. by destruct t.
Defined.

#[export, refine] Instance book_wire : WireRecord BookTop :=
  {| w_size := BOOK_SIZE; w_pack := book_pack; w_unpack := book_unpack; w_ok := book_ok |}.
Proof.
  intros st t rest (Hs & Hv & He & Hr & Hb & Hbq & Ha & Haq). unfold book_pack.
  destruct (fix_fits st _ _ Hs) as (sym & -> & Ls & Us).
  destruct (fix_fits st _ _ Hv) as (ven & -> & Lv & Uv).
  rewrite !put_u_ok by done. cbn [rbind]. eexists. split; [done|].
  split; [rewrite !length_app, !be_pack_length, !put_d_length, Ls, Lv; done|].
  unfold book_unpack. rewrite (proj2 (Nat.leb_le _ _))
    by (rewrite !length_app, !be_pack_length, !put_d_length, Ls, Lv; unfold TRADE_SIZE, BOOK_SIZE; simpl; lia).
  rewrite <- !app_assoc. read_fields.
  rewrite Us, Uv, !get_put_d, !be_unpack_pack_id by done. by destruct t.
Defined.

#[export, refine] Instance signal_wire : WireRecord Signal :=
  {| w_size := SIGNAL_SIZE; w_pack := signal_pack; w_unpack := signal_unpack;
     w_ok := signal_ok |}.
Proof.
  intros st t rest (Hs & Hv & Hg & Ht & Ha & Hp & Hq). unfold signal_pack.
  destruct (fix_fits st _ _ Hs) as (sym & -> & Ls & Us).
  destruct (fix_fits st _ _ Hv) as (ven & -> & Lv & Uv).
  destruct (fix_fits st _ _ Hg) as (str & -> & Lg & Ug). cbn [rbind].
  rewrite put_u_ok, put_b_ok by done. cbn [rbind]. eexists. split; [done|].
  split; [rewrite !length_app, !be_pack_length, !put_d_length, Ls, Lv, Lg; done|].
  unfold signal_unpack. rewrite (proj2 (Nat.leb_le _ _))
    by (rewrite !length_app, !be_pack_length, !put_d_length, Ls, Lv, Lg; unfold SIGNAL_SIZE; simpl; lia).
  rewrite <- !app_assoc. read_fields.
  rewrite Us, Uv, Ug, !get_put_d, get_put_b, be_unpack_pack_id by done. by destruct t.
Defined.

(** ** Bars *)

Record bar_inv (b : Bar) (ps : list float) : Prop := mkBarInv
  { bi_open : head ps = Some (open b);
    bi_close : last ps = Some (close b);
    bi_high : high b ∈ ps; bi_low : low b ∈ ps;
    bi_bounds : Forall (fun p => fnlt (high b) p /\ fnlt p (low b)) ps;
    bi_count : tick_count b = Z.of_nat (length ps) }.

Lemma bar_first b t :
  tick_count b = 0 -> bar_inv (update b t) [price t].
Proof.
  intros H. unfold update. rewrite H. simpl.
  assert (fmax (price t) (price t) = price t) as Hx.
  { unfold fmax. by destruct (fgt _ _). }
  assert (fmin (price t) (price t) = price t) as Hn.
  { unfold fmin. by destruct (flt _ _). }
  split; simpl; rewrite ?Hx, ?Hn; try done; [by left..|].
  repeat constructor; apply flt_irrefl.
Qed.

Lemma fmax_choice a b : fmax a b = a \/ fmax a b = b.
Proof. unfold fmax. destruct (fgt b a); auto. Qed.
Lemma fmin_choice a b : fmin a b = a \/ fmin a b = b.
Proof. unfold fmin. destruct (flt b a); auto. Qed.

Lemma bar_step b ps t :
  Forall (fun p => is_nan p = false) ps -> is_nan (price t) = false ->
  bar_inv b ps -> bar_inv (update b t) (ps ++ [price t]).
Proof.
  intros Hnan Hp [Ho Hc Hh Hl Hb Hn].
  assert (ps <> []) as Hne by (by intros ->).
  assert ((tick_count b =? 0) = false) as Hz.
  { apply Z.eqb_neq. rewrite Hn. destruct ps; simpl; [done|lia]. }
  unfold update. rewrite Hz. rewrite Forall_forall in Hnan, Hb.
  assert (is_nan (fmax (high b) (price t)) = false) as Hx.
  { destruct (fmax_choice (high b) (price t)) as [->| ->]; auto. }
  assert (is_nan (fmin (low b) (price t)) = false) as Hm.
  { destruct (fmin_choice (low b) (price t)) as [->| ->]; auto. }
  destruct (fmax_ge (high b) (price t)) as [X1 X2].
  destruct (fmin_le (low b) (price t)) as [M1 M2].
  split; simpl.
  - by destruct ps.
  - by rewrite last_snoc.
  - rewrite elem_of_app, list_elem_of_singleton.
    destruct (fmax_choice (high b) (price t)) as [->| ->]; auto.
  - rewrite elem_of_app, list_elem_of_singleton.
    destruct (fmin_choice (low b) (price t)) as [->| ->]; auto.
  - apply Forall_forall. intros p. rewrite elem_of_app, list_elem_of_singleton.
    intros [Hin| ->]; [|done]. destruct (Hb _ Hin) as [B1 B2]. split.
    + by apply (fnlt_trans _ (high b)); auto.
    + by apply (fnlt_trans _ (low b)); auto.
  - rewrite Hn, length_app. simpl. lia.
Qed.

Lemma bar_fold b ps ts :
  bar_inv b ps -> Forall (fun p => is_nan p = false) (ps ++ (price <$> ts)) ->
  bar_inv (foldl update b ts) (ps ++ (price <$> ts)).
Proof.
  revert b ps. induction ts as [|t ts IH]; intros b ps Hb Hn.
  - by rewrite app_nil_r.
  - cbn [foldl fmap list_fmap] in *. rewrite cons_middle, app_assoc in Hn |- *.
    apply IH; [|done]. apply Forall_app in Hn as [[? ?]%Forall_app _].
    apply bar_step; [done|by inversion H0|done].
Qed.

(** ** Properties *)

(** packing and unpacking are inverse for the three wire records: a trade,
    quote or signal whose texts fit their fields, whose integers fit their widths and
    whose floats are binary64 packs to exactly 64, 72 or 72 bytes and unpacks to the
    same record, whatever bytes follow. *)
Theorem wire_records_roundtrip st rest :
  (forall t, trade_ok t -> exists raw, pack st t = (st, Ok raw) /\
     length raw = 64%nat /\ unpack (raw ++ rest) = Ok t) /\
  (forall q, book_ok q -> exists raw, book_pack st q = (st, Ok raw) /\
     length raw = 72%nat /\ book_unpack (raw ++ rest) = Ok q) /\
  (forall s, signal_ok s -> exists raw, signal_pack st s = (st, Ok raw) /\
     length raw = 72%nat /\ signal_unpack (raw ++ rest) = Ok s).
Proof.
  split; [|split]; intros t Hok.
  - exact (w_roundtrip (WireRecord := trade_wire) st t rest Hok).
  - exact (w_roundtrip (WireRecord := book_wire) st t rest Hok).
  - exact (w_roundtrip (WireRecord := signal_wire) st t rest Hok).
Qed.

Definition demo_trade : Trade :=
  mkTrade (lit "UPBIT") (lit "KRW-BTC") 1700000000000000000 1700000000001000000
    (int_div 3 2) (of_int 10) SIDE_BUY.

Lemma wire_records_roundtrip_witness :
  exists raw, pack no_trunc demo_trade = (no_trunc, Ok raw) /\ length raw = 64%nat /\
              unpack (raw ++ []) = Ok demo_trade.
Proof. apply (wire_records_roundtrip no_trunc []). by apply (bool_decide_unpack _). Defined.

(** a symbol too long for its field is cut at a character boundary, never inside
    a character: the field is exactly [n] bytes, it reads back as a prefix of the
    symbol, and the truncation is counted under the symbol's name. *)
Theorem fix_cuts_at_character st s n b :
  utf8_encode s = Some b -> 0 ∉ s -> (n < length b)%nat ->
  exists raw k st', fix_ st s n = (st', Ok raw) /\ length raw = n /\
    unfix raw = take k s /\ (k < length s)%nat /\
    truncated st' !! s = Some (default 0 (truncated st !! s) + 1).
Proof.
  intros Hb H0 Hn. unfold fix_. rewrite Hb, (proj2 (Nat.ltb_lt _ _) Hn).
  destruct (trim_cut_prefix s b n Hb) as [k Hk].
  pose proof (trim_cut_length (take n b)) as Hl. rewrite length_take in Hl.
  assert (0 ∉ take k s) as H0k.
  { intros Hin. apply H0. rewrite <- (take_drop k s). apply elem_of_app. by left. }
  eexists _, (k `min` length s)%nat, _. split; [done|]. split_and!.
  - apply ljust0_length. lia.
  - unfold unfix. rewrite rstrip0_no_nul by (by eapply utf8_no_nul).
    rewrite <- (app_nil_r (trim_cut _)), (utf8_roundtrip _ _ _ Hk), app_nil_r.
    destruct (decide (k <= length s)%nat); [by rewrite Nat.min_l by lia|].
    rewrite Nat.min_r, !take_ge by lia. done.
  - destruct (decide (k < length s)%nat); [lia|]. rewrite take_ge in Hk by lia.
    rewrite Hb in Hk. injection Hk as Hk. rewrite <- Hk in Hl. lia.
  - simpl. by rewrite lookup_insert_eq.
Qed.

Lemma fix_cuts_at_character_witness :
  exists raw k st', fix_ no_trunc [0xCF54; 0xC2A4; 0xD53C; 65; 66; 67] 8 = (st', Ok raw) /\
    length raw = 8%nat /\ unfix raw = take k [0xCF54; 0xC2A4; 0xD53C; 65; 66; 67] /\
    (k < 6)%nat /\ truncated st' !! [0xCF54; 0xC2A4; 0xD53C; 65; 66; 67] = Some 1.
Proof.
  eapply (fix_cuts_at_character no_trunc [0xCF54; 0xC2A4; 0xD53C; 65; 66; 67] 8).
  - vm_compute. reflexivity.
  - by apply (bool_decide_unpack _).
  - apply Nat.ltb_lt. reflexivity.
Defined.

(** the cut drops one character too many when it already falls on a character
    boundary: if [s] followed by a non-ASCII character [c] fills the field exactly and
    the symbol goes on, [c] is removed although it fits. *)
Theorem fix_drops_fitting_character st s c t n b bt :
  utf8_encode (s ++ [c]) = Some b -> length b = n -> 0x80 <= c -> 0 ∉ s ->
  utf8_encode t = Some bt -> bt <> [] ->
  exists raw st', fix_ st (s ++ [c] ++ t) n = (st', Ok raw) /\ unfix raw = s.
Proof.
  intros Hb Hn Hc H0 Ht Hne. unfold fix_.
  rewrite app_assoc, utf8_encode_app, Hb, Ht. cbn [mbind option_bind].
  rewrite (proj2 (Nat.ltb_lt _ _)) by (rewrite length_app; destruct bt; [done|simpl; lia]).
  rewrite take_app_length' by done.
  rewrite utf8_encode_app in Hb. apply bind_Some in Hb as (bs & Hs & Hb).
  apply bind_Some in Hb as (bc & Hbc & [= <-]).
  cbn [utf8_encode] in Hbc. apply bind_Some in Hbc as (ch & Hch & [= <-]).
  rewrite app_nil_r in *. pose proof (utf8_char_ok _ _ Hch) as Hok.
  destruct (utf8_char_lead _ _ Hch) as (l & cs & -> & Hnc & Hcs & Hcs0 & Hlead).
  apply Forall_cons in Hok as [Hl Hcsok].
  assert (cs <> []) as Hcsne.
  { intros ->. apply utf8_char_shape in Hch. inversion Hch; lia. }
  rewrite trim_cut_app, trim_cut_partial, app_nil_r by (auto; by rewrite land_cont).
  eexists _, _. split; [done|]. unfold unfix.
  rewrite rstrip0_no_nul by (by eapply utf8_no_nul).
  by rewrite <- (app_nil_r bs), (utf8_roundtrip _ _ _ Hs), app_nil_r.
Qed.

Lemma fix_drops_fitting_character_witness :
  exists raw st',
    fix_ no_trunc ([65; 0xCF54; 0xC2A4; 0xD53C; 0xB300] ++ [0xD615] ++ [66]) 16 = (st', Ok raw)
    /\ unfix raw = [65; 0xCF54; 0xC2A4; 0xD53C; 0xB300].
Proof.
  eapply (fix_drops_fitting_character no_trunc [65; 0xCF54; 0xC2A4; 0xD53C; 0xB300] 0xD615 [66] 16).
  - vm_compute. reflexivity.
  - reflexivity.
  - discriminate.
  - by apply (bool_decide_unpack _).
  - reflexivity.
  - discriminate.
Defined.

(** the collision report is blind to a collision between a truncated symbol and
    one that fits: when the cut of [s2] leaves exactly the bytes of [s1], both symbols
    have the same wire field and yet [symbol_collisions] is empty. *)
Theorem collision_with_untruncated_unreported s1 s2 n b1 b2 :
  utf8_encode s1 = Some b1 -> (length b1 <= n)%nat ->
  utf8_encode s2 = Some b2 -> (n < length b2)%nat -> trim_cut (take n b2) = b1 ->
  exists raw st', fix_ no_trunc s1 n = (no_trunc, Ok raw) /\
    fix_ no_trunc s2 n = (st', Ok raw) /\ symbol_collisions st' = ∅.
Proof.
  intros H1 L1 H2 L2 Ht. unfold fix_. rewrite H1, H2.
  rewrite (proj2 (Nat.ltb_ge _ _) L1), (proj2 (Nat.ltb_lt _ _) L2), Ht.
  eexists _, _. split; [done|]. split; [done|].
  unfold symbol_collisions, count_trunc, no_trunc. cbn [trunc_map truncated].
  rewrite lookup_empty. change (default ∅ None) with (∅ : gset (list Z)).
  rewrite union_empty_r_L, insert_empty, map_to_list_singleton.
  cbn [List.filter]. by rewrite size_singleton.
Qed.

Lemma collision_with_untruncated_unreported_witness :
  exists raw st', fix_ no_trunc (lit "ABCDEFGH") 8 = (no_trunc, Ok raw) /\
    fix_ no_trunc (lit "ABCDEFGHI") 8 = (st', Ok raw) /\ symbol_collisions st' = ∅.
Proof.
  eapply (collision_with_untruncated_unreported (lit "ABCDEFGH") (lit "ABCDEFGHI") 8).
  - reflexivity.
  - apply Nat.leb_le. reflexivity.
  - reflexivity.
  - apply Nat.ltb_lt. reflexivity.
  - vm_compute. reflexivity.
Defined.

(** a bar summarises its ticks: after any non-empty run of trades with non-NaN
    prices, the open is the first price, the close the last, the high and the low are
    traded prices that no price lies above (below), and the ticks are all counted. *)
Theorem bar_summarises_ticks v s bucket interval t ts :
  Forall (fun p => is_nan p = false) (price <$> t :: ts) ->
  let b := foldl update (new_bar v s bucket interval) (t :: ts) in
  let ps := price <$> t :: ts in
  open b = price t /\ last ps = Some (close b) /\ high b ∈ ps /\ low b ∈ ps /\
  Forall (fun p => flt (high b) p = false /\ flt p (low b) = false) ps /\
  tick_count b = Z.of_nat (length (t :: ts)).
Proof.
  intros Hn b ps.
  assert (bar_inv b ps) as [Ho Hc Hh Hl Hb Hk].
  { apply (bar_fold (update (new_bar v s bucket interval) t) [price t] ts); [by apply bar_first|done]. }
  split_and!; try done; [by injection Ho|]. rewrite Hk. unfold ps. by rewrite length_fmap.
Qed.

Lemma bar_summarises_ticks_witness :
  let b := foldl update (new_bar [] [] 0 60) [demo_trade; demo_trade] in
  open b = price demo_trade /\ tick_count b = 2.
Proof.
  destruct (bar_summarises_ticks [] [] 0 60 demo_trade [demo_trade]) as (H1 & _ & _ & _ & _ & H2).
  - by repeat constructor.
  - by split.
Defined.

End Models.
