(* ===== verification/Protocol.v ===== *)
(** * MDFP/1 framing (src/mdfeed/protocol.py)

    [encode] and [heartbeat] build frames; [FrameParser] is the streaming parser
    with its resynchronisation; [SequenceTracker] is the subscriber's gap detector. *)

From S2P Require Import Prelude Crc32.

Module Protocol.

Definition MAGIC : bytes := [77; 68; 70; 49].          (* b"MDF1" *)
Definition VERSION : Z := 1.
Definition HEADER_SIZE : nat := 20.
Definition CRC_SIZE : nat := 4.
Definition MAX_PAYLOAD : Z := Z.shiftl 1 20.
Definition FLAG_SNAPSHOT : Z := Z.shiftl 1 0.
Definition FLAG_COMPRESSED : Z := Z.shiftl 1 1.
Definition MSG_HEARTBEAT : Z := 1.

Inductive ProtocolError :=
| PayloadTooLarge (n : Z)
| StructError.                   (* struct.pack: argument out of range *)

(** struct.pack of one unsigned field of [w] bytes. *)
Definition pack_u (w : nat) (v : Z) : result ProtocolError bytes :=
  guard! (0 <=? v) && (v <? 256 ^ Z.of_nat w) else StructError in Ok (be_pack w v).

Definition encode (msg_type seq : Z) (payload : bytes) (flags : Z)
  : result ProtocolError bytes :=
  guard! zlen payload <=? MAX_PAYLOAD else PayloadTooLarge (zlen payload) in
  let! t := pack_u 1 msg_type in
  let! f := pack_u 2 flags in
  let! s := pack_u 8 seq in
  let! n := pack_u 4 (zlen payload) in
  let body := MAGIC ++ [VERSION] ++ t ++ f ++ s ++ n ++ payload in
  Ok (body ++ be_pack 4 (Z.land (crc32 body) 0xFFFFFFFF)).

Definition heartbeat (seq ts_ns : Z) : result ProtocolError bytes :=
  let! p := pack_u 8 ts_ns in encode MSG_HEARTBEAT seq p 0.

Record Frame := mkFrame { msg_type : Z; seq : Z; flags : Z; payload : bytes }.

Record FrameParser := mkParser
  { buf : bytes; resync_count : Z; crc_error_count : Z }.

Definition new_parser : FrameParser := mkParser [] 0 0.

Inductive status := OK (f : Frame) | NEED_MORE | RETRY.

(** [_resync]: jump to the next MAGIC after position 0, else keep 3 bytes. *)
Definition resync (p : FrameParser) : FrameParser * status :=
  match find_from MAGIC (buf p) 1 with
  | None =>
      let keep := (length MAGIC - 1)%nat in
      (mkParser (drop (length (buf p) - keep) (buf p))
         (resync_count p + 1) (crc_error_count p), NEED_MORE)
  | Some idx =>
      (mkParser (drop idx (buf p)) (resync_count p + 1) (crc_error_count p), RETRY)
  end.

Definition hdr_ver (b : bytes) : Z := be_unpack (slice 4 5 b).
Definition hdr_type (b : bytes) : Z := be_unpack (slice 5 6 b).
Definition hdr_flags (b : bytes) : Z := be_unpack (slice 6 8 b).
Definition hdr_seq (b : bytes) : Z := be_unpack (slice 8 16 b).
Definition hdr_length (b : bytes) : Z := be_unpack (slice 16 20 b).

Definition count_crc (p : FrameParser) : FrameParser :=
  mkParser (buf p) (resync_count p) (crc_error_count p + 1).

Definition try_one (p : FrameParser) : FrameParser * status :=
  let b := buf p in
  if (length b <? HEADER_SIZE)%nat then (p, NEED_MORE)
  else if negb (bool_decide (take 4 b = MAGIC)) then resync p
  else if negb (hdr_ver b =? VERSION) || (MAX_PAYLOAD <? hdr_length b) then resync p
  else if (length b <? HEADER_SIZE + Z.to_nat (hdr_length b) + CRC_SIZE)%nat
       then (p, NEED_MORE)
  else
    let n := (HEADER_SIZE + Z.to_nat (hdr_length b))%nat in
    let body := take n b in
    let crc := be_unpack (slice n (n + CRC_SIZE) b) in
    if negb (crc =? Z.land (crc32 body) 0xFFFFFFFF) then resync (count_crc p)
    else (mkParser (drop (n + CRC_SIZE) b) (resync_count p) (crc_error_count p),
          OK (mkFrame (hdr_type b) (hdr_seq b) (hdr_flags b) (drop HEADER_SIZE body))).

(** The loop of [feed]; [None] only when the fuel runs out. *)
Fixpoint feed_loop (fuel : nat) (p : FrameParser) : option (list Frame * FrameParser) :=
  match fuel with
  | O => None
  | S fuel =>
      match try_one p with
      | (p', NEED_MORE) => Some ([], p')
      | (p', RETRY) => feed_loop fuel p'
      | (p', OK f) => '(fs, p'') ← feed_loop fuel p'; Some (f :: fs, p'')
      end
  end.

Definition push (p : FrameParser) (chunk : bytes) : FrameParser :=
  mkParser (buf p ++ chunk) (resync_count p) (crc_error_count p).

(** [feed], consumed to the end of the generator.  Every turn of the loop
    shortens the buffer, so its length is enough fuel ([feed_total]). *)
Definition feed (p : FrameParser) (chunk : bytes) : option (list Frame * FrameParser) :=
  feed_loop (S (length (buf p ++ chunk))) (push p chunk).

(** One [feed] per received chunk. *)
Fixpoint feed_all (p : FrameParser) (chunks : list bytes)
  : option (list Frame * FrameParser) :=
  match chunks with
  | [] => Some ([], p)
  | c :: cs =>
      '(fs, p1) ← feed p c; '(gs, p2) ← feed_all p1 cs; Some (fs ++ gs, p2)
  end.

(** ** SequenceTracker *)

Record SequenceTracker := mkTracker
  { expected : option Z; gap_count : Z; lost_messages : Z; duplicate_count : Z }.

Definition new_tracker : SequenceTracker := mkTracker None 0 0 0.

Definition observe (t : SequenceTracker) (seq : Z) : SequenceTracker * Z :=
  match expected t with
  | None =>
      (mkTracker (Some (seq + 1)) (gap_count t) (lost_messages t) (duplicate_count t), 0)
  | Some e =>
      if seq =? e then
        (mkTracker (Some (e + 1)) (gap_count t) (lost_messages t) (duplicate_count t), 0)
      else if seq <? e then
        (mkTracker (Some e) (gap_count t) (lost_messages t) (duplicate_count t + 1), 0)
      else
        let lost := seq - e in
        (mkTracker (Some (seq + 1)) (gap_count t + 1) (lost_messages t + lost)
           (duplicate_count t), lost)
  end.

Definition observe_all (t : SequenceTracker) (seqs : list Z) : SequenceTracker :=
  foldl (fun t s => (observe t s).1) t seqs.

(** ** The parser as a function of its buffer

    The counters never influence the frames.  [classify] names the three ways
    [try_one] can go, [step] is [try_one] on the buffer alone. *)

Inductive verdict := Short | Bad | Good (body : nat).

Definition classify (b : bytes) : verdict :=
  if (length b <? HEADER_SIZE)%nat then Short
  else if negb (bool_decide (take 4 b = MAGIC)) then Bad
  else if negb (hdr_ver b =? VERSION) || (MAX_PAYLOAD <? hdr_length b) then Bad
  else if (length b <? HEADER_SIZE + Z.to_nat (hdr_length b) + CRC_SIZE)%nat then Short
  else
    let n := (HEADER_SIZE + Z.to_nat (hdr_length b))%nat in
    if negb (be_unpack (slice n (n + CRC_SIZE) b)
             =? Z.land (crc32 (take n b)) 0xFFFFFFFF) then Bad
    else Good n.

Definition frame_at (b : bytes) (n : nat) : Frame :=
  mkFrame (hdr_type b) (hdr_seq b) (hdr_flags b) (drop HEADER_SIZE (take n b)).

Definition resync_step (b : bytes) : status * bytes :=
  match find_from MAGIC b 1 with
  | None => (NEED_MORE, drop (length b - 3) b)
  | Some idx => (RETRY, drop idx b)
  end.

Definition step (b : bytes) : status * bytes :=
  match classify b with
  | Short => (NEED_MORE, b)
  | Bad => resync_step b
  | Good n => (OK (frame_at b n), drop (n + CRC_SIZE) b)
  end.

Lemma try_one_step p :
  exists p', try_one p = (p', (step (buf p)).1) /\ buf p' = (step (buf p)).2.
Proof.
  unfold try_one, step, classify, resync_step, resync. cbn zeta.
  repeat (case_match; simplify_eq/=); eauto.
Qed.

Lemma classify_Good_length b n :
  classify b = Good n -> (HEADER_SIZE <= n /\ n + CRC_SIZE <= length b)%nat.
Proof.
  unfold classify, HEADER_SIZE, CRC_SIZE. intros H.
  repeat case_match; simplify_eq/=. reflect_cmp. lia.
Qed.

Lemma classify_Bad_length b : classify b = Bad -> (HEADER_SIZE <= length b)%nat.
Proof. unfold classify. intros H. repeat case_match; simplify_eq/=; by reflect_cmp. Qed.

Lemma hdr_app b c :
  (HEADER_SIZE <= length b)%nat ->
  hdr_ver (b ++ c) = hdr_ver b /\ hdr_type (b ++ c) = hdr_type b /\
  hdr_flags (b ++ c) = hdr_flags b /\ hdr_seq (b ++ c) = hdr_seq b /\
  hdr_length (b ++ c) = hdr_length b.
Proof.
  unfold HEADER_SIZE, hdr_ver, hdr_type, hdr_flags, hdr_seq, hdr_length.
  intros. rewrite !slice_app_l by lia. done.
Qed.

Lemma classify_app b c : classify b <> Short -> classify (b ++ c) = classify b.
Proof.
  unfold classify. intros H.
  destruct (length b <? HEADER_SIZE)%nat eqn:E1; [done|].
  apply Nat.ltb_ge in E1. pose proof E1 as E1'. unfold HEADER_SIZE in E1'.
  destruct (hdr_app b c E1) as (Hv & _ & _ & _ & Hl). rewrite Hv, Hl.
  rewrite (proj2 (Nat.ltb_ge _ _)) by (rewrite length_app; lia).
  rewrite (take_app_le' 4) by lia.
  case_match; [done|]. case_match; [done|].
  destruct (length b <? _ + _ + _)%nat eqn:E2 in H |- *; [done|]. reflect_cmp.
  rewrite (proj2 (Nat.ltb_ge _ _)) by (rewrite length_app; lia).
  unfold HEADER_SIZE, CRC_SIZE in *.
  by rewrite slice_app_l, take_app_le' by lia.
Qed.

Lemma MAGIC_length_le l : is_prefix MAGIC l = true -> (4 <= length l)%nat.
Proof. apply is_prefix_length. Qed.

Lemma find_from_Some b i :
  find_from MAGIC b 1 = Some i <->
  (1 <= i)%nat /\ is_prefix MAGIC (drop i b) = true /\
  forall j, (1 <= j < i)%nat -> is_prefix MAGIC (drop j b) = false.
Proof.
  unfold find_from. rewrite fmap_Some. split.
  - intros (k & Hk & ->). apply find_sub_Some in Hk as [H1 H2].
    rewrite drop_drop in H1. split; [lia|]. split; [done|].
    intros j Hj. specialize (H2 (j - 1)%nat). rewrite drop_drop in H2.
    replace (1 + (j - 1))%nat with j in H2 by lia. apply H2. lia.
  - intros (H1 & H2 & H3). exists (i - 1)%nat. split; [|lia].
    apply find_sub_intro.
    + rewrite drop_drop. by replace (1 + (i - 1))%nat with i by lia.
    + intros j Hj. rewrite drop_drop. apply H3. lia.
Qed.

Lemma find_from_None b :
  find_from MAGIC b 1 = None <->
  forall j, (1 <= j)%nat -> is_prefix MAGIC (drop j b) = false.
Proof.
  unfold find_from. rewrite fmap_None, find_sub_None. split; intros H j.
  - intros Hj. specialize (H (j - 1)%nat). rewrite drop_drop in H.
    by replace (1 + (j - 1))%nat with j in H by lia.
  - rewrite drop_drop. apply H. lia.
Qed.

(** Every turn of the loop that continues makes the buffer shorter. *)
Lemma step_shrinks b s b' :
  step b = (s, b') -> s <> NEED_MORE -> (length b' < length b)%nat.
Proof.
  unfold step, resync_step. intros H Hs. destruct (classify b) eqn:E; simplify_eq.
  - destruct (find_from MAGIC b 1) as [i|] eqn:F; simplify_eq.
    apply find_from_Some in F as (H1 & H2 & _). apply MAGIC_length_le in H2.
    rewrite length_drop in *. lia.
  - apply classify_Good_length in E. rewrite length_drop. unfold HEADER_SIZE, CRC_SIZE in *. lia.
Qed.

Definition parse (p : FrameParser) := feed_loop (S (length (buf p))) p.

Lemma feed_loop_enough fuel p :
  (length (buf p) < fuel)%nat ->
  exists r, feed_loop fuel p = Some r /\
    forall fuel', (fuel <= fuel')%nat -> feed_loop fuel' p = Some r.
Proof.
  revert p. induction fuel as [|fuel IH]; intros p Hf; [lia|].
  destruct (try_one_step p) as (p1 & Ht & Hb). cbn [feed_loop]. rewrite Ht.
  destruct (step (buf p)) as [s b'] eqn:Hs. simpl in Ht, Hb.
  destruct s as [f| |]; simpl.
  - pose proof (step_shrinks _ _ _ Hs). destruct (IH p1) as (r & Hr & Hm).
    { rewrite Hb. assert (length b' < length (buf p))%nat by auto. lia. }
    rewrite Hr. destruct r as [fs p2]. eexists. split; [done|].
    intros [|fuel'] Hle; [lia|]. cbn [feed_loop]. rewrite Ht. simpl.
    rewrite Hm by lia. done.
  - eexists. split; [done|]. intros [|fuel'] Hle; [lia|]. cbn [feed_loop]. by rewrite Ht.
  - pose proof (step_shrinks _ _ _ Hs). destruct (IH p1) as (r & Hr & Hm).
    { rewrite Hb. assert (length b' < length (buf p))%nat by auto. lia. }
    rewrite Hr. eexists. split; [done|].
    intros [|fuel'] Hle; [lia|]. cbn [feed_loop]. rewrite Ht. simpl. apply Hm. lia.
Qed.

Lemma feed_loop_parse fuel p : (length (buf p) < fuel)%nat -> feed_loop fuel p = parse p.
Proof.
  intros H. unfold parse. destruct (feed_loop_enough (S (length (buf p))) p) as (r & -> & Hm); [lia|].
  apply Hm. lia.
Qed.

Lemma parse_total p : exists r, parse p = Some r.
Proof. destruct (feed_loop_enough (S (length (buf p))) p) as (r & ? & _); [lia|]. by exists r. Qed.

Lemma parse_unfold p :
  parse p = match try_one p with
            | (p', NEED_MORE) => Some ([], p')
            | (p', RETRY) => parse p'
            | (p', OK f) => '(fs, p'') ← parse p'; Some (f :: fs, p'')
            end.
Proof.
  unfold parse at 1. cbn [feed_loop]. destruct (try_one_step p) as (p1 & -> & Hb).
  destruct (step (buf p)) as [s b'] eqn:Hs. simpl in *.
  destruct s; simpl; try done; rewrite feed_loop_parse; try done;
    rewrite Hb; eapply step_shrinks; eauto.
Qed.

(** The frames in a buffer, and what is left of it. *)
Definition frames (b : bytes) : list Frame := default [] (fst <$> parse (mkParser b 0 0)).
Definition rest (b : bytes) : bytes := default [] (buf ∘ snd <$> parse (mkParser b 0 0)).

Lemma parse_buf p :
  exists p', parse p = Some (frames (buf p), p') /\ buf p' = rest (buf p).
Proof.
  remember (length (buf p)) as n eqn:Hn. revert p Hn.
  induction n as [n IH] using lt_wf_ind. intros p ->.
  unfold frames, rest. rewrite (parse_unfold p), (parse_unfold (mkParser _ _ _)).
  destruct (try_one_step p) as (p1 & Ht & Hb).
  destruct (try_one_step (mkParser (buf p) 0 0)) as (q1 & Hq & Hc). simpl in Hq, Hc.
  rewrite Ht, Hq. destruct (step (buf p)) as [s b'] eqn:Hs. simpl in *.
  assert (forall q, buf q = b' -> s <> NEED_MORE ->
    exists q', parse q = Some (frames b', q') /\ buf q' = rest b') as Hrec.
  { intros q <- Hne. eapply IH; [|done]. by eapply step_shrinks. }
  destruct s as [f| |]; simpl.
  - destruct (Hrec p1) as (p2 & -> & H2); [done..|].
    destruct (Hrec q1) as (q2 & -> & H3); [done..|]. simpl.
    exists p2. split; [done|]. congruence.
  - exists p1. split; [done|]. congruence.
  - destruct (Hrec p1) as (p2 & -> & H2); [done..|].
    destruct (Hrec q1) as (q2 & -> & H3); [done..|]. simpl.
    exists p2. split; [done|]. congruence.
Qed.

Lemma frames_rest_unfold b :
  (frames b, rest b) =
    match step b with
    | (NEED_MORE, b') => ([], b')
    | (RETRY, b') => (frames b', rest b')
    | (OK f, b') => (f :: frames b', rest b')
    end.
Proof.
  destruct (parse_buf (mkParser b 0 0)) as (p & Hp & Hr).
  rewrite parse_unfold in Hp. destruct (try_one_step (mkParser b 0 0)) as (q & Hq & Hb).
  rewrite Hq in Hp. simpl in *. destruct (step b) as [[f| |] b']; simpl in *.
  - destruct (parse_buf q) as (q' & Hq' & Hr'). rewrite Hq' in Hp. simplify_eq/=. congruence.
  - simplify_eq/=. congruence.
  - destruct (parse_buf q) as (q' & Hq' & Hr'). rewrite Hq' in Hp. simplify_eq/=. congruence.
Qed.

Lemma frames_unfold b :
  frames b = match step b with
             | (NEED_MORE, _) => []
             | (RETRY, b') => frames b'
             | (OK f, b') => f :: frames b'
             end.
Proof. pose proof (frames_rest_unfold b). by destruct (step b) as [[]]; simplify_eq. Qed.

Lemma rest_unfold b :
  rest b = match step b with (NEED_MORE, b') => b' | (_, b') => rest b' end.
Proof. pose proof (frames_rest_unfold b). by destruct (step b) as [[]]; simplify_eq. Qed.

Lemma feed_frames p chunk :
  exists p', feed p chunk = Some (frames (buf p ++ chunk), p') /\
             buf p' = rest (buf p ++ chunk).
Proof.
  unfold feed. rewrite feed_loop_parse by (simpl; lia). apply (parse_buf (push p chunk)).
Qed.

(** ** Frames do not depend on how the stream was cut *)

Lemma classify_short b : (length b < HEADER_SIZE)%nat -> classify b = Short.
Proof. intros H. unfold classify. by rewrite (proj2 (Nat.ltb_lt _ _) H). Qed.

Lemma classify_no_magic b :
  (HEADER_SIZE <= length b)%nat -> is_prefix MAGIC b = false -> classify b = Bad.
Proof.
  intros Hl Hp. unfold classify. rewrite (proj2 (Nat.ltb_ge _ _) Hl).
  rewrite is_prefix_take in Hp. change (length MAGIC) with 4%nat in Hp. by rewrite Hp.
Qed.

Lemma frames_short b : (length b < HEADER_SIZE)%nat -> frames b = [].
Proof. intros H. rewrite frames_unfold. unfold step. by rewrite classify_short. Qed.

Lemma frames_resync b :
  classify b = Bad ->
  frames b = match find_from MAGIC b 1 with None => [] | Some i => frames (drop i b) end.
Proof.
  intros H. rewrite frames_unfold. unfold step, resync_step. rewrite H. by destruct (find_from MAGIC b 1).
Qed.

(** Bytes in which no MAGIC starts can be dropped without losing a frame. *)
Lemma frames_skip d k :
  classify d = Bad -> (1 <= k)%nat ->
  (forall j, (1 <= j < k)%nat -> is_prefix MAGIC (drop j d) = false) ->
  frames d = frames (drop k d).
Proof.
  intros Hd Hk Hno. rewrite frames_resync by done.
  destruct (find_from MAGIC d 1) as [i|] eqn:F.
  - apply find_from_Some in F as (Hi & Hp & Hfirst).
    assert (k <= i)%nat as Hki.
    { destruct (decide (k <= i)%nat); [done|]. rewrite Hno in Hp by lia. done. }
    destruct (decide (i = k)) as [->|Hne]; [done|].
    replace i with (k + (i - k))%nat by lia. rewrite <- drop_drop.
    destruct (decide (length (drop k d) < HEADER_SIZE)%nat) as [Hs|Hl].
    { rewrite !frames_short; [done|done|]. rewrite length_drop. lia. }
    rewrite (frames_resync (drop k d)) by (apply classify_no_magic; [lia|apply Hfirst; lia]).
    assert (find_from MAGIC (drop k d) 1 = Some (i - k)%nat) as ->; [|done].
    apply find_from_Some. rewrite drop_drop.
    replace (k + (i - k))%nat with i by lia. split; [lia|]. split; [done|].
    intros j Hj. rewrite drop_drop. apply Hfirst. lia.
  - rewrite find_from_None in F. destruct (decide (length (drop k d) < HEADER_SIZE)%nat).
    { by rewrite frames_short. }
    rewrite frames_resync by (apply classify_no_magic; [lia|apply F; lia]).
    assert (find_from MAGIC (drop k d) 1 = None) as ->; [|done].
    apply find_from_None. intros j Hj. rewrite drop_drop. apply F. lia.
Qed.

Lemma find_from_app b c i :
  find_from MAGIC b 1 = Some i -> find_from MAGIC (b ++ c) 1 = Some i.
Proof.
  rewrite !find_from_Some. intros (Hi & Hp & Hno).
  assert (i + 4 <= length b)%nat as Hlen.
  { pose proof (MAGIC_length_le _ Hp) as Hm. rewrite length_drop in Hm. lia. }
  split; [done|]. split.
  - rewrite drop_app_le by lia. by apply is_prefix_app.
  - intros j Hj. rewrite drop_app_le by lia. rewrite is_prefix_app_inv; [by apply Hno|].
    change (length MAGIC) with 4%nat. rewrite length_drop. lia.
Qed.

Lemma frames_app b c : frames (b ++ c) = frames b ++ frames (rest b ++ c).
Proof.
  remember (length b) as n eqn:Hn. revert b Hn.
  induction n as [n IH] using lt_wf_ind. intros b ->.
  rewrite (frames_unfold b), (rest_unfold b).
  destruct (step b) as [s b'] eqn:Hs. pose proof Hs as Hs'.
  unfold step in Hs'. destruct (classify b) as [| |m] eqn:Hc; simplify_eq; [done| |].
  - unfold resync_step in Hs'. destruct (find_from MAGIC b 1) as [i|] eqn:F; simplify_eq.
    + rewrite <- (IH _ (step_shrinks _ _ _ Hs ltac:(done)) _ eq_refl).
      rewrite frames_resync by (rewrite classify_app; congruence).
      rewrite (find_from_app _ _ _ F). apply find_from_Some in F as (_ & Hp & _).
      apply MAGIC_length_le in Hp. rewrite length_drop in Hp. by rewrite drop_app_le by lia.
    + pose proof (classify_Bad_length _ Hc) as Hl. unfold HEADER_SIZE in Hl.
      rewrite find_from_None in F. simpl. rewrite <- drop_app_le by lia.
      apply frames_skip; [rewrite classify_app; congruence|lia|].
      intros j Hj. rewrite drop_app_le by lia. rewrite is_prefix_app_inv; [apply F; lia|].
      change (length MAGIC) with 4%nat. rewrite length_drop. lia.
  - rewrite <- app_comm_cons, <- (IH _ (step_shrinks _ _ _ Hs ltac:(done)) _ eq_refl).
    pose proof (classify_Good_length _ _ Hc) as [Hl1 Hl2]. unfold HEADER_SIZE, CRC_SIZE in *.
    rewrite frames_unfold. unfold step. rewrite classify_app, Hc by congruence.
    rewrite drop_app_le by (unfold CRC_SIZE; lia). f_equal.
    unfold frame_at. destruct (hdr_app b c) as (_ & -> & -> & -> & _); [unfold HEADER_SIZE; lia|].
    by rewrite take_app_le' by lia.
Qed.

(** What is left is stuck: the parser waits for more bytes. *)
Lemma step_rest b : step (rest b) = (NEED_MORE, rest b).
Proof.
  remember (length b) as n eqn:Hn. revert b Hn.
  induction n as [n IH] using lt_wf_ind. intros b ->.
  rewrite (rest_unfold b). destruct (step b) as [s b'] eqn:Hs. destruct s.
  - exact (IH _ (step_shrinks _ _ _ Hs ltac:(done)) _ eq_refl).
  - clear IH. unfold step, resync_step in Hs.
    destruct (classify b) eqn:Hc; repeat case_match; simplify_eq.
    + unfold step. by rewrite Hc.
    + apply classify_Bad_length in Hc. unfold step. rewrite classify_short; [done|].
      rewrite length_drop. unfold HEADER_SIZE in *. lia.
  - exact (IH _ (step_shrinks _ _ _ Hs ltac:(done)) _ eq_refl).
Qed.

Lemma feed_all_frames chunks p :
  step (buf p) = (NEED_MORE, buf p) ->
  exists p', feed_all p chunks = Some (frames (buf p ++ concat chunks), p').
Proof.
  revert p. induction chunks as [|c cs IH]; intros p Hp; simpl.
  - rewrite app_nil_r, frames_unfold, Hp. eauto.
  - destruct (feed_frames p c) as (p1 & -> & Hb). simpl.
    destruct (IH p1) as (p2 & ->); [rewrite Hb; apply step_rest|].
    exists p2. simpl. by rewrite Hb, <- frames_app, <- app_assoc.
Qed.

(** ** Encoding and parsing are inverse *)

Definition encode_frame (f : Frame) : result ProtocolError bytes :=
  encode (msg_type f) (seq f) (payload f) (flags f).

Definition header (f : Frame) : bytes :=
  MAGIC ++ be_pack 1 VERSION ++ be_pack 1 (msg_type f) ++ be_pack 2 (flags f) ++
  be_pack 8 (seq f) ++ be_pack 4 (zlen (payload f)).

Definition wire (f : Frame) : bytes :=
  (header f ++ payload f) ++ be_pack 4 (Z.land (crc32 (header f ++ payload f)) 0xFFFFFFFF).

Definition frame_ok (f : Frame) : Prop :=
  0 <= msg_type f < 256 /\ 0 <= flags f < 256 ^ 2 /\ 0 <= seq f < 256 ^ 8 /\
  zlen (payload f) <= MAX_PAYLOAD.

#[export] Instance frame_ok_dec f : Decision (frame_ok f).
Proof. unfold frame_ok. apply _. Defined.

Lemma pack_u_ok w v b : pack_u w v = Ok b <-> 0 <= v < 256 ^ Z.of_nat w /\ b = be_pack w v.
Proof.
  unfold pack_u. destruct (_ && _)%bool eqn:E; reflect_cmp; split.
  - intros [= <-]. done.
  - by intros [_ ->].
  - done.
  - intros [H _]. apply andb_false_iff in E as [E|E]; reflect_cmp; lia.
Qed.

Lemma pack_u_intro w v : 0 <= v < 256 ^ Z.of_nat w -> pack_u w v = Ok (be_pack w v).
Proof. intros. by apply pack_u_ok. Qed.

Lemma MAX_PAYLOAD_val : MAX_PAYLOAD = 1048576.
Proof. done. Qed.

Lemma encode_frame_ok f raw : encode_frame f = Ok raw <-> frame_ok f /\ raw = wire f.
Proof.
  unfold encode_frame, encode, frame_ok. rewrite MAX_PAYLOAD_val. split.
  - destruct (zlen (payload f) <=? _) eqn:E; [|done]. reflect_cmp.
    intros (t & Ht & (g & Hg & (s & Hs & (n & Hn & H)%rbind_Ok)%rbind_Ok)%rbind_Ok)%rbind_Ok.
    apply pack_u_ok in Ht as [? ->], Hg as [? ->], Hs as [? ->], Hn as [? ->].
    simplify_eq. split; [split_and!; simpl in *; lia|].
    unfold wire, header. rewrite <- !app_assoc. done.
  - intros [(Ht & Hf & Hs & Hl) ->]. rewrite (proj2 (Z.leb_le _ _) Hl).
    rewrite !pack_u_intro by (simpl in *; lia). cbn [rbind].
    unfold wire, header. rewrite <- !app_assoc. done.
Qed.

Lemma header_length f : length (header f) = HEADER_SIZE.
Proof. unfold header. rewrite !length_app, !be_pack_length. done. Qed.

Lemma wire_length f : length (wire f) = (HEADER_SIZE + length (payload f) + CRC_SIZE)%nat.
Proof. unfold wire. by rewrite !length_app, header_length, be_pack_length. Qed.

Lemma land_mask32 x : 0 <= Z.land x 0xFFFFFFFF < 256 ^ 4.
Proof. change 0xFFFFFFFF with (Z.ones 32). rewrite Z.land_ones by lia. apply Z.mod_pos_bound. lia. Qed.

(** The header fields read back from any buffer that starts with the header. *)
Lemma hdr_header f c :
  frame_ok f ->
  take 4 (header f ++ c) = MAGIC /\ hdr_ver (header f ++ c) = VERSION /\
  hdr_type (header f ++ c) = msg_type f /\ hdr_flags (header f ++ c) = flags f /\
  hdr_seq (header f ++ c) = seq f /\ hdr_length (header f ++ c) = zlen (payload f).
Proof.
  intros (Ht & Hf & Hs & Hl). rewrite MAX_PAYLOAD_val in Hl.
  split_and!; [done|done| | | |].
  - change (hdr_type (header f ++ c)) with (be_unpack (be_pack 1 (msg_type f))).
    by apply be_unpack_pack_id.
  - change (hdr_flags (header f ++ c)) with (be_unpack (be_pack 2 (flags f))).
    by apply be_unpack_pack_id.
  - change (hdr_seq (header f ++ c)) with (be_unpack (be_pack 8 (seq f))).
    by apply be_unpack_pack_id.
  - change (hdr_length (header f ++ c)) with (be_unpack (be_pack 4 (zlen (payload f)))).
    apply be_unpack_pack_id. simpl. lia.
Qed.

Lemma classify_wire f c :
  frame_ok f -> classify (wire f ++ c) = Good (HEADER_SIZE + length (payload f)).
Proof.
  intros Hok. unfold classify, wire. rewrite <- !app_assoc.
  destruct (hdr_header f (payload f ++ be_pack 4 (Z.land (crc32 (header f ++ payload f)) 0xFFFFFFFF) ++ c) Hok)
    as (-> & -> & _ & _ & _ & ->).
  assert (length (header f) = 20%nat) as Hh by apply header_length.
  destruct Hok as (_ & _ & _ & Hl). unfold HEADER_SIZE, CRC_SIZE.
  rewrite (proj2 (Nat.ltb_ge _ _)) by (rewrite !length_app; lia).
  rewrite bool_decide_eq_true_2, Z.eqb_refl by done. cbn [negb orb].
  rewrite (proj2 (Z.ltb_ge _ _) Hl), Nat2Z.id.
  rewrite (proj2 (Nat.ltb_ge _ _)) by (rewrite !length_app, be_pack_length; lia).
  rewrite !(app_assoc (header f)), slice_mid; [|rewrite length_app; lia|rewrite be_pack_length; lia].
  rewrite be_unpack_pack_id by apply land_mask32.
  replace (20 + length (payload f))%nat with (length (header f ++ payload f))
    by (rewrite length_app; lia).
  by rewrite take_app_length, Z.eqb_refl.
Qed.

Lemma step_wire f c : frame_ok f -> step (wire f ++ c) = (OK f, c).
Proof.
  intros Hok. unfold step. rewrite classify_wire by done. f_equal.
  - unfold frame_at, wire. rewrite <- !app_assoc.
    destruct (hdr_header f (payload f ++ be_pack 4 (Z.land (crc32 (header f ++ payload f)) 0xFFFFFFFF) ++ c) Hok)
      as (_ & _ & -> & -> & -> & _).
    rewrite app_assoc, take_app_length'
      by (rewrite length_app, header_length; done).
    rewrite drop_app_length' by (by rewrite header_length). by destruct f.
  - apply drop_app_length'. by rewrite wire_length.
Qed.

Lemma frames_wires fs c :
  Forall frame_ok fs -> frames (concat (wire <$> fs) ++ c) = fs ++ frames c.
Proof.
  induction 1 as [|f fs Hf _ IH]; [done|].
  cbn [fmap list_fmap concat]. rewrite <- app_assoc, frames_unfold, step_wire by done.
  by rewrite IH.
Qed.

Lemma frames_nil : frames [] = [].
Proof. apply frames_short. unfold HEADER_SIZE. simpl. lia. Qed.

(** A damaged byte inside the checked part of a frame makes the parser count a
    CRC error; bytes 0-4 and 16-19 (magic, version, length) are checked otherwise. *)
Definition crc_protected (i : nat) : Prop := (5 <= i < 16)%nat \/ (HEADER_SIZE <= i)%nat.

Lemma drop_cons_ge {A} (pre : list A) x post k :
  (S (length pre) <= k)%nat -> drop k (pre ++ x :: post) = drop (k - S (length pre)) post.
Proof.
  intros H. rewrite (cons_middle x), app_assoc, drop_app_ge; rewrite length_app; simpl; [|lia].
  f_equal. lia.
Qed.

Lemma slice_change i j pre x y post :
  (j <= length pre \/ S (length pre) <= i)%nat ->
  slice i j (pre ++ x :: post) = slice i j (pre ++ y :: post).
Proof.
  intros [H|H]; [by rewrite !slice_app_l by lia|].
  unfold slice. by rewrite !drop_cons_ge.
Qed.

Lemma land_word32 x : word32 x -> Z.land x 0xFFFFFFFF = x.
Proof.
  intros H. change 0xFFFFFFFF with (Z.ones 32). rewrite Z.land_ones by lia.
  by apply Z.mod_small.
Qed.

Lemma header_ok f : bytes_ok (header f).
Proof.
  unfold header. repeat apply bytes_ok_app; auto with bytes.
  by apply (bool_decide_unpack _).
Qed.

Section damaged.
Context (f : Frame) (pre post c : bytes) (b b' : Z).
Context (Hf : frame_ok f) (Hpl : bytes_ok (payload f)).
Context (Hbody : header f ++ payload f = pre ++ b :: post).
Context (Hpos : crc_protected (length pre)) (Hb' : byte_ok b') (Hne : b' <> b).

(** The frame as received: one byte of the body was changed in transit. *)
Definition damaged : bytes :=
  (pre ++ b' :: post) ++ be_pack 4 (Z.land (crc32 (header f ++ payload f)) 0xFFFFFFFF).

Lemma damaged_length : length damaged = length (wire f).
Proof using Hbody. unfold damaged, wire. rewrite Hbody, !length_app. done. Qed.

Lemma damaged_header :
  take 4 (damaged ++ c) = MAGIC /\ hdr_ver (damaged ++ c) = VERSION /\
  hdr_length (damaged ++ c) = zlen (payload f).
Proof using Hf Hbody Hpos.
  pose proof (hdr_header f (payload f ++ be_pack 4 (Z.land (crc32 (header f ++ payload f)) 0xFFFFFFFF) ++ c) Hf)
    as (Ht & Hv & _ & _ & _ & Hl). revert Ht Hv Hl.
  unfold damaged, hdr_ver, hdr_length, crc_protected, HEADER_SIZE in *.
  change (take 4) with (slice 0 4). rewrite (app_assoc (header f)), Hbody.
  rewrite <- !app_assoc. cbn [app].
  rewrite (slice_change 0 4 pre b b') by lia. rewrite (slice_change 4 5 pre b b') by lia.
  rewrite (slice_change 16 20 pre b b') by lia. done.
Qed.

Lemma damaged_crc :
  word32 (crc32 (pre ++ b' :: post)) /\ word32 (crc32 (header f ++ payload f)) /\
  crc32 (header f ++ payload f) <> crc32 (pre ++ b' :: post).
Proof using Hpl Hbody Hb' Hne.
  assert (bytes_ok (header f ++ payload f)) as Hok
    by (apply bytes_ok_app; [apply header_ok|done]).
  split_and!.
  - apply crc32_range. rewrite Hbody in Hok.
    apply Forall_app in Hok as [? [? ?]%Forall_cons]. auto with bytes.
  - by apply crc32_range.
  - rewrite Hbody in *. apply Forall_app in Hok as [? [? ?]%Forall_cons].
    by apply crc32_single_byte.
Qed.

Lemma damaged_tests :
  let n := (HEADER_SIZE + Z.to_nat (hdr_length (damaged ++ c)))%nat in
  (length (damaged ++ c) <? HEADER_SIZE)%nat = false /\
  (length (damaged ++ c) <? n + CRC_SIZE)%nat = false /\
  (MAX_PAYLOAD <? hdr_length (damaged ++ c)) = false /\
  (be_unpack (slice n (n + CRC_SIZE) (damaged ++ c))
     =? Z.land (crc32 (take n (damaged ++ c))) 0xFFFFFFFF) = false.
Proof using Hf Hpl Hbody Hpos Hb' Hne.
  destruct damaged_header as (_ & _ & ->). rewrite Nat2Z.id.
  pose proof (header_length f) as Hh. unfold HEADER_SIZE in Hh.
  assert (length (pre ++ b' :: post) = (20 + length (payload f))%nat) as Hl.
  { transitivity (length (header f ++ payload f)); [|rewrite length_app; lia].
    rewrite Hbody, !length_app. done. }
  unfold HEADER_SIZE, CRC_SIZE, damaged.
  rewrite !Nat.ltb_ge, Z.ltb_ge, Z.eqb_neq, !(length_app _ c), (length_app (pre ++ _)), be_pack_length.
  split_and!; [lia|lia|apply Hf|].
  rewrite <- app_assoc, slice_mid by (rewrite ?be_pack_length; lia).
  rewrite take_app_length' by done.
  destruct damaged_crc as (? & ? & ?).
  rewrite be_unpack_pack_id by apply land_mask32. by rewrite !land_word32.
Qed.

Lemma damaged_try_one r k :
  try_one (mkParser (damaged ++ c) r k) = resync (mkParser (damaged ++ c) r (k + 1)).
Proof using Hf Hpl Hbody Hpos Hb' Hne.
  unfold try_one. cbn [buf]. destruct damaged_header as (Ht & Hv & _).
  destruct damaged_tests as (-> & -> & -> & ->). rewrite Ht, Hv.
  by rewrite bool_decide_eq_true_2, Z.eqb_refl.
Qed.

Lemma damaged_classify : classify (damaged ++ c) = Bad.
Proof using Hf Hpl Hbody Hpos Hb' Hne.
  unfold classify. destruct damaged_header as (Ht & Hv & _).
  destruct damaged_tests as (-> & -> & -> & ->). rewrite Ht, Hv.
  by rewrite bool_decide_eq_true_2, Z.eqb_refl.
Qed.
End damaged.

(** ** Gap accounting *)

(** [observed t e d s0 n]: after [n] frames the first of which had number [s0]. *)
Record accounted (t : SequenceTracker) (s0 : Z) (n : nat) : Prop := mkAccounted
  { acc_expected : exists e, expected t = Some e /\
      e - s0 = (Z.of_nat n - duplicate_count t) + lost_messages t;
    acc_dups : 0 <= duplicate_count t;
    acc_gaps : 0 <= gap_count t <= lost_messages t;
    acc_lossless : gap_count t = 0 <-> lost_messages t = 0 }.

Lemma observe_first s : accounted (observe new_tracker s).1 s 1.
Proof. split; simpl; try lia. exists (s + 1). split; [done|lia]. Qed.

Lemma observe_accounted t s0 n s :
  accounted t s0 n -> accounted (observe t s).1 s0 (S n).
Proof.
  intros [(e & He & Heq) Hd Hg Hl]. unfold observe. rewrite He.
  repeat case_match; reflect_cmp; split; simpl; try lia; eexists; (split; [done|]); lia.
Qed.

Lemma observe_all_accounted t s0 n l :
  accounted t s0 n -> accounted (observe_all t l) s0 (n + length l).
Proof.
  revert t n. induction l as [|s l IH]; intros t n H; simpl.
  - by rewrite Nat.add_0_r.
  - rewrite Nat.add_succ_r. apply (IH _ (S n)). by apply observe_accounted.
Qed.

Lemma observe_expected_max t s :
  forall e, expected t = Some e ->
    expected (observe t s).1 = Some (Z.max e (s + 1)).
Proof.
  intros e He. unfold observe. rewrite He.
  repeat case_match; reflect_cmp; simpl; f_equal; lia.
Qed.

(** ** Properties *)

(** C1: [feed] always terminates, and the frames it yields depend only on the bytes
    received, not on how the transport cut them into chunks: feeding the chunks one
    by one gives exactly the frames of feeding their concatenation (whatever the
    bytes are: whole frames, garbage, damaged frames). *)
Theorem feed_chunk_invariant (chunks : list bytes) :
  exists fs p1 p2,
    feed_all new_parser chunks = Some (fs, p1) /\
    feed new_parser (concat chunks) = Some (fs, p2).
Proof.
  destruct (feed_all_frames chunks new_parser eq_refl) as (p1 & H1).
  destruct (feed_frames new_parser (concat chunks)) as (p2 & H2 & _). eauto.
Qed.

(** C2: whatever is encoded is decoded: the encodings of a list of frames, cut
    into chunks at arbitrary points, parse back to exactly that list in order. *)
Theorem encode_feed_roundtrip (fs : list Frame) (raws chunks : list bytes) :
  Forall2 (fun f r => encode_frame f = Ok r) fs raws ->
  concat chunks = concat raws ->
  exists p', feed_all new_parser chunks = Some (fs, p').
Proof.
  intros H Hc. destruct (feed_all_frames chunks new_parser eq_refl) as (p' & Hp).
  exists p'. rewrite Hp, Hc. simpl.
  assert (raws = wire <$> fs /\ Forall frame_ok fs) as [-> Hok].
  { clear -H. induction H as [|f r fs rs Hr _ [-> IH]]; [done|].
    apply encode_frame_ok in Hr as [? ->]. split; [done|by constructor]. }
  rewrite <- (app_nil_r (concat _)), frames_wires by done. by rewrite frames_nil, app_nil_r.
Qed.

Definition demo_frames : list Frame :=
  [mkFrame 2 7 0 [1; 2; 3]; mkFrame 1 8 0 []; mkFrame 2 9 1 [77; 68; 70; 49]].

Lemma encode_feed_roundtrip_witness :
  exists raws p',
    feed_all new_parser [take 10 (concat raws); drop 10 (concat raws)] = Some (demo_frames, p').
Proof.
  exists (wire <$> demo_frames).
  apply (encode_feed_roundtrip demo_frames (wire <$> demo_frames)).
  - repeat constructor.
  - vm_compute. reflexivity.
Defined.

(** a frame with one damaged byte (outside magic, version and length) never
    reaches the subscriber: the parser counts one CRC error and one resync, and when
    no MAGIC starts inside the damaged frame every other frame of the stream is
    delivered, those before it and those after it. *)
Theorem damaged_frame_discarded f pre post b b' fs gs :
  frame_ok f -> bytes_ok (payload f) -> header f ++ payload f = pre ++ b :: post ->
  crc_protected (length pre) -> byte_ok b' -> b' <> b ->
  Forall frame_ok fs -> Forall frame_ok gs ->
  let bad := damaged f pre post b' in
  let tail := bad ++ concat (wire <$> gs) in
  find_from MAGIC tail 1 = Some (length bad) ->
  (exists p', feed new_parser (concat (wire <$> fs) ++ tail) = Some (fs ++ gs, p')) /\
  forall r k, try_one (mkParser tail r k) =
              (mkParser (concat (wire <$> gs)) (r + 1) (k + 1), RETRY).
Proof.
  intros Hf Hpl Hbody Hpos Hb' Hne Hfs Hgs bad tail Hfind. split.
  - destruct (feed_frames new_parser (concat (wire <$> fs) ++ tail)) as (p' & -> & _).
    exists p'. simpl. rewrite frames_wires by done.
    rewrite (frames_resync tail) by (by eapply damaged_classify).
    rewrite Hfind. unfold tail. rewrite drop_app_length.
    by rewrite <- (app_nil_r (concat _)), frames_wires, frames_nil, app_nil_r.
  - intros r k. unfold tail, bad.
    rewrite (damaged_try_one f pre post (concat (wire <$> gs)) b b') by done.
    unfold resync. cbn [buf resync_count crc_error_count]. fold bad tail.
    rewrite Hfind. unfold tail. by rewrite drop_app_length.
Qed.

Lemma damaged_frame_discarded_witness :
  exists bad p', feed new_parser (concat (wire <$> take 1 demo_frames) ++ bad
                                  ++ concat (wire <$> drop 1 demo_frames))
                 = Some (demo_frames, p').
Proof.
  set (f := mkFrame 2 5 0 [10; 20]).
  exists (damaged f (header f ++ [10]) [] 21).
  pose proof (damaged_frame_discarded f (header f ++ [10]) [] 20 21
                (take 1 demo_frames) (drop 1 demo_frames)) as H.
  destruct H as [(p' & Hp) _].
  - by apply (bool_decide_unpack _).
  - by apply (bool_decide_unpack _).
  - reflexivity.
  - right. apply Nat.leb_le. reflexivity.
  - by apply (bool_decide_unpack _).
  - discriminate.
  - by apply (bool_decide_unpack _).
  - by apply (bool_decide_unpack _).
  - vm_compute. reflexivity.
  - by exists p'.
Defined.

(** [encode] produces a frame exactly when every field fits its width and the
    payload is at most 1 MiB, and then the frame is 24 bytes longer than the payload;
    an oversized payload is refused before anything else is looked at. *)
Theorem encode_spec f :
  (forall raw, encode_frame f = Ok raw ->
     frame_ok f /\ length raw = (24 + length (payload f))%nat) /\
  (frame_ok f -> exists raw, encode_frame f = Ok raw) /\
  (MAX_PAYLOAD < zlen (payload f) ->
     encode_frame f = Err (PayloadTooLarge (zlen (payload f)))) /\
  (zlen (payload f) <= MAX_PAYLOAD -> ~ frame_ok f -> encode_frame f = Err StructError).
Proof.
  split_and!.
  - intros raw [Hok ->]%encode_frame_ok. rewrite wire_length. unfold HEADER_SIZE, CRC_SIZE.
    split; [done|lia].
  - intros Hok. exists (wire f). by apply encode_frame_ok.
  - intros H. unfold encode_frame, encode. by rewrite (proj2 (Z.leb_gt _ _) H).
  - intros H Hn. destruct (encode_frame f) as [raw|e] eqn:E.
    { apply encode_frame_ok in E as [? _]. done. }
    revert E. unfold encode_frame, encode, pack_u, rbind.
    rewrite (proj2 (Z.leb_le _ _) H). repeat case_match; congruence.
Qed.

Lemma encode_spec_witness :
  encode_frame (mkFrame 2 (2 ^ 64) 0 []) = Err StructError.
Proof.
  apply (proj2 (proj2 (proj2 (encode_spec (mkFrame 2 (2 ^ 64) 0 []))))).
  - discriminate.
  - by apply (bool_decide_unpack _).
Defined.

(** the sequence tracker's books balance for any order of arrival, duplicates
    and gaps included: the numbers covered so far (next expected minus first seen)
    are the frames received that were not duplicates plus the messages reported
    lost, and no gap is reported exactly when nothing was lost. *)
Theorem tracker_conservation s l :
  let t := observe_all new_tracker (s :: l) in
  exists e, expected t = Some e /\
    e - s = (Z.of_nat (S (length l)) - duplicate_count t) + lost_messages t /\
    0 <= duplicate_count t /\ 0 <= gap_count t <= lost_messages t /\
    (gap_count t = 0 <-> lost_messages t = 0).
Proof.
  intros t. destruct (observe_all_accounted _ _ _ l (observe_first s)) as [(e & He & Heq) Hd Hg Hl].
  exists e. change t with (observe_all (observe new_tracker s).1 l). by split_and!; try apply Hl; try apply Hg.
Qed.

End Protocol.
