(* ===== verification/RingBuffer.v ===== *)
(** * Shared-memory ring buffer (src/mdfeed/ringbuffer.py)

    One producer, any number of readers with cursors of their own, over one flat
    shared memory.  [push] and [poll] are the sequential operations; the reader's
    three loads are also given one by one, for the interleavings of two processes. *)

From S2P Require Import Prelude.

Module Ring.

Definition HDR_SIZE : nat := 64.
Definition SLOT_HDR : nat := 12.
Definition SLOT_TAIL : nat := 8.
Definition MAGIC : bytes := [77; 68; 82; 66].          (* b"MDRB" *)

Inductive RingError := ValueError | StructError.

(** [buf[off:off+n] = bs] on the shared memory, and the read. *)
Definition put (off : nat) (bs m : bytes) : bytes :=
  take off m ++ bs ++ drop (off + length bs) m.
Definition get (off n : nat) (m : bytes) : bytes := slice off (off + n) m.

Record RingBuffer := mkRing
  { capacity : nat; slot_size : nat; mem : bytes }.

Definition payload_max (r : RingBuffer) : nat := slot_size r - SLOT_HDR - SLOT_TAIL.

Definition set_mem (r : RingBuffer) (m : bytes) : RingBuffer :=
  mkRing (capacity r) (slot_size r) m.

(** The header: magic, slot_size, capacity, reserved, write_seq, read_hint, dropped. *)
Definition header (ss cap : nat) : bytes :=
  MAGIC ++ be_pack 4 (Z.of_nat ss) ++ be_pack 4 (Z.of_nat cap) ++ be_pack 4 0 ++
  be_pack 8 0 ++ be_pack 8 0 ++ be_pack 8 0.

(** [RingBuffer(name, capacity, slot_size, create=True)]: a fresh segment. *)
Definition create (cap ss : nat) : result RingError RingBuffer :=
  guard! (SLOT_HDR + SLOT_TAIL <? ss)%nat else ValueError in
  guard! (Z.of_nat ss <? 2 ^ 32) && (Z.of_nat cap <? 2 ^ 32) else StructError in
  Ok (mkRing cap ss (put 0 (header ss cap) (replicate (HDR_SIZE + cap * ss) 0))).

(** Attaching to an existing segment: the geometry comes from its header. *)
Definition attach (cap ss : nat) (m : bytes) : result RingError RingBuffer :=
  guard! (SLOT_HDR + SLOT_TAIL <? ss)%nat else ValueError in
  guard! bool_decide (get 0 4 m = MAGIC) else ValueError in
  Ok (mkRing (Z.to_nat (be_unpack (get 8 4 m))) (Z.to_nat (be_unpack (get 4 4 m))) m).

Definition write_seq (r : RingBuffer) : Z := be_unpack (get 16 8 (mem r)).
Definition set_write_seq (r : RingBuffer) (v : Z) : RingBuffer :=
  set_mem r (put 16 (be_pack 8 v) (mem r)).
Definition dropped (r : RingBuffer) : Z := be_unpack (get 32 8 (mem r)).

Definition slot_off (r : RingBuffer) (seq : Z) : nat :=
  HDR_SIZE + Z.to_nat (seq mod Z.of_nat (capacity r)) * slot_size r.

(** The producer's stores, in program order. *)
Definition store_head (r : RingBuffer) (seq : Z) (n : nat) : RingBuffer :=
  set_mem r (put (slot_off r seq) (be_pack 8 seq ++ be_pack 4 (Z.of_nat n)) (mem r)).
Definition store_payload (r : RingBuffer) (seq : Z) (p : bytes) : RingBuffer :=
  set_mem r (put (slot_off r seq + SLOT_HDR) p (mem r)).
Definition store_tail (r : RingBuffer) (seq : Z) : RingBuffer :=
  set_mem r (put (slot_off r seq + slot_size r - SLOT_TAIL) (be_pack 8 seq) (mem r)).

Definition push (r : RingBuffer) (payload : bytes) : RingBuffer * result RingError Z :=
  let n := length payload in
  if (payload_max r <? n)%nat then (r, Err ValueError)
  else
    let seq := write_seq r in
    let r := store_tail (store_payload (store_head r seq n) seq payload) seq in
    if 2 ^ 64 <=? seq + 1 then (r, Err StructError)
    else (set_write_seq r (seq + 1), Ok seq).

Record RingReader := mkReader { cursor : Z; skipped : Z; torn : Z }.

Definition new_reader (r : RingBuffer) (start : option Z) : RingReader :=
  mkReader (default (write_seq r) start) 0 0.

(** The reader's loads. *)
Definition load_head (r : RingBuffer) (seq : Z) : Z * nat :=
  let off := slot_off r seq in
  (be_unpack (get off 8 (mem r)), Z.to_nat (be_unpack (get (off + 8) 4 (mem r)))).
Definition load_data (r : RingBuffer) (seq : Z) (n : nat) : bytes :=
  get (slot_off r seq + SLOT_HDR) n (mem r).
Definition load_tail (r : RingBuffer) (seq : Z) : Z :=
  be_unpack (get (slot_off r seq + slot_size r - SLOT_TAIL) 8 (mem r)).

(** The checks: [None] means the slot is given up as torn. *)
Definition head_ok (r : RingBuffer) (seq : Z) (h : Z * nat) : bool :=
  (h.1 =? seq) && (h.2 <=? payload_max r)%nat.

Definition read_slot (r : RingBuffer) (seq : Z) : option bytes :=
  let h := load_head r seq in
  if head_ok r seq h then
    let data := load_data r seq h.2 in
    if load_tail r seq =? seq then Some data else None
  else None.

(** The reading loop of [poll], [todo] slots below [write_seq]. *)
Fixpoint poll_loop (r : RingBuffer) (todo : nat) (room : nat) (k : RingReader)
  : RingReader * list bytes :=
  match todo, room with
  | S todo, S room' =>
      match read_slot r (cursor k) with
      | None => poll_loop r todo room (mkReader (cursor k + 1) (skipped k) (torn k + 1))
      | Some d =>
          let '(k', out) := poll_loop r todo room' (mkReader (cursor k + 1) (skipped k) (torn k)) in
          (k', d :: out)
      end
  | _, _ => (k, [])
  end.

Definition catch_up (r : RingBuffer) (k : RingReader) : RingReader :=
  let w := write_seq r in
  let behind := w - cursor k in
  let cap := Z.of_nat (capacity r) in
  if cap <? behind then mkReader (w - cap) (skipped k + (behind - cap)) (torn k) else k.

Definition poll (r : RingBuffer) (k : RingReader) (max_items : nat)
  : RingReader * list bytes :=
  let k := catch_up r k in
  poll_loop r (Z.to_nat (write_seq r - cursor k)) max_items k.

Definition backlog (r : RingBuffer) (k : RingReader) : Z := write_seq r - cursor k.

(** ** Two processes

    The producer's four stores and the reader's three loads interleave freely; the
    memory is the only thing they share. *)

Inductive pstate :=
| PIdle
| PHead (seq : Z) (p : bytes)
| PPayload (seq : Z) (p : bytes)
| PTail (seq : Z) (p : bytes).

Inductive rstate :=
| RIdle
| RHead (seq : Z) (n : nat)
| RData (seq : Z) (data : bytes).

(** [history] lists every payload whose push has started, by sequence number;
    [delivered] what the reader appended to its output. *)
Record system := mkSystem
  { ring : RingBuffer; prod : pstate; rd : rstate; rcur : Z;
    history : list bytes; delivered : list (Z * bytes) }.

Inductive sys_step : system -> system -> Prop :=
| p_head r rs c h d p :
    (length p <= payload_max r)%nat ->
    sys_step (mkSystem r PIdle rs c h d)
      (mkSystem (store_head r (write_seq r) (length p)) (PHead (write_seq r) p) rs c (h ++ [p]) d)
| p_payload r rs c h d s p :
    sys_step (mkSystem r (PHead s p) rs c h d)
      (mkSystem (store_payload r s p) (PPayload s p) rs c h d)
| p_tail r rs c h d s p :
    sys_step (mkSystem r (PPayload s p) rs c h d)
      (mkSystem (store_tail r s) (PTail s p) rs c h d)
| p_done r rs c h d s p :
    sys_step (mkSystem r (PTail s p) rs c h d)
      (mkSystem (set_write_seq r (s + 1)) PIdle rs c h d)
| r_head r ps c h d :
    c < write_seq r -> head_ok r c (load_head r c) = true ->
    sys_step (mkSystem r ps RIdle c h d) (mkSystem r ps (RHead c (load_head r c).2) c h d)
| r_data r ps c h d s n :
    sys_step (mkSystem r ps (RHead s n) c h d)
      (mkSystem r ps (RData s (load_data r s n)) c h d)
| r_accept r ps c h d s data :
    load_tail r s = s ->
    sys_step (mkSystem r ps (RData s data) c h d)
      (mkSystem r ps RIdle (c + 1) h (d ++ [(s, data)]))
| r_torn_head r ps c h d :
    c < write_seq r -> head_ok r c (load_head r c) = false ->
    sys_step (mkSystem r ps RIdle c h d) (mkSystem r ps RIdle (c + 1) h d)
| r_torn_tail r ps c h d s data :
    load_tail r s <> s ->
    sys_step (mkSystem r ps (RData s data) c h d) (mkSystem r ps RIdle (c + 1) h d)
| r_catch_up r ps c h d :
    Z.of_nat (capacity r) < write_seq r - c ->
    sys_step (mkSystem r ps RIdle c h d)
      (mkSystem r ps RIdle (write_seq r - Z.of_nat (capacity r)) h d).

Inductive reachable (s : system) : system -> Prop :=
| reach_refl : reachable s s
| reach_step t u : reachable s t -> sys_step t u -> reachable s u.

(** ** Memory lemmas *)

Create HintDb ring.

Lemma put_length off bs m :
  (off + length bs <= length m)%nat -> length (put off bs m) = length m.
Proof. intros. unfold put. rewrite !length_app, length_take, length_drop. lia. Qed.

Lemma get_put_in off bs m i n :
  (off + length bs <= length m)%nat -> (i + n <= length bs)%nat ->
  get (off + i) n (put off bs m) = get i n bs.
Proof.
  intros H1 H2. unfold get, put, slice.
  rewrite drop_app_ge by (rewrite length_take; lia). rewrite length_take.
  replace (off + i - off `min` length m)%nat with i by lia.
  rewrite drop_app_le by lia. rewrite take_app_le by (rewrite length_drop; lia).
  f_equal; lia.
Qed.

Lemma get_put_same off bs m n :
  length bs = n -> (off + n <= length m)%nat -> get off n (put off bs m) = bs.
Proof.
  intros <- H. replace off with (off + 0)%nat at 1 by lia. rewrite get_put_in by lia.
  unfold get, slice. rewrite drop_0, take_ge; [done|lia].
Qed.

Lemma get_put_disj off bs m off' n :
  (off + length bs <= length m)%nat ->
  (off' + n <= off \/ off + length bs <= off')%nat ->
  get off' n (put off bs m) = get off' n m.
Proof.
  intros H [Hd|Hd]; unfold get, put, slice.
  - rewrite drop_app_le by (rewrite length_take; lia).
    rewrite take_app_le by (rewrite length_drop, length_take; lia).
    rewrite skipn_firstn_comm, take_take. f_equal. lia.
  - rewrite app_assoc, drop_app_ge by (rewrite length_app, length_take; lia).
    rewrite length_app, length_take, drop_drop. do 2 f_equal; lia.
Qed.

Definition slot_ok (r : RingBuffer) (s : Z) (p : bytes) : Prop :=
  load_head r s = (s, length p) /\ load_data r s (length p) = p /\ load_tail r s = s.

(** [h] is everything pushed so far; the newest [capacity] payloads are in place. *)
Record ring_inv (r : RingBuffer) (h : list bytes) : Prop := mkRingInv
  { ri_cap : (0 < capacity r)%nat;
    ri_slot : (SLOT_HDR + SLOT_TAIL < slot_size r)%nat /\ Z.of_nat (slot_size r) < 2 ^ 32;
    ri_mem : length (mem r) = (HDR_SIZE + capacity r * slot_size r)%nat;
    ri_seq : write_seq r = Z.of_nat (length h);
    ri_bound : Z.of_nat (length h) < 2 ^ 64;
    ri_slots s p : Z.of_nat (length h) - Z.of_nat (capacity r) <= Z.of_nat s ->
      h !! s = Some p -> (length p <= payload_max r)%nat /\ slot_ok r (Z.of_nat s) p }.

Lemma slot_off_bound r s :
  (0 < capacity r)%nat ->
  (HDR_SIZE <= slot_off r s /\
   slot_off r s + slot_size r <= HDR_SIZE + capacity r * slot_size r)%nat.
Proof.
  intros H. unfold slot_off. pose proof (Z.mod_pos_bound s (Z.of_nat (capacity r))).
  split; [lia|]. assert (Z.to_nat (s mod Z.of_nat (capacity r)) < capacity r)%nat by lia. nia.
Qed.

(** Slots of sequence numbers less than one lap apart do not overlap. *)
Lemma slot_off_disj r s t :
  s < t < s + Z.of_nat (capacity r) ->
  (slot_off r s + slot_size r <= slot_off r t \/ slot_off r t + slot_size r <= slot_off r s)%nat.
Proof.
  intros H. unfold slot_off.
  assert (s mod Z.of_nat (capacity r) <> t mod Z.of_nat (capacity r)) as Hne.
  { intros E. assert ((t - s) mod Z.of_nat (capacity r) = 0) as Hm.
    { rewrite Zminus_mod, E, Z.sub_diag. apply Z.mod_0_l. lia. }
    rewrite Z.mod_small in Hm; lia. }
  pose proof (Z.mod_pos_bound s (Z.of_nat (capacity r))).
  pose proof (Z.mod_pos_bound t (Z.of_nat (capacity r))).
  assert (Z.to_nat (s mod Z.of_nat (capacity r)) < Z.to_nat (t mod Z.of_nat (capacity r))
          \/ Z.to_nat (t mod Z.of_nat (capacity r)) < Z.to_nat (s mod Z.of_nat (capacity r)))%nat
    as [?|?] by lia; [left|right]; nia.
Qed.

(** [push]'s memory, store by store. *)
Lemma pushed_slot r s p :
  (0 < capacity r)%nat -> (SLOT_HDR + SLOT_TAIL < slot_size r)%nat ->
  Z.of_nat (slot_size r) < 2 ^ 32 ->
  length (mem r) = (HDR_SIZE + capacity r * slot_size r)%nat ->
  0 <= s < 2 ^ 64 -> (length p <= payload_max r)%nat ->
  let r' := store_tail (store_payload (store_head r s (length p)) s p) s in
  slot_ok r' s p /\ length (mem r') = length (mem r) /\
  forall off n, (off + n <= slot_off r s \/ slot_off r s + slot_size r <= off)%nat ->
    get off n (mem r') = get off n (mem r).
Proof.
  intros Hc Hs Hs32 Hm Hseq Hp r'. unfold payload_max, SLOT_HDR, SLOT_TAIL in *.
  pose proof (slot_off_bound r s Hc) as [B1 B2].
  assert (slot_off r' s = slot_off r s) as Ho by done.
  assert (slot_size r' = slot_size r) as Hz by done.
  set (hd := be_pack 8 s ++ be_pack 4 (Z.of_nat (length p))).
  assert (length hd = 12%nat) as Lh by (unfold hd; by rewrite length_app, !be_pack_length).
  set (m1 := put (slot_off r s) hd (mem r)).
  set (m2 := put (slot_off r s + 12) p m1).
  assert (mem r' = put (slot_off r s + slot_size r - 8) (be_pack 8 s) m2) as Hm' by done.
  assert (length (be_pack 8 s) = 8%nat) as Lt by apply be_pack_length.
  assert (length m1 = length (mem r)) as L1 by (apply put_length; lia).
  assert (length m2 = length (mem r)) as L2 by (unfold m2; rewrite put_length; lia).
  split_and!.
  - unfold slot_ok, load_head, load_data, load_tail. rewrite Ho, Hz, Hm'.
    unfold SLOT_HDR, SLOT_TAIL. split_and!.
    + rewrite !(get_put_disj (slot_off r s + slot_size r - 8)) by lia. unfold m2.
      rewrite !get_put_disj by lia. unfold m1.
      rewrite (get_put_in _ _ _ 8 4) by lia.
      replace (slot_off r s) with (slot_off r s + 0)%nat at 1 by lia.
      rewrite (get_put_in _ _ _ 0 8) by lia. unfold hd, get.
      rewrite slice_head', slice_app_r by apply be_pack_length.
      rewrite !be_unpack_pack_id, Nat2Z.id by (simpl; lia). done.
    + rewrite get_put_disj by lia. apply get_put_same; [done|lia].
    + rewrite get_put_same by (done || lia). by apply be_unpack_pack_id.
  - rewrite Hm', put_length; lia.
  - intros off n Hd. rewrite Hm'. unfold m2, m1.
    assert (length (put (slot_off r s) hd (mem r)) = length (mem r)) by (apply put_length; lia).
    assert (length (put (slot_off r s + 12) p (put (slot_off r s) hd (mem r))) = length (mem r))
      by (rewrite put_length; lia).
    by rewrite !get_put_disj by lia.
Qed.

Lemma slot_ok_frame r r' s p :
  capacity r' = capacity r -> slot_size r' = slot_size r ->
  (SLOT_HDR + SLOT_TAIL < slot_size r)%nat -> (length p <= payload_max r)%nat ->
  (forall off n, (slot_off r s <= off)%nat -> (off + n <= slot_off r s + slot_size r)%nat ->
     get off n (mem r') = get off n (mem r)) ->
  slot_ok r s p -> slot_ok r' s p.
Proof.
  intros Hc Hs H20 Hp Hf. unfold slot_ok, load_head, load_data, load_tail.
  assert (slot_off r' s = slot_off r s) as -> by (unfold slot_off; by rewrite Hc, Hs).
  rewrite Hs. unfold payload_max, SLOT_HDR, SLOT_TAIL in *.
  by rewrite !Hf by lia.
Qed.

Lemma push_inv r h p :
  ring_inv r h -> (length p <= payload_max r)%nat -> Z.of_nat (length h) + 1 < 2 ^ 64 ->
  exists r', push r p = (r', Ok (Z.of_nat (length h))) /\ ring_inv r' (h ++ [p]) /\
    capacity r' = capacity r /\ slot_size r' = slot_size r.
Proof.
  intros [Hc [Hs Hs32] Hm Hq Hb Hsl] Hp Hlen. unfold push.
  rewrite (proj2 (Nat.ltb_ge _ _) Hp), Hq, (proj2 (Z.leb_gt _ _) Hlen).
  eexists. split; [done|]. split; [|done].
  destruct (pushed_slot r (Z.of_nat (length h)) p) as (Hok & Hl & Hfr); try done; [lia|].
  set (r1 := store_tail _ _) in *.
  set (r2 := set_write_seq r1 _).
  assert (mem r2 = put 16 (be_pack 8 (Z.of_nat (length h) + 1)) (mem r1)) as Hm2 by done.
  assert (forall off n, (24 <= off)%nat -> get off n (mem r2) = get off n (mem r1)) as Hfr2.
  { intros off n Ho. rewrite Hm2. apply get_put_disj; rewrite be_pack_length, ?Hl, ?Hm; unfold HDR_SIZE in *; lia. }
  assert (forall s q, (length q <= payload_max r)%nat -> slot_ok r1 s q -> slot_ok r2 s q) as Hup.
  { intros s q Hq' . apply slot_ok_frame; try done. intros off n Ho _. apply Hfr2.
    pose proof (slot_off_bound r1 s Hc) as [B _]. unfold HDR_SIZE in B. lia. }
  split; try done.
  - rewrite Hm2, put_length; [by rewrite Hl|].
    rewrite be_pack_length, Hl, Hm. unfold HDR_SIZE. lia.
  - unfold write_seq. rewrite Hm2, get_put_same.
    + rewrite be_unpack_pack_id, length_app by (simpl; lia). simpl. lia.
    + apply be_pack_length.
    + rewrite Hl, Hm. unfold HDR_SIZE. lia.
  - rewrite length_app. simpl. lia.
  - intros s q Hge Hq'. rewrite length_app in Hge. simpl in Hge. change (capacity r2) with (capacity r) in *.
    change (payload_max r2) with (payload_max r).
    destruct (decide (s = length h)) as [->|Hne].
    + rewrite lookup_app_r, Nat.sub_diag in Hq' by lia. simplify_eq/=.
      split; [done|]. by apply Hup.
    + assert (s < length h)%nat as Hlt.
      { apply lookup_lt_Some in Hq'. rewrite length_app in Hq'. simpl in Hq'. lia. }
      rewrite lookup_app_l in Hq' by lia. destruct (Hsl s q) as [Hql Hqs]; [lia|done|].
      split; [done|]. apply Hup; [done|]. revert Hqs.
      apply slot_ok_frame; try done. intros off n Ho1 Ho2. apply Hfr.
      destruct (slot_off_disj r (Z.of_nat s) (Z.of_nat (length h))); [lia|left; lia|right; lia].
Qed.

Definition push_all (r : RingBuffer) (h : list bytes) : RingBuffer :=
  foldl (fun r p => (push r p).1) r h.

Lemma ring_header_length ss cap : length (header ss cap) = 40%nat.
Proof. unfold header. by rewrite !length_app, !be_pack_length. Qed.

Lemma create_ok cap ss :
  (SLOT_HDR + SLOT_TAIL < ss)%nat -> Z.of_nat ss < 2 ^ 32 -> Z.of_nat cap < 2 ^ 32 ->
  (0 < cap)%nat ->
  exists r, create cap ss = Ok r /\ capacity r = cap /\ slot_size r = ss /\ ring_inv r [].
Proof.
  intros Hs Hs32 Hc32 Hc. unfold create.
  rewrite (proj2 (Nat.ltb_lt _ _) Hs), (proj2 (Z.ltb_lt _ _) Hs32), (proj2 (Z.ltb_lt _ _) Hc32).
  eexists. split; [done|]. split; [done|]. split; [done|].
  assert (0 + 40 <= length (replicate (HDR_SIZE + cap * ss) 0%Z))%nat as Hl
    by (rewrite length_replicate; unfold HDR_SIZE; lia).
  split; try done.
  - cbn [mem capacity slot_size]. rewrite put_length by (rewrite ring_header_length; exact Hl).
    apply length_replicate.
Qed.

Lemma push_all_inv r h1 h2 :
  ring_inv r h1 -> Forall (fun p => (length p <= payload_max r)%nat) h2 ->
  Z.of_nat (length (h1 ++ h2)) < 2 ^ 64 ->
  ring_inv (push_all r h2) (h1 ++ h2) /\
  capacity (push_all r h2) = capacity r /\ slot_size (push_all r h2) = slot_size r.
Proof.
  intros Hi Hp Hl. revert r h1 Hi Hp Hl.
  induction h2 as [|p h2 IH]; intros r h1 Hi Hp Hl; simpl; [by rewrite app_nil_r|].
  apply Forall_cons in Hp as [Hp1 Hp2]. rewrite length_app in Hl. simpl in Hl.
  destruct (push_inv r h1 p) as (r' & -> & Hi' & Hc & Hz); [done..|lia|].
  rewrite cons_middle, app_assoc. cbn [fst]. rewrite <- Hc, <- Hz. apply IH; [done| |].
  - unfold payload_max in *. by rewrite Hz.
  - rewrite !length_app. simpl. lia.
Qed.

Lemma read_slot_ok r h s p :
  ring_inv r h -> Z.of_nat (length h) - Z.of_nat (capacity r) <= Z.of_nat s ->
  h !! s = Some p -> read_slot r (Z.of_nat s) = Some p.
Proof.
  intros Hi Hs Hp. destruct (ri_slots _ _ Hi s p Hs Hp) as [Hl (H1 & H2 & H3)].
  unfold read_slot, head_ok. rewrite H1, H3. cbn [fst snd].
  by rewrite !Z.eqb_refl, (proj2 (Nat.leb_le _ _) Hl), H2.
Qed.

Lemma poll_loop_ok r h todo room k c :
  ring_inv r h -> cursor k = Z.of_nat c -> (c + todo = length h)%nat ->
  Z.of_nat (length h) - Z.of_nat (capacity r) <= Z.of_nat c ->
  let out := take room (drop c h) in
  poll_loop r todo room k =
    (mkReader (cursor k + Z.of_nat (length out)) (skipped k) (torn k), out).
Proof.
  intros Hi. revert room k c. induction todo as [|todo IH]; intros room k c Hk Hc Hcap out.
  - unfold out. rewrite drop_ge, take_nil by lia. simpl. rewrite Z.add_0_r. by destruct k.
  - destruct room as [|room]; simpl.
    { unfold out. rewrite take_0. simpl. rewrite Z.add_0_r. by destruct k. }
    destruct (lookup_lt_is_Some_2 h c ltac:(lia)) as [p Hp].
    rewrite Hk, (read_slot_ok r h c p) by done.
    unfold out. rewrite (drop_S h p c Hp). cbn [take].
    rewrite (IH room _ (S c)); simpl; [|lia..]. do 2 f_equal. lia.
Qed.

(** ** Properties *)

(** C3: with the producer idle, a reader gets exactly what was pushed: from its
    cursor, or from the oldest payload still in the ring when it was lapped, in order
    and at most [max] at a time; what it lost is counted in [skipped], and nothing is
    given up as torn. *)
Theorem poll_delivers_history cap ss h k max :
  (0 < cap)%nat -> Z.of_nat cap < 2 ^ 32 -> (20 < ss)%nat -> Z.of_nat ss < 2 ^ 32 ->
  Forall (fun p => (length p <= ss - 20)%nat) h -> Z.of_nat (length h) < 2 ^ 64 ->
  0 <= cursor k ->
  exists r0, create cap ss = Ok r0 /\
    let w := Z.of_nat (length h) in
    let start := Z.max (cursor k) (w - Z.of_nat cap) in
    let out := take max (drop (Z.to_nat start) h) in
    poll (push_all r0 h) k max =
      (mkReader (start + Z.of_nat (length out)) (skipped k + (start - cursor k)) (torn k), out).
Proof.
  intros Hc Hc32 Hs Hs32 Hp Hl Hk.
  destruct (create_ok cap ss) as (r0 & H0 & Ec & Es & Hi0); try done.
  exists r0. split; [done|]. intros w start out.
  destruct (push_all_inv r0 [] h Hi0) as (Hi & Ec' & Es'); [|done|].
  { unfold payload_max, SLOT_HDR, SLOT_TAIL. rewrite Es.
    eapply Forall_impl; [exact Hp|]. simpl. intros. lia. }
  unfold poll, catch_up. simpl in Hi. rewrite (ri_seq _ _ Hi), Ec', Ec. fold w.
  assert (exists c, start = Z.of_nat c) as [c Hcst].
  { exists (Z.to_nat start). lia. }
  assert (out = take max (drop c h)) as -> by (unfold out; rewrite Hcst, Nat2Z.id; done).
  assert ((if Z.of_nat cap <? w - cursor k
           then mkReader (w - Z.of_nat cap) (skipped k + (w - cursor k - Z.of_nat cap)) (torn k)
           else k) = mkReader start (skipped k + (start - cursor k)) (torn k)) as ->.
  { destruct (Z.ltb_spec (Z.of_nat cap) (w - cursor k)).
    - f_equal; lia.
    - replace start with (cursor k) by lia. rewrite Z.sub_diag, Z.add_0_r. by destruct k. }
  destruct (Z.le_gt_cases start w) as [Hle|Hgt].
  - rewrite (poll_loop_ok _ h _ _ _ c Hi); simpl; [done|done| |rewrite Ec', Ec; lia].
    unfold w in *. lia.
  - replace (Z.to_nat _) with O by (simpl; lia). simpl.
    rewrite drop_ge, take_nil by lia. simpl. by rewrite Z.add_0_r.
Qed.

Lemma poll_delivers_history_witness :
  exists r0, create 2 32 = Ok r0 /\
    poll (push_all r0 [[1]; [2; 3]; [4]]) (mkReader 0 0 0) 8
      = (mkReader 3 1 0, [[2; 3]; [4]]).
Proof.
  apply (poll_delivers_history 2 32 [[1]; [2; 3]; [4]] (mkReader 0 0 0) 8);
    first [done | lia | (simpl; lia) | by apply (bool_decide_unpack _)].
Defined.

(** [push] refuses an oversized payload without touching the memory, and a push
    that fits returns the next sequence number and leaves a ring whose newest
    [capacity] payloads, the new one included, are all in place. *)
Theorem push_spec r h p :
  ring_inv r h -> Z.of_nat (length h) + 1 < 2 ^ 64 ->
  ((payload_max r < length p)%nat -> push r p = (r, Err ValueError)) /\
  ((length p <= payload_max r)%nat ->
     exists r', push r p = (r', Ok (Z.of_nat (length h))) /\ ring_inv r' (h ++ [p])).
Proof.
  intros Hi Hl. split.
  - intros Hp. unfold push. by rewrite (proj2 (Nat.ltb_lt _ _) Hp).
  - intros Hp. destruct (push_inv r h p Hi Hp Hl) as (r' & ? & ? & _). eauto.
Qed.

Definition demo_ring (h : list bytes) : RingBuffer :=
  match create 1 32 with Ok r => push_all r h | Err _ => mkRing 0 0 [] end.

Lemma demo_ring_inv : ring_inv (demo_ring []) [].
Proof.
  destruct (create_ok 1 32) as (r & Hr & _ & _ & Hi); [unfold SLOT_HDR, SLOT_TAIL; lia|lia|lia|lia|].
  unfold demo_ring. by rewrite Hr.
Qed.

Lemma push_spec_witness :
  push (demo_ring []) (replicate 13 7) = (demo_ring [], Err ValueError).
Proof. apply (push_spec (demo_ring []) []); [apply demo_ring_inv|done|apply Nat.ltb_lt; reflexivity]. Defined.

(** the head/tail check does not exclude torn reads between processes.  The
    reader checks the head before the copy and the tail after it, in the same order as
    the producer writes them; an interleaving exists in which a push overtakes the
    reader inside the copy, both checks pass, and the reader delivers bytes that no
    push ever wrote. *)
Theorem torn_read_delivered :
  exists s, reachable (mkSystem (demo_ring [[1; 2; 3; 4]]) PIdle RIdle 0 [[1; 2; 3; 4]] []) s /\
    delivered s = [(0, [9; 2; 3; 4])] /\ [9; 2; 3; 4] ∉ history s.
Proof.
  eexists. split; [|split].
  - eapply reach_step; [eapply reach_step; [eapply reach_step; [eapply reach_step;
      [eapply reach_step; [apply reach_refl|]|]|]|]|].
    + apply r_head; vm_compute; reflexivity.
    + apply (p_head _ _ _ _ _ [9]). apply Nat.leb_le. reflexivity.
    + apply p_payload.
    + apply r_data.
    + apply r_accept. vm_compute. reflexivity.
  - vm_compute. reflexivity.
  - by apply (bool_decide_unpack _).
Qed.

End Ring.
