(* ===== verification/WsProto.v ===== *)
(** * WebSocket framing, RFC 6455 (src/src/mdfeed/wsproto.py)

    Frame encoding, the streaming [FrameDecoder] with fragmentation, the client's
    [recv] loop and the opening handshake.  [os.urandom] is an argument: the mask
    key of the [n]-th masked frame and the 16 bytes of the handshake key.  The
    reader is a list of the chunks it returns, [b""] standing for end of file. *)

From S2P Require Import Prelude PyStr Hashes.

Module Ws.

Definition GUID : bytes := lit "258EAFA5-E914-47DA-95CA-C5AB0DC85B11".
Definition OP_CONT : Z := 0.
Definition OP_TEXT : Z := 1.
Definition OP_BINARY : Z := 2.
Definition OP_CLOSE : Z := 8.
Definition OP_PING : Z := 9.
Definition OP_PONG : Z := 10.
Definition is_control (op : Z) : bool := (op =? OP_CLOSE) || (op =? OP_PING) || (op =? OP_PONG).
Definition MAX_FRAME : Z := 16 * 1024 * 1024.

Inductive WSError :=
| ControlTooLong | ByteRange | UnicodeEncodeError | StrayContinuation | FrameTooBig (length : Z) | MaskRule (masked : bool)
| ConnectionEnded | PeerClosed | UpgradeRefused (status : pystr) | AcceptMismatch | NoKey.

(** ** Encoding *)

(** [bytes(b ^ key[i & 3] for i, b in enumerate(payload))] *)
Definition apply_mask (key payload : bytes) : bytes :=
  imap (fun i b => Z.lxor b (nth (Z.to_nat (Z.land (Z.of_nat i) 3)) key 0)) payload.

Definition length_field (mask_bit n : Z) : bytes :=
  if n <? 126 then [Z.lor mask_bit n]
  else if n <? 65536 then Z.lor mask_bit 126 :: be_pack 2 n
  else Z.lor mask_bit 127 :: be_pack 8 n.

Definition encode_frame (opcode : Z) (payload : bytes) (mask : bool) (key : bytes)
    : result WSError bytes :=
  guard! negb (is_control opcode && (125 <? zlen payload)) else ControlTooLong in
  guard! (0 <=? Z.lor 0x80 opcode) && (Z.lor 0x80 opcode <? 256) else ByteRange in
  let mask_bit := if mask then 0x80 else 0 in
  Ok (Z.lor 0x80 opcode :: length_field mask_bit (zlen payload) ++
      if mask then key ++ apply_mask key payload else payload).

Definition server_frame (opcode : Z) (payload : bytes) : result WSError bytes :=
  encode_frame opcode payload false [].

(** ** Decoding *)

Record FrameDecoder := mkDec
  { buf : bytes; expect_masked : bool; frag_op : Z; frag : bytes }.

Definition new_decoder (expect : bool) : FrameDecoder := mkDec [] expect 0 [].

Definition set_buf (d : FrameDecoder) (b : bytes) : FrameDecoder :=
  mkDec b (expect_masked d) (frag_op d) (frag d).
Definition set_frag (d : FrameDecoder) (op : Z) (p : bytes) : FrameDecoder :=
  mkDec (buf d) (expect_masked d) op p.

Definition byte_at (b : bytes) (i : nat) : Z := nth i b 0.

(** The extended length: [None] while its bytes are missing. *)
Definition read_length (b : bytes) : option (Z * nat) :=
  let l := Z.land (byte_at b 1) 0x7F in
  if l =? 126 then if (length b <? 4)%nat then None else Some (be_unpack (slice 2 4 b), 4%nat)
  else if l =? 127 then
    if (length b <? 10)%nat then None else Some (be_unpack (slice 2 10 b), 10%nat)
  else Some (l, 2%nat).

(** [_parse]: [Ok None] waits for more bytes; a frame comes with the rest of the
    buffer ([del self._buf[:off + length]]). *)
Definition parse (expect : bool) (b : bytes)
    : result WSError (option (bool * Z * bytes * bytes)) :=
  if (length b <? 2)%nat then Ok None else
  let fin := negb (Z.land (byte_at b 0) 0x80 =? 0) in
  let opcode := Z.land (byte_at b 0) 0x0F in
  let masked := negb (Z.land (byte_at b 1) 0x80 =? 0) in
  match read_length b with
  | None => Ok None
  | Some (len, off) =>
      if MAX_FRAME <? len then Err (FrameTooBig len) else
      if negb (eqb masked expect) then Err (MaskRule masked) else
      if masked && (length b <? off + 4)%nat then Ok None else
      let key := if masked then slice off (off + 4) b else [] in
      let off := if masked then (off + 4)%nat else off in
      if zlen b <? Z.of_nat off + len then Ok None else
      let raw := slice off (off + Z.to_nat len) b in
      Ok (Some (fin, opcode, if masked then apply_mask key raw else raw,
                drop (off + Z.to_nat len) b))
  end.

(** One turn of the generator [feed]: it waits, goes round silently, yields a
    message, or raises. *)
Inductive turn := Wait | Quiet | Yield (op : Z) (payload : bytes) | Raise (e : WSError).

(** What a parsed frame does to the fragment under assembly. *)
Definition dispatch (fo : Z) (fr : bytes) (fin : bool) (opcode : Z) (payload : bytes)
    : Z * bytes * turn :=
  if is_control opcode then (fo, fr, Yield opcode payload)
  else if opcode =? OP_CONT then
    if fo =? 0 then (fo, fr, Raise StrayContinuation)
    else if fin then (0, [], Yield fo (fr ++ payload))
    else (fo, fr ++ payload, Quiet)
  else if fin then (fo, fr, Yield opcode payload)
  else (opcode, payload, Quiet).

Definition take_turn (d : FrameDecoder) : FrameDecoder * turn :=
  match parse (expect_masked d) (buf d) with
  | Err e => (d, Raise e)
  | Ok None => (d, Wait)
  | Ok (Some (fin, opcode, payload, rest)) =>
      let '(fo, fr, t) := dispatch (frag_op d) (frag d) fin opcode payload in
      (set_frag (set_buf d rest) fo fr, t)
  end.

(** [feed] run to its end: the messages it yields, and how it stops. *)
Fixpoint feed_loop (fuel : nat) (d : FrameDecoder)
    : option (list (Z * bytes) * FrameDecoder * option WSError) :=
  match fuel with
  | O => None
  | S fuel =>
      match take_turn d with
      | (d, Wait) => Some ([], d, None)
      | (d, Raise e) => Some ([], d, Some e)
      | (d, Quiet) => feed_loop fuel d
      | (d, Yield op p) =>
          '(ms, d, e) ← feed_loop fuel d; Some ((op, p) :: ms, d, e)
      end
  end.

Definition push (d : FrameDecoder) (data : bytes) : FrameDecoder := set_buf d (buf d ++ data).

(** Every frame takes two bytes or more, so the buffer's length bounds the turns. *)
Definition feed (d : FrameDecoder) (data : bytes) :=
  let d := push d data in feed_loop (S (length (buf d))) d.

(** A caller that feeds chunk after chunk until the decoder raises. *)
Fixpoint feed_all (d : FrameDecoder) (chunks : list bytes)
    : option (list (Z * bytes) * option WSError) :=
  match chunks with
  | [] => Some ([], None)
  | c :: cs =>
      '(ms, d, e) ← feed d c;
      match e with
      | Some e => Some (ms, Some e)
      | None => '(ms', e') ← feed_all d cs; Some (ms ++ ms', e')
      end
  end.

(** ** The client *)

Section client.
Variable urandom : nat -> bytes.

(** [sent] is what the client wrote, [masks] how many keys it drew. *)
Record WSClient := mkClient
  { dec : FrameDecoder; pending : list (Z * bytes); closed : bool; bytes_in : Z;
    sent : list bytes; masks : nat }.

Definition new_client : WSClient := mkClient (new_decoder false) [] false 0 [] 0.

Definition set_dec (c : WSClient) d := mkClient d (pending c) (closed c) (bytes_in c) (sent c) (masks c).
Definition set_pending (c : WSClient) p := mkClient (dec c) p (closed c) (bytes_in c) (sent c) (masks c).
Definition set_closed (c : WSClient) := mkClient (dec c) (pending c) true (bytes_in c) (sent c) (masks c).
Definition count_in (c : WSClient) (chunk : bytes) :=
  mkClient (push (dec c) chunk) (pending c) (closed c) (bytes_in c + zlen chunk) (sent c) (masks c).

(** [self.writer.write(encode_frame(op, payload, mask=True))] *)
Definition send (c : WSClient) (op : Z) (payload : bytes) : WSClient * option WSError :=
  match encode_frame op payload true (urandom (masks c)) with
  | Err e => (c, Some e)
  | Ok raw => (mkClient (dec c) (pending c) (closed c) (bytes_in c) (sent c ++ [raw]) (S (masks c)), None)
  end.

Definition send_text (c : WSClient) (s : pystr) : WSClient * option WSError :=
  match utf8_encode s with
  | None => (c, Some UnicodeEncodeError)
  | Some b => send c OP_TEXT b
  end.
Definition send_binary (c : WSClient) (b : bytes) := send c OP_BINARY b.
Definition ping (c : WSClient) (data : bytes) := send c OP_PING data.
Definition pong (c : WSClient) (data : bytes) := send c OP_PONG (take 125 data).

(** [close]: how the bounded wait for [drain] ends.  The result says whether the
    transport was closed and whether a cancellation goes on to the caller. *)
Inductive drain_result := Drained | DrainFailed | DrainCancelled.

Definition close (c : WSClient) (d : drain_result) : WSClient * bool * bool :=
  let c := (send (set_closed c) OP_CLOSE (be_pack 2 1000)).1 in
  (c, true, match d with DrainCancelled => true | _ => false end).

(** The [for] loop of [recv] over [self._dec.feed(chunk)]; leaving it early
    abandons the generator, whose state stays in the decoder. *)
Fixpoint pump (fuel : nat) (c : WSClient) : option (WSClient * option WSError) :=
  match fuel with
  | O => None
  | S fuel =>
      match take_turn (dec c) with
      | (d, Wait) => Some (set_dec c d, None)
      | (d, Raise e) => Some (set_dec c d, Some e)
      | (d, Quiet) => pump fuel (set_dec c d)
      | (d, Yield op payload) =>
          let c := set_dec c d in
          if op =? OP_PING then
            match send c OP_PONG payload with
            | (c, Some e) => Some (c, Some e)
            | (c, None) => pump fuel c
            end
          else if op =? OP_PONG then pump fuel c
          else if op =? OP_CLOSE then Some (set_closed c, Some PeerClosed)
          else pump fuel (set_pending c (pending c ++ [(op, payload)]))
      end
  end.

Inductive recv_out := Got (m : Z * bytes) | Failed (e : WSError) | Blocked.

(** [recv]: the chunks left over come back; [Blocked] waits on the reader. *)
Fixpoint recv_read (c : WSClient) (chunks : list bytes)
    : option (WSClient * list bytes * recv_out) :=
  match pending c with
  | m :: ms => Some (set_pending c ms, chunks, Got m)
  | [] =>
      match chunks with
      | [] => Some (c, [], Blocked)
      | [] :: rest => Some (set_closed c, rest, Failed ConnectionEnded)
      | chunk :: rest =>
          let c := count_in c chunk in
          '(c, e) ← pump (S (length (buf (dec c)))) c;
          match e with
          | Some e => Some (c, rest, Failed e)
          | None => recv_read c rest
          end
      end
  end.

Definition recv := recv_read.

(** A caller that receives until [recv] stops returning messages. *)
Fixpoint recv_all (fuel : nat) (c : WSClient) (chunks : list bytes)
    : option (list (Z * bytes) * WSClient * recv_out) :=
  match fuel with
  | O => None
  | S fuel =>
      '(c, rest, o) ← recv c chunks;
      match o with
      | Got m => '(ms, c, o) ← recv_all fuel c rest; Some (m :: ms, c, o)
      | _ => Some ([], c, o)
      end
  end.

End client.

(** ** The opening handshake *)

Definition crlf : pystr := [13; 10].

(** [s.split(sep)] for a non-empty separator. *)
Fixpoint split_sub (fuel : nat) (sep s : pystr) : list pystr :=
  match fuel with
  | O => [s]
  | S fuel =>
      match find_sub sep s with
      | None => [s]
      | Some i => take i s :: split_sub fuel sep (drop (i + length sep) s)
      end
  end.
Definition split_crlf (s : pystr) : list pystr := split_sub (length s) crlf s.

(** [str.lower] on the Latin-1 characters [raw.decode("latin-1")] can hold. *)
Definition lower1 (c : Z) : Z :=
  if (65 <=? c) && (c <=? 90) then c + 32
  else if (192 <=? c) && (c <=? 222) && negb (c =? 215) then c + 32 else c.

Definition digest_key (key : bytes) : pystr := b64encode (sha1 (key ++ GUID)).

(** [accept_key]: [None] when the key has no UTF-8 encoding. *)
Definition accept_key (client_key : pystr) : option pystr := digest_key <$> utf8_encode client_key.

Definition KEY_HEADER : pystr := lit "sec-websocket-key".
Definition ACCEPT_HEADER : pystr := lit "sec-websocket-accept:".

Definition handshake_response (headers : gmap pystr pystr) : result WSError (option bytes) :=
  match headers !! KEY_HEADER with
  | None | Some [] => Err NoKey
  | Some key =>
      Ok (a ← accept_key key;
          utf8_encode (lit "HTTP/1.1 101 Switching Protocols" ++ crlf ++ lit "Upgrade: websocket" ++ crlf ++
                       lit "Connection: Upgrade" ++ crlf ++ lit "Sec-WebSocket-Accept: " ++ a ++ crlf ++ crlf))
  end.

(** [base64.b64encode(os.urandom(16)).decode()] *)
Definition client_key (random16 : bytes) : pystr := b64encode random16.

(** The part of the URL [urlparse] returns. *)
Record Url := mkUrl { secure : bool; hostname : pystr; port : option Z; path : pystr; query : pystr }.

Definition effective_port (u : Url) : Z :=
  match port u with
  | Some p => if p =? 0 then (if secure u then 443 else 80) else p
  | None => if secure u then 443 else 80
  end.

Definition request_path (u : Url) : pystr :=
  let p := match path u with [] => lit "/" | p => p end in
  match query u with [] => p | q => p ++ lit "?" ++ q end.

Fixpoint join (sep : pystr) (ls : list pystr) : pystr :=
  match ls with [] => [] | [l] => l | l :: ls => l ++ sep ++ join sep ls end.

(** [show_port] is [str(u.port)]. *)
Definition upgrade_request (show_port : Z -> pystr) (u : Url) (key : pystr) (headers : list (pystr * pystr))
    : pystr :=
  let host := lit "Host: " ++ hostname u in
  let host := match port u with
              | Some p => if p =? 0 then host else host ++ lit ":" ++ show_port p
              | None => host end in
  join crlf ([lit "GET " ++ request_path u ++ lit " HTTP/1.1"; host; lit "Upgrade: websocket";
              lit "Connection: Upgrade"; lit "Sec-WebSocket-Key: " ++ key; lit "Sec-WebSocket-Version: 13";
              lit "User-Agent: mdfeed/1.0"]
             ++ ((fun kv => kv.1 ++ lit ": " ++ kv.2) <$> headers)) ++ crlf ++ crlf.

(** [line.split(":", 1)[1].strip()] *)
Definition header_value (line : pystr) : pystr := strip (tail (break_at (Z.eqb 58) line).2).

(** The client's check of the response head; the last matching header wins. *)
Definition check_upgrade (key : pystr) (head : bytes) : result WSError unit :=
  let lines := split_crlf head in
  let status := default [] (hd_error lines) in
  guard! bool_decide (is_Some (find_sub (lit "101") status)) else UpgradeRefused status in
  let accept :=
    foldl (fun acc line => if is_prefix ACCEPT_HEADER (lower1 <$> line) then header_value line else acc)
          [] (tail lines) in
  guard! bool_decide (Some accept = accept_key key) else AcceptMismatch in
  Ok tt.

(** ** Runs of the decoder *)

Lemma zlen_drop_lt (l : list Z) n : (0 < n)%nat -> l <> [] -> (length (drop n l) < length l)%nat.
Proof. intros. rewrite length_drop. destruct l; [done|]. simpl. lia. Qed.

Lemma read_length_off b l off : read_length b = Some (l, off) -> (2 <= off)%nat.
Proof. unfold read_length. intros. split_matches; lia. Qed.

Lemma parse_frame_rest expect b fin op p r :
  parse expect b = Ok (Some (fin, op, p, r)) -> (length r + 2 <= length b)%nat.
Proof.
  unfold parse. destruct (length b <? 2)%nat eqn:H2; [done|]. apply Nat.ltb_ge in H2.
  destruct (read_length b) as [[l off]|] eqn:Hr; [|done]. apply read_length_off in Hr.
  intros. split_matches; reflect_cmp; rewrite length_drop; lia.
Qed.

Lemma dispatch_not_wait fo fr fin op p : (dispatch fo fr fin op p).2 <> Wait.
Proof. unfold dispatch. split_matches. Qed.

Lemma take_turn_buf d d' t :
  take_turn d = (d', t) ->
  expect_masked d' = expect_masked d /\
  match t with
  | Wait => d' = d
  | Raise _ => True
  | _ => (length (buf d') < length (buf d))%nat
  end.
Proof.
  unfold take_turn. destruct (parse _ _) as [[[[[fin op] p] r]|]|e] eqn:Hp; [|intros; by simplify_eq..].
  apply parse_frame_rest in Hp. pose proof (dispatch_not_wait (frag_op d) (frag d) fin op p) as Hw.
  destruct (dispatch _ _ _ _ _) as [[fo fr] t']. intros [= <- <-].
  split; [done|]. destruct t'; simpl in *; try done; lia.
Qed.

Definition run (d : FrameDecoder) : list (Z * bytes) * FrameDecoder * option WSError :=
  default ([], d, None) (feed_loop (S (length (buf d))) d).

Lemma ws_feed_loop_enough d fuel1 fuel2 :
  (length (buf d) < fuel1)%nat -> (length (buf d) < fuel2)%nat ->
  feed_loop fuel1 d = feed_loop fuel2 d /\ is_Some (feed_loop fuel1 d).
Proof.
  remember (length (buf d)) as n eqn:Hn. revert d fuel1 fuel2 Hn.
  induction n as [n IH] using lt_wf_ind. intros d [|f1] [|f2] -> H1 H2; try lia. simpl.
  destruct (take_turn d) as [d' t] eqn:Ht. apply take_turn_buf in Ht as [_ Ht].
  destruct t; eauto.
  - apply (IH _ Ht); [done|lia..].
  - destruct (IH _ Ht d' f1 f2) as [-> [[[ms d2] e] Hs]]; [done|lia..|].
    rewrite Hs in *. simpl. eauto.
Qed.

Lemma feed_loop_run fuel d : (length (buf d) < fuel)%nat -> feed_loop fuel d = Some (run d).
Proof.
  intros H. unfold run.
  destruct (ws_feed_loop_enough d fuel (S (length (buf d)))) as [He [r Hr]]; [lia..|].
  by rewrite <- He, Hr.
Qed.

Lemma run_unfold d :
  run d = match take_turn d with
          | (d, Wait) => ([], d, None)
          | (d, Raise e) => ([], d, Some e)
          | (d, Quiet) => run d
          | (d, Yield op p) => let '(ms, d, e) := run d in ((op, p) :: ms, d, e)
          end.
Proof.
  unfold run at 1. cbn [feed_loop]. destruct (take_turn d) as [d' t] eqn:Ht.
  apply take_turn_buf in Ht as [_ Ht].
  destruct t; try done; rewrite feed_loop_run by done; [done|]. by destruct (run d') as [[]].
Qed.

(** ** The decoder does not depend on the cut of the stream *)

Lemma read_length_app b c l off :
  (2 <= length b)%nat -> read_length b = Some (l, off) ->
  (off <= length b)%nat /\ read_length (b ++ c) = Some (l, off).
Proof.
  intros Hl. unfold read_length, byte_at. rewrite app_nth1 by lia. intros H.
  destruct (_ =? 126).
  { destruct (length b <? 4)%nat eqn:E; simplify_eq. apply Nat.ltb_ge in E. split; [done|].
    rewrite (proj2 (Nat.ltb_ge _ _)) by (rewrite length_app; lia). by rewrite slice_app_l by lia. }
  destruct (_ =? 127); [|by simplify_eq].
  destruct (length b <? 10)%nat eqn:E; simplify_eq. apply Nat.ltb_ge in E. split; [done|].
  rewrite (proj2 (Nat.ltb_ge _ _)) by (rewrite length_app; lia). by rewrite slice_app_l by lia.
Qed.

Definition extend (c : bytes) (r : result WSError (option (bool * Z * bytes * bytes))) :=
  match r with Ok (Some (f, o, p, rest)) => Ok (Some (f, o, p, rest ++ c)) | r => r end.

Lemma parse_app expect b c :
  parse expect b <> Ok None -> parse expect (b ++ c) = extend c (parse expect b).
Proof.
  unfold parse at 1 3. intros H. destruct (length b <? 2)%nat eqn:H2; [done|].
  apply Nat.ltb_ge in H2. unfold parse. rewrite (proj2 (Nat.ltb_ge _ _)) by (rewrite length_app; lia).
  unfold byte_at in *. rewrite !app_nth1 by lia.
  destruct (read_length b) as [[l off]|] eqn:Hr; [|done].
  destruct (read_length_app b c l off H2 Hr) as [Ho ->].
  destruct (MAX_FRAME <? l); [done|]. destruct (negb (eqb _ _)); [done|].
  set (m := negb (Z.land (nth 1 b 0) 128 =? 0)) in *. destruct m; simpl in *.
  - destruct (length b <? off + 4)%nat eqn:H4; [done|]. apply Nat.ltb_ge in H4.
    rewrite (proj2 (Nat.ltb_ge _ _)) by (rewrite length_app; lia).
    destruct (zlen b <? Z.of_nat (off + 4) + l) eqn:H5; [done|]. apply Z.ltb_ge in H5.
    rewrite (proj2 (Z.ltb_ge _ _)) by (rewrite length_app; lia). simpl.
    by rewrite !slice_app_l, drop_app_le by lia.
  - destruct (zlen b <? Z.of_nat off + l) eqn:H5; [done|]. apply Z.ltb_ge in H5.
    rewrite (proj2 (Z.ltb_ge _ _)) by (rewrite length_app; lia). simpl.
    by rewrite !slice_app_l, drop_app_le by lia.
Qed.

Lemma push_push d a b : push (push d a) b = push d (a ++ b).
Proof. unfold push, set_buf. simpl. by rewrite app_assoc. Qed.

Lemma push_nil d : push d [] = d.
Proof. destruct d. unfold push, set_buf. simpl. by rewrite app_nil_r. Qed.

Lemma take_turn_push d c d' t :
  take_turn d = (d', t) -> t <> Wait -> take_turn (push d c) = (push d' c, t).
Proof.
  unfold take_turn. simpl. intros H Ht.
  destruct (parse (expect_masked d) (buf d)) as [[[[[fin op] p] r]|]|e] eqn:Hp; simplify_eq.
  - rewrite parse_app, Hp by (by rewrite Hp). simpl.
    destruct (dispatch _ _ _ _ _) as [[fo fr] t']. by simplify_eq.
  - by rewrite parse_app, Hp by (by rewrite Hp).
Qed.

Lemma run_push d c :
  run (push d c) =
    let '(ms, d1, e) := run d in
    match e with
    | Some e => (ms, push d1 c, Some e)
    | None => let '(ms2, d2, e2) := run (push d1 c) in (ms ++ ms2, d2, e2)
    end.
Proof.
  remember (length (buf d)) as n eqn:Hn. revert d Hn.
  induction n as [n IH] using lt_wf_ind. intros d ->.
  destruct (take_turn d) as [d' t] eqn:Ht. rewrite (run_unfold d), Ht.
  pose proof (take_turn_buf _ _ _ Ht) as [_ Hs]. destruct t.
  - subst. destruct (run (push d c)) as [[]]. done.
  - rewrite run_unfold, (take_turn_push _ _ _ _ Ht) by done. exact (IH _ Hs _ eq_refl).
  - rewrite run_unfold, (take_turn_push _ _ _ _ Ht) by done. rewrite (IH _ Hs _ eq_refl).
    destruct (run d') as [[ms d1] [e|]]; [done|]. by destruct (run (push d1 c)) as [[]].
  - by rewrite run_unfold, (take_turn_push _ _ _ _ Ht).
Qed.

(** A decoder left by a run that did not raise waits for more bytes. *)
Lemma run_stuck d ms d1 : run d = (ms, d1, None) -> take_turn d1 = (d1, Wait).
Proof.
  remember (length (buf d)) as n eqn:Hn. revert d ms Hn.
  induction n as [n IH] using lt_wf_ind. intros d ms -> Hr.
  rewrite run_unfold in Hr. destruct (take_turn d) as [d' t] eqn:Ht.
  pose proof (take_turn_buf _ _ _ Ht) as [_ Hs]. destruct t; simplify_eq; try done.
  - exact (IH _ Hs _ _ eq_refl Hr).
  - destruct (run d') as [[ms' d2] e] eqn:Hr'. simplify_eq. exact (IH _ Hs _ _ eq_refl Hr').
Qed.

Definition outcome (r : list (Z * bytes) * FrameDecoder * option WSError) :=
  let '(ms, _, e) := r in (ms, e).

Lemma feed_all_run chunks d :
  take_turn d = (d, Wait) -> feed_all d chunks = Some (outcome (run (push d (concat chunks)))).
Proof.
  revert d. induction chunks as [|c cs IH]; intros d Hd; simpl.
  - by rewrite push_nil, run_unfold, Hd.
  - unfold feed. rewrite feed_loop_run by lia. simpl. rewrite <- push_push, (run_push (push d c)).
    destruct (run (push d c)) as [[ms d1] [e|]] eqn:Hr; [done|]. simpl.
    rewrite IH by (by eapply run_stuck). simpl. by destruct (run (push d1 (concat cs))) as [[]].
Qed.

Lemma new_decoder_waits expect : take_turn (new_decoder expect) = (new_decoder expect, Wait).
Proof. done. Qed.

(** ** Frames on the wire *)

(** What a frame says, without its mask key. *)
Record Shape := mkShape { fin : bool; opcode : Z; payload : bytes }.

Definition shape_ok (s : Shape) : Prop := 0 <= opcode s < 16 /\ zlen (payload s) <= MAX_FRAME.

(** RFC 6455 section 5.2. *)
Definition wire (masked : bool) (key : bytes) (s : Shape) : bytes :=
  Z.lor (if fin s then 0x80 else 0) (opcode s)
    :: length_field (if masked then 0x80 else 0) (zlen (payload s)) ++
  if masked then key ++ apply_mask key (payload s) else payload s.

Lemma MAX_FRAME_val : MAX_FRAME = 16777216.
Proof. reflexivity. Qed.

(** The bits of the first two header bytes. *)
Lemma first_byte (f : bool) op : 0 <= op < 16 ->
  negb (Z.land (Z.lor (if f then 128 else 0) op) 128 =? 0) = f /\
  Z.land (Z.lor (if f then 128 else 0) op) 15 = op /\ 0 <= Z.lor (if f then 128 else 0) op < 256.
Proof.
  intros H.
  pose (P (f : bool) op := let b := Z.lor (if f then 128 else 0) op in
    eqb (negb (Z.land b 128 =? 0)) f && (Z.land b 15 =? op) && (0 <=? b) && (b <? 256)).
  assert (P f op = true) as HP by (apply (forall_below (P f) 16); [by destruct f|lia]).
  unfold P in HP. reflect_cmp. split; [by apply eqb_prop|]. lia.
Qed.

Lemma second_byte (m : bool) n : 0 <= n < 128 ->
  negb (Z.land (Z.lor (if m then 128 else 0) n) 128 =? 0) = m /\
  Z.land (Z.lor (if m then 128 else 0) n) 127 = n.
Proof.
  intros H.
  pose (P (m : bool) n := let b := Z.lor (if m then 128 else 0) n in
    eqb (negb (Z.land b 128 =? 0)) m && (Z.land b 127 =? n)).
  assert (P m n = true) as HP by (apply (forall_below (P m) 128); [by destruct m|lia]).
  unfold P in HP. reflect_cmp. split; [|done]. by apply eqb_prop.
Qed.

Lemma encode_frame_wire op p mask key raw :
  shape_ok (mkShape true op p) ->
  encode_frame op p mask key = Ok raw <->
  (is_control op = true -> zlen p <= 125) /\ raw = wire mask key (mkShape true op p).
Proof.
  intros [Hop _]. simpl in Hop. destruct (first_byte true op Hop) as (_ & _ & Hb).
  cbn iota in Hb. unfold encode_frame.
  rewrite (proj2 (Z.leb_le _ _)), (proj2 (Z.ltb_lt _ 256)) by lia. cbn [andb].
  destruct (is_control op), (Z.ltb_spec 125 (zlen p)); simpl; split.
  all: try (by intros [= <-]).
  all: try (by intros [_ ->]).
  intros [Hc _]. specialize (Hc eq_refl). lia.
Qed.

Lemma apply_mask_length key p : length (apply_mask key p) = length p.
Proof. apply length_imap. Qed.

Lemma apply_mask_involutive key p : apply_mask key (apply_mask key p) = p.
Proof.
  apply list_eq. intros i. unfold apply_mask. rewrite !list_lookup_imap.
  destruct (p !! i) as [x|]; simpl; [|done]. f_equal.
  by rewrite Z.lxor_assoc, Z.lxor_nilpotent, Z.lxor_0_r.
Qed.

(** The header with its length field reads back. *)
Lemma read_length_wire b0 (m : bool) n r :
  0 <= n < 2 ^ 64 ->
  exists off, (2 <= off)%nat /\ length (length_field (if m then 128 else 0) n) = (off - 1)%nat /\
    negb (Z.land (byte_at (b0 :: length_field (if m then 128 else 0) n ++ r) 1) 128 =? 0) = m /\
    read_length (b0 :: length_field (if m then 128 else 0) n ++ r) = Some (n, off).
Proof.
  intros Hn. unfold length_field, read_length, byte_at.
  destruct (Z.ltb_spec n 126).
  { exists 2%nat. destruct (second_byte m n ltac:(lia)) as [Hm Hv]. cbn [nth app]. rewrite Hm, Hv.
    rewrite (proj2 (Z.eqb_neq _ _)), (proj2 (Z.eqb_neq _ _)) by lia. done. }
  destruct (Z.ltb_spec n 65536).
  - exists 4%nat. destruct (second_byte m 126 ltac:(lia)) as [Hm Hv]. cbn [nth app]. rewrite Hm, Hv.
    change (126 =? 126) with true. cbn iota. cbn [length]. rewrite length_app, be_pack_length.
    split_and!; [lia|done|done|]. rewrite (proj2 (Nat.ltb_ge _ _)) by lia.
    do 2 f_equal. etransitivity; [|apply (be_unpack_pack_id 2); simpl; lia]. done.
  - exists 10%nat. destruct (second_byte m 127 ltac:(lia)) as [Hm Hv]. cbn [nth app]. rewrite Hm, Hv.
    change (127 =? 126) with false. change (127 =? 127) with true. cbn iota. cbn [length].
    rewrite length_app, be_pack_length.
    split_and!; [lia|done|done|]. rewrite (proj2 (Nat.ltb_ge _ _)) by lia.
    do 2 f_equal. etransitivity; [|apply (be_unpack_pack_id 8); simpl; lia]. done.
Qed.

Lemma parse_wire m key s r :
  shape_ok s -> m = false \/ length key = 4%nat ->
  parse m (wire m key s ++ r) = Ok (Some (fin s, opcode s, payload s, r)).
Proof.
  intros [Hop Hlen] Hk. destruct (first_byte (fin s) (opcode s) Hop) as (Hf & Ho & _).
  unfold wire. rewrite <- app_comm_cons, <- app_assoc.
  set (body := (if m then _ else payload s) ++ r).
  destruct (read_length_wire (Z.lor (if fin s then 128 else 0) (opcode s)) m (zlen (payload s)) body)
    as (off & Hoff & Hlf & Hm & Hrl); [rewrite MAX_FRAME_val in Hlen; lia|].
  set (lf := length_field _ _) in *. set (b0 := Z.lor _ (opcode s)) in *.
  assert (length (b0 :: lf) = off) as Hhdr by (simpl; lia).
  unfold parse. rewrite (proj2 (Nat.ltb_ge _ _)) by (simpl; rewrite length_app; lia).
  rewrite Hrl, Hm. change (byte_at _ 0) with b0. rewrite Hf, Ho.
  rewrite (proj2 (Z.ltb_ge _ _) Hlen), eqb_reflx. cbn [negb].
  assert (b0 :: lf ++ body = (b0 :: lf) ++ body) as -> by done. unfold body. destruct m; cbn [andb].
  - destruct Hk as [|Hk]; [done|].
    assert (length (key ++ apply_mask key (payload s)) = 4 + length (payload s))%nat as Hb.
    { by rewrite length_app, Hk, apply_mask_length. }
    rewrite (proj2 (Nat.ltb_ge _ _)) by (rewrite !length_app in *; lia).
    rewrite (proj2 (Z.ltb_ge _ _)) by (rewrite !length_app in *; lia).
    rewrite Nat2Z.id, <- app_assoc, slice_mid by (done || lia).
    rewrite (app_assoc (b0 :: lf) key), slice_mid by (rewrite ?length_app, ?apply_mask_length; lia).
    rewrite apply_mask_involutive, app_assoc, drop_app_length'; [done|].
    rewrite !length_app, apply_mask_length. lia.
  - rewrite (proj2 (Z.ltb_ge _ _)) by (rewrite !length_app in *; lia).
    rewrite Nat2Z.id, slice_mid by (done || lia).
    rewrite app_assoc, drop_app_length'; [done|]. rewrite !length_app. lia.
Qed.

(** ** Messages and the frames that carry them *)

(** A message in one frame, or split into a first fragment and continuations,
    each preceded by the control frames that interrupt it. *)
Inductive Item :=
| Whole (op : Z) (p : bytes)
| Split (op : Z) (p : bytes) (parts : list (list (Z * bytes) * bytes)).

Fixpoint shape_parts (parts : list (list (Z * bytes) * bytes)) : list Shape :=
  match parts with
  | [] => []
  | (cs, q) :: parts =>
      ((fun c => mkShape true c.1 c.2) <$> cs)
        ++ mkShape (match parts with [] => true | _ => false end) OP_CONT q :: shape_parts parts
  end.

Definition shapes (i : Item) : list Shape :=
  match i with
  | Whole op p => [mkShape true op p]
  | Split op p parts => mkShape false op p :: shape_parts parts
  end.

(** What the application should see: the control messages as they come, then the
    whole message. *)
Definition messages (i : Item) : list (Z * bytes) :=
  match i with
  | Whole op p => [(op, p)]
  | Split op p parts => concat parts.*1 ++ [(op, p ++ concat parts.*2)]
  end.

Definition item_ok (i : Item) : Prop :=
  match i with
  | Whole op _ => op <> OP_CONT
  | Split op _ parts =>
      op <> OP_CONT /\ is_control op = false /\ parts <> [] /\
      Forall (fun c => is_control c.1 = true) (concat parts.*1)
  end.

Arguments outcome : simpl never.
Arguments wire : simpl never.
Arguments parse : simpl never.

#[export] Instance item_ok_dec i : Decision (item_ok i).
Proof. destruct i; simpl; apply _. Defined.

Definition frame_ok (m : bool) (f : bytes * Shape) : Prop :=
  (m = false \/ length f.1 = 4%nat) /\ shape_ok f.2.

#[export] Instance frame_ok_dec m f : Decision (frame_ok m f).
Proof. unfold frame_ok, shape_ok. apply _. Defined.

Definition stream (m : bool) (fs : list (bytes * Shape)) : bytes :=
  concat ((fun f => wire m f.1 f.2) <$> fs).

Lemma stream_cons m k s fs : stream m ((k, s) :: fs) = wire m k s ++ stream m fs.
Proof. reflexivity. Qed.

(** The decoder's assembly, frame by frame. *)
Fixpoint walk (fo : Z) (fr : bytes) (ss : list Shape) : list (Z * bytes) * (Z * bytes) * option WSError :=
  match ss with
  | [] => ([], (fo, fr), None)
  | s :: ss =>
      match dispatch fo fr (fin s) (opcode s) (payload s) with
      | (fo, fr, Yield op p) => let '(ms, st, e) := walk fo fr ss in ((op, p) :: ms, st, e)
      | (fo, fr, Raise e) => ([], (fo, fr), Some e)
      | (fo, fr, _) => walk fo fr ss
      end
  end.

Lemma run_wires m fs fo fr r :
  Forall (frame_ok m) fs ->
  outcome (run (mkDec (stream m fs ++ r) m fo fr)) =
    let '(ms, st, e) := walk fo fr fs.*2 in
    match e with
    | Some e => (ms, Some e)
    | None => let '(ms2, e2) := outcome (run (mkDec r m st.1 st.2)) in (ms ++ ms2, e2)
    end.
Proof.
  revert fo fr. induction fs as [|[k s] fs IH]; intros fo fr Hok.
  { change (outcome (run (mkDec r m fo fr)) =
      let '(ms2, e2) := outcome (run (mkDec r m fo fr)) in (ms2, e2)).
    by destruct (outcome _). }
  apply Forall_cons in Hok as [[Hk Hs] Hok]. rewrite stream_cons, fmap_cons, <- app_assoc, run_unfold.
  unfold take_turn. cbn [buf expect_masked frag_op frag walk fst snd].
  rewrite parse_wire by done. cbn iota beta.
  pose proof (dispatch_not_wait fo fr (fin s) (opcode s) (payload s)) as Hw.
  destruct (dispatch fo fr _ _ _) as [[fo' fr'] t]. cbn in Hw.
  specialize (IH fo' fr' Hok). unfold set_frag, set_buf. cbn [buf expect_masked frag_op frag].
  destruct t; [done|by rewrite IH| |done].
  destruct (run (mkDec (_ ++ r) m fo' fr')) as [[ms d] e]. cbn [outcome] in IH |- *.
  destruct (walk fo' fr' fs.*2) as [[ms' st'] [e'|]].
  - by injection IH as -> ->.
  - destruct (outcome (run (mkDec r m st'.1 st'.2))). by injection IH as -> ->.
Qed.

Lemma walk_controls fo fr cs ss :
  Forall (fun c : Z * bytes => is_control c.1 = true) cs ->
  walk fo fr (((fun c => mkShape true c.1 c.2) <$> cs) ++ ss) =
    let '(ms, st, e) := walk fo fr ss in (cs ++ ms, st, e).
Proof.
  induction 1 as [|[op p] cs Hc _ IH]; [by simpl; destruct (walk fo fr ss) as [[]]|].
  rewrite fmap_cons, <- app_comm_cons. cbn [walk fin opcode payload fst snd] in *.
  unfold dispatch. rewrite Hc, IH. by destruct (walk fo fr ss) as [[]].
Qed.

Lemma walk_parts fo fr parts ss :
  fo <> 0 -> parts <> [] -> Forall (fun c => is_control c.1 = true) (concat parts.*1) ->
  walk fo fr (shape_parts parts ++ ss) =
    let '(ms, st, e) := walk 0 [] ss in
    ((concat parts.*1 ++ [(fo, fr ++ concat parts.*2)]) ++ ms, st, e).
Proof.
  intros Hfo. revert fr. induction parts as [|[cs q] parts IH]; intros fr Hne Hc; [done|].
  simpl in *. apply Forall_app in Hc as [Hcs Hc]. rewrite <- app_assoc, walk_controls by done.
  rewrite <- app_comm_cons. cbn [walk fin opcode payload]. unfold dispatch. simpl.
  rewrite (proj2 (Z.eqb_neq _ _) Hfo). destruct parts as [|p parts].
  - simpl. destruct (walk 0 [] ss) as [[ms st] e]. by rewrite !app_nil_r, <- !app_assoc.
  - rewrite IH by done. destruct (walk 0 [] ss) as [[ms st] e].
    by rewrite <- !app_assoc.
Qed.

Lemma walk_items items ss :
  Forall item_ok items ->
  walk 0 [] (concat (shapes <$> items) ++ ss) =
    let '(ms, st, e) := walk 0 [] ss in (concat (messages <$> items) ++ ms, st, e).
Proof.
  induction 1 as [|i items Hi _ IH]; [by simpl; destruct (walk 0 [] ss) as [[]]|].
  rewrite !fmap_cons, !concat_cons, <- !app_assoc.
  destruct i as [op p|op p parts]; cbn [shapes messages app walk fin opcode payload]; unfold item_ok in Hi.
  - unfold dispatch. destruct (is_control op); [|rewrite (proj2 (Z.eqb_neq _ _) Hi)];
      rewrite IH; by destruct (walk 0 [] ss) as [[]].
  - destruct Hi as (Hop & Hctl & Hne & Hcs). unfold dispatch at 1. rewrite Hctl, (proj2 (Z.eqb_neq _ _) Hop).
    rewrite walk_parts by done. rewrite IH. destruct (walk 0 [] ss) as [[ms st] e].
    by rewrite <- !app_assoc.
Qed.

Lemma feed_all_items m items fs chunks r :
  Forall item_ok items -> Forall (frame_ok m) fs -> fs.*2 = concat (shapes <$> items) ->
  concat chunks = stream m fs ++ r ->
  feed_all (new_decoder m) chunks =
    let '(ms, e) := outcome (run (mkDec r m 0 [])) in
    Some (concat (messages <$> items) ++ ms, e).
Proof.
  intros Hi Hf Hs Hc. rewrite feed_all_run by apply new_decoder_waits.
  unfold push, new_decoder, set_buf. simpl. rewrite Hc, run_wires by done.
  rewrite Hs, <- (app_nil_r (concat _)), walk_items by done. simpl. rewrite app_nil_r.
  by destruct (outcome _).
Qed.

Lemma run_empty m fo fr : outcome (run (mkDec [] m fo fr)) = ([], None).
Proof. done. Qed.

(** ** What [recv] makes of the decoder's messages *)

Section receive.
Variable urandom : nat -> bytes.

(** A message [recv] goes on after: not a close, and no ping it cannot answer. *)
Definition benign (m : Z * bytes) : Prop :=
  m.1 <> OP_CLOSE /\ (m.1 = OP_PING -> zlen m.2 <= 125).

Definition data (ms : list (Z * bytes)) : list (Z * bytes) :=
  filter (fun m => is_control m.1 = false) ms.
Definition pings (ms : list (Z * bytes)) : list bytes :=
  (filter (fun m : Z * bytes => m.1 = OP_PING) ms).*2.

(** The answers, the first with the [n]-th mask key. *)
Definition pongs (n : nat) (ps : list bytes) : list bytes :=
  imap (fun i p => wire true (urandom (n + i)) (mkShape true OP_PONG p)) ps.

Definition absorb (c : WSClient) (d : FrameDecoder) (ms : list (Z * bytes)) : WSClient :=
  mkClient d (pending c ++ data ms) (closed c) (bytes_in c)
    (sent c ++ pongs (masks c) (pings ms)) (masks c + length (pings ms)).

Lemma pongs_app n a b : pongs n (a ++ b) = pongs n a ++ pongs (n + length a) b.
Proof.
  unfold pongs. rewrite imap_app. f_equal. apply imap_ext. intros i x _. do 2 f_equal. lia.
Qed.

Lemma absorb_cons c d d' m ms :
  absorb c d (m :: ms) = absorb (absorb c d' [m]) d ms.
Proof.
  unfold absorb. cbn [pending closed bytes_in sent masks].
  change (m :: ms) with ([m] ++ ms). unfold data, pings. rewrite !filter_app, fmap_app, pongs_app.
  rewrite length_app, !app_assoc. by rewrite Nat.add_assoc.
Qed.

Lemma absorb_data c d op p : is_control op = false ->
  absorb c d [(op, p)] = set_pending (set_dec c d) (pending c ++ [(op, p)]).
Proof.
  intros H. unfold absorb, data, pings, set_pending, set_dec. rewrite !filter_cons. cbn [fst].
  rewrite decide_True, decide_False by (done || intros ->; done). simpl.
  by rewrite app_nil_r, Nat.add_0_r.
Qed.

Lemma pump_turn fuel c d op p :
  take_turn (dec c) = (d, Yield op p) -> benign (op, p) ->
  pump urandom (S fuel) c = pump urandom fuel (absorb c d [(op, p)]).
Proof.
  intros Ht [Hclose Hping]. cbn [pump]. rewrite Ht. cbn [fst snd] in *. destruct (Z.eqb_spec op OP_PING) as [->|H1].
  - unfold send. specialize (Hping eq_refl).
    rewrite (proj2 (encode_frame_wire OP_PONG p true _ _ ltac:(split; [done|simpl; rewrite MAX_FRAME_val; lia])))
      by (split; [|reflexivity]; done).
    unfold absorb, set_dec, pongs. simpl. by rewrite app_nil_r, !Nat.add_0_r, Nat.add_1_r.
  - destruct (Z.eqb_spec op OP_PONG) as [->|H2].
    + f_equal. unfold absorb, set_dec. simpl. by rewrite !app_nil_r, Nat.add_0_r.
    + rewrite (proj2 (Z.eqb_neq _ _) Hclose), absorb_data; [done|].
      unfold is_control. by rewrite !(proj2 (Z.eqb_neq _ _)).
Qed.

Lemma pump_run fuel c ms d :
  (length (buf (dec c)) < fuel)%nat -> run (dec c) = (ms, d, None) -> Forall benign ms ->
  pump urandom fuel c = Some (absorb c d ms, None).
Proof.
  remember (length (buf (dec c))) as n eqn:Hn. revert c fuel ms Hn.
  induction n as [n IH] using lt_wf_ind. intros c [|fuel] ms -> Hf Hr Hb; [lia|].
  rewrite run_unfold in Hr. destruct (take_turn (dec c)) as [d' t] eqn:Ht.
  pose proof (take_turn_buf _ _ _ Ht) as [_ Hs]. destruct t; simplify_eq.
  - cbn [pump]. rewrite Ht. unfold absorb, set_dec. simpl. by rewrite !app_nil_r, Nat.add_0_r.
  - cbn [pump]. rewrite Ht. rewrite (IH _ Hs (set_dec c d') fuel ms) by (done || simpl; lia). done.
  - destruct (run d') as [[ms' d2] e] eqn:Hr'. simplify_eq. apply Forall_cons in Hb as [Hm Hb].
    rewrite (pump_turn _ _ _ _ _ Ht Hm).
    rewrite (IH _ Hs (absorb c d' [(op, payload0)]) fuel ms') by (done || simpl; lia).
    by rewrite (absorb_cons c d d').
Qed.

Lemma recv_all_pending fuel c chunks :
  recv_all urandom (length (pending c) + fuel) c chunks =
    '(ms, c', o) ← recv_all urandom fuel (set_pending c []) chunks; Some (pending c ++ ms, c', o).
Proof.
  remember (pending c) as p eqn:Hp. revert c Hp. induction p as [|m p IH]; intros c Hp; simpl.
  - destruct c. simpl in *. subst. by destruct (recv_all _ _ _ _) as [[[]]|].
  - unfold recv. destruct chunks; cbn [recv_read]; rewrite <- Hp; simpl.
    all: rewrite (IH (set_pending c p)) by done; by destruct (recv_all _ _ _ _) as [[[]]|].
Qed.

Lemma recv_all_chunk f c chunk cs c1 :
  pending c = [] -> chunk <> [] ->
  pump urandom (S (length (buf (push (dec c) chunk)))) (count_in c chunk) = Some (c1, None) ->
  recv_all urandom (S f) c (chunk :: cs) = recv_all urandom (S f) c1 cs.
Proof.
  intros Hp Hc Hpump. cbn [recv_all]. unfold recv. cbn [recv_read]. rewrite Hp.
  destruct chunk as [|x chunk]; [done|]. change (dec (count_in c (x :: chunk))) with (push (dec c) (x :: chunk)).
  rewrite Hpump. cbn [mbind option_bind]. by destruct cs.
Qed.

Lemma recv_all_delivers chunks c ms d fuel :
  take_turn (dec c) = (dec c, Wait) -> Forall (fun x => x <> []) chunks ->
  run (push (dec c) (concat chunks)) = (ms, d, None) -> Forall benign ms ->
  (length (pending c) + length (data ms) < fuel)%nat ->
  exists c', recv_all urandom fuel c chunks = Some (pending c ++ data ms, c', Blocked) /\
    sent c' = sent c ++ pongs (masks c) (pings ms) /\ closed c' = closed c /\
    bytes_in c' = bytes_in c + zlen (concat chunks).
Proof.
  revert c ms fuel. induction chunks as [|chunk cs IH]; intros c ms fuel Hw Hne Hr Hb Hf.
  - cbn [concat] in Hr. rewrite push_nil, run_unfold, Hw in Hr. simplify_eq.
    assert (length (data []) = 0%nat) as E0 by done. rewrite E0 in Hf.
    replace fuel with (length (pending c) + S (fuel - length (pending c) - 1))%nat by lia.
    rewrite recv_all_pending. simpl. eexists. split; [done|]. simpl. rewrite app_nil_r. split_and!; try done; lia.
  - apply Forall_cons in Hne as [Hc Hne]. cbn [concat] in Hr. rewrite <- push_push, run_push in Hr.
    destruct (run (push (dec c) chunk)) as [[ms1 d1] [e|]] eqn:Hr1; [done|].
    destruct (run (push d1 (concat cs))) as [[ms2 d2] e] eqn:Hr2. simplify_eq.
    apply Forall_app in Hb as [Hb1 Hb2].
    assert (data (ms1 ++ ms2) = data ms1 ++ data ms2) as Hd by apply filter_app.
    rewrite Hd, length_app in Hf.
    replace fuel with (length (pending c) + S (fuel - length (pending c) - 1))%nat by lia.
    rewrite recv_all_pending.
    set (c1 := absorb (count_in (set_pending c []) chunk) d1 ms1).
    destruct (IH c1 ms2 (S (fuel - length (pending c) - 1))) as (c' & He & Hs & Hcl & Hbi);
      [by eapply run_stuck|done|done|done|simpl; lia|].
    exists c'. split; [|split_and!].
    + rewrite (recv_all_chunk _ _ _ _ c1); [|done|done|by apply pump_run; [simpl; lia|..]].
      rewrite He. cbn. by rewrite Hd, app_assoc.
    + rewrite Hs. simpl. unfold pings. by rewrite filter_app, fmap_app, pongs_app, app_assoc.
    + done.
    + rewrite Hbi. simpl. rewrite length_app. lia.
Qed.

End receive.

(** ** Handshake lemmas *)

Definition b64_ok (c : Z) : Prop := 43 <= c <= 122.

Lemma b64_char_ok x : 0 <= x < 64 -> b64_ok (b64_char x).
Proof.
  intros H. assert (((43 <=? b64_char x) && (b64_char x <=? 122)) = true) as E
    by (apply (forall_below (fun x => (43 <=? b64_char x) && (b64_char x <=? 122)) 64); [done|lia]).
  unfold b64_ok. reflect_cmp. lia.
Qed.

Lemma b64encode_ok b : bytes_ok b -> Forall b64_ok (b64encode b).
Proof.
  remember (length b) as n eqn:Hn. revert b Hn. induction n as [n IH] using lt_wf_ind.
  intros [|x [|y [|z r]]] -> Hb; [done|..]; unfold bytes_ok in Hb; rewrite ?Forall_cons in Hb;
    destruct_and?; unfold byte_ok in *; cbn [b64encode].
  - repeat constructor; try (unfold b64_ok; lia); apply b64_char_ok; zdm.
  - repeat constructor; try (unfold b64_ok; lia); apply b64_char_ok; zdm.
  - repeat (constructor; [apply b64_char_ok; zdm|]). apply (IH (length r)); [simpl; lia|done|done].
Qed.

Lemma utf8_ascii s : Forall (fun c => 0 <= c < 128) s -> utf8_encode s = Some s.
Proof.
  induction 1 as [|c s Hc _ IH]; [done|]. cbn [utf8_encode]. unfold utf8_char.
  rewrite (proj2 (Z.ltb_ge _ _)), (proj2 (Z.ltb_lt c 128)) by lia. simpl. by rewrite IH.
Qed.

Lemma digest_key_ok key : Forall b64_ok (digest_key key).
Proof.
  apply b64encode_ok. unfold sha1. induction (foldl _ _ _) as [|w ws IH]; [constructor|].
  rewrite fmap_cons, concat_cons.
  apply bytes_ok_app; [apply be_pack_ok|done].
Qed.

Lemma b64_ascii s : Forall b64_ok s -> Forall (fun c => 0 <= c < 128) s.
Proof. intros H. eapply Forall_impl; [exact H|]. unfold b64_ok. simpl. lia. Qed.

Lemma find_crlf p r : Forall (fun c => c <> 13) p -> find_sub crlf (p ++ crlf ++ r) = Some (length p).
Proof.
  induction 1 as [|c p Hc _ IH]; [done|]. rewrite <- app_comm_cons. cbn [find_sub].
  change (is_prefix crlf (c :: p ++ crlf ++ r)) with ((13 =? c) && is_prefix [10] (p ++ crlf ++ r)).
  rewrite (proj2 (Z.eqb_neq _ _)) by done. cbn [andb]. by rewrite IH.
Qed.

Lemma split_line fuel p r :
  Forall (fun c => c <> 13) p -> split_sub (S fuel) crlf (p ++ crlf ++ r) = p :: split_sub fuel crlf r.
Proof.
  intros H. cbn [split_sub]. rewrite find_crlf by done. rewrite take_app_length.
  change (length crlf) with 2%nat. rewrite app_assoc, drop_app_length'; [done|].
  rewrite length_app. done.
Qed.

Lemma strip_b64 s : Forall b64_ok s -> strip (32 :: s) = s.
Proof.
  assert (forall c, b64_ok c -> is_space c = false) as Hns.
  { intros c Hc. unfold b64_ok in Hc. assert (negb (is_space c) || (c <? 43) = true) as E
      by (apply (forall_below (fun c => negb (is_space c) || (c <? 43)) 123); [by vm_compute|lia]).
    apply orb_true_iff in E as [E|E]; reflect_cmp; [done|lia]. }
  intros H. unfold strip. cbn [lstrip_by]. change (is_space 32) with true. cbn iota.
  assert (lstrip_by is_space s = s) as ->.
  { destruct H as [|c s Hc _]; [done|]. cbn [lstrip_by]. by rewrite Hns. }
  destruct s as [|c s _] using rev_ind; [done|]. apply rstrip_by_last, Hns.
  by apply Forall_app in H as [_ [? _]%Forall_cons].
Qed.

Definition response_head (a : pystr) : pystr :=
  lit "HTTP/1.1 101 Switching Protocols" ++ crlf ++ lit "Upgrade: websocket" ++ crlf ++
  lit "Connection: Upgrade" ++ crlf ++ (lit "Sec-WebSocket-Accept: " ++ a) ++ crlf ++ crlf ++ [].

Lemma split_response a : Forall b64_ok a ->
  split_crlf (response_head a) =
    [lit "HTTP/1.1 101 Switching Protocols"; lit "Upgrade: websocket"; lit "Connection: Upgrade";
     lit "Sec-WebSocket-Accept: " ++ a; []; []].
Proof.
  intros Ha. unfold split_crlf.
  assert (exists f, length (response_head a) = (6 + f)%nat) as [f ->].
  { unfold response_head. rewrite length_app. eexists (26 + _)%nat. reflexivity. }
  unfold response_head. cbn [Nat.add].
  do 3 (rewrite split_line by (by apply (bool_decide_unpack _)); apply (f_equal (cons _))).
  rewrite split_line.
  2:{ apply Forall_app. split; [by apply (bool_decide_unpack _)|].
      eapply Forall_impl; [exact Ha|]. unfold b64_ok. lia. }
  apply (f_equal (cons _)). exact (split_line (S f) [] [] (Forall_nil_2 _)).
Qed.

Lemma check_response key a :
  Forall b64_ok a ->
  check_upgrade key (response_head a) =
    if bool_decide (Some a = accept_key key) then Ok tt else Err AcceptMismatch.
Proof.
  intros Ha. unfold check_upgrade. rewrite split_response by done. cbn [hd_error default tail foldl].
  rewrite bool_decide_true by (by eexists).
  set (pre := lit "Sec-WebSocket-Accept: ").
  change (is_prefix ACCEPT_HEADER (lower1 <$> [])) with false.
  change (is_prefix ACCEPT_HEADER (lower1 <$> lit "Upgrade: websocket")) with false.
  change (is_prefix ACCEPT_HEADER (lower1 <$> lit "Connection: Upgrade")) with false.
  change (is_prefix ACCEPT_HEADER (lower1 <$> pre ++ a)) with true. cbn iota.
  assert (header_value (pre ++ a) = a) as ->; [|done].
  unfold header_value. change (tail (break_at (Z.eqb 58) (pre ++ a)).2) with (32 :: a).
  by apply strip_b64.
Qed.

Lemma handshake_head headers key a :
  headers !! KEY_HEADER = Some key -> key <> [] -> accept_key key = Some a -> Forall b64_ok a ->
  handshake_response headers = Ok (Some (response_head a)).
Proof.
  intros Hk Hne Ha Hok. unfold handshake_response. rewrite Hk. destruct key as [|x key]; [exfalso; exact (Hne eq_refl)|].
  rewrite Ha. cbn [mbind option_bind]. f_equal. rewrite <- (utf8_ascii (response_head a)).
  - unfold response_head. by rewrite app_nil_r, <- !app_assoc.
  - unfold response_head. rewrite !Forall_app.
    split_and!; first [exact (b64_ascii _ Hok)|apply (bool_decide_unpack _); vm_compute; exact I].
Qed.

(** A ping of more than 125 bytes, or a fragmented one, is handed on like any
    other: the decoder does not apply the rule of the module's header. *)
Lemma control_frames_unchecked m key f op p :
  is_control op = true -> shape_ok (mkShape f op p) -> m = false \/ length key = 4%nat ->
  outcome (run (push (new_decoder m) (wire m key (mkShape f op p)))) = ([(op, p)], None).
Proof.
  intros Hc Hs Hk. unfold push, new_decoder, set_buf. cbn [buf app].
  rewrite <- (app_nil_r (wire _ _ _)), run_unfold. unfold take_turn. cbn [buf expect_masked frag_op frag].
  rewrite parse_wire by done. cbn [fin opcode payload]. unfold dispatch. by rewrite Hc.
Qed.

(** ** Properties *)

(** C4: fragmented messages with control frames between their fragments are
    reassembled: whatever the masking and however the stream is cut, the decoder
    yields each control frame as it comes and each message once it is complete,
    and does not raise. *)
Theorem decoder_reassembles m items fs chunks :
  Forall item_ok items -> Forall (frame_ok m) fs -> fs.*2 = concat (shapes <$> items) ->
  concat chunks = stream m fs ->
  feed_all (new_decoder m) chunks = Some (concat (messages <$> items), None).
Proof.
  intros Hi Hf Hs Hc. rewrite (feed_all_items m items fs chunks []); [|done..|by rewrite app_nil_r].
  rewrite run_empty. by rewrite app_nil_r.
Qed.

Definition demo_items : list Item :=
  [Split 1 [104] [([(9, [1])], [105]); ([], [33])]; Whole 2 [7; 7]; Whole 10 []].
Definition demo_frames : list (bytes * Shape) :=
  pair [1; 2; 3; 4] <$> concat (shapes <$> demo_items).

Lemma decoder_reassembles_witness :
  feed_all (new_decoder true) [take 9 (stream true demo_frames); drop 9 (stream true demo_frames)]
    = Some ([(9, [1]); (1, [104; 105; 33]); (2, [7; 7]); (10, [])], None).
Proof.
  apply (decoder_reassembles true demo_items demo_frames).
  - by apply (bool_decide_unpack _).
  - by apply (bool_decide_unpack _).
  - reflexivity.
  - by vm_compute.
Defined.

(** [encode_frame] accepts every opcode and payload the protocol allows, except
    a control frame of more than 125 bytes, and what it writes, masked or not and
    cut anywhere, decodes to the same messages. *)
Theorem encode_decode_roundtrip m (frames : list (Z * bytes * bytes)) (raws chunks : list bytes) :
  Forall (fun f => 0 < f.1.1 < 16 /\ zlen f.1.2 <= MAX_FRAME /\ length f.2 = 4%nat /\
                   (is_control f.1.1 = true -> zlen f.1.2 <= 125)) frames ->
  concat chunks = concat raws ->
  (Forall2 (fun f raw => encode_frame f.1.1 f.1.2 m f.2 = Ok raw) frames raws ->
   feed_all (new_decoder m) chunks = Some (frames.*1, None)) /\
  exists raws', Forall2 (fun f raw => encode_frame f.1.1 f.1.2 m f.2 = Ok raw) frames raws'.
Proof.
  intros Hok Hc.
  assert (Forall (fun f => encode_frame f.1.1 f.1.2 m f.2 = Ok (wire m f.2 (mkShape true f.1.1 f.1.2)))
    frames) as Henc.
  { eapply Forall_impl; [exact Hok|]. intros [[op p] key] (Hop & Hl & _ & Hctl). simpl in *.
    apply encode_frame_wire; [|by split]. split; simpl; [lia|done]. }
  split.
  - intros Hraw.
    rewrite (feed_all_items m ((fun f => Whole f.1.1 f.1.2) <$> frames)
      ((fun f => (f.2, mkShape true f.1.1 f.1.2)) <$> frames) chunks []).
    + rewrite run_empty. rewrite app_nil_r. do 2 f_equal.
      clear. induction frames as [|[[op p] k] fs IH]; [done|]. cbn in *. by f_equal.
    + apply Forall_fmap. eapply Forall_impl; [exact Hok|]. simpl. unfold OP_CONT. lia.
    + apply Forall_fmap. eapply Forall_impl; [exact Hok|].
      intros [[op p] key] (Hop & Hl & Hk & _). simpl in *. split; [by right|]. split; simpl; [lia|done].
    + clear. induction frames as [|f fs IH]; [done|]. cbn in *. by f_equal.
    + rewrite app_nil_r, Hc. clear -Hraw Henc.
      induction Hraw as [|f raw fs raws Hr _ IH]; [done|]. apply Forall_cons in Henc as [He Henc].
      rewrite fmap_cons, stream_cons, concat_cons, (IH Henc). congruence.
  - exists ((fun f => wire m f.2 (mkShape true f.1.1 f.1.2)) <$> frames).
    apply Forall2_fmap_r. by apply Forall_Forall2_diag.
Qed.

Lemma encode_decode_roundtrip_witness :
  let ms := [(1, lit "hi", [9; 8; 7; 6]); (9, [], [1; 1; 1; 1])] in
  let raws := (fun f => default [] (match encode_frame f.1.1 f.1.2 true f.2 with Ok r => Some r | _ => None end))
                <$> ms in
  feed_all (new_decoder true) [concat raws] = Some ([(1, lit "hi"); (9, [])], None).
Proof.
  intros ms raws. eapply (encode_decode_roundtrip true ms raws).
  - by apply (bool_decide_unpack _).
  - cbn [concat]. by rewrite app_nil_r.
  - repeat constructor.
Defined.

(** What a peer must not send, and the error it is answered with.  An oversized
    or wrongly masked frame is refused from its header alone. *)
Inductive offence (m : bool) : bytes -> WSError -> Prop :=
| too_big b0 (m' : bool) n : MAX_FRAME < n < 2 ^ 64 ->
    offence m (b0 :: length_field (if m' then 128 else 0) n) (FrameTooBig n)
| wrong_mask b0 n : 0 <= n <= MAX_FRAME ->
    offence m (b0 :: length_field (if m then 0 else 128) n) (MaskRule (negb m))
| stray key f p : m = false \/ length key = 4%nat -> zlen p <= MAX_FRAME ->
    offence m (wire m key (mkShape f OP_CONT p)) StrayContinuation.

Lemma parse_header m (m' : bool) b0 n r : 0 <= n < 2 ^ 64 ->
  MAX_FRAME < n \/ m' = negb m ->
  parse m (b0 :: length_field (if m' then 128 else 0) n ++ r)
    = Err (if MAX_FRAME <? n then FrameTooBig n else MaskRule m').
Proof.
  intros Hn Hbad. destruct (read_length_wire b0 m' n r Hn) as (off & Hoff & Hl & Hm & Hr).
  unfold parse. rewrite (proj2 (Nat.ltb_ge _ _)) by (simpl; rewrite length_app; lia).
  rewrite Hr. destruct (Z.ltb_spec MAX_FRAME n); [done|].
  destruct Hbad as [|Hm']; [lia|]. rewrite Hm, Hm'. by destruct m.
Qed.

Lemma offence_raises m b e r : offence m b e -> outcome (run (mkDec (b ++ r) m 0 [])) = ([], Some e).
Proof.
  intros Ho. rewrite run_unfold. unfold take_turn. cbn [buf expect_masked frag_op frag].
  destruct Ho as [b0 m' n Hn|b0 n Hn|key f p Hk Hp].
  - rewrite <- app_comm_cons, parse_header by (rewrite ?MAX_FRAME_val in *; lia).
    by rewrite (proj2 (Z.ltb_lt _ _)) by lia.
  - assert ((if m then 0 else 128) = (if negb m then 128 else 0)) as -> by by destruct m.
    rewrite <- app_comm_cons, parse_header by (first [by right|rewrite ?MAX_FRAME_val in *; lia]).
    by rewrite (proj2 (Z.ltb_ge _ _)) by lia.
  - rewrite parse_wire; [done| |done]. split; [by vm_compute|done].
Qed.

(** between messages, a continuation without a start, a frame with the wrong
    masking and a frame longer than [MAX_FRAME] each raise their error, the last
    two from the header alone; the messages completed before are delivered. *)
Theorem decoder_rejects m items fs chunks bad e tail :
  Forall item_ok items -> Forall (frame_ok m) fs -> fs.*2 = concat (shapes <$> items) ->
  offence m bad e -> concat chunks = stream m fs ++ bad ++ tail ->
  feed_all (new_decoder m) chunks = Some (concat (messages <$> items), Some e).
Proof.
  intros Hi Hf Hs Ho Hc. rewrite (feed_all_items m items fs chunks (bad ++ tail)) by done.
  rewrite (offence_raises m bad e tail Ho). by rewrite app_nil_r.
Qed.

Lemma decoder_rejects_witness :
  feed_all (new_decoder true)
    [stream true demo_frames; [0x82]; Z.lor 0x80 127 :: be_pack 8 (MAX_FRAME + 1)]
    = Some ([(9, [1]); (1, [104; 105; 33]); (2, [7; 7]); (10, [])],
            Some (FrameTooBig (MAX_FRAME + 1))).
Proof.
  apply (decoder_rejects true demo_items demo_frames _
           (0x82 :: length_field 128 (MAX_FRAME + 1)) _ []).
  - by apply (bool_decide_unpack _).
  - by apply (bool_decide_unpack _).
  - reflexivity.
  - apply (too_big true 0x82 true). rewrite MAX_FRAME_val. lia.
  - by vm_compute.
Defined.

(** a client calling [recv] again and again gets exactly the data messages the
    server sent, in order, whatever the cut into reads; it answers every ping with
    a pong of the same payload, in order, and writes nothing else; it stays open. *)
Theorem recv_delivers urandom items fs (chunks : list bytes) :
  Forall item_ok items -> Forall (frame_ok false) fs -> fs.*2 = concat (shapes <$> items) ->
  Forall (fun x => x <> []) chunks -> concat chunks = stream false fs ->
  let ms := concat (messages <$> items) in
  Forall benign ms ->
  exists c, recv_all urandom (S (length (data ms))) new_client chunks = Some (data ms, c, Blocked) /\
    sent c = pongs urandom 0 (pings ms) /\ closed c = false /\ bytes_in c = zlen (stream false fs).
Proof.
  intros Hi Hf Hs Hne Hc ms Hb.
  pose proof (run_wires false fs 0 [] [] Hf) as Hrun.
  rewrite Hs, <- (app_nil_r (concat _)), walk_items in Hrun by done. cbn [walk fst snd] in Hrun.
  rewrite run_empty, !app_nil_r in Hrun. fold ms in Hrun.
  destruct (run (mkDec (stream false fs) false 0 [])) as [[ms' d] e] eqn:Hr.
  injection Hrun as -> ->.
  destruct (recv_all_delivers urandom chunks new_client ms d (S (length (data ms))))
    as (c & Hrecv & Hsent & Hcl & Hin); [done|done| |done|simpl; lia|].
  { rewrite Hc. exact Hr. }
  exists c. rewrite Hc in Hin. done.
Qed.

Lemma recv_delivers_witness :
  let key n := [Z.of_nat n; 2; 3; 4] in
  let ms := [(9, [1]); (1, [104; 105; 33]); (2, [7; 7]); (10, [])] in
  exists c, recv_all key 3 new_client [take 5 (stream false demo_frames); drop 5 (stream false demo_frames)]
      = Some ([(1, [104; 105; 33]); (2, [7; 7])], c, Blocked) /\
    sent c = pongs key 0 (pings ms) /\ closed c = false /\ bytes_in c = zlen (stream false demo_frames).
Proof.
  intros key ms. apply (recv_delivers key demo_items demo_frames).
  - by apply (bool_decide_unpack _).
  - by apply (bool_decide_unpack _).
  - reflexivity.
  - by repeat constructor.
  - by vm_compute.
  - repeat constructor; by vm_compute.
Defined.

(** client and server agree on the handshake: the server's answer to a request
    with key [key] passes the client's check exactly for the keys that have the same
    accept digest, so an answer to someone else's request is refused; a request
    without a key is refused. *)
Theorem handshake_agrees (headers : gmap pystr pystr) (random16 : bytes) key :
  bytes_ok random16 -> random16 <> [] -> headers !! KEY_HEADER = Some (client_key random16) ->
  exists head, handshake_response headers = Ok (Some head) /\
    check_upgrade (client_key random16) head = Ok tt /\
    check_upgrade key head =
      (if bool_decide (accept_key key = accept_key (client_key random16)) then Ok tt else Err AcceptMismatch) /\
    handshake_response (delete KEY_HEADER headers) = Err NoKey.
Proof.
  intros Hb Hne Hk. pose proof (b64encode_ok _ Hb) as Hb64. fold (client_key random16) in Hb64.
  assert (accept_key (client_key random16) = Some (digest_key (client_key random16))) as Ha.
  { unfold accept_key. by rewrite utf8_ascii by by apply b64_ascii. }
  pose proof (digest_key_ok (client_key random16)) as Hd.
  exists (response_head (digest_key (client_key random16))). split_and!.
  - apply (handshake_head _ (client_key random16)); [done| |done|done].
    by destruct random16 as [|x [|y [|z r]]].
  - rewrite check_response by done. by rewrite bool_decide_true.
  - rewrite check_response, Ha by done. by rewrite (bool_decide_ext _ _ (symmetry_iff _ _ _)).
  - unfold handshake_response. by rewrite lookup_delete_eq.
Qed.

(** The key of RFC 6455's own example. *)
Definition rfc_random : bytes := lit "the sample nonce".

Lemma handshake_agrees_witness :
  client_key rfc_random = lit "dGhlIHNhbXBsZSBub25jZQ==" /\
  accept_key (client_key rfc_random) = Some (lit "s3pPLMBiTxaQ9kYGzzhZRbK+xOo=") /\
  exists head, handshake_response {[KEY_HEADER := client_key rfc_random]} = Ok (Some head) /\
    check_upgrade (client_key rfc_random) head = Ok tt /\
    check_upgrade (lit "x") head =
      (if bool_decide (accept_key (lit "x") = accept_key (client_key rfc_random))
       then Ok tt else Err AcceptMismatch) /\
    handshake_response (delete KEY_HEADER {[KEY_HEADER := client_key rfc_random]}) = Err NoKey.
Proof.
  split_and!; [by vm_compute|by vm_compute|].
  apply (handshake_agrees {[KEY_HEADER := client_key rfc_random]} rfc_random (lit "x")).
  - by apply (bool_decide_unpack _).
  - done.
  - by rewrite lookup_singleton_eq.
Defined.

End Ws.
