(* ===== verification/Entitlements.v ===== *)
(** * Subscription rights (src/src/mdfeed/entitlements.py)

    Tokens map to the symbols they may see; [resolve] turns a subscription request
    into the filter the gateway applies.  A Python set is a [gset], and [None] for
    a filter means every symbol.  Opening the file is left out: [load] takes its
    text. *)

From S2P Require Import Prelude PyStr.

Module Ent.

Definition ALL : pystr := lit "*".

Record Entitlements := mkEnt
  { by_token : gmap pystr (gset pystr); enabled : bool; source : pystr }.

Definition open_to_all : Entitlements := mkEnt ∅ false [].

Definition allowed (e : Entitlements) (token : pystr) : gset pystr :=
  default ∅ (by_token e !! token).
Definition allows_all (e : Entitlements) (token : pystr) : bool :=
  bool_decide (ALL ∈ allowed e token).
Definition known (e : Entitlements) (token : pystr) : bool :=
  bool_decide (is_Some (by_token e !! token)).

Inductive reason := Granted | TOKEN_REQUIRED | UNKNOWN_TOKEN | NOT_ENTITLED.

#[export] Instance reason_eq_dec : EqDecision reason.
Proof. solve_decision. Defined.

Definition is_empty {A} (l : list A) : bool := match l with [] => true | _ => false end.

(** [list(requested or [])] *)
Definition requested_list (requested : option (list pystr)) : list pystr := default [] requested.

(** [set(requested) if requested else None] *)
Definition as_filter (requested : option (list pystr)) : option (gset pystr) :=
  if is_empty (requested_list requested) then None
  else Some (list_to_set (requested_list requested)).

Definition resolve (e : Entitlements) (token : pystr) (requested : option (list pystr))
    : option (gset pystr) * list pystr * reason :=
  if negb (enabled e) then (as_filter requested, [], Granted)
  else if is_empty token then (Some ∅, requested_list requested, TOKEN_REQUIRED)
  else if negb (known e token) then (Some ∅, requested_list requested, UNKNOWN_TOKEN)
  else if allows_all e token then (as_filter requested, [], Granted)
  else
    let allow := allowed e token in
    if is_empty (requested_list requested) then (Some allow, [], Granted)
    else
      let granted := list_to_set (filter (fun s => s ∈ allow) (requested_list requested)) in
      let denied := filter (fun s => s ∉ allow) (requested_list requested) in
      (Some granted, denied, if is_empty denied then Granted else NOT_ENTITLED).

(** ** The file *)

Definition parse_line (raw : pystr) : option (pystr * gset pystr) :=
  match split_ws1 (strip (before_char 35 raw)) with
  | [] => None
  | token :: rest =>
      let syms := match rest with s :: _ => s | [] => [] end in
      Some (token, list_to_set (filter (fun s => s <> []) (strip <$> split_char 44 syms)))
  end.

Definition parse_step (by_tok : gmap pystr (gset pystr)) (raw : pystr) : gmap pystr (gset pystr) :=
  match parse_line raw with Some (token, syms) => <[token := syms]> by_tok | None => by_tok end.

Definition parse (text source : pystr) : Entitlements :=
  let by_tok := foldl parse_step ∅ (splitlines text) in
  mkEnt by_tok (bool_decide (by_tok <> ∅)) source.

(** [load]: the file's text, or [None] when no path is configured. *)
Definition load (path : pystr) (text : option pystr) : Entitlements :=
  match text with Some text => parse text path | None => open_to_all end.

(** ** Lemmas *)

(** The symbols a filter lets through. *)
Definition passes (f : option (gset pystr)) (s : pystr) : bool :=
  match f with None => true | Some X => bool_decide (s ∈ X) end.

(** What a token may see. *)
Definition entitled (e : Entitlements) (token s : pystr) : Prop :=
  token <> [] /\ is_Some (by_token e !! token) /\ (ALL ∈ allowed e token \/ s ∈ allowed e token).

Lemma is_empty_true {A} (l : list A) : is_empty l = true <-> l = [].
Proof. by destruct l. Qed.
Lemma is_empty_false {A} (l : list A) : is_empty l = false <-> l <> [].
Proof. by destruct l. Qed.

Lemma passes_as_filter requested s :
  passes (as_filter requested) s = true <-> requested_list requested = [] \/ s ∈ requested_list requested.
Proof.
  unfold as_filter. destruct (requested_list requested) as [|x l]; simpl; [by split; [left|]|].
  rewrite bool_decide_eq_true. rewrite elem_of_union, elem_of_singleton, elem_of_list_to_set, elem_of_cons.
  naive_solver.
Qed.

Example parse_sample :
  let e := parse (lit "# tokens" ++ [10] ++ lit "demo  UPBIT:A, BINANCE:B # two" ++ [10] ++ lit "desk *") [] in
  (enabled e, resolve e (lit "demo") (Some [lit "BINANCE:B"; lit "X"]), (resolve e (lit "desk") None).1.1)
  = (true, (Some {[lit "BINANCE:B"]}, [lit "X"], NOT_ENTITLED), None).
Proof. by vm_compute. Qed.

Lemma resolve_cases e token requested s f denied why :
  resolve e token requested = (f, denied, why) ->
  let asked := requested_list requested = [] \/ s ∈ requested_list requested in
  (enabled e = true ->
     (passes f s = true <-> entitled e token s /\ asked) /\
     (s ∈ denied <-> s ∈ requested_list requested /\ ~ entitled e token s) /\
     (why = Granted <-> token <> [] /\ is_Some (by_token e !! token) /\ denied = [])) /\
  (enabled e = false -> (passes f s = true <-> asked) /\ denied = [] /\ why = Granted).
Proof.
  intros H asked. unfold resolve in H. destruct (enabled e); simpl in H.
  2:{ simplify_eq. split; [done|]. intros _. by rewrite passes_as_filter. }
  split; [intros _|done]. unfold entitled.
  destruct (is_empty token) eqn:Ht; [apply is_empty_true in Ht as ->|apply is_empty_false in Ht].
  { simplify_eq. simpl. rewrite bool_decide_eq_true. set_solver. }
  unfold known in H. case_bool_decide as Hk; simpl in H.
  2:{ simplify_eq. simpl. rewrite bool_decide_eq_true. set_solver. }
  unfold allows_all in H. case_bool_decide as Ha.
  { simplify_eq. rewrite passes_as_filter. set_solver. }
  destruct (is_empty (requested_list requested)) eqn:Hr;
    [apply is_empty_true in Hr|apply is_empty_false in Hr]; simplify_eq; simpl; rewrite bool_decide_eq_true.
  { unfold asked. rewrite Hr. set_solver. }
  rewrite elem_of_list_to_set, !list_elem_of_filter. unfold asked.
  split; [set_solver|]. split; [set_solver|].
  destruct (filter (λ s : list Z, s ∉ allowed e token) (requested_list requested)); simpl; naive_solver.
Qed.

(** ** Properties *)

(** with the check on, the filter that is applied lets a symbol through exactly
    when the token is entitled to it and the request, unless empty, names it; the
    denied list is exactly the rest of the request, and no reason is given exactly
    when the token is known and nothing was denied.  With the check off the request
    alone decides. *)
Theorem resolve_exact e token requested s f denied why :
  resolve e token requested = (f, denied, why) ->
  let asked := requested_list requested = [] \/ s ∈ requested_list requested in
  (enabled e = true ->
     (passes f s = true <-> entitled e token s /\ asked) /\
     (s ∈ denied <-> s ∈ requested_list requested /\ ~ entitled e token s) /\
     (why = Granted <-> token <> [] /\ is_Some (by_token e !! token) /\ denied = [])) /\
  (enabled e = false -> (passes f s = true <-> asked) /\ denied = [] /\ why = Granted).
Proof. apply resolve_cases. Qed.

Definition demo : Entitlements :=
  mkEnt {[lit "t" := {[lit "A"; lit "B"]}]} true [].

Lemma resolve_exact_witness :
  resolve demo (lit "t") (Some [lit "A"; lit "C"]) = (Some {[lit "A"]}, [lit "C"], NOT_ENTITLED) /\
  (passes (Some {[lit "A"]}) (lit "C") = true <->
     entitled demo (lit "t") (lit "C") /\ ([lit "A"; lit "C"] = [] \/ lit "C" ∈ [lit "A"; lit "C"])).
Proof.
  split; [by vm_compute|].
  apply (resolve_exact demo (lit "t") (Some [lit "A"; lit "C"]) (lit "C") _ [lit "C"] NOT_ENTITLED);
    by vm_compute.
Defined.

End Ent.
