(* ===== verification/Gateway.v ===== *)
(** * Distribution to TCP subscribers (src/src/mdfeed/services/tcp_gateway.py)

    One record per subscriber, with its bounded queue and its renumbered stream;
    the gateway's fan-out, send loop, snapshot and subscription handling.  Each
    event is the code between two [await]s, so a list of events is an interleaving
    of the asyncio tasks.  Written bytes are logged in [written]; JSON texts come
    from [json.dumps], an argument, and a subscription request arrives parsed. *)

From S2P Require Import Prelude PyStr.
From S2P Require Models Protocol Entitlements.

Module Gateway.

Import Protocol.Protocol Entitlements.Ent.

Definition DROP_LIMIT : Z := 5000.

Inductive Mode := MODE_STREAM | MODE_CONFLATE.
#[export] Instance mode_eq_dec : EqDecision Mode.
Proof. solve_decision. Defined.

(** The queue holds encoded frames, or in conflate mode symbol keys. *)
Inductive item := Key (k : pystr) | Raw (data : bytes).
#[export] Instance item_eq_dec : EqDecision item.
Proof. solve_decision. Defined.

(** [(msg_type, payload, flags)] *)
Abbreviation cell := (Z * bytes * Z)%type (only parsing).

(** The send-loop task: waiting on the queue, waiting on [drain], or ended by an
    exception. *)
Inductive Sender := Idle | Draining | Dead.

Record Subscriber := mkSub
  { sid : Z; queue : list item; maxsize : Z; symbols : option (gset pystr); dropped : Z;
    sent : Z; out_seq : Z; mode : Mode; pending : gmap pystr cell; conflated : Z;
    token : pystr; written : list bytes; sender : Sender; closed : bool }.

Definition new_sub (cid queue_size : Z) (symbols : option (gset pystr)) : Subscriber :=
  mkSub cid [] queue_size symbols 0 0 0 MODE_STREAM ∅ 0 [] [] Idle false.

Definition set_queue (s : Subscriber) q := mkSub (sid s) q (maxsize s) (symbols s) (dropped s)
  (sent s) (out_seq s) (mode s) (pending s) (conflated s) (token s) (written s) (sender s) (closed s).
Definition set_pending (s : Subscriber) p := mkSub (sid s) (queue s) (maxsize s) (symbols s) (dropped s)
  (sent s) (out_seq s) (mode s) p (conflated s) (token s) (written s) (sender s) (closed s).
Definition set_seq (s : Subscriber) n := mkSub (sid s) (queue s) (maxsize s) (symbols s) (dropped s)
  (sent s) n (mode s) (pending s) (conflated s) (token s) (written s) (sender s) (closed s).
Definition set_mode (s : Subscriber) m := mkSub (sid s) (queue s) (maxsize s) (symbols s) (dropped s)
  (sent s) (out_seq s) m (pending s) (conflated s) (token s) (written s) (sender s) (closed s).
Definition set_filter (s : Subscriber) tok f := mkSub (sid s) (queue s) (maxsize s) f (dropped s)
  (sent s) (out_seq s) (mode s) (pending s) (conflated s) tok (written s) (sender s) (closed s).
Definition count_conflated (s : Subscriber) := mkSub (sid s) (queue s) (maxsize s) (symbols s) (dropped s)
  (sent s) (out_seq s) (mode s) (pending s) (conflated s + 1) (token s) (written s) (sender s) (closed s).
Definition write (s : Subscriber) b := mkSub (sid s) (queue s) (maxsize s) (symbols s) (dropped s)
  (sent s) (out_seq s) (mode s) (pending s) (conflated s) (token s) (written s ++ [b]) (sender s) (closed s).
Definition set_sender (s : Subscriber) t := mkSub (sid s) (queue s) (maxsize s) (symbols s) (dropped s)
  (sent s) (out_seq s) (mode s) (pending s) (conflated s) (token s) (written s) t (closed s).
Definition count_sent (s : Subscriber) := mkSub (sid s) (queue s) (maxsize s) (symbols s) (dropped s)
  (sent s + 1) (out_seq s) (mode s) (pending s) (conflated s) (token s) (written s) (sender s) (closed s).

Definition wants (s : Subscriber) (key : pystr) : bool :=
  match symbols s with None => true | Some X => bool_decide (key ∈ X) end.

(** [asyncio.Queue.full] and [put_nowait], QueueFull suppressed. *)
Definition full (s : Subscriber) : bool := (0 <? maxsize s) && (maxsize s <=? zlen (queue s)).
Definition put_nowait (s : Subscriber) (x : item) : Subscriber :=
  if full s then s else set_queue s (queue s ++ [x]).

(** [_drop_overflowed]: [true] when the subscriber was cut off. *)
Definition drop_overflowed (s : Subscriber) : Subscriber * bool :=
  let d := dropped s + 1 in
  let gone := DROP_LIMIT <? d in
  (mkSub (sid s) (tail (queue s)) (maxsize s) (symbols s) d (sent s) (out_seq s) (mode s)
     (pending s) (conflated s) (token s) (written s) (sender s) (closed s || gone), gone).

(** ** Fan-out *)

(** What happened to one subscriber: it stays, it was cut off, or [encode] raised. *)
Inductive fate := Stays | Gone | Raised (e : ProtocolError).

(** The guard both modes share: make room, then put. *)
Definition make_room_put (s : Subscriber) (store : Subscriber -> Subscriber) (x : item)
    : Subscriber * fate :=
  if full s then
    let '(s, gone) := drop_overflowed s in
    if gone then (s, Gone) else (put_nowait (store s) x, Stays)
  else (put_nowait (store s) x, Stays).

Definition fan_one (s : Subscriber) (frame : Frame) (key : option pystr) : Subscriber * fate :=
  if match key with Some k => negb (wants s k) | None => false end then (s, Stays)
  else match mode s, key with
  | MODE_CONFLATE, Some k =>
      let v := (msg_type frame, payload frame, flags frame) in
      match pending s !! k with
      | Some _ => (count_conflated (set_pending s (<[k := v]> (pending s))), Stays)
      | None => make_room_put s (fun s => set_pending s (<[k := v]> (pending s))) (Key k)
      end
  | _, _ =>
      match encode (msg_type frame) (out_seq s) (payload frame) (flags frame) with
      | Err e => (s, Raised e)
      | Ok raw => make_room_put (set_seq s (out_seq s + 1)) (fun s => s) (Raw raw)
      end
  end.

(** The loop of [_fanout]; a raised error leaves the rest of the subscribers alone. *)
Fixpoint fanout (subs : list Subscriber) (frame : Frame) (key : option pystr)
    : list Subscriber * option ProtocolError :=
  match subs with
  | [] => ([], None)
  | s :: subs =>
      match fan_one s frame key with
      | (s, Stays) => let '(subs, e) := fanout subs frame key in (s :: subs, e)
      | (_, Gone) => fanout subs frame key
      | (s, Raised e) => (s :: subs, Some e)
      end
  end.

(** ** The send loop *)

(** From [queue.get()] to the [await] on [drain].  A key whose value is gone is
    skipped; an exception ends the task. *)
Definition send_take (s : Subscriber) : Subscriber :=
  match sender s, queue s with
  | Idle, Raw data :: q => set_sender (write (set_queue s q) data) Draining
  | Idle, Key k :: q =>
      let s := set_queue s q in
      match pending s !! k with
      | None => s
      | Some (t, p, fl) =>
          let s := set_pending s (delete k (pending s)) in
          match encode t (out_seq s) p fl with
          | Err _ => set_sender s Dead
          | Ok data => set_sender (write (set_seq s (out_seq s + 1)) data) Draining
          end
      end
  | _, _ => s
  end.

(** [drain] returns. *)
Definition send_done (s : Subscriber) : Subscriber :=
  match sender s with Draining => count_sent (set_sender s Idle) | _ => s end.

(** ** Frame keys, snapshot, subscription *)

Definition key_of (frame : Frame) : option pystr :=
  if (msg_type frame =? Models.Models.MSG_TRADE)
     && (Models.Models.TRADE_SIZE <=? length (payload frame))%nat then
    match Models.Models.unpack (payload frame) with
    | Ok t => Some (Models.Models.venue t ++ lit ":" ++ Models.Models.symbol t)
    | Err _ => None
    end
  else if (msg_type frame =? Models.Models.MSG_BOOK)
     && (Models.Models.BOOK_SIZE <=? length (payload frame))%nat then
    match Models.Models.book_unpack (payload frame) with
    | Ok b => Some (Models.Models.bk_venue b ++ lit ":" ++ Models.Models.bk_symbol b)
    | Err _ => None
    end
  else None.

(** A subscription request after [json.loads]: not JSON, JSON that is no object
    (the attribute error ends the connection), or its three fields. *)
Inductive Request :=
| NotJson
| NotObject
| Req (r_token : pystr) (r_symbols : option (list pystr)) (r_mode : option pystr).

(** [str.lower] as far as a comparison with ["stream"] and ["conflate"] can tell. *)
Definition lower1 (c : Z) : Z := if (65 <=? c) && (c <=? 90) then c + 32 else c.

Definition requested_mode (s : Subscriber) (m : option pystr) : option Mode :=
  match m with
  | None => Some (mode s)
  | Some m =>
      if bool_decide ((lower1 <$> m) = lit "stream") then Some MODE_STREAM
      else if bool_decide ((lower1 <$> m) = lit "conflate") then Some MODE_CONFLATE
      else None
  end.

Section gateway.
(** [json.dumps] of the refusal and of the end-of-snapshot message. *)
Variable dumps_ack : reason -> list pystr -> option (gset pystr) -> bytes.
Variable dumps_meta : Z -> Z -> bytes.

Record TCPGateway := mkGateway
  { client_queue_size : Z; subs : list Subscriber; next_id : Z; ent : Entitlements;
    entitlement_denied : Z; last : list (pystr * bytes); last_type : gmap pystr Z;
    frames_in : Z; upstream_ok : bool }.

Definition new_gateway (size : Z) (e : Entitlements) : TCPGateway :=
  mkGateway size [] 0 e 0 [] ∅ 0 false.

Definition set_subs (g : TCPGateway) l := mkGateway (client_queue_size g) l (next_id g) (ent g)
  (entitlement_denied g) (last g) (last_type g) (frames_in g) (upstream_ok g).

(** A dict keeps the position of a key that is assigned again. *)
Fixpoint dict_set {A} (k : pystr) (v : A) (d : list (pystr * A)) : list (pystr * A) :=
  match d with
  | [] => [(k, v)]
  | (k', v') :: d => if bool_decide (k' = k) then (k, v) :: d else (k', v') :: dict_set k v d
  end.

(** One turn of [_consume_one]. *)
Definition consume_one (g : TCPGateway) (frame : Frame) : TCPGateway * option ProtocolError :=
  let key := key_of frame in
  let '(l, lt) :=
    match key with
    | Some ((_ :: _) as k) => (dict_set k (payload frame) (last g), <[k := msg_type frame]> (last_type g))
    | _ => (last g, last_type g)
    end in
  let '(ss, e) := fanout (subs g) frame key in
  (mkGateway (client_queue_size g) ss (next_id g) (ent g) (entitlement_denied g) l lt
     (frames_in g + 1) true, e).

Fixpoint snapshot_frames (lt : gmap pystr Z) (l : list (pystr * bytes)) (s : Subscriber) (n : Z)
    : result ProtocolError (Subscriber * Z) :=
  match l with
  | [] => Ok (s, n)
  | (k, p) :: l =>
      if wants s k then
        let! raw := encode (default Models.Models.MSG_TRADE (lt !! k)) 0 p FLAG_SNAPSHOT in
        snapshot_frames lt l (write s raw) (n + 1)
      else snapshot_frames lt l s n
  end.

Definition send_snapshot (g : TCPGateway) (s : Subscriber) : result ProtocolError Subscriber :=
  let! p := snapshot_frames (last_type g) (last g) s 0 in
  let '(s, n) := p in
  let! raw := encode Models.Models.MSG_SNAPSHOT 0 (dumps_meta n (out_seq s)) FLAG_SNAPSHOT in
  Ok (write s raw).

(** [_handle_client] up to the first [await]; an error in the snapshot ends the
    connection. *)
Definition connect (g : TCPGateway) : TCPGateway :=
  let s := new_sub (next_id g) (client_queue_size g) (if enabled (ent g) then Some ∅ else None) in
  mkGateway (client_queue_size g)
    match send_snapshot g s with Ok s => subs g ++ [s] | Err _ => subs g end
    (next_id g + 1) (ent g) (entitlement_denied g) (last g) (last_type g) (frames_in g) (upstream_ok g).

Definition switch_mode (s : Subscriber) (m : Mode) : Subscriber :=
  if decide (m = mode s) then s else set_mode (set_pending (set_queue s []) ∅) m.

(** [_apply_subscribe]: the subscriber, and whether the request was refused. *)
Definition apply_subscribe (e : Entitlements) (s : Subscriber) (tok : pystr)
    (syms : option (list pystr)) (m : option pystr) : Subscriber * bool :=
  let asked := match syms with Some (x :: l) => Some (x :: l) | _ => None end in
  let '(granted, denied, why) := resolve e tok asked in
  let s := set_filter s tok granted in
  let '(s, refused) :=
    if decide (why = Granted) then (s, false)
    else (match encode Models.Models.MSG_ACK 0 (dumps_ack why denied granted) 0 with
          | Ok raw => write s raw | Err _ => s end, true) in
  (match requested_mode s m with Some m => switch_mode s m | None => s end, refused).

Definition on_sub (cid : Z) (f : Subscriber -> Subscriber) (g : TCPGateway) : TCPGateway :=
  set_subs g ((fun s => if sid s =? cid then f s else s) <$> subs g).

Definition leave (g : TCPGateway) (cid : Z) : TCPGateway :=
  set_subs g (filter (fun s => sid s <> cid) (subs g)).

Definition subscribe (g : TCPGateway) (cid : Z) (r : Request) : TCPGateway :=
  match r with
  | NotJson => g
  | NotObject => leave g cid
  | Req tok syms m =>
      let refused := existsb (fun s => (sid s =? cid) && (apply_subscribe (ent g) s tok syms m).2) (subs g) in
      let g := on_sub cid (fun s => (apply_subscribe (ent g) s tok syms m).1) g in
      mkGateway (client_queue_size g) (subs g) (next_id g) (ent g)
        (entitlement_denied g + if refused then 1 else 0) (last g) (last_type g) (frames_in g) (upstream_ok g)
  end.

Inductive event :=
| Connect | Bus (f : Frame) | Subscribe (cid : Z) (r : Request)
| Take (cid : Z) | Done (cid : Z) | Leave (cid : Z).

Definition gw_step (g : TCPGateway) (ev : event) : TCPGateway :=
  match ev with
  | Connect => connect g
  | Bus f => (consume_one g f).1
  | Subscribe cid r => subscribe g cid r
  | Take cid => on_sub cid send_take g
  | Done cid => on_sub cid send_done g
  | Leave cid => leave g cid
  end.

Definition gw_run (g : TCPGateway) (evs : list event) : TCPGateway := foldl gw_step g evs.

End gateway.

(** ** One subscriber under fan-out and its send loop *)

Inductive sub_event := Publish (f : Frame) (key : option pystr) | TakeNext | DrainDone.

Definition sub_step (st : Subscriber * fate) (ev : sub_event) : Subscriber * fate :=
  match st.2 with
  | Stays =>
      match ev with
      | Publish f key => fan_one st.1 f key
      | TakeNext => (send_take st.1, Stays)
      | DrainDone => (send_done st.1, Stays)
      end
  | _ => st
  end.

Definition sub_run (s : Subscriber) (evs : list sub_event) : Subscriber * fate :=
  foldl sub_step (s, Stays) evs.

(** The frames of [evs] that pass the filter [f]. *)
Definition wanted (f : option (gset pystr)) (evs : list sub_event) : list Frame :=
  omap (fun ev => match ev with
                  | Publish fr None => Some fr
                  | Publish fr (Some k) => if passes f k then Some fr else None
                  | _ => None
                  end) evs.

(** [frame] renumbered. *)
Definition renumber (i : Z) (f : Frame) : Frame := mkFrame (msg_type f) i (flags f) (payload f).
Definition numbered (fs : list Frame) : list bytes :=
  imap (fun i f => wire (renumber (Z.of_nat i) f)) fs.

Definition publishable (ev : sub_event) : Prop :=
  match ev with Publish f _ => frame_ok (renumber 0 f) | _ => True end.
#[export] Instance publishable_dec ev : Decision (publishable ev).
Proof. destruct ev; simpl; apply _. Defined.

Lemma encode_renumber f i :
  frame_ok (renumber 0 f) -> 0 <= i < 2 ^ 64 ->
  encode (msg_type f) i (payload f) (flags f) = Ok (wire (renumber i f)).
Proof.
  intros (Ht & Hf & _ & Hl) Hi. apply (encode_frame_ok (renumber i f)). split; [|done].
  unfold frame_ok. cbn [renumber msg_type seq flags payload] in *.
  change (256 ^ 8) with (2 ^ 64). split_and!; try done; lia.
Qed.

Lemma numbered_snoc fs f :
  numbered (fs ++ [f]) = numbered fs ++ [wire (renumber (zlen fs) f)].
Proof. unfold numbered. rewrite imap_app. simpl. by rewrite Nat.add_0_r. Qed.

Lemma numbered_length fs : length (numbered fs) = length fs.
Proof. apply length_imap. Qed.

Lemma sub_run_snoc s evs ev : sub_run s (evs ++ [ev]) = sub_step (sub_run s evs) ev.
Proof. unfold sub_run. by rewrite foldl_app. Qed.

Lemma wanted_snoc f evs ev : wanted f (evs ++ [ev]) = wanted f evs ++ wanted f [ev].
Proof. unfold wanted. apply omap_app. Qed.

Lemma wanted_length f evs : (length (wanted f evs) <= length evs)%nat.
Proof.
  unfold wanted. induction evs as [|[fr [k|]| |] evs IH]; csimpl; [lia|destruct (passes f k); csimpl|..]; lia.
Qed.

Lemma wants_passes s k : wants s k = passes (symbols s) k.
Proof. done. Qed.

(** The stream a subscriber in stream mode is owed is [pre ++ q]: [q] waits in the
    queue, and of [pre] all but [dropped] frames were written, in order. *)
Record stream_inv (f : option (gset pystr)) (size : Z) (fs : list Frame) (s : Subscriber) : Prop :=
  mkStreamInv
  { si_mode : mode s = MODE_STREAM; si_filter : symbols s = f; si_size : maxsize s = size;
    si_dropped : 0 <= dropped s <= DROP_LIMIT; si_seq : out_seq s = zlen fs;
    si_bound : 0 < size -> zlen (queue s) <= size;
    si_split : exists pre q, numbered fs = pre ++ q /\ queue s = Raw <$> q /\
      written s `sublist_of` pre /\ zlen pre = zlen (written s) + dropped s }.

Lemma full_false_put s x : full s = false -> put_nowait s x = set_queue s (queue s ++ [x]).
Proof. unfold put_nowait. by intros ->. Qed.

Lemma put_dropped s x : dropped (put_nowait s x) = dropped s.
Proof. unfold put_nowait. by destruct (full s). Qed.

Lemma full_tail s : full s = true -> queue s <> [] /\ zlen (tail (queue s)) < zlen (queue s).
Proof. unfold full. intros. reflect_cmp. destruct (queue s); simpl in *; [lia|split; [done|lia]]. Qed.

Lemma stream_inv_put f size fs s fr :
  stream_inv f size fs s -> frame_ok (renumber 0 fr) -> zlen fs < 2 ^ 64 ->
  let r := make_room_put (set_seq s (out_seq s + 1)) (fun s => s) (Raw (wire (renumber (out_seq s) fr))) in
  (r.2 = Stays /\ stream_inv f size (fs ++ [fr]) r.1) \/ (r.2 = Gone /\ dropped r.1 = DROP_LIMIT + 1).
Proof.
  intros [Hm Hf Hs Hd Hq Hb (pre & q & Hn & Hqu & Hw & Hl)] Hfr Hlen. cbn zeta. rewrite Hq.
  assert (zlen (fs ++ [fr]) = zlen fs + 1) as Hlen1 by (rewrite length_app; simpl; lia).
  unfold make_room_put. destruct (full (set_seq s (zlen fs + 1))) eqn:Hfull.
  - unfold drop_overflowed. cbn [set_seq sid queue maxsize symbols dropped sent out_seq mode pending
      conflated token written sender closed].
    destruct (Z.ltb_spec DROP_LIMIT (dropped s + 1)); [right; split; [done|simpl; lia]|left].
    pose proof (full_tail _ Hfull) as [Hne Hlt]. simpl in Hne, Hlt.
    destruct q as [|x q]; [by rewrite Hqu in Hne|].
    split; [done|]. rewrite full_false_put.
    2:{ unfold full in *. simpl in *. reflect_cmp. apply andb_false_iff. right. apply Z.leb_gt.
        specialize (Hb ltac:(lia)). lia. }
    split; simpl; try done; try lia.
    + intros. rewrite length_app. simpl. specialize (Hb ltac:(done)). lia.
    + exists (pre ++ [x]), (q ++ [wire (renumber (zlen fs) fr)]).
      rewrite numbered_snoc, Hn, Hqu, <- !app_assoc. simpl. rewrite fmap_app, length_app. simpl.
      split_and!; [done|done| |lia]. by apply sublist_inserts_r.
  - left. split; [done|]. rewrite full_false_put by done. split; simpl; try done; try lia.
    + intros Hpos. unfold full in Hfull. simpl in Hfull. apply andb_false_iff in Hfull as [Hx|Hx];
        reflect_cmp; rewrite length_app; simpl; lia.
    + exists pre, (q ++ [wire (renumber (zlen fs) fr)]).
      rewrite numbered_snoc, Hn, Hqu, fmap_app, <- !app_assoc. done.
Qed.

Lemma stream_inv_take f size fs s : stream_inv f size fs s -> stream_inv f size fs (send_take s).
Proof.
  intros [Hm Hf Hs Hd Hq Hb (pre & q & Hn & Hqu & Hw & Hl)]. unfold send_take. rewrite Hqu.
  destruct (sender s), q as [|x q]; simpl; try (split; eauto 10; fail).
  split; simpl; try done.
  - intros Hp. specialize (Hb Hp). rewrite Hqu in Hb. simpl in Hb. lia.
  - exists (pre ++ [x]), q. rewrite Hn, <- app_assoc, !length_app. simpl. split_and!; try done; [|lia].
    by apply sublist_app.
Qed.

Lemma stream_inv_done f size fs s : stream_inv f size fs s -> stream_inv f size fs (send_done s).
Proof. intros H. unfold send_done. destruct (sender s); [done| |done]. by destruct H; split. Qed.

Lemma sub_run_stream cid size f evs :
  Forall publishable evs -> zlen evs < 2 ^ 64 ->
  let r := sub_run (new_sub cid size f) evs in
  (r.2 = Stays /\ stream_inv f size (wanted f evs) r.1) \/ (r.2 = Gone /\ dropped r.1 = DROP_LIMIT + 1).
Proof.
  induction evs as [|ev evs IH] using rev_ind; intros Hp Hl; cbn zeta.
  - left. split; [done|]. split; simpl; try done; try lia. exists [], []. done.
  - apply Forall_app in Hp as [Hp [Hev _]%Forall_cons]. rewrite length_app in Hl. simpl in Hl.
    specialize (IH Hp ltac:(lia)). cbn zeta in IH. rewrite sub_run_snoc, wanted_snoc.
    destruct (sub_run _ evs) as [s ft]. simpl in IH.
    destruct IH as [[-> Hi]|[-> Hd]]; [|by right]. unfold sub_step. simpl.
    destruct ev as [fr key| |].
    2:{ left. split; [done|]. rewrite app_nil_r. by apply stream_inv_take. }
    2:{ left. split; [done|]. rewrite app_nil_r. by apply stream_inv_done. }
    pose proof (si_mode _ _ _ _ Hi) as Hm. pose proof (si_seq _ _ _ _ Hi) as Hseq.
    pose proof (wanted_length f evs).
    unfold fan_one. destruct key as [k|].
    + rewrite wants_passes, (si_filter _ _ _ _ Hi). destruct (passes f k); simpl.
      * rewrite Hm, encode_renumber by (done || lia). apply stream_inv_put; [done..|lia].
      * left. by rewrite app_nil_r.
    + rewrite Hm, encode_renumber by (done || lia). apply stream_inv_put; [done..|lia].
Qed.

(** ** Conflated delivery *)

(** What the send loop is about to take from [pending]. *)
Definition taken (s : Subscriber) : list (pystr * cell) :=
  match sender s, queue s with
  | Idle, Key k :: _ => match pending s !! k with Some v => [(k, v)] | None => [] end
  | _, _ => []
  end.

(** The run with the log of the values taken. *)
Definition log_step (st : (Subscriber * fate) * list (pystr * cell)) (ev : sub_event) :=
  (sub_step st.1 ev,
   st.2 ++ match st.1.2, ev with Stays, TakeNext => taken st.1.1 | _, _ => [] end).
Definition log_run (s : Subscriber) (evs : list sub_event) := foldl log_step ((s, Stays), []) evs.

Definition frame_cell (f : Frame) : cell := (msg_type f, payload f, flags f).

Definition published (f : option (gset pystr)) (evs : list sub_event) : list (pystr * cell) :=
  omap (fun ev => match ev with
                  | Publish fr (Some k) => if passes f k then Some (k, frame_cell fr) else None
                  | _ => None
                  end) evs.

(** The last value with key [k]. *)
Definition latest (k : pystr) (l : list (pystr * cell)) : option cell :=
  foldl (fun acc x => if decide (x.1 = k) then Some x.2 else acc) None l.

Definition cell_wire (i : nat) (x : pystr * cell) : bytes :=
  wire (mkFrame x.2.1.1 (Z.of_nat i) x.2.2 x.2.1.2).

Definition cell_ok (v : cell) : Prop := frame_ok (mkFrame v.1.1 0 v.2 v.1.2).

(** A symbol's update, or a step of the send loop. *)
Definition keyed (ev : sub_event) : Prop :=
  match ev with Publish _ None => False | _ => True end.
#[export] Instance keyed_dec ev : Decision (keyed ev).
Proof. destruct ev as [? []| |]; simpl; apply _. Defined.

Lemma latest_snoc k l x :
  latest k (l ++ [x]) = if decide (x.1 = k) then Some x.2 else latest k l.
Proof. unfold latest. by rewrite foldl_app. Qed.

Lemma log_run_snoc s evs ev : log_run s (evs ++ [ev]) = log_step (log_run s evs) ev.
Proof. unfold log_run. by rewrite foldl_app. Qed.

Lemma log_run_run s evs : (log_run s evs).1 = sub_run s evs.
Proof.
  induction evs as [|ev evs IH] using rev_ind; [done|]. by rewrite log_run_snoc, sub_run_snoc, <- IH.
Qed.

Lemma published_snoc f evs ev : published f (evs ++ [ev]) = published f evs ++ published f [ev].
Proof. unfold published. apply omap_app. Qed.

Lemma latest_ok k l v :
  Forall (fun x : pystr * cell => cell_ok x.2) l -> latest k l = Some v -> cell_ok v.
Proof.
  induction l as [|x l IH] using rev_ind; [done|]. rewrite latest_snoc.
  intros [Hl [Hx _]%Forall_cons]%Forall_app. case_decide; [by intros [= <-]|by apply IH].
Qed.

Record conflate_inv (f : option (gset pystr)) (P L : list (pystr * cell)) (s : Subscriber) : Prop :=
  mkConflateInv
  { ci_mode : mode s = MODE_CONFLATE; ci_filter : symbols s = f; ci_dropped : dropped s = 0;
    ci_sender : sender s <> Dead;
    ci_ok : Forall (fun x => cell_ok x.2) P; ci_seq : out_seq s = zlen L;
    ci_written : written s = imap cell_wire L;
    ci_queue : exists qs, queue s = Key <$> qs /\ NoDup qs /\ forall k, k ∈ qs <-> is_Some (pending s !! k);
    ci_latest : forall k, match pending s !! k with Some v => Some v | None => latest k L end = latest k P }.

Lemma conflate_inv_publish f P L s fr k :
  conflate_inv f P L s -> frame_ok (renumber 0 fr) -> passes f k = true ->
  let r := fan_one s fr (Some k) in
  (r.2 = Stays /\ conflate_inv f (P ++ [(k, frame_cell fr)]) L r.1) \/ 0 < dropped r.1.
Proof.
  intros [Hm Hf Hd Hs Hok Hsq Hw (qs & Hq & Hnd & Hdom) Hl] Hfr Hk. cbn zeta. unfold fan_one.
  rewrite wants_passes, Hf, Hk, Hm. cbn [negb].
  assert (Forall (fun x : pystr * cell => cell_ok x.2) (P ++ [(k, frame_cell fr)])) as Hok'.
  { apply Forall_app. split; [done|]. apply Forall_cons. split; [exact Hfr|constructor]. }
  assert (forall k', match <[k := frame_cell fr]> (pending s) !! k' with
                     | Some v => Some v | None => latest k' L end
                     = latest k' (P ++ [(k, frame_cell fr)])) as Hl'.
  { intros k'. rewrite latest_snoc. cbn [fst snd]. case_decide as E.
    - subst. by rewrite lookup_insert_eq.
    - rewrite lookup_insert_ne by done. apply Hl. }
  destruct (pending s !! k) as [v|] eqn:Hp.
  - left. split; [done|]. split; try done. exists qs. split_and!; [done..|]. intros k'.
    unfold count_conflated, set_pending. cbn [pending fst]. destruct (decide (k' = k)) as [->|].
    + rewrite lookup_insert_eq, Hdom, Hp. split; eauto.
    + by rewrite lookup_insert_ne.
  - unfold make_room_put. destruct (full s) eqn:Hfull.
    { right. unfold drop_overflowed. rewrite Hd. change (DROP_LIMIT <? 0 + 1) with false. cbn iota.
      cbn [fst]. rewrite put_dropped. simpl. lia. }
    left. split; [done|]. rewrite full_false_put by done. split; try done.
    exists (qs ++ [k]). cbn [queue set_queue set_pending pending fst]. rewrite Hq, fmap_app. split_and!; [done| |].
    + apply NoDup_app. split_and!; [done| |apply NoDup_singleton].
      intros x Hx ->%list_elem_of_singleton. apply Hdom in Hx. rewrite Hp in Hx. by destruct Hx.
    + intros k'. rewrite elem_of_app, list_elem_of_singleton, Hdom. destruct (decide (k' = k)) as [->|].
      * rewrite lookup_insert_eq. split; eauto.
      * rewrite lookup_insert_ne by done. naive_solver.
Qed.

Lemma conflate_inv_take f P L s :
  conflate_inv f P L s -> zlen L < 2 ^ 64 -> conflate_inv f P (L ++ taken s) (send_take s).
Proof.
  intros [Hm Hf Hd Hs Hok Hsq Hw (qs & Hq & Hnd & Hdom) Hl] HL. unfold send_take, taken. rewrite Hq.
  destruct (sender s) eqn:Hsend; [destruct qs as [|k qs]|..]; cbn [fmap list_fmap];
    try (rewrite app_nil_r; split; eauto; congruence).
  apply NoDup_cons in Hnd as [Hk Hnd].
  assert (is_Some (pending s !! k)) as [v Hv] by (apply Hdom; by left).
  rewrite Hv. destruct v as [[t p] fl].
  cbn [set_queue set_pending pending out_seq]. rewrite Hv.
  assert (cell_ok (t, p, fl)) as Hv_ok.
  { apply (latest_ok k P); [done|]. by rewrite <- Hl, Hv. }
  pose proof (encode_renumber (mkFrame t 0 fl p) (out_seq s) Hv_ok ltac:(lia)) as Henc. simpl in Henc.
  rewrite Henc. split; try done.
  - simpl. rewrite length_app. simpl. lia.
  - simpl. rewrite imap_app, Hw. simpl. rewrite Nat.add_0_r. unfold cell_wire. simpl. by rewrite Hsq.
  - exists qs. simpl. split_and!; [done..|]. intros k'. destruct (decide (k' = k)) as [->|].
    + rewrite lookup_delete_eq. split; [done|by intros []].
    + rewrite lookup_delete_ne by done. rewrite <- Hdom, elem_of_cons. naive_solver.
  - intros k'. simpl. rewrite latest_snoc. cbn [fst snd]. rewrite <- Hl. case_decide as E.
    + subst. by rewrite lookup_delete_eq, Hv.
    + by rewrite lookup_delete_ne.
Qed.

Lemma conflate_inv_done f P L s : conflate_inv f P L s -> conflate_inv f P L (send_done s).
Proof. intros H. unfold send_done. destruct (sender s); [done| |done]. by destruct H; split. Qed.

Lemma fan_one_dropped s fr key : 0 <= dropped s -> dropped s <= dropped (fan_one s fr key).1.
Proof.
  intros H. unfold fan_one, make_room_put, put_nowait, drop_overflowed.
  repeat (case_match; simplify_eq/=); lia.
Qed.

Lemma send_take_dropped s : dropped (send_take s) = dropped s.
Proof. unfold send_take. repeat (case_match; simplify_eq/=; try done). Qed.

Lemma send_done_dropped s : dropped (send_done s) = dropped s.
Proof. unfold send_done. by case_match. Qed.

Lemma log_run_conflate cid size f evs :
  Forall publishable evs -> Forall keyed evs -> zlen evs < 2 ^ 64 ->
  let r := log_run (set_mode (new_sub cid size f) MODE_CONFLATE) evs in
  (r.1.2 = Stays /\ conflate_inv f (published f evs) r.2 r.1.1 /\ zlen r.2 <= zlen evs) \/ 0 < dropped r.1.1.
Proof.
  induction evs as [|ev evs IH] using rev_ind; intros Hp Hk Hl; cbn zeta.
  { left. split_and!; try done. split; try done.
    exists []. split_and!; [done|constructor|]. intros k. cbn. rewrite lookup_empty.
    split; [by intros H; inversion H|by intros []]. }
  apply Forall_app in Hp as [Hp [Hev _]%Forall_cons], Hk as [Hk [Hkey _]%Forall_cons].
  rewrite length_app in Hl. simpl in Hl. specialize (IH Hp Hk ltac:(lia)). cbn zeta in IH.
  rewrite log_run_snoc, published_snoc, length_app.
  destruct (log_run _ evs) as [[s ft] L]. cbn [fst snd] in IH.
  destruct IH as [(-> & Hi & HL)|Hd].
  - unfold log_step, sub_step. cbn [fst snd]. destruct ev as [fr [k|]| |]; [|done|..].
    + rewrite app_nil_r. destruct (passes f k) eqn:Hpk.
      * unfold published at 2. cbn [omap list_omap]. csimpl. rewrite Hpk.
        destruct (conflate_inv_publish _ _ _ _ fr k Hi Hev Hpk) as [[? ?]|?]; [left; split_and!; try done; lia|by right].
      * left. unfold fan_one. rewrite wants_passes, (ci_filter _ _ _ _ Hi), Hpk. cbn [negb].
        unfold published at 2. csimpl. rewrite Hpk, app_nil_r. split_and!; try done; simpl; lia.
    + left. change (published f [TakeNext]) with (@nil (pystr * cell)). rewrite app_nil_r.
      split_and!; [done|by apply conflate_inv_take; [|lia]|].
      rewrite length_app. assert (length (taken s) <= 1)%nat by (unfold taken; repeat case_match; simpl; lia).
      simpl. lia.
    + left. change (published f [DrainDone]) with (@nil (pystr * cell)). rewrite !app_nil_r.
      split_and!; [done| |simpl; lia]. by apply conflate_inv_done.
  - right. unfold log_step, sub_step. cbn [fst snd]. destruct ft; [|done..].
    destruct ev as [fr key| |]; cbn [fst].
    + pose proof (fan_one_dropped s fr key). lia.
    + by rewrite send_take_dropped.
    + by rewrite send_done_dropped.
Qed.

(** ** A symbol cut out of the queue *)

(** The key is pending but no longer queued. *)
Definition orphaned (a : pystr) (s : Subscriber) : Prop :=
  mode s = MODE_CONFLATE /\ (Key a ∉ queue s) /\ is_Some (pending s !! a).

Lemma put_nowait_fields s x :
  let s' := put_nowait s x in
  mode s' = mode s /\ pending s' = pending s /\
  forall a, x <> Key a -> (Key a ∉ queue s) -> (Key a ∉ queue s').
Proof.
  unfold put_nowait. destruct (full s); [done|]. split_and!; try done. intros a Hx Ha. simpl.
  rewrite elem_of_app, list_elem_of_singleton. intros [?|?]; congruence.
Qed.

Lemma tail_notin {A} (x : A) l : x ∉ l -> x ∉ tail l.
Proof. destruct l; [done|]. simpl. rewrite elem_of_cons. tauto. Qed.

Lemma make_room_put_orphaned a s store x :
  orphaned a (store s) -> (forall s', queue s' = tail (queue s) -> mode s' = mode s -> pending s' = pending s ->
                             orphaned a (store s') ) ->
  x <> Key a -> (make_room_put s store x).2 = Stays -> orphaned a (make_room_put s store x).1.
Proof.
  intros Ho Hstep Hx. unfold make_room_put.
  assert (forall s', orphaned a s' -> orphaned a (put_nowait s' x)) as Hput.
  { intros s' (Hm & Hq & Hp). destruct (put_nowait_fields s' x) as (Hm' & Hp' & Hq').
    unfold orphaned. rewrite Hm', Hp'. auto. }
  destruct (full s); [|by intros; apply Hput].
  unfold drop_overflowed. destruct (_ <? _); [done|]. intros _. apply Hput, Hstep; done.
Qed.

Lemma orphaned_step a s ev :
  orphaned a s -> (sub_step (s, Stays) ev).2 = Stays -> orphaned a (sub_step (s, Stays) ev).1.
Proof.
  intros Ho. pose proof Ho as (Hm & Hq & Hp). unfold sub_step. cbn [fst snd]. destruct ev as [fr key| |].
  - unfold fan_one. destruct (match key with Some k => negb (wants s k) | None => false end); [done|]. rewrite Hm.
    destruct key as [k|].
    + destruct (pending s !! k) as [v|] eqn:Hk.
      * intros _. split; [|split]; try done. simpl. apply lookup_insert_is_Some'. by right.
      * assert (k <> a) as Hne by (intros ->; rewrite Hk in Hp; by destruct Hp).
        apply make_room_put_orphaned; [split; [|split]; try done|intros s' Eq Em Ep; split; [|split]|congruence].
        -- simpl. apply lookup_insert_is_Some'. by right.
        -- simpl. by rewrite Em.
        -- simpl. rewrite Eq. by apply tail_notin.
        -- simpl. rewrite Ep. apply lookup_insert_is_Some'. by right.
    + destruct (encode _ _ _ _); [|done]. apply make_room_put_orphaned; [done| |done].
      intros s' Eq Em Ep. split; [|split]; [by rewrite Em|rewrite Eq; by apply tail_notin|by rewrite Ep].
  - intros _. unfold send_take. destruct (sender s); [|done..].
    destruct (queue s) as [|[k|d] q] eqn:E; [exact Ho|..].
    + apply not_elem_of_cons in Hq as [Hne Hq]. cbn [set_queue pending].
      destruct (pending s !! k) as [[[t p] fl]|]; [|done].
      assert (is_Some (delete k (pending s) !! a)) by (rewrite lookup_delete_ne by congruence; done).
      destruct (encode _ _ _ _); done.
    + apply not_elem_of_cons in Hq as [_ Hq]. done.
  - intros _. unfold send_done. by destruct (sender s).
Qed.

Lemma orphaned_taken a s : orphaned a s -> Forall (fun x : pystr * cell => x.1 <> a) (taken s).
Proof.
  intros (_ & Hq & _). unfold taken. destruct (sender s); [|constructor..].
  destruct (queue s) as [|[k|d] q]; [constructor| |constructor].
  apply not_elem_of_cons in Hq as [Hne _]. destruct (pending s !! k); [|constructor].
  constructor; [simpl; congruence|constructor].
Qed.

Lemma orphaned_forever a s evs :
  orphaned a s ->
  Forall (fun x => x.1 <> a) (log_run s evs).2 /\
  ((log_run s evs).1.2 = Stays -> orphaned a (log_run s evs).1.1).
Proof.
  intros Ho. induction evs as [|ev evs [IH1 IH2]] using rev_ind; [by split; [constructor|]|].
  rewrite log_run_snoc. destruct (log_run s evs) as [[s1 ft] L]. unfold log_step. cbn [fst snd] in *.
  destruct ft; [|rewrite app_nil_r; split; [done|by unfold sub_step]..].
  specialize (IH2 eq_refl). split; [|by apply orphaned_step].
  apply Forall_app. split; [done|]. destruct ev; [constructor| |constructor]. by apply orphaned_taken.
Qed.

(** ** Filters and rights *)

Definition rights_ok (e : Entitlements) (s : Subscriber) : Prop :=
  forall k, wants s k = true -> entitled e (token s) k.

Lemma rights_keep e s s' :
  symbols s' = symbols s -> token s' = token s -> rights_ok e s -> rights_ok e s'.
Proof. unfold rights_ok, wants. intros -> ->. done. Qed.

Lemma fan_one_rights s fr key : symbols (fan_one s fr key).1 = symbols s /\ token (fan_one s fr key).1 = token s.
Proof.
  unfold fan_one, make_room_put, put_nowait, drop_overflowed. repeat (case_match; simplify_eq/=; try done).
Qed.

Lemma fanout_rights e l fr key : Forall (rights_ok e) l -> Forall (rights_ok e) (fanout l fr key).1.
Proof.
  induction 1 as [|s l Hs Hl IH]; [constructor|]. simpl.
  destruct (fan_one_rights s fr key) as [Hf Ht]. destruct (fan_one s fr key) as [s' [| |er]]; simpl in *.
  - destruct (fanout l fr key). simpl in *. constructor; [by eapply rights_keep|done].
  - done.
  - constructor; [by eapply rights_keep|done].
Qed.

Lemma on_sub_rights e cid f l :
  (forall s, rights_ok e s -> rights_ok e (f s)) -> Forall (rights_ok e) l ->
  Forall (rights_ok e) ((fun s => if sid s =? cid then f s else s) <$> l).
Proof.
  intros Hf Hl. apply Forall_fmap. eapply Forall_impl; [exact Hl|]. intros s Hs. simpl.
  case_match; auto.
Qed.

Lemma send_take_rights e s : rights_ok e s -> rights_ok e (send_take s).
Proof.
  apply rights_keep; unfold send_take; repeat (case_match; simplify_eq/=; try done).
Qed.

Lemma send_done_rights e s : rights_ok e s -> rights_ok e (send_done s).
Proof. apply rights_keep; unfold send_done; by destruct (sender s). Qed.

Section rights.
Variable dumps_ack : reason -> list pystr -> option (gset pystr) -> bytes.
Variable dumps_meta : Z -> Z -> bytes.

Lemma apply_subscribe_rights e s tok syms m :
  enabled e = true -> rights_ok e (apply_subscribe dumps_ack e s tok syms m).1.
Proof.
  intros He. unfold apply_subscribe. set (asked := match syms with Some (x :: l) => Some (x :: l) | _ => None end).
  destruct (resolve e tok asked) as [[granted denied] why] eqn:Hr.
  assert (forall s', symbols s' = granted -> token s' = tok -> rights_ok e s') as Hgen.
  { intros s' Hf Ht k. unfold wants. rewrite Hf, Ht. intros Hk.
    destruct (resolve_cases e tok asked k granted denied why Hr) as [Hen _].
    destruct (Hen He) as [Hpass _]. apply Hpass. by destruct granted. }
  assert (forall s' mo, rights_ok e s' -> rights_ok e (switch_mode s' mo)) as Hsw.
  { intros s' mo. apply rights_keep; unfold switch_mode; by case_decide. }
  destruct (decide (why = Granted)); [|destruct (encode _ _ _ _)];
    destruct (requested_mode _ m); simpl; try apply Hsw; by apply Hgen.
Qed.

Lemma snapshot_none lt l s n :
  symbols s = Some ∅ -> snapshot_frames lt l s n = Ok (s, n).
Proof.
  intros Hs. induction l as [|[k p] l IH]; [done|]. simpl. unfold wants. rewrite Hs.
  by rewrite bool_decide_eq_false_2 by apply not_elem_of_empty.
Qed.

Lemma connect_subs g :
  enabled (ent g) = true ->
  subs (connect dumps_meta g) = subs g \/
  exists raw, encode Models.Models.MSG_SNAPSHOT 0 (dumps_meta 0 0) FLAG_SNAPSHOT = Ok raw /\
    subs (connect dumps_meta g) =
      subs g ++ [write (new_sub (next_id g) (client_queue_size g) (Some ∅)) raw].
Proof.
  intros He. unfold connect. rewrite He. unfold send_snapshot. rewrite snapshot_none by done.
  cbn [rbind out_seq new_sub subs]. destruct (encode _ _ _ _) as [raw|err]; [right|by left].
  by exists raw.
Qed.

Lemma gw_step_rights g ev :
  enabled (ent g) = true -> Forall (rights_ok (ent g)) (subs g) ->
  ent (gw_step dumps_ack dumps_meta g ev) = ent g /\
  Forall (rights_ok (ent g)) (subs (gw_step dumps_ack dumps_meta g ev)).
Proof.
  intros He Hg. destruct ev as [|f|cid r|cid|cid|cid]; cbn [gw_step].
  - split; [done|]. destruct (connect_subs g He) as [->|(raw & _ & ->)]; [done|].
    apply Forall_app. split; [done|]. constructor; [|constructor]. intros k. unfold wants. cbn [symbols write new_sub].
    by rewrite bool_decide_eq_false_2 by apply not_elem_of_empty.
  - unfold consume_one. destruct (match key_of f with Some (_ :: _) => _ | _ => _ end) as [l lt].
    pose proof (fanout_rights (ent g) (subs g) f (key_of f) Hg) as Hfan.
    by destruct (fanout (subs g) f (key_of f)).
  - destruct r as [| |tok syms m]; simpl; [done| |].
    + split; [done|]. apply Forall_forall. intros s [_ Hs]%list_elem_of_filter. by eapply Forall_forall in Hg.
    + split; [done|]. apply on_sub_rights; [|done]. intros s _. by apply apply_subscribe_rights.
  - split; [done|]. by apply on_sub_rights; [apply send_take_rights|].
  - split; [done|]. by apply on_sub_rights; [apply send_done_rights|].
  - split; [done|]. apply Forall_forall. intros s [_ Hs]%list_elem_of_filter. by eapply Forall_forall in Hg.
Qed.

Lemma gw_run_rights size e evs :
  enabled e = true ->
  let g := gw_run dumps_ack dumps_meta (new_gateway size e) evs in
  ent g = e /\ Forall (rights_ok e) (subs g).
Proof.
  intros He. cbn zeta. induction evs as [|ev evs [IHe IH]] using rev_ind; [by split; [|constructor]|].
  unfold gw_run in *. rewrite foldl_app. simpl.
  set (g := foldl _ _ evs) in *. destruct (gw_step_rights g ev) as [-> Hs]; rewrite ?IHe in *; done.
Qed.

End rights.

Lemma fan_key s fr k :
  mode s = MODE_CONFLATE -> wants s k = true -> pending s !! k = None -> full s = false ->
  fan_one s fr (Some k) =
    (set_queue (set_pending s (<[k := frame_cell fr]> (pending s))) (queue s ++ [Key k]), Stays).
Proof.
  intros Hm Hw Hp Hf. unfold fan_one. rewrite Hw, Hm, Hp. cbn [negb]. unfold make_room_put.
  by rewrite Hf, full_false_put.
Qed.

Lemma fan_raw s fr :
  frame_ok (renumber 0 fr) -> 0 <= out_seq s < 2 ^ 64 -> full s = false ->
  fan_one s fr None =
    (set_queue (set_seq s (out_seq s + 1)) (queue s ++ [Raw (wire (renumber (out_seq s) fr))]), Stays).
Proof.
  intros Hfr Hs Hf. unfold fan_one. rewrite encode_renumber by done. unfold make_room_put.
  change (full (set_seq s (out_seq s + 1))) with (full s). rewrite Hf, full_false_put by done.
  by destruct (mode s).
Qed.

Lemma take_key s k q v :
  sender s = Idle -> queue s = Key k :: q -> pending s !! k = Some v -> cell_ok v -> 0 <= out_seq s < 2 ^ 64 ->
  send_take s = set_sender (write (set_seq (set_pending (set_queue s q) (delete k (pending s))) (out_seq s + 1))
                  (wire (mkFrame v.1.1 (out_seq s) v.2 v.1.2))) Draining.
Proof.
  intros Hs Hq Hp Hv Ho. unfold send_take. rewrite Hs, Hq. cbn [set_queue pending]. rewrite Hp.
  destruct v as [[t p] fl]. cbn [set_pending set_queue pending out_seq fst snd].
  pose proof (encode_renumber (mkFrame t 0 fl p) (out_seq s) Hv Ho) as Henc. simpl in Henc.
  rewrite Henc. done.
Qed.

(** ** Where a written frame comes from *)

(** What is sent beside market data: the answer to a refused request, and the
    end-of-snapshot message of an empty snapshot. *)
Definition control (dumps_ack : reason -> list pystr -> option (gset pystr) -> bytes)
    (dumps_meta : Z -> Z -> bytes) (b : bytes) : Prop :=
  (exists why denied granted, why <> Granted /\
     encode Models.Models.MSG_ACK 0 (dumps_ack why denied granted) 0 = Ok b) \/
  encode Models.Models.MSG_SNAPSHOT 0 (dumps_meta 0 0) FLAG_SNAPSHOT = Ok b.

(** [b] is the encoding, under some number, of a frame with [came]. *)
Definition carries (came : Frame -> Prop) (b : bytes) : Prop :=
  exists f n, came f /\ encode (msg_type f) n (payload f) (flags f) = Ok b.

Definition item_from (came : Frame -> Prop) (x : item) : Prop :=
  match x with Raw b => carries came b | Key _ => True end.

(** Everything the subscriber holds or was sent comes from a frame with [came]. *)
Record traced (ctrl : bytes -> Prop) (came : Frame -> Prop) (s : Subscriber) : Prop := mkTraced
  { tr_queue : Forall (item_from came) (queue s);
    tr_pending : map_Forall (fun _ v => exists f, came f /\ v = frame_cell f) (pending s);
    tr_written : Forall (fun b => carries came b \/ ctrl b) (written s) }.

Lemma carries_mono (came came' : Frame -> Prop) b :
  (forall f, came f -> came' f) -> carries came b -> carries came' b.
Proof. intros H (f & n & Hf & Hb). exists f, n. auto. Qed.

Lemma traced_mono ctrl (came came' : Frame -> Prop) s :
  (forall f, came f -> came' f) -> traced ctrl came s -> traced ctrl came' s.
Proof.
  intros H [Hq Hp Hw]. split.
  - eapply Forall_impl; [exact Hq|]. intros [k|b]; [done|]. by apply carries_mono.
  - intros k v Hv. destruct (Hp k v Hv) as (f & Hf & ->). eauto.
  - eapply Forall_impl; [exact Hw|]. intros b [Hb|Hb]; [left|by right]. by eapply carries_mono.
Qed.

(** Only the queue, the pending values and the written bytes matter. *)
Lemma traced_keep ctrl came s s' :
  queue s' = queue s -> pending s' = pending s -> written s' = written s ->
  traced ctrl came s -> traced ctrl came s'.
Proof. intros Eq Ep Ew [Hq Hp Hw]. split; by rewrite ?Eq, ?Ep, ?Ew. Qed.

Lemma traced_put ctrl came s x : item_from came x -> traced ctrl came s -> traced ctrl came (put_nowait s x).
Proof.
  intros Hx Ht. unfold put_nowait. destruct (full s); [done|]. destruct Ht as [Hq Hp Hw].
  split; [|done..]. cbn [queue set_queue]. apply Forall_app. auto.
Qed.

Lemma traced_room ctrl came s store x :
  item_from came x -> (forall s', traced ctrl came s' -> traced ctrl came (store s')) ->
  traced ctrl came s -> traced ctrl came (make_room_put s store x).1.
Proof.
  intros Hx Hstore Ht. unfold make_room_put. destruct (full s); [|by apply traced_put; auto].
  assert (traced ctrl came (drop_overflowed s).1) as Hd.
  { destruct Ht as [Hq Hp Hw]. split; [|done..]. simpl. destruct (queue s); [done|].
    by apply Forall_cons in Hq as [_ ?]. }
  destruct (drop_overflowed s) as [s1 []]; [done|]. by apply traced_put; auto.
Qed.

Lemma traced_fan_one ctrl (came : Frame -> Prop) s fr :
  (forall k, key_of fr = Some k -> wants s k = true -> came fr) -> (key_of fr = None -> came fr) ->
  traced ctrl came s -> traced ctrl came (fan_one s fr (key_of fr)).1.
Proof.
  intros Hk Hn Ht. unfold fan_one.
  destruct (match key_of fr with Some k => negb (wants s k) | None => false end) eqn:Hskip; [done|].
  assert (came fr) as Hf.
  { destruct (key_of fr) as [k|]; [|auto]. apply (Hk k); [done|]. by destruct (wants s k). }
  assert (forall s' k, traced ctrl came s' ->
            traced ctrl came (set_pending s' (<[k := frame_cell fr]> (pending s')))) as Hset.
  { intros s' k [Hq Hp Hw]. split; [done| |done]. apply map_Forall_insert_2; [|done]. eauto. }
  assert (traced ctrl came (match encode (msg_type fr) (out_seq s) (payload fr) (flags fr) with
      | Err err => (s, Raised err)
      | Ok raw => make_room_put (set_seq s (out_seq s + 1)) (fun s => s) (Raw raw) end).1) as Hraw.
  { destruct (encode _ _ _ _) as [raw|] eqn:Henc; [|done].
    apply traced_room; [|done|by destruct Ht; split]. exists fr, (out_seq s). auto. }
  destruct (mode s), (key_of fr) as [k|]; try exact Hraw.
  destruct (pending s !! k).
  - eapply traced_keep; [| | |apply (Hset s k Ht)]; done.
  - apply traced_room; [done| |done]. intros s' Hs'. by apply Hset.
Qed.

Lemma traced_write ctrl came s b :
  carries came b \/ ctrl b -> traced ctrl came s -> traced ctrl came (write s b).
Proof. intros Hb [Hq Hp Hw]. split; [done..|]. apply Forall_app. auto. Qed.

Lemma traced_take ctrl came s : traced ctrl came s -> traced ctrl came (send_take s).
Proof.
  intros Ht. pose proof Ht as [Hq Hp Hw]. unfold send_take.
  destruct (sender s), (queue s) as [|[k|b] q]; try done; apply Forall_cons in Hq as [Hx Hq].
  - cbn [set_queue pending]. destruct (pending s !! k) as [[[t p] fl]|] eqn:Hk; [|by split].
    destruct (Hp k _ Hk) as (f & Hf & Hc). cbn [set_pending set_queue out_seq pending].
    assert (map_Forall (fun _ v => exists f, came f /\ v = frame_cell f) (delete k (pending s))) as Hp'.
    { by apply map_Forall_delete. }
    destruct (encode t (out_seq s) p fl) as [data|] eqn:Henc; [|by split].
    split; [done..|]. simpl. apply Forall_app. split; [done|]. constructor; [left|constructor].
    exists f, (out_seq s). unfold frame_cell in Hc. by simplify_eq.
  - split; [done..|]. simpl. apply Forall_app. split; [done|]. constructor; [by left|constructor].
Qed.

Lemma traced_done ctrl came s : traced ctrl came s -> traced ctrl came (send_done s).
Proof. unfold send_done. destruct (sender s); [done| |done]. by apply traced_keep. Qed.

Lemma traced_switch ctrl came s m : traced ctrl came s -> traced ctrl came (switch_mode s m).
Proof.
  intros [Hq Hp Hw]. unfold switch_mode. case_decide; [by split|].
  split; [constructor|apply map_Forall_empty|done].
Qed.

(** Who a step addresses keeps its number. *)
Lemma sid_fan_one s fr key : sid (fan_one s fr key).1 = sid s.
Proof. unfold fan_one, make_room_put, put_nowait, drop_overflowed. repeat (case_match; simplify_eq/=; try done). Qed.

Lemma sid_send_take s : sid (send_take s) = sid s.
Proof. unfold send_take. repeat (case_match; simplify_eq/=; try done). Qed.

Lemma sid_send_done s : sid (send_done s) = sid s.
Proof. unfold send_done. by case_match. Qed.

Lemma fanout_elem l fr key s' :
  s' ∈ (fanout l fr key).1 -> exists s, s ∈ l /\ (s' = s \/ s' = (fan_one s fr key).1).
Proof.
  induction l as [|s l IH]; simpl; [by intros ?%elem_of_nil|].
  destruct (fan_one s fr key) as [s1 [| |err]] eqn:Hs; [destruct (fanout l fr key) as [l' o]| |]; simpl in *.
  - intros [->|H]%elem_of_cons; [exists s; rewrite Hs; split; [by left|by right]|].
    destruct (IH H) as (x & ? & ?). exists x. split; [by right|done].
  - intros H. destruct (IH H) as (x & ? & ?). exists x. split; [by right|done].
  - intros [->|H]%elem_of_cons; [exists s; rewrite Hs; split; [by left|by right]|].
    exists s'. split; [by right|by left].
Qed.

Lemma fanout_sids l fr key : (sid <$> (fanout l fr key).1) `sublist_of` (sid <$> l).
Proof.
  induction l as [|s l IH]; [done|]. simpl. pose proof (sid_fan_one s fr key) as Hs.
  destruct (fan_one s fr key) as [s1 [| |err]]; [destruct (fanout l fr key)| |]; simpl in *.
  - rewrite Hs. by apply sublist_skip.
  - by apply sublist_cons.
  - by rewrite Hs.
Qed.

Lemma on_sub_sids cid (f : Subscriber -> Subscriber) (l : list Subscriber) :
  (forall s, sid (f s) = sid s) -> sid <$> ((fun s => if sid s =? cid then f s else s) <$> l) = sid <$> l.
Proof.
  intros Hf. rewrite <- list_fmap_compose. apply list_fmap_ext. intros i s _. simpl. case_match; auto.
Qed.

Lemma Forall_sub {A} (P : A -> Prop) l k : l `sublist_of` k -> Forall P k -> Forall P l.
Proof. induction 1; [done|rewrite !Forall_cons; naive_solver..]. Qed.

Section served.
Context (dumps_ack : reason -> list pystr -> option (gset pystr) -> bytes).
Context (dumps_meta : Z -> Z -> bytes) (size : Z) (e : Entitlements) (He : enabled e = true).
#[local] Abbreviation run evs := (gw_run dumps_ack dumps_meta (new_gateway size e) evs).
#[local] Abbreviation ctrl := (control dumps_ack dumps_meta).

(** The frame [f] came in during [evs] while connection [cid] was there, with a
    filter that wanted it and a token entitled to it. *)
Definition came_for (evs : list event) (cid : Z) (f : Frame) : Prop :=
  exists pre post s, evs = pre ++ Bus f :: post /\ s ∈ subs (run pre) /\ sid s = cid /\
    forall k, key_of f = Some k -> wants s k = true /\ entitled e (token s) k.

Lemma came_for_more evs ev cid f : came_for evs cid f -> came_for (evs ++ [ev]) cid f.
Proof.
  intros (pre & post & s & -> & H). exists pre, (post ++ [ev]), s. by rewrite <- app_assoc.
Qed.

Lemma sid_apply_subscribe s tok syms m : sid (apply_subscribe dumps_ack e s tok syms m).1 = sid s.
Proof.
  unfold apply_subscribe, switch_mode.
  destruct (resolve _ _ _) as [[granted denied] why]. repeat (case_match; simplify_eq/=; try done).
Qed.

Lemma traced_subscribe came s tok syms m :
  traced ctrl came s -> traced ctrl came (apply_subscribe dumps_ack e s tok syms m).1.
Proof.
  intros Ht. unfold apply_subscribe. destruct (resolve _ _ _) as [[granted denied] why].
  assert (traced ctrl came (set_filter s tok granted)) as Hf by (by eapply traced_keep; [..|exact Ht]).
  destruct (decide (why = Granted)); simpl.
  - destruct (requested_mode _ m); simpl; [by apply traced_switch|done].
  - destruct (encode _ _ _ _) as [raw|] eqn:Henc; destruct (requested_mode _ m); simpl;
      try apply traced_switch; try done; apply traced_write; try done; right; left; eauto.
Qed.

(** The connections are numbered apart, and each is [traced] to the frames that
    came for it. *)
Definition served_inv (evs : list event) (g : TCPGateway) : Prop :=
  NoDup (sid <$> subs g) /\ Forall (fun s => sid s < next_id g) (subs g) /\
  Forall (fun s => traced ctrl (came_for evs (sid s)) s) (subs g).

Lemma served_more evs ev l :
  Forall (fun s => traced ctrl (came_for evs (sid s)) s) l ->
  Forall (fun s => traced ctrl (came_for (evs ++ [ev]) (sid s)) s) l.
Proof.
  intros H. eapply Forall_impl; [exact H|]. intros s. apply traced_mono. intros f. apply came_for_more.
Qed.

Lemma served_on_sub evs g g' cid f :
  subs g' = ((fun s => if sid s =? cid then f s else s) <$> subs g) -> next_id g' = next_id g ->
  (forall s, sid (f s) = sid s) -> (forall came s, traced ctrl came s -> traced ctrl came (f s)) ->
  served_inv evs g -> served_inv evs g'.
Proof.
  intros Es En Hsid Hf (Hnd & Hid & Ht). unfold served_inv. rewrite Es, En, on_sub_sids by done.
  split; [done|]. split; apply Forall_fmap; [eapply Forall_impl; [exact Hid|]|eapply Forall_impl; [exact Ht|]];
    intros s Hs; simpl; case_match; rewrite ?Hsid; auto.
Qed.

Lemma served_sublist evs g g' :
  subs g' `sublist_of` subs g -> next_id g' = next_id g -> served_inv evs g -> served_inv evs g'.
Proof.
  intros Hs En (Hnd & Hid & Ht). unfold served_inv. rewrite En. split_and!.
  - eapply sublist_NoDup; [exact Hnd|]. by apply fmap_sublist.
  - by eapply Forall_sub.
  - by eapply Forall_sub.
Qed.

Lemma served_connect evs g :
  ent g = e -> served_inv evs g -> served_inv evs (connect dumps_meta g).
Proof using He.
  intros Hg (Hnd & Hid & Ht). pose proof He as He'. rewrite <- Hg in He'.
  assert (next_id (connect dumps_meta g) = next_id g + 1) as En by done.
  destruct (connect_subs dumps_meta g He') as [Es|(raw & Henc & Es)]; unfold served_inv; rewrite Es, En.
  - split_and!; [done| |done]. eapply Forall_impl; [exact Hid|]. simpl. lia.
  - rewrite fmap_app. split_and!.
    + apply NoDup_app. split_and!; [done| |apply NoDup_singleton].
      intros x (s & -> & Hs)%list_elem_of_fmap Hx%list_elem_of_singleton.
      eapply Forall_forall in Hid; [|exact Hs]. simpl in Hx. lia.
    + apply Forall_app. split; [|constructor; [simpl; lia|constructor]].
      eapply Forall_impl; [exact Hid|]. simpl. lia.
    + apply Forall_app. split; [done|]. constructor; [|constructor].
      split; [constructor|apply map_Forall_empty|]. simpl. constructor; [|constructor]. right. by right.
Qed.

(** One frame off the bus: who is still there was there, and what it is given it
    was entitled to. *)
Lemma served_bus evs f :
  Forall (rights_ok e) (subs (run evs)) -> served_inv evs (run evs) ->
  served_inv (evs ++ [Bus f]) (consume_one (run evs) f).1.
Proof.
  intros Hr (Hnd & Hid & Ht).
  set (g := run evs) in *. unfold consume_one.
  destruct (match key_of f with Some (_ :: _) => _ | _ => _ end) as [l lt].
  pose proof (fanout_elem (subs g) f (key_of f)) as Hel. pose proof (fanout_sids (subs g) f (key_of f)) as Hsids.
  destruct (fanout (subs g) f (key_of f)) as [ss err]. cbn [fst] in *. unfold served_inv. cbn [subs next_id].
  split; [by eapply sublist_NoDup|].
  assert (forall s, s ∈ subs g -> traced ctrl (came_for (evs ++ [Bus f]) (sid s)) s) as Hold.
  { intros s Hs. eapply Forall_forall in Ht; [|exact Hs]. eapply traced_mono; [|exact Ht].
    intros fr. apply came_for_more. }
  split; apply Forall_forall; intros s' Hs'; destruct (Hel s' Hs') as (s & Hs & Hcase);
    pose proof (Hold s Hs) as Hts; rewrite Forall_forall in Hid, Hr;
    specialize (Hid s Hs); specialize (Hr s Hs).
  - destruct Hcase as [->| ->]; rewrite ?sid_fan_one; done.
  - destruct Hcase as [->| ->]; [done|]. rewrite sid_fan_one. apply traced_fan_one; [| |done].
    + intros k Hk Hw. exists evs, [], s. split_and!; [done..|]. intros k' Hk'.
      rewrite Hk in Hk'. injection Hk' as <-. auto.
    + intros Hk. exists evs, [], s. split_and!; [done..|]. intros k' Hk'. by rewrite Hk in Hk'.
Qed.

Lemma gw_run_served evs : served_inv evs (run evs).
Proof using He.
  induction evs as [|ev evs IH] using rev_ind; [split_and!; constructor|].
  destruct (gw_run_rights dumps_ack dumps_meta size e evs He) as [Hent Hr].
  assert (run (evs ++ [ev]) = gw_step dumps_ack dumps_meta (run evs) ev) as Erun
    by (unfold gw_run; by rewrite foldl_app).
  assert (served_inv (evs ++ [ev]) (run evs)) as IH' by (destruct IH as (? & ? & ?); split_and!; auto using served_more).
  rewrite Erun. set (g := run evs) in *. destruct ev as [|f|cid r|cid|cid|cid]; cbn [gw_step].
  - by apply served_connect.
  - by apply served_bus.
  - destruct r as [| |tok syms m]; cbn [subscribe]; [done| |].
    + eapply (served_sublist _ g); [|done|exact IH']. apply sublist_filter.
    + eapply (served_on_sub _ g _ cid); [done|done| | |exact IH'].
      * intros s. rewrite Hent. apply sid_apply_subscribe.
      * intros came s. rewrite Hent. apply traced_subscribe.
  - eapply (served_on_sub _ g); [done..|apply sid_send_take|intros ? ?; apply traced_take|exact IH'].
  - eapply (served_on_sub _ g); [done..|apply sid_send_done|intros ? ?; apply traced_done|exact IH'].
  - eapply (served_sublist _ g); [|done|exact IH']. apply sublist_filter.
Qed.

End served.

(** ** Properties *)

(** C6: with the entitlement check on, after any sequence of connections, bus
    frames, subscription requests and steps of the send loops: (1) a connection's
    filter lets a symbol through only if the token it last presented is entitled
    to it; (2) a frame of any other symbol leaves the connection exactly as it is;
    (3) a new connection is sent nothing but an empty snapshot's end message; and
    (4) every byte string ever written to a connection, and every frame waiting in
    its queue or among its pending values, is a control message or carries a frame
    that came in while this connection was there and, at that moment, wanted the
    frame's symbol and held a token entitled to it.  Connections are numbered
    apart.  (4) speaks of the token of that moment: a narrower token presented
    later does not recall what is queued already, see [resubscribe_leaks]. *)
Theorem entitlement_enforced dumps_ack dumps_meta size e evs :
  enabled e = true ->
  let g := gw_run dumps_ack dumps_meta (new_gateway size e) evs in
  let came := came_for dumps_ack dumps_meta size e evs in
  Forall (fun s => forall k, wants s k = true -> entitled e (token s) k) (subs g) /\
  Forall (fun s => forall f k, key_of f = Some k -> ~ entitled e (token s) k ->
                               fan_one s f (key_of f) = (s, Stays)) (subs g) /\
  Forall (fun s => s ∈ subs g \/ queue s = [] /\ exists raw, written s = [raw] /\
             encode Models.Models.MSG_SNAPSHOT 0 (dumps_meta 0 0) FLAG_SNAPSHOT = Ok raw)
    (subs (connect dumps_meta g)) /\
  NoDup (sid <$> subs g) /\
  Forall (fun s =>
    Forall (fun b => carries (came (sid s)) b \/ control dumps_ack dumps_meta b) (written s) /\
    (forall b, Raw b ∈ queue s -> carries (came (sid s)) b) /\
    (forall k v, pending s !! k = Some v -> exists f, came (sid s) f /\ v = frame_cell f)) (subs g).
Proof.
  intros He g came. destruct (gw_run_rights dumps_ack dumps_meta size e evs He) as [Hent Hr].
  destruct (gw_run_served dumps_ack dumps_meta size e He evs) as (Hnd & _ & Ht). fold g in Hent, Hr, Hnd, Ht.
  split; [exact Hr|]. split; [|split; [|split; [exact Hnd|]]].
  - eapply Forall_impl; [exact Hr|]. intros s Hs f k Hk Hno. unfold fan_one. rewrite Hk.
    destruct (wants s k) eqn:Hw; [|done]. by apply Hs in Hw.
  - apply Forall_forall. intros s Hin. rewrite <- Hent in He.
    destruct (connect_subs dumps_meta g He) as [E|(raw & Henc & E)]; rewrite E in Hin; [by left|].
    apply elem_of_app in Hin as [Hin|Hin]; [by left|].
      apply list_elem_of_singleton in Hin as ->. right. simpl. eauto.
  - eapply Forall_impl; [exact Ht|]. intros s [Hq Hp Hw]. split_and!; [exact Hw| |exact Hp].
    intros b Hb. rewrite Forall_forall in Hq. exact (Hq _ Hb).
Qed.

Definition demo_trade : Frame :=
  mkFrame 2 0 0 (match Models.Models.pack Models.Models.no_trunc
    (Models.Models.mkTrade (lit "V") (lit "A") 1 2 (PyFloat.of_int 3) (PyFloat.of_int 4) 1) with
    | (_, Ok b) => b | _ => [] end).
Definition demo_ent : Entitlements := mkEnt {[lit "t" := {[lit "V:A"]}]} true [].

(** The symbol's frame is queued, another connection is given nothing; a later
    request with a token for another symbol leaves the queue as it is. *)
Lemma entitlement_enforced_witness :
  let evs := [Connect; Connect; Subscribe 0 (Req (lit "t") None None); Bus demo_trade; Take 0] in
  let g := gw_run (fun _ _ _ => []) (fun _ _ => []) (new_gateway 2 demo_ent) evs in
  (length ∘ written <$> subs g) = [2%nat; 1%nat] /\
  Forall (fun s => forall b, Raw b ∈ queue s ->
    carries (came_for (fun _ _ _ => []) (fun _ _ => []) 2 demo_ent evs (sid s)) b) (subs g).
Proof.
  split; [by vm_compute|].
  destruct (entitlement_enforced (fun _ _ _ => []) (fun _ _ => []) 2 demo_ent
    [Connect; Connect; Subscribe 0 (Req (lit "t") None None); Bus demo_trade; Take 0]) as (_ & _ & _ & _ & H); [done|].
  eapply Forall_impl; [exact H|]. by intros s (_ & Hq & _).
Defined.

(** A frame queued under one token is still written after the connection presented
    another token that is not entitled to it: only a change of mode clears the
    queue. *)
Example resubscribe_leaks :
  let e := mkEnt {[lit "t" := {[lit "V:A"]}; lit "u" := {[lit "V:B"]}]} true [] in
  let g := gw_run (fun _ _ _ => []) (fun _ _ => []) (new_gateway 2 e)
    [Connect; Subscribe 0 (Req (lit "t") None None); Bus demo_trade;
     Subscribe 0 (Req (lit "u") None None)] in
  let g' := gw_step (fun _ _ _ => []) (fun _ _ => []) g (Take 0) in
  key_of demo_trade = Some (lit "V:A") /\ (token <$> subs g) = [lit "u"] /\
  ((fun s => wants s (lit "V:A")) <$> subs g) = [false] /\
  (written <$> subs g') = [[wire (mkFrame 5 0 1 []); wire (renumber 0 demo_trade)]].
Proof. split_and!; by vm_compute. Qed.

(** C5: a subscriber in stream mode is owed every frame its filter wants, numbered
    0, 1, 2, ...; at any moment that stream is [pre ++ q], [q] the queue and [pre]
    what was written, in order, up to [dropped] missing frames.  The queue respects
    its bound, nothing is missing while nothing was dropped, and the subscriber is
    cut off exactly when more than [DROP_LIMIT] frames were dropped. *)
Theorem stream_conservation cid size f evs :
  Forall publishable evs -> zlen evs < 2 ^ 64 ->
  let s := (sub_run (new_sub cid size f) evs).1 in
  let fate := (sub_run (new_sub cid size f) evs).2 in
  (fate = Stays \/ fate = Gone) /\ (fate = Gone <-> DROP_LIMIT < dropped s) /\
  (fate = Stays ->
     out_seq s = zlen (wanted f evs) /\ (0 < size -> zlen (queue s) <= size) /\
     exists pre q, numbered (wanted f evs) = pre ++ q /\ queue s = Raw <$> q /\
       written s `sublist_of` pre /\ zlen pre = zlen (written s) + dropped s /\
       (dropped s = 0 -> written s = pre)).
Proof.
  intros Hp Hl. cbn zeta. destruct (sub_run_stream cid size f evs Hp Hl) as [[Hf Hi]|[Hf Hd]].
  - split; [by left|]. split.
    + rewrite Hf. split; [done|]. destruct (si_dropped _ _ _ _ Hi). lia.
    + intros _. split; [by apply (si_seq _ _ _ _ Hi)|]. split; [by apply (si_bound _ _ _ _ Hi)|].
      destruct (si_split _ _ _ _ Hi) as (pre & q & Hn & Hq & Hw & Hlen).
      exists pre, q. split_and!; try done. intros H0. apply sublist_full; [done|lia].
  - split; [by right|]. rewrite Hf, Hd. split; [split; [lia|done]|done].
Qed.

Definition demo_hb : Frame := mkFrame 1 0 0 [0; 0; 0; 0; 0; 0; 0; 7].

Lemma stream_conservation_witness :
  let evs := [Publish demo_hb None; Publish demo_trade (Some (lit "V:A")); TakeNext;
              Publish demo_hb None; Publish demo_hb None; DrainDone] in
  let s := (sub_run (new_sub 0 2 None) evs).1 in
  dropped s = 1 /\
  ((sub_run (new_sub 0 2 None) evs).2 = Stays \/ (sub_run (new_sub 0 2 None) evs).2 = Gone).
Proof.
  split; [by vm_compute|]. apply (stream_conservation 0 2 None
    [Publish demo_hb None; Publish demo_trade (Some (lit "V:A")); TakeNext;
     Publish demo_hb None; Publish demo_hb None; DrainDone]); [|done].
  repeat constructor; simpl; by vm_compute.
Defined.

(** in conflate mode, as long as the queue never overflowed, the frames written
    carry the consecutive numbers 0, 1, 2, ..., every symbol with an unsent value has
    its key in the queue exactly once, and for every symbol the value waiting, or
    else the last one sent, is the last one published. *)
Theorem conflate_latest cid size f evs :
  Forall publishable evs -> Forall keyed evs -> zlen evs < 2 ^ 64 ->
  let r := log_run (set_mode (new_sub cid size f) MODE_CONFLATE) evs in
  let s := r.1.1 in let log := r.2 in
  dropped s = 0 ->
  r.1.2 = Stays /\ written s = imap cell_wire log /\ NoDup (queue s) /\
  forall k, (Key k ∈ queue s <-> is_Some (pending s !! k)) /\
    latest k (published f evs) = match pending s !! k with Some v => Some v | None => latest k log end.
Proof.
  intros Hp Hk Hl. cbn zeta. destruct (log_run_conflate cid size f evs Hp Hk Hl) as [(Hs & Hi & _)|]; [|lia].
  intros _. destruct Hi as [_ _ _ _ _ _ Hw (qs & Hq & Hnd & Hdom) Hlat]. split_and!; try done.
  - rewrite Hq. apply NoDup_fmap_2; [|done]. by intros ? ? [=].
  - intros k. rewrite Hq, <- Hdom, <- Hlat. split; [|done]. rewrite list_elem_of_fmap. split.
    + by intros (? & [= ->] & ?).
    + eauto.
Qed.

Definition demo_trade2 : Frame := mkFrame 2 0 0 (payload demo_trade ++ [1]).

Lemma conflate_latest_witness :
  let k := lit "V:A" in
  let evs := [Publish demo_trade (Some k); Publish demo_trade2 (Some k); TakeNext] in
  let r := log_run (set_mode (new_sub 0 1 None) MODE_CONFLATE) evs in
  r.2 = [(k, frame_cell demo_trade2)] /\ r.1.2 = Stays.
Proof.
  split; [by vm_compute|]. eapply (conflate_latest 0 1 None
    [Publish demo_trade (Some (lit "V:A")); Publish demo_trade2 (Some (lit "V:A")); TakeNext]).
  - repeat constructor; simpl; by vm_compute.
  - by repeat constructor.
  - done.
  - by vm_compute.
Defined.

(** in conflate mode an overflow that drops the queued key of symbol [a] leaves
    the value of [a] pending, and from then on [a] is lost to that subscriber: no
    later event, however many updates of [a] are published and however long the
    queue is drained, puts the key back, and no value of [a] is ever sent. *)
Theorem conflate_starves s fr a b q evs :
  mode s = MODE_CONFLATE -> full s = true -> queue s = Key a :: q -> (Key a ∉ q) ->
  is_Some (pending s !! a) -> pending s !! b = None -> wants s b = true -> dropped s < DROP_LIMIT ->
  let s1 := (fan_one s fr (Some b)).1 in
  (fan_one s fr (Some b)).2 = Stays /\
  Forall (fun x => x.1 <> a) (log_run s1 evs).2 /\
  ((log_run s1 evs).1.2 = Stays ->
     (Key a ∉ queue (log_run s1 evs).1.1) /\ is_Some (pending (log_run s1 evs).1.1 !! a)).
Proof.
  intros Hm Hf Hq Hnq Ha Hb Hw Hd. cbn zeta.
  assert ((fan_one s fr (Some b)).2 = Stays /\ orphaned a (fan_one s fr (Some b)).1) as [Hs Ho].
  { unfold fan_one. rewrite Hw, Hm, Hb. cbn [negb]. unfold make_room_put. rewrite Hf.
    unfold drop_overflowed. rewrite (proj2 (Z.ltb_ge _ _)) by lia. split; [done|].
    cbn [fst]. match goal with |- orphaned a (put_nowait ?x ?y) =>
      destruct (put_nowait_fields x y) as (E1 & E2 & E3) end.
    split; [by rewrite E1|]. split; [|rewrite E2; simpl; apply lookup_insert_is_Some'; by right].
    apply E3; [|by simpl; rewrite Hq]. intros [= ->]. rewrite Hb in Ha. by destruct Ha. }
  split; [done|]. destruct (orphaned_forever a _ evs Ho) as [H1 H2]. split; [done|].
  intros Hst. by destruct (H2 Hst) as (_ & ? & ?).
Qed.

Lemma conflate_starves_witness :
  let s := (sub_run (set_mode (new_sub 0 1 None) MODE_CONFLATE) [Publish demo_trade (Some (lit "V:A"))]).1 in
  let s1 := (fan_one s demo_trade (Some (lit "V:B"))).1 in
  let evs := [TakeNext; DrainDone; Publish demo_trade2 (Some (lit "V:A")); TakeNext] in
  (log_run s1 evs).2 = [(lit "V:B", frame_cell demo_trade)] /\
  Forall (fun x => x.1 <> lit "V:A") (log_run s1 evs).2.
Proof.
  split; [by vm_compute|].
  apply (conflate_starves _ demo_trade (lit "V:A") (lit "V:B") []
           [TakeNext; DrainDone; Publish demo_trade2 (Some (lit "V:A")); TakeNext]).
  - by vm_compute.
  - by vm_compute.
  - by vm_compute.
  - by intros H%elem_of_nil.
  - vm_compute. by eexists.
  - by vm_compute.
  - by vm_compute.
  - by vm_compute.
Defined.

(** in conflate mode a heartbeat is numbered when it is queued and an update when
    it is sent, so an update queued before a heartbeat goes out first with the higher
    number: the subscriber sees sequence 1 before 0. *)
Theorem conflate_seq_disorder cid size f k fr hb :
  size <= 0 \/ 2 <= size -> passes f k = true ->
  frame_ok (renumber 0 fr) -> frame_ok (renumber 0 hb) ->
  let s0 := set_mode (new_sub cid size f) MODE_CONFLATE in
  let r := sub_run s0 [Publish fr (Some k); Publish hb None; TakeNext; DrainDone; TakeNext] in
  r.2 = Stays /\ written r.1 = [wire (renumber 1 fr); wire (renumber 0 hb)].
Proof.
  intros Hsz Hk Hfr Hhb. cbn zeta.
  assert (forall s, maxsize s = size -> (length (queue s) < 2)%nat -> full s = false) as Hroom.
  { intros s Hs Hl. unfold full. rewrite Hs.
    destruct (0 <? size) eqn:E; [|done]. reflect_cmp. apply Z.leb_gt. lia. }
  unfold sub_run. cbn [foldl].
  match goal with |- context [sub_step (?s, Stays) (Publish fr (Some k))] =>
    change (sub_step (s, Stays) (Publish fr (Some k))) with (fan_one s fr (Some k)) end.
  rewrite fan_key by (done || apply Hroom; simpl; (done || lia)).
  match goal with |- context [sub_step (?s, Stays) (Publish hb None)] =>
    change (sub_step (s, Stays) (Publish hb None)) with (fan_one s hb None) end.
  rewrite fan_raw by (done || apply Hroom; simpl; (done || lia)).
  match goal with |- context [sub_step (?s, Stays) TakeNext] =>
    change (sub_step (s, Stays) TakeNext) with (send_take s, Stays) end.
  erewrite (take_key _ k [Raw _] (frame_cell fr)); [|reflexivity|reflexivity|apply lookup_insert_eq|done|done].
  done.
Qed.

Lemma conflate_seq_disorder_witness :
  let s0 := set_mode (new_sub 0 0 None) MODE_CONFLATE in
  let r := sub_run s0 [Publish demo_trade (Some (lit "V:A")); Publish demo_hb None; TakeNext; DrainDone; TakeNext] in
  r.2 = Stays /\ written r.1 = [wire (renumber 1 demo_trade); wire (renumber 0 demo_hb)].
Proof.
  apply (conflate_seq_disorder 0 0 None (lit "V:A") demo_trade demo_hb).
  - by left.
  - done.
  - by vm_compute.
  - by vm_compute.
Defined.

End Gateway.
