(* ===== verification/Bus.v ===== *)
(** * The Unix-domain-socket bus (src/src/mdfeed/bus.py)

    The publisher with one bounded queue per client, the client tasks as atomic
    steps between [await]s, and the self-healing consumer: source tracker, back-off,
    path and back-end checks.  Sockets are lists of what was written; times are
    arguments ([time.time()]). *)

From S2P Require Import Prelude PyStr PyFloat.

Module Bus.

Definition MAX_UDS_PATH : Z := 100.

Inductive BusError := PathTooLong (n : Z) | UnicodeEncodeError | UnknownBackend (name : pystr).

Definition check_uds_path (path : pystr) : result BusError unit :=
  match utf8_encode path with
  | None => Err UnicodeEncodeError
  | Some b => guard! negb (MAX_UDS_PATH <? zlen b) else PathTooLong (zlen b) in Ok tt
  end.

(** ** The publisher *)

(** An entry of [_stats]. *)
Record Stat := mkStat { name : pystr; st_dropped : Z; st_sent : Z }.

(** [_handle]: reading the name, waiting on the queue, or on [drain]. *)
Inductive Handler := Naming | Waiting | Draining.

(** One client: its queue in [_clients], its entry in [_stats] once it has a name,
    its task and what the task wrote. *)
Record Client := mkClient
  { cid : Z; q : list bytes; stat : option Stat; task : Handler; out : list bytes }.

(** [drop_log] has the argument of every [on_drop] call. *)
Record UDSPublisher := mkPub
  { queue_size : Z; clients : list Client; next_id : Z; dropped : Z; published : Z;
    drop_log : list pystr }.

Definition new_publisher (size : Z) : UDSPublisher := mkPub size [] 0 0 0 [].

Definition set_clients (p : UDSPublisher) l :=
  mkPub (queue_size p) l (next_id p) (dropped p) (published p) (drop_log p).

Definition anonymous : pystr := lit "anonymous".

(** The first line after [json.loads]: unusable, or an object with its "name" (the
    text of [str(name)], [None] when absent or falsy). *)
Inductive Hello := Unreadable | Named (n : option pystr).

Definition read_name (h : Hello) : pystr :=
  match h with
  | Unreadable => anonymous
  | Named None | Named (Some []) => anonymous
  | Named (Some n) => take 32 n
  end.

Definition accept_client (p : UDSPublisher) : UDSPublisher :=
  mkPub (queue_size p) (clients p ++ [mkClient (next_id p) [] None Naming []]) (next_id p + 1)
    (dropped p) (published p) (drop_log p).

Definition hello (h : Hello) (c : Client) : Client :=
  match task c with
  | Naming => mkClient (cid c) (q c) (Some (mkStat (read_name h) 0 0)) Waiting (out c)
  | _ => c
  end.

(** [q.get()], [writer.write]. *)
Definition take_one (c : Client) : Client :=
  match task c, q c with
  | Waiting, data :: rest => mkClient (cid c) rest (stat c) Draining (out c ++ [data])
  | _, _ => c
  end.

(** [drain] returns: [st["sent"] += 1]. *)
Definition drained (c : Client) : Client :=
  match task c with
  | Draining =>
      mkClient (cid c) (q c) ((fun s => mkStat (name s) (st_dropped s) (st_sent s + 1)) <$> stat c)
        Waiting (out c)
  | _ => c
  end.

Definition q_full (size : Z) (c : Client) : bool := (0 <? size) && (size <=? zlen (q c)).

(** One client's share of [publish]; the flag says a frame was dropped. *)
Definition publish_one (size : Z) (frame : bytes) (c : Client) : Client * bool :=
  let put (c : Client) :=
    if q_full size c then c else mkClient (cid c) (q c ++ [frame]) (stat c) (task c) (out c) in
  if q_full size c then
    (put (mkClient (cid c) (tail (q c))
            ((fun s => mkStat (name s) (st_dropped s + 1) (st_sent s)) <$> stat c) (task c) (out c)), true)
  else (put c, false).

Definition drop_name (c : Client) : pystr := match stat c with Some s => name s | None => anonymous end.

Definition publish (p : UDSPublisher) (frame : bytes) : UDSPublisher :=
  let hit := filter (fun c => (publish_one (queue_size p) frame c).2 = true) (clients p) in
  mkPub (queue_size p) ((fun c => (publish_one (queue_size p) frame c).1) <$> clients p) (next_id p)
    (dropped p + zlen hit) (published p + 1) (drop_log p ++ (drop_name <$> hit)).

(** The end of [_handle], for whatever reason. *)
Definition leave (p : UDSPublisher) (x : Z) : UDSPublisher :=
  set_clients p (filter (fun c => cid c <> x) (clients p)).

Definition close (p : UDSPublisher) : UDSPublisher := set_clients p [].

Definition on_client (x : Z) (f : Client -> Client) (p : UDSPublisher) : UDSPublisher :=
  set_clients p ((fun c => if cid c =? x then f c else c) <$> clients p).

Inductive event :=
| Accept | Says (x : Z) (h : Hello) | Publish (frame : bytes)
| Take (x : Z) | Drained (x : Z) | Leaves (x : Z) | Close.

Definition bus_step (p : UDSPublisher) (ev : event) : UDSPublisher :=
  match ev with
  | Accept => accept_client p
  | Says x h => on_client x (hello h) p
  | Publish frame => publish p frame
  | Take x => on_client x take_one p
  | Drained x => on_client x drained p
  | Leaves x => leave p x
  | Close => close p
  end.

Definition bus_run (p : UDSPublisher) (evs : list event) : UDSPublisher := foldl bus_step p evs.

(** [subscriber_stats]: name, backlog, dropped and sent per client, the clients that
    lose most first (a stable sort). *)
Record Row := mkRow { r_id : Z; r_name : pystr; r_backlog : Z; r_dropped : Z; r_sent : Z }.

Definition row (c : Client) : Row :=
  mkRow (cid c) (drop_name c) (zlen (q c))
    (match stat c with Some s => st_dropped s | None => 0 end)
    (match stat c with Some s => st_sent s | None => 0 end).

Fixpoint insert_row (r : Row) (l : list Row) : list Row :=
  match l with
  | [] => [r]
  | x :: l => if r_dropped x <=? r_dropped r then r :: x :: l else x :: insert_row r l
  end.

Definition subscriber_stats (p : UDSPublisher) : list Row :=
  foldr insert_row [] (row <$> clients p).

(** ** Sources *)

Record Source := mkSource { connected : bool; frames : Z; last_at : float; restarts : Z }.

(** [state] is a dict: in order of insertion. *)
Record SourceTracker := mkTracker { stale_after_s : float; state : list (pystr * Source) }.

Definition fresh_source : Source := mkSource false 0 (of_int 0) 0.

Fixpoint upd (k : pystr) (f : Source -> Source) (l : list (pystr * Source)) : list (pystr * Source) :=
  match l with
  | [] => []
  | (k', s) :: l => if bool_decide (k' = k) then (k', f s) :: l else (k', s) :: upd k f l
  end.

Definition has (k : pystr) (l : list (pystr * Source)) : bool := existsb (fun x => bool_decide (x.1 = k)) l.

Definition new_tracker (paths : list pystr) (stale : float) : SourceTracker :=
  mkTracker stale (foldl (fun l p => if has p l then l else l ++ [(p, fresh_source)]) [] paths).

Definition mark (t : SourceTracker) (path : pystr) (now : float) : SourceTracker :=
  let l := if has path (state t) then state t else state t ++ [(path, fresh_source)] in
  mkTracker (stale_after_s t)
    (upd path (fun s => mkSource true (frames s + 1) now (restarts s)) l).

Definition died (t : SourceTracker) (path : pystr) : SourceTracker :=
  mkTracker (stale_after_s t)
    (upd path (fun s => mkSource false (frames s) (last_at s) (restarts s + 1)) (state t)).

Definition age (s : Source) (now : float) : option float :=
  if truthy (last_at s) then Some (fsub now (last_at s)) else None.

Definition stale (t : SourceTracker) (s : Source) (now : float) : bool :=
  (0 <? frames s) && match age s now with Some a => fgt a (stale_after_s t) | None => false end.

(** The paths [report] lists as degraded (it shows their base names). *)
Definition degraded (t : SourceTracker) (now : float) : list pystr :=
  fst <$> filter (fun x => stale t x.2 now || negb (connected x.2) = true) (state t).

(** ** Reconnecting *)

(** [min(backoff * 2, limit)] *)
Definition next_backoff (b limit : float) : float := fmin (fmul b (of_int 2)) limit.

(** One attempt of [UDSSubscriber.frames]: whether the connection came up before it
    failed.  The result is the pause and the back-off kept for the next attempt. *)
Definition attempt (reconnect limit b : float) (came_up : bool) : float * float :=
  let b := if came_up then reconnect else b in (b, next_backoff b limit).

Fixpoint pauses (reconnect limit b : float) (tries : list bool) : list float :=
  match tries with
  | [] => []
  | t :: ts => let '(w, b) := attempt reconnect limit b t in w :: pauses reconnect limit b ts
  end.

(** One round of [consume_forever]: the frames handled before the source failed, with
    their times, and whether it was an exception (a stop request ends quietly). *)
Fixpoint consume_round (t : SourceTracker) (path : pystr) (times : list float) (raised : bool)
    : SourceTracker :=
  match times with
  | [] => if raised then died t path else t
  | now :: times => consume_round (mark t path now) path times raised
  end.

Definition round_pause (limit b : float) (times : list float) : float * float :=
  let b := match times with [] => b | _ => of_int 1 end in (b, next_backoff b limit).

(** ** Configuration *)

Definition check_backend (backend : pystr) : result BusError unit :=
  guard! bool_decide (backend = lit "uds") else UnknownBackend backend in Ok tt.

Definition make_publisher (backend path : pystr) (size : Z) : result BusError UDSPublisher :=
  let! _ := check_backend backend in Ok (new_publisher size).

(** The path a subscriber connects to. *)
Definition make_subscriber (backend path : pystr) : result BusError pystr :=
  let! _ := check_backend backend in let! _ := check_uds_path path in Ok path.

(** [start]: the path is checked before the socket is created. *)
Definition start (path : pystr) : result BusError unit := check_uds_path path.

Example pauses_default :
  pauses (of_int 1) (of_int 15) (of_int 1) [false; false; false; false; false; true; false]
  = of_int <$> [1; 2; 4; 8; 15; 1; 2].
Proof. by vm_compute. Qed.

(** ** Lemmas *)

Lemma bus_run_snoc p evs ev : bus_run p (evs ++ [ev]) = bus_step (bus_run p evs) ev.
Proof. unfold bus_run. by rewrite foldl_app. Qed.

Lemma bus_run_app p a b : bus_run p (a ++ b) = bus_run (bus_run p a) b.
Proof. unfold bus_run. by rewrite foldl_app. Qed.

(** No operation changes a client's number. *)
Lemma hello_cid h c : cid (hello h c) = cid c.
Proof. unfold hello. by destruct (task c). Qed.
Lemma take_one_cid c : cid (take_one c) = cid c.
Proof. unfold take_one. by destruct (task c), (q c). Qed.
Lemma drained_cid c : cid (drained c) = cid c.
Proof. unfold drained. by destruct (task c). Qed.
Lemma publish_one_cid size f c : cid (publish_one size f c).1 = cid c.
Proof. unfold publish_one. repeat (case_match; simplify_eq/=; try done). Qed.

(** What concerns client [x]: its own events, publications, arrivals and the end. *)
Definition concerns (x : Z) (ev : event) : Prop :=
  match ev with
  | Says y _ | Take y | Drained y | Leaves y => y = x
  | _ => True
  end.
#[export] Instance concerns_dec x ev : Decision (concerns x ev).
Proof. destruct ev; simpl; apply _. Defined.

Definition view (x : Z) (p : UDSPublisher) : list Client := filter (fun c => cid c = x) (clients p).

Lemma filter_fmap_cid x (f : Client -> Client) (l : list Client) :
  (forall c, cid (f c) = cid c) ->
  filter (fun c => cid c = x) (f <$> l) = f <$> filter (fun c => cid c = x) l.
Proof.
  intros Hf. induction l as [|c l IH]; [done|]. rewrite fmap_cons, !filter_cons, Hf.
  by case_decide; rewrite ?fmap_cons, IH.
Qed.

Lemma view_on_client x y f p :
  (forall c, cid (f c) = cid c) ->
  view x (on_client y f p) = if y =? x then f <$> view x p else view x p.
Proof.
  intros Hf. unfold view, on_client. cbn [clients set_clients].
  rewrite filter_fmap_cid by (intros c; by destruct (cid c =? y)).
  set (l := filter _ _). assert (Forall (fun c => cid c = x) l) as Hl.
  { apply Forall_forall. intros c Hc. by apply list_elem_of_filter in Hc as [? _]. }
  clearbody l. induction Hl as [|c l Hc Hl IH]; [by destruct (y =? x)|].
  rewrite !fmap_cons, Hc, IH, (Z.eqb_sym x y). by destruct (y =? x).
Qed.

Lemma view_leave x y p : view x (leave p y) = if decide (y = x) then [] else view x p.
Proof.
  unfold view, leave. cbn [clients set_clients].
  induction (clients p) as [|c l IH]; [by case_decide|].
  rewrite !filter_cons. repeat case_decide; rewrite ?filter_cons, ?decide_True, ?decide_False by congruence;
    simplify_eq; rewrite ?IH; try done.
Qed.

Lemma view_publish x f p :
  view x (publish p f) = (fun c => (publish_one (queue_size p) f c).1) <$> view x p.
Proof. unfold view, publish. cbn [clients]. apply filter_fmap_cid. intros c. apply publish_one_cid. Qed.

Lemma view_accept x p :
  view x (accept_client p) =
    view x p ++ if decide (next_id p = x) then [mkClient (next_id p) [] None Naming []] else [].
Proof. unfold view, accept_client. cbn [clients]. by rewrite filter_app, filter_cons. Qed.

(** The part of the state the view of one client is computed from. *)
Definition same_view (x : Z) (p1 p2 : UDSPublisher) : Prop :=
  view x p1 = view x p2 /\ next_id p1 = next_id p2 /\ queue_size p1 = queue_size p2.

Lemma bus_step_const p ev :
  queue_size (bus_step p ev) = queue_size p /\
  next_id (bus_step p ev) = next_id p + match ev with Accept => 1 | _ => 0 end.
Proof. destruct ev; simpl; split; lia. Qed.

Lemma same_view_concerned x p1 p2 ev : same_view x p1 p2 -> same_view x (bus_step p1 ev) (bus_step p2 ev).
Proof.
  intros (Hv & Hn & Hq).
  destruct (bus_step_const p1 ev) as [Q1 N1], (bus_step_const p2 ev) as [Q2 N2].
  split; [|split; congruence]. destruct ev; cbn [bus_step].
  - rewrite !view_accept. by rewrite Hv, Hn.
  - rewrite !view_on_client by apply hello_cid. by rewrite Hv.
  - rewrite !view_publish. by rewrite Hv, Hq.
  - rewrite !view_on_client by apply take_one_cid. by rewrite Hv.
  - rewrite !view_on_client by apply drained_cid. by rewrite Hv.
  - rewrite !view_leave. by case_decide.
  - done.
Qed.

Lemma same_view_unconcerned x p1 p2 ev :
  ~ concerns x ev -> same_view x p1 p2 -> same_view x (bus_step p1 ev) p2.
Proof.
  intros Hc (Hv & Hn & Hq). destruct (bus_step_const p1 ev) as [Q1 N1].
  split; [|split; [destruct ev; simpl in *; try lia; tauto|congruence]].
  destruct ev; simpl in Hc; try tauto; cbn [bus_step].
  - rewrite view_on_client by apply hello_cid. by rewrite (proj2 (Z.eqb_neq _ _)).
  - rewrite view_on_client by apply take_one_cid. by rewrite (proj2 (Z.eqb_neq _ _)).
  - rewrite view_on_client by apply drained_cid. by rewrite (proj2 (Z.eqb_neq _ _)).
  - rewrite view_leave. by rewrite decide_False.
Qed.

(** ** Accounting for one client *)

Definition payloads (evs : list event) : list bytes :=
  omap (fun ev => match ev with Publish f => Some f | _ => None end) evs.

Definition counted (c : Client) : Z := match stat c with Some s => st_dropped s | None => 0 end.

Record client_inv (size : Z) (fs : list bytes) (budget : Z) (c : Client) : Prop := mkClientInv
  { cl_bound : 0 < size -> zlen (q c) <= size;
    cl_split : exists pre lost, fs = pre ++ q c /\ out c `sublist_of` pre /\
      zlen pre = zlen (out c) + lost /\ 0 <= counted c <= lost /\ lost <= budget }.

Lemma client_inv_grow size fs b b' c : client_inv size fs b c -> b <= b' -> client_inv size fs b' c.
Proof. intros [Hb (pre & lost & ? & ? & ? & ? & ?)] Hle. split; [done|]. exists pre, lost. split_and!; (done || lia). Qed.

Lemma client_inv_hello size fs b h c : client_inv size fs b c -> client_inv size fs b (hello h c).
Proof.
  intros [Hb (pre & lost & ? & ? & ? & ? & ?)]. unfold hello. destruct (task c); [|split; eauto 10..].
  split; [done|]. exists pre, lost. unfold counted in *. cbn [stat q out st_dropped].
  split_and!; try done; lia.
Qed.

Lemma client_inv_drained size fs b c : client_inv size fs b c -> client_inv size fs b (drained c).
Proof.
  intros [Hb (pre & lost & ? & ? & ? & ? & ?)]. unfold drained. destruct (task c); [split; eauto 10..|].
  split; [done|]. exists pre, lost. unfold counted in *. cbn [q stat out].
  destruct (stat c); simpl in *; split_and!; (done || lia).
Qed.

Lemma client_inv_take size fs b c : client_inv size fs b c -> client_inv size fs b (take_one c).
Proof.
  intros [Hb (pre & lost & Hf & Ho & Hl & Hc & Hlost)]. unfold take_one.
  destruct (task c); [split; eauto 10| |split; eauto 10].
  destruct (q c) as [|data rest] eqn:E; [split; rewrite ?E; eauto 10|].
  split; [simpl; intros Hs; specialize (Hb Hs); simpl in Hb; lia|].
  exists (pre ++ [data]), lost. unfold counted in *. cbn [q stat out]. rewrite <- app_assoc, !length_app.
  split_and!; try done; try (simpl; lia). by apply sublist_app.
Qed.

Lemma publish_one_inv size fs b f c :
  client_inv size fs b c ->
  client_inv size (fs ++ [f]) (b + if (publish_one size f c).2 then 1 else 0) (publish_one size f c).1.
Proof.
  intros [Hb (pre & lost & Hf & Ho & Hl & Hc & Hlost)]. unfold publish_one. destruct (q_full size c) eqn:Hfull.
  - unfold q_full in Hfull. reflect_cmp. specialize (Hb ltac:(done)).
    destruct (q c) as [|x rest] eqn:E; simpl in *; [lia|].
    assert (q_full size (mkClient (cid c) rest
      ((fun s => mkStat (name s) (st_dropped s + 1) (st_sent s)) <$> stat c) (task c) (out c)) = false) as ->.
    { unfold q_full. simpl. apply andb_false_iff. right. apply Z.leb_gt. lia. }
    split; [simpl; rewrite length_app; simpl; lia|].
    exists (pre ++ [x]), (lost + 1). unfold counted in *. cbn [q stat out].
    rewrite Hf, <- !app_assoc, length_app.
    split_and!; try done; try (simpl; lia); [by apply sublist_inserts_r|..]; destruct (stat c); simpl in *; lia.
  - split.
    + simpl. rewrite length_app. simpl. unfold q_full in Hfull.
      apply andb_false_iff in Hfull as [?|?]; reflect_cmp; lia.
    + exists pre, lost. unfold counted in *. cbn [fst snd q out stat]. rewrite Hf, <- app_assoc.
      split_and!; try done; lia.
Qed.

(** All clients numbered [x] are accounted for. *)
Definition accounted (x size : Z) (fs : list bytes) (d0 : Z) (p : UDSPublisher) : Prop :=
  queue_size p = size /\ x < next_id p /\ Forall (client_inv size fs (dropped p - d0)) (view x p).

Lemma view_elem x p c : c ∈ view x p <-> c ∈ clients p /\ cid c = x.
Proof. unfold view. rewrite list_elem_of_filter. tauto. Qed.

Lemma accounted_on_client x y size fs d0 f p :
  (forall c, cid (f c) = cid c) -> (forall b c, client_inv size fs b c -> client_inv size fs b (f c)) ->
  accounted x size fs d0 p -> accounted x size fs d0 (on_client y f p).
Proof.
  intros Hc Hf (Hq & Hx & Hv). split; [done|]. split; [done|]. rewrite view_on_client by done.
  cbn [on_client set_clients dropped]. destruct (y =? x); [|done].
  apply Forall_fmap. eapply Forall_impl; [exact Hv|]. intros c. apply Hf.
Qed.

Lemma accounted_publish x size fs d0 f p :
  accounted x size fs d0 p -> accounted x size (fs ++ [f]) d0 (publish p f).
Proof.
  intros (Hq & Hx & Hv). split; [done|]. split; [done|]. rewrite view_publish, Hq.
  apply Forall_fmap, Forall_forall. intros c Hc. cbn [publish dropped compose].
  pose proof (proj1 (Forall_forall _ _) Hv c Hc) as Hi. apply view_elem in Hc as [Hin _].
  eapply client_inv_grow; [by apply publish_one_inv|]. rewrite Hq.
  destruct (publish_one size f c).2 eqn:E; [|lia].
  assert (c ∈ filter (fun c => (publish_one size f c).2 = true) (clients p)) as Hhit
    by by apply list_elem_of_filter.
  destruct (filter _ (clients p)); [by apply not_elem_of_nil in Hhit|]. simpl. lia.
Qed.

Lemma accounted_step x size fs d0 p ev :
  accounted x size fs d0 p -> accounted x size (fs ++ payloads [ev]) d0 (bus_step p ev).
Proof.
  intros Ha. destruct ev; cbn [bus_step]; unfold payloads; csimpl; rewrite ?app_nil_r.
  - destruct Ha as (Hq & Hx & Hv). split; [done|]. split; [simpl; lia|].
    rewrite view_accept, decide_False by lia. by rewrite app_nil_r.
  - apply accounted_on_client; [apply hello_cid| |done]. intros. by apply client_inv_hello.
  - by apply accounted_publish.
  - apply accounted_on_client; [apply take_one_cid| |done]. intros. by apply client_inv_take.
  - apply accounted_on_client; [apply drained_cid| |done]. intros. by apply client_inv_drained.
  - destruct Ha as (Hq & Hx & Hv). split; [done|]. split; [done|]. rewrite view_leave. by case_decide.
  - destruct Ha as (Hq & Hx & Hv). split; [done|]. split; [done|]. constructor.
Qed.

Lemma run_ids size evs : Forall (fun c => cid c < next_id (bus_run (new_publisher size) evs))
  (clients (bus_run (new_publisher size) evs)).
Proof.
  induction evs as [|ev evs IH] using rev_ind; [constructor|]. rewrite bus_run_snoc.
  set (p := bus_run _ evs) in *. clearbody p.
  assert (forall y f, (forall c, cid (f c) = cid c) ->
    Forall (fun c => cid c < next_id p) (clients (on_client y f p))) as Hon.
  { intros y f Hf. apply Forall_fmap. eapply Forall_impl; [exact IH|]. intros c Hc. simpl.
    destruct (cid c =? y); by rewrite ?Hf. }
  destruct ev; cbn [bus_step]; try (apply Hon; auto using hello_cid, take_one_cid, drained_cid).
  - apply Forall_app. split; [eapply Forall_impl; [exact IH|simpl; lia]|]. constructor; [simpl; lia|constructor].
  - apply Forall_fmap. eapply Forall_impl; [exact IH|]. intros c Hc. simpl. by rewrite publish_one_cid.
  - apply Forall_forall. intros c [_ Hc]%list_elem_of_filter. by eapply Forall_forall in IH.
  - constructor.
Qed.

Lemma accounted_accept size evs :
  let p := bus_run (new_publisher size) evs in
  queue_size p = size -> accounted (next_id p) size [] (dropped p) (accept_client p).
Proof.
  intros p Hq. split; [done|]. split; [simpl; lia|]. rewrite view_accept, decide_True by done.
  assert (view (next_id p) p = []) as ->.
  { apply elem_of_nil_inv. intros c [Hc Hx]%view_elem. pose proof (run_ids size evs) as Hids.
    eapply Forall_forall in Hids; [|exact Hc]. fold p in Hids. simpl in Hids. lia. }
  constructor; [|constructor]. split; [simpl; lia|]. exists [], 0. split_and!; try done; simpl; lia.
Qed.

Lemma run_size size evs : queue_size (bus_run (new_publisher size) evs) = size.
Proof.
  induction evs as [|ev evs IH] using rev_ind; [done|]. rewrite bus_run_snoc.
  by destruct (bus_step_const (bus_run (new_publisher size) evs) ev) as [-> _].
Qed.

Lemma accounted_run x size fs d0 evs p :
  accounted x size fs d0 p -> accounted x size (fs ++ payloads evs) d0 (bus_run p evs).
Proof.
  revert fs p. induction evs as [|ev evs IH]; intros fs p Ha; [by rewrite app_nil_r|].
  change (payloads (ev :: evs)) with (payloads ([ev] ++ evs)). unfold payloads. rewrite omap_app, app_assoc.
  apply (IH _ (bus_step p ev)). by apply accounted_step.
Qed.

(** ** Properties *)

(** a client that joins after [before] and is still there after [evs] is owed
    every frame published in [evs]; at any moment these are [pre ++ q], [q] its
    queue, within the bound, and [pre] what its task wrote, in order, except [lost]
    frames.  Every lost frame is counted in the publisher's total, the loss under
    the client's own name never exceeds its loss, and without a loss nothing is
    missing. *)
Theorem bus_conservation size before evs c :
  let p := bus_run (new_publisher size) before in
  let p' := bus_run (new_publisher size) (before ++ Accept :: evs) in
  c ∈ clients p' -> cid c = next_id p ->
  (0 < size -> zlen (q c) <= size) /\
  exists pre lost, payloads evs = pre ++ q c /\ out c `sublist_of` pre /\
    zlen pre = zlen (out c) + lost /\ counted c <= lost <= dropped p' - dropped p /\
    (lost = 0 -> out c = pre).
Proof.
  intros p p' Hin Hc.
  assert (accounted (next_id p) size (payloads evs) (dropped p) p') as (_ & _ & Hv).
  { unfold p'. rewrite bus_run_app. 
    change (bus_run (bus_run (new_publisher size) before) (Accept :: evs)) with (bus_run (accept_client p) evs).
    apply (accounted_run _ _ []). apply accounted_accept, run_size. }
  pose proof (proj1 (Forall_forall _ _) Hv c (proj2 (view_elem _ _ _) (conj Hin Hc))) as Hci.
  destruct Hci as [Hb (pre & lost & ? & ? & ? & ? & ?)]. split; [done|].
  exists pre, lost. split_and!; try done; try lia. intros ->. apply sublist_full; [done|lia].
Qed.

Lemma bus_conservation_witness :
  let evs := [Publish [1]; Says 0 (Named (Some (lit "writer"))); Take 0; Publish [2]; Publish [3]; Drained 0; Take 0] in
  let p' := bus_run (new_publisher 1) ([] ++ Accept :: evs) in
  exists c, clients p' = [c] /\ out c = [[1]; [3]] /\ dropped p' = 1 /\
  ((0 < 1 -> zlen (q c) <= 1) /\
   exists pre lost, payloads evs = pre ++ q c /\ out c `sublist_of` pre /\
     zlen pre = zlen (out c) + lost /\ counted c <= lost <= dropped p' - 0 /\
     (lost = 0 -> out c = pre)).
Proof.
  intros evs p'. eexists. split; [by vm_compute|]. split; [by vm_compute|]. split; [by vm_compute|].
  apply (bus_conservation 1 [] evs).
  - vm_compute. by left.
  - by vm_compute.
Defined.

(** no client can hold up another: what a client has in its queue, has been sent
    and has lost is the same whatever the other clients do - however slowly their
    tasks run, whenever they say their names or leave. *)
Theorem bus_isolation size evs x :
  view x (bus_run (new_publisher size) evs)
  = view x (bus_run (new_publisher size) (filter (concerns x) evs)).
Proof.
  assert (same_view x (bus_run (new_publisher size) evs)
            (bus_run (new_publisher size) (filter (concerns x) evs))) as [? _]; [|done].
  induction evs as [|ev evs IH] using rev_ind; [done|].
  rewrite filter_app, filter_cons, bus_run_snoc. case_decide.
  - rewrite bus_run_snoc. by apply same_view_concerned.
  - rewrite app_nil_r. by apply same_view_unconcerned.
Qed.

End Bus.
