(* ===== verification/Mcast.v ===== *)
(** * The multicast subscriber (src/src/mdfeed/mcast_client.py)

    Order recovery over a lossy, reordering transport: buffering before the
    snapshot, in-order delivery, gap requests with the gap-fill delay, and the
    acknowledgements of the recovery channel.  Clock readings are arguments; the
    JSON texts are decoded by two functions that stand for [json.loads]; requests
    and calls of [on_frame] are logged. *)

From S2P Require Import Prelude PyFloat.
From S2P Require Models Protocol.

Module Mcast.

Import Protocol.Protocol.

Definition RETRANS_TIMEOUT_S : float := of_int 1.
Definition MAX_PENDING : Z := 200000.

Record Stats := mkStats
  { st_delivered : Z; trades : Z; heartbeats : Z; snapshot_frames : Z; datagrams : Z; bytes_in : Z;
    duplicates : Z; discarded_before_snapshot : Z; gaps_detected : Z; retrans_requests : Z;
    retrans_frames : Z; unrecoverable : Z; reordered : Z; max_pending : Z }.
Definition no_stats : Stats := mkStats 0 0 0 0 0 0 0 0 0 0 0 0 0 0.

(** [calls]: the frames handed to [on_frame]; [delivered]: those that came through
    [_deliver]; [requests]: the ranges asked for on the recovery channel. *)
Record McastSubscriber := mkMcast
  { gap_fill_delay_s : float; expected : option Z; pending : gmap Z Frame;
    outstanding : gmap (Z * Z) float; gap_seen_at : gmap Z float; stats : Stats;
    calls : list Frame; delivered : list Frame; requests : list (Z * Z);
    tcp_parser : FrameParser; udp_parser : FrameParser }.

Definition new_mcast (delay : float) : McastSubscriber :=
  mkMcast delay None ∅ ∅ ∅ no_stats [] [] [] new_parser new_parser.

Definition set_expected (m : McastSubscriber) e := mkMcast (gap_fill_delay_s m) e (pending m)
  (outstanding m) (gap_seen_at m) (stats m) (calls m) (delivered m) (requests m) (tcp_parser m) (udp_parser m).
Definition set_pending (m : McastSubscriber) p := mkMcast (gap_fill_delay_s m) (expected m) p
  (outstanding m) (gap_seen_at m) (stats m) (calls m) (delivered m) (requests m) (tcp_parser m) (udp_parser m).
Definition set_outstanding (m : McastSubscriber) o := mkMcast (gap_fill_delay_s m) (expected m) (pending m)
  o (gap_seen_at m) (stats m) (calls m) (delivered m) (requests m) (tcp_parser m) (udp_parser m).
Definition set_gaps (m : McastSubscriber) g := mkMcast (gap_fill_delay_s m) (expected m) (pending m)
  (outstanding m) g (stats m) (calls m) (delivered m) (requests m) (tcp_parser m) (udp_parser m).
Definition set_stats (m : McastSubscriber) s := mkMcast (gap_fill_delay_s m) (expected m) (pending m)
  (outstanding m) (gap_seen_at m) s (calls m) (delivered m) (requests m) (tcp_parser m) (udp_parser m).
Definition call (m : McastSubscriber) f := mkMcast (gap_fill_delay_s m) (expected m) (pending m)
  (outstanding m) (gap_seen_at m) (stats m) (calls m ++ [f]) (delivered m) (requests m) (tcp_parser m) (udp_parser m).
Definition log_delivered (m : McastSubscriber) f := mkMcast (gap_fill_delay_s m) (expected m) (pending m)
  (outstanding m) (gap_seen_at m) (stats m) (calls m) (delivered m ++ [f]) (requests m) (tcp_parser m) (udp_parser m).
Definition log_request (m : McastSubscriber) r := mkMcast (gap_fill_delay_s m) (expected m) (pending m)
  (outstanding m) (gap_seen_at m) (stats m) (calls m) (delivered m) (requests m ++ [r]) (tcp_parser m) (udp_parser m).
Definition set_parsers (m : McastSubscriber) t u := mkMcast (gap_fill_delay_s m) (expected m) (pending m)
  (outstanding m) (gap_seen_at m) (stats m) (calls m) (delivered m) (requests m) t u.

(** Counter updates. *)
Definition c_delivered (s : Stats) (tr hb : Z) := mkStats (st_delivered s + 1) (trades s + tr) (heartbeats s + hb)
  (snapshot_frames s) (datagrams s) (bytes_in s) (duplicates s) (discarded_before_snapshot s)
  (gaps_detected s) (retrans_requests s) (retrans_frames s) (unrecoverable s) (reordered s) (max_pending s).
Definition c_duplicate (s : Stats) := mkStats (st_delivered s) (trades s) (heartbeats s)
  (snapshot_frames s) (datagrams s) (bytes_in s) (duplicates s + 1) (discarded_before_snapshot s)
  (gaps_detected s) (retrans_requests s) (retrans_frames s) (unrecoverable s) (reordered s) (max_pending s).
Definition c_gap (s : Stats) (npending ro : Z) := mkStats (st_delivered s) (trades s) (heartbeats s)
  (snapshot_frames s) (datagrams s) (bytes_in s) (duplicates s) (discarded_before_snapshot s)
  (gaps_detected s) (retrans_requests s) (retrans_frames s) (unrecoverable s) (reordered s + ro)
  (Z.max (max_pending s) npending).
Definition c_request (s : Stats) (new : Z) := mkStats (st_delivered s) (trades s) (heartbeats s)
  (snapshot_frames s) (datagrams s) (bytes_in s) (duplicates s) (discarded_before_snapshot s)
  (gaps_detected s + new) (retrans_requests s + 1) (retrans_frames s) (unrecoverable s) (reordered s) (max_pending s).
Definition c_discarded (s : Stats) (n : Z) := mkStats (st_delivered s) (trades s) (heartbeats s)
  (snapshot_frames s) (datagrams s) (bytes_in s) (duplicates s) (discarded_before_snapshot s + n)
  (gaps_detected s) (retrans_requests s) (retrans_frames s) (unrecoverable s) (reordered s) (max_pending s).
Definition c_snapshot (s : Stats) := mkStats (st_delivered s) (trades s) (heartbeats s)
  (snapshot_frames s + 1) (datagrams s) (bytes_in s) (duplicates s) (discarded_before_snapshot s)
  (gaps_detected s) (retrans_requests s) (retrans_frames s) (unrecoverable s) (reordered s) (max_pending s).
Definition c_ack (s : Stats) (sent lost : Z) := mkStats (st_delivered s) (trades s) (heartbeats s)
  (snapshot_frames s) (datagrams s) (bytes_in s) (duplicates s) (discarded_before_snapshot s)
  (gaps_detected s) (retrans_requests s) (retrans_frames s + sent) (unrecoverable s + lost) (reordered s) (max_pending s).
Definition c_datagram (s : Stats) (n : Z) := mkStats (st_delivered s) (trades s) (heartbeats s)
  (snapshot_frames s) (datagrams s + 1) (bytes_in s + n) (duplicates s) (discarded_before_snapshot s)
  (gaps_detected s) (retrans_requests s) (retrans_frames s) (unrecoverable s) (reordered s) (max_pending s).

(** ** Restoring the order *)

Definition deliver (m : McastSubscriber) (f : Frame) : McastSubscriber :=
  let is_trade := (msg_type f =? Models.Models.MSG_TRADE)
                  && (Models.Models.TRADE_SIZE <=? length (payload f))%nat in
  let is_hb := negb is_trade && (msg_type f =? Models.Models.MSG_HEARTBEAT) in
  log_delivered (call (set_stats m (c_delivered (stats m) (if is_trade then 1 else 0) (if is_hb then 1 else 0))) f) f.

(** [_drain_pending]; every turn takes an entry out of [pending]. *)
Fixpoint drain_loop (fuel : nat) (e : Z) (m : McastSubscriber) : McastSubscriber :=
  match fuel with
  | O => set_expected m (Some e)
  | S fuel =>
      match pending m !! e with
      | None => set_expected m (Some e)
      | Some f =>
          drain_loop fuel (e + 1)
            (deliver (set_pending (set_gaps m (delete e (gap_seen_at m))) (delete e (pending m))) f)
      end
  end.
Definition drain_pending (e : Z) (m : McastSubscriber) : McastSubscriber :=
  drain_loop (size (pending m)) e m.

(** The end of the hole that starts at [hi]. *)
Fixpoint hole_end (fuel : nat) (p : gmap Z Frame) (upto hi : Z) : Z :=
  match fuel with
  | O => hi
  | S fuel =>
      if (hi + 1 <? upto) && bool_decide (p !! (hi + 1) = None) then hole_end fuel p upto (hi + 1) else hi
  end.

(** One hole [lo..hi] of [_request_missing]. *)
Definition request_hole (now : float) (lo hi : Z) (m : McastSubscriber) : McastSubscriber :=
  let first_seen := default now (gap_seen_at m !! lo) in
  let m := set_gaps m (<[lo := first_seen]> (gap_seen_at m)) in
  let old := outstanding m !! (lo, hi) in
  if bool_decide (old = None) && flt (fsub now first_seen) (gap_fill_delay_s m) then m
  else if fle RETRANS_TIMEOUT_S (fsub now (default (of_int 0) old)) then
    log_request
      (set_stats (set_outstanding m (<[(lo, hi) := now]> (outstanding m)))
         (c_request (stats m) (if bool_decide (old = None) then 1 else 0))) (lo, hi)
  else m.

Fixpoint request_loop (fuel : nat) (now : float) (upto lo : Z) (m : McastSubscriber) : McastSubscriber :=
  match fuel with
  | O => m
  | S fuel =>
      if upto <=? lo then m
      else match pending m !! lo with
      | Some _ => request_loop fuel now upto (lo + 1) m
      | None =>
          let hi := hole_end (Z.to_nat (upto - lo)) (pending m) upto lo in
          request_loop fuel now upto (hi + 1) (request_hole now lo hi m)
      end
  end.

Definition request_missing (now : float) (e upto : Z) (m : McastSubscriber) : McastSubscriber :=
  request_loop (Z.to_nat (upto - e)) now upto e m.

(** [min(self.pending)] *)
Definition min_key (p : gmap Z Frame) : option Z :=
  foldr (fun k acc => match acc with None => Some k | Some a => Some (Z.min k a) end) None (map_to_list p).*1.
Definition max_key (p : gmap Z Frame) : option Z :=
  foldr (fun k acc => match acc with None => Some k | Some a => Some (Z.max k a) end) None (map_to_list p).*1.

(** [now] is read by [_observe] and [now'] by [_request_missing]. *)
Definition observe (now now' : float) (f : Frame) (via_retrans : bool) (m : McastSubscriber) : McastSubscriber :=
  match expected m with
  | None =>
      let p := <[seq f := f]> (pending m) in
      set_pending m
        (if MAX_PENDING <? Z.of_nat (size p) then
           match min_key p with Some k => delete k p | None => p end
         else p)
  | Some e =>
      if seq f <? e then set_stats m (c_duplicate (stats m))
      else if seq f =? e then drain_pending (e + 1) (deliver m f)
      else
        let m :=
          match pending m !! seq f with
          | Some _ => set_stats m (c_duplicate (stats m))
          | None =>
              let m := set_pending m (<[seq f := f]> (pending m)) in
              let m := set_stats m (c_gap (stats m) (Z.of_nat (size (pending m))) (if via_retrans then 0 else 1)) in
              set_gaps m (<[e := default now (gap_seen_at m !! e)]> (gap_seen_at m))
          end in
        request_missing now' e (seq f) m
  end.

(** ** The recovery channel *)

Inductive Ack := Retrans (from to sent unavailable oldest_available : Z) | OtherAck.
Inductive McastError := BadJson | ChannelClosed.

Section json.
Variable load_meta : bytes -> option Z.      (* next_seq of the snapshot's end *)
Variable load_ack : bytes -> option Ack.

Definition on_snapshot_end (now : float) (next : Z) (m : McastSubscriber) : McastSubscriber :=
  let stale := filter (fun x => x.1 < next) (pending m) in
  let m := set_pending m (filter (fun x => ~ x.1 < next) (pending m)) in
  let m := set_stats m (c_discarded (stats m) (Z.of_nat (size stale))) in
  let m := drain_pending next m in
  match min_key (pending m), expected m with
  | Some k, Some e => request_missing now e k m
  | _, _ => m
  end.

Definition on_ack (a : Ack) (m : McastSubscriber) : McastSubscriber :=
  match a with
  | OtherAck => m
  | Retrans from to sent unavailable oldest =>
      let m := set_outstanding m (delete (from, to) (outstanding m)) in
      match expected m with
      | Some e =>
          if negb (unavailable =? 0) && (e <? oldest) then
            let m := set_stats m (c_ack (stats m) sent (oldest - e)) in
            let m := set_gaps m (filter (fun x => ~ x.1 < oldest) (gap_seen_at m)) in
            drain_pending oldest m
          else set_stats m (c_ack (stats m) sent 0)
      | None => set_stats m (c_ack (stats m) sent 0)
      end
  end.

(** One frame of the recovery channel. *)
Definition on_tcp_frame (now now' : float) (f : Frame) (m : McastSubscriber)
    : result McastError McastSubscriber :=
  if negb (Z.land (flags f) FLAG_SNAPSHOT =? 0) then
    if msg_type f =? Models.Models.MSG_SNAPSHOT then
      match load_meta (payload f) with
      | None => Err BadJson
      | Some next => Ok (on_snapshot_end now next m)
      end
    else Ok (call (set_stats m (c_snapshot (stats m))) f)
  else if msg_type f =? Models.Models.MSG_ACK then
    match load_ack (payload f) with
    | None => Err BadJson
    | Some a => Ok (on_ack a m)
    end
  else Ok (observe now now' f true m).

(** The clock readings for the [i]-th frame of a chunk. *)
Fixpoint tcp_frames (clock : nat -> float * float) (i : nat) (fs : list Frame) (m : McastSubscriber)
    : result McastError McastSubscriber :=
  match fs with
  | [] => Ok m
  | f :: fs => let! m := on_tcp_frame (clock i).1 (clock i).2 f m in tcp_frames clock (S i) fs m
  end.

Fixpoint udp_frames (clock : nat -> float * float) (i : nat) (fs : list Frame) (m : McastSubscriber)
    : McastSubscriber :=
  match fs with
  | [] => m
  | f :: fs => udp_frames clock (S i) fs (observe (clock i).1 (clock i).2 f false m)
  end.

(** [_on_tcp]; an empty chunk is the end of the channel. *)
Definition on_tcp (clock : nat -> float * float) (chunk : bytes) (m : McastSubscriber) : result McastError McastSubscriber :=
  match chunk with
  | [] => Err ChannelClosed
  | _ =>
      match Protocol.Protocol.feed (tcp_parser m) chunk with
      | None => Ok m
      | Some (fs, p) => tcp_frames clock 0 fs (set_parsers m p (udp_parser m))
      end
  end.

Definition on_udp (clock : nat -> float * float) (data : bytes) (m : McastSubscriber) : McastSubscriber :=
  let m := set_stats m (c_datagram (stats m) (zlen data)) in
  match Protocol.Protocol.feed (udp_parser m) data with
  | None => m
  | Some (fs, p) => udp_frames clock 0 fs (set_parsers m (tcp_parser m) p)
  end.

(** The end of a turn of [run]: unanswered requests are repeated. *)
Definition tick (now : float) (m : McastSubscriber) : McastSubscriber :=
  match expected m, max_key (pending m) with
  | Some e, Some k => request_missing now e k m
  | _, _ => m
  end.

End json.


(** ** Steps of a subscriber that has its snapshot *)

Inductive op := Observe (now now' : float) (f : Frame) (via_retrans : bool) | Tick (now : float) | Acked (a : Ack).

Definition mcast_step (m : McastSubscriber) (o : op) : McastSubscriber :=
  match o with
  | Observe now now' f via => observe now now' f via m
  | Tick now => tick now m
  | Acked a => on_ack a m
  end.
Definition mcast_run (m : McastSubscriber) (ops : list op) : McastSubscriber := foldl mcast_step m ops.

Definition frame_of (o : op) : option Frame := match o with Observe _ _ f _ => Some f | _ => None end.
Definition seen (ops : list op) : list Z := seq <$> omap frame_of ops.

(** The holes of [pending] between [lo] and [upto], as [_request_missing] finds them. *)
Fixpoint holes (fuel : nat) (p : gmap Z Frame) (upto lo : Z) : list (Z * Z) :=
  match fuel with
  | O => []
  | S fuel =>
      if upto <=? lo then []
      else match p !! lo with
      | Some _ => holes fuel p upto (lo + 1)
      | None =>
          let hi := hole_end (Z.to_nat (upto - lo)) p upto lo in
          (lo, hi) :: holes fuel p upto (hi + 1)
      end
  end.

(** A hole is asked for when it has been known for the gap-fill delay, or was asked
    for before, and was not asked for within the time-out. *)
Definition due (m : McastSubscriber) (now : float) (h : Z * Z) : bool :=
  let old := outstanding m !! h in
  negb (bool_decide (old = None)
        && flt (fsub now (default now (gap_seen_at m !! h.1))) (gap_fill_delay_s m))
  && fle RETRANS_TIMEOUT_S (fsub now (default (of_int 0) old)).

(** *** Requests do not touch the order *)

Definition same_order (m m' : McastSubscriber) : Prop :=
  expected m' = expected m /\ pending m' = pending m /\ delivered m' = delivered m /\
  unrecoverable (stats m') = unrecoverable (stats m).

Ltac same := unfold same_order; repeat split; done.

Lemma same_order_trans a b c : same_order a b -> same_order b c -> same_order a c.
Proof. intros (? & ? & ? & ?) (? & ? & ? & ?). split_and!; congruence. Qed.

Lemma request_hole_order now lo hi m : same_order m (request_hole now lo hi m).
Proof. unfold request_hole. repeat case_match; by split_and!. Qed.

Lemma request_loop_holes fuel now upto lo m :
  request_loop fuel now upto lo m =
    foldl (fun m h => request_hole now h.1 h.2 m) m (holes fuel (pending m) upto lo).
Proof.
  revert lo m. induction fuel as [|fuel IH]; intros lo m; [done|]. cbn [request_loop holes].
  destruct (upto <=? lo); [done|]. destruct (pending m !! lo); [apply IH|]. cbn [foldl fst snd].
  rewrite IH. by destruct (request_hole_order now lo
    (hole_end (Z.to_nat (upto - lo)) (pending m) upto lo) m) as (_ & -> & _).
Qed.

Lemma request_missing_order now e upto m : same_order m (request_missing now e upto m).
Proof.
  unfold request_missing. rewrite request_loop_holes. generalize (holes (Z.to_nat (upto - e)) (pending m) upto e).
  intros hs. revert m. induction hs as [|h hs IH]; intros m; [by split_and!|]. cbn [foldl].
  eapply same_order_trans; [apply (request_hole_order now h.1 h.2)|apply IH].
Qed.

Lemma hole_end_spec fuel p upto lo :
  lo < upto -> p !! lo = None -> upto - lo <= Z.of_nat fuel ->
  let hi := hole_end fuel p upto lo in
  lo <= hi < upto /\ (forall k, lo <= k <= hi -> p !! k = None) /\
  (hi + 1 = upto \/ is_Some (p !! (hi + 1))).
Proof.
  revert lo. induction fuel as [|fuel IH]; intros lo Hlo Hp Hf; [lia|]. cbn [hole_end].
  destruct (_ && _) eqn:E.
  - reflect_cmp. rewrite bool_decide_eq_true in *.
    destruct (IH (lo + 1)) as (H1 & H2 & H3); [lia|done|lia|]. split; [lia|]. split; [|done].
    intros k Hk. destruct (decide (k = lo)) as [->|]; [done|]. apply H2. lia.
  - split; [lia|]. split; [intros k Hk; by replace k with lo by lia|].
    apply andb_false_iff in E as [E|E]; reflect_cmp; [left; lia|right].
    apply bool_decide_eq_false in E. by apply not_eq_None_Some.
Qed.

Lemma holes_spec fuel p upto lo :
  upto - lo <= Z.of_nat fuel ->
  (forall k, lo <= k < upto -> p !! k = None <-> exists h, h ∈ holes fuel p upto lo /\ h.1 <= k <= h.2) /\
  Forall (fun h => lo <= h.1 <= h.2 /\ h.2 < upto /\ (h.2 + 1 = upto \/ is_Some (p !! (h.2 + 1))))
    (holes fuel p upto lo) /\
  NoDup (holes fuel p upto lo).*1.
Proof.
  revert lo. induction fuel as [|fuel IH]; intros lo Hf; cbn [holes].
  { split; [intros; lia|]. split; constructor. }
  destruct (Z.leb_spec upto lo).
  { split; [intros; lia|]. split; constructor. }
  destruct (p !! lo) as [f|] eqn:Hlo.
  - destruct (IH (lo + 1) ltac:(lia)) as (H1 & H2 & H3). split; [|split; [|done]].
    + intros k Hk. destruct (decide (k = lo)) as [->|]; [|apply H1; lia]. rewrite Hlo. split; [done|].
      intros (h & Hh & Hk1). eapply Forall_forall in H2; [|done]. simpl in H2. lia.
    + eapply Forall_impl; [exact H2|]. simpl. intros. destruct_and!. split_and!; (done || lia).
  - set (hi := hole_end _ p upto lo).
    destruct (hole_end_spec (Z.to_nat (upto - lo)) p upto lo) as (B & N & M); [done|done|lia|]. fold hi in B, N, M.
    destruct (IH (hi + 1) ltac:(lia)) as (H1 & H2 & H3). split; [|split].
    + intros k Hk. destruct (decide (k <= hi)).
      * split; [|intros; apply N; lia]. intros _. exists (lo, hi). split; [by left|simpl; lia].
      * rewrite (H1 k) by lia. split; intros (h & Hh & Hk1); exists h; split; try done; [by right|].
        apply elem_of_cons in Hh as [->|]; [simpl in Hk1; lia|done].
    + constructor; [simpl; split_and!; (done || lia)|]. eapply Forall_impl; [exact H2|].
      simpl. intros. destruct_and!. split_and!; (done || lia).
    + cbn. constructor; [|done]. rewrite list_elem_of_fmap. intros (h & Eh & Hh).
      eapply Forall_forall in H2; [|done]. simpl in H2. lia.
Qed.

Lemma request_hole_requests now lo hi m :
  requests (request_hole now lo hi m) = requests m ++ (if due m now (lo, hi) then [(lo, hi)] else []).
Proof.
  unfold request_hole, due. cbn [fst].
  change (outstanding (set_gaps m (<[lo := default now (gap_seen_at m !! lo)]> (gap_seen_at m))) !! (lo, hi))
    with (outstanding m !! (lo, hi)).
  change (gap_fill_delay_s (set_gaps m (<[lo := default now (gap_seen_at m !! lo)]> (gap_seen_at m))))
    with (gap_fill_delay_s m).
  destruct (bool_decide _ && flt _ _); cbn [negb andb]; [by rewrite app_nil_r|].
  destruct (fle _ _); [done|by rewrite app_nil_r].
Qed.

Lemma request_hole_due now lo hi m h :
  h.1 <> lo -> due (request_hole now lo hi m) now h = due m now h.
Proof.
  intros Hne. unfold due, request_hole. destruct h as [l u]. simpl in Hne. cbn [fst].
  assert (forall m', gap_fill_delay_s m' = gap_fill_delay_s m -> outstanding m' !! (l, u) = outstanding m !! (l, u) ->
    gap_seen_at m' !! l = gap_seen_at m !! l ->
    negb (bool_decide (outstanding m' !! (l, u) = None)
      && flt (fsub now (default now (gap_seen_at m' !! l))) (gap_fill_delay_s m'))
    && fle RETRANS_TIMEOUT_S (fsub now (default (of_int 0) (outstanding m' !! (l, u)))) =
    negb (bool_decide (outstanding m !! (l, u) = None)
      && flt (fsub now (default now (gap_seen_at m !! l))) (gap_fill_delay_s m))
    && fle RETRANS_TIMEOUT_S (fsub now (default (of_int 0) (outstanding m !! (l, u))))) as Hcong
    by by intros m' -> -> ->.
  repeat case_match; apply Hcong; try done; cbn; rewrite lookup_insert_ne; (done || congruence).
Qed.

Lemma requests_of_holes now hs m :
  NoDup hs.*1 ->
  requests (foldl (fun m h => request_hole now h.1 h.2 m) m hs) = requests m ++ filter (fun h => due m now h = true) hs.
Proof.
  revert m. induction hs as [|[lo hi] hs IH]; intros m Hnd; [by rewrite app_nil_r|].
  cbn in Hnd. apply NoDup_cons in Hnd as [Hlo Hnd]. cbn [foldl fst snd]. rewrite IH by done.
  rewrite request_hole_requests, <- app_assoc, filter_cons. f_equal.
  assert (filter (fun h => due (request_hole now lo hi m) now h = true) hs
          = filter (fun h => due m now h = true) hs) as ->.
  { clear IH Hnd. induction hs as [|h hs IH]; [done|]. rewrite !filter_cons, request_hole_due, IH.
    - done.
    - intros Hin. apply Hlo. cbn. by right.
    - intros <-. apply Hlo. cbn. by left. }
  destruct (due m now (lo, hi)); [by rewrite decide_True|by rewrite decide_False].
Qed.

(** *** Draining *)

(** The frames a drain takes out, and what it leaves. *)
Lemma drain_loop_spec fuel e m :
  (size (pending m) <= fuel)%nat ->
  exists l, let m' := drain_loop fuel e m in
    let e' := e + zlen l in
    delivered m' = delivered m ++ l /\ expected m' = Some e' /\
    unrecoverable (stats m') = unrecoverable (stats m) /\
    (forall i f, l !! i = Some f -> pending m !! (e + Z.of_nat i) = Some f) /\
    (forall k, pending m' !! k = if decide (e <= k < e') then None else pending m !! k) /\
    pending m' !! e' = None.
Proof.
  revert e m. induction fuel as [|fuel IH]; intros e m Hs; cbn [drain_loop].
  { assert (pending m = ∅) as Hp by (apply map_size_empty_inv; lia).
    exists []. cbn. rewrite app_nil_r, Z.add_0_r, Hp. split_and!; try done; intros k.
    rewrite lookup_empty. by case_decide. }
  destruct (pending m !! e) as [f|] eqn:He.
  - set (m1 := deliver _ f).
    assert (pending m1 = delete e (pending m)) as Hp1 by done.
    destruct (IH (e + 1) m1) as (l & Hd & Hx & Hu & Hl & Hp & Hn).
    { rewrite Hp1, map_size_delete_Some by (by eexists). lia. }
    exists (f :: l). cbn zeta in *. assert (e + zlen (f :: l) = e + 1 + zlen l) as E by (simpl; lia).
    rewrite E. split_and!; try done.
    + rewrite Hd. cbn. by rewrite <- app_assoc.
    + intros [|i] g Hg; simpl in Hg; [simplify_eq; by rewrite Z.add_0_r|].
      specialize (Hl i g Hg). rewrite Hp1, lookup_delete_ne in Hl by lia. rewrite <- Hl. f_equal. lia.
    + intros k. rewrite Hp, Hp1. destruct (decide (k = e)) as [->|].
      * rewrite lookup_delete_eq. by repeat case_decide; try lia.
      * rewrite lookup_delete_ne by done. repeat case_decide; (done || lia).
  - exists []. cbn. rewrite app_nil_r, Z.add_0_r. split_and!; try done. intros k. by case_decide; [lia|].
Qed.

Section publisher.
(** The publisher's frame with number [k]. *)
Variable fr : Z -> Frame.
Variable start : Z.

Definition stream (n : nat) : list Frame := (fun i => fr (start + Z.of_nat i)) <$> List.seq 0 n.

Lemma stream_app n l :
  (forall i f, l !! i = Some f -> f = fr (start + Z.of_nat n + Z.of_nat i)) ->
  stream n ++ l = stream (n + length l).
Proof.
  revert n. induction l as [|f l IH]; intros n Hl; [by rewrite app_nil_r, Nat.add_0_r|].
  rewrite cons_middle, app_assoc. assert (stream n ++ [f] = stream (S n)) as ->.
  { unfold stream. rewrite seq_S, fmap_app. simpl. by rewrite (Hl O f) by done; rewrite Z.add_0_r. }
  rewrite IH; [f_equal; simpl; lia|]. intros i g Hg. rewrite (Hl (S i) g Hg). f_equal. lia.
Qed.

(** Everything below [expected] was delivered, once and in order; what waits is
    above it and is the publisher's. *)
Definition ordered (m : McastSubscriber) : Prop :=
  exists n, expected m = Some (start + Z.of_nat n) /\ delivered m = stream n /\
    forall k f, pending m !! k = Some f -> f = fr k /\ start + Z.of_nat n < k.

(** The number was delivered or waits. *)
Definition got (m : McastSubscriber) (s : Z) : Prop :=
  exists e, expected m = Some e /\ (s < e \/ is_Some (pending m !! s)).

Lemma ordered_same m m' : same_order m m' -> ordered m -> ordered m'.
Proof. intros (He & Hp & Hd & _) (n & ? & ? & ?). exists n. by rewrite He, Hp, Hd. Qed.

Lemma got_same m m' s : same_order m m' -> got m s -> got m' s.
Proof. intros (He & Hp & _) (e & ? & ?). exists e. by rewrite He, Hp. Qed.

(** Draining from a point where all before it has been delivered. *)
Lemma drain_ordered n m :
  delivered m = stream n ->
  (forall k f, pending m !! k = Some f -> f = fr k /\ start + Z.of_nat n <= k) ->
  let m' := drain_pending (start + Z.of_nat n) m in
  ordered m' /\ forall s, s < start + Z.of_nat n \/ is_Some (pending m !! s) -> got m' s.
Proof.
  intros Hd Hp. destruct (drain_loop_spec (size (pending m)) (start + Z.of_nat n) m) as (l & H1 & H2 & _ & H3 & H4 & H5);
    [done|]. cbn zeta in *. fold (drain_pending (start + Z.of_nat n) m) in *.
  set (m' := drain_pending _ m) in *.
  assert (start + Z.of_nat n + zlen l = start + Z.of_nat (n + length l)) as E by lia. rewrite E in *.
  split.
  - exists (n + length l)%nat. split; [done|]. split.
    + rewrite H1, Hd. apply stream_app. intros i f Hf. by destruct (Hp _ _ (H3 i f Hf)) as [-> _].
    + intros k f Hk. pose proof Hk as Hk'. rewrite H4 in Hk. case_decide as C; [done|].
      destruct (Hp k f Hk) as [Hf Hge]. split; [done|].
      assert (k <> start + Z.of_nat (n + length l)) by (intros ->; by rewrite H5 in Hk'). lia.
  - intros s Hs. exists (start + Z.of_nat (n + length l)). split; [done|].
    destruct (decide (s < start + Z.of_nat (n + length l))); [by left|right].
    rewrite H4, decide_False by lia. destruct Hs as [?|?]; [lia|done].
Qed.

Lemma observe_ordered now now' f via m :
  ordered m -> f = fr (seq f) ->
  ordered (observe now now' f via m) /\ got (observe now now' f via m) (seq f) /\
  forall s, got m s -> got (observe now now' f via m) s.
Proof.
  intros Ho Hf. pose proof Ho as (n & He & Hd & Hp). unfold observe. rewrite He.
  destruct (Z.ltb_spec (seq f) (start + Z.of_nat n)) as [Hlt|Hge].
  { assert (same_order m (set_stats m (c_duplicate (stats m)))) as Hsame by by split_and!.
    split; [by eapply ordered_same|]. split; [|intros s; by apply got_same].
    eexists. split; [done|]. by left. }
  destruct (Z.eqb_spec (seq f) (start + Z.of_nat n)) as [Heq|Hne].
  - assert (start + Z.of_nat n + 1 = start + Z.of_nat (S n)) as -> by lia.
    destruct (drain_ordered (S n) (deliver m f)) as [H1 H2].
    + cbn [deliver log_delivered delivered call set_stats]. rewrite Hd, <- (Nat.add_1_r n).
      apply (stream_app n [f]).
      intros [|i] g Hg; [|done]. simplify_eq/=. rewrite Hf at 1. f_equal. lia.
    + intros k g Hk. destruct (Hp k g Hk). split; [done|lia].
    + split; [done|]. split; [apply H2; left; lia|]. intros s (e & He' & Hse). apply H2.
      rewrite He in He'. simplify_eq. destruct Hse; [left; lia|by right].
  - set (m1 := match pending m !! seq f with Some _ => _ | None => _ end).
    assert (ordered m1 /\ got m1 (seq f) /\ forall s, got m s -> got m1 s) as (H1 & H2 & H3).
    { unfold m1. destruct (pending m !! seq f) as [g|] eqn:Hpf.
      - assert (same_order m (set_stats m (c_duplicate (stats m)))) as Hsame by by split_and!.
        split; [by eapply ordered_same|]. split; [|intros s; by apply got_same].
        eexists. split; [done|]. right. cbn. by rewrite Hpf.
      - split; [|split].
        + exists n. split; [done|]. split; [done|]. intros k g Hk. cbn in Hk.
          destruct (decide (k = seq f)) as [->|].
          * rewrite lookup_insert_eq in Hk. simplify_eq. split; [done|lia].
          * rewrite lookup_insert_ne in Hk by done. by apply Hp.
        + eexists. split; [done|]. right. cbn. by rewrite lookup_insert_eq.
        + intros s (e & He' & Hse). exists e. split; [done|]. destruct Hse; [by left|right].
          cbn. apply lookup_insert_is_Some'. by right. }
    pose proof (request_missing_order now' (start + Z.of_nat n) (seq f) m1) as Hsame.
    split; [by eapply ordered_same|]. split; [by eapply got_same|]. intros s Hg. eapply got_same; [done|by apply H3].
Qed.

(** An acknowledgement that reports nothing unavailable. *)
Definition lossless (o : op) : Prop :=
  match o with Acked (Retrans _ _ _ u _) => u = 0 | _ => True end.

Definition genuine (o : op) : Prop := match frame_of o with Some f => f = fr (seq f) | None => True end.

Lemma tick_order now m : same_order m (tick now m).
Proof. unfold tick. repeat case_match; [apply request_missing_order|same..]. Qed.

Lemma ack_order a m : lossless (Acked a) -> same_order m (on_ack a m).
Proof.
  unfold lossless, on_ack. destruct a as [from to sent u oldest|]; [intros ->|same].
  cbn [Z.eqb negb andb]. destruct (expected _); split_and!; try done; cbn; lia.
Qed.

Lemma step_ordered m o :
  ordered m -> genuine o -> lossless o ->
  ordered (mcast_step m o) /\ (forall s, got m s -> got (mcast_step m o) s) /\
  forall s, s ∈ seen [o] -> got (mcast_step m o) s.
Proof.
  intros Ho Hg Hl. destruct o as [now now' f via|now|a]; cbn [mcast_step].
  - destruct (observe_ordered now now' f via m Ho Hg) as (H1 & H2 & H3). split; [done|]. split; [done|].
    intros s Hs. cbn in Hs. apply list_elem_of_singleton in Hs as ->. done.
  - pose proof (tick_order now m). split; [by eapply ordered_same|]. split; [intros s; by apply got_same|].
    intros s Hs. by apply not_elem_of_nil in Hs.
  - pose proof (ack_order a m Hl). split; [by eapply ordered_same|]. split; [intros s; by apply got_same|].
    intros s Hs. by apply not_elem_of_nil in Hs.
Qed.

Lemma seen_app a b : seen (a ++ b) = seen a ++ seen b.
Proof. unfold seen. by rewrite omap_app, fmap_app. Qed.

Lemma run_ordered m ops :
  ordered m -> Forall genuine ops -> Forall lossless ops ->
  ordered (mcast_run m ops) /\ (forall s, got m s \/ s ∈ seen ops -> got (mcast_run m ops) s).
Proof.
  revert m. induction ops as [|o ops IH]; intros m Ho Hg Hl.
  { split; [done|]. intros s [?|Hs]; [done|by apply not_elem_of_nil in Hs]. }
  apply Forall_cons in Hg as [Hg1 Hg], Hl as [Hl1 Hl].
  destruct (step_ordered m o Ho Hg1 Hl1) as (H1 & H2 & H3).
  destruct (IH _ H1 Hg Hl) as [H4 H5]. split; [done|]. intros s Hs. apply H5.
  change (o :: ops) with ([o] ++ ops) in Hs. rewrite seen_app, elem_of_app in Hs.
  destruct Hs as [?|[?|?]]; auto.
Qed.

(** Before the snapshot everything is kept. *)
Definition buffered (A : list op) (m : McastSubscriber) : Prop :=
  expected m = None /\ delivered m = [] /\ (size (pending m) <= length A)%nat /\
  (forall k f, pending m !! k = Some f -> f = fr k) /\ forall s, s ∈ seen A -> is_Some (pending m !! s).

Lemma run_buffered delay A :
  Forall genuine A -> zlen A <= MAX_PENDING -> buffered A (mcast_run (new_mcast delay) A).
Proof.
  induction A as [|o A IH] using rev_ind; intros Hg Hlen.
  { split_and!; try done. intros s Hs. by apply not_elem_of_nil in Hs. }
  apply Forall_app in Hg as [Hg [Ho _]%Forall_cons]. rewrite length_app in Hlen. simpl in Hlen.
  destruct (IH Hg ltac:(lia)) as (He & Hd & Hsz & Hp & Hs). unfold mcast_run in *. rewrite foldl_app.
  cbn [foldl]. set (m := foldl _ _ A) in *. clearbody m.
  destruct o as [now now' f via|now|a]; cbn [mcast_step].
  - unfold observe. rewrite He.
    assert (size (<[seq f := f]> (pending m)) <= length A + 1)%nat as Hsz'.
    { destruct (pending m !! seq f) eqn:E; [rewrite map_size_insert_Some by (by eexists); lia|].
      rewrite map_size_insert_None by done. lia. }
    rewrite (proj2 (Z.ltb_ge _ _)) by lia. split_and!; cbn [expected delivered pending set_pending]; try done.
    + rewrite length_app. simpl. lia.
    + intros k g Hk. destruct (decide (k = seq f)) as [->|].
      * rewrite lookup_insert_eq in Hk. by simplify_eq.
      * rewrite lookup_insert_ne in Hk by done. by apply Hp.
    + intros s. rewrite seen_app, elem_of_app. intros [?|Hx]; apply lookup_insert_is_Some'; [right; by apply Hs|].
      left. cbn in Hx. by apply list_elem_of_singleton in Hx as ->.
  - unfold tick, buffered. rewrite He, seen_app, app_nil_r, length_app. split_and!; try done. simpl. lia.
  - assert (same_order m (on_ack a m)) as (E1 & E2 & E3 & _).
    { unfold on_ack. destruct a; [|same]. cbn [set_outstanding expected]. rewrite He.
      split_and!; try done. cbn. lia. }
    unfold buffered. rewrite E1, E2, E3, seen_app, app_nil_r, length_app. split_and!; try done. simpl. lia.
Qed.

Lemma snapshot_ordered now next A m :
  start = next -> buffered A m ->
  ordered (on_snapshot_end now next m) /\ forall s, s ∈ seen A -> got (on_snapshot_end now next m) s.
Proof.
  intros <- (He & Hd & _ & Hp & Hs). unfold on_snapshot_end.
  set (m1 := set_stats (set_pending m (filter _ (pending m))) _).
  destruct (drain_ordered 0 m1) as [H1 H2].
  - done.
  - intros k f Hk. cbn in Hk. apply map_lookup_filter_Some in Hk as [Hk Hlt]. simpl in Hlt.
    split; [by apply Hp|lia].
  - cbn zeta in *. rewrite Z.add_0_r in *. set (m2 := drain_pending start m1) in *.
    assert (forall s, s ∈ seen A -> got m2 s) as H3.
    { intros s [f Hf]%Hs. apply H2. destruct (decide (s < start)); [by left|right].
      exists f. cbn. apply map_lookup_filter_Some. by split. }
    clearbody m2. assert (forall m', same_order m2 m' -> ordered m' /\ forall s, s ∈ seen A -> got m' s) as Hsame.
    { intros m' Hm. split; [by eapply ordered_same|]. intros s Hin. eapply got_same; [done|by apply H3]. }
    destruct (min_key (pending m2)), (expected m2); apply Hsame; try same. apply request_missing_order.
Qed.

End publisher.

(** *** What a skip does *)

(** Later deliveries are at or above [expected]. *)
Definition consistent (m : McastSubscriber) : Prop := forall k f, pending m !! k = Some f -> seq f = k.

Lemma drain_later e m :
  consistent m ->
  let m' := drain_pending e m in
  consistent m' /\ exists l e', delivered m' = delivered m ++ l /\ expected m' = Some e' /\ e <= e' /\
    Forall (fun f => e <= seq f) l.
Proof.
  intros Hc. destruct (drain_loop_spec (size (pending m)) e m) as (l & H1 & H2 & _ & H3 & H4 & _); [done|].
  cbn zeta in *. fold (drain_pending e m) in *. split.
  - intros k f Hk. rewrite H4 in Hk. case_decide; [done|by apply Hc].
  - exists l, (e + zlen l). split_and!; try done; [lia|]. apply Forall_forall. intros f Hf.
    apply list_elem_of_lookup in Hf as [i Hi]. rewrite (Hc _ _ (H3 i f Hi)). lia.
Qed.

Definition later (e : Z) (m m' : McastSubscriber) : Prop :=
  consistent m' /\ exists l e', delivered m' = delivered m ++ l /\ expected m' = Some e' /\ e <= e' /\
    Forall (fun f => e <= seq f) l.

Lemma later_same e m m' : consistent m -> expected m = Some e -> same_order m m' -> later e m m'.
Proof.
  intros Hc He (E1 & E2 & E3 & _). split; [intros k f; rewrite E2; apply Hc|].
  exists [], e. rewrite E1, E3, app_nil_r. split_and!; try done; lia.
Qed.

Lemma later_trans e e1 a b c : later e a b -> expected b = Some e1 -> later e1 b c -> later e a c.
Proof.
  intros (_ & l & e' & Hd & He & Hle & Hl) He1 (Hc & l2 & e2 & Hd2 & He2 & Hle2 & Hl2).
  rewrite He in He1. simplify_eq. split; [done|]. exists (l ++ l2), e2. rewrite Hd2, Hd, <- app_assoc.
  split_and!; try done; [lia|]. apply Forall_app. split; [done|].
  eapply Forall_impl; [exact Hl2|]. simpl. lia.
Qed.

Lemma step_later e m o : consistent m -> expected m = Some e -> later e m (mcast_step m o).
Proof.
  intros Hc He. destruct o as [now now' f via|now|a]; cbn [mcast_step].
  - unfold observe. rewrite He.
    destruct (Z.ltb_spec (seq f) e); [by apply later_same; [..|same]|].
    destruct (Z.eqb_spec (seq f) e) as [E|].
    + destruct (drain_later (e + 1) (deliver m f) Hc) as (H1 & l & e' & H2 & H3 & H4 & H5).
      split; [done|]. exists (f :: l), e'. rewrite H2. split_and!; try done; [|lia|].
      * cbn. by rewrite <- app_assoc.
      * constructor; [lia|]. eapply Forall_impl; [exact H5|]. simpl. lia.
    + set (m1 := match pending m !! seq f with Some _ => _ | None => _ end).
      assert (later e m m1 /\ expected m1 = Some e) as [H1 H2].
      { unfold m1. destruct (pending m !! seq f); [by split; [apply later_same; [..|same]|]|].
        split; [|done]. split.
        - intros k g Hk. cbn in Hk. destruct (decide (k = seq f)) as [->|].
          + rewrite lookup_insert_eq in Hk. by simplify_eq.
          + rewrite lookup_insert_ne in Hk by done. by apply Hc.
        - exists [], e. cbn. rewrite app_nil_r. split_and!; try done; lia. }
      eapply later_trans; [exact H1|exact H2|]. apply later_same; [apply H1|done|apply request_missing_order].
  - apply later_same; [done..|apply tick_order].
  - unfold on_ack. destruct a as [from to sent u oldest|]; [|by apply later_same; [..|same]].
    cbn [set_outstanding expected]. rewrite He.
    destruct (negb (u =? 0) && (e <? oldest)) eqn:E.
    + reflect_cmp. set (m1 := set_gaps _ _).
      destruct (drain_later oldest m1 Hc) as (H1 & l & e' & H2 & H3 & H4 & H5). split; [done|].
      exists l, e'. rewrite H2. split_and!; try done; [lia|].
      eapply Forall_impl; [exact H5|]. simpl. lia.
    + apply later_same; [done..|]. split_and!; try done. cbn. lia.
Qed.

Lemma run_later e m ops : consistent m -> expected m = Some e -> later e m (mcast_run m ops).
Proof.
  revert e m. induction ops as [|o ops IH]; intros e m Hc He.
  { by apply later_same; [..|same]. }
  pose proof (step_later e m o Hc He) as Hstep. pose proof Hstep as (Hc' & l & e' & _ & He' & _).
  eapply later_trans; [exact Hstep|exact He'|]. by apply IH.
Qed.


(** ** Properties *)

(** C7: however the datagrams are lost, duplicated or reordered and whatever the
    recovery channel repeats, as long as nothing is reported unavailable the
    subscriber delivers the publisher's frames from the snapshot's number on, each
    once, in order, without a hole; and it delivers all it can: when every number
    below [j] has arrived, before or after the snapshot, everything below [j] has
    been delivered. *)
Theorem mcast_in_order fr delay next now A B :
  Forall (genuine fr) (A ++ B) -> Forall lossless B -> zlen A <= MAX_PENDING ->
  let m := mcast_run (on_snapshot_end now next (mcast_run (new_mcast delay) A)) B in
  exists n, expected m = Some (next + Z.of_nat n) /\ delivered m = stream fr next n /\
    forall j, (forall s, next <= s < j -> s ∈ seen (A ++ B)) -> j <= next + Z.of_nat n.
Proof.
  intros [HA HB]%Forall_app Hl Hlen. cbn zeta.
  destruct (snapshot_ordered fr next now next A _ eq_refl (run_buffered fr delay A HA Hlen)) as [H1 H2].
  destruct (run_ordered fr next _ B H1 HB Hl) as [H3 H4].
  pose proof H3 as (n & He & Hd & Hp). exists n. split; [done|]. split; [done|]. intros j Hj.
  destruct (decide (j <= next + Z.of_nat n)); [done|].
  assert (got (mcast_run (on_snapshot_end now next (mcast_run (new_mcast delay) A)) B) (next + Z.of_nat n))
    as (e & He' & Hge).
  { specialize (Hj (next + Z.of_nat n) ltac:(lia)). apply H4.
    rewrite seen_app, elem_of_app in Hj. destruct Hj as [Hin|Hin]; [left; by apply H2|by right]. }
  rewrite He in He'. simplify_eq. destruct Hge as [|[f Hf]]; [lia|]. destruct (Hp _ _ Hf). lia.
Qed.

Definition demo_frame (k : Z) : Frame := mkFrame 1 k 0 [].

Lemma mcast_in_order_witness :
  let z := of_int 0 in
  let A := [Observe z z (demo_frame 4) false; Observe z z (demo_frame 6) false] in
  let B := [Observe z z (demo_frame 7) false; Observe z z (demo_frame 5) true; Tick z;
            Observe z z (demo_frame 5) true; Acked (Retrans 5 5 1 0 0)] in
  let m := mcast_run (on_snapshot_end z 4 (mcast_run (new_mcast z) A)) B in
  delivered m = demo_frame <$> [4; 5; 6; 7] /\
  exists n, expected m = Some (4 + Z.of_nat n) /\ delivered m = stream demo_frame 4 n /\
    forall j, (forall s, 4 <= s < j -> s ∈ seen (A ++ B)) -> j <= 4 + Z.of_nat n.
Proof.
  intros z A B m. split; [by vm_compute|]. apply (mcast_in_order demo_frame z 4 z A B).
  - by repeat constructor.
  - by repeat constructor.
  - by vm_compute.
Defined.

(** [_request_missing] asks for exactly the holes that are due: the holes are the
    maximal runs of missing numbers between [expected] and the given number, they
    cover every missing number there, and one is asked for unless it is younger than
    the gap-fill delay or was asked for within the time-out.  Nothing else about the
    order of delivery changes. *)
Theorem requests_exact now e upto m :
  e <= upto ->
  let hs := holes (Z.to_nat (upto - e)) (pending m) upto e in
  let m' := request_missing now e upto m in
  requests m' = requests m ++ filter (fun h => due m now h = true) hs /\
  same_order m m' /\
  (forall k, e <= k < upto -> pending m !! k = None <-> exists h, h ∈ hs /\ h.1 <= k <= h.2) /\
  Forall (fun h => e <= h.1 <= h.2 /\ h.2 < upto /\ (h.2 + 1 = upto \/ is_Some (pending m !! (h.2 + 1)))) hs.
Proof.
  intros Hle. cbn zeta.
  destruct (holes_spec (Z.to_nat (upto - e)) (pending m) upto e ltac:(lia)) as (H1 & H2 & H3).
  split; [|split; [apply request_missing_order|split; done]].
  unfold request_missing. rewrite request_loop_holes. by apply requests_of_holes.
Qed.

Lemma requests_exact_witness :
  let m := set_pending (set_expected (new_mcast (of_int 0)) (Some 3))
             {[5 := demo_frame 5; 9 := demo_frame 9]} in
  let m' := request_missing (of_int 100) 3 9 m in
  requests m' = [(3, 4); (6, 8)] /\
  requests m' = requests m ++ filter (fun h => due m (of_int 100) h = true)
                                (holes (Z.to_nat (9 - 3)) (pending m) 9 3).
Proof.
  split; [by vm_compute|].
  apply (requests_exact (of_int 100) 3 9 (set_pending (set_expected (new_mcast (of_int 0)) (Some 3))
             {[5 := demo_frame 5; 9 := demo_frame 9]})).
  lia.
Defined.

(** when the recovery channel reports that numbers below [oldest] are gone,
    [expected] jumps to [oldest] and the whole distance is counted as unrecoverable -
    including the frames of that range that did arrive and wait in [pending].  Such a
    frame stays there for good: no later event delivers it, a repeat of it is thrown
    away as a duplicate. *)
Theorem skip_loses_received m e s f from to sent unavailable oldest ops :
  expected m = Some e -> consistent m -> pending m !! s = Some f -> e <= s < oldest -> unavailable <> 0 ->
  let m1 := on_ack (Retrans from to sent unavailable oldest) m in
  unrecoverable (stats m1) = unrecoverable (stats m) + (oldest - e) /\
  pending m1 !! s = Some f /\
  exists l1 l2, delivered m1 = delivered m ++ l1 /\ delivered (mcast_run m1 ops) = delivered m1 ++ l2 /\
    Forall (fun g => seq g <> s) (l1 ++ l2) /\
    forall now now' via, observe now now' f via m1 = set_stats m1 (c_duplicate (stats m1)).
Proof.
  intros He Hc Hs Hr Hu. cbn zeta. unfold on_ack. cbn [set_outstanding expected]. rewrite He.
  rewrite (proj2 (Z.eqb_neq _ _) Hu), (proj2 (Z.ltb_lt _ _)) by lia. cbn [negb andb].
  set (m1 := set_gaps _ _).
  destruct (drain_loop_spec (size (pending m1)) oldest m1) as (l & D1 & D2 & D3 & D4 & D5 & _); [done|].
  cbn zeta in *. fold (drain_pending oldest m1) in *.
  destruct (drain_later oldest m1 Hc) as (K1 & l' & e' & K2 & K3 & K4 & K5).
  set (m2 := drain_pending oldest m1) in *.
  destruct (run_later e' m2 ops K1 K3) as (_ & l2 & e2 & R1 & _ & _ & R4).
  split; [by rewrite D3|]. split; [rewrite D5, decide_False by lia; done|].
  exists l', l2. split_and!; try done.
  - apply Forall_app. split; [eapply Forall_impl; [exact K5|]|eapply Forall_impl; [exact R4|]]; simpl; lia.
  - intros now now' via. unfold observe. rewrite K3, (Hc _ _ Hs). by rewrite (proj2 (Z.ltb_lt _ _)) by lia.
Qed.

Lemma skip_loses_received_witness :
  let z := of_int 0 in
  let m := mcast_run (on_snapshot_end z 5 (new_mcast z)) [Observe z z (demo_frame 7) false] in
  let m1 := on_ack (Retrans 5 6 0 2 9) m in
  unrecoverable (stats m1) = 4 /\ pending m1 !! 7 = Some (demo_frame 7) /\
  unrecoverable (stats m1) = unrecoverable (stats m) + (9 - 5).
Proof.
  split; [by vm_compute|]. split; [by vm_compute|].
  apply (skip_loses_received
    (mcast_run (on_snapshot_end (of_int 0) 5 (new_mcast (of_int 0)))
       [Observe (of_int 0) (of_int 0) (demo_frame 7) false]) 5 7 (demo_frame 7) 5 6 0 2 9 []).
  - by vm_compute.
  - intros k f Hk. assert (pending (mcast_run (on_snapshot_end (of_int 0) 5 (new_mcast (of_int 0)))
       [Observe (of_int 0) (of_int 0) (demo_frame 7) false]) = {[7 := demo_frame 7]}) as E by by vm_compute.
    rewrite E in Hk. by apply lookup_singleton_Some in Hk as [<- <-].
  - by vm_compute.
  - lia.
  - done.
Defined.

End Mcast.
