(* ===== verification/Gaps.v ===== *)
(** * Data gaps and their recovery (src/src/mdfeed/gaps.py, gap_repository.py)

    The state machine of a collection gap, the evidence a recovery needs, the
    summary shown to operators, and the in-memory repository.  A time is its number
    of microseconds in UTC; a time without a zone is kept apart, because
    [_to_utc] rejects it. *)

From S2P Require Import Prelude PyStr.

Module Gaps.

Definition UNKNOWN_HISTORICAL_SYMBOL_SCOPE : pystr := lit "UNKNOWN_HISTORICAL_UNIVERSE".
Definition STAR : pystr := lit "*".
Definition KNOWN_VENUES : list pystr := [lit "UPBIT"; lit "BINANCE"; lit "KIS"; lit "KRX"].
Definition CATALOG_TABLES : list pystr :=
  [lit "instruments"; lit "trades"; lit "book_top"; lit "bars_1m"; lit "signals";
   lit "feed_stats"; lit "latest"; lit "quality_events"].
Definition KNOWN_INCIDENT_ID : pystr := lit "collection-stop-20260908".
(** 2026-09-08 05:16:54 UTC. *)
Definition KNOWN_INCIDENT_START : Z := 1788844614 * 1000000.

Inductive GapState := OPEN | ENDED_UNRECOVERED | BACKFILLING | RECOVERED.
#[export] Instance gap_state_eq_dec : EqDecision GapState.
Proof. solve_decision. Defined.

Record GapScope := mkScope { venues : list pystr; symbols : list pystr; tables : list pystr }.
#[export] Instance gap_scope_eq_dec : EqDecision GapScope.
Proof. solve_decision. Defined.

Definition known_market_scope : GapScope :=
  mkScope KNOWN_VENUES [UNKNOWN_HISTORICAL_SYMBOL_SCOPE] CATALOG_TABLES.

Definition covers_part (actual required : list pystr) : bool :=
  bool_decide (STAR ∈ actual) || forallb (fun r => bool_decide (r ∈ actual)) required.
Definition covers (a required : GapScope) : bool :=
  covers_part (venues a) (venues required) && covers_part (symbols a) (symbols required)
  && covers_part (tables a) (tables required).

Definition counts (s : GapScope) : Z * Z * Z := (zlen (venues s), zlen (symbols s), zlen (tables s)).

Record BackfillReceipt := mkReceipt
  { r_id : pystr; covered_start : Z; covered_end : Z; r_scope : GapScope; evidence_type : pystr;
    actual_reconciliation_id : pystr; authoritative_coverage_id : pystr;
    missing_intervals : Z; missing_rows : Z; verified_at : Z }.

(** The explanations a record carries. *)
Inductive Reason :=
| NoEvidenceYet | EndedNoReceipt | BackfillInProgress | ByReconciliation | Given (text : pystr).

Record GapRecord := mkGap
  { id : pystr; started_at : Z; ended_at : option Z; state : GapState; required_scope : GapScope;
    reason : Reason; backfill_receipt_id : option pystr; recovered_at : option Z;
    reconciliation_result : option pystr }.

(** GAP_ILLEGAL_TRANSITION, GAP_RECOVERY_EVIDENCE_INCOMPLETE with its detail, and the
    ValueError of a time without a zone. *)
Inductive Incomplete :=
| NoClosedInterval | EndRequired | ScopeUnresolved | EvidenceType | IdsRequired | IntervalNotCovered
| ScopeMismatch | MissingData | ReceiptMissing.
Inductive GapError := IllegalTransition | EvidenceIncomplete (d : Incomplete) | NoTimezone.

Inductive DateTime := Aware (utc_us : Z) | Naive (us : Z).

Definition to_utc (t : DateTime) : result GapError Z :=
  match t with Aware us => Ok us | Naive _ => Err NoTimezone end.

Definition known_incident : GapRecord :=
  mkGap KNOWN_INCIDENT_ID KNOWN_INCIDENT_START None OPEN known_market_scope NoEvidenceYet None None None.

(** ** Transitions *)

Definition close_gap (g : GapRecord) (ended : DateTime) : result GapError GapRecord :=
  match state g with
  | OPEN =>
      let! e := to_utc ended in
      Ok (mkGap (id g) (started_at g) (Some e) ENDED_UNRECOVERED (required_scope g) EndedNoReceipt
            None None None)
  | _ => Err IllegalTransition
  end.

Definition replace_state (g : GapRecord) (s : GapState) (r : Reason) : GapRecord :=
  mkGap (id g) (started_at g) (ended_at g) s (required_scope g) r (backfill_receipt_id g)
    (recovered_at g) (reconciliation_result g).

Definition begin_backfill (g : GapRecord) : result GapError GapRecord :=
  match state g with
  | ENDED_UNRECOVERED => Ok (replace_state g BACKFILLING BackfillInProgress)
  | _ => Err IllegalTransition
  end.

Definition non_empty {A} (l : list A) : bool := match l with [] => false | _ => true end.

Definition scope_resolved (s : GapScope) : bool :=
  let parts := venues s ++ symbols s ++ tables s in
  non_empty (venues s) && non_empty (symbols s) && non_empty (tables s)
  && negb (bool_decide (UNKNOWN_HISTORICAL_SYMBOL_SCOPE ∈ parts)) && negb (bool_decide (STAR ∈ parts)).

Definition mark_recovered (g : GapRecord) (r : BackfillReceipt) : result GapError GapRecord :=
  guard! negb (bool_decide (state g = OPEN)) else EvidenceIncomplete NoClosedInterval in
  match ended_at g with
  | None => Err (EvidenceIncomplete EndRequired)
  | Some ended =>
      guard! scope_resolved (required_scope g) && scope_resolved (r_scope r)
        else EvidenceIncomplete ScopeUnresolved in
      guard! bool_decide (evidence_type r = lit "stored_reconciliation") else EvidenceIncomplete EvidenceType in
      guard! non_empty (actual_reconciliation_id r) && non_empty (authoritative_coverage_id r)
        else EvidenceIncomplete IdsRequired in
      guard! negb ((started_at g <? covered_start r) || (covered_end r <? ended))
        else EvidenceIncomplete IntervalNotCovered in
      guard! bool_decide (r_scope r = required_scope g) else EvidenceIncomplete ScopeMismatch in
      guard! (missing_intervals r =? 0) && (missing_rows r =? 0) else EvidenceIncomplete MissingData in
      Ok (mkGap (id g) (started_at g) (Some ended) RECOVERED (required_scope g) ByReconciliation
            (Some (r_id r)) (Some (verified_at r)) (Some (actual_reconciliation_id r)))
  end.

(** [TrustedReceiptStore.get_verified] is a function of the receipt's id. *)
Definition mark_recovered_from_store (g : GapRecord) (receipt_id : pystr)
    (get_verified : pystr -> option BackfillReceipt) : result GapError GapRecord :=
  match get_verified receipt_id with
  | None => Err (EvidenceIncomplete ReceiptMissing)
  | Some r => mark_recovered g r
  end.

(** ** What is shown *)

(** [max(0, int((stop - started).total_seconds()))].  Below 2^53 microseconds the
    float [total_seconds()] and the truncation agree with integer division. *)
Definition elapsed_seconds (g : GapRecord) (now : Z) : Z :=
  Z.max 0 (Z.quot (default now (ended_at g) - started_at g) 1000000).

Record Public := mkPublic
  { p_id : pystr; p_state : GapState; p_started : Z; p_ended : option Z; p_elapsed : Z;
    p_scope : GapScope; p_counts : Z * Z * Z; p_covered : Z * Z * Z; p_receipt : option pystr;
    p_recovered_at : option Z; p_recovered : bool; p_result : option pystr; p_blocking : option Reason }.

Definition to_public (g : GapRecord) (now : Z) : Public :=
  let recovered := bool_decide (state g = RECOVERED) in
  mkPublic (id g) (state g) (started_at g) (ended_at g) (elapsed_seconds g now) (required_scope g)
    (counts (required_scope g)) (if recovered then counts (required_scope g) else (0, 0, 0))
    (backfill_receipt_id g) (recovered_at g) recovered (reconciliation_result g)
    (if recovered then None else Some (reason g)).

Record Summary := mkSummary
  { count : Z; open_count : Z; recovered_count : Z; unrecovered_duration_seconds : Z;
    healthy : bool; complete : bool; items : list Public }.

Definition max_or_0 (l : list Z) : Z :=
  match l with [] => 0 | x :: l => foldl Z.max x l end.

Definition summarize (gs : list GapRecord) (now : Z) : Summary :=
  let items := (fun g => to_public g now) <$> gs in
  let open_items := filter (fun p => p_state p <> RECOVERED) items in
  mkSummary (zlen items) (zlen open_items) (zlen items - zlen open_items)
    (max_or_0 (p_elapsed <$> open_items)) (zlen open_items =? 0) (negb (non_empty open_items)) items.

(** ** The in-memory repository *)

(** [dict] of records: insertion order, replaced in place. *)
Fixpoint save_in (g : GapRecord) (l : list GapRecord) : list GapRecord :=
  match l with
  | [] => [g]
  | x :: l => if bool_decide (id x = id g) then g :: l else x :: save_in g l
  end.

Definition Repository := list GapRecord.
Definition memory_repository (records : list GapRecord) : Repository :=
  foldl (fun l g => save_in g l) [] records.
Definition get (repo : Repository) (gap_id : pystr) : option GapRecord :=
  hd_error (filter (fun g => id g = gap_id) repo).
Definition save (repo : Repository) (g : GapRecord) : Repository := save_in g repo.

Fixpoint insert_gap (g : GapRecord) (l : list GapRecord) : list GapRecord :=
  match l with
  | [] => [g]
  | x :: l => if started_at g <=? started_at x then g :: x :: l else x :: insert_gap g l
  end.
(** [sorted(..., key=started_at)], stable. *)
Definition list_gaps (repo : Repository) : list GapRecord := foldr insert_gap [] repo.

(** ** Lives of a gap *)

Inductive action :=
| Close (ended : DateTime) | Backfill | Recover (r : BackfillReceipt) | RecoverById (receipt_id : pystr).

(** An action that raises leaves the record as it was. *)
Definition act (store : pystr -> option BackfillReceipt) (g : GapRecord) (a : action) : GapRecord :=
  match match a with
        | Close t => close_gap g t
        | Backfill => begin_backfill g
        | Recover r => mark_recovered g r
        | RecoverById i => mark_recovered_from_store g i store
        end with
  | Ok g => g
  | Err _ => g
  end.

Definition live (store : pystr -> option BackfillReceipt) (g : GapRecord) (acts : list action) : GapRecord :=
  foldl (act store) g acts.

(** ** Lemmas *)

(** What a receipt must say about a gap that ended at [ended]. *)
Definition evidence (g : GapRecord) (ended : Z) (r : BackfillReceipt) : Prop :=
  covered_start r <= started_at g /\ ended <= covered_end r /\ r_scope r = required_scope g /\
  scope_resolved (required_scope g) = true /\ evidence_type r = lit "stored_reconciliation" /\
  actual_reconciliation_id r <> [] /\ authoritative_coverage_id r <> [] /\
  missing_intervals r = 0 /\ missing_rows r = 0.

Lemma non_empty_true {A} (l : list A) : non_empty l = true <-> l <> [].
Proof. by destruct l. Qed.

Lemma mark_recovered_ok g r g' :
  mark_recovered g r = Ok g' <->
  exists ended, state g <> OPEN /\ ended_at g = Some ended /\ evidence g ended r /\
    g' = mkGap (id g) (started_at g) (Some ended) RECOVERED (required_scope g) ByReconciliation
           (Some (r_id r)) (Some (verified_at r)) (Some (actual_reconciliation_id r)).
Proof.
  unfold mark_recovered, evidence. split.
  - intros H. case_bool_decide; [done|]. simpl in H. destruct (ended_at g) as [e|]; [|done]. exists e.
    destruct (scope_resolved (required_scope g)) eqn:E1; [|done].
    destruct (scope_resolved (r_scope r)) eqn:E2; [|done]. simpl in H.
    case_bool_decide; [|done]. destruct (non_empty _ && non_empty _) eqn:E3; [|done].
    destruct (_ || _) eqn:E4; [done|]. simpl in H. case_bool_decide; [|done].
    destruct (_ && _) eqn:E5 in H; [|done]. reflect_cmp. rewrite non_empty_true in *.
    simplify_eq. split_and!; (done || lia).
  - intros (e & Hs & He & (H1 & H2 & H3 & H4 & H5 & H6 & H7 & H8 & H9) & ->).
    rewrite bool_decide_eq_false_2 by done. simpl. rewrite He, H3, H4. simpl.
    rewrite bool_decide_eq_true_2 by done.
    rewrite !(proj2 (non_empty_true _)) by done. simpl.
    rewrite !(proj2 (Z.ltb_ge _ _)) by done. simpl.
    rewrite bool_decide_eq_true_2 by done. by rewrite H8, H9.
Qed.

(** Nothing but a receipt that fits brings a gap to RECOVERED. *)
Definition gap_inv (g0 g : GapRecord) (used : list BackfillReceipt) : Prop :=
  id g = id g0 /\ started_at g = started_at g0 /\ required_scope g = required_scope g0 /\
  (state g = OPEN <-> ended_at g = None) /\
  (state g <> RECOVERED -> backfill_receipt_id g = None) /\
  (state g = RECOVERED -> exists ended r, ended_at g = Some ended /\ r ∈ used /\ evidence g ended r /\
     backfill_receipt_id g = Some (r_id r) /\ recovered_at g = Some (verified_at r)).

Definition receipts (store : pystr -> option BackfillReceipt) (acts : list action) : list BackfillReceipt :=
  omap (fun a => match a with Recover r => Some r | RecoverById i => store i | _ => None end) acts.

Lemma gap_inv_more g0 g u u' : gap_inv g0 g u -> (forall r, r ∈ u -> r ∈ u') -> gap_inv g0 g u'.
Proof.
  intros (? & ? & ? & ? & ? & H) Hu. split_and!; try done; try tauto. intros Hs.
  destruct (H Hs) as (e & r & ? & ? & ?). exists e, r. intuition.
Qed.

Lemma mark_recovered_inv g0 g u r g' :
  gap_inv g0 g u -> mark_recovered g r = Ok g' -> gap_inv g0 g' (u ++ [r]).
Proof.
  intros (H1 & H2 & H3 & H4 & H5 & H6) (e & Hs & He & Hev & ->)%mark_recovered_ok.
  split_and!; try done. intros _. exists e, r.
  split; [done|]. split; [apply elem_of_app; right; by left|]. split; [exact Hev|done].
Qed.

Lemma act_inv store g0 g u a :
  gap_inv g0 g u -> gap_inv g0 (act store g a) (u ++ receipts store [a]).
Proof.
  intros Hi. assert (gap_inv g0 g (u ++ receipts store [a])) as Hi'.
  { eapply gap_inv_more; [done|set_solver]. }
  unfold act. destruct a as [t| |r|i].
  - unfold close_gap. destruct (state g) eqn:Hs; try done. destruct t as [us|]; [|done]. cbn [to_utc rbind].
    destruct Hi' as (H1 & H2 & H3 & H4 & H5 & H6). by split_and!.
  - unfold begin_backfill. destruct (state g) eqn:Hs; try done.
    destruct Hi' as (H1 & H2 & H3 & H4 & H5 & H6). rewrite Hs in *. split_and!; try done.
    + simpl. split; [done|]. intros Hn. by apply H4 in Hn.
    + intros _. by apply H5.
  - destruct (mark_recovered g r) as [g'|] eqn:Hm; [|done]. by eapply mark_recovered_inv.
  - unfold mark_recovered_from_store, receipts in *. csimpl in *. destruct (store i) as [r|]; [|done].
    destruct (mark_recovered g r) as [g'|] eqn:Hm; [|done]. by eapply mark_recovered_inv.
Qed.

Lemma live_inv store g0 acts :
  state g0 = OPEN -> ended_at g0 = None -> backfill_receipt_id g0 = None ->
  gap_inv g0 (live store g0 acts) (receipts store acts).
Proof.
  intros Hs He Hb. induction acts as [|a acts IH] using rev_ind.
  - unfold gap_inv. cbn [live foldl]. rewrite Hs. split_and!; done.
  - unfold live in *. rewrite foldl_app. unfold receipts in *. rewrite omap_app. by apply act_inv.
Qed.

Lemma foldl_max_le x l : x <= foldl Z.max x l /\ Forall (fun y => y <= foldl Z.max x l) l.
Proof.
  revert x. induction l as [|y l IH]; intros x; simpl; [split; [lia|constructor]|].
  destruct (IH (Z.max x y)) as [H1 H2]. split; [lia|]. constructor; [lia|done].
Qed.

Lemma foldl_max_in x l : foldl Z.max x l = x \/ foldl Z.max x l ∈ l.
Proof.
  revert x. induction l as [|y l IH]; intros x; simpl; [by left|].
  destruct (IH (Z.max x y)) as [E|E]; [|right; by right]. rewrite E.
  destruct (Z.max_spec x y) as [[_ ->]|[_ ->]]; [right; by left|by left].
Qed.

Lemma max_or_0_spec l :
  Forall (fun y => y <= max_or_0 l) l /\ (max_or_0 l ∈ l \/ l = [] /\ max_or_0 l = 0).
Proof.
  destruct l as [|x l]; [split; [constructor|by right]|]. simpl.
  destruct (foldl_max_le x l) as [H1 H2]. split; [by constructor|]. left.
  destruct (foldl_max_in x l) as [->|?]; [by left|by right].
Qed.


Lemma known_scope_unresolved : scope_resolved known_market_scope = false.
Proof. by vm_compute. Qed.

(** ** Properties *)

(** however the operations are called, a gap that starts open keeps its id, its
    start and its required scope, has an end exactly when it is not open, and is
    RECOVERED only on the evidence of one of the receipts presented, which covers the
    whole closed interval, has exactly the required and fully named scope, names its
    reconciliation and coverage and reports nothing missing; before that it carries no
    receipt.  The known incident, whose symbols are unknown, is never recovered. *)
Theorem recovered_has_evidence store g0 acts :
  state g0 = OPEN -> ended_at g0 = None -> backfill_receipt_id g0 = None ->
  let g := live store g0 acts in
  id g = id g0 /\ started_at g = started_at g0 /\ required_scope g = required_scope g0 /\
  (state g = OPEN <-> ended_at g = None) /\
  (state g <> RECOVERED -> backfill_receipt_id g = None) /\
  (state g = RECOVERED -> exists ended r, ended_at g = Some ended /\ r ∈ receipts store acts /\
     evidence g ended r /\ backfill_receipt_id g = Some (r_id r) /\ recovered_at g = Some (verified_at r)) /\
  state (live store known_incident acts) <> RECOVERED.
Proof.
  intros Hs He Hb. cbn zeta. destruct (live_inv store g0 acts Hs He Hb) as (H1 & H2 & H3 & H4 & H5 & H6).
  split_and!; try done; try tauto.
  intros Hr. destruct (live_inv store known_incident acts eq_refl eq_refl eq_refl) as (_ & _ & K3 & _ & _ & K6).
  destruct (K6 Hr) as (e & r & _ & _ & (_ & _ & _ & Hres & _) & _).
  rewrite K3 in Hres. change (required_scope known_incident) with known_market_scope in Hres.
  by rewrite known_scope_unresolved in Hres.
Qed.

Definition demo_scope : GapScope := mkScope [lit "UPBIT"] [lit "KRW-BTC"] [lit "trades"].
Definition demo_gap : GapRecord := mkGap (lit "g") 10 None OPEN demo_scope NoEvidenceYet None None None.
Definition demo_receipt : BackfillReceipt :=
  mkReceipt (lit "r") 5 30 demo_scope (lit "stored_reconciliation") (lit "run") (lit "cov") 0 0 40.

Lemma recovered_has_evidence_witness :
  let acts := [Recover demo_receipt; Close (Aware 20); Close (Aware 99); Backfill; Recover demo_receipt] in
  let g := live (fun _ => None) demo_gap acts in
  state g = RECOVERED /\ ended_at g = Some 20 /\
  (id g = id demo_gap /\ started_at g = started_at demo_gap).
Proof.
  split; [by vm_compute|]. split; [by vm_compute|].
  destruct (recovered_has_evidence (fun _ => None) demo_gap
    [Recover demo_receipt; Close (Aware 20); Close (Aware 99); Backfill; Recover demo_receipt]) as (H1 & H2 & _);
    by vm_compute.
Defined.

(** [mark_recovered] succeeds exactly on a closed gap whose receipt is complete
    evidence, and then keeps the interval and the scope and records the receipt; in
    every other case it reports incomplete evidence and nothing changes.  Closing is
    possible exactly once, and only a closed, unrecovered gap can enter backfill. *)
Theorem transitions_exact g r t :
  (forall g', mark_recovered g r = Ok g' <->
     exists ended, state g <> OPEN /\ ended_at g = Some ended /\ evidence g ended r /\
       g' = mkGap (id g) (started_at g) (Some ended) RECOVERED (required_scope g) ByReconciliation
              (Some (r_id r)) (Some (verified_at r)) (Some (actual_reconciliation_id r))) /\
  (forall e, mark_recovered g r = Err e -> exists d, e = EvidenceIncomplete d) /\
  (is_Some (match close_gap g t with Ok g' => Some g' | Err _ => None end)
     <-> state g = OPEN /\ exists us, t = Aware us) /\
  (forall g', close_gap g t = Ok g' -> state g' = ENDED_UNRECOVERED /\ close_gap g' t = Err IllegalTransition) /\
  (is_Some (match begin_backfill g with Ok g' => Some g' | Err _ => None end) <-> state g = ENDED_UNRECOVERED).
Proof.
  split; [intros; apply mark_recovered_ok|]. split; [|split; [|split]].
  - unfold mark_recovered. intros e. intros. repeat (case_match; simplify_eq; eauto).
  - unfold close_gap, to_utc. destruct (state g), t; simpl; split; intros H.
    all: try (by destruct H as [? H]). all: try (by eexists). all: try (by destruct H as (? & ? & ?)). by eauto.
  - unfold close_gap, to_utc. intros g' H. destruct (state g), t; simpl in H; by simplify_eq.
  - unfold begin_backfill. destruct (state g); split; intros H; try done; try (by destruct H); by eexists.
Qed.

(** the summary's counts partition the records by whether they are recovered, it
    is healthy and complete exactly when every record is recovered, and the reported
    duration is an upper bound of the unrecovered gaps' durations which one of them
    attains. *)
Theorem summarize_spec gs now :
  let s := summarize gs now in
  let unrecovered := filter (fun g => state g <> RECOVERED) gs in
  count s = zlen gs /\ open_count s = zlen unrecovered /\ recovered_count s = zlen gs - zlen unrecovered /\
  (healthy s = true <-> Forall (fun g => state g = RECOVERED) gs) /\ complete s = healthy s /\
  Forall (fun g => elapsed_seconds g now <= unrecovered_duration_seconds s) unrecovered /\
  (unrecovered = [] /\ unrecovered_duration_seconds s = 0 \/
   exists g, g ∈ unrecovered /\ elapsed_seconds g now = unrecovered_duration_seconds s).
Proof.
  cbn zeta.
  assert (filter (fun p => p_state p <> RECOVERED) ((fun g => to_public g now) <$> gs)
          = (fun g => to_public g now) <$> filter (fun g => state g <> RECOVERED) gs) as Hf.
  { induction gs as [|g gs IH]; [done|]. rewrite fmap_cons, !filter_cons. simpl.
    case_decide; rewrite ?fmap_cons, IH; done. }
  unfold summarize. cbn [count open_count recovered_count healthy complete unrecovered_duration_seconds].
  rewrite Hf, !length_fmap. set (un := filter _ gs).
  assert (un = [] <-> Forall (fun g => state g = RECOVERED) gs) as Hun.
  { rewrite Forall_forall. split.
    - intros Hnil g Hg. destruct (decide (state g = RECOVERED)); [done|].
      assert (g ∈ un) as Hin by by apply list_elem_of_filter. rewrite Hnil in Hin. by apply not_elem_of_nil in Hin.
    - intros Hall. apply elem_of_nil_inv. intros g [Hne Hg]%list_elem_of_filter. by apply Hne, Hall. }
  destruct (max_or_0_spec (p_elapsed <$> ((fun g => to_public g now) <$> un))) as [H1 H2].
  split_and!; try done.
  - rewrite <- Hun, Z.eqb_eq. destruct un; simpl; split; (done || lia).
  - destruct un; [done|]. cbn [fmap list_fmap non_empty negb length]. symmetry. apply Z.eqb_neq. lia.
  - rewrite !Forall_fmap in H1. exact H1.
  - destruct H2 as [Hin|[Hnil H0]].
    + right. apply list_elem_of_fmap in Hin as (p & Hp & (g & -> & Hg)%list_elem_of_fmap). by exists g.
    + left. split; [|done]. by destruct un.
Qed.

End Gaps.
