(* ===== verification/Ledger.v ===== *)
(** * The order ledger (src/src/mdfeed/ledger.py)

    Orders, fills, baselines and the audit log of the SQLite file as one record;
    every method under the lock is one function of it.  [now] is the clock reading.
    Ids are AUTOINCREMENT and nothing is ever deleted, so the next id follows from
    the number of rows. *)

From S2P Require Import Prelude PyStr PyFloat.

Module Ledger.

Inductive State := PENDING_SUBMIT | ACCEPTED | PARTIAL | FILLED | REJECTED | UNKNOWN | NOT_SENT | EXPIRED.
#[export] Instance state_eq_dec : EqDecision State.
Proof. solve_decision. Defined.

Definition OPEN_STATES : list State := [PENDING_SUBMIT; ACCEPTED; PARTIAL; UNKNOWN].
Definition LIVE_STATES : list State := [ACCEPTED; PARTIAL; FILLED; EXPIRED].
Definition FILLABLE_STATES : list State := [ACCEPTED; PARTIAL].
Definition UNKNOWN_GRACE_S : float := of_int 30.
Definition NOTICE_GRACE_S : float := of_int 60.

Inductive Side := Buy | Sell.
#[export] Instance side_eq_dec : EqDecision Side.
Proof. solve_decision. Defined.

(** The CHECK on [side]. *)
Definition side_of (s : pystr) : option Side :=
  if bool_decide (s = lit "buy") then Some Buy else if bool_decide (s = lit "sell") then Some Sell else None.

Record Order := mkOrder
  { id : Z; client_order_id : pystr; trade_date : pystr; symbol : pystr; side : Side; qty : Z; price : Z;
    est_price : Z; state : State; odno : option pystr; message : option pystr;
    filled_qty : Z; filled_amt : Z; created_ts : float; updated_ts : float }.

Inductive Source := DayTotals | Notice.
Record Fill := mkFill { f_order : Z; f_qty : Z; f_amt : Z; f_source : Source; f_ts : float }.
Record NoticeFill := mkNotice { n_key : pystr; n_order : Z; n_qty : Z; n_amt : Z; n_ts : float }.
Record Totals := mkTotals { ord_qty : Z; ccld_qty : Z; ccld_amt : Z }.

Inductive Event :=
| EvCreated (o : Z) | EvState (s : State) (o : Z) | EvRecovered (o : Z) | EvHoldings (date : pystr)
| EvResolvedSent (o : Z) | EvResolvedNotSent (o : Z) | EvFill (o q a : Z) (s : Source)
| EvNoticeUnmatched (odno : pystr) | EvNoticeIgnored (o : Z) | EvExpired (o unfilled : Z) | EvDayClosed (date : pystr).

Record Summary := mkSummary
  { orders_sent : Z; orders_rejected : Z; orders_not_sent : Z; s_filled_qty : Z; s_filled_amt : Z;
    expired_orders : Z; expired_qty : Z }.

Record Ledger := mkLedger
  { orders : list Order; fills : list Fill; totals_base : gmap (pystr * pystr * bool) Totals;
    holdings_base : list (pystr * pystr * Z); holdings_taken : gset pystr;
    notices : list NoticeFill; closed_days : gmap pystr (float * Summary); events : list Event }.

Definition new_ledger : Ledger := mkLedger [] [] ∅ [] ∅ [] ∅ [].

Definition set_orders (l : Ledger) os := mkLedger os (fills l) (totals_base l) (holdings_base l)
  (holdings_taken l) (notices l) (closed_days l) (events l).
Definition add_fill (l : Ledger) f := mkLedger (orders l) (fills l ++ [f]) (totals_base l) (holdings_base l)
  (holdings_taken l) (notices l) (closed_days l) (events l).
Definition add_notice (l : Ledger) n := mkLedger (orders l) (fills l) (totals_base l) (holdings_base l)
  (holdings_taken l) (notices l ++ [n]) (closed_days l) (events l).
Definition event (l : Ledger) e := mkLedger (orders l) (fills l) (totals_base l) (holdings_base l)
  (holdings_taken l) (notices l) (closed_days l) (events l ++ [e]).

Definition side_key (s : Side) : bool := bool_decide (s = Buy).

(** [UPDATE orders ... WHERE id=?] *)
Definition update (i : Z) (f : Order -> Order) (l : Ledger) : Ledger :=
  set_orders l ((fun o => if id o =? i then f o else o) <$> orders l).

Definition with_state (s : State) (now : float) (o : Order) : Order :=
  mkOrder (id o) (client_order_id o) (trade_date o) (symbol o) (side o) (qty o) (price o) (est_price o) s
    (odno o) (message o) (filled_qty o) (filled_amt o) (created_ts o) now.

Definition set_state (i : Z) (s : State) (now : float) (l : Ledger) : Ledger := update i (with_state s now) l.

(** ** Recording *)

Definition by_client_id (l : Ledger) (cid : pystr) : option Order :=
  find (fun o => bool_decide (client_order_id o = cid)) (orders l).
Definition order (l : Ledger) (i : Z) : option Order := find (fun o => id o =? i) (orders l).

(** An INSERT that breaks a CHECK. *)
Inductive LedgerError := IntegrityError.

Definition new_order (cid date sym side_text : pystr) (q p est : Z) (now : float) (l : Ledger)
    : result LedgerError (Ledger * Order * bool) :=
  match by_client_id l cid with
  | Some o => Ok (l, o, false)
  | None =>
      match side_of side_text with
      | None => Err IntegrityError
      | Some sd =>
          guard! (0 <? q) && (0 <=? p) else IntegrityError in
          let o := mkOrder (zlen (orders l) + 1) cid date sym sd q p (if est =? 0 then p else est)
                     PENDING_SUBMIT None None 0 0 now now in
          Ok (event (set_orders l (orders l ++ [o])) (EvCreated (id o)), o, true)
      end
  end.

Definition coalesce {A} (a b : option A) : option A := match a with Some _ => a | None => b end.

Definition mark (i : Z) (s : State) (od msg : option pystr) (now : float) (l : Ledger) : Ledger :=
  event (update i (fun o =>
    mkOrder (id o) (client_order_id o) (trade_date o) (symbol o) (side o) (qty o) (price o) (est_price o) s
      (coalesce od (odno o)) (coalesce msg (message o)) (filled_qty o) (filled_amt o) (created_ts o) now) l)
    (EvState s i).

(** Every order of [us] to the state [s], one UPDATE and one event each. *)
Definition resolve_all (s : State) (ev : Order -> Event) (now : float) (us : list Order) (l : Ledger) : Ledger :=
  foldl (fun l o => event (set_state (id o) s now l) (ev o)) l us.

Definition recover_pending (now : float) (l : Ledger) : Ledger * Z :=
  let rows := filter (fun o => state o = PENDING_SUBMIT) (orders l) in
  (resolve_all UNKNOWN (EvRecovered ∘ id) now rows l, zlen rows).

(** ** Queries *)

Definition open_order (l : Ledger) (date sym : pystr) (sd : Side) : option Order :=
  find (fun o => bool_decide (trade_date o = date) && bool_decide (symbol o = sym)
                 && bool_decide (side o = sd) && bool_decide (state o ∈ OPEN_STATES)) (orders l).

Definition sum (f : Order -> Z) (os : list Order) : Z := foldr (fun o n => f o + n) 0 os.

Definition notional_today (l : Ledger) (date : pystr) : Z :=
  sum (fun o => Z.max (qty o * est_price o) (filled_amt o))
    (filter (fun o => trade_date o = date /\ state o ∉ [REJECTED; NOT_SENT]) (orders l)).

Definition keys_to_watch (l : Ledger) (date : pystr) : list (pystr * Side) :=
  remove_dups ((fun o => (symbol o, side o)) <$>
    filter (fun o => trade_date o = date /\ state o ∉ [REJECTED; NOT_SENT]) (orders l)).

(** ** Baselines *)

Definition totals_baseline (l : Ledger) (date sym : pystr) (sd : Side) : option Totals :=
  totals_base l !! (date, sym, side_key sd).

(** INSERT OR IGNORE *)
Definition set_totals_baseline (date sym : pystr) (sd : Side) (t : Totals) (l : Ledger) : Ledger :=
  match totals_baseline l date sym sd with
  | Some _ => l
  | None => mkLedger (orders l) (fills l) (<[(date, sym, side_key sd) := t]> (totals_base l))
              (holdings_base l) (holdings_taken l) (notices l) (closed_days l) (events l)
  end.

Definition set_holdings_baseline (date : pystr) (holdings : list (pystr * Z)) (l : Ledger) : Ledger :=
  if bool_decide (date ∈ holdings_taken l) then l
  else event (mkLedger (orders l) (fills l) (totals_base l)
                (holdings_base l ++ ((fun h => (date, h.1, h.2)) <$> holdings))
                ({[date]} ∪ holdings_taken l) (notices l) (closed_days l) (events l)) (EvHoldings date).

(** ** Reconciliation of the broker's totals *)

Inductive Break :=
| NoBaseline | UnexplainedBrokerOrders (extra : Z) | LedgerOrdersMissing (missing : Z)
| BrokerFillsBelowLedger (delta : Z) | FillsExceedOrders (delta room : Z).

Definition live_in (ss : list State) (os : list Order) : list Order := filter (fun o => state o ∈ ss) os.

Fixpoint insert_by_id (o : Order) (l : list Order) : list Order :=
  match l with [] => [o] | x :: l => if id o <=? id x then o :: x :: l else x :: insert_by_id o l end.
Definition sort_by_id (l : list Order) : list Order := foldr insert_by_id [] l.

(** [round(amt_delta * take / delta)] *)
Definition share (amt_delta take delta : Z) : Z := fround (int_div (amt_delta * take) delta).

(** The parts the open orders get: (order, quantity, amount). *)
Fixpoint allocate (os : list Order) (delta amt_delta left amt_left : Z) : list (Order * Z * Z) :=
  match os with
  | [] => []
  | o :: os =>
      if left =? 0 then []
      else
        let take := Z.min (qty o - filled_qty o) left in
        let amt := if take =? left then amt_left else share amt_delta take delta in
        (o, take, amt) :: allocate os delta amt_delta (left - take) (amt_left - amt)
  end.

Definition fill_order (take amt : Z) (now : float) (o0 o : Order) : Order :=
  let filled := filled_qty o0 + take in
  mkOrder (id o) (client_order_id o) (trade_date o) (symbol o) (side o) (qty o) (price o) (est_price o)
    (if filled =? qty o0 then FILLED else PARTIAL) (odno o) (message o) filled (filled_amt o + amt)
    (created_ts o) now.

Definition book_fill (src : Source) (now : float) (l : Ledger) (p : Order * Z * Z) : Ledger :=
  let '(o, take, amt) := p in
  event (update (id o) (fill_order take amt now o) (add_fill l (mkFill (id o) take amt src now)))
    (EvFill (id o) take amt src).

Definition notice_sum (l : Ledger) (since : float) (ids : list Z) : Z :=
  foldr (fun n a => n_qty n + a) 0 (filter (fun n => fgt (n_ts n) since = true /\ n_order n ∈ ids) (notices l)).

(** The second half of [_apply_totals]: fills of the live orders. *)
Definition apply_fills (live : list Order) (b_fill b_amt : Z) (breaks : list Break) (now : float) (l : Ledger)
    : Ledger * list Break :=
  let delta := b_fill - sum filled_qty live in
  let amt_delta := b_amt - sum filled_amt live in
  if delta <? 0 then
    let recent := notice_sum l (fsub now NOTICE_GRACE_S) (id <$> live) in
    if - delta <=? recent then (l, breaks) else (l, breaks ++ [BrokerFillsBelowLedger delta])
  else if delta =? 0 then (l, breaks)
  else
    let open_live := filter (fun o => state o ∈ FILLABLE_STATES /\ filled_qty o < qty o) live in
    let room := sum (fun o => qty o - filled_qty o) open_live in
    if room <? delta then (l, breaks ++ [FillsExceedOrders delta room])
    else (foldl (book_fill DayTotals now) l (allocate open_live delta amt_delta delta amt_delta), breaks).

Definition rows_of (l : Ledger) (date sym : pystr) (sd : Side) : list Order :=
  filter (fun o => trade_date o = date /\ symbol o = sym /\ side o = sd) (orders l).

Definition apply_totals (date sym : pystr) (sd : Side) (broker : Totals) (now : float) (l : Ledger)
    : Ledger * list Break :=
  match totals_baseline l date sym sd with
  | None => (l, [NoBaseline])
  | Some base =>
      let b_ord := ord_qty broker - ord_qty base in
      let b_fill := ccld_qty broker - ccld_qty base in
      let b_amt := ccld_amt broker - ccld_amt base in
      let rows := rows_of l date sym sd in
      let live := live_in LIVE_STATES rows in
      let unknown := live_in [UNKNOWN] rows in
      let extra := b_ord - sum qty live in
      if 0 <? extra then
        if negb (bool_decide (unknown = [])) && (sum qty unknown =? extra) then
          let l := resolve_all ACCEPTED (EvResolvedSent ∘ id) now unknown l in
          let live := sort_by_id (live ++ (with_state ACCEPTED now <$> unknown)) in
          apply_fills live b_fill b_amt [] now l
        else (l, [UnexplainedBrokerOrders extra])
      else
        let breaks := if extra <? 0 then [LedgerOrdersMissing (- extra)] else [] in
        let late := filter (fun o => fgt (fsub now (created_ts o)) UNKNOWN_GRACE_S = true) unknown in
        let l := resolve_all NOT_SENT (EvResolvedNotSent ∘ id) now late l in
        apply_fills live b_fill b_amt breaks now l
  end.

(** ** Notices *)

Definition lstrip0 (s : pystr) : pystr := lstrip_by (Z.eqb 48) s.

Inductive NoticeResult := Applied | Duplicate | Unmatched | Ignored.

Definition apply_notice (date od : pystr) (q p : Z) (key : pystr) (now : float) (l : Ledger)
    : Ledger * NoticeResult :=
  if existsb (fun n => bool_decide (n_key n = key)) (notices l) then (l, Duplicate)
  else
    match find (fun o => bool_decide (trade_date o = date) &&
                  match odno o with Some x => bool_decide (lstrip0 x = lstrip0 od) | None => false end)
            (orders l) with
    | None => (event l (EvNoticeUnmatched od), Unmatched)
    | Some o =>
        if negb (bool_decide (state o ∈ FILLABLE_STATES)) || (q <=? 0) || (qty o - filled_qty o <? q)
        then (event l (EvNoticeIgnored (id o)), Ignored)
        else (book_fill Notice now (add_notice l (mkNotice key (id o) q (q * p) now)) (o, q, q * p), Applied)
    end.

(** ** Holdings *)

Definition add_to (k : pystr) (q : Z) (m : gmap pystr Z) : gmap pystr Z := <[k := default 0 (m !! k) + q]> m.

Definition signed (s : Side) (q : Z) : Z := match s with Buy => q | Sell => - q end.

(** The positions with zeros left out; grouping by symbol and side adds the same
    terms in another order. *)
Definition expected_holdings (l : Ledger) (date : pystr) : gmap pystr Z :=
  let base := foldl (fun m h => if bool_decide (h.1.1 = date) then <[h.1.2 := h.2]> m else m) ∅ (holdings_base l) in
  filter (fun x => x.2 <> 0)
    (foldl (fun m o => if bool_decide (trade_date o = date) then add_to (symbol o) (signed (side o) (filled_qty o)) m
                       else m) base (orders l)).

Definition recent_notices (l : Ledger) (date : pystr) (now : float) : gmap pystr Z :=
  foldl (fun m n =>
    match order l (n_order n) with
    | Some o =>
        if bool_decide (trade_date o = date) && fgt (n_ts n) (fsub now NOTICE_GRACE_S)
        then add_to (symbol o) (signed (side o) (n_qty n)) m else m
    | None => m
    end) ∅ (notices l).

(** The mismatch of one symbol, if it is one. *)
Definition mismatch (exp broker recent : gmap pystr Z) (s : pystr) : bool :=
  let diff := default 0 (exp !! s) - default 0 (broker !! s) in
  let pend := default 0 (recent !! s) in
  negb ((diff =? 0) || ((0 <? diff * pend) && (Z.abs diff <=? Z.abs pend))).

Definition reconcile_holdings (l : Ledger) (date : pystr) (broker : gmap pystr Z) (now : float) : gset pystr :=
  let exp := expected_holdings l date in
  filter (fun s => mismatch exp broker (recent_notices l date now) s = true) (dom exp ∪ dom broker).

(** ** End of day *)

Inductive CloseResult := Closed (ts : float) (s : Summary) | UnknownOrders (ids : list Z) | OpenBreaks (n : Z).

Definition expire_all (now : float) (os : list Order) (l : Ledger) : Ledger :=
  resolve_all EXPIRED (fun o => EvExpired (id o) (qty o - filled_qty o)) now os l.

Definition close_day (date : pystr) (open_breaks : Z) (now : float) (l : Ledger) : Ledger * CloseResult :=
  match closed_days l !! date with
  | Some (ts, s) => (l, Closed ts s)
  | None =>
      let rows := take (Z.to_nat 100000) (rev (filter (fun o => trade_date o = date) (orders l))) in
      let unresolved := live_in [PENDING_SUBMIT; UNKNOWN] rows in
      if negb (bool_decide (unresolved = [])) then (l, UnknownOrders (id <$> unresolved))
      else if negb (open_breaks =? 0) then (l, OpenBreaks open_breaks)
      else
        let expired := live_in FILLABLE_STATES rows in
        let sent := live_in LIVE_STATES rows in
        let l := expire_all now expired l in
        let s := mkSummary (zlen sent) (zlen (live_in [REJECTED] rows)) (zlen (live_in [NOT_SENT] rows))
                   (sum filled_qty sent) (sum filled_amt sent) (zlen expired)
                   (sum (fun o => qty o - filled_qty o) expired) in
        (event (mkLedger (orders l) (fills l) (totals_base l) (holdings_base l) (holdings_taken l) (notices l)
                  (<[date := (now, s)]> (closed_days l)) (events l)) (EvDayClosed date), Closed now s)
  end.


(** ** Sequences of operations *)

Inductive op :=
| NewOrder (cid date sym side_text : pystr) (q p est : Z) (now : float)
| Mark (i : Z) (s : State) (od msg : option pystr) (now : float)
| RecoverPending (now : float)
| SetTotalsBaseline (date sym : pystr) (sd : Side) (t : Totals)
| SetHoldingsBaseline (date : pystr) (h : list (pystr * Z))
| ApplyTotals (date sym : pystr) (sd : Side) (t : Totals) (now : float)
| ApplyNotice (date od : pystr) (q p : Z) (key : pystr) (now : float)
| CloseDay (date : pystr) (open_breaks : Z) (now : float).

Definition step (l : Ledger) (o : op) : Ledger :=
  match o with
  | NewOrder cid date sym st q p est now =>
      match new_order cid date sym st q p est now l with Ok (l', _, _) => l' | Err _ => l end
  | Mark i s od msg now => mark i s od msg now l
  | RecoverPending now => (recover_pending now l).1
  | SetTotalsBaseline date sym sd t => set_totals_baseline date sym sd t l
  | SetHoldingsBaseline date h => set_holdings_baseline date h l
  | ApplyTotals date sym sd t now => (apply_totals date sym sd t now l).1
  | ApplyNotice date od q p key now => (apply_notice date od q p key now l).1
  | CloseDay date b now => (close_day date b now l).1
  end.

Definition run (l : Ledger) (ops : list op) : Ledger := foldl step l ops.

(** ** The invariant *)

Definition fill_sum (f : Fill -> Z) (i : Z) (fs : list Fill) : Z :=
  foldr (fun x n => if f_order x =? i then f x + n else n) 0 fs.

Definition order_ok (fs : list Fill) (o : Order) : Prop :=
  0 < qty o /\ 0 <= filled_qty o <= qty o /\
  filled_qty o = fill_sum f_qty (id o) fs /\ filled_amt o = fill_sum f_amt (id o) fs.

Record wf (l : Ledger) : Prop := mkWf
  { wf_ids : id <$> orders l = seqZ 1 (zlen (orders l));
    wf_cids : NoDup (client_order_id <$> orders l);
    wf_orders : Forall (order_ok (fills l)) (orders l);
    wf_fills : Forall (fun f => 0 < f_qty f /\ 1 <= f_order f <= zlen (orders l)) (fills l);
    wf_keys : NoDup (n_key <$> notices l) }.

(** What a state update or an event leaves alone. *)
Definition frame (l l' : Ledger) : Prop :=
  fills l' = fills l /\ notices l' = notices l /\ totals_base l' = totals_base l /\
  Forall2 (fun o o' => id o' = id o /\ client_order_id o' = client_order_id o /\ trade_date o' = trade_date o /\
    symbol o' = symbol o /\ side o' = side o /\ qty o' = qty o /\
    filled_qty o' = filled_qty o /\ filled_amt o' = filled_amt o /\ price o' = price o /\ est_price o' = est_price o) (orders l) (orders l').

Lemma frame_refl l : frame l l.
Proof. split_and!; try done. apply Forall_Forall2_diag, Forall_forall. done. Qed.

Lemma frame_trans a b c : frame a b -> frame b c -> frame a c.
Proof.
  intros (E1 & E2 & E3 & E4) (F1 & F2 & F3 & F4). unfold frame. rewrite F1, F2, F3. split_and!; try done.
  clear -E4 F4. revert F4. generalize (orders c). induction E4 as [|x y xs ys H _ IH]; intros zs F; inversion F; subst; [constructor|].
  constructor; [|by apply IH]. destruct_and!. split_and!; congruence.
Qed.

Lemma frame_wf l l' : frame l l' -> wf l -> wf l'.
Proof.
  intros (Hf & Hn & _ & Ho) [H1 H2 H3 H4 H5].
  assert (length (orders l') = length (orders l)) as Hlen by (symmetry; by eapply Forall2_length).
  assert (id <$> orders l' = id <$> orders l) as Hid.
  { clear -Ho. induction Ho as [|o o' os os' H _ IH]; [done|]. cbn. f_equal; [tauto|done]. }
  assert (client_order_id <$> orders l' = client_order_id <$> orders l) as Hcid.
  { clear -Ho. induction Ho as [|o o' os os' H _ IH]; [done|]. cbn. f_equal; [tauto|done]. }
  split; rewrite ?Hid, ?Hcid, ?Hlen, ?Hf, ?Hn; try done.
  clear -Ho H3. induction Ho as [|o o' os os' H _ IH]; [constructor|].
  apply Forall_cons in H3 as [Ho3 H3]. constructor; [|by apply IH].
  unfold order_ok in *. destruct H as (E1 & _ & _ & _ & _ & E2 & E3 & E4 & _). by rewrite E1, E2, E3, E4.
Qed.

Lemma frame_update i f l :
  (forall o, id (f o) = id o /\ client_order_id (f o) = client_order_id o /\ trade_date (f o) = trade_date o /\
    symbol (f o) = symbol o /\ side (f o) = side o /\ qty (f o) = qty o /\
    filled_qty (f o) = filled_qty o /\ filled_amt (f o) = filled_amt o /\ price (f o) = price o /\
    est_price (f o) = est_price o) -> frame l (update i f l).
Proof.
  intros Hf. split_and!; try done. cbn [update set_orders orders].
  apply Forall2_fmap_r, Forall_Forall2_diag, Forall_forall. intros o _. simpl.
  destruct (id o =? i); [apply Hf|done].
Qed.

Lemma frame_event l e : frame l (event l e).
Proof. destruct (frame_refl l) as (? & ? & ? & ?). by split_and!. Qed.

Lemma frame_set_state i s now l : frame l (set_state i s now l).
Proof. by apply frame_update. Qed.

Lemma frame_resolve s ev now us l : frame l (resolve_all s ev now us l).
Proof.
  unfold resolve_all. revert l. induction us as [|o us IH]; intros l; [apply frame_refl|]. cbn [foldl].
  eapply frame_trans; [|apply IH]. eapply frame_trans; [apply frame_set_state|apply frame_event].
Qed.

(** ** Booking a fill *)

Lemma fill_sum_app f i a b : fill_sum f i (a ++ b) = fill_sum f i a + fill_sum f i b.
Proof. induction a as [|x a IH]; simpl; [done|]. destruct (f_order x =? i); lia. Qed.

Lemma ids_NoDup l : wf l -> NoDup (id <$> orders l).
Proof. intros [-> _ _ _ _]. apply NoDup_seqZ. Qed.

Lemma id_unique l o o' : wf l -> o ∈ orders l -> o' ∈ orders l -> id o = id o' -> o = o'.
Proof.
  intros Hwf Ho Ho' Hid. apply ids_NoDup in Hwf.
  apply list_elem_of_lookup in Ho as [i Hi], Ho' as [j Hj].
  assert (i = j) as ->; [|congruence].
  eapply NoDup_lookup; [exact Hwf|rewrite list_lookup_fmap, Hi; reflexivity|].
  by rewrite list_lookup_fmap, Hj, Hid.
Qed.

(** The row a snapshot [o0] was read from. *)
Definition current (l : Ledger) (o0 : Order) (o : Order) : Prop :=
  o ∈ orders l /\ id o = id o0 /\ qty o = qty o0 /\ filled_qty o = filled_qty o0.

Lemma book_fill_wf src now l o0 o take amt :
  wf l -> current l o0 o -> 0 < take <= qty o0 - filled_qty o0 -> wf (book_fill src now l (o0, take, amt)).
Proof.
  intros Hwf (Hin & Hid & Hq & Hfq) Ht. pose proof Hwf as [H1 H2 H3 H4 H5].
  pose proof (proj1 (Forall_forall _ _) H3) as H3'. unfold book_fill.
  set (g := fun x => if id x =? id o0 then fill_order take amt now o0 x else x).
  assert (orders (event (update (id o0) (fill_order take amt now o0)
     (add_fill l (mkFill (id o0) take amt src now))) (EvFill (id o0) take amt src)) = g <$> orders l) as Eo by done.
  assert (forall x, id (g x) = id x /\ client_order_id (g x) = client_order_id x) as Hg.
  { intros x. unfold g. by destruct (id x =? id o0). }
  split; rewrite ?Eo, ?length_fmap; cbn [fills event update set_orders add_fill notices]; try done.
  - rewrite <- list_fmap_compose, <- H1. apply list_fmap_ext. intros i x _. apply Hg.
  - rewrite <- list_fmap_compose. erewrite list_fmap_ext; [exact H2|]. intros i x _. apply Hg.
  - apply Forall_fmap, Forall_forall. intros x Hx. unfold order_ok. cbn [compose].
    destruct (H3' x Hx) as (Q1 & Q2 & Q3 & Q4). unfold g.
    rewrite !fill_sum_app. simpl. destruct (Z.eqb_spec (id x) (id o0)) as [E|E].
    + assert (x = o) as -> by (eapply id_unique; [done..|congruence]).
      cbn [fill_order qty filled_qty filled_amt id]. rewrite Hid in *. rewrite Z.eqb_refl. split_and!; lia.
    + destruct (Z.eqb_spec (id o0) (id x)); [congruence|]. rewrite !Z.add_0_r. done.
  - apply Forall_app. split; [done|]. constructor; [|constructor]. cbn [f_qty f_order]. split; [lia|].
    assert (id o ∈ seqZ 1 (zlen (orders l))) as Hs by (rewrite <- H1; apply list_elem_of_fmap; by exists o).
    apply elem_of_seqZ in Hs. lia.
Qed.

(** ** Sums over the rows of one key *)

Lemma sum_app f a b : sum f (a ++ b) = sum f a + sum f b.
Proof. unfold sum. induction a as [|x a IH]; simpl; [done|lia]. Qed.

Lemma sum_perm f a b : a ≡ₚ b -> sum f a = sum f b.
Proof. unfold sum. induction 1; simpl in *; lia. Qed.

#[export] Instance sum_proper f : Proper (Permutation ==> eq) (sum f).
Proof. intros a b. apply sum_perm. Qed.

Lemma sum_ext f g os : (forall o, o ∈ os -> f o = g o) -> sum f os = sum g os.
Proof.
  intros H. induction os as [|x os IH]; [done|]. unfold sum in *. cbn [foldr].
  rewrite IH, (H x); [done|left|]. intros o Ho. apply H. by right.
Qed.

Lemma sum_nonneg f os : Forall (fun o => 0 < f o) os -> 0 <= sum f os.
Proof. unfold sum. induction 1; simpl; lia. Qed.

Lemma sum_cons f o os : sum f (o :: os) = f o + sum f os.
Proof. done. Qed.

Lemma insert_by_id_perm o os : insert_by_id o os ≡ₚ o :: os.
Proof.
  induction os as [|x os IH]; [done|]. simpl. destruct (id o <=? id x); [done|]. rewrite IH. apply perm_swap.
Qed.

Lemma sort_by_id_perm os : sort_by_id os ≡ₚ os.
Proof. induction os as [|o os IH]; [done|]. simpl. by rewrite insert_by_id_perm, IH. Qed.

(** Changing one row of a filtered list changes the sum by that row's change. *)
Lemma sum_filter_update f (P : Order -> Prop) `{!forall o, Decision (P o)} h o os :
  NoDup (id <$> os) -> o ∈ os -> P o -> P (h o) ->
  sum f (filter P ((fun x => if id x =? id o then h x else x) <$> os)) = sum f (filter P os) + f (h o) - f o.
Proof.
  induction os as [|x os IH]; intros Hnd Hin Po Ph; [by apply elem_of_nil in Hin|].
  rewrite fmap_cons in Hnd. apply NoDup_cons in Hnd as [Hx Hnd]. rewrite fmap_cons.
  apply elem_of_cons in Hin as [<-|Hin].
  - assert (((fun y => if id y =? id o then h y else y) <$> os) = os) as ->.
    { rewrite <- (list_fmap_id os) at 2. apply list_fmap_ext. intros j y Hy. simpl.
      destruct (Z.eqb_spec (id y) (id o)) as [E|]; [|done]. exfalso. apply Hx. rewrite <- E.
      apply list_elem_of_fmap. exists y. split; [done|]. by eapply list_elem_of_lookup_2. }
    rewrite Z.eqb_refl, !filter_cons_True by done. unfold sum. cbn [foldr]. lia.
  - destruct (Z.eqb_spec (id x) (id o)) as [E|].
    { exfalso. apply Hx. rewrite E. apply list_elem_of_fmap. by exists o. }
    specialize (IH Hnd Hin Po Ph). destruct (decide (P x)).
    + rewrite !filter_cons_True by done. unfold sum in *. cbn [foldr]. lia.
    + rewrite !filter_cons_False by done. done.
Qed.

(** The live rows of a key, as the broker's totals see them. *)
Definition live_of (l : Ledger) (date sym : pystr) (sd : Side) : list Order :=
  live_in LIVE_STATES (rows_of l date sym sd).

Definition live_key (date sym : pystr) (sd : Side) (o : Order) : Prop :=
  state o ∈ LIVE_STATES /\ trade_date o = date /\ symbol o = sym /\ side o = sd.
#[export] Instance live_key_dec date sym sd o : Decision (live_key date sym sd o).
Proof. apply _. Defined.

Lemma live_of_filter l date sym sd : live_of l date sym sd = filter (live_key date sym sd) (orders l).
Proof. unfold live_of, live_in, rows_of. rewrite list_filter_filter. by apply list_filter_iff. Qed.

(** A part is bookable when its order is a live row of the key with room for it. *)
Definition bookable (date sym : pystr) (sd : Side) (l : Ledger) (p : Order * Z * Z) : Prop :=
  exists o, current l p.1.1 o /\ live_key date sym sd o /\ 0 < p.1.2 <= qty p.1.1 - filled_qty p.1.1.

Definition parts_sum (f : Order * Z * Z -> Z) (ps : list (Order * Z * Z)) : Z := foldr (fun p n => f p + n) 0 ps.

Lemma book_fill_live src now l date sym sd p :
  wf l -> bookable date sym sd l p ->
  sum filled_qty (live_of (book_fill src now l p) date sym sd) = sum filled_qty (live_of l date sym sd) + p.1.2 /\
  sum filled_amt (live_of (book_fill src now l p) date sym sd) = sum filled_amt (live_of l date sym sd) + p.2 /\
  sum qty (live_of (book_fill src now l p) date sym sd) = sum qty (live_of l date sym sd).
Proof.
  intros Hwf (o & (Hin & Hid & Hq & Hf) & Hk & Ht). destruct p as [[o0 t] a]. cbn [fst snd] in *.
  rewrite !live_of_filter. unfold book_fill. cbn [event update set_orders orders add_fill].
  rewrite <- Hid. assert (live_key date sym sd (fill_order t a now o0 o)) as Hk'.
  { destruct Hk as (Hs & ? & ? & ?). unfold live_key. cbn [fill_order trade_date symbol side]. split_and!; try done.
    simpl. destruct (_ =? _); set_solver. }
  rewrite !sum_filter_update by (done || by apply ids_NoDup). cbn [fill_order filled_qty filled_amt qty]. lia.
Qed.

(** Booking one part leaves the parts of the other orders bookable. *)
Lemma book_fill_bookable src now l date sym sd p q :
  id q.1.1 <> id p.1.1 -> bookable date sym sd l q -> bookable date sym sd (book_fill src now l p) q.
Proof.
  intros Hne (o & (Hin & Hid & Hq & Hf) & Hk & Ht). destruct p as [[o0 t] a]. exists o. split; [|done].
  split; [|done]. cbn [book_fill event update set_orders orders add_fill]. apply list_elem_of_fmap. exists o.
  split; [|done]. cbn [fst] in Hne. destruct (Z.eqb_spec (id o) (id o0)); [congruence|done].
Qed.

Lemma book_all src now date sym sd ps : forall l,
  wf l -> NoDup ((fun p => id p.1.1) <$> ps) -> Forall (bookable date sym sd l) ps ->
  let l' := foldl (book_fill src now) l ps in
  wf l' /\ length (fills l') = (length (fills l) + length ps)%nat /\
  sum filled_qty (live_of l' date sym sd) = sum filled_qty (live_of l date sym sd) + parts_sum (fun p => p.1.2) ps /\
  sum filled_amt (live_of l' date sym sd) = sum filled_amt (live_of l date sym sd) + parts_sum snd ps /\
  sum qty (live_of l' date sym sd) = sum qty (live_of l date sym sd).
Proof.
  induction ps as [|p ps IH]; intros l Hwf Hnd Hb; [cbn; split_and!; [done|lia..]|].
  rewrite fmap_cons in Hnd. apply NoDup_cons in Hnd as [Hp Hnd]. apply Forall_cons in Hb as [Hbp Hb].
  destruct (book_fill_live src now l date sym sd p Hwf Hbp) as (E1 & E2 & E3).
  assert (wf (book_fill src now l p)) as Hwf'.
  { destruct p as [[o0 t] a]. destruct Hbp as (o & Hc & _ & Ht). by eapply book_fill_wf. }
  destruct (IH _ Hwf' Hnd) as (W & L & Q & A & S).
  { apply Forall_forall. intros q Hq. apply book_fill_bookable; [|by apply (proj1 (Forall_forall _ _) Hb)].
    intros E. apply Hp. apply list_elem_of_fmap. by exists q. }
  cbn [foldl]. cbn zeta in *. split_and!; [done|..].
  - rewrite L. destruct p as [[o0 t] a]. cbn [book_fill fills event update set_orders add_fill length].
    rewrite length_app. cbn. lia.
  - rewrite Q, E1. unfold parts_sum. cbn [foldr]. lia.
  - rewrite A, E2. unfold parts_sum. cbn [foldr]. lia.
  - by rewrite S, E3.
Qed.

(** ** The allocation *)

Definition room (o : Order) : Z := qty o - filled_qty o.

Lemma allocate_spec delta amt_delta : forall os left amt_left,
  Forall (fun o => 0 < room o) os -> 0 <= left <= sum room os -> (left = 0 -> amt_left = 0) ->
  let ps := allocate os delta amt_delta left amt_left in
  parts_sum (fun p => p.1.2) ps = left /\ parts_sum snd ps = amt_left /\
  Forall (fun p => p.1.1 ∈ os /\ 0 < p.1.2 <= room p.1.1) ps /\ ((fun p => p.1.1) <$> ps) `sublist_of` os /\
  (0 < left -> ps <> []).
Proof.
  induction os as [|o os IH]; intros left amt_left Hr Hl Ha; cbn [allocate].
  { cbn in *. split_and!; try (lia || done). }
  apply Forall_cons in Hr as [Ho Hr]. destruct (Z.eqb_spec left 0) as [->|Hl0].
  { cbn. split_and!; try done; [symmetry; by apply Ha|apply sublist_nil_l]. }
  rewrite sum_cons in Hl. fold (room o). pose proof (sum_nonneg _ _ Hr).
  set (take := Z.min (room o) left). set (amt := if take =? left then amt_left else share amt_delta take delta).
  destruct (IH (left - take) (amt_left - amt) Hr) as (I1 & I2 & I3 & I4 & _).
  { lia. }
  { intros E. unfold amt. destruct (Z.eqb_spec take left); lia. }
  cbn zeta. cbn [parts_sum foldr fst snd fmap list_fmap] in *. split_and!.
  - unfold parts_sum in *. cbn [fst snd] in *. lia.
  - unfold parts_sum in *. cbn [fst snd] in *. lia.
  - constructor; [cbn; split; [left|lia]|]. apply (Forall_impl _ _ _ I3). intros p [Hin ?]. split; [by right|done].
  - by apply sublist_skip.
  - done.
Qed.

(** ** Resolving unknown orders *)

Lemma resolve_orders s ev now us : forall l,
  orders (resolve_all s ev now us l)
  = (fun o => if bool_decide (id o ∈ id <$> us) then with_state s now o else o) <$> orders l.
Proof.
  unfold resolve_all. induction us as [|u us IH]; intros l; cbn [foldl].
  { symmetry. rewrite <- (list_fmap_id (orders l)) at 2. by apply list_fmap_ext. }
  rewrite IH. cbn [set_state update event set_orders orders]. rewrite <- list_fmap_compose.
  apply list_fmap_ext. intros _ o _. cbn [compose]. rewrite fmap_cons.
  destruct (Z.eqb_spec (id o) (id u)) as [E|E]; cbn [with_state id];
    rewrite (bool_decide_ext (id o ∈ id u :: (id <$> us)) (id o = id u \/ id o ∈ id <$> us))
      by apply elem_of_cons.
  - rewrite (bool_decide_eq_true_2 (_ \/ _)) by auto. by case_bool_decide.
  - erewrite bool_decide_ext; [done|]. naive_solver.
Qed.

(** With distinct ids, the rows chosen by a filter are the rows with the chosen ids. *)
Lemma resolve_filter s ev now l (P : Order -> Prop) `{!forall o, Decision (P o)} : wf l ->
  orders (resolve_all s ev now (filter P (orders l)) l)
  = (fun o => if bool_decide (P o) then with_state s now o else o) <$> orders l.
Proof.
  intros Hwf. rewrite resolve_orders. apply list_fmap_ext. intros i o Hi. apply list_elem_of_lookup_2 in Hi.
  erewrite bool_decide_ext; [done|]. rewrite list_elem_of_fmap. split.
  - intros (o' & E & Ho'). apply list_elem_of_filter in Ho' as [Hp Ho'].
    by rewrite (id_unique l o o') by done.
  - intros Hp. exists o. split; [done|]. by apply list_elem_of_filter.
Qed.

Lemma filter_turned (P Q : Order -> Prop) `{!forall o, Decision (P o)} `{!forall o, Decision (Q o)} g (os : list Order) :
  (forall o, P o -> ~ Q o) -> (forall o, P o -> Q (g o)) ->
  filter Q ((fun o => if bool_decide (P o) then g o else o) <$> os) ≡ₚ filter Q os ++ (g <$> filter P os).
Proof.
  intros H1 H2. induction os as [|o os IH]; [done|]. rewrite fmap_cons. case_bool_decide as E.
  - rewrite !(filter_cons_True P) by done. rewrite (filter_cons_False _ o) by auto.
    rewrite filter_cons_True by auto. rewrite IH. cbn. by rewrite Permutation_middle.
  - rewrite (filter_cons_False P) by done. destruct (decide (Q o)).
    + rewrite !filter_cons_True by done. by rewrite IH.
    + by rewrite !filter_cons_False.
Qed.

Lemma filter_unturned (P Q : Order -> Prop) `{!forall o, Decision (P o)} `{!forall o, Decision (Q o)} g (os : list Order) :
  (forall o, P o -> ~ Q o) -> (forall o, P o -> ~ Q (g o)) ->
  filter Q ((fun o => if bool_decide (P o) then g o else o) <$> os) = filter Q os.
Proof.
  intros H1 H2. induction os as [|o os IH]; [done|]. rewrite fmap_cons. case_bool_decide as E.
  - rewrite !filter_cons_False by auto. done.
  - destruct (decide (Q o)); [rewrite !filter_cons_True by done; by rewrite IH|by rewrite !filter_cons_False].
Qed.

(** ** Applying the totals *)

(** What the fills half does to a ledger whose live rows are [live]. *)
Definition fills_outcome (date sym : pystr) (sd : Side) (b_fill b_amt : Z) (now : float) (l l' : Ledger)
    (bs bs' : list Break) : Prop :=
  let ledger_qty := sum filled_qty (live_of l date sym sd) in
  (b_fill = ledger_qty /\ l' = l /\ bs' = bs) \/
  (b_fill < ledger_qty /\ l' = l /\
    ((bs' = bs /\ ledger_qty - b_fill <= notice_sum l (fsub now NOTICE_GRACE_S) (id <$> live_of l date sym sd)) \/
     bs' = bs ++ [BrokerFillsBelowLedger (b_fill - ledger_qty)])) \/
  (ledger_qty < b_fill /\ l' = l /\ exists r, r < b_fill - ledger_qty /\
    bs' = bs ++ [FillsExceedOrders (b_fill - ledger_qty) r]) \/
  (ledger_qty < b_fill /\ bs' = bs /\ fills l' <> fills l /\
    sum filled_qty (live_of l' date sym sd) = b_fill /\ sum filled_amt (live_of l' date sym sd) = b_amt /\
    sum qty (live_of l' date sym sd) = sum qty (live_of l date sym sd)).

Lemma notice_sum_perm l since ids ids' : ids ≡ₚ ids' -> notice_sum l since ids = notice_sum l since ids'.
Proof.
  intros H. unfold notice_sum. f_equal. apply list_filter_iff. intros n. by rewrite H.
Qed.

Lemma allocate_bookable date sym sd l live delta amt_delta :
  wf l -> live ≡ₚ live_of l date sym sd -> 0 < delta ->
  let os := filter (fun o => state o ∈ FILLABLE_STATES /\ filled_qty o < qty o) live in
  delta <= sum room os ->
  let ps := allocate os delta amt_delta delta amt_delta in
  NoDup ((fun p => id p.1.1) <$> ps) /\ Forall (bookable date sym sd l) ps /\ ps <> [] /\
  parts_sum (fun p => p.1.2) ps = delta /\ parts_sum snd ps = amt_delta.
Proof.
  intros Hwf Hlive Hd os Hroom ps.
  destruct (allocate_spec delta amt_delta os delta amt_delta) as (S1 & S2 & S3 & S4 & S5); [| lia..|].
  { apply Forall_forall. intros o Ho. apply list_elem_of_filter in Ho as [[_ ?] _]. unfold room. lia. }
  fold ps in S1, S2, S3, S4, S5.
  assert (forall o, o ∈ os -> o ∈ orders l /\ live_key date sym sd o) as Hos.
  { intros o Ho. apply list_elem_of_filter in Ho as [_ Ho]. rewrite Hlive, live_of_filter in Ho.
    apply list_elem_of_filter in Ho. tauto. }
  split_and!; [| |by apply S5|done|done].
  - change (NoDup ((id ∘ (fun p : Order * Z * Z => p.1.1)) <$> ps)). rewrite list_fmap_compose.
    apply (sublist_NoDup _ (id <$> os)); [|by apply fmap_sublist].
    apply (sublist_NoDup _ (id <$> live)); [|apply fmap_sublist, sublist_filter].
    rewrite Hlive, live_of_filter.
    apply (sublist_NoDup _ (id <$> orders l)); [by apply ids_NoDup|apply fmap_sublist, sublist_filter].
  - apply (Forall_impl _ _ _ S3). intros p [Hp Ht]. destruct (Hos _ Hp) as [Hin Hk].
    exists p.1.1. unfold room in Ht. split_and!; try done; lia.
Qed.

Lemma apply_fills_spec date sym sd live b_fill b_amt bs now l :
  wf l -> live ≡ₚ live_of l date sym sd ->
  let '(l', bs') := apply_fills live b_fill b_amt bs now l in
  wf l' /\ fills_outcome date sym sd b_fill b_amt now l l' bs bs'.
Proof.
  intros Hwf Hlive. unfold apply_fills, fills_outcome.
  rewrite (sum_perm filled_qty live _ Hlive), (sum_perm filled_amt live _ Hlive).
  rewrite (notice_sum_perm l _ (id <$> live) (id <$> live_of l date sym sd)) by (by apply fmap_Permutation).
  set (q := sum filled_qty (live_of l date sym sd)). set (a := sum filled_amt (live_of l date sym sd)).
  destruct (Z.ltb_spec (b_fill - q) 0).
  { destruct (Z.leb_spec (- (b_fill - q)) (notice_sum l (fsub now NOTICE_GRACE_S) (id <$> live_of l date sym sd)));
      (split; [done|]); right; left; (split; [lia|]); (split; [done|]); [left|right]; auto with lia. }
  destruct (Z.eqb_spec (b_fill - q) 0); [split; [done|left]; auto with lia|].
  destruct (Z.ltb_spec (sum (fun o => qty o - filled_qty o)
    (filter (fun o => state o ∈ FILLABLE_STATES /\ filled_qty o < qty o) live)) (b_fill - q)) as [Hr|Hr].
  { split; [done|]. right; right; left. split; [lia|]. split; [done|]. eexists. split; [exact Hr|done]. }
  destruct (allocate_bookable date sym sd l live (b_fill - q) (b_amt - a) Hwf Hlive) as (Hnd & Hb & Hne & E1 & E2);
    [lia|exact Hr|].
  destruct (book_all DayTotals now date sym sd _ l Hwf Hnd Hb) as (W & L & Q & A & S).
  cbn zeta in *. split; [done|]. right; right; right. split; [lia|]. split; [done|]. split.
  - intros Heq. rewrite Heq in L. destruct (allocate _ _ _ _ _); [done|]. cbn in L. lia.
  - rewrite Q, A, S, E1, E2. fold q a. lia.
Qed.

(** Before the fills: either nothing changed and the orders are unexplained, or the
    live rows handed to the fills half are the live rows of the ledger it runs on. *)
Lemma apply_totals_cases date sym sd base broker now l :
  wf l -> totals_baseline l date sym sd = Some base ->
  let extra := ord_qty broker - ord_qty base - sum qty (live_of l date sym sd) in
  (0 < extra /\ apply_totals date sym sd broker now l = (l, [UnexplainedBrokerOrders extra])) \/
  exists l1 live bs, wf l1 /\ frame l l1 /\ live ≡ₚ live_of l1 date sym sd /\
    apply_totals date sym sd broker now l
    = apply_fills live (ccld_qty broker - ccld_qty base) (ccld_amt broker - ccld_amt base) bs now l1 /\
    ((bs = [] /\ sum qty (live_of l1 date sym sd) = ord_qty broker - ord_qty base) \/
     (extra < 0 /\ bs = [LedgerOrdersMissing (- extra)])) /\
    exists s ev us, l1 = resolve_all s ev now us l /\ (s = ACCEPTED \/ s = NOT_SENT) /\
      Forall (fun o => o ∈ orders l /\ state o = UNKNOWN) us.
Proof.
  intros Hwf Hb extra. unfold apply_totals. rewrite Hb. fold (live_of l date sym sd). fold extra.
  set (unknown := live_in [UNKNOWN] (rows_of l date sym sd)).
  assert (unknown = filter (fun o => state o = UNKNOWN /\ trade_date o = date /\ symbol o = sym /\ side o = sd)
    (orders l)) as Hu.
  { unfold unknown, live_in, rows_of. rewrite list_filter_filter. apply list_filter_iff. set_solver. }
  assert (Forall (fun o => o ∈ orders l /\ state o = UNKNOWN) unknown) as Hun.
  { rewrite Hu. apply Forall_forall. intros o [[??]?]%list_elem_of_filter. done. }
  destruct (Z.ltb_spec 0 extra) as [He|He].
  - destruct (negb (bool_decide (unknown = [])) && (sum qty unknown =? extra)) eqn:Eu; [right|by left].
    apply andb_true_iff in Eu as [_ Eu%Z.eqb_eq].
    assert (sort_by_id (live_of l date sym sd ++ (with_state ACCEPTED now <$> unknown))
      ≡ₚ live_of (resolve_all ACCEPTED (EvResolvedSent ∘ id) now unknown l) date sym sd) as Hp.
    { rewrite sort_by_id_perm, !live_of_filter, Hu, resolve_filter by done. symmetry.
      apply filter_turned; intros o (E & Ek); unfold live_key; [|by split; [by apply (bool_decide_unpack _)|]].
      rewrite E. intros [Hs _]. revert Hs. by apply (bool_decide_unpack _). }
    eexists _, _, []. split_and!; [|apply frame_resolve|exact Hp|done| |eexists _, _, _; split; [reflexivity|]; auto].
    { eapply frame_wf; [apply frame_resolve|done]. }
    left. split; [done|]. rewrite <- Hp, sort_by_id_perm, sum_app.
    assert (sum qty (with_state ACCEPTED now <$> unknown) = sum qty unknown) as ->.
    { clear. induction unknown as [|o os IH]; [done|]. rewrite fmap_cons, !sum_cons, IH. done. }
    unfold extra in *. lia.
  - right. set (late := filter _ unknown).
    assert (live_of (resolve_all NOT_SENT (EvResolvedNotSent ∘ id) now late l) date sym sd = live_of l date sym sd) as Hl.
    { unfold late. rewrite Hu, list_filter_filter, !live_of_filter, resolve_filter by done.
      apply filter_unturned; intros o (_ & E & _); unfold live_key; cbn [with_state state]; [rewrite E|];
        intros [Hs _]; revert Hs; by apply (bool_decide_unpack _). }
    eexists _, _, _. split_and!; [|apply frame_resolve|by rewrite Hl|reflexivity| |].
    { eapply frame_wf; [apply frame_resolve|done]. }
    { destruct (Z.ltb_spec extra 0); [by right|left]. split; [done|]. rewrite Hl. unfold extra in *. lia. }
    eexists _, _, _. split; [reflexivity|]. split; [by right|]. apply Forall_forall.
    intros o [_ Ho]%list_elem_of_filter. by apply (proj1 (Forall_forall _ _) Hun).
Qed.

(** ** Every operation keeps the invariant *)

Lemma frame_base l base ns hb ht cd ev : ns = notices l -> base = totals_base l ->
  frame l (mkLedger (orders l) (fills l) base hb ht ns cd ev).
Proof. intros -> ->. destruct (frame_refl l) as (? & ? & ? & ?). by split_and!. Qed.

Lemma wf_new_ledger : wf new_ledger.
Proof. by split; try constructor. Qed.

Lemma fill_sum_fresh f i fs n : Forall (fun x => 0 < f_qty x /\ 1 <= f_order x <= n) fs -> n < i -> fill_sum f i fs = 0.
Proof.
  intros H Hi. induction H as [|x fs Hx _ IH]; [done|]. simpl. destruct (Z.eqb_spec (f_order x) i); lia.
Qed.

Lemma find_none {A} (p : A -> bool) xs x : find p xs = None -> x ∈ xs -> p x = false.
Proof. intros H Hx. apply (find_none p xs H). by apply list_elem_of_In. Qed.

Lemma new_order_wf cid date sym st q p est now l :
  wf l -> match new_order cid date sym st q p est now l with Ok (l', _, _) => wf l' | Err _ => True end.
Proof.
  intros Hwf. unfold new_order. destruct (by_client_id l cid) eqn:Ec; [done|].
  destruct (side_of st); [|done]. destruct (_ && _) eqn:Eg; [|done].
  apply andb_true_iff in Eg as [Eq%Z.ltb_lt Ep%Z.leb_le]. destruct Hwf as [H1 H2 H3 H4 H5].
  split; cbn [event set_orders orders fills notices id]; rewrite ?fmap_app, ?length_app; try done.
  - rewrite H1. cbn [fmap list_fmap id length].
    replace (Z.of_nat (length (orders l) + 1)) with (zlen (orders l) + 1) by lia. rewrite seqZ_app by lia.
    f_equal. replace (1 + zlen (orders l)) with (zlen (orders l) + 1) by lia. done.
  - apply NoDup_app. split_and!; [done| |apply NoDup_singleton]. intros c Hc Hc'.
    apply list_elem_of_singleton in Hc' as ->. cbn in Hc. apply list_elem_of_fmap in Hc as (o & E & Ho).
    eapply find_none in Ec; [|exact Ho]. apply bool_decide_eq_false in Ec. congruence.
  - apply Forall_app. split; [done|]. constructor; [|constructor]. unfold order_ok.
    cbn [qty filled_qty filled_amt id]. rewrite !(fill_sum_fresh _ _ _ (zlen (orders l))) by (done || lia). lia.
  - apply (Forall_impl _ _ _ H4). intros f. cbn [length]. lia.
Qed.

Lemma find_spec {A} (p : A -> bool) xs x : find p xs = Some x -> x ∈ xs /\ p x = true.
Proof. intros H. apply find_some in H as [H ?]. split; [by apply list_elem_of_In|done]. Qed.

Lemma existsb_none {A} (p : A -> bool) xs x : existsb p xs = false -> x ∈ xs -> p x = false.
Proof.
  intros H Hx. destruct (p x) eqn:E; [|done]. rewrite <- H. symmetry. apply existsb_exists.
  exists x. split; [by apply list_elem_of_In|done].
Qed.

Lemma apply_notice_wf date od q p key now l : wf l -> wf (apply_notice date od q p key now l).1.
Proof.
  intros Hwf. unfold apply_notice. destruct (existsb _ _) eqn:Ek; [done|]. destruct (find _ _) as [o|] eqn:Ef.
  2:{ eapply frame_wf; [apply frame_event|done]. }
  destruct (negb _ || _ || _) eqn:Eg; [eapply frame_wf; [apply frame_event|done]|].
  apply orb_false_iff in Eg as [Eg Eq%Z.ltb_ge]. apply orb_false_iff in Eg as [_ Ep%Z.leb_gt].
  apply find_spec in Ef as [Hin _]. cbn [fst]. apply (book_fill_wf _ _ _ _ o).
  - destruct Hwf as [H1 H2 H3 H4 H5]. split; try done. cbn [add_notice notices]. rewrite fmap_app.
    apply NoDup_app. split_and!; [done| |apply NoDup_singleton]. intros k Hk Hk'.
    apply list_elem_of_singleton in Hk' as ->. apply list_elem_of_fmap in Hk as (n & E & Hn).
    eapply existsb_none in Ek; [|exact Hn]. apply bool_decide_eq_false in Ek. cbn in E. congruence.
  - split_and!; try done.
  - lia.
Qed.

Lemma apply_totals_wf date sym sd broker now l : wf l -> wf (apply_totals date sym sd broker now l).1.
Proof.
  intros Hwf. destruct (totals_baseline l date sym sd) as [base|] eqn:Eb.
  2:{ unfold apply_totals. by rewrite Eb. }
  destruct (apply_totals_cases date sym sd base broker now l Hwf Eb) as [(_ & ->)|(l1 & live & bs & W & _ & Hl & -> & _)];
    [done|].
  pose proof (apply_fills_spec date sym sd live (ccld_qty broker - ccld_qty base) (ccld_amt broker - ccld_amt base)
    bs now l1 W Hl) as H. destruct (apply_fills _ _ _ _ _ _). apply H.
Qed.

Lemma close_day_frame date b now l : frame l (close_day date b now l).1.
Proof.
  unfold close_day. destruct (closed_days l !! date) as [[??]|]; [apply frame_refl|].
  destruct (negb (bool_decide _)); [apply frame_refl|]. destruct (negb _); [apply frame_refl|].
  cbn [fst]. eapply frame_trans; [apply frame_resolve|]. eapply frame_trans; [|apply frame_event]. by apply frame_base.
Qed.

Lemma frame_recover now l : frame l (recover_pending now l).1.
Proof. apply frame_resolve. Qed.

Lemma frame_mark i s od msg now l : frame l (mark i s od msg now l).
Proof. unfold mark. eapply frame_trans; [|apply frame_event]. by apply frame_update. Qed.

(** The operations that leave every quantity alone. *)
Lemma set_totals_baseline_orders date sym sd t l :
  orders (set_totals_baseline date sym sd t l) = orders l /\ fills (set_totals_baseline date sym sd t l) = fills l /\
  notices (set_totals_baseline date sym sd t l) = notices l.
Proof. unfold set_totals_baseline. by destruct (totals_baseline l date sym sd). Qed.

Lemma ledger_step_wf l o : wf l -> wf (step l o).
Proof.
  intros Hwf. destruct o; cbn [step].
  - pose proof (new_order_wf cid date sym side_text q p est now l Hwf) as H.
    by destruct (new_order _ _ _ _ _ _ _ _ _) as [[[??]?]|?].
  - by eapply frame_wf; [apply frame_mark|].
  - by eapply frame_wf; [apply frame_recover|].
  - destruct (set_totals_baseline_orders date sym sd t l) as (E1 & E2 & E3). destruct Hwf.
    split; rewrite ?E1, ?E2, ?E3; done.
  - unfold set_holdings_baseline. case_bool_decide; [done|].
    eapply frame_wf; [eapply frame_trans; [|apply frame_event]|exact Hwf]. by apply frame_base.
  - by apply apply_totals_wf.
  - by apply apply_notice_wf.
  - by eapply frame_wf; [apply close_day_frame|].
Qed.

Lemma ledger_run_wf ops : forall l, wf l -> wf (run l ops).
Proof. induction ops as [|o ops IH]; intros l H; [done|]. apply IH. by apply ledger_step_wf. Qed.

(** ** A closed day *)

(** Nothing of the day can still change: no order of it is open. *)
Definition day_settled (date : pystr) (l : Ledger) : Prop :=
  Forall (fun o => trade_date o = date -> state o ∉ OPEN_STATES) (orders l).

Definition day_orders (l : Ledger) (date : pystr) : list Order := filter (fun o => trade_date o = date) (orders l).

(** The rows of the day are the same, the other rows keep their id and date. *)
Definition keeps (date : pystr) (l l' : Ledger) : Prop :=
  Forall2 (fun o o' => id o' = id o /\ trade_date o' = trade_date o /\ (trade_date o = date -> o' = o))
    (orders l) (orders l').

Lemma keeps_refl date l : keeps date l l.
Proof. by apply Forall_Forall2_diag, Forall_forall. Qed.

Lemma keeps_same date l l' : orders l' = orders l -> keeps date l l'.
Proof. intros E. unfold keeps. rewrite E. apply keeps_refl. Qed.

Lemma keeps_trans date a b c : keeps date a b -> keeps date b c -> keeps date a c.
Proof.
  unfold keeps. generalize (orders c). intros zs H. revert zs.
  induction H as [|x y xs ys (E1 & E2 & E3) _ IH]; intros zs F; inversion F as [|? z ? ? (F1 & F2 & F3) ?]; subst;
    constructor; [|by apply IH].
  split_and!; [congruence|congruence|]. intros Hx. rewrite F3 by congruence. by apply E3.
Qed.

Lemma keeps_day_orders date l l' : keeps date l l' -> day_orders l' date = day_orders l date.
Proof.
  unfold keeps, day_orders. intros H. induction H as [|o o' os os' (E1 & E2 & E3) _ IH]; [done|].
  destruct (decide (trade_date o = date)) as [E|E].
  - rewrite (E3 E) in *. by rewrite !filter_cons_True, IH.
  - by rewrite !filter_cons_False by congruence.
Qed.

Lemma keeps_settled date l l' : keeps date l l' -> day_settled date l -> day_settled date l'.
Proof.
  unfold keeps, day_settled. intros H. induction H as [|o o' os os' (E1 & E2 & E3) _ IH]; [done|].
  intros [Ho Hs]%Forall_cons. constructor; [|by apply IH]. intros E. rewrite E2 in E. rewrite E3 by done. by apply Ho.
Qed.

(** An id that is not one of the day's. *)
Definition away (date : pystr) (l : Ledger) (i : Z) : Prop :=
  Forall (fun o => id o = i -> trade_date o <> date) (orders l).

Lemma keeps_away date l l' i : keeps date l l' -> away date l i -> away date l' i.
Proof.
  unfold keeps, away. intros H. induction H as [|o o' os os' (E1 & E2 & E3) _ IH]; [done|].
  intros [Ho Hs]%Forall_cons. constructor; [|by apply IH]. rewrite E1, E2. done.
Qed.

Lemma away_other date l o : wf l -> o ∈ orders l -> trade_date o <> date -> away date l (id o).
Proof.
  intros Hwf Ho Hd. apply Forall_forall. intros o' Ho' E. by rewrite (id_unique l o' o).
Qed.

Lemma keeps_update date i f l :
  (forall o, id (f o) = id o /\ trade_date (f o) = trade_date o) -> away date l i -> keeps date l (update i f l).
Proof.
  intros Hf Ha. unfold keeps, update. cbn [set_orders orders]. apply Forall2_fmap_r, Forall_Forall2_diag.
  apply (Forall_impl _ _ _ Ha). intros o Ho. unfold compose. destruct (Z.eqb_spec (id o) i) as [E|]; [|done].
  destruct (Hf o) as [E1 E2]. split_and!; try done. intros Hd. by destruct (Ho E).
Qed.

Lemma keeps_resolve date s ev now us : forall l,
  Forall (fun o => away date l (id o)) us -> keeps date l (resolve_all s ev now us l).
Proof.
  unfold resolve_all. induction us as [|o us IH]; intros l H; [apply keeps_refl|].
  apply Forall_cons in H as [Ho H]. cbn [foldl].
  assert (keeps date l (event (set_state (id o) s now l) (ev o))) as K
    by exact (keeps_update date (id o) (with_state s now) l (fun _ => conj eq_refl eq_refl) Ho).
  eapply keeps_trans; [exact K|]. apply IH. apply (Forall_impl _ _ _ H). intros u. by apply keeps_away.
Qed.

Lemma keeps_book date src now ps : forall l,
  Forall (fun p => away date l (id p.1.1)) ps -> keeps date l (foldl (book_fill src now) l ps).
Proof.
  induction ps as [|p ps IH]; intros l H; [apply keeps_refl|]. apply Forall_cons in H as [Hp H]. cbn [foldl].
  assert (keeps date l (book_fill src now l p)) as K.
  { destruct p as [[o t] a]. exact (keeps_update date (id o) (fill_order t a now o) (add_fill l (mkFill (id o) t a src now)) (fun _ => conj eq_refl eq_refl) Hp). }
  eapply keeps_trans; [exact K|]. apply IH. apply (Forall_impl _ _ _ H). intros q. by apply keeps_away.
Qed.

Lemma allocate_orders delta amt_delta : forall os left amt_left p,
  p ∈ allocate os delta amt_delta left amt_left -> p.1.1 ∈ os.
Proof.
  induction os as [|o os IH]; intros left amt_left p; cbn [allocate]; [by intros ?%elem_of_nil|].
  destruct (left =? 0); [by intros ?%elem_of_nil|]. intros [->|H]%elem_of_cons; [left|right; by eapply IH].
Qed.

(** The fills half keeps the day when every fillable live row is of another day. *)
Lemma keeps_apply_fills date live b_fill b_amt bs now l :
  (forall o, o ∈ live -> state o ∈ FILLABLE_STATES -> away date l (id o)) ->
  keeps date l (apply_fills live b_fill b_amt bs now l).1.
Proof.
  intros H. unfold apply_fills. cbn zeta.
  repeat match goal with |- context [if ?b then _ else _] => destruct b end; try apply keeps_refl.
  apply keeps_book, Forall_forall. intros p Hp%allocate_orders.
  apply list_elem_of_filter in Hp as [[Hs _] Hp]. by apply H.
Qed.

(** What may happen to a ledger without giving the day new orders: everything but a
    new order of that day or an answer to a sent order. *)
Definition leaves_day (date : pystr) (o : op) : bool :=
  match o with
  | NewOrder _ d _ _ _ _ _ _ => negb (bool_decide (d = date))
  | Mark _ _ _ _ _ => false
  | _ => true
  end.

Lemma open_away date l o : wf l -> day_settled date l -> o ∈ orders l -> state o ∈ OPEN_STATES -> away date l (id o).
Proof.
  intros Hwf Hs Ho Hst. apply away_other; [done..|]. intros Hd. by apply (proj1 (Forall_forall _ _) Hs o Ho).
Qed.

Lemma fillable_open s : s ∈ FILLABLE_STATES -> s ∈ OPEN_STATES.
Proof. destruct s; by apply (bool_decide_unpack (_ -> _)). Qed.

Lemma day_row_in n os (o : Order) : o ∈ take n (rev os) -> o ∈ os.
Proof.
  intros H. apply elem_of_take in H as (i & H & _). apply list_elem_of_lookup_2 in H.
  apply list_elem_of_In, in_rev, list_elem_of_In. done.
Qed.

Lemma keeps_apply_totals date d sym sd broker now l :
  wf l -> day_settled date l -> keeps date l (apply_totals d sym sd broker now l).1.
Proof.
  intros Hwf Hs. unfold apply_totals. destruct (totals_baseline l d sym sd) as [base|]; [|apply keeps_refl].
  set (unknown := live_in [UNKNOWN] _). set (live := live_in LIVE_STATES _).
  assert (Forall (fun o => away date l (id o)) unknown) as Hu.
  { apply Forall_forall. intros o [Ho1 Ho2]%list_elem_of_filter. apply list_elem_of_filter in Ho2 as [_ Ho2].
    apply open_away; [done..|]. apply list_elem_of_singleton in Ho1 as ->. by apply (bool_decide_unpack _). }
  assert (forall o, o ∈ live -> state o ∈ FILLABLE_STATES -> away date l (id o)) as Hl.
  { intros o Ho Hst. apply list_elem_of_filter in Ho as [_ Ho]. apply list_elem_of_filter in Ho as [_ Ho].
    apply open_away; [done..|]. by apply fillable_open. }
  destruct (0 <? _).
  - destruct (negb _ && _); [|apply keeps_refl].
    pose proof (keeps_resolve date ACCEPTED (EvResolvedSent ∘ id) now unknown l Hu) as K.
    eapply keeps_trans; [exact K|]. apply keeps_apply_fills. intros o Ho Hst. apply (keeps_away date l _ _ K).
    rewrite sort_by_id_perm in Ho. apply elem_of_app in Ho as [Ho|Ho]; [by apply Hl|].
    apply list_elem_of_fmap in Ho as (u & -> & Ho). exact (proj1 (Forall_forall _ _) Hu u Ho).
  - pose proof (keeps_resolve date NOT_SENT (EvResolvedNotSent ∘ id) now
      (filter (fun o => fgt (fsub now (created_ts o)) UNKNOWN_GRACE_S = true) unknown) l) as K.
    assert (Forall (fun o => away date l (id o))
      (filter (fun o => fgt (fsub now (created_ts o)) UNKNOWN_GRACE_S = true) unknown)) as Hf.
    { apply Forall_forall. intros o [_ Ho]%list_elem_of_filter. by apply (proj1 (Forall_forall _ _) Hu). }
    specialize (K Hf). eapply keeps_trans; [exact K|]. apply keeps_apply_fills. intros o Ho Hst.
    apply (keeps_away date l _ _ K). by apply Hl.
Qed.

Lemma keeps_apply_notice date d od q p key now l :
  wf l -> day_settled date l -> keeps date l (apply_notice d od q p key now l).1.
Proof.
  intros Hwf Hs. unfold apply_notice. destruct (existsb _ _); [apply keeps_refl|].
  destruct (find _ _) as [o|] eqn:Ef; [|by apply keeps_same].
  destruct (negb _ || _ || _) eqn:Eg; [by apply keeps_same|].
  apply find_spec in Ef as [Ho _]. apply orb_false_iff in Eg as [Eg _]. apply orb_false_iff in Eg as [Eg _].
  apply negb_false_iff, bool_decide_eq_true in Eg.
  assert (away date l (id o)) as Ha by (by apply open_away; [..|apply fillable_open]).
  apply (keeps_book date Notice now [(o, q, q * p)] (add_notice l (mkNotice key (id o) q (q * p) now))).
  by constructor.
Qed.

Lemma keeps_close_day date d b now l :
  wf l -> day_settled date l -> keeps date l (close_day d b now l).1.
Proof.
  intros Hwf Hs. unfold close_day. destruct (closed_days l !! d) as [[??]|]; [apply keeps_refl|].
  destruct (negb (bool_decide _)); [apply keeps_refl|]. destruct (negb _); [apply keeps_refl|]. cbn [fst].
  eapply keeps_trans; [|by apply keeps_same]. apply keeps_resolve, Forall_forall.
  intros o [Hst Ho]%list_elem_of_filter. apply open_away; [done..| |by apply fillable_open].
  apply day_row_in in Ho. by apply list_elem_of_filter in Ho as [_ ?].
Qed.

Lemma day_step date l o :
  wf l -> day_settled date l -> leaves_day date o = true ->
  day_orders (step l o) date = day_orders l date /\ day_settled date (step l o).
Proof.
  intros Hwf Hs Ho.
  assert (forall l', keeps date l l' -> day_orders l' date = day_orders l date /\ day_settled date l') as K.
  { intros l' Hk. split; [by apply keeps_day_orders|by eapply keeps_settled]. }
  destruct o; cbn [step leaves_day] in *.
  - apply negb_true_iff, bool_decide_eq_false in Ho. unfold new_order.
    destruct (by_client_id l cid); [done|]. destruct (side_of side_text); [|done].
    destruct (_ && _); [|done]. unfold day_orders, day_settled. cbn [event set_orders orders].
    rewrite filter_app, Forall_app, filter_cons_False, filter_nil, app_nil_r by done.
    split; [done|]. split; [done|]. by repeat constructor.
  - done.
  - apply K. apply keeps_resolve, Forall_forall. intros o [E Hin]%list_elem_of_filter.
    apply open_away; [done..|]. rewrite E. by apply (bool_decide_unpack _).
  - apply K, keeps_same, set_totals_baseline_orders.
  - apply K, keeps_same. unfold set_holdings_baseline. by case_bool_decide.
  - apply K. by apply keeps_apply_totals.
  - apply K. by apply keeps_apply_notice.
  - apply K. by apply keeps_close_day.
Qed.

Lemma day_run date ops : forall l,
  wf l -> day_settled date l -> Forall (fun o => leaves_day date o = true) ops ->
  day_orders (run l ops) date = day_orders l date.
Proof.
  induction ops as [|o ops IH]; intros l Hwf Hs H; [done|]. apply Forall_cons in H as [Ho H].
  destruct (day_step date l o Hwf Hs Ho) as [E Hs']. cbn [run foldl]. fold (run (step l o) ops).
  rewrite IH; [exact E|by apply ledger_step_wf|done|done].
Qed.

Lemma filter_rev {A} (P : A -> Prop) `{!forall x, Decision (P x)} (xs : list A) : filter P (rev xs) ≡ₚ filter P xs.
Proof. by rewrite <- Permutation_rev. Qed.

(** What closing leaves: the expired orders are the fillable ones. *)
Lemma close_day_orders date b now l ts s :
  wf l -> closed_days l !! date = None -> zlen (day_orders l date) <= 100000 ->
  (close_day date b now l).2 = Closed ts s ->
  let P o := state o ∈ FILLABLE_STATES /\ trade_date o = date in
  orders (close_day date b now l).1 = (fun o => if bool_decide (P o) then with_state EXPIRED now o else o) <$> orders l /\
  Forall (fun o => trade_date o = date -> state o ∉ [PENDING_SUBMIT; UNKNOWN]) (orders l) /\
  s_filled_qty s = sum filled_qty (live_in LIVE_STATES (day_orders l date)) /\
  s_filled_amt s = sum filled_amt (live_in LIVE_STATES (day_orders l date)).
Proof.
  intros Hwf Hc Hlen H P. unfold close_day in *. rewrite Hc in *. fold (day_orders l date) in *.
  rewrite take_ge in * by (rewrite length_rev; lia).
  destruct (bool_decide _) eqn:Eu; [|done]. cbn [negb] in *. destruct (negb _); [done|].
  apply bool_decide_eq_true in Eu. cbn [fst snd] in *. injection H as <- <-. cbn [s_filled_qty s_filled_amt].
  split_and!.
  - cbn [event orders]. unfold expire_all. rewrite resolve_orders. apply list_fmap_ext. intros i o Hi.
    apply list_elem_of_lookup_2 in Hi. erewrite bool_decide_ext; [done|].
    rewrite list_elem_of_fmap. unfold live_in. setoid_rewrite list_elem_of_filter.
    setoid_rewrite list_elem_of_In at 2. setoid_rewrite <- in_rev. setoid_rewrite <- list_elem_of_In.
    unfold day_orders, P. setoid_rewrite list_elem_of_filter. split.
    + intros (o' & E & Ho' & Hd & Hin). by rewrite (id_unique l o o').
    + intros [??]. by exists o.
  - apply Forall_forall. intros o Ho Hd Hst. apply (not_elem_of_nil o). rewrite <- Eu. unfold live_in.
    rewrite filter_rev. unfold day_orders. apply list_elem_of_filter. split; [done|]. by apply list_elem_of_filter.
  - unfold live_in. by rewrite filter_rev.
  - unfold live_in. by rewrite filter_rev.
Qed.

Lemma expired_live_sum f date now os :
  (forall o, f (with_state EXPIRED now o) = f o) ->
  sum f (live_in LIVE_STATES (filter (fun o => trade_date o = date)
    ((fun o => if bool_decide (state o ∈ FILLABLE_STATES /\ trade_date o = date) then with_state EXPIRED now o else o) <$> os)))
  = sum f (live_in LIVE_STATES (filter (fun o => trade_date o = date) os)).
Proof.
  intros Hf. unfold live_in. induction os as [|o os IH]; [done|]. rewrite fmap_cons. case_bool_decide as E.
  - destruct E as [E1 E2]. rewrite !(filter_cons_True (fun o => trade_date o = date)) by done.
    rewrite !filter_cons_True, !sum_cons, IH, Hf; [done|..].
    + revert E1. unfold FILLABLE_STATES, LIVE_STATES. set_solver.
    + by apply (bool_decide_unpack _).
  - destruct (decide (trade_date o = date)).
    + rewrite !(filter_cons_True (fun o => trade_date o = date)) by done. destruct (decide (state o ∈ LIVE_STATES)).
      * by rewrite !filter_cons_True, !sum_cons, IH.
      * by rewrite !filter_cons_False.
    + by rewrite !(filter_cons_False (fun o => trade_date o = date)).
Qed.

(** ** The order state machine *)

(** The transitions the ledger itself makes; [mark] records what the caller says.  Only
    the recovery at start-up ([rec]) touches a submitted order. *)
Inductive edge (rec : bool) : State -> State -> Prop :=
| edge_recover : rec = true -> edge rec PENDING_SUBMIT UNKNOWN
| edge_sent : edge rec UNKNOWN ACCEPTED
| edge_not_sent : edge rec UNKNOWN NOT_SENT
| edge_part s : s ∈ FILLABLE_STATES -> edge rec s PARTIAL
| edge_full s : s ∈ FILLABLE_STATES -> edge rec s FILLED
| edge_expire s : s ∈ FILLABLE_STATES -> edge rec s EXPIRED.

(** What no operation ever changes in a row. *)
Definition same_terms (o o' : Order) : Prop :=
  id o' = id o /\ client_order_id o' = client_order_id o /\ trade_date o' = trade_date o /\ symbol o' = symbol o /\
  side o' = side o /\ qty o' = qty o /\ price o' = price o /\ est_price o' = est_price o.

Definition follows (rec : bool) (o o' : Order) : Prop := same_terms o o' /\ rtc (edge rec) (state o) (state o').

Definition moved (rec : bool) (l l' : Ledger) : Prop := Forall2 (follows rec) (orders l) (orders l').

Definition moves (l l' : Ledger) : Prop := exists new os, orders l' = os ++ new /\ Forall2 (follows true) (orders l) os.

Lemma moved_map rec l l' (g : Order -> Order) : orders l' = g <$> orders l ->
  (forall o, o ∈ orders l -> follows rec o (g o)) -> moved rec l l'.
Proof.
  intros E Hg. unfold moved. rewrite E. apply Forall2_fmap_r, Forall_Forall2_diag, Forall_forall. exact Hg.
Qed.

Lemma moved_same rec l l' : orders l' = orders l -> moved rec l l'.
Proof. intros E. apply (moved_map rec l l' (fun o => o)); [by rewrite list_fmap_id|done]. Qed.

Lemma follows_trans rec x y z : follows rec x y -> follows rec y z -> follows rec x z.
Proof.
  intros [H1 H2] [K1 K2]. split; [|by etrans]. unfold same_terms in *. destruct_and!. split_and!; congruence.
Qed.

Lemma follows_list_trans rec xs ys zs :
  Forall2 (follows rec) xs ys -> Forall2 (follows rec) ys zs -> Forall2 (follows rec) xs zs.
Proof.
  intros H. revert zs. induction H as [|x y xs ys Hxy _ IH]; intros zs G; inversion G; subst; constructor;
    [by eapply follows_trans|by apply IH].
Qed.

Lemma moved_trans rec a b c : moved rec a b -> moved rec b c -> moved rec a c.
Proof. apply follows_list_trans. Qed.

Lemma edge_true rec s s' : rtc (edge rec) s s' -> rtc (edge true) s s'.
Proof. intros H. apply (rtc_subrel (edge rec)); [|done]. intros x y []; by constructor. Qed.

Lemma moved_moves rec l l' : moved rec l l' -> moves l l'.
Proof.
  intros H. exists [], (orders l'). rewrite app_nil_r. split; [done|]. eapply Forall2_impl; [exact H|].
  intros o o' [Ht He]. split; [done|]. by eapply edge_true.
Qed.

Lemma moves_trans a b c : moves a b -> moves b c -> moves a c.
Proof.
  intros (n1 & o1 & E1 & F1) (n2 & o2 & E2 & F2). rewrite E1 in F2.
  apply Forall2_app_inv_l in F2 as (p1 & p2 & G1 & G2 & ->). exists (p2 ++ n2), p1.
  split; [by rewrite app_assoc|]. by eapply follows_list_trans.
Qed.

Lemma moved_resolve rec s ev now us l :
  wf l -> Forall (fun o => o ∈ orders l /\ rtc (edge rec) (state o) s) us -> moved rec l (resolve_all s ev now us l).
Proof.
  intros Hwf H. eapply moved_map; [apply resolve_orders|]. intros o Ho. cbn beta.
  case_bool_decide as E; [|done]. split; [done|]. apply list_elem_of_fmap in E as (u & E & Hu).
  destruct (proj1 (Forall_forall _ _) H u Hu) as [Hin Hr]. by rewrite (id_unique l o u).
Qed.

(** The rows with this id can take fills. *)
Definition fillable_id (l : Ledger) (i : Z) : Prop :=
  Forall (fun o => id o = i -> state o ∈ FILLABLE_STATES) (orders l).

Lemma moved_book rec src now l p : fillable_id l (id p.1.1) -> moved rec l (book_fill src now l p).
Proof.
  intros H. destruct p as [[o t] a]. cbn [fst] in H. eapply moved_map; [done|]. intros x Hx. cbn beta.
  destruct (Z.eqb_spec (id x) (id o)) as [E|]; [|done]. split; [done|].
  pose proof (proj1 (Forall_forall _ _) H x Hx E) as Hs. apply rtc_once. cbn [fill_order state].
  destruct (_ =? _); by constructor.
Qed.

Lemma moved_books rec src now ps : forall l,
  NoDup ((fun p => id p.1.1) <$> ps) -> Forall (fun p => fillable_id l (id p.1.1)) ps ->
  moved rec l (foldl (book_fill src now) l ps).
Proof.
  induction ps as [|p ps IH]; intros l Hnd H; [by apply moved_same|]. rewrite fmap_cons in Hnd.
  apply NoDup_cons in Hnd as [Hp Hnd]. apply Forall_cons in H as [H1 H]. cbn [foldl].
  eapply moved_trans; [by apply moved_book|]. apply IH; [done|]. apply Forall_forall. intros q Hq.
  pose proof (proj1 (Forall_forall _ _) H q Hq) as Hf. destruct p as [[o t] a]. unfold fillable_id.
  cbn [book_fill event update set_orders orders add_fill]. apply Forall_fmap. apply (Forall_impl _ _ _ Hf).
  intros x Hx. unfold compose. destruct (Z.eqb_spec (id x) (id o)) as [E|]; [|done].
  cbn [fill_order id]. intros E'. exfalso. apply Hp. apply list_elem_of_fmap. exists q. split; [|done]. cbn. congruence.
Qed.

Lemma moved_apply_fills rec date sym sd live b_fill b_amt bs now l :
  wf l -> live ≡ₚ live_of l date sym sd ->
  moved rec l (apply_fills live b_fill b_amt bs now l).1.
Proof.
  intros Hwf Hl. unfold apply_fills. cbn zeta.
  destruct (Z.ltb_spec (b_fill - sum filled_qty live) 0); [destruct (_ <=? _); by apply moved_same|].
  destruct (Z.eqb_spec (b_fill - sum filled_qty live) 0); [by apply moved_same|].
  match goal with |- context [if ?b then _ else _] => destruct b eqn:Er end; [by apply moved_same|].
  apply Z.ltb_ge in Er.
  destruct (allocate_bookable date sym sd l live (b_fill - sum filled_qty live) (b_amt - sum filled_amt live) Hwf Hl)
    as (Hnd & _); [lia|exact Er|].
  apply moved_books; [exact Hnd|]. apply Forall_forall. intros p Hp%allocate_orders.
  apply list_elem_of_filter in Hp as [[Hs _] Hp]. rewrite Hl, live_of_filter in Hp.
  apply list_elem_of_filter in Hp as [_ Hp]. apply Forall_forall. intros x Hx E. by rewrite (id_unique l x p.1.1).
Qed.

Lemma moved_apply_totals rec date sym sd broker now l : wf l -> moved rec l (apply_totals date sym sd broker now l).1.
Proof.
  intros Hwf. destruct (totals_baseline l date sym sd) as [base|] eqn:Hb.
  2:{ unfold apply_totals. rewrite Hb. by apply moved_same. }
  destruct (apply_totals_cases date sym sd base broker now l Hwf Hb)
    as [(_ & ->)|(l1 & live & bs & W & _ & Hl & -> & _ & s & ev & us & -> & Hs & Hu)]; [by apply moved_same|].
  eapply moved_trans; [|by eapply moved_apply_fills]. apply moved_resolve; [done|].
  apply (Forall_impl _ _ _ Hu). intros o [Ho E]. split; [done|]. rewrite E. apply rtc_once.
  destruct Hs as [-> | ->]; constructor.
Qed.

(** The operations that add no order and take no answer. *)
Definition quiet (o : op) : bool := match o with NewOrder _ _ _ _ _ _ _ _ | Mark _ _ _ _ _ => false | _ => true end.

Definition recovers (o : op) : bool := match o with RecoverPending _ => true | _ => false end.

Lemma step_moved l o : wf l -> quiet o = true -> moved (recovers o) l (step l o).
Proof.
  intros Hwf Hm. destruct o; cbn [step quiet recovers] in *; try done.
  - apply moved_resolve; [done|]. apply Forall_forall. intros o [E Ho]%list_elem_of_filter. split; [done|].
    rewrite E. apply rtc_once. by constructor.
  - apply moved_same, set_totals_baseline_orders.
  - apply moved_same. unfold set_holdings_baseline. by case_bool_decide.
  - by apply moved_apply_totals.
  - unfold apply_notice. destruct (existsb _ _); [by apply moved_same|].
    destruct (find _ _) as [o|] eqn:Ef; [|by apply moved_same].
    destruct (negb _ || _ || _) eqn:Eg; [by apply moved_same|]. apply find_spec in Ef as [Ho _].
    apply orb_false_iff in Eg as [Eg _]. apply orb_false_iff in Eg as [Eg _].
    apply negb_false_iff, bool_decide_eq_true in Eg. cbn [fst].
    eapply (moved_trans _ _ (add_notice l (mkNotice key (id o) q (q * p) now))); [by apply moved_same|]. apply moved_book.
    apply Forall_forall. intros x Hx E. by rewrite (id_unique l x o).
  - unfold close_day. destruct (closed_days l !! date) as [[??]|]; [by apply moved_same|].
    destruct (negb (bool_decide _)); [by apply moved_same|]. destruct (negb _); [by apply moved_same|]. cbn [fst].
    eapply moved_trans; [|by apply moved_same]. apply moved_resolve; [done|]. apply Forall_forall.
    intros o [Hs Ho]%list_elem_of_filter. apply day_row_in, list_elem_of_filter in Ho as [_ Ho].
    split; [done|]. apply rtc_once. by constructor.
Qed.

Lemma step_moves l o : wf l -> (forall i s od msg now, o <> Mark i s od msg now) -> moves l (step l o).
Proof.
  intros Hwf Hm. destruct (quiet o) eqn:Hq; [by eapply moved_moves, step_moved|].
  destruct o; try done; [|by exfalso; eapply Hm]. cbn [step]. unfold new_order.
  destruct (by_client_id l cid); [by apply (moved_moves true), moved_same|].
  destruct (side_of side_text); [|by apply (moved_moves true), moved_same].
  destruct (_ && _); [|by apply (moved_moves true), moved_same]. eexists _, (orders l). split; [done|].
  by apply Forall_Forall2_diag, Forall_forall.
Qed.

Lemma run_moves ops : forall l, wf l -> Forall (fun o => forall i s od msg now, o <> Mark i s od msg now) ops ->
  moves l (run l ops).
Proof.
  induction ops as [|o ops IH]; intros l Hwf H; [by apply (moved_moves true), moved_same|]. apply Forall_cons in H as [Ho H].
  eapply moves_trans; [by apply step_moves|]. apply IH; [by apply ledger_step_wf|done].
Qed.

(** An order in one of these states stays in it. *)
Definition final_state (s : State) : bool := bool_decide (s ∈ [FILLED; REJECTED; NOT_SENT; EXPIRED]).

(** Without a recovery a submitted order stays submitted. *)
Lemma pending_edge s : rtc (edge false) PENDING_SUBMIT s -> s = PENDING_SUBMIT.
Proof. intros H. inversion H as [|? y ? He _]; subst; [done|]. inversion He; subst; [done|set_solver..]. Qed.

Lemma final_edge rec s s' : final_state s = true -> rtc (edge rec) s s' -> s' = s.
Proof.
  intros Hf H. inversion H as [|? y ? He _]; subst; [done|]. exfalso.
  destruct He as [| | |? Hs|? Hs|? Hs]; try done; revert Hf Hs; unfold final_state, FILLABLE_STATES;
    rewrite bool_decide_eq_true; set_solver.
Qed.

(** ** Properties *)

(** C8: Whatever operations run on a fresh ledger: order ids are 1, 2, 3, ...; no two
    orders have the same client id; every order has a positive quantity and fills between
    none and all of it, and its fill columns are the sums of its rows in the fills table;
    every fill is positive and belongs to an order; no notice is booked twice. *)
Theorem ledger_invariant ops : wf (run new_ledger ops).
Proof. apply ledger_run_wf, wf_new_ledger. Qed.

(** A break that stops the fills; a missing order does not. *)
Definition blocking (b : Break) : bool := match b with LedgerOrdersMissing _ => false | _ => true end.

(** After the broker's totals are applied to a key with a baseline, if anything was
    booked the live orders of the key have filled exactly the broker's quantity and amount
    since the baseline, whatever the split by rounding; with no blocking break the
    quantities agree or notices of the last minute explain the lag; with no break at all
    the ordered quantities agree too; and a blocking break books nothing. *)
Theorem apply_totals_matches date sym sd base broker now l :
  wf l -> totals_baseline l date sym sd = Some base ->
  let '(l', bs) := apply_totals date sym sd broker now l in
  let booked f := sum f (live_of l' date sym sd) in
  let due_qty := ccld_qty broker - ccld_qty base in
  (fills l' <> fills l -> booked filled_qty = due_qty /\ booked filled_amt = ccld_amt broker - ccld_amt base) /\
  (existsb blocking bs = false ->
     booked filled_qty = due_qty \/
     due_qty < booked filled_qty <= due_qty + notice_sum l' (fsub now NOTICE_GRACE_S) (id <$> live_of l' date sym sd)) /\
  (bs = [] -> booked qty = ord_qty broker - ord_qty base) /\
  (existsb blocking bs = true -> fills l' = fills l).
Proof.
  intros Hwf Hb.
  destruct (apply_totals_cases date sym sd base broker now l Hwf Hb)
    as [(_ & ->)|(l1 & live & bs & W & (Ef & _) & Hl & -> & Hbs & _)]; [by split_and!|].
  pose proof (apply_fills_spec date sym sd live (ccld_qty broker - ccld_qty base) (ccld_amt broker - ccld_amt base)
    bs now l1 W Hl) as H. destruct (apply_fills _ _ _ _ _ _) as [l' bs']. destruct H as [_ H]. rewrite <- Ef.
  assert (existsb blocking bs = false) as Hnb by (by destruct Hbs as [[-> _]|[_ -> ]]).
  assert (bs = [] -> sum qty (live_of l1 date sym sd) = ord_qty broker - ord_qty base) as Hq.
  { intros ->. by destruct Hbs as [[_ ?]|[_ ?]]. }
  destruct H as [(E & -> & ->)|[(E & -> & [[-> En]| -> ])|[(E & -> & r & _ & -> )|(E & -> & Hne & E1 & E2 & E3)]]];
    rewrite ?existsb_app, ?Hnb; split_and!; try done; try (by destruct bs).
  - intros _. by left.
  - intros _. right. lia.
  - intros _. by left.
  - intros Hbs0. rewrite E3. by apply Hq.
Qed.

(** A clock reading. *)
Definition at_s (n : Z) : float := of_int (1000 + n).

(** Two accepted buys of ten and five at 100. *)
Definition two_buys_ops : list op :=
  [SetTotalsBaseline (lit "20260102") (lit "005930") Buy (mkTotals 3 3 300);
   NewOrder (lit "c1") (lit "20260102") (lit "005930") (lit "buy") 10 100 0 (at_s 0);
   Mark 1 ACCEPTED (Some (lit "0001")) None (at_s 1);
   NewOrder (lit "c2") (lit "20260102") (lit "005930") (lit "buy") 5 100 0 (at_s 2);
   Mark 2 ACCEPTED (Some (lit "0002")) None (at_s 3)].

Definition two_buys : Ledger := run new_ledger two_buys_ops.

Lemma two_buys_wf : wf two_buys.
Proof. apply ledger_run_wf, wf_new_ledger. Qed.

Lemma apply_totals_matches_witness :
  let '(l', bs) := apply_totals (lit "20260102") (lit "005930") Buy (mkTotals 18 15 1501) (at_s 9) two_buys in
  bs = [] /\ sum filled_qty (live_of l' (lit "20260102") (lit "005930") Buy) = 12 /\
  sum filled_amt (live_of l' (lit "20260102") (lit "005930") Buy) = 1201.
Proof.
  assert (totals_baseline two_buys (lit "20260102") (lit "005930") Buy = Some (mkTotals 3 3 300)) as Hb by by vm_compute.
  assert ((apply_totals (lit "20260102") (lit "005930") Buy (mkTotals 18 15 1501) (at_s 9) two_buys).2 = []) as Hbs
    by by vm_compute.
  assert (length (fills (apply_totals (lit "20260102") (lit "005930") Buy (mkTotals 18 15 1501) (at_s 9) two_buys).1)
    = 2%nat) as Hf by by vm_compute.
  pose proof (apply_totals_matches (lit "20260102") (lit "005930") Buy (mkTotals 3 3 300) (mkTotals 18 15 1501)
    (at_s 9) two_buys two_buys_wf Hb) as H.
  destruct (apply_totals _ _ _ _ _ _) as [l' bs]. split; [exact Hbs|]. apply (proj1 H).
  cbn [fst] in Hf. intros E. by rewrite E in Hf.
Defined.

(** Once a day is closed (with at most the 100,000 orders the query returns), no order
    of it is open, the recorded summary is what its orders show, and nothing but an answer
    to a sent order or a new order of that day changes any of its orders again: totals,
    notices, recovery and closing again leave every one of its rows, fills included, as
    it was. *)
Theorem closed_day_frozen date b now l ts s ops :
  wf l -> closed_days l !! date = None -> zlen (day_orders l date) <= 100000 ->
  (close_day date b now l).2 = Closed ts s -> Forall (fun o => leaves_day date o = true) ops ->
  let l' := (close_day date b now l).1 in
  day_orders (run l' ops) date = day_orders l' date /\
  Forall (fun o => state o ∉ OPEN_STATES) (day_orders l' date) /\
  s_filled_qty s = sum filled_qty (live_in LIVE_STATES (day_orders (run l' ops) date)) /\
  s_filled_amt s = sum filled_amt (live_in LIVE_STATES (day_orders (run l' ops) date)).
Proof.
  intros Hwf Hc Hlen H Hops l'. destruct (close_day_orders date b now l ts s Hwf Hc Hlen H) as (Eo & Hu & E1 & E2).
  fold l' in Eo. assert (day_settled date l') as Hs.
  { unfold day_settled. rewrite Eo. apply Forall_fmap. apply (Forall_impl _ _ _ Hu). intros o Ho Hd. unfold compose in *.
    case_bool_decide as E; [by apply (bool_decide_unpack _)|]. intros Hst. specialize (Ho Hd). revert E Hst Ho.
    unfold OPEN_STATES, FILLABLE_STATES. rewrite !elem_of_cons, elem_of_nil. naive_solver. }
  assert (wf l') as Hwf' by (eapply frame_wf; [apply close_day_frame|done]).
  rewrite (day_run date ops l' Hwf' Hs Hops). split_and!; [done|..].
  - apply Forall_forall. intros o [Hd Ho]%list_elem_of_filter. by apply (proj1 (Forall_forall _ _) Hs).
  - rewrite E1. unfold day_orders. rewrite Eo. symmetry. by apply expired_live_sum.
  - rewrite E2. unfold day_orders. rewrite Eo. symmetry. by apply expired_live_sum.
Qed.

(** Later traffic of the closed day: a notice, larger totals, another close. *)
Definition after_close : list op :=
  [ApplyNotice (lit "20260102") (lit "2") 5 100 (lit "k9") (at_s 20);
   ApplyTotals (lit "20260102") (lit "005930") Buy (mkTotals 18 18 1801) (at_s 21);
   RecoverPending (at_s 22); CloseDay (lit "20260102") 0 (at_s 23)].

Lemma closed_day_frozen_witness :
  let l := step two_buys (ApplyTotals (lit "20260102") (lit "005930") Buy (mkTotals 18 15 1501) (at_s 9)) in
  let l' := (close_day (lit "20260102") 0 (at_s 10) l).1 in
  state <$> day_orders (run l' after_close) (lit "20260102") = [FILLED; EXPIRED] /\
  12 = sum filled_qty (live_in LIVE_STATES (day_orders (run l' after_close) (lit "20260102"))).
Proof.
  intros l l'.
  destruct (closed_day_frozen (lit "20260102") 0 (at_s 10) l (at_s 10) (mkSummary 2 0 0 12 1201 1 3) after_close)
    as (H1 & _ & H3 & _).
  - apply ledger_step_wf, two_buys_wf.
  - by vm_compute.
  - by vm_compute.
  - by vm_compute.
  - by repeat constructor.
  - split; [|exact H3]. unfold l'. rewrite H1. by vm_compute.
Defined.

(** Apart from answers to sent orders, every operation moves an order only along the
    ledger's state machine: submitted to unknown on recovery, unknown to accepted or not
    sent, accepted or partial to partial, filled or expired; an order never goes back to
    being submitted, keeps its place and id, and a filled, rejected, not-sent or expired
    order never changes state. *)
Theorem orders_follow_machine ops1 ops2 i o :
  Forall (fun op => forall i s od msg now, op <> Mark i s od msg now) ops2 ->
  let l := run new_ledger ops1 in
  orders l !! i = Some o ->
  exists o', orders (run l ops2) !! i = Some o' /\ id o' = id o /\ rtc (edge true) (state o) (state o') /\
    (final_state (state o) = true -> state o' = state o) /\
    (state o' = PENDING_SUBMIT -> state o = PENDING_SUBMIT).
Proof.
  intros Hm l Hi. destruct (run_moves ops2 l) as (new & os & E & F); [apply ledger_run_wf, wf_new_ledger|done|].
  destruct (Forall2_lookup_l _ _ _ _ _ F Hi) as (o' & Ho' & [Hid _] & Hr). exists o'.
  split_and!; try done.
  - rewrite E. by apply lookup_app_l_Some.
  - intros Hf. by eapply final_edge.
  - intros Hp. rewrite Hp in Hr. apply rtc_inv_r in Hr as [->|(y & _ & Hy)]; [done|]. inversion Hy.
Qed.

Lemma orders_follow_machine_witness :
  exists o', orders (run (run new_ledger two_buys_ops) after_close) !! 1%nat = Some o' /\ rtc (edge true) ACCEPTED (state o').
Proof.
  destruct (orders_follow_machine two_buys_ops after_close 1%nat
    (mkOrder 2 (lit "c2") (lit "20260102") (lit "005930") Buy 5 100 100 ACCEPTED (Some (lit "0002")) None 0 0
      (at_s 2) (at_s 3))) as (o' & H1 & _ & H2 & _).
  - by repeat constructor.
  - by vm_compute.
  - exists o'. split; [exact H1|exact H2].
Defined.

(** ** At most once *)

Lemma find_follows (p : Order -> bool) (R : Order -> Order -> Prop) os os' new o :
  Forall2 R os os' -> (forall x y, R x y -> p y = p x) -> find p os = Some o ->
  exists o', find p (os' ++ new) = Some o' /\ R o o'.
Proof.
  intros H Hp. induction H as [|x y xs ys Hxy _ IH]; [done|]. cbn. rewrite (Hp _ _ Hxy).
  destruct (p x); [|done]. intros [= <-]. by exists y.
Qed.

(** Earlier rows keep their identity and terms, and a noted key stays noted. *)
Definition grows (l l' : Ledger) : Prop :=
  (exists new os, orders l' = os ++ new /\ Forall2 same_terms (orders l) os) /\
  exists new, notices l' = notices l ++ new.

Lemma grows_map l l' new : notices l' = notices l ++ new ->
  Forall2 same_terms (orders l) (orders l') -> grows l l'.
Proof. intros E H. split; [|by exists new]. exists [], (orders l'). by rewrite app_nil_r. Qed.

Lemma frame_grows l l' : frame l l' -> grows l l'.
Proof.
  intros (_ & En & _ & H). apply (grows_map _ _ []); [by rewrite app_nil_r|].
  eapply Forall2_impl; [exact H|]. unfold same_terms. tauto.
Qed.

Lemma grows_refl l : grows l l.
Proof. apply frame_grows, frame_refl. Qed.

Lemma grows_trans a b c : grows a b -> grows b c -> grows a c.
Proof.
  intros [(n1 & o1 & E1 & F1) (k1 & K1)] [(n2 & o2 & E2 & F2) (k2 & K2)]. split.
  2:{ exists (k1 ++ k2). by rewrite K2, K1, app_assoc. }
  rewrite E1 in F2. apply Forall2_app_inv_l in F2 as (p1 & p2 & G1 & G2 & ->). exists (p2 ++ n2), p1.
  split; [by rewrite app_assoc|]. clear -F1 G1. revert p1 G1. unfold same_terms in *.
  induction F1 as [|x y xs ys H _ IH]; intros zs G; inversion G; subst; constructor; [|by apply IH].
  destruct_and!. split_and!; congruence.
Qed.

Lemma grows_book src now l p : grows l (book_fill src now l p).
Proof.
  destruct p as [[o t] a]. apply (grows_map _ _ []); [by rewrite app_nil_r|].
  cbn [book_fill event update set_orders orders add_fill]. apply Forall2_fmap_r, Forall_Forall2_diag, Forall_forall.
  intros x _. unfold same_terms. simpl. by destruct (_ =? _).
Qed.

Lemma grows_books src now ps : forall l, grows l (foldl (book_fill src now) l ps).
Proof.
  induction ps as [|p ps IH]; intros l; [apply grows_refl|]. cbn [foldl]. eapply grows_trans; [apply grows_book|apply IH].
Qed.

Lemma grows_apply_fills live b_fill b_amt bs now l : grows l (apply_fills live b_fill b_amt bs now l).1.
Proof.
  unfold apply_fills. cbn zeta.
  repeat match goal with |- context [if ?b then _ else _] => destruct b end; try apply grows_refl. apply grows_books.
Qed.

Lemma step_grows l o : grows l (step l o).
Proof.
  destruct o; cbn [step].
  - unfold new_order. destruct (by_client_id l cid); [apply grows_refl|]. destruct (side_of side_text); [|apply grows_refl].
    destruct (_ && _); [|apply grows_refl]. split; [|exists []; by rewrite app_nil_r]. eexists _, (orders l).
    split; [done|]. by apply Forall_Forall2_diag, Forall_forall.
  - apply frame_grows, frame_mark.
  - apply frame_grows, frame_recover.
  - destruct (set_totals_baseline_orders date sym sd t l) as (E1 & _ & E3).
    apply (grows_map _ _ []); [by rewrite E3, app_nil_r|]. rewrite E1. by apply Forall_Forall2_diag, Forall_forall.
  - unfold set_holdings_baseline. case_bool_decide; apply frame_grows; [apply frame_refl|].
    eapply frame_trans; [|apply frame_event]. by apply frame_base.
  - unfold apply_totals. destruct (totals_baseline l date sym sd); [|apply grows_refl].
    destruct (0 <? _); [destruct (negb _ && _); [|apply grows_refl]|];
      (eapply grows_trans; [apply frame_grows, frame_resolve|apply grows_apply_fills]).
  - unfold apply_notice. destruct (existsb _ _); [apply grows_refl|].
    destruct (find _ _) as [x|]; [|apply frame_grows, frame_event].
    destruct (negb _ || _ || _); [apply frame_grows, frame_event|]. cbn [fst].
    eapply (grows_trans _ (add_notice l (mkNotice key (id x) q (q * p) now))); [|apply grows_book].
    eapply grows_map; [done|]. by apply Forall_Forall2_diag, Forall_forall.
  - apply frame_grows, close_day_frame.
Qed.

Lemma run_grows ops : forall l, grows l (run l ops).
Proof.
  induction ops as [|o ops IH]; intros l; [apply grows_refl|]. eapply grows_trans; [apply step_grows|apply IH].
Qed.

Lemma by_client_id_grows l l' cid o :
  grows l l' -> by_client_id l cid = Some o -> exists o', by_client_id l' cid = Some o' /\ same_terms o o'.
Proof.
  intros [(new & os & E & F) _] H. unfold by_client_id. rewrite E. eapply find_follows; [exact F| |exact H].
  intros x y (_ & Ec & _). by rewrite Ec.
Qed.

Lemma find_snoc {A} (p : A -> bool) xs x : find p xs = None -> p x = true -> find p (xs ++ [x]) = Some x.
Proof. intros H Hx. induction xs as [|y ys IH]; simpl in *; [by rewrite Hx|]. destruct (p y); [done|by apply IH]. Qed.

Lemma new_order_recorded cid date sym st q p est now l l1 o c :
  new_order cid date sym st q p est now l = Ok (l1, o, c) -> by_client_id l1 cid = Some o.
Proof.
  unfold new_order. destruct (by_client_id l cid) as [o'|] eqn:Ec.
  - by intros [= <- <- <-].
  - destruct (side_of st); [|done]. destruct (_ && _); [|done]. intros [= <- <- <-].
    apply find_snoc; [exact Ec|]. by apply bool_decide_eq_true_2.
Qed.

(** A notice that was applied is in the ledger, stays there, and its key does nothing more. *)
Lemma applied_notice date od q p key now l :
  (apply_notice date od q p key now l).2 = Applied ->
  exists n, n ∈ notices (apply_notice date od q p key now l).1 /\ n_key n = key.
Proof.
  unfold apply_notice. destruct (existsb _ _); [done|]. destruct (find _ _) as [x|]; [|done].
  destruct (negb _ || _ || _); [done|]. intros _. cbn [fst book_fill event update set_orders add_fill notices add_notice].
  eexists. split; [apply elem_of_app; right; by left|done].
Qed.
Lemma grows_notice l l' n : grows l l' -> n ∈ notices l -> n ∈ notices l'.
Proof. intros [_ (new & ->)] H. apply elem_of_app. by left. Qed.
Lemma known_notice n date od q p key now l :
  n ∈ notices l -> n_key n = key -> apply_notice date od q p key now l = (l, Duplicate).
Proof.
  intros Hn Hk. unfold apply_notice.
  assert (existsb (fun n => bool_decide (n_key n = key)) (notices l) = true) as ->; [|done].
  apply existsb_exists. exists n. split; [by apply list_elem_of_In|by apply bool_decide_eq_true_2].
Qed.

(** C9: A client id makes one order and a notice key one fill: after [new_order] answered,
    repeating the id, with any other terms and after any operations, returns that order,
    with the same id, date, symbol, side and quantity, reports it as not new and changes
    nothing; after a notice was applied, its key is a duplicate that changes nothing. *)
Theorem at_most_once l ops :
  (forall cid date sym st q p est now l1 o c date' sym' st' q' p' est' now',
     new_order cid date sym st q p est now l = Ok (l1, o, c) ->
     exists o', same_terms o o' /\
       new_order cid date' sym' st' q' p' est' now' (run l1 ops) = Ok (run l1 ops, o', false)) /\
  (forall date od q p key now date' od' q' p' now',
     (apply_notice date od q p key now l).2 = Applied ->
     let l1 := (apply_notice date od q p key now l).1 in
     apply_notice date' od' q' p' key now' (run l1 ops) = (run l1 ops, Duplicate)).
Proof.
  split.
  - intros * H. apply new_order_recorded in H.
    destruct (by_client_id_grows _ _ cid o (run_grows ops l1) H) as (o' & Ho' & Ht).
    exists o'. split; [exact Ht|]. unfold new_order. by rewrite Ho'.
  - intros * H l1. destruct (applied_notice date od q p key now l H) as (n & Hn & Hk).
    by apply (known_notice n); [apply (grows_notice l1); [apply run_grows|]|].
Qed.

(** An amount the broker changed under an unchanged quantity is not looked at: the ledger
    keeps its own and reports nothing. *)
Lemma amounts_not_compared date sym sd base oq cq now l :
  totals_baseline l date sym sd = Some base -> live_in [UNKNOWN] (rows_of l date sym sd) = [] ->
  oq - ord_qty base = sum qty (live_of l date sym sd) ->
  cq - ccld_qty base = sum filled_qty (live_of l date sym sd) ->
  forall amt, apply_totals date sym sd (mkTotals oq cq amt) now l = (l, []).
Proof.
  intros Hb Hu Ho Hf amt. unfold apply_totals. rewrite Hb, Hu. fold (live_of l date sym sd).
  cbn [ord_qty ccld_qty ccld_amt]. rewrite Ho, Z.sub_diag. cbn. unfold apply_fills. rewrite Hf, Z.sub_diag. done.
Qed.

Lemma at_most_once_witness :
  let l1 := run two_buys after_close in
  exists o', id o' = 1 /\
  new_order (lit "c1") (lit "20260103") (lit "000660") (lit "sell") 7 0 50 (at_s 40) l1 = Ok (l1, o', false).
Proof.
  destruct (proj1 (at_most_once two_buys after_close) (lit "c1") (lit "20260102") (lit "005930") (lit "buy") 10 100 0 (at_s 4)
    two_buys (mkOrder 1 (lit "c1") (lit "20260102") (lit "005930") Buy 10 100 100 ACCEPTED (Some (lit "0001")) None 0 0
      (at_s 0) (at_s 1)) false (lit "20260103") (lit "000660") (lit "sell") 7 0 50 (at_s 40)) as (o' & [Hid _] & H).
  - by vm_compute.
  - exists o'. split; [exact Hid|exact H].
Defined.
End Ledger.
