(* ===== verification/Json.v ===== *)
(** * JSON text of flat objects

    [json.dumps(d, sort_keys=True, ensure_ascii=False)] and [json.loads] for the
    objects the sources hash and replay: text keys, integer and text values.  Anything
    else ([null], floats, nesting) is not read and gives [None]. *)

From S2P Require Import Prelude PyStr Hashes.

Inductive jval := JInt (z : Z) | JStr (s : pystr).
#[export] Instance jval_eq_dec : EqDecision jval.
Proof. solve_decision. Defined.

Abbreviation jobj := (list (pystr * jval)) (only parsing).

(** ** Writing *)

(** [str(z)]: the digits, most significant first. *)
Fixpoint digits (fuel : nat) (n : Z) (acc : pystr) : pystr :=
  match fuel with
  | O => acc
  | S fuel => if n <? 10 then (48 + n) :: acc else digits fuel (n / 10) ((48 + n mod 10) :: acc)
  end.
Definition digits_of (n : Z) : pystr := digits (S (Z.to_nat (Z.log2 n))) n [].
Definition str_int (z : Z) : pystr := if z <? 0 then 45 :: digits_of (- z) else digits_of z.

Definition esc_char (c : Z) : pystr :=
  if c =? 34 then [92; 34] else if c =? 92 then [92; 92]
  else if c =? 10 then [92; 110] else if c =? 13 then [92; 114] else if c =? 9 then [92; 116]
  else if c =? 12 then [92; 102] else if c =? 8 then [92; 98]
  else if c <? 32 then [92; 117; 48; 48; hex_digit (c / 16); hex_digit (c mod 16)]
  else [c].

Definition json_str (s : pystr) : pystr := 34 :: concat (esc_char <$> s) ++ [34].

Definition json_val (v : jval) : pystr := match v with JInt z => str_int z | JStr s => json_str s end.

Definition json_pair (p : pystr * jval) : pystr := json_str p.1 ++ [58; 32] ++ json_val p.2.

Fixpoint json_pairs (o : jobj) : pystr :=
  match o with [] => [] | [p] => json_pair p | p :: o => json_pair p ++ [44; 32] ++ json_pairs o end.

(** Code point order. *)
Fixpoint str_leb (a b : pystr) : bool :=
  match a, b with
  | [], _ => true
  | _ :: _, [] => false
  | x :: a, y :: b => (x <? y) || ((x =? y) && str_leb a b)
  end.

Fixpoint insert_key (p : pystr * jval) (o : jobj) : jobj :=
  match o with [] => [p] | q :: o => if str_leb p.1 q.1 then p :: q :: o else q :: insert_key p o end.
Definition sort_keys (o : jobj) : jobj := foldr insert_key [] o.

Definition json_dumps (o : jobj) : pystr := 123 :: json_pairs (sort_keys o) ++ [125].

(** ** Reading *)

Definition json_ws (c : Z) : bool := bool_decide (c ∈ [32; 9; 10; 13]).
Definition is_digit (c : Z) : bool := (48 <=? c) && (c <=? 57).

Fixpoint read_digits (acc : Z) (s : pystr) : Z * pystr :=
  match s with
  | c :: r => if is_digit c then read_digits (acc * 10 + (c - 48)) r else (acc, s)
  | [] => (acc, [])
  end.

(** [0] or digits without a leading zero; a fraction or an exponent is not read. *)
Definition read_nat (s : pystr) : option (Z * pystr) :=
  match s with
  | c :: r =>
      if negb (is_digit c) then None
      else
        let '(n, r) := if c =? 48 then (0, r) else read_digits (c - 48) r in
        match r with
        | e :: _ => if (e =? 46) || (e =? 69) || (e =? 101) then None else Some (n, r)
        | [] => Some (n, r)
        end
  | [] => None
  end.

Definition read_int (s : pystr) : option (Z * pystr) :=
  match s with
  | c :: r => if c =? 45 then '(n, r) ← read_nat r; Some (- n, r) else read_nat s
  | [] => None
  end.

Definition hex_value (c : Z) : option Z :=
  if is_digit c then Some (c - 48)
  else if (97 <=? c) && (c <=? 102) then Some (c - 87)
  else if (65 <=? c) && (c <=? 70) then Some (c - 55) else None.

Definition hex4 (a b c d : Z) : option Z :=
  a ← hex_value a; b ← hex_value b; c ← hex_value c; d ← hex_value d; Some (((a * 16 + b) * 16 + c) * 16 + d).

Definition unescape (e : Z) : option Z :=
  if e =? 34 then Some 34 else if e =? 92 then Some 92 else if e =? 47 then Some 47
  else if e =? 110 then Some 10 else if e =? 114 then Some 13 else if e =? 116 then Some 9
  else if e =? 102 then Some 12 else if e =? 98 then Some 8 else None.

Definition consf (c : Z) (x : option (pystr * pystr)) : option (pystr * pystr) :=
  '(s, r) ← x; Some (c :: s, r).

(** The character of a surrogate pair: [u] a high half, [q w] the next escape's start,
    [v] its value. *)
Definition low_half (u q w : Z) (v : option Z) : option Z :=
  if (0xD800 <=? u) && (u <? 0xDC00) && (q =? 92) && (w =? 117) then
    v ← v; if (0xDC00 <=? v) && (v <? 0xE000) then Some (0x10000 + (u - 0xD800) * 1024 + (v - 0xDC00)) else None
  else None.

(** The characters up to the closing quote, and what follows it. *)
Fixpoint read_body (s : pystr) : option (pystr * pystr) :=
  match s with
  | [] => None
  | c :: r =>
      if c =? 34 then Some ([], r)
      else if c =? 92 then
        match r with
        | [] => None
        | e :: r1 =>
            match unescape e with
            | Some x => consf x (read_body r1)
            | None =>
                if negb (e =? 117) then None
                else
                  match r1 with
                  | a1 :: a2 :: a3 :: a4 :: r2 =>
                      match hex4 a1 a2 a3 a4 with
                      | None => None
                      | Some u =>
                          match r2 with
                          | q :: w :: b1 :: b2 :: b3 :: b4 :: r3 =>
                              match low_half u q w (hex4 b1 b2 b3 b4) with
                              | Some x => consf x (read_body r3)
                              | None => consf u (read_body r2)
                              end
                          | _ => consf u (read_body r2)
                          end
                      end
                  | _ => None
                  end
            end
        end
      else if c <? 32 then None else consf c (read_body r)
  end.

Definition read_str (s : pystr) : option (pystr * pystr) :=
  match s with c :: r => if c =? 34 then read_body r else None | [] => None end.

Definition read_val (s : pystr) : option (jval * pystr) :=
  match s with
  | c :: _ =>
      if c =? 34 then '(x, r) ← read_str s; Some (JStr x, r) else '(n, r) ← read_int s; Some (JInt n, r)
  | [] => None
  end.

Definition skip_ws (s : pystr) : pystr := lstrip_by json_ws s.

(** Pairs up to the closing brace; [fuel] is the length of the text, and every pair
    takes characters off it. *)
Fixpoint read_pairs (fuel : nat) (s : pystr) : option (jobj * pystr) :=
  match fuel with
  | O => None
  | S fuel =>
      '(k, r) ← read_str s;
      match skip_ws r with
      | c :: r =>
          if c =? 58 then
            '(v, r) ← read_val (skip_ws r);
            match skip_ws r with
            | e :: r =>
                if e =? 125 then Some ([(k, v)], r)
                else if e =? 44 then '(o, r) ← read_pairs fuel (skip_ws r); Some ((k, v) :: o, r)
                else None
            | [] => None
            end
          else None
      | [] => None
      end
  end.

Definition json_loads (s : pystr) : option jobj :=
  match skip_ws s with
  | c :: r =>
      if c =? 123 then
        '(o, r) ← (match skip_ws r with
                   | e :: r' => if e =? 125 then Some ([], r') else read_pairs (length s) (skip_ws r)
                   | [] => None
                   end);
        match skip_ws r with [] => Some o | _ => None end
      else None
  | [] => None
  end.

(** [d[k]]: the last pair with the key; [None] is KeyError. *)
Definition jget (k : pystr) (o : jobj) : option jval :=
  snd <$> last (filter (fun p => p.1 = k) o).

Definition jint (k : pystr) (o : jobj) : option Z :=
  match jget k o with Some (JInt z) => Some z | _ => None end.
Definition jstr (k : pystr) (o : jobj) : option pystr :=
  match jget k o with Some (JStr s) => Some s | _ => None end.


(** ** Reading back *)

Lemma esc_lit c k r : esc_char c = [92; k] -> unescape k = Some c -> read_body (esc_char c ++ r) = consf c (read_body r).
Proof. intros -> H. cbn. by rewrite H. Qed.

Lemma hex_value_digit x : 0 <= x < 16 -> hex_value (hex_digit x) = Some x.
Proof.
  intros H. pose proof (forall_below (fun x => bool_decide (hex_value (hex_digit x) = Some x)) 16
    ltac:(by vm_compute) x H) as E. by apply bool_decide_eq_true in E.
Qed.

Lemma read_esc c r : 0 <= c -> read_body (esc_char c ++ r) = consf c (read_body r).
Proof.
  intros Hc. unfold esc_char.
  destruct (Z.eqb_spec c 34) as [->|E1]; [done|]. destruct (Z.eqb_spec c 92) as [->|E2]; [done|].
  destruct (Z.eqb_spec c 10) as [->|]; [done|]. destruct (Z.eqb_spec c 13) as [->|]; [done|].
  destruct (Z.eqb_spec c 9) as [->|]; [done|]. destruct (Z.eqb_spec c 12) as [->|]; [done|].
  destruct (Z.eqb_spec c 8) as [->|]; [done|]. destruct (Z.ltb_spec c 32) as [Hlt|Hge].
  - cbn [app read_body]. replace (unescape 117) with (@None Z) by done. cbn.
    unfold hex4. rewrite !hex_value_digit by zdm. cbn.
    replace ((((48 - 48) * 16 + (48 - 48)) * 16 + c / 16) * 16 + c mod 16) with c by zdm.
    destruct r as [|q [|w [|b1 [|b2 [|b3 [|b4 r]]]]]]; try done.
    unfold low_half. destruct (Z.leb_spec 0xD800 c); [lia|done].
  - cbn [app read_body]. rewrite (proj2 (Z.eqb_neq c 34)), (proj2 (Z.eqb_neq c 92)) by done.
    by rewrite (proj2 (Z.ltb_ge c 32)).
Qed.

Lemma read_json_str s r : Forall (fun c => 0 <= c) s -> read_str (json_str s ++ r) = Some (s, r).
Proof.
  intros H. unfold json_str, read_str. cbn [app]. rewrite Z.eqb_refl.
  induction H as [|c s Hc _ IH]; [done|]. rewrite fmap_cons. cbn [concat]. rewrite <- !app_assoc.
  rewrite read_esc by done. rewrite <- app_assoc in IH. by rewrite IH.
Qed.

(** No more digits here. *)
Definition no_digit (r : pystr) : Prop := match r with c :: _ => is_digit c = false | [] => True end.

(** The text after a number. *)
Definition num_ends (r : pystr) : Prop :=
  match r with c :: _ => is_digit c = false /\ c <> 46 /\ c <> 69 /\ c <> 101 | [] => True end.

Definition digit_step (a c : Z) : Z := a * 10 + (c - 48).

Lemma digits_acc fuel : forall n acc, digits fuel n acc = digits fuel n [] ++ acc.
Proof.
  induction fuel as [|fuel IH]; intros n acc; [done|]. cbn. destruct (n <? 10); [done|].
  rewrite IH, (IH _ [_]), <- app_assoc. done.
Qed.

Lemma digits_step fuel n : 10 <= n -> digits (S fuel) n [] = digits fuel (n / 10) [] ++ [48 + n mod 10].
Proof. intros H. cbn [digits]. rewrite (proj2 (Z.ltb_ge n 10)) by done. apply digits_acc. Qed.

Lemma digits_spec fuel : forall n, 0 <= n < 10 ^ Z.of_nat fuel -> (0 < fuel)%nat ->
  foldl digit_step 0 (digits fuel n []) = n /\ Forall (fun c => is_digit c = true) (digits fuel n []) /\
  exists c t, digits fuel n [] = c :: t /\ (c = 48 -> n = 0 /\ t = []).
Proof.
  induction fuel as [|fuel IH]; intros n Hn Hf; [lia|].
  destruct (Z.ltb_spec n 10) as [Hlt|Hge].
  - cbn. rewrite (proj2 (Z.ltb_lt n 10)) by done. split_and!.
    + cbn [foldl]. unfold digit_step. lia.
    + repeat constructor. unfold is_digit. apply andb_true_iff. lia.
    + eexists _, _. split; [done|]. intros E. split; [lia|done].
  - rewrite digits_step by done. rewrite Nat2Z.inj_succ, Z.pow_succ_r in Hn by lia.
    assert (0 < fuel)%nat by (destruct fuel; [cbn in Hn; lia|lia]).
    destruct (IH (n / 10)) as (E & F & c & t & Ed & Hc); [zdm|lia|]. split_and!.
    + rewrite foldl_app, E. cbn [foldl]. unfold digit_step. zdm.
    + apply Forall_app. split; [done|]. repeat constructor. unfold is_digit. apply andb_true_iff. zdm.
    + rewrite Ed. eexists _, _. split; [done|]. intros ->. destruct (Hc eq_refl). exfalso. zdm.
Qed.

Lemma read_digits_app ds : forall a r, Forall (fun c => is_digit c = true) ds -> num_ends r ->
  read_digits a (ds ++ r) = (foldl digit_step a ds, r).
Proof.
  induction ds as [|d ds IH]; intros a r H Hr.
  - cbn. destruct r as [|c r]; [done|]. cbn. destruct Hr as [-> _]. done.
  - apply Forall_cons in H as [Hd H]. cbn. rewrite Hd. by apply IH.
Qed.

Lemma digits_fuel n : 0 <= n -> n < 10 ^ Z.of_nat (S (Z.to_nat (Z.log2 n))).
Proof.
  intros H. rewrite Nat2Z.inj_succ, Z2Nat.id by apply Z.log2_nonneg.
  destruct (Z.eq_dec n 0) as [->|]; [done|]. apply Z.lt_le_trans with (2 ^ Z.succ (Z.log2 n)).
  - apply Z.log2_spec. lia.
  - apply Z.pow_le_mono_l. pose proof (Z.log2_nonneg n). lia.
Qed.

Lemma read_digits_of n r : 0 <= n -> num_ends r ->
  read_nat (digits_of n ++ r) = Some (n, r) /\ exists c t, digits_of n = c :: t /\ is_digit c = true.
Proof.
  intros Hn Hr. unfold digits_of.
  destruct (digits_spec (S (Z.to_nat (Z.log2 n))) n) as (E & F & c & t & Ed & Hc);
    [split; [done|by apply digits_fuel]|lia|].
  rewrite Ed in *. apply Forall_cons in F as [Hd F]. split; [|by eexists _, _].
  unfold read_nat. cbn [app]. rewrite Hd. cbn [negb].
  assert ((if c =? 48 then (0, t ++ r) else read_digits (c - 48) (t ++ r)) = (n, r)) as ->.
  { destruct (Z.eqb_spec c 48) as [->|].
    - destruct (Hc eq_refl) as [-> ->]. done.
    - rewrite read_digits_app by done. cbn [foldl] in E. unfold digit_step at 2 in E.
      replace (0 * 10 + (c - 48)) with (c - 48) in E by lia. by rewrite E. }
  destruct r as [|e r]; [done|]. destruct Hr as (_ & H1 & H2 & H3).
  rewrite (proj2 (Z.eqb_neq e 46)), (proj2 (Z.eqb_neq e 69)), (proj2 (Z.eqb_neq e 101)) by done. done.
Qed.

Lemma read_str_int z r : num_ends r ->
  read_int (str_int z ++ r) = Some (z, r) /\
  exists c t, str_int z = c :: t /\ json_ws c = false /\ c <> 34 /\ (c = 45 \/ is_digit c = true).
Proof.
  intros Hr. unfold str_int. destruct (Z.ltb_spec z 0).
  - destruct (read_digits_of (- z) r) as [H1 _]; [lia|done|]. split.
    + cbn [app read_int]. rewrite Z.eqb_refl, H1. cbn. do 2 f_equal. lia.
    + eexists _, _. split_and!; try done. by left.
  - destruct (read_digits_of z r) as [H1 (c & t & Ed & Hd)]; [lia|done|]. rewrite Ed in *.
    assert (48 <= c <= 57) by (unfold is_digit in Hd; apply andb_true_iff in Hd; lia). split.
    + cbn [app] in *. unfold read_int. by rewrite (proj2 (Z.eqb_neq c 45)) by lia.
    + eexists _, _. split_and!; try done; [|lia|by right].
      apply bool_decide_eq_false. rewrite !elem_of_cons, elem_of_nil. lia.
Qed.

(** A value the writer can write: its text has no negative code points. *)
Definition val_ok (v : jval) : Prop := match v with JInt _ => True | JStr s => Forall (fun c => 0 <= c) s end.
Definition pair_ok (p : pystr * jval) : Prop := Forall (fun c => 0 <= c) p.1 /\ val_ok p.2.

Lemma read_json_val v r : val_ok v -> num_ends r -> read_val (json_val v ++ r) = Some (v, r) /\
  exists c t, json_val v = c :: t /\ json_ws c = false.
Proof.
  intros Hv Hr. destruct v as [z|s].
  - destruct (read_str_int z r Hr) as (E & c & t & Ec & Hw & Hq & _). cbn [json_val]. split; [|by eexists _, _].
    unfold read_val. rewrite Ec in *. cbn [app] in *. rewrite (proj2 (Z.eqb_neq c 34)), E by done. done.
  - cbn [json_val val_ok] in *. split; [|by eexists _, _].
    unfold read_val. pose proof (read_json_str s r Hv) as E. unfold json_str in *. cbn [app] in *.
    rewrite Z.eqb_refl, E. done.
Qed.

Lemma skip_ws_here c r : json_ws c = false -> skip_ws (c :: r) = c :: r.
Proof. intros H. unfold skip_ws. cbn. by rewrite H. Qed.

Lemma skip_ws_space r : skip_ws (32 :: r) = skip_ws r.
Proof. done. Qed.

Lemma read_json_pairs o : forall fuel r, Forall pair_ok o -> o <> [] -> (length o <= fuel)%nat ->
  read_pairs fuel (json_pairs o ++ 125 :: r) = Some (o, r).
Proof.
  induction o as [|[k v] o IH]; intros fuel r H Hne Hf; [done|]. destruct fuel as [|fuel]; [cbn in Hf; lia|].
  apply Forall_cons in H as [[Hk Hv] H]. cbn [fst snd] in *.
  assert (forall tail, json_pair (k, v) ++ tail = json_str k ++ 58 :: 32 :: (json_val v ++ tail)) as Ep.
  { intros. unfold json_pair. cbn [fst snd]. rewrite <- !app_assoc. done. }
  destruct o as [|p o].
  - cbn [json_pairs]. rewrite Ep. cbn [read_pairs app].
    rewrite read_json_str by done. cbn [mbind option_bind]. rewrite skip_ws_here by done. rewrite Z.eqb_refl.
    destruct (read_json_val v (125 :: r) Hv) as [E (c & t & Ec & Hw)]; [done|]. rewrite skip_ws_space, Ec in *.
    cbn [app] in *. rewrite (skip_ws_here c), E by done. cbn [mbind option_bind]. by rewrite skip_ws_here.
  - change (json_pairs ((k, v) :: p :: o)) with (json_pair (k, v) ++ [44; 32] ++ json_pairs (p :: o)).
    rewrite <- !app_assoc, Ep. cbn [read_pairs].
    rewrite read_json_str by done. cbn [mbind option_bind]. rewrite skip_ws_here by done. rewrite Z.eqb_refl.
    cbn [app]. destruct (read_json_val v (44 :: 32 :: json_pairs (p :: o) ++ 125 :: r) Hv) as [E (c & t & Ec & Hw)]; [done|].
    rewrite skip_ws_space, Ec in *. cbn [app] in *. rewrite (skip_ws_here c), E by done. cbn [mbind option_bind].
    rewrite skip_ws_here by done. cbn [Z.eqb Pos.eqb]. rewrite skip_ws_space.
    assert (skip_ws (json_pairs (p :: o) ++ 125 :: r) = json_pairs (p :: o) ++ 125 :: r) as ->.
    { destruct p as [k' v'], o; reflexivity. }
    rewrite IH by (done || cbn in *; lia). done.
Qed.

Lemma insert_key_perm p o : insert_key p o ≡ₚ p :: o.
Proof.
  induction o as [|q o IH]; [done|]. cbn. destruct (str_leb p.1 q.1); [done|]. rewrite IH. apply perm_swap.
Qed.

Lemma sort_keys_perm o : sort_keys o ≡ₚ o.
Proof. induction o as [|p o IH]; [done|]. cbn. by rewrite insert_key_perm, IH. Qed.

Lemma json_pairs_length o : (length o <= length (json_pairs o))%nat.
Proof.
  induction o as [|p o IH]; [done|]. destruct o as [|q o]; [cbn; lia|].
  change (json_pairs (p :: q :: o)) with (json_pair p ++ [44; 32] ++ json_pairs (q :: o)).
  rewrite !length_app. cbn [length] in *. lia.
Qed.

(** Reading what was written gives the pairs in key order. *)
Lemma json_loads_dumps o : Forall pair_ok o -> json_loads (json_dumps o) = Some (sort_keys o).
Proof.
  intros H. assert (Forall pair_ok (sort_keys o)) as Hs by by rewrite sort_keys_perm.
  unfold json_loads, json_dumps. rewrite skip_ws_here by done. rewrite Z.eqb_refl.
  destruct (sort_keys o) as [|p ps] eqn:Es; [done|]. rewrite <- Es in *.
  assert (exists t, json_pairs (sort_keys o) = 34 :: t) as [t Et].
  { rewrite Es. destruct p as [k v], ps; eexists; reflexivity. }
  assert (skip_ws (json_pairs (sort_keys o) ++ [125]) = json_pairs (sort_keys o) ++ [125]) as ->
    by by rewrite Et.
  rewrite read_json_pairs; [|done|by rewrite Es|].
  - rewrite Et. done.
  - cbn [length]. rewrite length_app. pose proof (json_pairs_length (sort_keys o)). lia.
Qed.

Lemma jget_perm k o o' : NoDup (fst <$> o) -> o ≡ₚ o' -> jget k o = jget k o'.
Proof.
  intros Hnd Hp. unfold jget.
  assert (filter (fun p : pystr * jval => p.1 = k) o = filter (fun p => p.1 = k) o') as ->; [|done].
  assert (length (filter (fun p : pystr * jval => p.1 = k) o) <= 1)%nat as Hl.
  { clear Hp. induction o as [|q o IH]; [cbn; lia|]. rewrite fmap_cons in Hnd. apply NoDup_cons in Hnd as [Hq Hnd].
    destruct (decide (q.1 = k)) as [E|]; [|rewrite filter_cons_False by done; by apply IH].
    rewrite filter_cons_True by done. destruct (filter _ o) as [|q' fs] eqn:Ef; [cbn; lia|].
    exfalso. apply Hq. assert (q' ∈ filter (fun p : pystr * jval => p.1 = k) o) as Hin by (rewrite Ef; left).
    apply list_elem_of_filter in Hin as [E' Hin]. apply list_elem_of_fmap. exists q'. split; [congruence|done]. }
  assert (filter (fun p : pystr * jval => p.1 = k) o ≡ₚ filter (fun p => p.1 = k) o') as Hf by by rewrite Hp.
  destruct (filter (fun p : pystr * jval => p.1 = k) o) as [|x [|y l]] eqn:E; [|..|cbn in Hl; lia].
  - by apply Permutation_nil in Hf.
  - by apply Permutation_singleton_l in Hf.
Qed.

Lemma str_int_chars z : Forall (fun c => c = 45 \/ is_digit c = true) (str_int z).
Proof.
  assert (forall n, 0 <= n -> Forall (fun c => c = 45 \/ is_digit c = true) (digits_of n)) as H.
  { intros n Hn. destruct (digits_spec (S (Z.to_nat (Z.log2 n))) n) as (_ & F & _);
      [split; [done|by apply digits_fuel]|lia|]. apply (Forall_impl _ _ _ F). auto. }
  unfold str_int. destruct (Z.ltb_spec z 0); [constructor; [by left|]|]; apply H; lia.
Qed.

Lemma str_int_inj z z' : str_int z = str_int z' -> z = z'.
Proof.
  intros E. destruct (read_str_int z []) as [H _]; [done|]. destruct (read_str_int z' []) as [H' _]; [done|].
  rewrite E in H. congruence.
Qed.
