(* ===== verification/Contest.v ===== *)
(** * The contest ledger (src/src/mdfeed/contest.py)

    Accounts, positions and orders of the participants, the hash-chained journal of
    every movement, and the check that recomputes the tables from the journal.  Every
    writing method is one transaction: an error leaves the database as it was.  A clock
    reading is its [repr], the only thing the code does with it.

    An integer of more than 64 bits cannot be a parameter of a statement and raises.  The
    one sum that SQLite makes itself, [cash + delta], is exact here; past 64 bits SQLite
    would make it a floating-point number. *)

From S2P Require Import Prelude PyStr Hashes Json.

Module Contest.

Inductive OrderState := FILLED | REJECTED.
#[export] Instance order_state_eq_dec : EqDecision OrderState.
Proof. solve_decision. Defined.

Definition GENESIS : pystr := replicate 64 48.

Record Config := mkConfig { initial_cash : Z; fee_ppm : Z; tax_ppm : Z }.
Definition default_config : Config := mkConfig 10000000 150 2000.

Record Participant := mkParticipant { p_id : Z; nickname : pystr; pw_hash : pystr; p_ts : pystr }.
Record Invite := mkInvite { code : pystr; i_ts : pystr; used_by : option Z; used_ts : option pystr }.
Inductive Reason := NoPrice | CashShort (need have : Z) | HoldingShort (held : Z).
Record Order := mkOrder
  { o_id : Z; o_pid : Z; client_order_id : pystr; symbol : pystr; side : pystr; qty : Z; price : Z;
    amount : Z; fee : Z; tax : Z; state : OrderState; reason : option Reason; o_ts : pystr }.
Record Row := mkRow
  { j_id : Z; ts : pystr; kind : pystr; j_pid : Z; detail : pystr; prev_hash : pystr; hash : pystr }.

Record Db := mkDb
  { participants : list Participant; invites : list Invite; accounts : gmap Z Z;
    positions : gmap (Z * pystr) (Z * Z); orders : list Order; journal : list Row; halted : option pystr }.

Definition new_db : Db := mkDb [] [] ∅ ∅ [] [] None.

Inductive ContestError := BadInvite | NicknameTaken | IntegrityError | TypeError | UnicodeEncodeError | OverflowError.

(** A text SQLite accepts as a parameter. *)
Definition bindable (s : pystr) : bool := match utf8_encode s with Some _ => true | None => false end.

(** An integer SQLite accepts as a parameter. *)
Definition int64 (z : Z) : bool := (- 2 ^ 63 <=? z) && (z <? 2 ^ 63).

(** ** The journal *)

Definition bar : pystr := [124].

Definition chain_text (prev t k : pystr) (pid : Z) (d : pystr) : pystr :=
  prev ++ bar ++ t ++ bar ++ k ++ bar ++ str_int pid ++ bar ++ d.

Definition chain (prev t k : pystr) (pid : Z) (d : pystr) : option pystr :=
  b ← utf8_encode (chain_text prev t k pid d); Some (hexdigest (sha256 b)).

Definition last_hash (js : list Row) : pystr := match last js with Some j => hash j | None => GENESIS end.

Definition add_row (t k : pystr) (pid : Z) (d : jobj) (db : Db) : result ContestError Db :=
  let prev := last_hash (journal db) in
  let text := json_dumps d in
  match chain prev t k pid text with
  | Some h => Ok (mkDb (participants db) (invites db) (accounts db) (positions db) (orders db)
                    (journal db ++ [mkRow (zlen (journal db) + 1) t k pid text prev h]) (halted db))
  | None => Err UnicodeEncodeError
  end.

(** ** Joining *)

Definition create_invites (codes : list pystr) (now : pystr) (db : Db) : result ContestError Db :=
  guard! bool_decide (NoDup (codes ++ (code <$> invites db))) else IntegrityError in
  Ok (mkDb (participants db) (invites db ++ ((fun c => mkInvite c now None None) <$> codes)) (accounts db)
        (positions db) (orders db) (journal db) (halted db)).

Definition use_invite (c : pystr) (pid : Z) (now : pystr) (i : Invite) : Invite :=
  if bool_decide (code i = c) then mkInvite c (i_ts i) (Some pid) (Some now) else i.

Definition deposit_detail (a : Z) : jobj := [(lit "amount", JInt a)].

Definition signup (cfg : Config) (c nick pw now t : pystr) (db : Db) : result ContestError (Db * Participant) :=
  guard! bindable c else UnicodeEncodeError in
  guard! existsb (fun i => bool_decide (code i = c) && bool_decide (used_by i = None)) (invites db) else BadInvite in
  guard! bindable nick else UnicodeEncodeError in
  guard! negb (existsb (fun p => bool_decide (nickname p = nick)) (participants db)) else NicknameTaken in
  guard! bindable pw else UnicodeEncodeError in
  guard! int64 (initial_cash cfg) else OverflowError in
  let pid := zlen (participants db) + 1 in
  let p := mkParticipant pid nick pw now in
  let! db := add_row t (lit "deposit") pid (deposit_detail (initial_cash cfg))
    (mkDb (participants db ++ [p]) (use_invite c pid now <$> invites db) (<[pid := initial_cash cfg]> (accounts db))
       (positions db) (orders db) (journal db) (halted db)) in
  Ok (db, p).

Definition credentials (nick : pystr) (db : Db) : option (Z * pystr) :=
  (fun p => (p_id p, pw_hash p)) <$> find (fun p => bool_decide (nickname p = nick)) (participants db).

(** ** Orders *)

Definition costs (cfg : Config) (sd : pystr) (q p : Z) : Z * Z * Z :=
  let a := q * p in
  (a, a * fee_ppm cfg / 1000000, if bool_decide (sd = lit "sell") then a * tax_ppm cfg / 1000000 else 0).

Definition find_order (pid : Z) (cid : pystr) (db : Db) : option Order :=
  find (fun o => (o_pid o =? pid) && bool_decide (client_order_id o = cid)) (orders db).

Definition why_not (sd : pystr) (q p a f cash held : Z) : option Reason :=
  if p <=? 0 then Some NoPrice
  else if bool_decide (sd = lit "buy") && (cash <? a + f) then Some (CashShort (a + f) cash)
  else if bool_decide (sd = lit "sell") && (held <? q) then Some (HoldingShort held)
  else None.

Definition fill_detail (o : Order) (cash_delta : Z) : jobj :=
  [(lit "order_id", JInt (o_id o)); (lit "symbol", JStr (symbol o)); (lit "side", JStr (side o));
   (lit "qty", JInt (qty o)); (lit "price", JInt (price o)); (lit "amount", JInt (amount o));
   (lit "fee", JInt (fee o)); (lit "tax", JInt (tax o)); (lit "cash_delta", JInt cash_delta)].

(** The change in cash and the new holding and cost. *)
Definition fill_effect (sd : pystr) (q a f x held cost : Z) : Z * Z * Z :=
  if bool_decide (sd = lit "buy") then (- (a + f), held + q, cost + a + f)
  else (a - f - x, held - q, cost - cost * q / held).

Definition place (cfg : Config) (pid : Z) (cid sym sd : pystr) (q p : Z) (t_order t_row : pystr) (db : Db)
    : result ContestError (Db * Order * bool) :=
  guard! int64 pid else OverflowError in
  guard! bindable cid else UnicodeEncodeError in
  match find_order pid cid db with
  | Some o => Ok (db, o, false)
  | None =>
      let '(a, f, x) := costs cfg sd q p in
      match accounts db !! pid with
      | None => Err TypeError
      | Some cash =>
          guard! bindable sym else UnicodeEncodeError in
          let '(held, cost) := default (0, 0) (positions db !! (pid, sym)) in
          let why := why_not sd q p a f cash held in
          guard! bindable sd else UnicodeEncodeError in
          guard! forallb int64 [q; p; a; f; x] else OverflowError in
          guard! bool_decide (sd ∈ [lit "buy"; lit "sell"]) && (0 <? q) else IntegrityError in
          let o := mkOrder (zlen (orders db) + 1) pid cid sym sd q p a f x
                     (match why with Some _ => REJECTED | None => FILLED end) why t_order in
          match why with
          | Some _ => Ok (mkDb (participants db) (invites db) (accounts db) (positions db) (orders db ++ [o])
                            (journal db) (halted db), o, true)
          | None =>
              let '(cash_delta, new_qty, new_cost) := fill_effect sd q a f x held cost in
              guard! int64 cash_delta else OverflowError in
              guard! forallb int64 [new_qty; new_cost] else OverflowError in
              guard! 0 <=? new_qty else IntegrityError in
              let! db := add_row t_row (lit "fill") pid (fill_detail o cash_delta)
                (mkDb (participants db) (invites db) (<[pid := cash + cash_delta]> (accounts db))
                   (<[(pid, sym) := (new_qty, new_cost)]> (positions db)) (orders db ++ [o]) (journal db) (halted db)) in
              Ok (db, o, true)
          end
      end
  end.

(** ** Halting *)

Definition halt (why : pystr) (db : Db) : Db :=
  mkDb (participants db) (invites db) (accounts db) (positions db) (orders db) (journal db) (Some why).
Definition resume (db : Db) : Db :=
  mkDb (participants db) (invites db) (accounts db) (positions db) (orders db) (journal db) None.

(** ** The integrity check *)

Record Books := mkBooks
  { b_prev : pystr; b_cash : gmap Z Z; b_pos : gmap (Z * pystr) Z; b_fills : gmap Z jobj }.
Definition no_books : Books := mkBooks GENESIS ∅ ∅ ∅.

(** [Raised]: a detail the code fails on (no object, a missing key, text for a number), and
    those it would take beyond the integers and texts it writes itself (null, floating-point
    numbers, nested values), which only a tampered journal has. *)
Inductive Stop := ChainBroken (journal_id : Z) | Raised.

Definition need {A} (x : option A) : result Stop A := match x with Some a => Ok a | None => Err Raised end.

Definition row_chain (j : Row) (prev : pystr) : option pystr := chain prev (ts j) (kind j) (j_pid j) (detail j).

Definition replay_row (b : Books) (j : Row) : result Stop Books :=
  guard! bool_decide (prev_hash j = b_prev b) else ChainBroken (j_id j) in
  let! h := need (row_chain j (b_prev b)) in
  guard! bool_decide (hash j = h) else ChainBroken (j_id j) in
  let! d := need (json_loads (detail j)) in
  if bool_decide (kind j = lit "deposit") then
    let! a := need (jint (lit "amount") d) in
    Ok (mkBooks (hash j) (<[j_pid j := default 0 (b_cash b !! j_pid j) + a]> (b_cash b)) (b_pos b) (b_fills b))
  else if bool_decide (kind j = lit "fill") then
    let! delta := need (jint (lit "cash_delta") d) in
    let! sym := need (jstr (lit "symbol") d) in
    let! sd := need (jstr (lit "side") d) in
    let! q := need (jint (lit "qty") d) in
    let! oid := need (jint (lit "order_id") d) in
    let k := (j_pid j, sym) in
    Ok (mkBooks (hash j) (<[j_pid j := default 0 (b_cash b !! j_pid j) + delta]> (b_cash b))
          (<[k := default 0 (b_pos b !! k) + (if bool_decide (sd = lit "buy") then q else - q)]> (b_pos b))
          (<[oid := d]> (b_fills b)))
  else Ok (mkBooks (hash j) (b_cash b) (b_pos b) (b_fills b)).

Fixpoint replay (b : Books) (js : list Row) : result Stop Books :=
  match js with [] => Ok b | j :: js => let! b := replay_row b j in replay b js end.

Definition compared (o : Order) : list (pystr * Z) :=
  [(lit "qty", qty o); (lit "price", price o); (lit "amount", amount o); (lit "fee", fee o); (lit "tax", tax o)].

(** [any(o[k] != f[k] for k in ...)]; [None] is KeyError. *)
Fixpoint any_differs (ks : list (pystr * Z)) (d : jobj) : option bool :=
  match ks with
  | [] => Some false
  | (k, v) :: ks =>
      match jget k d with
      | None => None
      | Some x => if bool_decide (x = JInt v) then any_differs ks d else Some true
      end
  end.

Definition order_differs (o : option Order) (d : option jobj) : option bool :=
  match o, d with Some o, Some d => any_differs (compared o) d | _, _ => Some true end.

Definition filled_orders (os : list Order) : gmap Z Order :=
  list_to_map ((fun o => (o_id o, o)) <$> filter (fun o => state o = FILLED) os).

(** The ids whose two sides differ, or a key error. *)
Fixpoint differing (filled : gmap Z Order) (fills : gmap Z jobj) (ids : list Z) : option (list Z) :=
  match ids with
  | [] => Some []
  | i :: ids =>
      match order_differs (filled !! i) (fills !! i) with
      | None => None
      | Some d => rest ← differing filled fills ids; Some (if d then i :: rest else rest)
      end
  end.

(** The participants, positions and orders that disagree with the journal; the code
    lists each group in key order. *)
Record Report := mkReport { cash_mismatch : gset Z; position_mismatch : gset (Z * pystr); order_mismatch : list Z }.

Definition integrity (db : Db) : result Stop Report :=
  let! b := replay no_books (journal db) in
  let table_pos := fst <$> positions db in
  let filled := filled_orders (orders db) in
  let! os := need (differing filled (b_fills b) (elements (dom filled ∪ dom (b_fills b)))) in
  Ok (mkReport (dom (filter (fun x => default 0 (b_cash b !! x.1) <> x.2) (accounts db)))
        (filter (fun k => default 0 (table_pos !! k) <> default 0 (b_pos b !! k)) (dom table_pos ∪ dom (b_pos b))) os).

(** ** Sequences of operations *)

Inductive op :=
| CreateInvites (codes : list pystr) (now : pystr)
| Signup (c nick pw now t : pystr)
| Place (pid : Z) (cid sym sd : pystr) (q p : Z) (t_order t_row : pystr)
| Halt (why : pystr)
| Resume.

Definition step (cfg : Config) (db : Db) (o : op) : Db :=
  match o with
  | CreateInvites cs now => match create_invites cs now db with Ok db' => db' | Err _ => db end
  | Signup c n pw now t => match signup cfg c n pw now t db with Ok (db', _) => db' | Err _ => db end
  | Place pid cid sym sd q p t1 t2 => match place cfg pid cid sym sd q p t1 t2 db with Ok (db', _, _) => db' | Err _ => db end
  | Halt why => halt why db
  | Resume => resume db
  end.

Definition run (cfg : Config) (db : Db) (ops : list op) : Db := foldl (step cfg) db ops.

(** ** The journal follows the tables *)

Lemma replay_app xs : forall b ys, replay b (xs ++ ys) = (let! b := replay b xs in replay b ys).
Proof. induction xs as [|x xs IH]; intros b ys; [done|]. cbn. destruct (replay_row b x); [apply IH|done]. Qed.

Lemma utf8_nonneg s b : utf8_encode s = Some b -> Forall (fun c => 0 <= c) s.
Proof.
  revert b. induction s as [|c s IH]; intros b H; [constructor|]. cbn in H.
  destruct (utf8_char c) as [bc|] eqn:Ec; [|done]. cbn in H. destruct (utf8_encode s) as [bs|] eqn:Es; [|done].
  constructor; [|by eapply IH]. unfold utf8_char in Ec. destruct (Z.ltb_spec c 0); [done|lia].
Qed.

Lemma bindable_nonneg s : bindable s = true -> Forall (fun c => 0 <= c) s.
Proof. unfold bindable. destruct (utf8_encode s) eqn:E; [|done]. intros _. by eapply utf8_nonneg. Qed.

(** A writable detail reads back, key by key. *)
Definition detail_ok (d : jobj) : Prop := Forall pair_ok d /\ NoDup (fst <$> d).

Lemma detail_reads d : detail_ok d ->
  exists d', json_loads (json_dumps d) = Some d' /\ forall k, jget k d' = jget k d.
Proof.
  intros [H1 H2]. exists (sort_keys d). split; [by apply json_loads_dumps|]. intros k. symmetry.
  apply jget_perm; [done|]. symmetry. apply sort_keys_perm.
Qed.

Lemma deposit_ok a : detail_ok (deposit_detail a).
Proof. split; [repeat constructor|by apply (bool_decide_unpack _)]; by apply (bool_decide_unpack _). Qed.

Lemma fill_detail_ok o delta :
  Forall (fun c => 0 <= c) (symbol o) -> Forall (fun c => 0 <= c) (side o) -> detail_ok (fill_detail o delta).
Proof.
  intros H1 H2. split.
  - unfold fill_detail. repeat apply Forall_cons_2; try apply Forall_nil_2;
      (split; cbn [fst snd val_ok]; [by apply (bool_decide_unpack _)|done]).
  - change (NoDup (lit <$> ["order_id"; "symbol"; "side"; "qty"; "price"; "amount"; "fee"; "tax"; "cash_delta"]%string)).
    by apply (bool_decide_unpack _).
Qed.

(** The row [add_row] appends, and that the replay takes it. *)
Lemma add_row_spec t k pid d db db' : add_row t k pid d db = Ok db' ->
  exists h, chain (last_hash (journal db)) t k pid (json_dumps d) = Some h /\
    db' = mkDb (participants db) (invites db) (accounts db) (positions db) (orders db)
      (journal db ++ [mkRow (zlen (journal db) + 1) t k pid (json_dumps d) (last_hash (journal db)) h]) (halted db).
Proof. unfold add_row. destruct (chain _ _ _ _ _) as [h|]; [|done]. intros [= <-]. by exists h. Qed.

Lemma last_hash_snoc js j : last_hash (js ++ [j]) = hash j.
Proof. unfold last_hash. by rewrite last_snoc. Qed.

(** What a deposit row does to the replayed books. *)
Lemma replay_deposit b t pid a i h :
  chain (b_prev b) t (lit "deposit") pid (json_dumps (deposit_detail a)) = Some h ->
  replay_row b (mkRow i t (lit "deposit") pid (json_dumps (deposit_detail a)) (b_prev b) h)
  = Ok (mkBooks h (<[pid := default 0 (b_cash b !! pid) + a]> (b_cash b)) (b_pos b) (b_fills b)).
Proof.
  intros H. unfold replay_row. cbn [prev_hash hash detail kind j_pid j_id].
  rewrite (bool_decide_eq_true_2 (b_prev b = b_prev b)) by done. unfold row_chain. cbn [ts kind j_pid detail].
  rewrite H. cbn [need rbind]. rewrite (bool_decide_eq_true_2 (h = h)) by done.
  destruct (detail_reads _ (deposit_ok a)) as (d & -> & Hg). cbn [need rbind].
  rewrite bool_decide_eq_true_2 by done. unfold jint. rewrite Hg. reflexivity.
Qed.

Lemma replay_fill b t o delta i h :
  Forall (fun c => 0 <= c) (symbol o) -> Forall (fun c => 0 <= c) (side o) ->
  chain (b_prev b) t (lit "fill") (o_pid o) (json_dumps (fill_detail o delta)) = Some h ->
  let k := (o_pid o, symbol o) in
  exists d, replay_row b (mkRow i t (lit "fill") (o_pid o) (json_dumps (fill_detail o delta)) (b_prev b) h)
  = Ok (mkBooks h (<[o_pid o := default 0 (b_cash b !! o_pid o) + delta]> (b_cash b))
      (<[k := default 0 (b_pos b !! k) + (if bool_decide (side o = lit "buy") then qty o else - qty o)]> (b_pos b))
      (<[o_id o := d]> (b_fills b))) /\ any_differs (compared o) d = Some false.
Proof.
  intros H1 H2 H k. unfold replay_row. cbn [prev_hash hash detail kind j_pid j_id].
  rewrite (bool_decide_eq_true_2 (b_prev b = b_prev b)) by done. unfold row_chain. cbn [ts kind j_pid detail].
  rewrite H. cbn [need rbind]. rewrite (bool_decide_eq_true_2 (h = h)) by done.
  destruct (detail_reads _ (fill_detail_ok o delta H1 H2)) as (d & -> & Hg). cbn [need rbind]. exists d.
  rewrite bool_decide_eq_false_2 by done. rewrite bool_decide_eq_true_2 by done.
  unfold jint, jstr. rewrite !Hg. split; [reflexivity|].
  unfold compared. cbn [any_differs]. rewrite !Hg.
  replace (jget (lit "qty") (fill_detail o delta)) with (Some (JInt (qty o))) by reflexivity.
  replace (jget (lit "price") (fill_detail o delta)) with (Some (JInt (price o))) by reflexivity.
  replace (jget (lit "amount") (fill_detail o delta)) with (Some (JInt (amount o))) by reflexivity.
  replace (jget (lit "fee") (fill_detail o delta)) with (Some (JInt (fee o))) by reflexivity.
  replace (jget (lit "tax") (fill_detail o delta)) with (Some (JInt (tax o))) by reflexivity.
  by rewrite !bool_decide_eq_true_2.
Qed.

(** ** The invariant *)

(** The filled orders and the journal's fills agree one to one. *)
Definition fills_agree (filled : gmap Z Order) (fills : gmap Z jobj) : Prop :=
  forall i, match filled !! i, fills !! i with
            | Some o, Some d => any_differs (compared o) d = Some false
            | None, None => True
            | _, _ => False
            end.

Record books_match (db : Db) (b : Books) : Prop := mkMatch
  { bm_replay : replay no_books (journal db) = Ok b;
    bm_prev : b_prev b = last_hash (journal db);
    bm_cash : b_cash b = accounts db;
    bm_pos : b_pos b = fst <$> positions db;
    bm_fills : fills_agree (filled_orders (orders db)) (b_fills b) }.

(** No negative cash or holding; a holding of nothing has no cost. *)
Definition holding_ok (h : Z * Z) : Prop := 0 <= h.1 /\ 0 <= h.2 /\ (h.1 = 0 -> h.2 = 0).

Record wf (db : Db) : Prop := mkWf
  { wf_books : exists b, books_match db b;
    wf_oids : o_id <$> orders db = seqZ 1 (zlen (orders db));
    wf_pids : forall pid, is_Some (accounts db !! pid) -> 1 <= pid <= zlen (participants db);
    wf_cash : forall pid c, accounts db !! pid = Some c -> 0 <= c;
    wf_held : forall k h, positions db !! k = Some h -> holding_ok h }.

(** Sums cannot go negative: no negative money, and fees and taxes below the amount. *)
Definition config_ok (cfg : Config) : Prop :=
  0 <= initial_cash cfg /\ 0 <= fee_ppm cfg /\ 0 <= tax_ppm cfg /\ fee_ppm cfg + tax_ppm cfg <= 1000000.

Lemma new_db_wf : wf new_db.
Proof.
  split.
  - exists no_books. by split.
  - done.
  - intros pid [c H]. cbn in H. by rewrite lookup_empty in H.
  - intros pid c H. cbn in H. by rewrite lookup_empty in H.
  - intros k h H. cbn in H. by rewrite lookup_empty in H.
Qed.

Lemma filled_snoc os o : o_id <$> (os ++ [o]) = seqZ 1 (zlen (os ++ [o])) ->
  filled_orders (os ++ [o]) =
    (if decide (state o = FILLED) then <[o_id o := o]> (filled_orders os) else filled_orders os).
Proof.
  intros Hid. unfold filled_orders. rewrite filter_app. destruct (decide (state o = FILLED)) as [E|E].
  - rewrite filter_cons_True, filter_nil, fmap_app by done. cbn. rewrite list_to_map_snoc; [done|].
    rewrite <- list_fmap_compose. intros Hin.
    apply list_elem_of_fmap in Hin as (x & Ex & Hx). apply list_elem_of_filter in Hx as [_ Hx].
    assert (NoDup (o_id <$> (os ++ [o]))) as Hnd by (rewrite Hid; apply NoDup_seqZ).
    rewrite fmap_app in Hnd. apply NoDup_app in Hnd as (_ & Hd & _).
    apply (Hd (o_id x)); [apply list_elem_of_fmap; by exists x|]. cbn in *. rewrite <- Ex. by left.
  - by rewrite filter_cons_False, filter_nil, app_nil_r.
Qed.

Lemma ids_snoc os o : o_id <$> os = seqZ 1 (zlen os) -> o_id o = zlen os + 1 ->
  o_id <$> (os ++ [o]) = seqZ 1 (zlen (os ++ [o])).
Proof.
  intros H Ho. rewrite fmap_app, H, length_app. cbn [length fmap list_fmap].
  replace (Z.of_nat (length os + 1)) with (zlen os + 1) by lia. rewrite seqZ_app by lia. f_equal.
  rewrite Ho. replace (1 + zlen os) with (zlen os + 1) by lia. done.
Qed.

Lemma filled_fresh os i : o_id <$> os = seqZ 1 (zlen os) -> zlen os < i -> filled_orders os !! i = None.
Proof.
  intros H Hi. unfold filled_orders. apply not_elem_of_list_to_map_1. rewrite <- list_fmap_compose.
  intros Hin. apply list_elem_of_fmap in Hin as (x & Ex & Hx). apply list_elem_of_filter in Hx as [_ Hx].
  assert (o_id x ∈ seqZ 1 (zlen os)) as Hs by (rewrite <- H; apply list_elem_of_fmap; by exists x).
  apply elem_of_seqZ in Hs. cbn in Ex. lia.
Qed.

(** A transaction that appends a deposit row. *)
Lemma signup_wf cfg c nick pw now t db db' p :
  config_ok cfg -> wf db -> signup cfg c nick pw now t db = Ok (db', p) -> wf db'.
Proof.
  intros (Hc & _) [(b & [B1 B2 B3 B4 B5]) W2 W3 W4 W5] H. unfold signup in H.
  destruct (bindable c); [|done]. destruct (existsb _ _); [|done]. destruct (bindable nick); [|done].
  destruct (negb _); [|done]. destruct (bindable pw); [|done]. destruct (int64 _); [|done]. cbn zeta in H.
  set (pid := zlen (participants db) + 1) in *.
  destruct (add_row _ _ _ _ _) as [db1|] eqn:Ea; [|done]. cbn in H. injection H as <- <-.
  apply add_row_spec in Ea as (h & Hh & ->). cbn [participants invites accounts positions orders journal halted] in *.
  assert (accounts db !! pid = None) as Hn.
  { destruct (accounts db !! pid) eqn:E; [|done]. pose proof (W3 pid (mk_is_Some _ _ E)). unfold pid in *. lia. }
  rewrite <- B2 in Hh. split; cbn [participants invites accounts positions orders journal halted]; try done.
  - eexists. split; cbn [participants invites accounts positions orders journal halted].
    + rewrite replay_app, B1. cbn [rbind replay]. rewrite <- B2, (replay_deposit _ _ _ _ _ _ Hh). reflexivity.
    + by rewrite last_hash_snoc.
    + cbn [b_cash]. by rewrite B3, Hn.
    + done.
    + done.
  - intros pid'. rewrite lookup_insert_is_Some', length_app. cbn [length]. intros [<-|H]; [unfold pid; lia|].
    apply W3 in H. lia.
  - intros pid' c'. destruct (decide (pid' = pid)) as [->|]; [rewrite lookup_insert_eq; congruence|].
    rewrite lookup_insert_ne by done. apply W4.
Qed.

(** Fees round down and stay below the amount. *)
Lemma costs_bounds cfg sd q p a f x : config_ok cfg -> 0 < q -> 0 < p -> costs cfg sd q p = (a, f, x) ->
  0 < a /\ 0 <= f /\ 0 <= x /\ f + x <= a.
Proof.
  intros (_ & Hf & Ht & Hs) Hq Hp [= <- <- <-]. set (a := q * p) in *. assert (0 < a) by (unfold a; nia).
  assert (0 <= a * fee_ppm cfg / 1000000) by (apply Z.div_pos; nia).
  assert (0 <= a * tax_ppm cfg / 1000000) by (apply Z.div_pos; nia).
  assert (a * fee_ppm cfg / 1000000 + a * tax_ppm cfg / 1000000 <= a); [|destruct (bool_decide _); lia].
  assert (a * fee_ppm cfg + a * tax_ppm cfg <= a * 1000000) by nia. zdm.
Qed.

Lemma fill_effect_ok sd q p a f x cash held cost delta nq nc :
  0 < q -> 0 < a -> 0 <= f -> 0 <= x -> f + x <= a -> 0 <= cash -> holding_ok (held, cost) ->
  why_not sd q p a f cash held = None -> sd ∈ [lit "buy"; lit "sell"] ->
  fill_effect sd q a f x held cost = (delta, nq, nc) ->
  0 <= cash + delta /\ holding_ok (nq, nc) /\ nq = held + (if bool_decide (sd = lit "buy") then q else - q).
Proof.
  intros Hq Ha Hf Hx Hs Hc (H1 & H2 & H3) Hw Hsd He. unfold why_not, fill_effect, holding_ok in *. cbn [fst snd] in *.
  destruct (p <=? 0); [done|]. destruct (bool_decide (sd = lit "buy")) eqn:Eb.
  - cbn in Hw. destruct (Z.ltb_spec cash (a + f)); [done|]. injection He as <- <- <-. lia.
  - apply bool_decide_eq_false in Eb. assert (sd = lit "sell") as -> by set_solver. cbn in Hw.
    destruct (Z.ltb_spec held q); [done|]. injection He as <- <- <-. split; [lia|]. split; [|lia].
    split; [lia|]. split.
    + apply Z.le_0_sub, Z.div_le_upper_bound; nia.
    + intros E. assert (held = q) as -> by lia. rewrite Z.div_mul by lia. lia.
Qed.

(** What [place] did when it made a new order. *)
Inductive placed (cfg : Config) (db : Db) (pid : Z) (cid sym sd : pystr) (q p : Z) (t1 t2 : pystr) : Db -> Order -> Prop :=
| placed_rejected cash held cost a f x why o :
    find_order pid cid db = None -> costs cfg sd q p = (a, f, x) -> accounts db !! pid = Some cash ->
    default (0, 0) (positions db !! (pid, sym)) = (held, cost) -> why_not sd q p a f cash held = Some why ->
    sd ∈ [lit "buy"; lit "sell"] -> 0 < q ->
    o = mkOrder (zlen (orders db) + 1) pid cid sym sd q p a f x REJECTED (Some why) t1 ->
    placed cfg db pid cid sym sd q p t1 t2
      (mkDb (participants db) (invites db) (accounts db) (positions db) (orders db ++ [o]) (journal db) (halted db)) o
| placed_filled cash held cost a f x delta nq nc h o :
    find_order pid cid db = None -> costs cfg sd q p = (a, f, x) -> accounts db !! pid = Some cash ->
    default (0, 0) (positions db !! (pid, sym)) = (held, cost) -> why_not sd q p a f cash held = None ->
    sd ∈ [lit "buy"; lit "sell"] -> 0 < q -> fill_effect sd q a f x held cost = (delta, nq, nc) -> 0 <= nq ->
    Forall (fun c => 0 <= c) sym -> Forall (fun c => 0 <= c) sd ->
    o = mkOrder (zlen (orders db) + 1) pid cid sym sd q p a f x FILLED None t1 ->
    chain (last_hash (journal db)) t2 (lit "fill") pid (json_dumps (fill_detail o delta)) = Some h ->
    placed cfg db pid cid sym sd q p t1 t2
      (mkDb (participants db) (invites db) (<[pid := cash + delta]> (accounts db))
        (<[(pid, sym) := (nq, nc)]> (positions db)) (orders db ++ [o])
        (journal db ++ [mkRow (zlen (journal db) + 1) t2 (lit "fill") pid (json_dumps (fill_detail o delta))
           (last_hash (journal db)) h]) (halted db)) o.

Lemma place_inv cfg pid cid sym sd q p t1 t2 db db' o c :
  place cfg pid cid sym sd q p t1 t2 db = Ok (db', o, c) ->
  (find_order pid cid db = Some o /\ db' = db /\ c = false) \/
  (c = true /\ placed cfg db pid cid sym sd q p t1 t2 db' o).
Proof.
  unfold place. destruct (int64 pid); [|done]. destruct (bindable cid); [|done]. destruct (find_order pid cid db) as [o'|] eqn:Ef.
  { intros [= <- <- <-]. by left. }
  destruct (costs cfg sd q p) as [[a f] x] eqn:Ec. destruct (accounts db !! pid) as [cash|] eqn:Ea; [|done].
  destruct (bindable sym) eqn:Eb; [|done]. destruct (default _ _) as [held cost] eqn:Eh. cbn zeta.
  destruct (bindable sd) eqn:Es; [|done]. destruct (forallb int64 [q; p; a; f; x]); [|done].
  destruct (bool_decide (sd ∈ _) && (0 <? q)) eqn:Eg; [|done].
  apply andb_true_iff in Eg as [Eg%bool_decide_eq_true Eq%Z.ltb_lt].
  destruct (why_not _ _ _ _ _ _ _) as [why|] eqn:Ew.
  - intros [= <- <- <-]. right. split; [done|]. by eapply placed_rejected.
  - destruct (fill_effect _ _ _ _ _ _ _) as [[delta nq] nc] eqn:Ee. destruct (int64 delta); [|done].
    destruct (forallb int64 [nq; nc]); [|done]. destruct (Z.leb_spec 0 nq); [|done].
    destruct (add_row _ _ _ _ _) as [db1|] eqn:Er; [|done]. cbn. intros [= <- <- <-]. right. split; [done|].
    apply add_row_spec in Er as (h & Hh & ->). cbn [participants invites accounts positions orders journal halted] in *.
    eapply placed_filled; try done; by apply bindable_nonneg.
Qed.

Lemma placed_wf cfg db pid cid sym sd q p t1 t2 db' o :
  config_ok cfg -> wf db -> placed cfg db pid cid sym sd q p t1 t2 db' o -> wf db'.
Proof.
  intros Hcfg [(b & [B1 B2 B3 B4 B5]) W2 W3 W4 W5] H. destruct H as
    [cash held cost a f x why o Hf Hc Ha Hh Hw Hs Hq ->|cash held cost a f x delta nq nc h o Hf Hc Ha Hh Hw Hs Hq He Hnq H1 H2 Eo Hch].
  - split; try done; cbn [orders].
    + exists b. split; try done. cbn [orders]. rewrite filled_snoc by by apply ids_snoc. done.
    + by apply ids_snoc.
  - assert (0 < p) as Hp by (unfold why_not in Hw; destruct (Z.leb_spec p 0); done || lia).
    destruct (costs_bounds cfg sd q p a f x Hcfg Hq Hp Hc) as (K1 & K2 & K3 & K4).
    assert (holding_ok (held, cost)) as Hhold.
    { destruct (positions db !! (pid, sym)) as [hc|] eqn:E; cbn in Hh; subst.
      - by apply (W5 _ _ E).
      - injection Hh as <- <-. by unfold holding_ok. }
    destruct (fill_effect_ok sd q p a f x cash held cost delta nq nc Hq K1 K2 K3 K4 (W4 _ _ Ha) Hhold Hw Hs He)
      as (R1 & R2 & R3).
    rewrite <- B2 in Hch. assert (symbol o = sym /\ side o = sd /\ o_pid o = pid /\ qty o = q /\ state o = FILLED /\
      o_id o = zlen (orders db) + 1) as (E1 & E2 & E3 & E4 & E5 & E6) by by rewrite Eo.
    rewrite <- E1, <- E2, <- E3 in *.
    destruct (replay_fill b t2 o delta (zlen (journal db) + 1) h H1 H2 Hch) as (d & Hr & Hd).
    split; cbn [participants invites accounts positions orders journal halted].
    + eexists. split; cbn [participants invites accounts positions orders journal halted].
      * rewrite replay_app, B1. cbn [rbind replay]. rewrite <- B2, Hr. reflexivity.
      * by rewrite last_hash_snoc.
      * cbn [b_cash]. by rewrite B3, Ha.
      * cbn [b_pos]. rewrite B4, fmap_insert, lookup_fmap. cbn [fst]. f_equal. rewrite R3, E4.
        destruct (positions db !! (o_pid o, symbol o)) as [[??]|]; cbn in *; congruence.
      * cbn [b_fills]. rewrite filled_snoc, decide_True by (done || by apply ids_snoc). intros i.
        destruct (decide (i = o_id o)) as [->|]; [by rewrite !lookup_insert_eq|].
        rewrite !lookup_insert_ne by done. apply B5.
    + by apply ids_snoc.
    + intros pid'. rewrite lookup_insert_is_Some'. intros [<-|H]; apply W3; [by eexists|done].
    + intros pid' c'. destruct (decide (pid' = o_pid o)) as [->|]; [rewrite lookup_insert_eq; congruence|].
      rewrite lookup_insert_ne by done. apply W4.
    + intros k h'. destruct (decide (k = (o_pid o, symbol o))) as [->|]; [rewrite lookup_insert_eq; congruence|].
      rewrite lookup_insert_ne by done. apply W5.
Qed.

Lemma contest_step_wf cfg db o : config_ok cfg -> wf db -> wf (step cfg db o).
Proof.
  intros Hcfg Hwf. destruct o; cbn [step].
  - unfold create_invites. case_bool_decide; [|done]. destruct Hwf as [(b & [? ? ? ? ?]) ? ? ? ?].
    split; try done. by exists b.
  - destruct (signup _ _ _ _ _ _ _) as [[db' p]|] eqn:E; [|done]. by eapply signup_wf.
  - destruct (place _ _ _ _ _ _ _ _ _ _) as [[[db' o] c]|] eqn:E; [|done].
    apply place_inv in E as [(_ & -> & _)|[_ E]]; [done|]. by eapply placed_wf.
  - destruct Hwf as [(b & [? ? ? ? ?]) ? ? ? ?]. split; try done. by exists b.
  - destruct Hwf as [(b & [? ? ? ? ?]) ? ? ? ?]. split; try done. by exists b.
Qed.

Lemma contest_run_wf cfg ops : config_ok cfg -> forall db, wf db -> wf (run cfg db ops).
Proof. intros Hcfg. induction ops as [|o ops IH]; intros db H; [done|]. apply IH. by apply contest_step_wf. Qed.

(** ** The check finds nothing *)

Lemma differing_nil filled fills ids :
  (forall i, i ∈ ids -> order_differs (filled !! i) (fills !! i) = Some false) -> differing filled fills ids = Some [].
Proof.
  induction ids as [|i ids IH]; intros H; [done|]. cbn [differing]. rewrite H by left.
  rewrite IH; [done|]. intros j Hj. apply H. by right.
Qed.

Lemma integrity_clean db : wf db -> integrity db = Ok (mkReport ∅ ∅ []).
Proof.
  intros [(b & [B1 B2 B3 B4 B5]) _ _ _ _]. unfold integrity. rewrite B1. cbn [rbind].
  rewrite differing_nil.
  2:{ intros i Hi. apply elem_of_elements, elem_of_union in Hi. specialize (B5 i).
      destruct (filled_orders (orders db) !! i) eqn:E1, (b_fills b !! i) eqn:E2; try done.
      rewrite !elem_of_dom, E1, E2 in Hi. by destruct Hi as [[]|[]]. }
  cbn [need rbind]. rewrite B3, B4. f_equal. f_equal.
  - apply set_eq. intros pid. rewrite elem_of_dom. split; [|set_solver]. intros [c H].
    apply map_lookup_filter_Some in H as [H Hne]. cbn in Hne. by rewrite H in Hne.
  - apply set_eq. intros k. rewrite elem_of_filter. set_solver.
Qed.

(** ** The hash chain *)

Lemma split_at (x : Z) (a a' r r' : list Z) : x ∉ a -> x ∉ a' -> a ++ x :: r = a' ++ x :: r' -> a = a' /\ r = r'.
Proof.
  revert a'. induction a as [|y a IH]; intros [|y' a'] H H' E; cbn in E.
  - by injection E as ->.
  - injection E as <- _. by destruct H'; left.
  - injection E as -> _. by destruct H; left.
  - injection E as <- E. destruct (IH a') as [-> ->]; [..|done]; [set_solver|set_solver|done].
Qed.

Definition no_bar (s : pystr) : Prop := 124 ∉ s.

Lemma chain_text_inj prev t k pid d prev' t' k' pid' d' :
  no_bar prev -> no_bar t -> no_bar k -> no_bar prev' -> no_bar t' -> no_bar k' ->
  chain_text prev t k pid d = chain_text prev' t' k' pid' d' ->
  prev = prev' /\ t = t' /\ k = k' /\ pid = pid' /\ d = d'.
Proof.
  intros H1 H2 H3 H1' H2' H3' E. unfold chain_text, bar in E. cbn [app] in E.
  apply split_at in E as [-> E]; [|done..]. apply split_at in E as [-> E]; [|done..].
  apply split_at in E as [-> E]; [|done..].
  assert (forall z, no_bar (str_int z)) as Hn.
  { intros z Hin. pose proof (proj1 (Forall_forall _ _) (str_int_chars z) _ Hin) as H. by destruct H. }
  apply split_at in E as [E ->]; [|apply Hn..]. by apply str_int_inj in E.
Qed.

Lemma utf8_encode_inj s s' b : utf8_encode s = Some b -> utf8_encode s' = Some b -> s = s'.
Proof.
  intros H H'. apply (utf8_roundtrip _ _ []) in H. apply (utf8_roundtrip _ _ []) in H'. rewrite H in H'.
  cbn in H'. rewrite !app_nil_r in H'. done.
Qed.

(** What a row commits to. *)
Definition content (j : Row) : pystr * pystr * Z * pystr * pystr * pystr :=
  (ts j, kind j, j_pid j, detail j, prev_hash j, hash j).

(** The text of a float has no bar, and the rows that count are deposits and fills. *)
Definition plain (j : Row) : Prop := no_bar (ts j) /\ kind j ∈ [lit "deposit"; lit "fill"].

Lemma plain_kind j : plain j -> no_bar (kind j).
Proof. intros [_ H]. apply elem_of_cons in H as [->|H]; [|apply list_elem_of_singleton in H as ->]; by apply (bool_decide_unpack _). Qed.

Lemma replay_row_hash b j b' : replay_row b j = Ok b' ->
  prev_hash j = b_prev b /\ row_chain j (b_prev b) = Some (hash j) /\ b_prev b' = hash j.
Proof.
  unfold replay_row. case_bool_decide as E; [|done]. destruct (row_chain j (b_prev b)) as [h|] eqn:Eh; [|done].
  cbn [need rbind]. case_bool_decide as E2; [|done]. subst h.
  destruct (json_loads (detail j)) as [d|]; [|done]. cbn [need rbind].
  assert (forall {A} (x : option A) k, (let! a := need x in k a) = Ok b' -> exists a, k a = Ok b') as Hk.
  { intros A [a|] k H; [by exists a|done]. }
  repeat match goal with |- context [bool_decide ?P] => case_bool_decide end; intros Hb;
    repeat (let a := fresh "a" in apply Hk in Hb as [a Hb]); by injection Hb as <-.
Qed.

Lemma row_hash_no_bar j prev h : row_chain j prev = Some h -> no_bar h.
Proof.
  unfold row_chain, chain. destruct (utf8_encode _) as [b|]; [|done]. cbn. intros [= <-] Hin.
  pose proof (proj1 (Forall_forall _ _) (hexdigest_chars _ (sha256_ok b)) _ Hin). cbn in *. lia.
Qed.

Lemma replay_snoc xs j b : replay no_books (xs ++ [j]) = Ok b ->
  exists b1, replay no_books xs = Ok b1 /\ replay_row b1 j = Ok b.
Proof.
  rewrite replay_app. destruct (replay no_books xs) as [b1|]; [|done]. cbn. intros H. exists b1. split; [done|].
  destruct (replay_row b1 j); [by cbn in H|done].
Qed.

Lemma replay_prev xs b : replay no_books xs = Ok b -> no_bar (b_prev b) /\ b_prev b = last_hash xs.
Proof.
  destruct xs as [|j xs _] using rev_ind.
  - intros [= <-]. split; [by apply (bool_decide_unpack _)|done].
  - intros H. apply replay_snoc in H as (b1 & _ & H). apply replay_row_hash in H as (_ & Hc & ->).
    split; [by eapply row_hash_no_bar|by rewrite last_hash_snoc].
Qed.

(** The text a row's hash covers, if it has an encoding. *)
Definition hashed_text (j : Row) : list bytes :=
  match utf8_encode (chain_text (prev_hash j) (ts j) (kind j) (j_pid j) (detail j)) with Some b => [b] | None => [] end.
Definition hashed_texts (js : list Row) : list bytes := js ≫= hashed_text.

(** Two of the texts are different and have one digest, or one of them has the digest that
    starts the chain. *)
Definition sha256_broken (l : list bytes) : Prop :=
  (exists x y, x ∈ l /\ y ∈ l /\ x <> y /\ sha256 x = sha256 y) \/ exists x, x ∈ l /\ hexdigest (sha256 x) = GENESIS.

Lemma row_text_in j js b : j ∈ js -> utf8_encode (chain_text (prev_hash j) (ts j) (kind j) (j_pid j) (detail j)) = Some b ->
  b ∈ hashed_texts js.
Proof. intros Hj Hb. apply list_elem_of_bind. exists j. split; [|done]. unfold hashed_text. rewrite Hb. by left. Qed.

Lemma broken_sub l l' : sha256_broken l -> (forall x, x ∈ l -> x ∈ l') -> sha256_broken l'.
Proof. intros [(x & y & Hx & Hy & H)|(x & Hx & H)] Hs; [left; exists x, y; auto|right; exists x; auto]. Qed.

Lemma same_hash_same_row l j j' h :
  (forall x, x ∈ hashed_texts [j; j'] -> x ∈ l) -> plain j -> plain j' -> no_bar (prev_hash j) -> no_bar (prev_hash j') ->
  row_chain j (prev_hash j) = Some h -> row_chain j' (prev_hash j') = Some h ->
  sha256_broken l \/ (prev_hash j = prev_hash j' /\ ts j = ts j' /\ kind j = kind j' /\ j_pid j = j_pid j' /\ detail j = detail j').
Proof.
  intros Hl Hp Hp' Hn Hn' H H'. unfold row_chain, chain in *.
  destruct (utf8_encode (chain_text (prev_hash j) _ _ _ _)) as [b|] eqn:E; [|done].
  destruct (utf8_encode (chain_text (prev_hash j') _ _ _ _)) as [b'|] eqn:E'; [|done]. cbn [mbind option_bind] in H, H'.
  destruct (decide (b = b')) as [->|Hne].
  - right. pose proof (utf8_encode_inj _ _ _ E E') as Et.
    apply chain_text_inj in Et; [tauto|done|apply Hp|by apply plain_kind|done|apply Hp'|by apply plain_kind].
  - left. left. exists b, b'. split; [apply Hl; by eapply (row_text_in j); [left|]|].
    split; [apply Hl; by eapply (row_text_in j'); [right; left|]|]. split; [done|]. apply hexdigest_inj; [apply sha256_ok..|]. congruence.
Qed.

Lemma hash_not_genesis j js : j ∈ js -> row_chain j (prev_hash j) = Some GENESIS -> sha256_broken (hashed_texts js).
Proof.
  unfold row_chain, chain. intros Hj. destruct (utf8_encode _) as [b|] eqn:E; [|done]. cbn. intros [= H]. right. exists b.
  split; [by eapply row_text_in|done].
Qed.

Lemma hashed_app js js' : hashed_texts (js ++ js') = hashed_texts js ++ hashed_texts js'.
Proof. apply bind_app. Qed.

Lemma same_end_same_journal js : forall js' b b',
  replay no_books js = Ok b -> replay no_books js' = Ok b' -> b_prev b = b_prev b' ->
  Forall plain js -> Forall plain js' -> sha256_broken (hashed_texts (js ++ js')) \/ content <$> js = content <$> js'.
Proof.
  induction js as [|j js IH] using rev_ind; intros js' b b' H H' E Hp Hp'; destruct js' as [|j' js' _] using rev_ind.
  - by right.
  - left. injection H as <-. apply replay_snoc in H' as (b1 & _ & H'). apply replay_row_hash in H' as (P & Hc & Hb).
    rewrite <- P in Hc. rewrite <- Hb, <- E in Hc. apply (hash_not_genesis j'); [|done]. set_solver.
  - left. injection H' as <-. apply replay_snoc in H as (b1 & _ & H). apply replay_row_hash in H as (P & Hc & Hb).
    rewrite <- P in Hc. rewrite <- Hb, E in Hc. apply (hash_not_genesis j); [|done]. set_solver.
  - apply replay_snoc in H as (b1 & H1 & H). apply replay_snoc in H' as (b1' & H1' & H').
    apply replay_row_hash in H as (P & C & B), H' as (P' & C' & B').
    apply Forall_app in Hp as [Hp Hj], Hp' as [Hp' Hj']. apply Forall_cons in Hj as [Hj _], Hj' as [Hj' _].
    destruct (replay_prev _ _ H1) as [N _]. destruct (replay_prev _ _ H1') as [N' _].
    rewrite <- P in C, N. rewrite <- P' in C', N'. assert (hash j = hash j') as Eh by congruence. rewrite <- Eh in C'.
    destruct (same_hash_same_row (hashed_texts ((js ++ [j]) ++ js' ++ [j'])) j j' (hash j)) as [|(Ep & E1 & E2 & E3 & E4)]; try done; [|by left|].
    { unfold hashed_texts. intros x. rewrite !list_elem_of_bind. set_solver. }
    rewrite P, P' in Ep. destruct (IH js' b1 b1' H1 H1' Ep Hp Hp') as [Hb|IHe]; [left|right].
    { apply (broken_sub _ _ Hb). rewrite !hashed_app. intros x. rewrite !elem_of_app. tauto. }
    assert (content j = content j') as Ec by (unfold content; congruence).
    rewrite !fmap_app, IHe. cbn. by rewrite Ec.
Qed.

(** ** Repeating an order *)

Lemma find_order_app pid cid db os o : find_order pid cid db = Some o ->
  forall db', orders db' = orders db ++ os -> find_order pid cid db' = Some o.
Proof.
  unfold find_order. intros H db' ->. revert H. generalize (orders db) as xs.
  induction xs as [|x xs IH]; [done|]. simpl. by destruct (_ && _).
Qed.

Lemma find_order_snoc pid cid db db' o : find_order pid cid db = None -> o_pid o = pid -> client_order_id o = cid ->
  orders db' = orders db ++ [o] -> find_order pid cid db' = Some o.
Proof.
  unfold find_order. intros H <- <- ->. revert H. generalize (orders db) as xs.
  induction xs as [|x xs IH]; simpl; [by rewrite Z.eqb_refl, bool_decide_eq_true_2|]. destruct (_ && _); [done|exact IH].
Qed.

Lemma placed_orders cfg db pid cid sym sd q p t1 t2 db' o :
  placed cfg db pid cid sym sd q p t1 t2 db' o ->
  orders db' = orders db ++ [o] /\ find_order pid cid db' = Some o.
Proof.
  intros H. destruct H; (split; [done|]); (eapply find_order_snoc; [done|..|reflexivity]); by subst.
Qed.

Lemma step_orders cfg db o : exists os, orders (step cfg db o) = orders db ++ os.
Proof.
  destruct o; cbn [step]; try by (exists []; rewrite app_nil_r).
  - unfold create_invites. case_bool_decide; exists []; by rewrite app_nil_r.
  - destruct (signup _ _ _ _ _ _ _) as [[db' p]|] eqn:E; [|exists []; by rewrite app_nil_r]. unfold signup in E.
    repeat match type of E with (if ?b then _ else _) = _ => destruct b; [|done] end. cbn zeta in E.
    destruct (add_row _ _ _ _ _) as [db1|] eqn:Ea; [|done]. injection E as <- _.
    apply add_row_spec in Ea as (h & _ & ->). exists []. by rewrite app_nil_r.
  - destruct (place _ _ _ _ _ _ _ _ _ _) as [[[db' o] c]|] eqn:E; [|exists []; by rewrite app_nil_r].
    apply place_inv in E as [(_ & -> & _)|[_ E]]; [exists []; by rewrite app_nil_r|].
    apply placed_orders in E as [E _]. by exists [o].
Qed.

Lemma run_orders cfg ops : forall db, exists os, orders (run cfg db ops) = orders db ++ os.
Proof.
  induction ops as [|o ops IH]; intros db; [exists []; by rewrite app_nil_r|].
  destruct (step_orders cfg db o) as [os E]. destruct (IH (step cfg db o)) as [os' E'].
  exists (os ++ os'). cbn [run foldl]. fold (run cfg (step cfg db o) ops). by rewrite E', E, app_assoc.
Qed.

Lemma place_bindable cfg pid cid sym sd q p t1 t2 db r :
  place cfg pid cid sym sd q p t1 t2 db = Ok r -> int64 pid = true /\ bindable cid = true.
Proof. unfold place. destruct (int64 pid); [|done]. by destruct (bindable cid). Qed.

Lemma why_not_none sd q p a f cash held :
  why_not sd q p a f cash held = None <->
  0 < p /\ (sd = lit "buy" -> a + f <= cash) /\ (sd = lit "sell" -> q <= held).
Proof.
  unfold why_not. destruct (Z.leb_spec p 0); [split; [done|lia]|].
  destruct (bool_decide_reflect (sd = lit "buy")) as [->|Hb]; cbn [andb].
  - rewrite (bool_decide_eq_false_2 (lit "buy" = lit "sell")) by done. cbn [andb].
    destruct (Z.ltb_spec cash (a + f)); split; intros H1; try done.
    destruct H1 as (_ & H1 & _). specialize (H1 eq_refl). lia.
  - destruct (bool_decide_reflect (sd = lit "sell")) as [->|Hs]; cbn [andb]; [|by split].
    destruct (Z.ltb_spec held q); split; intros H1; try done.
    destruct H1 as (_ & _ & H1). specialize (H1 eq_refl). lia.
Qed.

(** ** Properties *)

(** C10: With a sane configuration, whatever is done to a fresh contest, the check that
    replays the hash-chained journal finds nothing: the chain holds, cash, positions and
    filled orders are what the journal says; and no cash, holding or cost is negative and
    a holding of nothing has no cost left. *)
Theorem books_always_reconcile cfg ops : config_ok cfg ->
  let db := run cfg new_db ops in
  integrity db = Ok (mkReport ∅ ∅ []) /\
  (forall pid c, accounts db !! pid = Some c -> 0 <= c) /\
  (forall k held cost, positions db !! k = Some (held, cost) -> 0 <= held /\ 0 <= cost /\ (held = 0 -> cost = 0)).
Proof.
  intros Hcfg db. pose proof (contest_run_wf cfg ops Hcfg new_db new_db_wf) as Hwf. fold db in Hwf.
  split; [by apply integrity_clean|]. destruct Hwf as [_ _ _ Hc Hh]. split; [exact Hc|].
  intros k held cost H. exact (Hh k (held, cost) H).
Qed.

(** An invitation, a participant, a purchase, a refused purchase and a sale. *)
Definition demo : list op :=
  [CreateInvites [lit "inv1"] (lit "1.0"); Signup (lit "inv1") (lit "kim") (lit "x") (lit "2.0") (lit "2.5");
   Place 1 (lit "a") (lit "005930") (lit "buy") 10 70000 (lit "3.0") (lit "3.5");
   Place 1 (lit "b") (lit "000660") (lit "buy") 1000 200000 (lit "4.0") (lit "4.5");
   Place 1 (lit "c") (lit "005930") (lit "sell") 3 71000 (lit "5.0") (lit "5.5")].

Lemma books_always_reconcile_witness :
  config_ok default_config /\ integrity (run default_config new_db demo) = Ok (mkReport ∅ ∅ []).
Proof.
  assert (config_ok default_config) as H by (unfold config_ok; cbn; lia). split; [exact H|].
  exact (proj1 (books_always_reconcile default_config demo H)).
Defined.

(** A new order fills exactly when there is a price, the cash for a purchase with its
    fee, and the holding for a sale; a rejected order changes no account, position or
    journal row; a filled one changes exactly its participant's cash by amount, fee and
    tax, its position by the quantity, and adds one journal row; and the same participant
    and client id later get that very order back and nothing changes. *)
Theorem place_exact cfg pid cid sym sd q p t1 t2 db db' o :
  place cfg pid cid sym sd q p t1 t2 db = Ok (db', o, true) ->
  let '(a, f, x) := costs cfg sd q p in
  let '(held, cost) := default (0, 0) (positions db !! (pid, sym)) in
  exists cash, accounts db !! pid = Some cash /\ orders db' = orders db ++ [o] /\
  (state o = FILLED <-> 0 < p /\ (sd = lit "buy" -> a + f <= cash) /\ (sd = lit "sell" -> q <= held)) /\
  (state o = REJECTED -> accounts db' = accounts db /\ positions db' = positions db /\ journal db' = journal db) /\
  (state o = FILLED ->
     accounts db' = <[pid := if bool_decide (sd = lit "buy") then cash - a - f else cash + a - f - x]> (accounts db) /\
     (exists cost', positions db' =
        <[(pid, sym) := (if bool_decide (sd = lit "buy") then held + q else held - q, cost')]> (positions db)) /\
     exists row, journal db' = journal db ++ [row] /\ kind row = lit "fill" /\ j_pid row = pid) /\
  (forall ops sym' sd' q' p' t1' t2',
     place cfg pid cid sym' sd' q' p' t1' t2' (run cfg db' ops) = Ok (run cfg db' ops, o, false)).
Proof.
  intros H. pose proof (place_bindable _ _ _ _ _ _ _ _ _ _ _ H) as [Hi Hb].
  apply place_inv in H as [(_ & _ & ?)|[_ H]]; [done|].
  pose proof (placed_orders _ _ _ _ _ _ _ _ _ _ _ _ H) as [Ho Hf].
  assert (forall ops sym' sd' q' p' t1' t2',
     place cfg pid cid sym' sd' q' p' t1' t2' (run cfg db' ops) = Ok (run cfg db' ops, o, false)) as Hagain.
  { intros. destruct (run_orders cfg ops db') as [os E]. unfold place. rewrite Hi, Hb.
    by rewrite (find_order_app _ _ _ _ _ Hf _ E). }
  destruct H as [cash held cost a f x why o H1 H2 H3 H4 H5 H6 H7 ->|cash held cost a f x delta nq nc h o H1 H2 H3 H4 H5 H6 H7 H8 H9 K1 K2 -> K3];
    rewrite H2, H4; exists cash; rewrite <- why_not_none, H5; cbn [state accounts positions journal];
    (split; [exact H3|]); (split; [exact Ho|]); (split; [done|]); (split; [done|]); (split; [|exact Hagain]); [done|].
  intros _. unfold fill_effect in H8. destruct (bool_decide (sd = lit "buy")); injection H8 as <- <- <-.
  - split; [f_equal; lia|]. split; [by eexists|]. eexists. by split_and!.
  - split; [f_equal; lia|]. split; [by eexists|]. eexists. by split_and!.
Qed.

Lemma place_exact_witness :
  let db := run default_config new_db (take 2 demo) in
  exists db' o, place default_config 1 (lit "a") (lit "005930") (lit "buy") 10 70000 (lit "3.0") (lit "3.5") db = Ok (db', o, true) /\
  (state o = FILLED -> accounts db' = <[1 := 10000000 - 700000 - 105]> (accounts db)).
Proof.
  intros db. destruct (place default_config 1 (lit "a") (lit "005930") (lit "buy") 10 70000 (lit "3.0") (lit "3.5") db)
    as [[[db' o] c]|] eqn:E; [|exfalso; by vm_compute in E].
  assert (c = true) as -> by (by vm_compute in E; injection E as _ _ <-).
  exists db', o. split; [done|]. pose proof (place_exact _ _ _ _ _ _ _ _ _ _ _ _ E) as H.
  assert (accounts db !! 1 = Some 10000000) as Hc by by vm_compute.
  assert (positions db !! (1, lit "005930") = None) as Hp by by vm_compute. rewrite Hp in H.
  destruct H as (cash & H1 & _ & _ & _ & H2 & _). intros Hs. destruct (H2 Hs) as [-> _].
  rewrite Hc in H1. by injection H1 as <-.
Defined.

(** C11: The journal is tamper-evident: two databases that pass the check and whose last
    journal rows have the same hash have the same journal, row by row (times, kinds,
    participants, details and hashes), unless two different ones among the texts that the
    two journals hash have one digest, or one has the sixty-four zeros the chain starts
    from.  So no row of
    a checked journal can be changed, removed, inserted or moved under the same last
    hash; the row numbers, which are not hashed, are not covered. *)
Theorem journal_tamper_evident db db' r r' :
  integrity db = Ok r -> integrity db' = Ok r' -> Forall plain (journal db) -> Forall plain (journal db') ->
  last_hash (journal db) = last_hash (journal db') ->
  sha256_broken (hashed_texts (journal db ++ journal db')) \/ content <$> journal db = content <$> journal db'.
Proof.
  unfold integrity. intros H H' Hp Hp' E.
  destruct (replay no_books (journal db)) as [b|] eqn:Eb; [|done].
  destruct (replay no_books (journal db')) as [b'|] eqn:Eb'; [|done].
  apply (same_end_same_journal _ _ b b'); try done.
  destruct (replay_prev _ _ Eb) as [_ ->]. by destruct (replay_prev _ _ Eb') as [_ ->].
Qed.

Lemma journal_tamper_evident_witness :
  let db := run default_config new_db (take 2 demo) in
  last_hash (journal db) = last_hash (journal (halt (lit "x") db)) /\
  (sha256_broken (hashed_texts (journal db ++ journal (halt (lit "x") db))) \/
   content <$> journal db = content <$> journal (halt (lit "x") db)).
Proof.
  intros db. split; [reflexivity|]. assert (config_ok default_config) as Hc by (unfold config_ok; cbn; lia).
  pose proof (contest_run_wf default_config (take 2 demo) Hc _ new_db_wf) as Hw.
  pose proof (contest_step_wf default_config db (Halt (lit "x")) Hc Hw) as Hw'. cbn [step] in Hw'.
  apply (journal_tamper_evident db (halt (lit "x") db) (mkReport ∅ ∅ []) (mkReport ∅ ∅ []));
    [exact (integrity_clean _ Hw)|exact (integrity_clean _ Hw')| | |reflexivity].
  - apply (bool_decide_unpack _). by vm_compute.
  - apply (bool_decide_unpack _). by vm_compute.
Defined.
End Contest.
