(* ===== verification/Desk.v ===== *)
(** * The order desk (src/src/mdfeed/services/order_desk.py)

    Submitting an order over the ledger.  [submit] awaits the quote, the broker's totals
    and the order call under one lock; between the awaits the reconciliation, the
    notices and the end of the day run.  The state holds where the one submission under
    way stands, and every stretch between two awaits is one step.  The broker's answers
    are events. *)

From S2P Require Import Prelude PyStr PyFloat Ledger.

Module Desk.
Import Ledger.Ledger.

(** ** The request's format *)

(** [$] also matches before a final newline. *)
Definition to_end (p : pystr -> bool) (s : pystr) : bool :=
  p s || match last s with Some c => (c =? 10) && p (removelast s) | None => false end.

(** [\d] on text: the decimal digits of every script, ten code points from each of these
    (Unicode 14). *)
Definition digit_zeros : list Z :=
  [0x30; 0x660; 0x6f0; 0x7c0; 0x966; 0x9e6; 0xa66; 0xae6; 0xb66; 0xbe6; 0xc66; 0xce6; 0xd66; 0xde6;
   0xe50; 0xed0; 0xf20; 0x1040; 0x1090; 0x17e0; 0x1810; 0x1946; 0x19d0; 0x1a80; 0x1a90; 0x1b50;
   0x1bb0; 0x1c40; 0x1c50; 0xa620; 0xa8d0; 0xa900; 0xa9d0; 0xa9f0; 0xaa50; 0xabf0; 0xff10; 0x104a0;
   0x10d30; 0x11066; 0x110f0; 0x11136; 0x111d0; 0x112f0; 0x11450; 0x114d0; 0x11650; 0x116c0; 0x11730;
   0x118e0; 0x11950; 0x11c50; 0x11d50; 0x11da0; 0x16a60; 0x16ac0; 0x16b50; 0x1d7ce; 0x1d7d8; 0x1d7e2;
   0x1d7ec; 0x1d7f6; 0x1e140; 0x1e2f0; 0x1e950; 0x1fbf0].
Definition re_digit (c : Z) : bool := existsb (fun z => (z <=? c) && (c <=? z + 9)) digit_zeros.
Definition SYMBOL_RE : pystr -> bool := to_end (fun s => (zlen s =? 6) && forallb re_digit s).

Definition id_char (c : Z) : bool :=
  ((65 <=? c) && (c <=? 90)) || ((97 <=? c) && (c <=? 122)) || ((48 <=? c) && (c <=? 57)) || (c =? 95) || (c =? 45).
Definition CLIENT_ID_RE : pystr -> bool :=
  to_end (fun s => (8 <=? zlen s) && (zlen s <=? 64) && forallb id_char s).

Record Config := mkConfig { order_max_qty : Z; order_max_krw : Z; order_daily_max_krw : Z }.

(** A request whose fields [str] and [int] could read. *)
Record Req := mkReq { r_cid : pystr; r_sym : pystr; r_side : Side; r_qty : Z; r_price : Z }.

Definition side_text (s : Side) : pystr := match s with Buy => lit "buy" | Sell => lit "sell" end.

Definition parse_req (cid sym sd : pystr) (q p : Z) : option Req :=
  if CLIENT_ID_RE cid && SYMBOL_RE sym then (fun sd => mkReq cid sym sd q p) <$> side_of sd else None.

(** ** The state *)

(** Where the submission that holds the lock waits. *)
Inductive Phase :=
| Idle
| AwaitQuote (day : pystr) (r : Req)
| AwaitTotals (day : pystr) (r : Req) (unit : Z)
| AwaitOrder (id : Z).

(** [sent]: the client ids of the order calls made to the broker, in order. *)
Record Desk := mkDesk { ledger : Ledger; phase : Phase; sent : list pystr }.

Definition new_desk : Desk := mkDesk new_ledger Idle [].

Inductive Block := DayClosed | OpenOrder | NoQuote | OverOrderLimit | OverDailyLimit | NoBaselineTaken.

Inductive Reply :=
| BadFormat | BadQty | Duplicate (o : Order) | Blocked (b : Block) | InternalError
| Accepted (id : Z) | RejectedByBroker (id : Z) | Uncertain (id : Z).

Definition idle (d : Desk) : Desk := mkDesk (ledger d) Idle (sent d).
Definition wait (p : Phase) (d : Desk) : Desk := mkDesk (ledger d) p (sent d).

(** ** Submitting *)

(** The record, then the order call: the order is written before it is sent. *)
Definition create (day : pystr) (r : Req) (unit : Z) (now : float) (d : Desk) : Desk * option Reply :=
  match new_order (r_cid r) day (r_sym r) (side_text (r_side r)) (r_qty r) (r_price r) unit now (ledger d) with
  | Ok (l, o, _) => (mkDesk l (AwaitOrder (id o)) (sent d ++ [r_cid r]), None)
  | Err _ => (idle d, Some InternalError)
  end.

(** The limits, then the baseline. *)
Definition with_unit (cfg : Config) (day : pystr) (r : Req) (unit : Z) (now : float) (d : Desk) : Desk * option Reply :=
  let notional := unit * r_qty r in
  if order_max_krw cfg <? notional then (idle d, Some (Blocked OverOrderLimit))
  else if order_daily_max_krw cfg <? notional_today (ledger d) day + notional
  then (idle d, Some (Blocked OverDailyLimit))
  else match totals_baseline (ledger d) day (r_sym r) (r_side r) with
       | None => (wait (AwaitTotals day r unit) d, None)
       | Some _ => create day r unit now d
       end.

(** Up to the first await: the format, then under the lock the duplicate, the closed day
    and the open order. *)
Definition submit (cfg : Config) (day cid sym sd : pystr) (q p : Z) (now : float) (d : Desk) : Desk * option Reply :=
  match parse_req cid sym sd q p with
  | None => (d, Some BadFormat)
  | Some r =>
      if negb ((1 <=? q) && (q <=? order_max_qty cfg)) || (p <? 0) then (d, Some BadQty)
      else match phase d with
           | Idle =>
               match by_client_id (ledger d) cid with
               | Some o => (d, Some (Duplicate o))
               | None =>
                   match closed_days (ledger d) !! day with
                   | Some _ => (d, Some (Blocked DayClosed))
                   | None =>
                       match open_order (ledger d) day sym (r_side r) with
                       | Some _ => (d, Some (Blocked OpenOrder))
                       | None =>
                           if p =? 0 then (wait (AwaitQuote day r) d, None) else with_unit cfg day r p now d
                       end
                   end
               end
           | _ => (d, None)
           end
  end.

(** [price(sym)]: the quote's price, or the broker's refusal. *)
Definition on_quote (cfg : Config) (q : option Z) (now : float) (d : Desk) : Desk * option Reply :=
  match phase d with
  | AwaitQuote day r =>
      match q with
      | Some unit => with_unit cfg day r unit now d
      | None => (idle d, Some (Blocked NoQuote))
      end
  | _ => (d, None)
  end.

Definition on_totals (t : option Totals) (now : float) (d : Desk) : Desk * option Reply :=
  match phase d with
  | AwaitTotals day r unit =>
      match t with
      | Some t =>
          create day r unit now
            (mkDesk (set_totals_baseline day (r_sym r) (r_side r) t (ledger d)) (phase d) (sent d))
      | None => (idle d, Some (Blocked NoBaselineTaken))
      end
  | _ => (d, None)
  end.

Inductive Answer := Taken (odno msg : pystr) | Refused (msg : pystr) | NoAnswer (msg : pystr).

Definition on_answer (a : Answer) (now : float) (d : Desk) : Desk * option Reply :=
  match phase d with
  | AwaitOrder i =>
      match a with
      | Taken od msg => (mkDesk (mark i ACCEPTED (Some od) (Some msg) now (ledger d)) Idle (sent d), Some (Accepted i))
      | Refused msg => (mkDesk (mark i REJECTED None (Some msg) now (ledger d)) Idle (sent d), Some (RejectedByBroker i))
      | NoAnswer msg => (mkDesk (mark i UNKNOWN None (Some msg) now (ledger d)) Idle (sent d), Some (Uncertain i))
      end
  | _ => (d, None)
  end.

(** ** The other tasks and restarts *)

(** The ledger calls of the reconciliation loop, the notices and the end of the day. *)
Inductive Task :=
| TakeHoldings (day : pystr) (h : list (pystr * Z))
| Reconcile (day sym : pystr) (sd : Side) (t : Totals) (now : float)
| OnNotice (day od : pystr) (q p : Z) (key : pystr) (now : float)
| MaybeClose (day : pystr) (found : Z) (now : float).

Definition task_op (t : Task) : op :=
  match t with
  | TakeHoldings day h => SetHoldingsBaseline day h
  | Reconcile day sym sd t now => ApplyTotals day sym sd t now
  | OnNotice day od q p key now => ApplyNotice day od q p key now
  | MaybeClose day n now => CloseDay day n now
  end.

Inductive happening :=
| Submit (day cid sym sd : pystr) (q p : Z) (now : float)
| Quote (q : option Z) (now : float)
| TotalsRead (t : option Totals) (now : float)
| Answered (a : Answer) (now : float)
| Cancelled                    (* the handler ends at an await: an exception, a closed connection *)
| Restart (now : float)        (* the process ends anywhere and starts again *)
| Other (t : Task).

Definition desk_step (cfg : Config) (d : Desk) (e : happening) : Desk :=
  match e with
  | Submit day cid sym sd q p now => (submit cfg day cid sym sd q p now d).1
  | Quote q now => (on_quote cfg q now d).1
  | TotalsRead t now => (on_totals t now d).1
  | Answered a now => (on_answer a now d).1
  | Cancelled => idle d
  | Restart now => mkDesk (recover_pending now (ledger d)).1 Idle (sent d)
  | Other t => mkDesk (step (ledger d) (task_op t)) (phase d) (sent d)
  end.

Definition desk_run (cfg : Config) (es : list happening) : Desk := foldl (desk_step cfg) new_desk es.

(** ** Confirmed breaks *)

(** [_confirm]: a break counts when the previous round showed it too. *)
Definition confirm {A} `{Countable A} (found : list A) (seen : gset A) : gset A * gset A :=
  let keys := list_to_set found in (keys ∩ seen, keys).

(** ** What the ledger's own steps can do to the desk's facts *)

Definition is_open (s : State) : bool := bool_decide (s ∈ OPEN_STATES).
Definition counted (s : State) : bool := bool_decide (s ∉ [REJECTED; NOT_SENT]).

Definition same_key (o o' : Order) : Prop :=
  trade_date o = trade_date o' /\ symbol o = symbol o' /\ side o = side o'.

Definition one_open (os : list Order) : Prop :=
  forall o o', o ∈ os -> o' ∈ os -> is_open (state o) = true -> is_open (state o') = true -> same_key o o' -> id o = id o'.

(** The amounts ordered on a day, by the prices the limits were checked with. *)
Definition committed (os : list Order) (day : pystr) : Z :=
  sum (fun o => qty o * est_price o) (filter (fun o => trade_date o = day /\ counted (state o) = true) os).

Lemma edge_open rec s s' : rtc (edge rec) s s' -> is_open s' = true -> is_open s = true.
Proof.
  intros H Ho. destruct (is_open s) eqn:E; [done|]. rewrite (final_edge rec s s') in Ho; [congruence| |done].
  by destruct s.
Qed.

Lemma edge_counted rec s s' : rtc (edge rec) s s' -> counted s' = true -> counted s = true.
Proof.
  intros H Ho. destruct (counted s) eqn:E; [done|]. rewrite (final_edge rec s s') in Ho; [congruence| |done].
  by destruct s.
Qed.

(** A change that keeps a row's terms and opens or counts nothing anew. *)
Definition tamer (o o' : Order) : Prop :=
  same_terms o o' /\ (is_open (state o') = true -> is_open (state o) = true) /\
  (counted (state o') = true -> counted (state o) = true).

Lemma follows_tamer rec os os' : Forall2 (follows rec) os os' -> Forall2 tamer os os'.
Proof.
  intros H. eapply Forall2_impl; [exact H|]. intros o o' [Ht He]. split; [done|].
  split; [by eapply edge_open|by eapply edge_counted].
Qed.

Lemma tamer_in os os' o' : Forall2 tamer os os' -> o' ∈ os' -> exists o, o ∈ os /\ tamer o o'.
Proof.
  intros H Ho. apply list_elem_of_lookup in Ho as [i Hi].
  destruct (Forall2_lookup_r _ _ _ _ _ H Hi) as (o & Hi' & Hf). exists o. split; [by eapply list_elem_of_lookup_2|done].
Qed.

Lemma one_open_tamer os os' : Forall2 tamer os os' -> one_open os -> one_open os'.
Proof.
  intros H Hone o1 o2 H1 H2 S1 S2 (K1 & K2 & K3).
  destruct (tamer_in _ _ _ H H1) as (p1 & P1 & T1 & E1 & _). destruct (tamer_in _ _ _ H H2) as (p2 & P2 & T2 & E2 & _).
  unfold same_terms in *. destruct_and!.
  assert (id p1 = id p2); [|congruence].
  apply Hone; [done|done|by apply E1|by apply E2|]. unfold same_key. split_and!; congruence.
Qed.

Lemma committed_tamer os os' day : Forall2 tamer os os' ->
  Forall (fun o => 0 <= qty o * est_price o) os -> committed os' day <= committed os day.
Proof.
  unfold committed, sum. intros H. induction H as [|o o' os os' [(_ & _ & Ed & _ & _ & Eq & _ & Ee) [_ He]] _ IH]; [done|].
  intros [Ho Hos]%Forall_cons. specialize (IH Hos).
  destruct (decide (trade_date o' = day /\ counted (state o') = true)) as [[D C]|N].
  - rewrite filter_cons_True by done. rewrite filter_cons_True; [cbn [foldr]; rewrite Eq, Ee; lia|].
    split; [congruence|by apply He].
  - rewrite filter_cons_False by done. destruct (decide (trade_date o = day /\ counted (state o) = true)).
    + rewrite filter_cons_True by done. cbn [foldr]. lia.
    + by rewrite filter_cons_False.
Qed.

Lemma sum_le f g os : Forall (fun o => f o <= g o) os -> sum f os <= sum g os.
Proof. unfold sum. induction 1; simpl; lia. Qed.

Lemma committed_notional l day : committed (orders l) day <= notional_today l day.
Proof.
  unfold committed, notional_today.
  rewrite (list_filter_iff (fun o => trade_date o = day /\ counted (state o) = true)
    (fun o => trade_date o = day /\ state o ∉ [REJECTED; NOT_SENT])).
  - apply sum_le, Forall_forall. intros o _. lia.
  - intros o. unfold counted. by rewrite bool_decide_eq_true.
Qed.

(** The reconciliation's ledger calls never touch the baselines of the totals. *)
Lemma resolve_base s ev now us : forall l, totals_base (resolve_all s ev now us l) = totals_base l.
Proof. intros l. apply (frame_resolve s ev now us l). Qed.

Lemma books_base src now ps : forall l, totals_base (foldl (book_fill src now) l ps) = totals_base l.
Proof. induction ps as [|[[o t] a] ps IH]; intros l; [done|]. cbn [foldl]. by rewrite IH. Qed.

Lemma apply_fills_base live b_fill b_amt bs now l : totals_base (apply_fills live b_fill b_amt bs now l).1 = totals_base l.
Proof.
  unfold apply_fills. cbn zeta.
  repeat match goal with |- context [if ?b then _ else _] => destruct b end; try done. apply books_base.
Qed.

Lemma task_base l t : totals_base (step l (task_op t)) = totals_base l.
Proof.
  destruct t; cbn [task_op step].
  - unfold set_holdings_baseline. by case_bool_decide.
  - unfold apply_totals. destruct (totals_baseline l day sym sd); [|done].
    destruct (0 <? _); [destruct (negb _ && _); [|done]|]; by rewrite apply_fills_base, resolve_base.
  - unfold apply_notice. destruct (existsb _ _); [done|]. destruct (find _ _); [|done].
    by destruct (negb _ || _ || _).
  - apply (close_day_frame day found now l).
Qed.

Lemma task_moved l t : wf l -> moved false l (step l (task_op t)).
Proof. intros Hwf. assert (recovers (task_op t) = false) as <- by by destruct t. apply step_moved; [done|]. by destruct t. Qed.

(** ** The invariant of the desk *)

Definition order_fits (cfg : Config) (o : Order) : Prop :=
  1 <= qty o <= order_max_qty cfg /\ 0 <= est_price o /\ qty o * est_price o <= order_max_krw cfg.

(** A checked request whose key has no open order and whose id is new. *)
Definition ready (cfg : Config) (l : Ledger) (day : pystr) (r : Req) : Prop :=
  by_client_id l (r_cid r) = None /\ 1 <= r_qty r <= order_max_qty cfg /\ 0 <= r_price r /\
  forall o, o ∈ orders l -> is_open (state o) = true -> trade_date o = day -> symbol o = r_sym r -> side o <> r_side r.

Definition within (cfg : Config) (l : Ledger) (day : pystr) (r : Req) (unit : Z) : Prop :=
  0 <= unit /\ (r_price r <> 0 -> unit = r_price r) /\
  unit * r_qty r <= order_max_krw cfg /\ committed (orders l) day + unit * r_qty r <= order_daily_max_krw cfg.

Definition phase_ok (cfg : Config) (l : Ledger) (p : Phase) : Prop :=
  match p with
  | Idle => True
  | AwaitQuote day r => ready cfg l day r /\ r_price r = 0
  | AwaitTotals day r unit => ready cfg l day r /\ within cfg l day r unit
  | AwaitOrder i => exists o, o ∈ orders l /\ id o = i /\ state o = PENDING_SUBMIT
  end.

Record desk_inv (cfg : Config) (d : Desk) : Prop := mkInv
  { di_wf : wf (ledger d);
    di_open : one_open (orders (ledger d));
    di_fits : Forall (order_fits cfg) (orders (ledger d));
    di_day : forall day, committed (orders (ledger d)) day <= order_daily_max_krw cfg;
    di_sent : sent d = client_order_id <$> orders (ledger d);
    di_base : Forall (fun o => is_Some (totals_baseline (ledger d) (trade_date o) (symbol o) (side o))) (orders (ledger d));
    di_phase : phase_ok cfg (ledger d) (phase d) }.

Lemma fits_nonneg cfg os : Forall (order_fits cfg) os -> Forall (fun o => 0 <= qty o * est_price o) os.
Proof. intros H. apply (Forall_impl _ _ _ H). unfold order_fits. intros o. nia. Qed.

Lemma find_none_tamer cid os os' : Forall2 tamer os os' ->
  find (fun o => bool_decide (client_order_id o = cid)) os = None ->
  find (fun o => bool_decide (client_order_id o = cid)) os' = None.
Proof.
  induction 1 as [|o o' os os' [(_ & Ec & _) _] _ IH]; [done|]. cbn. rewrite Ec.
  by destruct (bool_decide _).
Qed.

Lemma ready_tamer cfg l l' day r : Forall2 tamer (orders l) (orders l') -> ready cfg l day r -> ready cfg l' day r.
Proof.
  intros H (Hc & Hq & Hp & Ho). split; [by eapply find_none_tamer|]. split; [done|]. split; [done|].
  intros o' Hin Hop Hd Hs. destruct (tamer_in _ _ _ H Hin) as (o & Hino & T & E & _).
  unfold same_terms in T. destruct_and!. assert (side o = side o') as <- by congruence.
  apply Ho; [done|by apply E|congruence|congruence].
Qed.

(** The facts survive any step of the ledger that only moves orders along. *)
Lemma inv_moved cfg d l' p :
  desk_inv cfg d -> Forall2 tamer (orders (ledger d)) (orders l') -> wf l' -> totals_base l' = totals_base (ledger d) ->
  phase_ok cfg l' p -> desk_inv cfg (mkDesk l' p (sent d)).
Proof.
  intros [W O F D S B P] H W' E P'. split; cbn [ledger phase sent]; try done.
  - by eapply one_open_tamer.
  - apply Forall_forall. intros o' Ho'. destruct (tamer_in _ _ _ H Ho') as (o & Ho & T & _).
    pose proof (proj1 (Forall_forall _ _) F o Ho) as Hf. unfold order_fits, same_terms in *. destruct_and!.
    split_and!; congruence.
  - intros day. etrans; [eapply committed_tamer; [done|by eapply fits_nonneg]|apply D].
  - rewrite S. clear -H. induction H as [|o o' os os' [(_ & Ec & _) _] _ IH]; [done|]. cbn. by rewrite Ec, IH.
  - apply Forall_forall. intros o' Ho'. destruct (tamer_in _ _ _ H Ho') as (o & Ho & T & _).
    pose proof (proj1 (Forall_forall _ _) B o Ho) as Hb. unfold same_terms, totals_baseline in *. destruct_and!.
    rewrite E. congruence.
Qed.

(** ** Every event keeps it *)

Definition set_phase (p : Phase) (d : Desk) : Desk := mkDesk (ledger d) p (sent d).

Lemma inv_phase cfg d p : desk_inv cfg d -> phase_ok cfg (ledger d) p -> desk_inv cfg (set_phase p d).
Proof. by intros [? ? ? ? ? ? ?] ?; split. Qed.

Lemma inv_idle cfg d : desk_inv cfg d -> desk_inv cfg (idle d).
Proof. intros H. by apply (inv_phase cfg d Idle). Qed.

Lemma side_of_text s : side_of (side_text s) = Some s.
Proof. by destruct s. Qed.

(** The row a submission adds. *)
Definition new_row (day : pystr) (r : Req) (unit : Z) (now : float) (l : Ledger) : Order :=
  mkOrder (zlen (orders l) + 1) (r_cid r) day (r_sym r) (r_side r) (r_qty r) (r_price r) unit
    PENDING_SUBMIT None None 0 0 now now.

Lemma create_row cfg day r unit now d :
  ready cfg (ledger d) day r -> within cfg (ledger d) day r unit ->
  create day r unit now d =
    (let o := new_row day r unit now (ledger d) in
     mkDesk (event (set_orders (ledger d) (orders (ledger d) ++ [o])) (EvCreated (id o))) (AwaitOrder (id o))
       (sent d ++ [r_cid r]), None).
Proof.
  intros (Hc & Hq & Hp & _) (_ & Hu & _). unfold create, new_order. rewrite Hc, side_of_text.
  rewrite (proj2 (Z.ltb_lt 0 (r_qty r))), (proj2 (Z.leb_le 0 (r_price r))) by lia. cbn [andb].
  assert ((if unit =? 0 then r_price r else unit) = unit) as ->; [|done].
  destruct (Z.eqb_spec unit 0) as [->|]; [|done]. destruct (Z.eq_dec (r_price r) 0); [done|]. symmetry. by apply Hu.
Qed.

Lemma committed_snoc os o day : committed (os ++ [o]) day =
  committed os day + (if bool_decide (trade_date o = day /\ counted (state o) = true) then qty o * est_price o else 0).
Proof.
  unfold committed. rewrite filter_app, sum_app. f_equal. case_bool_decide as E.
  - rewrite filter_cons_True, filter_nil by done. unfold sum. cbn. lia.
  - by rewrite filter_cons_False, filter_nil.
Qed.

Lemma one_open_snoc os o : one_open os ->
  (forall x, x ∈ os -> is_open (state x) = true -> ~ same_key x o) -> one_open (os ++ [o]).
Proof.
  intros H Hn a b Ha Hb Sa Sb K. apply elem_of_app in Ha as [Ha|Ha], Hb as [Hb|Hb];
    rewrite ?list_elem_of_singleton in *; subst.
  - by apply H.
  - by destruct (Hn a Ha Sa).
  - destruct (Hn b Hb Sb). unfold same_key in *. destruct_and!. by split_and!.
  - done.
Qed.

Lemma inv_create cfg day r unit now d :
  desk_inv cfg d -> ready cfg (ledger d) day r -> within cfg (ledger d) day r unit ->
  is_Some (totals_baseline (ledger d) day (r_sym r) (r_side r)) -> desk_inv cfg (create day r unit now d).1.
Proof.
  intros [W O F D S B P] Hr Hw Hb.
  pose proof (new_order_wf (r_cid r) day (r_sym r) (side_text (r_side r)) (r_qty r) (r_price r) unit now (ledger d) W) as Hwf.
  pose proof (create_row cfg day r unit now d Hr Hw) as E. rewrite E.
  assert (wf (ledger (create day r unit now d).1)) as W'.
  { unfold create. by destruct (new_order _ _ _ _ _ _ _ _ _) as [[[l o] c]|]. }
  rewrite E in W'. cbn [fst ledger] in *. cbn zeta in *.
  destruct Hr as (Hc & Hq & Hp & Ho). destruct Hw as (Hu & _ & Hm & Hd).
  set (o := new_row day r unit now (ledger d)) in *.
  split; cbn [ledger phase sent]; [done|..]; cbn [event set_orders orders].
  - apply one_open_snoc; [done|]. intros x Hx Hop (K1 & K2 & K3). by apply (Ho x).
  - apply Forall_app. split; [done|]. repeat constructor; cbn; lia.
  - intros day'. rewrite committed_snoc. case_bool_decide as K; [|specialize (D day'); lia].
    destruct K as [K _]. cbn in K. subst day'. cbn [o new_row qty est_price]. lia.
  - by rewrite fmap_app, S.
  - apply Forall_app. split; [done|]. by repeat constructor.
  - exists o. split; [|done]. apply elem_of_app. right. by left.
Qed.

Lemma inv_with_unit cfg day r unit now d :
  desk_inv cfg d -> ready cfg (ledger d) day r -> 0 <= unit -> (r_price r <> 0 -> unit = r_price r) ->
  desk_inv cfg (with_unit cfg day r unit now d).1.
Proof.
  intros Hi Hr Hu Hp. unfold with_unit. cbn zeta.
  destruct (Z.ltb_spec (order_max_krw cfg) (unit * r_qty r)); [by apply inv_idle|].
  destruct (Z.ltb_spec (order_daily_max_krw cfg) (notional_today (ledger d) day + unit * r_qty r)); [by apply inv_idle|].
  assert (within cfg (ledger d) day r unit) as Hw.
  { pose proof (committed_notional (ledger d) day). split_and!; try done; lia. }
  destruct (totals_baseline (ledger d) day (r_sym r) (r_side r)) as [t|] eqn:Eb.
  - apply inv_create; try done.
  - by apply (inv_phase cfg d (AwaitTotals day r unit)).
Qed.

Lemma open_order_none l day sym sd : open_order l day sym sd = None ->
  forall o, o ∈ orders l -> is_open (state o) = true -> trade_date o = day -> symbol o = sym -> side o <> sd.
Proof.
  intros H o Ho Hop Hd Hs Hsd. pose proof (find_none _ _ _ H Ho) as E. cbn beta in E.
  unfold is_open in Hop. rewrite Hop, !bool_decide_eq_true_2 in E; done.
Qed.

Lemma inv_submit cfg day cid sym sd q p now d : desk_inv cfg d -> desk_inv cfg (submit cfg day cid sym sd q p now d).1.
Proof.
  intros Hi. unfold submit. destruct (parse_req cid sym sd q p) as [r|] eqn:Er; [|done].
  destruct (negb _ || _) eqn:Eq; [done|]. destruct (phase d) eqn:Ep; try done.
  destruct (by_client_id (ledger d) cid) eqn:Ec; [done|]. destruct (closed_days (ledger d) !! day); [done|].
  destruct (open_order (ledger d) day sym (r_side r)) eqn:Eo; [done|].
  apply orb_false_iff in Eq as [Eq%negb_false_iff Epr%Z.ltb_ge]. apply andb_true_iff in Eq as [Eq1%Z.leb_le Eq2%Z.leb_le].
  assert (r_cid r = cid /\ r_sym r = sym /\ r_qty r = q /\ r_price r = p) as (R1 & R2 & R3 & R4).
  { unfold parse_req in Er. destruct (_ && _); [|done]. destruct (side_of sd); [|done]. by injection Er as <-. }
  assert (ready cfg (ledger d) day r) as Hr.
  { unfold ready. rewrite R1, R2, R3, R4. split_and!; try done. by apply open_order_none. }
  destruct (Z.eqb_spec p 0) as [->|Hp].
  - by apply (inv_phase cfg d (AwaitQuote day r)).
  - apply inv_with_unit; [done..|lia|]. by rewrite R4.
Qed.

Lemma inv_quote cfg q now d : (forall u, q = Some u -> 0 <= u) -> desk_inv cfg d -> desk_inv cfg (on_quote cfg q now d).1.
Proof.
  intros Hq Hi. unfold on_quote. destruct (phase d) eqn:Ep; try done. destruct q as [u|]; [|by apply inv_idle].
  pose proof (di_phase _ _ Hi) as P. rewrite Ep in P. destruct P as [Hr Hp].
  apply inv_with_unit; [done..|by apply Hq|]. intros H. by destruct H.
Qed.

Lemma inv_totals cfg t now d : desk_inv cfg d -> desk_inv cfg (on_totals t now d).1.
Proof.
  intros Hi. unfold on_totals. destruct (phase d) as [| |day r unit|] eqn:Ep; try done. destruct t as [t|]; [|by apply inv_idle].
  pose proof (di_phase _ _ Hi) as P. rewrite Ep in P. destruct P as [Hr Hw].
  destruct (set_totals_baseline_orders day (r_sym r) (r_side r) t (ledger d)) as (E1 & E2 & E3).
  set (l' := set_totals_baseline day (r_sym r) (r_side r) t (ledger d)) in *.
  assert (forall k, is_Some (totals_base (ledger d) !! k) -> is_Some (totals_base l' !! k)) as Hk.
  { intros k Hk. unfold l', set_totals_baseline. destruct (totals_baseline _ _ _ _); [done|]. cbn [totals_base].
    apply lookup_insert_is_Some'. by right. }
  assert (ready cfg l' day r /\ within cfg l' day r unit) as [Hr' Hw'].
  { unfold ready, within, by_client_id. rewrite E1. done. }
  apply inv_create; cbn [ledger phase sent]; try done.
  - destruct Hi as [W O F D S B P]. split; cbn [ledger phase sent]; rewrite ?E1; try done.
    + apply (ledger_step_wf _ (SetTotalsBaseline day (r_sym r) (r_side r) t) W).
    + apply (Forall_impl _ _ _ B). intros o. apply Hk.
  - unfold totals_baseline, l', set_totals_baseline, totals_baseline.
    destruct (totals_base (ledger d) !! (day, r_sym r, side_key (r_side r))) eqn:E; [by rewrite E|].
    cbn [totals_base]. rewrite lookup_insert_eq. by eexists.
Qed.

Lemma phase_moved cfg l l' p : moved false l l' -> Forall (order_fits cfg) (orders l) ->
  phase_ok cfg l p -> phase_ok cfg l' p.
Proof.
  intros H F P. pose proof (follows_tamer _ _ _ H) as Ht. destruct p as [|day r|day r unit|i]; cbn in *.
  - done.
  - destruct P as [Hr Hp]. split; [by eapply ready_tamer|done].
  - destruct P as [Hr (H1 & H2 & H3 & H4)]. split; [by eapply ready_tamer|]. split_and!; try done.
    pose proof (committed_tamer _ _ day Ht (fits_nonneg _ _ F)). lia.
  - destruct P as (o & Ho & Hi & Hs). apply list_elem_of_lookup in Ho as [j Hj].
    destruct (Forall2_lookup_l _ _ _ _ _ H Hj) as (o' & Hj' & [(E1 & _) E2]). exists o'.
    split; [by eapply list_elem_of_lookup_2|]. split; [congruence|]. rewrite Hs in E2. by apply pending_edge.
Qed.

Lemma mark_tamer l i s od msg now : wf l -> is_open PENDING_SUBMIT = true ->
  (exists o, o ∈ orders l /\ id o = i /\ state o = PENDING_SUBMIT) ->
  Forall2 tamer (orders l) (orders (mark i s od msg now l)).
Proof.
  intros Hwf _ (p & Hp & Hi & Hs). unfold mark, update. cbn [event set_orders orders].
  apply Forall2_fmap_r, Forall_Forall2_diag, Forall_forall. intros o Ho. unfold compose.
  destruct (Z.eqb_spec (id o) i) as [E|]; [|split; [done|split; done]].
  rewrite (id_unique l o p) by (done || congruence). split; [done|]. cbn [state]. by rewrite Hs.
Qed.

Lemma inv_mark cfg d i s od msg now : desk_inv cfg d -> phase d = AwaitOrder i ->
  desk_inv cfg (mkDesk (mark i s od msg now (ledger d)) Idle (sent d)).
Proof.
  intros Hi Ep. pose proof (di_phase _ _ Hi) as P. rewrite Ep in P. pose proof (di_wf _ _ Hi) as W.
  apply inv_moved; [done|by apply mark_tamer| |done|done]. by apply (ledger_step_wf _ (Mark i s od msg now)).
Qed.

Lemma inv_restart cfg d now : desk_inv cfg d ->
  desk_inv cfg (mkDesk (recover_pending now (ledger d)).1 Idle (sent d)).
Proof.
  intros Hi. pose proof (di_wf _ _ Hi) as W. apply inv_moved; [done| | | |done].
  - apply (follows_tamer true). by apply (step_moved _ (RecoverPending now)).
  - by apply (ledger_step_wf _ (RecoverPending now)).
  - apply resolve_base.
Qed.

Lemma inv_task cfg d t : desk_inv cfg d -> desk_inv cfg (mkDesk (step (ledger d) (task_op t)) (phase d) (sent d)).
Proof.
  intros Hi. pose proof (di_wf _ _ Hi) as W. pose proof (task_moved _ t W) as M. apply inv_moved; [done| | | |].
  - by apply (follows_tamer false).
  - by apply ledger_step_wf.
  - apply task_base.
  - eapply phase_moved; [exact M|apply Hi|apply Hi].
Qed.

(** The broker's quotes are not negative. *)
Definition quote_ok (e : happening) : bool := match e with Quote (Some u) _ => 0 <=? u | _ => true end.

Lemma inv_step cfg d e : quote_ok e = true -> desk_inv cfg d -> desk_inv cfg (desk_step cfg d e).
Proof.
  intros He Hi. destruct e; cbn [desk_step].
  - by apply inv_submit.
  - apply inv_quote; [|done]. intros u ->. cbn in He. by apply Z.leb_le.
  - by apply inv_totals.
  - unfold on_answer. destruct (phase d) eqn:Ep; try done. destruct a; by apply inv_mark.
  - by apply inv_idle.
  - by apply inv_restart.
  - by apply inv_task.
Qed.

Lemma inv_run cfg es : 0 <= order_daily_max_krw cfg -> Forall (fun e => quote_ok e = true) es -> desk_inv cfg (desk_run cfg es).
Proof.
  intros Hd H. unfold desk_run. assert (desk_inv cfg new_desk) as Hi.
  { split; cbn [new_desk ledger phase sent]; [apply wf_new_ledger|..]; try done; try by constructor.
    intros o o' Ho. by apply elem_of_nil in Ho. }
  revert H Hi. generalize new_desk as d. induction es as [|e es IH]; intros d H Hi; [done|].
  apply Forall_cons in H as [He H]. apply IH; [done|]. by apply inv_step.
Qed.

(** ** Properties *)

(** C12: However submissions, the broker's answers, reconciliation, notices, the end of
    the day, cancellations and crashes with recovery interleave, at most one order of a
    day, symbol and side is open at any time: the broker's fills have one owner, which
    the ledger's allocation relies on. *)
Theorem one_open_order cfg es o o' :
  0 <= order_daily_max_krw cfg -> Forall (fun e => quote_ok e = true) es ->
  let os := orders (ledger (desk_run cfg es)) in
  o ∈ os -> o' ∈ os -> state o ∈ OPEN_STATES -> state o' ∈ OPEN_STATES ->
  trade_date o = trade_date o' -> symbol o = symbol o' -> side o = side o' -> o = o'.
Proof.
  intros Hd Hq os Ho Ho' S S' K1 K2 K3. pose proof (inv_run cfg es Hd Hq) as Hi.
  apply (id_unique (ledger (desk_run cfg es))); [apply Hi|done|done|].
  apply (di_open _ _ Hi); [done|done|by apply bool_decide_eq_true_2..|done].
Qed.

(** C13: In every reachable state every order is within the quantity and amount limits of
    one order, and the amounts of a day's orders (the rejected and unsent ones apart), at
    the prices their limits were checked with, stay within the daily limit, although the
    limit is checked before the awaits that precede the record. *)
Theorem limits_hold cfg es :
  0 <= order_daily_max_krw cfg -> Forall (fun e => quote_ok e = true) es ->
  let l := ledger (desk_run cfg es) in
  (forall o, o ∈ orders l -> 1 <= qty o <= order_max_qty cfg /\ 0 <= qty o * est_price o <= order_max_krw cfg) /\
  (forall day, sum (fun o => qty o * est_price o)
     (filter (fun o => trade_date o = day /\ state o ∉ [REJECTED; NOT_SENT]) (orders l)) <= order_daily_max_krw cfg).
Proof.
  intros Hd Hq l. pose proof (inv_run cfg es Hd Hq) as Hi. split.
  - intros o Ho. pose proof (proj1 (Forall_forall _ _) (di_fits _ _ Hi) o Ho) as (H1 & H2 & H3). split; [done|]. nia.
  - intros day. etrans; [|apply (di_day _ _ Hi day)]. unfold committed.
    rewrite (list_filter_iff (fun o => trade_date o = day /\ state o ∉ [REJECTED; NOT_SENT])
      (fun o => trade_date o = day /\ counted (state o) = true)); [done|].
    intros o. unfold counted. by rewrite bool_decide_eq_true.
Qed.

(** Every order call made to the broker is for a recorded order, in the order of the
    record, with a client id of its own, so nothing is sent twice, not even after a crash
    or an uncertain answer; and its day, symbol and side have a baseline of the broker's
    totals, taken before. *)
Theorem sent_once_recorded cfg es :
  0 <= order_daily_max_krw cfg -> Forall (fun e => quote_ok e = true) es ->
  let d := desk_run cfg es in
  sent d = client_order_id <$> orders (ledger d) /\ NoDup (sent d) /\
  Forall (fun o => is_Some (totals_baseline (ledger d) (trade_date o) (symbol o) (side o))) (orders (ledger d)).
Proof.
  intros Hd Hq d. pose proof (inv_run cfg es Hd Hq) as Hi. split_and!; [apply Hi| |apply Hi].
  unfold d. rewrite (di_sent _ _ Hi). apply (di_wf _ _ Hi).
Qed.

(** A market order and a limit order of the same symbol, with a crash between. *)
Definition demo_config : Config := mkConfig 100 1000000 1500000.
Definition today : pystr := lit "20260102".
Definition clock (n : Z) : float := of_int (1000 + n).
Definition session : list happening :=
  [Submit today (lit "order-001") (lit "005930") (lit "buy") 10 0 (clock 0); Quote (Some 70000) (clock 1);
   TotalsRead (Some (mkTotals 0 0 0)) (clock 2); Answered (NoAnswer (lit "timeout")) (clock 3);
   Submit today (lit "order-002") (lit "005930") (lit "buy") 5 70000 (clock 4); Restart (clock 5);
   Other (Reconcile today (lit "005930") Buy (mkTotals 10 10 700000) (clock 6));
   Submit today (lit "order-003") (lit "005930") (lit "buy") 5 70000 (clock 7); Answered (Taken (lit "77") []) (clock 8);
   Submit today (lit "order-004") (lit "005930") (lit "sell") 9 70000 (clock 9)].

Lemma session_ok : 0 <= order_daily_max_krw demo_config /\ Forall (fun e => quote_ok e = true) session.
Proof. split; [done|]. by repeat constructor. Qed.

Example session_orders :
  (fun o => (client_order_id o, state o)) <$> orders (ledger (desk_run demo_config session))
  = [(lit "order-001", FILLED); (lit "order-003", ACCEPTED)].
Proof. by vm_compute. Qed.

Lemma one_open_order_witness :
  let os := orders (ledger (desk_run demo_config session)) in
  exists o, os !! 1%nat = Some o /\ state o ∈ OPEN_STATES /\
  forall o', o' ∈ os -> state o' ∈ OPEN_STATES -> trade_date o = trade_date o' -> symbol o = symbol o' ->
    side o = side o' -> o = o'.
Proof.
  intros os. destruct (os !! 1%nat) as [o|] eqn:E; [|by vm_compute in E]. exists o. split; [done|].
  assert (state o = ACCEPTED) as Hs by (vm_compute in E; by injection E as <-).
  assert (state o ∈ OPEN_STATES) as Ho by (rewrite Hs; by apply (bool_decide_unpack _)). split; [done|].
  intros o' Ho' S' K1 K2 K3. destruct session_ok as [H1 H2].
  exact (one_open_order demo_config session o o' H1 H2 (list_elem_of_lookup_2 _ _ _ E) Ho' Ho S' K1 K2 K3).
Defined.

Lemma limits_hold_witness :
  sum (fun o => qty o * est_price o) (filter (fun o => trade_date o = today /\ state o ∉ [REJECTED; NOT_SENT])
    (orders (ledger (desk_run demo_config session)))) <= 1500000.
Proof. destruct session_ok as [H1 H2]. exact (proj2 (limits_hold demo_config session H1 H2) today). Defined.

Lemma sent_once_recorded_witness :
  sent (desk_run demo_config session) = [lit "order-001"; lit "order-003"] /\ NoDup (sent (desk_run demo_config session)).
Proof.
  destruct session_ok as [H1 H2]. split; [by vm_compute|].
  exact (proj1 (proj2 (sent_once_recorded demo_config session H1 H2))).
Defined.

(** The closed day is checked before the quote is awaited, not again before the record:
    a market order can be written to, and sent for, a day closed meanwhile. *)
Example order_after_close :
  let d := desk_run demo_config
    [Submit today (lit "order-001") (lit "005930") (lit "buy") 1 0 (clock 0);
     Other (MaybeClose today 0 (clock 1)); Quote (Some 70000) (clock 2);
     TotalsRead (Some (mkTotals 0 0 0)) (clock 3)] in
  is_Some (closed_days (ledger d) !! today) /\ state <$> orders (ledger d) = [PENDING_SUBMIT] /\ sent d = [lit "order-001"].
Proof. vm_compute. split; [by eexists|done]. Qed.

(** The symbol's pattern accepts a final newline and digits of other scripts. *)
Example symbol_pattern :
  SYMBOL_RE (lit "005930" ++ [10]) = true /\ SYMBOL_RE (replicate 6 0x660) = true /\ SYMBOL_RE (lit "00593") = false.
Proof. by vm_compute. Qed.
End Desk.
