(* ===== verification/Indicators.v ===== *)
(** * Streaming indicators (src/src/mdfeed/indicators.py)

    Each class is a record, [update] returns the new record and the value.  A window
    length is at least 1; the sources never pass 0, on which a full empty deque has no
    first element. *)

From S2P Require Import Prelude PyFloat.

Module Ind.

Definition zero : float := S754_zero false.
Definition fneg (a : float) : float := SFopp a.
Definition fabs (a : float) : float := SFabs a.
Definition fsqrt (a : float) : float := SFsqrt prec emax a.

(** [x / n] and [x * n] for an int [n]. *)
Definition div_int (x : float) (n : nat) : float := fdiv x (of_int (Z.of_nat n)).
Definition mul_int (x : float) (n : nat) : float := fmul x (of_int (Z.of_nat n)).

(** ** A deque with [maxlen] *)

Definition full (n : nat) (q : list float) : bool := bool_decide (length q = n).
Definition push (n : nat) (q : list float) (x : float) : list float :=
  if full n q then tail q ++ [x] else q ++ [x].
(** [q[0]] of a non-empty deque. *)
Definition front (q : list float) : float := match q with x :: _ => x | [] => zero end.

(** ** Simple moving average *)

Record SMA := mkSMA { sma_n : nat; sma_q : list float; sma_sum : float }.
Definition new_sma (n : nat) : SMA := mkSMA n [] zero.
Definition sma_ready (s : SMA) : bool := full (sma_n s) (sma_q s).
Definition sma_value (s : SMA) : option float := if sma_ready s then Some (div_int (sma_sum s) (sma_n s)) else None.
Definition sma_update (s : SMA) (x : float) : SMA * option float :=
  let sum := if full (sma_n s) (sma_q s) then fsub (sma_sum s) (front (sma_q s)) else sma_sum s in
  let s := mkSMA (sma_n s) (push (sma_n s) (sma_q s) x) (fadd sum x) in
  (s, sma_value s).

(** ** Exponential moving average, seeded with the simple one *)

Record EMA := mkEMA { ema_n : nat; ema_k : float; ema_v : option float; ema_seed : float; ema_count : nat }.
Definition new_ema (n : nat) : EMA :=
  mkEMA n (fdiv (of_int 2) (fadd (of_int (Z.of_nat n)) (of_int 1))) None zero 0.
Definition ema_update (s : EMA) (x : float) : EMA * option float :=
  let count := S (ema_count s) in
  let s := match ema_v s with
    | None =>
        let seed := fadd (ema_seed s) x in
        mkEMA (ema_n s) (ema_k s) (if bool_decide (count = ema_n s) then Some (div_int seed (ema_n s)) else None)
          seed count
    | Some v => mkEMA (ema_n s) (ema_k s) (Some (fadd v (fmul (ema_k s) (fsub x v)))) (ema_seed s) count
    end in
  (s, ema_v s).

(** ** Relative strength *)

Record RSI := mkRSI
  { rsi_n : nat; rsi_prev : option float; rsi_avg : option (float * float); rsi_count : nat; rsi_sums : float * float }.
Definition new_rsi (n : nat) : RSI := mkRSI n None None 0 (zero, zero).
Definition rsi_value (s : RSI) : option float :=
  match rsi_avg s with
  | None => None
  | Some (g, l) =>
      if feq l zero then Some (of_int 100)
      else let rs := fdiv g l in Some (fsub (of_int 100) (fdiv (of_int 100) (fadd (of_int 1) rs)))
  end.
(** Wilder's smoothing of one average. *)
Definition wilder (n : nat) (avg x : float) : float := div_int (fadd (mul_int avg (n - 1)) x) n.
Definition rsi_update (s : RSI) (x : float) : RSI * option float :=
  match rsi_prev s with
  | None => (mkRSI (rsi_n s) (Some x) (rsi_avg s) (rsi_count s) (rsi_sums s), None)
  | Some prev =>
      let change := fsub x prev in
      let gain := fmax change zero in
      let loss := fmax (fneg change) zero in
      match rsi_avg s with
      | None =>
          let count := S (rsi_count s) in
          let sums := (fadd (rsi_sums s).1 gain, fadd (rsi_sums s).2 loss) in
          let avg := if (count <? rsi_n s)%nat then None
                     else Some (div_int sums.1 (rsi_n s), div_int sums.2 (rsi_n s)) in
          let s := mkRSI (rsi_n s) (Some x) avg count sums in (s, rsi_value s)
      | Some (g, l) =>
          let s := mkRSI (rsi_n s) (Some x) (Some (wilder (rsi_n s) g gain, wilder (rsi_n s) l loss))
                     (rsi_count s) (rsi_sums s) in (s, rsi_value s)
      end
  end.

(** ** Rolling standard deviation *)

(** A finite float as an integer times a power of two. *)
Definition mant (a : float) : Z := match a with S754_finite s m _ => cond_Zopp s (Zpos m) | _ => 0 end.
Definition expo (a : float) : Z := match a with S754_finite _ _ e => e | _ => 0 end.
Definition is_finite (a : float) : bool :=
  match a with S754_finite _ _ _ | S754_zero _ => true | _ => false end.

(** [math.fsum] of finite floats: the exact sum, rounded once; otherwise the sum decides
    between infinities and NaN.  (An overflow raises OverflowError and is not modelled.) *)
Definition fsum (xs : list float) : float :=
  if forallb is_finite xs then
    let e := foldr (fun x => Z.min (expo x)) 0 xs in
    binary_normalize prec emax (foldr (fun x n => mant x * 2 ^ (expo x - e) + n) 0 xs) e false
  else foldl fadd zero xs.

Record Std := mkStd { std_n : nat; std_q : list float; std_sum : float; std_sq : float; std_since : Z }.
Definition new_std (n : nat) : Std := mkStd n [] zero zero 0.
Definition std_value (s : Std) : option float :=
  if full (std_n s) (std_q s) then
    let mean := div_int (std_sum s) (std_n s) in
    let var := fmax (fsub (div_int (std_sq s) (std_n s)) (fmul mean mean)) zero in
    let c := if (1 <? std_n s)%nat then int_div (Z.of_nat (std_n s)) (Z.of_nat (std_n s) - 1) else of_int 1 in
    Some (fsqrt (fmul var c))
  else None.
Definition std_update (s : Std) (x : float) : Std * option float :=
  let old := front (std_q s) in
  let '(sum, sq) := if full (std_n s) (std_q s) then (fsub (std_sum s) old, fsub (std_sq s) (fmul old old))
                    else (std_sum s, std_sq s) in
  let q := push (std_n s) (std_q s) x in
  let since := std_since s + 1 in
  let s := if 10000 <=? since then mkStd (std_n s) q (fsum q) (fsum ((fun v => fmul v v) <$> q)) 0
           else mkStd (std_n s) q (fadd sum x) (fadd sq (fmul x x)) since in
  (s, std_value s).

(** ** Bollinger bands *)

Record Bollinger := mkBB { bb_n : nat; bb_k : float; bb_sma : SMA; bb_std : Std }.
Definition new_bb (n : nat) (k : float) : Bollinger := mkBB n k (new_sma n) (new_std n).
Definition bb_value (b : Bollinger) : option (float * float * float) :=
  match sma_value (bb_sma b), std_value (bb_std b) with
  | Some m, Some s => Some (m, fadd m (fmul (bb_k b) s), fsub m (fmul (bb_k b) s))
  | _, _ => None
  end.
Definition bb_update (b : Bollinger) (x : float) : Bollinger * option (float * float * float) :=
  let b := mkBB (bb_n b) (bb_k b) (sma_update (bb_sma b) x).1 (std_update (bb_std b) x).1 in (b, bb_value b).

(** ** MACD *)

Record MACD := mkMACD { macd_fast : EMA; macd_slow : EMA; macd_sig : EMA }.
Definition new_macd (fast slow signal : nat) : MACD := mkMACD (new_ema fast) (new_ema slow) (new_ema signal).
Definition macd_update (s : MACD) (x : float) : MACD * option (float * float * float) :=
  let '(f, fv) := ema_update (macd_fast s) x in
  let '(l, lv) := ema_update (macd_slow s) x in
  match fv, lv with
  | Some a, Some b =>
      let macd := fsub a b in
      let '(g, gv) := ema_update (macd_sig s) macd in
      (mkMACD f l g, match gv with Some sig => Some (macd, sig, fsub macd sig) | None => None end)
  | _, _ => (mkMACD f l (macd_sig s), None)
  end.

(** ** Average true range *)

Record ATR := mkATR { atr_n : nat; atr_prev : option float; atr_avg : option float; atr_sum : float; atr_count : nat }.
Definition new_atr (n : nat) : ATR := mkATR n None None zero 0.
Definition true_range (prev : option float) (high low : float) : float :=
  match prev with
  | None => fsub high low
  | Some c => fmax (fmax (fsub high low) (fabs (fsub high c))) (fabs (fsub low c))
  end.
Definition atr_update (s : ATR) (high low close : float) : ATR * option float :=
  let tr := true_range (atr_prev s) high low in
  let s := match atr_avg s with
    | None =>
        let count := S (atr_count s) in
        let sum := fadd (atr_sum s) tr in
        mkATR (atr_n s) (Some close) (if (count <? atr_n s)%nat then None else Some (div_int sum (atr_n s))) sum count
    | Some a => mkATR (atr_n s) (Some close) (Some (wilder (atr_n s) a tr)) (atr_sum s) (atr_count s)
    end in
  (s, atr_avg s).

(** ** Crossings *)

(** [None] until the two series first differ. *)
Definition Crossover := option bool.
Definition cross_update (prev : Crossover) (a b : float) : Crossover * Z :=
  if feq a b then (prev, 0)
  else
    let cur := fgt a b in
    (Some cur, match prev with
               | None => 0
               | Some p => if Bool.eqb p cur then 0 else if cur then 1 else -1
               end).

(** ** Running over a series *)

(** The state after the inputs, and the value of each. *)
Definition feed {S X V} (update : S -> X -> S * V) (s : S) (xs : list X) : S := foldl (fun s x => (update s x).1) s xs.

(** The value the last of the inputs [xs ++ [x]] gives. *)
Definition value_at {S X V} (update : S -> X -> S * V) (s : S) (xs : list X) (x : X) : V := (update (feed update s xs) x).2.

Lemma feed_snoc {S X V} (update : S -> X -> S * V) s xs x : feed update s (xs ++ [x]) = (update (feed update s xs) x).1.
Proof. unfold feed. by rewrite foldl_app. Qed.

(** ** Windows hold the last inputs *)

(** The last [n] of a list. *)
Definition window (n : nat) (xs : list float) : list float := drop (length xs - n) xs.

Lemma window_full n xs : full n (window n xs) = (n <=? length xs)%nat.
Proof.
  unfold full, window. rewrite length_drop.
  destruct (Nat.leb_spec n (length xs)); [apply bool_decide_eq_true_2|apply bool_decide_eq_false_2]; lia.
Qed.

Lemma tail_drop_S {A} k (xs : list A) : tail (drop k xs) = drop (S k) xs.
Proof. revert k. induction xs as [|x xs IH]; intros [|k]; try done. apply IH. Qed.

Lemma window_push n xs x : (1 <= n)%nat -> push n (window n xs) x = window n (xs ++ [x]).
Proof.
  intros Hn. unfold push. rewrite window_full. unfold window. rewrite length_app. cbn [length].
  destruct (Nat.leb_spec n (length xs)) as [H|H].
  - replace (length xs + 1 - n)%nat with (S (length xs - n)) by lia. rewrite drop_app_le by lia.
    f_equal. apply tail_drop_S.
  - replace (length xs + 1 - n)%nat with 0%nat by lia. replace (length xs - n)%nat with 0%nat by lia. done.
Qed.

Lemma sma_window n xs : (1 <= n)%nat -> sma_n (feed sma_update (new_sma n) xs) = n /\ sma_q (feed sma_update (new_sma n) xs) = window n xs.
Proof.
  intros Hn. induction xs as [|x xs [IH1 IH2]] using rev_ind; [done|]. rewrite feed_snoc. cbn [sma_update fst sma_n sma_q].
  by rewrite IH1, IH2, window_push.
Qed.

Lemma std_window n xs : (1 <= n)%nat -> std_n (feed std_update (new_std n) xs) = n /\ std_q (feed std_update (new_std n) xs) = window n xs.
Proof.
  intros Hn. induction xs as [|x xs IH] using rev_ind; [done|]. rewrite feed_snoc.
  revert IH. generalize (feed std_update (new_std n) xs) as s. intros s [IH1 IH2]. unfold std_update. cbn zeta.
  rewrite IH1, IH2, window_push by done.
  destruct (if full _ _ then _ else _) as [a b]. by destruct (10000 <=? _).
Qed.

(** ** Warm-up *)

Record ema_at (n k : nat) (s : EMA) : Prop := mkEmaAt
  { ea_n : ema_n s = n; ea_count : ema_count s = k; ea_v : is_Some (ema_v s) <-> (n <= k)%nat }.

Lemma ema_at_update n k s x : (1 <= n)%nat -> ema_at n k s -> ema_at n (S k) (ema_update s x).1.
Proof.
  intros Hn [H1 H2 H3]. unfold ema_update. cbn [fst]. destruct (ema_v s) as [v|] eqn:E.
  - split; cbn; [done|by rewrite H2|]. split; [intros _|done]. assert (n <= k)%nat by (apply H3; by eexists). lia.
  - split; cbn; [done|by rewrite H2|]. rewrite H1, H2. assert (~ (n <= k)%nat) as Hk.
    { intros Hle. apply H3 in Hle as [? ?]. done. }
    case_bool_decide; [split; [intros _; lia|by eexists]|split; [by intros []|lia]].
Qed.

Lemma ema_feed n xs : (1 <= n)%nat -> ema_at n (length xs) (feed ema_update (new_ema n) xs).
Proof.
  intros Hn. induction xs as [|x xs IH] using rev_ind.
  - split; cbn; try done. split; [by intros []|lia].
  - rewrite feed_snoc, length_app, Nat.add_comm. by apply ema_at_update.
Qed.

Lemma ema_ready n k s x : (1 <= n)%nat -> ema_at n k s -> is_Some (ema_update s x).2 <-> (n <= S k)%nat.
Proof. intros Hn H. apply (ea_v _ _ _ (ema_at_update n k s x Hn H)). Qed.

Record rsi_at (n k : nat) (s : RSI) : Prop := mkRsiAt
  { ra_n : rsi_n s = n; ra_prev : is_Some (rsi_prev s) <-> (0 < k)%nat;
    ra_count : rsi_avg s = None -> rsi_count s = (k - 1)%nat; ra_avg : is_Some (rsi_avg s) <-> (n < k)%nat }.

Lemma rsi_at_update n k s x : (1 <= n)%nat -> rsi_at n k s ->
  rsi_at n (S k) (rsi_update s x).1 /\ (is_Some (rsi_update s x).2 <-> (n < S k)%nat).
Proof.
  intros Hn [H1 H2 H3 H4]. assert (forall s', is_Some (rsi_value s') <-> is_Some (rsi_avg s')) as Hv.
  { intros s'. unfold rsi_value. destruct (rsi_avg s') as [[g l]|]; [|done]. destruct (feq l zero); split; by eexists. }
  unfold rsi_update. destruct (rsi_prev s) as [p|] eqn:Ep.
  2:{ assert (k = 0)%nat as ->. { destruct k; [done|]. assert (is_Some (@None float)) as [? ?] by (apply H2; lia). done. }
      split; [|cbn; split; [by intros []|lia]]. split; cbn; try done.
      - split; [lia|by eexists].
      - rewrite H4. lia. }
  assert (0 < k)%nat by (apply H2; by eexists). cbn zeta. destruct (rsi_avg s) as [[g l]|] eqn:Ea; cbn [fst snd].
  - assert (n < k)%nat by (apply H4; by eexists). rewrite Hv. split; [split|]; cbn; try done; split; try lia; by eexists.
  - assert (~ (n < k)%nat) as Hk. { intros Hk. apply H4 in Hk as [? ?]. done. }
    rewrite Hv, (H3 eq_refl), H1. destruct (Nat.ltb_spec (S (k - 1)) n); cbn [rsi_avg rsi_n rsi_prev rsi_count];
      (split; [split|]); cbn [rsi_avg rsi_n rsi_prev rsi_count]; try done; try lia; split; try lia; try (by eexists); by intros [].
Qed.

Lemma rsi_feed n xs : (1 <= n)%nat -> rsi_at n (length xs) (feed rsi_update (new_rsi n) xs).
Proof.
  intros Hn. induction xs as [|x xs IH] using rev_ind.
  - split; cbn; try done; split; try lia; by intros [].
  - rewrite feed_snoc, length_app, Nat.add_comm. by apply rsi_at_update.
Qed.

Record atr_at (n k : nat) (s : ATR) : Prop := mkAtrAt
  { aa_n : atr_n s = n; aa_count : atr_avg s = None -> atr_count s = k; aa_avg : is_Some (atr_avg s) <-> (n <= k)%nat }.

Definition atr_update3 (s : ATR) (b : float * float * float) : ATR * option float := atr_update s b.1.1 b.1.2 b.2.

Lemma atr_at_update n k s b : (1 <= n)%nat -> atr_at n k s -> atr_at n (S k) (atr_update3 s b).1.
Proof.
  intros Hn [H1 H2 H3]. unfold atr_update3, atr_update. cbn [fst]. destruct (atr_avg s) as [a|] eqn:E.
  - assert (n <= k)%nat by (apply H3; by eexists). split; cbn; try done. split; [lia|by eexists].
  - assert (~ (n <= k)%nat) as Hk. { intros Hk. apply H3 in Hk as [? ?]. done. }
    rewrite (H2 eq_refl), H1. destruct (Nat.ltb_spec (S k) n); split; cbn; try done;
      (split; [try (by intros []); lia|first [by eexists|lia]]).
Qed.

Lemma atr_feed n bs : (1 <= n)%nat -> atr_at n (length bs) (feed atr_update3 (new_atr n) bs).
Proof.
  intros Hn. induction bs as [|b bs IH] using rev_ind.
  - split; cbn; try done. split; [by intros []|lia].
  - rewrite feed_snoc, length_app, Nat.add_comm. by apply atr_at_update.
Qed.

(** The signal line has been fed once per input from the slow line's first value on. *)
Record macd_at (f l g k : nat) (s : MACD) : Prop := mkMacdAt
  { ma_f : ema_at f k (macd_fast s); ma_l : ema_at l k (macd_slow s); ma_g : ema_at g (S k - l) (macd_sig s) }.

Lemma macd_at_update f l g k s x : (1 <= f)%nat -> (f <= l)%nat -> (1 <= g)%nat -> macd_at f l g k s ->
  macd_at f l g (S k) (macd_update s x).1 /\ (is_Some (macd_update s x).2 <-> (l + g - 1 <= S k)%nat).
Proof.
  intros Hf Hl Hg [A B C]. unfold macd_update.
  pose proof (ema_at_update _ _ _ x Hf A) as A'. pose proof (ema_at_update l _ _ x ltac:(lia) B) as B'.
  pose proof (ema_ready _ _ _ x Hf A) as Ra. pose proof (ema_ready l _ _ x ltac:(lia) B) as Rb.
  destruct (ema_update (macd_fast s) x) as [f' fv]. destruct (ema_update (macd_slow s) x) as [l' lv]. cbn [fst snd] in *.
  destruct lv as [b|].
  2:{ assert (~ (l <= S k)%nat) as Hk. { intros Hk. apply Rb in Hk as [? ?]. done. }
      replace (match fv with Some _ | _ => (mkMACD f' l' (macd_sig s), None) end)
        with (mkMACD f' l' (macd_sig s), @None (float * float * float)) by by destruct fv.
      cbn [fst snd]. split; [|split; [by intros []|lia]]. split; cbn; try done.
      replace (S (S k) - l)%nat with (S k - l)%nat by lia. done. }
  assert (l <= S k)%nat as Hk by (apply Rb; by eexists).
  destruct fv as [a|]. 2:{ assert (is_Some (@None float)) as [? ?] by (apply Ra; lia). done. }
  pose proof (ema_at_update _ _ _ (fsub a b) Hg C) as C'. pose proof (ema_ready _ _ _ (fsub a b) Hg C) as Rc.
  destruct (ema_update (macd_sig s) (fsub a b)) as [g' gv]. cbn [fst snd] in *. split.
  - split; cbn; try done. replace (S (S k) - l)%nat with (S (S k - l)) by lia. done.
  - transitivity (is_Some gv); [destruct gv; split; try done; by eexists|]. rewrite Rc. lia.
Qed.

(** ** Crossings against their definition *)

Definition cross_pair (p : Crossover) (ab : float * float) : Crossover * Z := cross_update p ab.1 ab.2.

(** Which series is above, at the points where they differ. *)
Definition sides (xs : list (float * float)) : list bool :=
  omap (fun ab => if feq ab.1 ab.2 then None else Some (fgt ab.1 ab.2)) xs.

Fixpoint cross_outputs (p : Crossover) (xs : list (float * float)) : list Z :=
  match xs with [] => [] | ab :: xs => (cross_pair p ab).2 :: cross_outputs (cross_pair p ab).1 xs end.

Definition turn (up : bool) : Z := if up then 1 else -1.

Lemma sides_snoc xs ab : sides (xs ++ [ab]) = sides xs ++ (if feq ab.1 ab.2 then [] else [fgt ab.1 ab.2]).
Proof. unfold sides. rewrite omap_app. f_equal. cbn. by destruct (feq ab.1 ab.2). Qed.

Lemma cross_state xs : feed cross_pair None xs = last (sides xs).
Proof.
  induction xs as [|[a b] xs IH] using rev_ind; [done|]. rewrite feed_snoc, IH, sides_snoc.
  unfold cross_pair, cross_update. cbn [fst snd]. destruct (feq a b); cbn [fst]; [by rewrite app_nil_r|by rewrite last_snoc].
Qed.

(** The signs from here on, starting with [x]. *)
Fixpoint alternating (x : Z) (os : list Z) : Prop :=
  match os with [] => True | y :: os => y = x /\ alternating (- x) os end.

Lemma alternating_lookup os : forall x i y, alternating x os -> os !! i = Some y -> y = if Nat.even i then x else - x.
Proof.
  induction os as [|z os IH]; intros x i y H Hi; [done|]. destruct H as [-> H]. destruct i as [|i]; [by injection Hi|].
  cbn in Hi. rewrite (IH _ _ _ H Hi), Nat.even_succ, <- Nat.negb_even. destruct (Nat.even i); cbn; lia.
Qed.

Lemma cross_alternating xs : forall c, alternating (turn (negb c)) (filter (fun o => o <> 0) (cross_outputs (Some c) xs)).
Proof.
  induction xs as [|[a b] xs IH]; intros c; [done|]. cbn [cross_outputs]. unfold cross_pair, cross_update.
  cbn [fst snd]. destruct (feq a b); cbn [fst snd]; [rewrite filter_cons_False by lia; apply IH|].
  destruct (Bool.eqb c (fgt a b)) eqn:E.
  - apply eqb_prop in E as <-. rewrite filter_cons_False by lia. apply IH.
  - apply eqb_false_iff in E. destruct c, (fgt a b); try done; rewrite filter_cons_True by lia; (split; [done|]);
      [exact (IH false)|exact (IH true)].
Qed.

Lemma cross_alternates xs : exists x, (x = 1 \/ x = -1) /\ alternating x (filter (fun o => o <> 0) (cross_outputs None xs)).
Proof.
  induction xs as [|[a b] xs IH]; [exists 1; split; [by left|done]|]. cbn [cross_outputs]. unfold cross_pair, cross_update.
  cbn [fst snd]. destruct (feq a b); cbn [fst snd]; rewrite filter_cons_False by lia; [exact IH|].
  exists (turn (negb (fgt a b))). split; [by destruct (fgt a b); [right|left]|apply cross_alternating].
Qed.

Lemma bb_feed n k xs :
  feed bb_update (new_bb n k) xs = mkBB n k (feed sma_update (new_sma n) xs) (feed std_update (new_std n) xs).
Proof. induction xs as [|x xs IH] using rev_ind; [done|]. by rewrite !feed_snoc, IH. Qed.

Lemma std_update_value s x : (std_update s x).2 = std_value (std_update s x).1.
Proof. unfold std_update. by destruct (if full _ _ then _ else _). Qed.

Lemma bb_value_at n k xs x : value_at bb_update (new_bb n k) xs x =
  match value_at sma_update (new_sma n) xs x, value_at std_update (new_std n) xs x with
  | Some m, Some s => Some (m, fadd m (fmul k s), fsub m (fmul k s))
  | _, _ => None
  end.
Proof. unfold value_at. rewrite bb_feed, std_update_value. done. Qed.

Lemma macd_feed f l g xs : (1 <= f)%nat -> (f <= l)%nat -> (1 <= g)%nat ->
  macd_at f l g (length xs) (feed macd_update (new_macd f l g) xs).
Proof.
  intros Hf Hl Hg. induction xs as [|x xs IH] using rev_ind.
  - split; [by apply (ema_feed f [])|apply (ema_feed l []); lia|].
    replace (S (length (@nil float)) - l)%nat with 0%nat by (cbn; lia). by apply (ema_feed g []).
  - rewrite feed_snoc, length_app, Nat.add_comm. by apply macd_at_update.
Qed.

(** ** Properties *)

(** Each indicator gives its first value exactly at its warm-up length, and one with
    every input after that: the simple and exponential averages, the deviation, the bands
    and the true range at the [n]-th input, the relative strength at the [n+1]-th, MACD at
    the [slow + signal - 1]-th; and the simple average's and deviation's windows hold
    exactly the last inputs. *)
Theorem warmup_exact n fast slow signal k xs x bs b :
  (1 <= n)%nat -> (1 <= fast)%nat -> (fast <= slow)%nat -> (1 <= signal)%nat ->
  (is_Some (value_at sma_update (new_sma n) xs x) <-> (n <= S (length xs))%nat) /\
  (is_Some (value_at ema_update (new_ema n) xs x) <-> (n <= S (length xs))%nat) /\
  (is_Some (value_at rsi_update (new_rsi n) xs x) <-> (n < S (length xs))%nat) /\
  (is_Some (value_at std_update (new_std n) xs x) <-> (n <= S (length xs))%nat) /\
  (is_Some (value_at bb_update (new_bb n k) xs x) <-> (n <= S (length xs))%nat) /\
  (is_Some (value_at macd_update (new_macd fast slow signal) xs x) <-> (slow + signal - 1 <= S (length xs))%nat) /\
  (is_Some (value_at atr_update3 (new_atr n) bs b) <-> (n <= S (length bs))%nat) /\
  sma_q (feed sma_update (new_sma n) xs) = window n xs /\ std_q (feed std_update (new_std n) xs) = window n xs.
Proof.
  intros Hn Hf Hs Hg.
  assert (is_Some (value_at sma_update (new_sma n) xs x) <-> (n <= S (length xs))%nat) as Hsma.
  { unfold value_at. pose proof (sma_window n xs Hn) as Hw. revert Hw.
    generalize (feed sma_update (new_sma n) xs) as s. intros s [E1 E2].
    unfold sma_update, sma_value, sma_ready. cbn [snd sma_n sma_q]. rewrite E1, E2, window_push, window_full, length_app by done. cbn [length].
    destruct (Nat.leb_spec n (length xs + 1)); split; try lia; try (by eexists); by intros []. }
  assert (is_Some (value_at std_update (new_std n) xs x) <-> (n <= S (length xs))%nat) as Hstd.
  { unfold value_at. assert ((std_update (feed std_update (new_std n) xs) x).2
      = std_value (feed std_update (new_std n) (xs ++ [x]))) as ->.
    { rewrite feed_snoc. unfold std_update. destruct (if full _ _ then _ else _) as [? ?]. done. }
    unfold std_value. destruct (std_window n (xs ++ [x]) Hn) as [E1 E2]. rewrite E1, E2, window_full, length_app. cbn [length].
    destruct (Nat.leb_spec n (length xs + 1)); split; try lia; try (by eexists); by intros []. }
  split_and!; [done| | |done| | | |by apply sma_window|by apply std_window].
  - by apply ema_ready, ema_feed.
  - by apply rsi_at_update, rsi_feed.
  - rewrite bb_value_at. destruct (value_at sma_update (new_sma n) xs x) as [m|].
    + rewrite <- Hstd. destruct (value_at std_update (new_std n) xs x); [split; intros _; by eexists|split; by intros []].
    + rewrite <- Hsma. split; by intros [].
  - apply (macd_at_update fast slow signal _ _ x Hf Hs Hg (macd_feed fast slow signal xs Hf Hs Hg)).
  - pose proof (atr_at_update n _ _ b Hn (atr_feed n bs Hn)) as H. unfold value_at.
    assert (forall s, (atr_update3 s b).2 = atr_avg (atr_update3 s b).1) as -> by done. apply (aa_avg _ _ _ H).
Qed.

Lemma warmup_exact_witness :
  is_Some (value_at macd_update (new_macd 2 3 2) [of_int 1; of_int 2; of_int 3] (of_int 4)) <-> (4 <= 4)%nat.
Proof.
  exact (proj1 (proj2 (proj2 (proj2 (proj2 (proj2 (warmup_exact 1 2 3 2 zero [of_int 1; of_int 2; of_int 3] (of_int 4)
    [] (zero, zero, zero) (le_n 1) (le_S _ _ (le_n 1)) (le_S _ _ (le_n 2)) (le_S _ _ (le_n 1))))))))).
Defined.

(** A crossing is reported exactly when one series is strictly above and, the last
    time they differed, the other was: ties report nothing and change nothing; and over
    any series the reported crossings alternate between up and down. *)
Theorem crossover_spec xs a b :
  value_at cross_pair None xs (a, b)
  = (if feq a b then 0
     else match last (sides xs) with
          | Some p => if Bool.eqb p (fgt a b) then 0 else turn (fgt a b)
          | None => 0
          end) /\
  exists x, (x = 1 \/ x = -1) /\
    forall i y, filter (fun o => o <> 0) (cross_outputs None xs) !! i = Some y -> y = if Nat.even i then x else - x.
Proof.
  split.
  - unfold value_at. rewrite cross_state. unfold cross_pair, cross_update. cbn [fst snd].
    destruct (feq a b); [done|]. destruct (last (sides xs)); [|done]. cbn [snd]. by destruct (Bool.eqb _ _).
  - destruct (cross_alternates xs) as (x & Hx & H). exists x. split; [exact Hx|]. intros i y.
    by apply alternating_lookup.
Qed.
End Ind.
