(* ===== verification/Strategies.v ===== *)
(** * Strategies and the signal gate (src/src/mdfeed/strategies.py)

    A strategy is a state with [on_bar], which reads only the bar's close.  The
    class [Strategy] is that interface; the three strategies and the registry's
    sum of them are its instances. *)

From S2P Require Import Prelude PyStr PyFloat Indicators.

Module Strat.
Import Indicators.Ind.

Definition BUY : Z := 1.
Definition SELL : Z := -1.
Definition HOLD : Z := 0.

Class Strategy (S : Type) := on_bar : S -> float -> S * Z.

(** ** Moving-average cross *)

Record SMACross := mkSMACross { sc_fast : SMA; sc_slow : SMA; sc_cross : Crossover }.
Definition new_sma_cross (fast slow : nat) : SMACross := mkSMACross (new_sma fast) (new_sma slow) None.
#[export] Instance sma_cross_strategy : Strategy SMACross := fun s close =>
  let '(fa, f) := sma_update (sc_fast s) close in
  let '(sl, w) := sma_update (sc_slow s) close in
  match f, w with
  | Some f, Some w =>
      let '(cr, c) := cross_update (sc_cross s) f w in
      (mkSMACross fa sl cr, if 0 <? c then BUY else if c <? 0 then SELL else HOLD)
  | _, _ => (mkSMACross fa sl (sc_cross s), HOLD)
  end.

(** ** Relative-strength reversal *)

Record RSIRevert := mkRSIRevert { rr_low : float; rr_high : float; rr_rsi : RSI; rr_was_low : bool; rr_was_high : bool }.
Definition new_rsi_revert (n : nat) (low high : float) : RSIRevert := mkRSIRevert low high (new_rsi n) false false.
#[export] Instance rsi_revert_strategy : Strategy RSIRevert := fun s close =>
  let '(r, v) := rsi_update (rr_rsi s) close in
  match v with
  | None => (mkRSIRevert (rr_low s) (rr_high s) r (rr_was_low s) (rr_was_high s), HOLD)
  | Some v =>
      let sig := if rr_was_low s && fgt v (rr_low s) then BUY
                 else if rr_was_high s && flt v (rr_high s) then SELL else HOLD in
      (mkRSIRevert (rr_low s) (rr_high s) r (fle v (rr_low s)) (fle (rr_high s) v), sig)
  end.

(** ** Band breakout *)

Record BollingerBreak := mkBollingerBreak { bk_bb : Bollinger; bk_inside : bool }.
Definition new_bollinger_break (n : nat) (k : float) : BollingerBreak := mkBollingerBreak (new_bb n k) true.
#[export] Instance bollinger_break_strategy : Strategy BollingerBreak := fun s close =>
  let '(b, v) := bb_update (bk_bb s) close in
  match v with
  | None => (mkBollingerBreak b (bk_inside s), HOLD)
  | Some (_, up, lo) =>
      let sig := if bk_inside s && fgt close up then BUY
                 else if bk_inside s && flt close lo then SELL else HOLD in
      (mkBollingerBreak b (fle lo close && fle close up), sig)
  end.

(** ** The registry *)

Inductive AnyStrategy := Cross (s : SMACross) | Revert (s : RSIRevert) | Break (s : BollingerBreak).
#[export] Instance any_strategy : Strategy AnyStrategy := fun s close =>
  match s with
  | Cross s => let '(s, a) := on_bar s close in (Cross s, a)
  | Revert s => let '(s, a) := on_bar s close in (Revert s, a)
  | Break s => let '(s, a) := on_bar s close in (Break s, a)
  end.

Definition REGISTRY (name : pystr) : option AnyStrategy :=
  if bool_decide (name = lit "sma_cross") then Some (Cross (new_sma_cross 10 30))
  else if bool_decide (name = lit "rsi_revert") then Some (Revert (new_rsi_revert 14 (of_int 30) (of_int 70)))
  else if bool_decide (name = lit "bb_break") then Some (Break (new_bollinger_break 20 (of_int 2)))
  else None.

(** [build(names)]. *)
Definition build (names : list pystr) : list AnyStrategy := omap (fun n => REGISTRY (strip n)) names.

(** ** The gate *)

(** An int against a float, exactly as Python compares them. *)
Definition int_lt_float (z : Z) (f : float) : bool :=
  match f with
  | S754_nan => false
  | S754_infinity s => negb s
  | S754_zero _ => z <? 0
  | S754_finite s m e =>
      let m := cond_Zopp s (Zpos m) in if 0 <=? e then z <? m * 2 ^ e else z * 2 ^ (- e) <? m
  end.

Record SignalGate := mkGate { cooldown_s : float; suppressed : Z; g_last : gmap (pystr * pystr) Z }.
Definition new_gate (cooldown : float) : SignalGate := mkGate cooldown 0 ∅.

Definition allow (key strategy : pystr) (bar_ts_ns : Z) (g : SignalGate) : SignalGate * bool :=
  if fle (cooldown_s g) zero then (g, true)
  else
    match g_last g !! (key, strategy) with
    | Some prev =>
        if int_lt_float (bar_ts_ns - prev) (fmul (cooldown_s g) (of_int 1000000000))
        then (mkGate (cooldown_s g) (suppressed g + 1) (g_last g), false)
        else (mkGate (cooldown_s g) (suppressed g) (<[(key, strategy) := bar_ts_ns]> (g_last g)), true)
    | None => (mkGate (cooldown_s g) (suppressed g) (<[(key, strategy) := bar_ts_ns]> (g_last g)), true)
    end.

(** ** The gate, one strategy at a time *)

(** Whether a signal at [t] passes when the last one that passed was at [prev]. *)
Definition passes (cooldown : float) (prev : option Z) (t : Z) : bool :=
  fle cooldown zero ||
  match prev with Some p => negb (int_lt_float (t - p) (fmul cooldown (of_int 1000000000))) | None => true end.

Definition next_last (cooldown : float) (prev : option Z) (t : Z) : option Z :=
  if fle cooldown zero then prev else if passes cooldown prev t then Some t else prev.

Lemma allow_spec key strat t g :
  (allow key strat t g).2 = passes (cooldown_s g) (g_last g !! (key, strat)) t /\
  g_last (allow key strat t g).1 !! (key, strat) = next_last (cooldown_s g) (g_last g !! (key, strat)) t /\
  cooldown_s (allow key strat t g).1 = cooldown_s g /\
  (forall k, k <> (key, strat) -> g_last (allow key strat t g).1 !! k = g_last g !! k).
Proof.
  unfold allow, next_last, passes. destruct (fle (cooldown_s g) zero); cbn [orb]; [done|].
  destruct (g_last g !! (key, strat)) as [p|] eqn:E.
  - destruct (int_lt_float _ _); cbn [fst snd negb cooldown_s g_last]; [done|]. rewrite lookup_insert_eq. split_and!; try done.
    intros k Hk. by rewrite lookup_insert_ne.
  - cbn [fst snd cooldown_s g_last]. rewrite lookup_insert_eq. split_and!; try done.
    intros k Hk. by rewrite lookup_insert_ne.
Qed.

(** The calls in order, and which of them passed. *)
Fixpoint gate_run (g : SignalGate) (calls : list (pystr * pystr * Z)) : SignalGate * list bool :=
  match calls with
  | [] => (g, [])
  | (k, s, t) :: calls =>
      let '(g, b) := allow k s t g in let '(g, bs) := gate_run g calls in (g, b :: bs)
  end.

(** The times at which a strategy's signals passed. *)
Definition passed (k s : pystr) (calls : list (pystr * pystr * Z)) (bs : list bool) : list Z :=
  omap (fun cb => if cb.2 && bool_decide (cb.1.1 = (k, s)) then Some cb.1.2 else None) (zip calls bs).

(** Each time is at least the cooldown after the one before it. *)
Fixpoint spaced (cooldown : float) (prev : option Z) (ts : list Z) : Prop :=
  match ts with [] => True | t :: ts => passes cooldown prev t = true /\ spaced cooldown (Some t) ts end.

Lemma gate_run_spaced k s calls : forall g,
  fle (cooldown_s g) zero = false ->
  spaced (cooldown_s g) (g_last g !! (k, s)) (passed k s calls (gate_run g calls).2) /\
  suppressed (gate_run g calls).1 + Z.of_nat (length (List.filter (fun b => b) (gate_run g calls).2))
  = suppressed g + zlen calls.
Proof.
  induction calls as [|[[k' s'] t] calls IH]; intros g Hc; [cbn; split; [done|lia]|]. cbn [gate_run].
  pose proof (allow_spec k' s' t g) as (A1 & A2 & A3 & A4).
  assert (suppressed (allow k' s' t g).1 = suppressed g + (if (allow k' s' t g).2 then 0 else 1)) as Hs.
  { unfold allow. rewrite Hc. destruct (g_last g !! (k', s')); [destruct (int_lt_float _ _)|]; cbn; lia. }
  destruct (allow k' s' t g) as [g' b]. cbn [fst snd] in *. rewrite <- A3 in Hc. destruct (IH g' Hc) as [I1 I2].
  destruct (gate_run g' calls) as [g'' bs]. cbn [fst snd] in *. rewrite A3 in *. split.
  - unfold passed. cbn [zip zip_with omap list_omap fst snd]. fold (passed k s calls bs).
    case_bool_decide as E.
    + injection E as -> ->. destruct b; cbn [andb].
      * split; [done|]. rewrite A2 in I1. unfold next_last in I1. rewrite Hc, <- A1 in I1. exact I1.
      * rewrite A2 in I1. unfold next_last in I1. rewrite Hc, <- A1 in I1. exact I1.
    + rewrite andb_false_r. rewrite A4 in I1 by congruence. exact I1.
  - cbn [List.filter length]. destruct b; cbn [length]; lia.
Qed.

(** With a positive cooldown, over any calls for any keys and strategies, the signals
    of one key and strategy that pass are each at least the cooldown after the one before,
    in market time and compared exactly, the first always passes, and every other call is
    counted as suppressed. *)
Theorem gate_spacing k s cooldown calls :
  fle cooldown zero = false ->
  spaced cooldown None (passed k s calls (gate_run (new_gate cooldown) calls).2) /\
  suppressed (gate_run (new_gate cooldown) calls).1
    + Z.of_nat (length (List.filter (fun b => b) (gate_run (new_gate cooldown) calls).2)) = zlen calls.
Proof. intros Hc. exact (gate_run_spaced k s calls (new_gate cooldown) Hc). Qed.

Lemma gate_spacing_witness :
  let calls := [(lit "U:A", lit "x", 0); (lit "U:A", lit "x", 20000000000); (lit "U:A", lit "x", 31000000000)] in
  spaced (of_int 30) None (passed (lit "U:A") (lit "x") calls (gate_run (new_gate (of_int 30)) calls).2) /\
  passed (lit "U:A") (lit "x") calls (gate_run (new_gate (of_int 30)) calls).2 = [0; 31000000000].
Proof.
  intros calls. split; [|by vm_compute].
  exact (proj1 (gate_spacing (lit "U:A") (lit "x") (of_int 30) calls eq_refl)).
Defined.
End Strat.
