(* ===== verification/Engine.v ===== *)
(** * The live strategy engine (src/src/mdfeed/services/strategy.py)

    Trades are folded into one open bar per key; a bar that is closed goes to the
    key's strategies, and what they decide goes through the shared gate and out as
    numbered signals.  A handler runs between two awaits, so trades and sweeps are
    the engine's atomic steps. *)

From S2P Require Import Prelude PyStr PyFloat Dict Models Protocol Indicators Strategies.

Module Engine.
Import Models.Models Strategies.Strat.

Record Cfg := mkCfg { bar_interval_s : Z; strategies : list pystr; signal_cooldown_s : float }.

(** What [publish] is given for one signal, and the bar it was decided on.  The frame on
    the bus is [encode] of the number and the packed signal. *)
Record Emission := mkEmission { e_seq : Z; e_signal : Signal; e_bar_ts : Z }.

(** The part of the state the signals go through; [emitted] keeps all of them. *)
Record Out := mkOut { gate : SignalGate; seq : Z; emitted : list Emission }.

(** [closed] keeps every closed bar with its key; the code counts them. *)
Record Engine := mkEngine
  { bars : list (pystr * Bar); strats : gmap pystr (list (pystr * AnyStrategy)); out : Out;
    closed : list (pystr * Bar) }.

Definition new_engine (cfg : Cfg) : Engine := mkEngine [] ∅ (mkOut (new_gate (signal_cooldown_s cfg)) 0 []) [].

Definition bars_closed (e : Engine) : Z := zlen (closed e).
Definition signals_emitted (e : Engine) : Z := zlen (emitted (out e)).
(** [recent]: the last fifty. *)
Definition recent (e : Engine) : list Emission := let l := emitted (out e) in drop (length l - 50) l.

Definition set_bars (b : list (pystr * Bar)) (e : Engine) : Engine := mkEngine b (strats e) (out e) (closed e).

Definition key_for (venue symbol : pystr) : pystr := venue ++ lit ":" ++ symbol.
Definition bar_key (b : Bar) : pystr := key_for (br_venue b) (br_symbol b).

(** [{n: STRAT_REGISTRY[n]() for n in cfg.strategies if n in STRAT_REGISTRY}] *)
Definition fresh_strategies (cfg : Cfg) : list (pystr * AnyStrategy) :=
  foldl (fun d n => match REGISTRY n with Some s => dset n s d | None => d end) [] (strategies cfg).

Definition strategies_for (cfg : Cfg) (key : pystr) (e : Engine) : list (pystr * AnyStrategy) :=
  match strats e !! key with Some s => s | None => fresh_strategies cfg end.

Section engine.
Variable cfg : Cfg.
(** [now_ns()] when the signal with this number is made. *)
Variable now_ns : Z -> Z.

Definition emit (bar : Bar) (strategy : pystr) (action : Z) (o : Out) : Out :=
  let sig := mkSignal (br_venue bar) (br_symbol bar) (now_ns (seq o)) strategy action (of_int 1) (close bar) in
  mkOut (gate o) (seq o + 1) (emitted o ++ [mkEmission (seq o) sig (bucket_ns bar)]).

(** What follows a strategy's decision. *)
Definition act (key : pystr) (bar : Bar) (name : pystr) (action : Z) (o : Out) : Out :=
  if action =? HOLD then o
  else
    let '(g, ok) := allow key name (bucket_ns bar) (gate o) in
    let o := mkOut g (seq o) (emitted o) in
    if ok then emit bar name action o else o.

(** The loop over a key's strategies, which update themselves in place. *)
Fixpoint judge (key : pystr) (bar : Bar) (ss : list (pystr * AnyStrategy)) (o : Out)
    : list (pystr * AnyStrategy) * Out :=
  match ss with
  | [] => ([], o)
  | (name, s) :: ss =>
      let '(s, action) := on_bar s (close bar) in
      let '(ss, o) := judge key bar ss (act key bar name action o) in
      ((name, s) :: ss, o)
  end.

Definition close_bar (key : pystr) (bar : Bar) (e : Engine) : Engine :=
  let '(ss, o) := judge key bar (strategies_for cfg key e) (out e) in
  mkEngine (bars e) (<[key := ss]> (strats e)) o (closed e ++ [(key, bar)]).

Definition iv_ns : Z := bar_interval_s cfg * 1000000000.
Definition bucket_of (ts : Z) : Z := ts / iv_ns * iv_ns.

Definition on_trade (t : Trade) (e : Engine) : Engine :=
  let key := key_for (venue t) (symbol t) in
  let bucket := bucket_of (ts_event_ns t) in
  let '(e, bar) := match dget key (bars e) with
    | Some bar => if bucket_ns bar =? bucket then (e, Some bar) else (close_bar key bar e, None)
    | None => (e, None)
    end in
  let bar := match bar with Some b => b | None => new_bar (venue t) (symbol t) bucket (bar_interval_s cfg) end in
  set_bars (dset key (update bar t) (bars e)) e.

(** The trade a frame of the bus or of a recording carries. *)
Definition trade_of_frame (f : Protocol.Frame) : option Trade :=
  if (Protocol.msg_type f =? MSG_TRADE) && (TRADE_SIZE <=? length (Protocol.payload f))%nat then
    match unpack (Protocol.payload f) with Ok t => Some t | Err _ => None end
  else None.
Definition on_frame (f : Protocol.Frame) (e : Engine) : Engine :=
  match trade_of_frame f with Some t => on_trade t e | None => e end.

(** One turn of the sweeper at wall-clock time [now]. *)
Definition sweep_one (cur : Z) (e : Engine) (kb : pystr * Bar) : Engine :=
  if bucket_ns kb.2 <? cur then let e := close_bar kb.1 kb.2 e in set_bars (ddel kb.1 (bars e)) e else e.
Definition sweep (now : Z) (e : Engine) : Engine := foldl (sweep_one (bucket_of now)) e (bars e).

Inductive Event := OnTrade (t : Trade) | Sweep (now : Z).
Definition step (e : Engine) (ev : Event) : Engine :=
  match ev with OnTrade t => on_trade t e | Sweep now => sweep now e end.
Definition run (evs : list Event) : Engine := foldl step (new_engine cfg) evs.
End engine.

(** ** One strategy of one key: the specification *)

(** The strategy and the market time of its last signal. *)
Definition Chan : Type := AnyStrategy * option Z.

(** What the gate makes of a decision. *)
Definition gated (cooldown : float) (last : option Z) (ts action : Z) : option Z * Z :=
  if action =? HOLD then (last, HOLD)
  else (next_last cooldown last ts, if passes cooldown last ts then action else HOLD).

(** A bar as the strategies see it: its bucket and its close. *)
Definition chan_step (cooldown : float) (c : Chan) (b : Z * float) : Chan * Z :=
  let '(s, a) := on_bar c.1 b.2 in
  let '(l, a) := gated cooldown c.2 b.1 a in
  ((s, l), a).

Definition chan_run (cooldown : float) (c : Chan) (bs : list (Z * float)) : Chan :=
  foldl (fun c b => (chan_step cooldown c b).1) c bs.

(** The decisions that pass, with the bar they were made on. *)
Fixpoint decisions (cooldown : float) (c : Chan) (bs : list (Z * float)) : list (Z * Z) :=
  match bs with
  | [] => []
  | b :: bs =>
      let '(c, a) := chan_step cooldown c b in
      (if a =? HOLD then [] else [(b.1, a)]) ++ decisions cooldown c bs
  end.

Lemma chan_run_snoc cd c bs b : chan_run cd c (bs ++ [b]) = (chan_step cd (chan_run cd c bs) b).1.
Proof. unfold chan_run. by rewrite foldl_app. Qed.

Lemma decisions_snoc cd bs b : forall c, decisions cd c (bs ++ [b])
  = decisions cd c bs ++ (let a := (chan_step cd (chan_run cd c bs) b).2 in if a =? HOLD then [] else [(b.1, a)]).
Proof.
  induction bs as [|b' bs IH]; intros c; cbn [app decisions].
  - unfold chan_run. cbn [foldl]. by destruct (chan_step cd c b) as [c' a]; cbn [snd decisions]; rewrite app_nil_r.
  - change (chan_run cd c (b' :: bs)) with (chan_run cd (chan_step cd c b').1 bs).
    destruct (chan_step cd c b') as [c' a]. cbn [fst]. by rewrite IH, app_assoc.
Qed.

(** ** Projections of the engine's state *)

(** The signals of one key and strategy among the emitted ones. *)
Definition mine (k n : pystr) (l : list Emission) : list (Z * Z) :=
  omap (fun m => let s := e_signal m in
    if bool_decide (key_for (sg_venue s) (sg_symbol s) = k) && bool_decide (strategy s = n)
    then Some (e_bar_ts m, action s) else None) l.

Definition seen (b : Bar) : Z * float := (bucket_ns b, close b).
(** The bars of one key among the closed ones. *)
Definition closed_of (k : pystr) (l : list (pystr * Bar)) : list Bar :=
  omap (fun kb => if bool_decide (kb.1 = k) then Some kb.2 else None) l.

Lemma mine_app k n l l' : mine k n (l ++ l') = mine k n l ++ mine k n l'.
Proof. apply omap_app. Qed.
Lemma closed_of_app k l l' : closed_of k (l ++ l') = closed_of k l ++ closed_of k l'.
Proof. apply omap_app. Qed.

Lemma closed_of_one k k' b : closed_of k [(k', b)] = if bool_decide (k' = k) then [b] else [].
Proof. unfold closed_of. cbn. by case_bool_decide. Qed.

Section proofs.
Variable cfg : Cfg.
Variable now_ns : Z -> Z.
Abbreviation cd := (signal_cooldown_s cfg).

(** What the output keeps for one key and strategy. *)
Definition chan_out (k n : pystr) (o : Out) (l : option Z) (ds : list (Z * Z)) : Prop :=
  g_last (gate o) !! (k, n) = l /\ mine k n (emitted o) = ds.

(** Numbers are consecutive, and the gate's setting is the configured one. *)
Definition out_ok (o : Out) : Prop :=
  cooldown_s (gate o) = cd /\ seq o = zlen (emitted o) /\
  forall i m, emitted o !! i = Some m -> e_seq m = Z.of_nat i.

Lemma emit_ok bar name a o : out_ok o -> out_ok (emit now_ns bar name a o).
Proof.
  intros (H1 & H2 & H3). split; [done|]. cbn [emit seq emitted]. rewrite length_app, H2. cbn [length].
  split; [lia|]. intros i m. rewrite lookup_app_Some, list_lookup_singleton_Some.
  intros [?|(? & ? & <-)]; [by apply H3|]. cbn [e_seq]. lia.
Qed.

Lemma act_ok key bar name a o : out_ok o -> out_ok (act now_ns key bar name a o).
Proof.
  intros H. unfold act. destruct (a =? HOLD); [done|]. destruct (allow _ _ _ _) as [g ok] eqn:E.
  assert (out_ok (mkOut g (seq o) (emitted o))) as Ho.
  { destruct H as (H1 & H2 & H3). split; [|done]. cbn [gate].
    pose proof (allow_spec key name (bucket_ns bar) (gate o)) as (_ & _ & A & _). rewrite E in A. cbn [fst] in A. congruence. }
  destruct ok; [by apply emit_ok|done].
Qed.

Lemma mine_one k n m : mine k n [m] =
  if bool_decide (key_for (sg_venue (e_signal m)) (sg_symbol (e_signal m)) = k) && bool_decide (strategy (e_signal m) = n)
  then [(e_bar_ts m, action (e_signal m))] else [].
Proof. unfold mine. cbn. by destruct (_ && _). Qed.

(** A decision moves its own channel as [gated] says and no other. *)
Lemma act_chan key bar name a o l ds :
  bar_key bar = key -> out_ok o -> chan_out key name o l ds ->
  let r := gated cd l (bucket_ns bar) a in
  chan_out key name (act now_ns key bar name a o) r.1
    (ds ++ (if r.2 =? HOLD then [] else [(bucket_ns bar, r.2)])).
Proof.
  intros Hk (Hc & _) [H1 H2]. unfold act, gated. cbn zeta. destruct (a =? HOLD) eqn:Ea.
  - cbn [fst snd]. rewrite app_nil_r. done.
  - pose proof (allow_spec key name (bucket_ns bar) (gate o)) as (A1 & A2 & A3 & _).
    rewrite Hc, H1 in *. destruct (allow _ _ _ _) as [g ok]. cbn [fst snd] in *. rewrite A1.
    destruct (passes cd l (bucket_ns bar)); split; cbn [emit gate emitted]; try done.
    + rewrite mine_app, H2, Ea, mine_one. cbn [e_signal sg_venue sg_symbol strategy e_bar_ts action].
      unfold bar_key in Hk. by rewrite !bool_decide_true by done.
    + by rewrite app_nil_r.
Qed.

Lemma act_other key bar name a o k n l ds :
  bar_key bar = key -> (k, n) <> (key, name) -> chan_out k n o l ds -> chan_out k n (act now_ns key bar name a o) l ds.
Proof.
  intros Hk Hne [H1 H2]. unfold act. destruct (a =? HOLD); [done|].
  pose proof (allow_spec key name (bucket_ns bar) (gate o)) as (_ & _ & _ & A). destruct (allow _ _ _ _) as [g ok].
  cbn [fst] in A. specialize (A _ Hne). destruct ok; split; cbn [emit gate emitted]; try congruence.
  rewrite mine_app, H2, mine_one. cbn [e_signal sg_venue sg_symbol strategy]. unfold bar_key in Hk. rewrite Hk.
  rewrite (proj2 (andb_false_iff _ _)); [apply app_nil_r|].
  destruct (decide (key = k)) as [->|]; [right|left]; apply bool_decide_eq_false; congruence.
Qed.

Lemma judge_ok key bar ss : forall o, out_ok o -> out_ok (judge now_ns key bar ss o).2.
Proof.
  induction ss as [|[n s] ss IH]; intros o Ho; [done|]. cbn [judge]. destruct (on_bar s (close bar)) as [s' a].
  specialize (IH _ (act_ok key bar n a o Ho)). by destruct (judge _ _ _ _ _).
Qed.

Lemma judge_names key bar ss : forall o, (judge now_ns key bar ss o).1.*1 = ss.*1.
Proof.
  induction ss as [|[n s] ss IH]; intros o; [done|]. cbn [judge]. destruct (on_bar s (close bar)) as [s' a].
  specialize (IH (act now_ns key bar n a o)). destruct (judge _ _ _ _ _). cbn in *. by rewrite IH.
Qed.

Lemma judge_other key bar ss k n l ds : forall o,
  bar_key bar = key -> (k <> key \/ n ∉ ss.*1) -> chan_out k n o l ds -> chan_out k n (judge now_ns key bar ss o).2 l ds.
Proof.
  induction ss as [|[n' s] ss IH]; intros o Hk Hne Ho; [done|]. cbn [judge].
  destruct (on_bar s (close bar)) as [s' a]. cbn in Hne. rewrite not_elem_of_cons in Hne.
  specialize (IH (act now_ns key bar n' a o) Hk ltac:(naive_solver)).
  destruct (judge _ _ _ _ _). cbn [snd] in *. apply IH, act_other; [done|naive_solver|done].
Qed.

(** A strategy of the key takes one step of its specification. *)
Lemma judge_chan key bar ss n s l ds : forall o,
  bar_key bar = key -> dict_ok ss -> out_ok o -> dget n ss = Some s -> chan_out key n o l ds ->
  let r := chan_step cd (s, l) (seen bar) in
  dget n (judge now_ns key bar ss o).1 = Some r.1.1 /\
  chan_out key n (judge now_ns key bar ss o).2 r.1.2 (ds ++ (if r.2 =? HOLD then [] else [(bucket_ns bar, r.2)])).
Proof.
  induction ss as [|[n' s'] ss IH]; intros o Hk Hd Hok Hs Ho; [done|].
  apply NoDup_cons in Hd as [Hn Hss]. cbn [judge dget] in *.
  unfold chan_step, seen in *. cbn [fst snd] in *. case_bool_decide as E.
  - injection Hs as ->. subst n'. destruct (on_bar s (close bar)) as [s1 a].
    pose proof (act_chan key bar n a o l ds Hk Hok Ho) as Ha.
    destruct (gated cd l (bucket_ns bar) a) as [l' a']. cbn [fst snd] in *.
    pose proof (judge_other key bar ss key n _ _ _ Hk (or_intror Hn) Ha) as Hj.
    destruct (judge _ _ _ _ _) as [ss' o']. cbn [fst snd dget] in *. by rewrite bool_decide_true.
  - destruct (on_bar s' (close bar)) as [s1 a].
    pose proof (act_other key bar n' a o key n l ds Hk ltac:(congruence) Ho) as Ha.
    specialize (IH _ Hk Hss (act_ok key bar n' a o Hok) Hs Ha). cbn zeta in IH.
    destruct (judge _ _ _ _ _) as [ss' o']. cbn [fst snd dget] in *. by rewrite bool_decide_false.
Qed.

(** ** The invariant *)

Definition bars_ok (d : list (pystr * Bar)) : Prop := dict_ok d /\ forall k b, dget k d = Some b -> bar_key b = k.

(** A key's strategy has taken exactly the closed bars of the key, from its start. *)
Definition chan_ok (e : Engine) (k n : pystr) : Prop :=
  match dget n (fresh_strategies cfg) with
  | Some s0 =>
      let bs := seen <$> closed_of k (closed e) in
      let c := chan_run cd (s0, None) bs in
      dget n (strategies_for cfg k e) = Some c.1 /\ chan_out k n (out e) c.2 (decisions cd (s0, None) bs)
  | None => dget n (strategies_for cfg k e) = None /\ chan_out k n (out e) None []
  end.

Record engine_ok (e : Engine) : Prop := mkEngineOk
  { eo_bars : bars_ok (bars e);
    eo_strats : forall k, dict_ok (strategies_for cfg k e);
    eo_out : out_ok (out e);
    eo_chan : forall k n, chan_ok e k n }.

Lemma fresh_dict_ok : dict_ok (fresh_strategies cfg).
Proof.
  unfold fresh_strategies. assert (dict_ok (@nil (pystr * AnyStrategy))) as H by apply dict_ok_nil. revert H.
  generalize (@nil (pystr * AnyStrategy)). induction (strategies cfg) as [|n ns IH]; intros d Hd; [done|].
  cbn. apply IH. destruct (REGISTRY n); [by apply dset_ok|done].
Qed.

Lemma new_engine_ok : engine_ok (new_engine cfg).
Proof.
  split.
  - split; [apply dict_ok_nil|done].
  - intros k. unfold strategies_for. cbn [new_engine strats]. rewrite lookup_empty. apply fresh_dict_ok.
  - split; [done|]. split; [done|]. intros i m. cbn. by rewrite lookup_nil.
  - intros k n. unfold chan_ok, strategies_for. cbn [new_engine strats]. rewrite lookup_empty.
    by destruct (dget n (fresh_strategies cfg)).
Qed.

Lemma close_bar_bars key b e : bars (close_bar cfg now_ns key b e) = bars e.
Proof. unfold close_bar. by destruct (judge _ _ _ _ _). Qed.
Lemma close_bar_closed key b e : closed (close_bar cfg now_ns key b e) = closed e ++ [(key, b)].
Proof. unfold close_bar. by destruct (judge _ _ _ _ _). Qed.

Lemma strategies_for_insert k key ss b st o c : strategies_for cfg k (mkEngine b (<[key := ss]> st) o c)
  = if decide (k = key) then ss else strategies_for cfg k (mkEngine b st o c).
Proof.
  unfold strategies_for. cbn [strats]. destruct (decide (k = key)) as [->|]; [by rewrite lookup_insert_eq|].
  by rewrite lookup_insert_ne.
Qed.

Lemma close_bar_ok key bar e : bar_key bar = key -> engine_ok e -> engine_ok (close_bar cfg now_ns key bar e).
Proof.
  intros Hk [A B C D]. pose proof (judge_ok key bar (strategies_for cfg key e) _ C) as Ho.
  pose proof (judge_names key bar (strategies_for cfg key e) (out e)) as Hn.
  split; [by rewrite close_bar_bars| | |].
  - intros k. unfold close_bar. destruct (judge _ _ _ _ _) as [ss o]. cbn [fst] in *.
    rewrite strategies_for_insert. destruct (decide (k = key)) as [->|]; [|apply B].
    unfold dict_ok. rewrite Hn. apply B.
  - unfold close_bar. by destruct (judge _ _ _ _ _).
  - intros k n. specialize (D k n). unfold chan_ok in *. rewrite close_bar_closed, closed_of_app, closed_of_one.
    pose proof (judge_other key bar (strategies_for cfg key e) k n) as Hoth.
    pose proof (fun s l ds => judge_chan key bar (strategies_for cfg key e) n s l ds (out e) Hk (B key) C) as Hch.
    unfold close_bar. destruct (judge _ _ _ _ _) as [ss o] eqn:Ej. cbn [out fst snd] in *.
    rewrite strategies_for_insert. destruct (decide (k = key)) as [->|Hne].
    + rewrite bool_decide_true by done. destruct (dget n (fresh_strategies cfg)) as [s0|].
      * destruct D as [D1 D2]. rewrite fmap_app. cbn [fmap list_fmap]. rewrite chan_run_snoc, decisions_snoc.
        destruct (Hch _ _ _ D1 D2) as [G1 G2]. rewrite <- surjective_pairing in G1, G2. by split.
      * destruct D as [D1 D2]. split.
        -- apply dget_None. apply dget_None in D1. by rewrite Hn.
        -- specialize (Hoth None [] (out e) Hk). rewrite Ej in Hoth. apply Hoth; [|done]. right. by apply dget_None.
    + rewrite bool_decide_false, app_nil_r by congruence.
      destruct (dget n (fresh_strategies cfg)) as [s0|]; destruct D as [D1 D2]; (split; [done|]).
      * specialize (Hoth (chan_run cd (s0, None) (seen <$> closed_of k (closed e))).2 _ (out e) Hk (or_introl Hne) D2).
        by rewrite Ej in Hoth.
      * specialize (Hoth None [] (out e) Hk (or_introl Hne) D2). by rewrite Ej in Hoth.
Qed.

Lemma set_bars_ok d e : bars_ok d -> engine_ok e -> engine_ok (set_bars d e).
Proof. intros Hd [A B C D]. by split. Qed.

Lemma bars_ok_dset k b d : bars_ok d -> bar_key b = k -> bars_ok (dset k b d).
Proof.
  intros [H1 H2] Hb. split; [by apply dset_ok|]. intros k' b'. destruct (decide (k' = k)) as [->|].
  - rewrite dget_dset_eq. by intros [= <-].
  - rewrite dget_dset_ne by done. apply H2.
Qed.

Lemma bars_ok_ddel k d : bars_ok d -> bars_ok (ddel k d).
Proof.
  intros [H1 H2]. split; [by apply ddel_ok|]. intros k' b'. destruct (decide (k' = k)) as [->|].
  - by rewrite dget_ddel_eq.
  - rewrite dget_ddel_ne by done. apply H2.
Qed.

Lemma update_key b t : bar_key (update b t) = bar_key b.
Proof. done. Qed.

Lemma on_trade_ok t e : engine_ok e -> engine_ok (on_trade cfg now_ns t e).
Proof.
  intros H. unfold on_trade. pose proof (eo_bars _ H) as Hb. destruct (dget _ (bars e)) as [b|] eqn:E.
  - pose proof (proj2 Hb _ _ E) as Hk. destruct (_ =? _).
    + apply set_bars_ok; [|done]. by apply bars_ok_dset.
    + apply set_bars_ok; [|by apply close_bar_ok]. rewrite close_bar_bars. by apply bars_ok_dset.
  - apply set_bars_ok; [|done]. by apply bars_ok_dset.
Qed.

Lemma sweep_one_ok cur e kb : bar_key kb.2 = kb.1 -> engine_ok e -> engine_ok (sweep_one cfg now_ns cur e kb).
Proof.
  intros Hk H. unfold sweep_one. destruct (_ <? _); [|done]. cbn zeta. apply set_bars_ok; [|by apply close_bar_ok].
  rewrite close_bar_bars. apply bars_ok_ddel, H.
Qed.

Lemma sweep_ok now e : engine_ok e -> engine_ok (sweep cfg now_ns now e).
Proof.
  intros H. unfold sweep. assert (forall kb, kb ∈ bars e -> bar_key kb.2 = kb.1) as Hks.
  { intros [k b] Hin. apply (proj2 (eo_bars _ H)). destruct (eo_bars _ H) as [Hd _]. by apply dget_intro. }
  revert Hks H. generalize (bars e) as kbs. intros kbs. revert e.
  induction kbs as [|kb kbs IH]; intros e Hks H; [done|]. cbn [foldl].
  apply IH; [intros kb' ?; apply Hks; by apply list_elem_of_further|].
  apply sweep_one_ok; [apply Hks, list_elem_of_here|done].
Qed.

Lemma run_ok evs : engine_ok (run cfg now_ns evs).
Proof.
  unfold run. assert (forall e, engine_ok e -> engine_ok (foldl (step cfg now_ns) e evs)) as G; [|apply G, new_engine_ok].
  induction evs as [|ev evs IH]; intros e He; [done|]. cbn. apply IH.
  destruct ev; [by apply on_trade_ok|by apply sweep_ok].
Qed.

(** ** One key's bars *)

(** What a step closes of the key, and the key's open bar. *)
Definition of_key (k : pystr) (e : Engine) : list Bar * option Bar := (closed_of k (closed e), dget k (bars e)).

Lemma on_trade_key t k e : key_for (venue t) (symbol t) = k ->
  of_key k (on_trade cfg now_ns t e) =
  let fresh := update (new_bar (venue t) (symbol t) (bucket_of cfg (ts_event_ns t)) (bar_interval_s cfg)) t in
  match (of_key k e).2 with
  | Some b => if bucket_ns b =? bucket_of cfg (ts_event_ns t) then ((of_key k e).1, Some (update b t))
              else ((of_key k e).1 ++ [b], Some fresh)
  | None => ((of_key k e).1, Some fresh)
  end.
Proof.
  intros Hk. unfold on_trade, of_key. cbn [snd fst]. rewrite Hk. destruct (dget k (bars e)) as [b|] eqn:E.
  - destruct (_ =? _); cbn [set_bars bars closed]; rewrite ?dget_dset_eq; [done|].
    rewrite close_bar_closed, closed_of_app, closed_of_one, bool_decide_true by done. done.
  - cbn [set_bars bars closed]. by rewrite dget_dset_eq.
Qed.

Lemma on_trade_other t k e : key_for (venue t) (symbol t) <> k -> of_key k (on_trade cfg now_ns t e) = of_key k e.
Proof.
  intros Hk. unfold on_trade, of_key. destruct (dget (key_for _ _) (bars e)) as [b|] eqn:E; [destruct (_ =? _)|];
    cbn [set_bars bars closed]; rewrite dget_dset_ne by congruence; rewrite ?close_bar_bars, ?close_bar_closed; try done.
  by rewrite closed_of_app, closed_of_one, bool_decide_false, app_nil_r.
Qed.

Lemma sweep_one_key cur k b e : dict_ok (bars e) -> of_key k (sweep_one cfg now_ns cur e (k, b)) =
  if bucket_ns b <? cur then ((of_key k e).1 ++ [b], None) else of_key k e.
Proof.
  intros Hd. unfold sweep_one, of_key. cbn [fst snd]. destruct (_ <? _); [|done]. cbn zeta. cbn [set_bars bars closed].
  by rewrite close_bar_closed, close_bar_bars, closed_of_app, closed_of_one, bool_decide_true, dget_ddel_eq by done.
Qed.

Lemma sweep_one_other cur k kb e : kb.1 <> k -> of_key k (sweep_one cfg now_ns cur e kb) = of_key k e.
Proof.
  intros Hk. unfold sweep_one, of_key. destruct (_ <? _); [|done]. cbn zeta. cbn [set_bars bars closed].
  rewrite close_bar_closed, close_bar_bars, closed_of_app, closed_of_one, bool_decide_false, app_nil_r by done.
  by rewrite dget_ddel_ne by congruence.
Qed.

Lemma sweep_one_dict cur kb e : dict_ok (bars e) -> dict_ok (bars (sweep_one cfg now_ns cur e kb)).
Proof.
  intros Hd. unfold sweep_one. destruct (_ <? _); [|done]. cbn zeta. cbn [set_bars bars]. rewrite close_bar_bars.
  by apply ddel_ok.
Qed.

Lemma sweep_skip cur k kbs : forall e, k ∉ kbs.*1 -> of_key k (foldl (sweep_one cfg now_ns cur) e kbs) = of_key k e.
Proof.
  induction kbs as [|kb kbs IH]; intros e Hk; [done|]. cbn [foldl]. cbn in Hk. apply not_elem_of_cons in Hk as [H1 H2].
  rewrite IH by done. by apply sweep_one_other.
Qed.

Lemma sweep_key now k e : dict_ok (bars e) -> of_key k (sweep cfg now_ns now e) =
  match (of_key k e).2 with
  | Some b => if bucket_ns b <? bucket_of cfg now then ((of_key k e).1 ++ [b], None) else of_key k e
  | None => of_key k e
  end.
Proof.
  intros Hd. unfold sweep. change (of_key k e).2 with (dget k (bars e)).
  assert (forall kbs e0, dict_ok kbs -> dict_ok (bars e0) ->
    of_key k (foldl (sweep_one cfg now_ns (bucket_of cfg now)) e0 kbs) =
    match dget k kbs with
    | Some b => if bucket_ns b <? bucket_of cfg now then ((of_key k e0).1 ++ [b], None) else of_key k e0
    | None => of_key k e0
    end) as G; [|by apply G].
  induction kbs as [|[k' b] kbs IH]; intros e0 Hk He0; [done|]. apply NoDup_cons in Hk as [Hk1 Hk2]. cbn [foldl dget].
  case_bool_decide as E.
  - subst k'. rewrite sweep_skip by done. by apply sweep_one_key.
  - rewrite IH; [|done|by apply sweep_one_dict]. by rewrite sweep_one_other.
Qed.
End proofs.
End Engine.
