(* ===== verification/Backtest.v ===== *)
(** * The backtest runner (src/quant/backtest.py) and its agreement with the live engine

    [run] feeds past bars to the very strategies and gate the engine uses, filling a
    decision at the next bar's open; [load_bars_from_replay] rebuilds the bars from a
    recording.  The strategies' keyword parameters are left at their defaults. *)

From S2P Require Import Prelude PyStr PyFloat Dict Models Protocol Indicators Strategies Engine.

Module Backtest.
Import Models.Models Indicators.Ind Strategies.Strat Engine.Engine.

(** [0.0005] and [5.0]. *)
Definition FEE_RATE : float := int_div 5 10000.
Definition SLIPPAGE_BP : float := of_int 5.

Definition EQUITY_VENUES : list pystr := [lit "KIS"; lit "KRX"].

(** [str.upper] of one character, as far as it can decide whether the result is one of
    the venues above: outside ASCII only the dotless i and the long s have an upper case
    made of their letters. *)
Definition upper_char (c : Z) : Z :=
  if (0x61 <=? c) && (c <=? 0x7A) then c - 32 else if c =? 0x131 then 0x49 else if c =? 0x17F then 0x53 else c.

Definition lot_size_for (symbol : pystr) : float :=
  let v := if bool_decide (58 ∈ symbol) then before_char 58 symbol else [] in
  let v := upper_char <$> v in
  if bool_decide (v ∈ EQUITY_VENUES) then of_int 1 else zero.

Record BarRow := mkRow
  { r_bucket : Z; r_open : float; r_high : float; r_low : float; r_close : float; r_volume : float; r_ticks : Z }.

Inductive FillSide := Buy | Sell.
#[export] Instance fill_side_eq_dec : EqDecision FillSide.
Proof. solve_decision. Defined.
Record Fill := mkFill { f_ts : Z; f_side : FillSide; f_price : float; f_qty : float; f_fee : float; f_equity : float }.

Record Params := mkParams { fee : float; slippage_bp : float; lot : float; cash_fraction : float }.
Definition slip (p : Params) : float := fdiv (slippage_bp p) (of_int 10000).

Inductive BacktestError := ZeroDivision | FloorOfInf | FloorOfNan | UnknownStrategy (name : pystr) | NoBars.

(** [math.floor(x)]. *)
Definition floor (x : float) : result BacktestError Z :=
  match x with
  | S754_nan => Err FloorOfNan
  | S754_infinity _ => Err FloorOfInf
  | S754_zero _ => Ok 0
  | S754_finite s m e => let v := cond_Zopp s (Zpos m) in Ok (if 0 <=? e then v * 2 ^ e else v / 2 ^ (- e))
  end.

Definition fdiv_checked (a b : float) : result BacktestError float :=
  if feq b zero then Err ZeroDivision else Ok (fdiv a b).

Record State := mkState
  { cash : float; position : float; pending : Z; strat : AnyStrategy; bgate : SignalGate;
    fills : list Fill; equity_curve : list (Z * float) }.

(** The size of a purchase at price [px]. *)
Definition buy_qty (p : Params) (cash px : float) : result BacktestError float :=
  let! q := fdiv_checked (fmul cash (cash_fraction p)) (fmul px (fadd (of_int 1) (fee p))) in
  if fgt (lot p) zero then let! n := floor (fdiv q (lot p)) in Ok (fmul (of_int n) (lot p)) else Ok q.

Definition mark_equity (bar : BarRow) (s : State) : State :=
  mkState (cash s) (position s) (pending s) (strat s) (bgate s) (fills s)
    (equity_curve s ++ [(r_bucket bar, fadd (cash s) (fmul (position s) (r_close bar)))]).

Definition sell_all (px : float) (ts : Z) (p : Params) (s : State) : State :=
  let proceeds := fmul (position s) px in
  let f := fmul proceeds (fee p) in
  let cash := fadd (cash s) (fsub proceeds f) in
  mkState cash zero (pending s) (strat s) (bgate s) (fills s ++ [mkFill ts Sell px (position s) f cash]) (equity_curve s).

(** The pending decision is filled at the bar's open; false when the bar is then skipped. *)
Definition fill_pending (p : Params) (bar : BarRow) (s : State) : result BacktestError (State * bool) :=
  if (pending s =? BUY) && feq (position s) zero then
    let px := fmul (r_open bar) (fadd (of_int 1) (slip p)) in
    let! qty := buy_qty p (cash s) px in
    if fle qty zero then
      Ok (mark_equity bar (mkState (cash s) (position s) HOLD (strat s) (bgate s) (fills s) (equity_curve s)), false)
    else
      let cost := fmul qty px in
      let f := fmul cost (fee p) in
      let cash := fsub (cash s) (fadd cost f) in
      Ok (mkState cash qty HOLD (strat s) (bgate s)
            (fills s ++ [mkFill (r_bucket bar) Buy px qty f (fadd cash (fmul qty px))]) (equity_curve s), true)
  else
    let s := if (pending s =? SELL) && fgt (position s) zero
             then sell_all (fmul (r_open bar) (fsub (of_int 1) (slip p))) (r_bucket bar) p s else s in
    Ok (mkState (cash s) (position s) HOLD (strat s) (bgate s) (fills s) (equity_curve s), true).

(** The strategy sees the bar; what passes the gate waits for the next one. *)
Definition decide_next (key name : pystr) (last : bool) (bar : BarRow) (s : State) : State :=
  let '(st, sig) := on_bar (strat s) (r_close bar) in
  let '(g, sig) := if sig =? HOLD then (bgate s, sig)
                   else let '(g, ok) := allow key name (r_bucket bar) (bgate s) in (g, if ok then sig else HOLD) in
  let pend := if negb (sig =? HOLD) && negb last then sig else pending s in
  mark_equity bar (mkState (cash s) (position s) pend st g (fills s) (equity_curve s)).

Definition bar_step (p : Params) (key name : pystr) (last : bool) (bar : BarRow) (s : State)
    : result BacktestError State :=
  let! r := fill_pending p bar s in
  Ok (if r.2 : bool then decide_next key name last bar r.1 else r.1).

Fixpoint loop (p : Params) (key name : pystr) (bars : list BarRow) (s : State) : result BacktestError State :=
  match bars with
  | [] => Ok s
  | bar :: rest => let! s := bar_step p key name (bool_decide (rest = [])) bar s in loop p key name rest s
  end.

Record Result := mkResult
  { res_strategy : pystr; res_symbol : pystr; res_bars : Z; start_equity : float; end_equity : float;
    res_fills : list Fill; res_curve : list (Z * float); res_suppressed : Z }.

Definition start (equity cooldown : float) (s0 : AnyStrategy) : State :=
  mkState equity zero HOLD s0 (new_gate cooldown) [] [].

Definition or_default (symbol : pystr) : pystr := match symbol with [] => lit "?" | _ => symbol end.

(** Selling out at the last bar's close. *)
Definition liquidate (p : Params) (bars : list BarRow) (s : State) : State :=
  if fgt (position s) zero then
    match last bars with
    | Some b => sell_all (fmul (r_close b) (fsub (of_int 1) (slip p))) (r_bucket b) p s
    | None => s
    end
  else s.

Definition run (bars : list BarRow) (name symbol : pystr) (equity cooldown : float) (p : Params)
    : result BacktestError Result :=
  match REGISTRY name with
  | None => Err (UnknownStrategy name)
  | Some s0 =>
      let! s := loop p (or_default symbol) name bars (start equity cooldown s0) in
      let s := liquidate p bars s in
      Ok (mkResult name symbol (zlen bars) equity (cash s) (fills s) (equity_curve s) (suppressed (bgate s)))
  end.

Definition default_params (symbol : pystr) : Params := mkParams FEE_RATE SLIPPAGE_BP (lot_size_for symbol) (of_int 1).

(** ** The result's figures *)

Definition total_return (r : Result) : float := fsub (fdiv (end_equity r) (start_equity r)) (of_int 1).
Definition trades (r : Result) : Z := zlen (res_fills r) / 2.

Definition draw_step (pm : float * float) (te : Z * float) : float * float :=
  let peak := fmax pm.1 te.2 in
  (peak, if fgt peak zero then fmin pm.2 (fsub (fdiv te.2 peak) (of_int 1)) else pm.2).
Definition max_drawdown (r : Result) : float := (foldl draw_step (S754_infinity true, zero) (res_curve r)).2.

(** The closed purchases with their sales, in order. *)
Fixpoint round_trips (entry : option Fill) (fs : list Fill) : list (Fill * Fill) :=
  match fs with
  | [] => []
  | f :: fs =>
      match f_side f, entry with
      | Buy, _ => round_trips (Some f) fs
      | Sell, Some b => (b, f) :: round_trips None fs
      | Sell, None => round_trips None fs
      end
  end.
Definition is_win (t : Fill * Fill) : bool := fgt (f_price t.2) (f_price t.1).
Definition win_rate (r : Result) : float :=
  let ts := round_trips None (res_fills r) in
  match ts with [] => zero | _ => int_div (zlen (List.filter is_win ts)) (zlen ts) end.
Definition pnl_step (gl : float * float) (t : Fill * Fill) : float * float :=
  let pnl := fmul (fsub (f_price t.2) (f_price t.1)) (f_qty t.2) in
  if fle zero pnl then (fadd gl.1 pnl, gl.2) else (gl.1, fsub gl.2 pnl).
Definition profit_factor (r : Result) : float :=
  let '(g, l) := foldl pnl_step (zero, zero) (round_trips None (res_fills r)) in
  if fgt l zero then fdiv g l else if fgt g zero then S754_infinity false else zero.

Definition buy_and_hold (bars : list BarRow) (equity fee : float) : result BacktestError float :=
  match bars, last bars with
  | b0 :: _ :: _, Some b =>
      let! qty := fdiv_checked equity (fmul (r_open b0) (fadd (of_int 1) fee)) in
      Ok (fmul (fmul qty (r_close b)) (fsub (of_int 1) fee))
  | _, _ => Ok equity
  end.

(** ** Bars from a recording *)

Definition row_of (b : Bar) : BarRow := mkRow (bucket_ns b) (open b) (high b) (low b) (close b) (volume b) (tick_count b).

(** The trades of the recording, in order, are the frames' payloads. *)
Definition replay_one (cfg : Cfg) (v s : pystr) (d : list (Z * Bar)) (t : Trade) : list (Z * Bar) :=
  if bool_decide (venue t = v /\ symbol t = s) then
    let b := bucket_of cfg (ts_event_ns t) in
    let bar := match dget b d with Some bar => bar | None => new_bar v s b (bar_interval_s cfg) end in
    dset b (update bar t) d
  else d.

(** [sorted(..., key=bucket_ns)], which is stable. *)
Fixpoint insert_bar (b : Bar) (l : list Bar) : list Bar :=
  match l with
  | [] => [b]
  | b' :: l' => if bucket_ns b <? bucket_ns b' then b :: l else b' :: insert_bar b l'
  end.
Definition sort_bars (l : list Bar) : list Bar := foldl (fun l b => insert_bar b l) [] l.

Definition bars_of_trades (cfg : Cfg) (v s : pystr) (ts : list Trade) : list BarRow :=
  row_of <$> sort_bars (foldl (replay_one cfg v s) [] ts).*2.

(** The file's blocks go through the frame parser. *)
Definition load_bars_from_replay (cfg : Cfg) (v s : pystr) (blocks : list bytes) : option (list BarRow) :=
  (fun fp => bars_of_trades cfg v s (omap trade_of_frame fp.1)) <$> Protocol.feed_all Protocol.new_parser blocks.

(** ** Replayed bars are the live ones *)

Definition is_key (k : pystr) (t : Trade) : bool := bool_decide (key_for (venue t) (symbol t) = k).

(** The key's trades come in the order of their buckets, and none comes for a bucket the
    sweeper has already passed. *)
Fixpoint timely (cfg : Cfg) (k : pystr) (lo : Z) (evs : list Event) : Prop :=
  match evs with
  | [] => True
  | OnTrade t :: evs =>
      if is_key k t then lo <= bucket_of cfg (ts_event_ns t) /\ timely cfg k (bucket_of cfg (ts_event_ns t)) evs
      else timely cfg k lo evs
  | Sweep now :: evs => timely cfg k (Z.max lo (bucket_of cfg now)) evs
  end.

Definition event_trades (evs : list Event) : list Trade :=
  omap (fun ev => match ev with OnTrade t => Some t | Sweep _ => None end) evs.

Inductive increasing : list Bar -> Prop :=
| inc_nil : increasing []
| inc_snoc l b : increasing l -> Forall (fun a => bucket_ns a < bucket_ns b) l -> increasing (l ++ [b]).

Lemma insert_bar_last l b : Forall (fun a => bucket_ns a < bucket_ns b) l -> insert_bar b l = l ++ [b].
Proof.
  induction 1 as [|a l H _ IH]; [done|]. cbn [insert_bar]. destruct (Z.ltb_spec (bucket_ns b) (bucket_ns a)); [lia|].
  by rewrite IH.
Qed.

Lemma sort_increasing l : increasing l -> sort_bars l = l.
Proof.
  induction 1 as [|l b _ IH Hb]; [done|]. unfold sort_bars in *. rewrite foldl_app. cbn [foldl]. rewrite IH.
  by apply insert_bar_last.
Qed.

(** Bars under their buckets, as the replay's dict has them. *)
Definition by_bucket (l : list Bar) : list (Z * Bar) := (fun b => (bucket_ns b, b)) <$> l.

Lemma by_bucket_get l b : Forall (fun a => bucket_ns a < b) l -> dget b (by_bucket l) = None.
Proof. induction 1 as [|a l H _ IH]; [done|]. cbn. rewrite bool_decide_false by lia. exact IH. Qed.

Lemma by_bucket_get_last l b : Forall (fun a => bucket_ns a < bucket_ns b) l -> dget (bucket_ns b) (by_bucket (l ++ [b])) = Some b.
Proof.
  induction 1 as [|a l H _ IH]; cbn; [by rewrite bool_decide_true|]. rewrite bool_decide_false by lia. exact IH.
Qed.

Lemma by_bucket_set l b b' : bucket_ns b' = b -> Forall (fun a => bucket_ns a < b) l ->
  dset b b' (by_bucket l) = by_bucket (l ++ [b']).
Proof.
  intros Hb. induction 1 as [|a l H _ IH]; cbn; [by rewrite Hb|]. rewrite bool_decide_false by lia. f_equal. exact IH.
Qed.

Lemma by_bucket_set_last l b b' : bucket_ns b' = bucket_ns b -> Forall (fun a => bucket_ns a < bucket_ns b) l ->
  dset (bucket_ns b) b' (by_bucket (l ++ [b])) = by_bucket (l ++ [b']).
Proof.
  intros Hb. induction 1 as [|a l H _ IH]; cbn; [by rewrite bool_decide_true, Hb|].
  rewrite bool_decide_false by lia. f_equal. exact IH.
Qed.

Lemma by_bucket_bars l : (by_bucket l).*2 = l.
Proof. unfold by_bucket. rewrite <- list_fmap_compose. apply list_fmap_id. Qed.

(** The live bars of a key and the replay's dict, before bucket [lo]. *)
Record live (lo : Z) (co : list Bar * option Bar) (d : list (Z * Bar)) : Prop := mkLive
  { lv_d : d = by_bucket (co.1 ++ option_list co.2);
    lv_inc : increasing co.1;
    lv_open : match co.2 with
              | Some b => Forall (fun a => bucket_ns a < bucket_ns b) co.1 /\ bucket_ns b <= lo
              | None => Forall (fun a => bucket_ns a < lo) co.1
              end }.

Lemma live_increasing lo co d : live lo co d -> increasing (co.1 ++ option_list co.2).
Proof.
  destruct co as [c [b|]]; cbn in *; intros [_ H1 H2]; cbn in *; [|by rewrite app_nil_r]. apply inc_snoc; [done|apply H2].
Qed.

Lemma below_trans l (x y : Z) : x <= y -> Forall (fun a => bucket_ns a < x) l -> Forall (fun a => bucket_ns a < y) l.
Proof. intros H Hl. apply (Forall_impl _ _ _ Hl). cbn. lia. Qed.

Section replay.
Variable cfg : Cfg.
Variable now_ns : Z -> Z.
Variables v sym : pystr.
Abbreviation k := (key_for v sym).

Lemma live_trade lo e d t : venue t = v -> symbol t = sym -> lo <= bucket_of cfg (ts_event_ns t) -> live lo (of_key k e) d ->
  live (bucket_of cfg (ts_event_ns t)) (of_key k (on_trade cfg now_ns t e)) (replay_one cfg v sym d t).
Proof.
  intros Hv Hs Hlo [H1 H2 H3]. rewrite (on_trade_key cfg now_ns t k) by by rewrite Hv, Hs.
  unfold replay_one. rewrite bool_decide_true by done. rewrite Hv, Hs.
  set (u := bucket_of cfg (ts_event_ns t)) in *. destruct (of_key k e) as [c o]. cbn [fst snd] in *. subst d.
  destruct o as [b|]; cbn [option_list] in *.
  - destruct H3 as [H3 H4]. destruct (Z.eqb_spec (bucket_ns b) u) as [E|E].
    + rewrite <- E. rewrite by_bucket_get_last by done. split; cbn [fst snd option_list]; [|done|].
      * by rewrite by_bucket_set_last.
      * by split.
    + assert (Forall (fun a => bucket_ns a < u) (c ++ [b])) as Hall.
      { apply Forall_app. split; [apply (below_trans _ (bucket_ns b)); [lia|done]|]. apply Forall_singleton. lia. }
      rewrite by_bucket_get by done. split; cbn [fst snd option_list].
      * by rewrite by_bucket_set.
      * by apply inc_snoc.
      * split; [done|]. cbn. lia.
  - rewrite app_nil_r. rewrite by_bucket_get by by apply (below_trans _ lo). split; cbn [fst snd option_list].
    + rewrite by_bucket_set; [done|done|by apply (below_trans _ lo)].
    + done.
    + split; [by apply (below_trans _ lo)|]. cbn. lia.
Qed.

Lemma live_sweep lo e d now : dict_ok (bars e) -> live lo (of_key k e) d ->
  live (Z.max lo (bucket_of cfg now)) (of_key k (sweep cfg now_ns now e)) d.
Proof.
  intros Hd [H1 H2 H3]. rewrite sweep_key by done. destruct (of_key k e) as [c o]. cbn [fst snd] in *.
  destruct o as [b|].
  - destruct H3 as [H3 H4]. destruct (Z.ltb_spec (bucket_ns b) (bucket_of cfg now)).
    + split; cbn [fst snd option_list]; [by rewrite app_nil_r|by apply inc_snoc|].
      apply Forall_app. split; [apply (below_trans _ (bucket_ns b)); [lia|done]|]. apply Forall_singleton. lia.
    + split; cbn [fst snd]; [done|done|]. split; [done|lia].
  - split; cbn [fst snd]; [done|done|]. apply (below_trans _ lo); [lia|done].
Qed.

Lemma live_run evs : forall lo e d, engine_ok cfg e ->
  Forall (fun t => is_key k t = true -> venue t = v /\ symbol t = sym) (event_trades evs) ->
  timely cfg k lo evs -> live lo (of_key k e) d ->
  exists hi, live hi (of_key k (foldl (step cfg now_ns) e evs)) (foldl (replay_one cfg v sym) d (event_trades evs)).
Proof.
  induction evs as [|ev evs IH]; intros lo e d He Hk Ht Hl; [by exists lo|]. destruct ev as [t|now]; cbn in Hk, Ht.
  - apply Forall_cons in Hk as [Hkt Hk]. cbn [foldl step event_trades omap list_omap]. cbn.
    destruct (is_key k t) eqn:Ek.
    + destruct Ht as [Hlo Ht]. destruct (Hkt eq_refl) as [Hv Hs].
      apply (IH (bucket_of cfg (ts_event_ns t))); [by apply on_trade_ok|done|done|]. by apply (live_trade lo).
    + apply (IH lo); [by apply on_trade_ok|done|done|]. apply bool_decide_eq_false in Ek.
      rewrite on_trade_other by done. unfold replay_one. rewrite bool_decide_false; [done|]. intros [E1 E2]. apply Ek. by rewrite E1, E2.
  - apply (IH (Z.max lo (bucket_of cfg now))); [by apply sweep_ok|done|done|].
    apply live_sweep; [|done]. apply (eo_bars cfg e He).
Qed.

(** When no trade of a key comes late (each one's bucket is at least those of the
    key's earlier trades and of the sweeps before it) and no other instrument shares the
    key's text, the bars the live engine has closed, with the one still open, are exactly
    the bars the backtest rebuilds from a recording of the same trades, in the same
    order and with every price, volume and count, whenever the sweeper ran. *)
Theorem live_bars_match_replay lo evs :
  Forall (fun t => is_key k t = true -> venue t = v /\ symbol t = sym) (event_trades evs) ->
  timely cfg k lo evs ->
  let e := Engine.run cfg now_ns evs in
  row_of <$> (closed_of k (closed e) ++ option_list (dget k (bars e))) = bars_of_trades cfg v sym (event_trades evs).
Proof.
  intros Hk Ht e. destruct (live_run evs lo (new_engine cfg) [] (new_engine_ok cfg) Hk Ht) as [hi H].
  - split; [done|constructor|]. constructor.
  - pose proof (live_increasing _ _ _ H) as Hi. unfold bars_of_trades. rewrite (lv_d _ _ _ H), by_bucket_bars.
    by rewrite sort_increasing.
Qed.
End replay.

(** ** The backtest's decisions *)

(** What a run of [loop] leaves pending after each bar, with the bar. *)
Fixpoint signals (p : Params) (key name : pystr) (bars : list BarRow) (s : State) : result BacktestError (list (Z * Z)) :=
  match bars with
  | [] => Ok []
  | bar :: rest =>
      let! s := bar_step p key name (bool_decide (rest = [])) bar s in
      let! l := signals p key name rest s in
      Ok ((if pending s =? HOLD then [] else [(r_bucket bar, pending s)]) ++ l)
  end.

(** Some bar is skipped: a purchase comes to no quantity. *)
Fixpoint skips (p : Params) (key name : pystr) (bars : list BarRow) (s : State) : bool :=
  match bars with
  | [] => false
  | bar :: rest =>
      match fill_pending p bar s with
      | Ok (s, true) => skips p key name rest (decide_next key name (bool_decide (rest = [])) bar s)
      | Ok (_, false) => true
      | Err _ => false
      end
  end.

Definition row_seen (b : BarRow) : Z * float := (r_bucket b, r_close b).

(** What the decisions depend on. *)
Definition chan_state (key name : pystr) (s : State) : Chan := (strat s, g_last (bgate s) !! (key, name)).

Lemma fill_pending_keeps p bar s s' b : fill_pending p bar s = Ok (s', b) ->
  strat s' = strat s /\ bgate s' = bgate s /\ pending s' = HOLD.
Proof.
  unfold fill_pending. destruct (_ && feq _ _).
  - cbn zeta. destruct (buy_qty _ _ _) as [q|]; cbn [rbind]; [|done]. destruct (fle q zero); by intros [= <- <-].
  - intros [= <- <-]. by destruct (_ && fgt _ _).
Qed.

Lemma decide_next_spec key name last bar s : pending s = HOLD ->
  let s' := decide_next key name last bar s in
  let r := chan_step (cooldown_s (bgate s)) (chan_state key name s) (row_seen bar) in
  chan_state key name s' = r.1 /\ pending s' = (if last then HOLD else r.2) /\ cooldown_s (bgate s') = cooldown_s (bgate s).
Proof.
  intros Hp. unfold decide_next, chan_step, chan_state, row_seen, gated. cbn [fst snd].
  destruct (on_bar (strat s) (r_close bar)) as [st sig]. cbn zeta. destruct (sig =? HOLD) eqn:E.
  - cbn. rewrite E, Hp. by destruct last.
  - pose proof (allow_spec key name (r_bucket bar) (bgate s)) as (A1 & A2 & A3 & _).
    destruct (allow _ _ _ _) as [g ok]. cbn [fst snd] in *. rewrite <- A1. unfold mark_equity.
    cbn [strat bgate pending fst snd]. split_and!; [by rewrite A2| |done]. rewrite Hp. destruct ok; [|by destruct last].
    rewrite E. by destruct last.
Qed.

Lemma signals_spec p key name bars b : forall s, skips p key name (bars ++ [b]) s = false ->
  forall l, signals p key name (bars ++ [b]) s = Ok l ->
  l = decisions (cooldown_s (bgate s)) (chan_state key name s) (row_seen <$> bars).
Proof.
  induction bars as [|bar bars IH]; intros s Hs l Hl; cbn [app signals skips] in Hs, Hl.
  - unfold bar_step in Hl. destruct (fill_pending p b s) as [[s1 ok]|] eqn:Ef; [|done]. destruct ok; [|done].
    cbn [rbind snd fst] in Hl. rewrite bool_decide_true in Hl by done.
    destruct (fill_pending_keeps _ _ _ _ _ Ef) as (_ & _ & K). destruct (decide_next_spec key name true b s1 K) as (_ & P & _).
    rewrite P in Hl. by injection Hl as <-.
  - assert (bool_decide (bars ++ [b] = []) = false) as En by (apply bool_decide_eq_false; by destruct bars).
    rewrite En in *. unfold bar_step in Hl. destruct (fill_pending p bar s) as [[s1 ok]|] eqn:Ef; [|done].
    destruct ok; [|done]. cbn [rbind snd fst] in Hl.
    destruct (fill_pending_keeps _ _ _ _ _ Ef) as (K1 & K2 & K3).
    destruct (decide_next_spec key name false bar s1 K3) as (D1 & D2 & D3).
    destruct (signals p key name (bars ++ [b]) _) as [l'|] eqn:El; [|done]. cbn [rbind] in Hl. injection Hl as <-.
    assert (chan_state key name s1 = chan_state key name s) as Es by (unfold chan_state; by rewrite K1, K2).
    cbn [fmap list_fmap decisions]. rewrite (IH _ Hs _ El), D1, D2, D3, K2, Es.
    by destruct (chan_step _ (chan_state key name s) (row_seen bar)).
Qed.

Lemma fresh_dget cfg n s0 : n ∈ strategies cfg -> REGISTRY n = Some s0 -> dget n (fresh_strategies cfg) = Some s0.
Proof.
  intros Hin Hr. unfold fresh_strategies. generalize (@nil (pystr * AnyStrategy)) as d. revert Hin.
  assert (forall ns d, dget n d = Some s0 ->
    dget n (foldl (fun d n => match REGISTRY n with Some s => dset n s d | None => d end) d ns) = Some s0) as Hkeep.
  { intros ns. induction ns as [|m ns IH]; intros d Hd; [done|]. cbn. apply IH. destruct (REGISTRY m) as [s|] eqn:E; [|done].
    destruct (decide (n = m)) as [<-|]; [rewrite dget_dset_eq; congruence|by rewrite dget_dset_ne]. }
  induction (strategies cfg) as [|m ns IH]; [by intros ?%elem_of_nil|]. intros [<-|Hin]%elem_of_cons d; cbn; [|by apply IH].
  apply Hkeep. rewrite Hr. apply dget_dset_eq.
Qed.

(** C14: Over the bars the live engine has closed for a key, with any bar after them, a
    backtest of a configured strategy at the same cooldown makes on each bar exactly the
    decision the engine published for it (strategy, gate and market time alike, whatever
    other keys and strategies did in between), provided no bar of the backtest is
    skipped; and the engine's signals are numbered without a gap. *)
Theorem engine_backtest_parity cfg now_ns evs k n s0 p symbol equity b l :
  n ∈ strategies cfg -> REGISTRY n = Some s0 ->
  let e := Engine.run cfg now_ns evs in
  let rows := (row_of <$> closed_of k (closed e)) ++ [b] in
  let s := start equity (signal_cooldown_s cfg) s0 in
  skips p (or_default symbol) n rows s = false ->
  signals p (or_default symbol) n rows s = Ok l ->
  mine k n (emitted (out e)) = l /\
  forall i m, emitted (out e) !! i = Some m -> e_seq m = Z.of_nat i.
Proof.
  intros Hn Hr e rows s Hs Hl. pose proof (run_ok cfg now_ns evs : engine_ok cfg e) as He.
  split; [|apply (eo_out _ _ He)]. pose proof (eo_chan _ _ He k n) as Hc. unfold chan_ok in Hc.
  rewrite (fresh_dget cfg n s0 Hn Hr) in Hc. destruct Hc as [_ [_ Hm]]. rewrite Hm.
  rewrite (signals_spec _ _ _ _ _ _ Hs _ Hl). unfold chan_state, s. cbn [start strat bgate new_gate cooldown_s g_last].
  rewrite lookup_empty, <- list_fmap_compose. done.
Qed.

(** ** Fills *)

(** A history of fills, and the purchase that is still open. *)
Inductive book : option Fill -> list Fill -> Prop :=
| book_nil : book None []
| book_buy f fs : book None fs -> f_side f = Buy -> fgt (f_qty f) zero = true \/ is_nan (f_qty f) = true -> book (Some f) (fs ++ [f])
| book_sell b f fs : book (Some b) fs -> f_side f = Sell -> f_qty f = f_qty b -> fgt (f_qty b) zero = true -> book None (fs ++ [f]).

Definition book_ok (s : State) : Prop :=
  exists o, book o (fills s) /\
  match o with None => feq (position s) zero = true | Some b => position s = f_qty b end.

Lemma not_fle_zero q : fle q zero = false -> fgt q zero = true \/ is_nan q = true.
Proof. destruct q as [[]|[]| |[] m e]; cbn; auto; discriminate. Qed.

Lemma zero_not_positive x : feq x zero = true -> fgt x zero = false.
Proof. by destruct x as [[]|[]| |[] m e]. Qed.

Lemma positive_not_zero x : fgt x zero = true \/ is_nan x = true -> feq x zero = false.
Proof. destruct x as [[]|[]| |[] m e]; cbn; intros []; auto; discriminate. Qed.

Lemma book_open b fs : book (Some b) fs -> fgt (f_qty b) zero = true \/ is_nan (f_qty b) = true.
Proof. inversion 1; subst; done. Qed.

Lemma sell_all_book px ts p s : book_ok s -> fgt (position s) zero = true -> book_ok (sell_all px ts p s).
Proof.
  intros (o & Hb & Ho) Hp. exists None. split; [|done]. destruct o as [b|].
  - apply (book_sell b); cbn; [done|done|done|by rewrite <- Ho].
  - apply zero_not_positive in Ho. congruence.
Qed.

Lemma book_ok_same s s' : fills s' = fills s -> position s' = position s -> book_ok s -> book_ok s'.
Proof. intros E1 E2 (o & Hb & Ho). exists o. by rewrite E1, E2. Qed.

Lemma fill_pending_book p bar s s' b : book_ok s -> fill_pending p bar s = Ok (s', b) -> book_ok s'.
Proof.
  intros Hb. unfold fill_pending. destruct (pending s =? BUY) eqn:Ep, (feq (position s) zero) eqn:Ez; cbn [andb].
  - cbn zeta. destruct (buy_qty _ _ _) as [q|]; cbn [rbind]; [|done].
    destruct (fle q zero) eqn:Eq; intros [= <- <-]; [by apply (book_ok_same s)|].
    destruct Hb as ([b|] & Hb & Ho).
    + rewrite Ho, (positive_not_zero _ (book_open _ _ Hb)) in Ez. done.
    + eexists (Some _). split; [apply book_buy; [exact Hb|reflexivity|exact (not_fle_zero _ Eq)]|reflexivity].
  - intros [= <- <-]. destruct (_ && _) eqn:E; [|by apply (book_ok_same s)]. apply andb_true_iff in E as [_ E].
    eapply book_ok_same; [| |by apply sell_all_book]; done.
  - intros [= <- <-]. destruct (_ && _) eqn:E; [|by apply (book_ok_same s)]. apply andb_true_iff in E as [_ E].
    eapply book_ok_same; [| |by apply sell_all_book]; done.
  - intros [= <- <-]. destruct (_ && _) eqn:E; [|by apply (book_ok_same s)]. apply andb_true_iff in E as [_ E].
    eapply book_ok_same; [| |by apply sell_all_book]; done.
Qed.

Lemma decide_next_fills key name last bar s :
  fills (decide_next key name last bar s) = fills s /\ position (decide_next key name last bar s) = position s.
Proof.
  unfold decide_next. destruct (on_bar _ _) as [st sig]. destruct (sig =? HOLD); [done|]. by destruct (allow _ _ _ _).
Qed.

Lemma bar_step_fills p key name last bar s s' : bar_step p key name last bar s = Ok s' ->
  exists s1 b, fill_pending p bar s = Ok (s1, b) /\ fills s' = fills s1 /\ position s' = position s1.
Proof.
  unfold bar_step. destruct (fill_pending p bar s) as [[s1 b]|]; [|done]. cbn [rbind fst snd]. intros [= <-].
  exists s1, b. split; [done|]. destruct b; [apply decide_next_fills|done].
Qed.

Lemma loop_book p key name bars : forall s s', book_ok s -> loop p key name bars s = Ok s' -> book_ok s'.
Proof.
  induction bars as [|bar bars IH]; intros s s' Hb Hl; [by injection Hl as <-|]. cbn [loop] in Hl.
  apply rbind_Ok in Hl as (s2 & H2 & Hl). apply (IH s2); [|done].
  destruct (bar_step_fills _ _ _ _ _ _ _ H2) as (s1 & b & E & F1 & F2).
  apply (book_ok_same s1); [done|done|]. by apply (fill_pending_book p bar s _ b).
Qed.

Lemma book_trips o fs : book o fs -> exists ts,
  (forall gs, round_trips None (fs ++ gs) = ts ++ round_trips o gs) /\
  length fs = (2 * length ts + match o with Some _ => 1 | None => 0 end)%nat.
Proof.
  induction 1 as [|f fs _ (ts & H1 & H2) Hs _|b f fs _ (ts & H1 & H2) Hs _ _]; [by exists []| |].
  - exists ts. split; [|rewrite length_app; cbn; lia]. intros gs. rewrite <- app_assoc, H1. cbn. by rewrite Hs.
  - exists (ts ++ [(b, f)]). split; [|rewrite !length_app; cbn; lia]. intros gs. rewrite <- !app_assoc, H1. cbn. by rewrite Hs.
Qed.

Lemma run_loop bars name symbol equity cooldown p r : run bars name symbol equity cooldown p = Ok r ->
  exists s0 s, loop p (or_default symbol) name bars (start equity cooldown s0) = Ok s /\
    REGISTRY name = Some s0 /\ res_fills r = fills (liquidate p bars s).
Proof.
  unfold run. destruct (REGISTRY name) as [s0|]; [|done]. destruct (loop _ _ _ _ _) as [s|] eqn:E; [|done].
  cbn [rbind]. intros [= <-]. by exists s0, s.
Qed.

(** In every backtest that completes, purchases and sales alternate, each purchase of
    a positive quantity and each sale of exactly the quantity bought; at the end nothing
    is held, unless the last purchase came to NaN; and [trades], half the number of fills,
    is the number of the completed round trips the win rate and the profit factor are
    taken over. *)
Theorem fills_balance bars name symbol equity cooldown p r :
  run bars name symbol equity cooldown p = Ok r ->
  exists o, book o (res_fills r) /\
    match o with Some b => is_nan (f_qty b) = true | None => True end /\
    trades r = zlen (round_trips None (res_fills r)).
Proof.
  intros Hr. destruct (run_loop _ _ _ _ _ _ _ Hr) as (s0 & s & Hl & _ & Hf).
  assert (book_ok s) as Hb. { apply (loop_book _ _ _ _ _ _) in Hl; [done|]. exists None. split; [constructor|done]. }
  assert (book_ok (liquidate p bars s) /\ (fgt (position (liquidate p bars s)) zero = false)) as [(o & B1 & B2) Hz].
  { unfold liquidate. destruct (fgt (position s) zero) eqn:E; [|by split].
    destruct bars as [|b0 bars]; [by injection Hl as <-|]. destruct (last_is_Some (b0 :: bars)) as [_ Hlast].
    destruct (Hlast ltac:(done)) as [b ->]. split; [by apply sell_all_book|done]. }
  exists o. rewrite Hf. split; [done|]. split.
  - destruct o as [b|]; [|done]. rewrite B2 in Hz. destruct (book_open _ _ B1); [congruence|done].
  - destruct (book_trips _ _ B1) as (ts & T1 & T2). specialize (T1 []). cbn [round_trips] in T1. rewrite !app_nil_r in T1.
    unfold trades. rewrite Hf, T1, T2. rewrite Nat2Z.inj_add, Nat2Z.inj_mul, Z.mul_comm, Z.div_add_l by lia. destruct o; apply Z.add_0_r.
Qed.

(** ** No look-ahead *)

Definition front_loop (p : Params) (key name : pystr) (bars : list BarRow) (s : State) : result BacktestError State :=
  foldl (fun r bar => let! s := r in bar_step p key name false bar s) (Ok s) bars.

Lemma front_err p key name bars e :
  foldl (fun r bar => let! s := r in bar_step p key name false bar s) (Err e) bars = Err e.
Proof. by induction bars. Qed.

Lemma loop_app p key name bars rest : rest <> [] -> forall s,
  loop p key name (bars ++ rest) s = (let! s := front_loop p key name bars s in loop p key name rest s).
Proof.
  intros Hr. induction bars as [|bar bars IH]; intros s; [done|]. cbn [app loop]. unfold front_loop. cbn [foldl rbind].
  rewrite bool_decide_false by by destruct bars.
  destruct (bar_step p key name false bar s) as [s'|e]; [apply IH|]. cbn [rbind]. by rewrite front_err.
Qed.

(** The fills a bar adds are its own. *)
Lemma fill_pending_adds p bar s s' b : fill_pending p bar s = Ok (s', b) ->
  exists fs, fills s' = fills s ++ fs /\ Forall (fun f => f_ts f = r_bucket bar) fs.
Proof.
  unfold fill_pending. destruct (_ && feq _ _).
  - cbn zeta. destruct (buy_qty _ _ _) as [q|]; cbn [rbind]; [|done]. destruct (fle q zero); intros [= <- _].
    + exists []. by rewrite app_nil_r.
    + eexists. split; [reflexivity|]. by apply Forall_singleton.
  - intros [= <- _]. destruct (_ && _); [eexists; split; [reflexivity|by apply Forall_singleton]|].
    exists []. by rewrite app_nil_r.
Qed.

Lemma loop_adds p key name bars : forall s s', loop p key name bars s = Ok s' ->
  exists fs, fills s' = fills s ++ fs /\ Forall (fun f => exists b, b ∈ bars /\ f_ts f = r_bucket b) fs.
Proof.
  induction bars as [|bar bars IH]; intros s s' Hl; [injection Hl as <-; exists []; by rewrite app_nil_r|].
  cbn [loop] in Hl. apply rbind_Ok in Hl as (s2 & H2 & Hl). destruct (IH _ _ Hl) as (fs & F1 & F2).
  destruct (bar_step_fills _ _ _ _ _ _ _ H2) as (s1 & b & E & E1 & _).
  destruct (fill_pending_adds _ _ _ _ _ E) as (gs & G1 & G2). exists (gs ++ fs).
  rewrite F1, E1, G1, <- app_assoc. split; [done|]. apply Forall_app. split.
  - apply (Forall_impl _ _ _ G2). intros f ->. exists bar. split; [apply list_elem_of_here|done].
  - apply (Forall_impl _ _ _ F2). intros f (b' & Hb' & ->). exists b'. split; [by apply list_elem_of_further|done].
Qed.

(** Up to a bar's fills only its time and its open count. *)
Lemma fill_pending_open p y y' s s1 b : r_bucket y = r_bucket y' -> r_open y = r_open y' ->
  fill_pending p y s = Ok (s1, b) -> exists s1', fill_pending p y' s = Ok (s1', b) /\ fills s1' = fills s1.
Proof.
  intros Hb Ho. unfold fill_pending. rewrite Hb, Ho. destruct (_ && feq _ _).
  - cbn zeta. destruct (buy_qty _ _ _) as [q|]; cbn [rbind]; [|done]. destruct (fle q zero); intros [= <- <-];
      eexists; split; reflexivity.
  - intros [= <- <-]. eexists. split; reflexivity.
Qed.

Lemma liquidate_adds p bars b s : exists fs, fills (liquidate p (bars ++ [b]) s) = fills s ++ fs /\ Forall (fun f => f_ts f = r_bucket b) fs.
Proof.
  unfold liquidate. rewrite last_snoc. destruct (fgt _ _); [eexists; split; [reflexivity|by apply Forall_singleton]|].
  exists []. by rewrite app_nil_r.
Qed.

Definition upto (ts : Z) (fs : list Fill) : list Fill := filter (fun f => f_ts f <= ts) fs.

Lemma upto_later ts fs gs : Forall (fun f => ts < f_ts f) gs -> upto ts (fs ++ gs) = upto ts fs.
Proof.
  intros H. unfold upto. rewrite filter_app. replace (filter _ gs) with (@nil Fill); [apply app_nil_r|].
  induction H as [|f gs Hf _ IH]; [done|]. rewrite filter_cons_False by lia. done.
Qed.

(** The fills of a run up to bar [y], after the common front. *)
Lemma run_upto xs y ys name symbol equity cooldown p r : ys <> [] ->
  Forall (fun b => r_bucket y < r_bucket b) ys ->
  run (xs ++ y :: ys) name symbol equity cooldown p = Ok r ->
  exists s0 s s1 b, REGISTRY name = Some s0 /\
    front_loop p (or_default symbol) name xs (start equity cooldown s0) = Ok s /\
    fill_pending p y s = Ok (s1, b) /\ upto (r_bucket y) (res_fills r) = upto (r_bucket y) (fills s1).
Proof.
  intros Hys Hlater Hr. destruct (run_loop _ _ _ _ _ _ _ Hr) as (s0 & s3 & Hl & Hreg & Hf).
  rewrite loop_app in Hl by done. apply rbind_Ok in Hl as (s & Hs & Hl). cbn [loop] in Hl.
  apply rbind_Ok in Hl as (s2 & H2 & Hl). destruct (bar_step_fills _ _ _ _ _ _ _ H2) as (s1 & b & E & E1 & _).
  exists s0, s, s1, b. split_and!; [done|done|done|]. rewrite Hf.
  destruct (exists_last Hys) as (ys' & z & ->). assert (r_bucket y < r_bucket z) as Hz.
  { apply Forall_app in Hlater as [_ Hz]. exact (Forall_inv Hz). }
  rewrite app_comm_cons, app_assoc. destruct (liquidate_adds p (xs ++ y :: ys') z s3) as (fs & -> & F).
  destruct (loop_adds _ _ _ _ _ _ Hl) as (gs & -> & G). rewrite <- app_assoc, E1. apply upto_later, Forall_app. split.
  - apply (Forall_impl _ _ _ G). intros f (b' & Hb' & ->). exact (proj1 (Forall_forall _ _) Hlater b' Hb').
  - apply (Forall_impl _ _ _ F). intros f E0. cbn in E0. lia.
Qed.

(** C15: No look-ahead: two recordings that agree before a bar, and on that bar's time and
    open, get the same fills up to and including that bar's time, whatever the bar's own
    close, high, low and volume and every later bar are. *)
Theorem no_lookahead xs y y' ys ys' name symbol equity cooldown p r r' :
  ys <> [] -> ys' <> [] -> r_bucket y = r_bucket y' -> r_open y = r_open y' ->
  Forall (fun b => r_bucket y < r_bucket b) (ys ++ ys') ->
  run (xs ++ y :: ys) name symbol equity cooldown p = Ok r ->
  run (xs ++ y' :: ys') name symbol equity cooldown p = Ok r' ->
  upto (r_bucket y) (res_fills r) = upto (r_bucket y) (res_fills r').
Proof.
  intros Hy Hy' Hb Ho Hlater Hr Hr'. apply Forall_app in Hlater as [L L'].
  destruct (run_upto _ _ _ _ _ _ _ _ _ Hy L Hr) as (s0 & s & s1 & b & R1 & R2 & R3 & ->).
  rewrite Hb in L' |- *.
  destruct (run_upto _ _ _ _ _ _ _ _ _ Hy' L' Hr') as (s0' & s' & s1' & b' & R1' & R2' & R3' & ->).
  rewrite R1 in R1'. injection R1' as <-. rewrite R2 in R2'. injection R2' as <-.
  destruct (fill_pending_open _ _ _ _ _ _ Hb Ho R3) as (s1'' & E & F). rewrite E in R3'. injection R3' as <- <-.
  by rewrite F.
Qed.

(** ** Witnesses and examples *)

Definition demo_cfg : Cfg := mkCfg 60 [lit "bb_break"; lit "unknown"; lit "sma_cross"] (of_int 30).
Definition demo_trade (minute price : Z) : Trade :=
  mkTrade (lit "UPBIT") (lit "BTC") (minute * 60000000000 + 5) (minute * 60000000000 + 6) (of_int price) (of_int 1) SIDE_BUY.
(** Nineteen quiet minutes, a jump, and a trade that closes the last of them. *)
Definition demo_events : list Event :=
  ((fun i => OnTrade (demo_trade (Z.of_nat i) (10 + Z.of_nat (i mod 2)))) <$> List.seq 0 19)
  ++ [OnTrade (demo_trade 19 100); Sweep 1150000000000; OnTrade (demo_trade 20 99)].
Definition demo_row (minute o c : Z) : BarRow :=
  mkRow (minute * 60000000000) (of_int o) (of_int o) (of_int o) (of_int c) (of_int 1) 1.
Definition demo_key : pystr := key_for (lit "UPBIT") (lit "BTC").

Lemma live_bars_match_replay_witness :
  let e := Engine.run demo_cfg (fun i => i) demo_events in
  row_of <$> (closed_of demo_key (closed e) ++ option_list (dget demo_key (bars e)))
  = bars_of_trades demo_cfg (lit "UPBIT") (lit "BTC") (event_trades demo_events) /\
  length (bars_of_trades demo_cfg (lit "UPBIT") (lit "BTC") (event_trades demo_events)) = 21%nat.
Proof.
  split; [|by vm_compute].
  refine (live_bars_match_replay demo_cfg (fun i => i) (lit "UPBIT") (lit "BTC") 0 demo_events _ _).
  - apply Forall_forall. intros t Ht _.
    assert (Forall (fun t => venue t = lit "UPBIT" /\ symbol t = lit "BTC") (event_trades demo_events)) as H
      by (apply (bool_decide_unpack _); by vm_compute).
    exact (proj1 (Forall_forall _ _) H t Ht).
  - vm_compute. repeat split; discriminate.
Defined.

Lemma engine_backtest_parity_witness :
  let e := Engine.run demo_cfg (fun i => i) demo_events in
  mine demo_key (lit "bb_break") (emitted (out e)) = [(1140000000000, BUY)].
Proof.
  refine (proj1 (engine_backtest_parity demo_cfg (fun i => i) demo_events demo_key (lit "bb_break")
    (Break (new_bollinger_break 20 (of_int 2))) (default_params demo_key) demo_key (of_int 1000000) (demo_row 20 99 99)
    [(1140000000000, BUY)] _ _ _ _)).
  - apply (bool_decide_unpack _). by vm_compute.
  - reflexivity.
  - by vm_compute.
  - by vm_compute.
Defined.

Definition demo_rows (last_close : Z) : list BarRow :=
  ((fun i => demo_row (Z.of_nat i) (10 + Z.of_nat (i mod 2)) (10 + Z.of_nat (i mod 2))) <$> List.seq 0 19) ++ [demo_row 19 100 100].

Lemma fills_balance_witness :
  exists r, run (demo_rows 1 ++ [demo_row 20 99 120]) (lit "bb_break") demo_key (of_int 1000000) zero (default_params demo_key) = Ok r /\
  (exists o, book o (res_fills r) /\ match o with Some b => is_nan (f_qty b) = true | None => True end /\
    trades r = zlen (round_trips None (res_fills r))) /\ trades r = 1.
Proof.
  eexists. split; [vm_compute; reflexivity|]. split; [|by vm_compute].
  refine (fills_balance (demo_rows 1 ++ [demo_row 20 99 120]) (lit "bb_break") demo_key (of_int 1000000) zero
    (default_params demo_key) _ _). vm_compute. reflexivity.
Defined.

Lemma no_lookahead_witness :
  let p := default_params demo_key in
  exists r r', run (demo_rows 1 ++ [demo_row 20 99 120; demo_row 21 1 1]) (lit "bb_break") demo_key (of_int 1000000) zero p = Ok r /\
  run (demo_rows 1 ++ [demo_row 20 99 5; demo_row 21 7 7]) (lit "bb_break") demo_key (of_int 1000000) zero p = Ok r' /\
  upto 1200000000000 (res_fills r) = upto 1200000000000 (res_fills r') /\ length (upto 1200000000000 (res_fills r)) = 1%nat.
Proof.
  intros p. eexists _, _. split; [vm_compute; reflexivity|]. split; [vm_compute; reflexivity|]. split; [|by vm_compute].
  refine (no_lookahead (demo_rows 1) (demo_row 20 99 120) (demo_row 20 99 5) [demo_row 21 1 1] [demo_row 21 7 7]
    (lit "bb_break") demo_key (of_int 1000000) zero p _ _ _ _ eq_refl eq_refl _ _ _); try discriminate.
  - apply (bool_decide_unpack _). by vm_compute.
  - vm_compute. reflexivity.
  - vm_compute. reflexivity.
Defined.

(** A bar on which a purchase comes to no whole share is skipped before the strategy sees
    it, so from there on the backtest decides on other bars than the live engine. *)
Example skipped_bar_unseen :
  let p := default_params (lit "KIS:A") in
  let s := start (of_int 5) zero (Cross (new_sma_cross 1 2)) in
  let bars := [demo_row 0 10 10; demo_row 1 9 9; demo_row 2 10 10; demo_row 3 10 9; demo_row 4 9 8] in
  skips p (lit "KIS:A") (lit "x") bars s = true /\
  signals p (lit "KIS:A") (lit "x") bars s = Ok [(120000000000, BUY)] /\
  decisions zero (Cross (new_sma_cross 1 2), None) (row_seen <$> take 4 bars) = [(120000000000, BUY); (180000000000, SELL)].
Proof. by vm_compute. Qed.

(** A trade that comes late closes the open bar; the next one opens its minute again, and
    the strategies see three bars where the recording has two. *)
Example late_trade_splits_bar :
  let evs := OnTrade <$> [demo_trade 0 10; demo_trade 1 11; demo_trade 0 12; demo_trade 1 13] in
  let e := Engine.run demo_cfg (fun i => i) evs in
  (bucket_ns <$> closed_of demo_key (closed e)) = [0; 60000000000; 0] /\
  (r_bucket <$> bars_of_trades demo_cfg (lit "UPBIT") (lit "BTC") (event_trades evs)) = [0; 60000000000].
Proof. by vm_compute. Qed.
End Backtest.
