(* ===== verification/Clock.v ===== *)
(** * Clock offsets per venue (src/src/mdfeed/clock.py)

    An estimator keeps the minimum of the observed latencies per slice of a sliding
    window; the least of them is the clock offset.  Times are Python floats, as
    [time.time()] gives them; a window is positive. *)

From S2P Require Import Prelude PyStr PyFloat.

Module Clock.

Definition zero : float := S754_zero false.

(** [int(x)] of a finite float, towards zero. *)
Definition ftrunc (x : float) : Z :=
  match x with
  | S754_finite s m e => cond_Zopp s (if 0 <=? e then Zpos m * 2 ^ e else Zpos m / 2 ^ (- e))
  | _ => 0
  end.

Record SkewEstimator := mkSkew
  { n : nat; bucket_s : float; buckets : list (option float); cur_idx : nat; cur_start : float; samples : Z }.

Definition new_skew (window_s : float) (nb : nat) (now : float) : SkewEstimator :=
  mkSkew nb (fdiv window_s (of_int (Z.of_nat nb))) (replicate nb None) 0 now 0.

(** The slices passed since the current one began are emptied, at most all of them. *)
Fixpoint clear_steps (k : nat) (e : SkewEstimator) : SkewEstimator :=
  match k with
  | O => e
  | S k =>
      let i := ((cur_idx e + 1) mod n e)%nat in
      clear_steps k (mkSkew (n e) (bucket_s e) (<[i := None]> (buckets e)) i (cur_start e) (samples e))
  end.

Definition roll (now : float) (e : SkewEstimator) : SkewEstimator :=
  let elapsed := fsub now (cur_start e) in
  if flt elapsed (bucket_s e) then e
  else
    let steps := Z.min (ftrunc (fdiv elapsed (bucket_s e))) (Z.of_nat (n e)) in
    let c := clear_steps (Z.to_nat steps) e in
    mkSkew (n c) (bucket_s c) (buckets c) (cur_idx c) (fadd (cur_start e) (fmul (of_int steps) (bucket_s e))) (samples c).

(** [min(vals)]: the first of the least ones. *)
Definition offset_us (e : SkewEstimator) : float :=
  match omap id (buckets e) with [] => zero | v :: vs => foldl fmin v vs end.

Definition suspicious (e : SkewEstimator) : bool := flt (offset_us e) (of_int (-1000)).

Definition observe (raw_us now : float) (e : SkewEstimator) : SkewEstimator * float :=
  let e := roll now e in
  let put := match mjoin (buckets e !! cur_idx e) with None => true | Some b => flt raw_us b end in
  let e := mkSkew (n e) (bucket_s e) (if put then <[cur_idx e := Some raw_us]> (buckets e) else buckets e)
             (cur_idx e) (cur_start e) (samples e + 1) in
  (e, fmax zero (fsub raw_us (offset_us e))).

Record ClockMonitor := mkMonitor { window_s : float; est : gmap pystr SkewEstimator }.
Definition new_monitor (window_s : float) : ClockMonitor := mkMonitor window_s ∅.

Definition monitor_observe (venue : pystr) (raw_us now : float) (m : ClockMonitor) : ClockMonitor * float :=
  let e := match est m !! venue with Some e => e | None => new_skew (window_s m) 10 now end in
  let '(e, lat) := observe raw_us now e in
  (mkMonitor (window_s m) (<[venue := e]> (est m)), lat).

Definition any_suspicious (m : ClockMonitor) : bool := existsb (fun ve => suspicious ve.2) (map_to_list (est m)).

(** ** Lemmas *)

Record skew_ok (e : SkewEstimator) : Prop := mkSkewOk
  { sk_n : (0 < n e)%nat; sk_len : length (buckets e) = n e; sk_idx : (cur_idx e < n e)%nat;
    sk_nan : Forall (fun b => forall v, b = Some v -> is_nan v = false) (buckets e) }.

Lemma clear_steps_ok k : forall e, skew_ok e -> skew_ok (clear_steps k e).
Proof.
  induction k as [|k IH]; intros e He; [done|]. apply IH. destruct He as [H1 H2 H3 H4].
  split; cbn [n buckets cur_idx]; [done|by rewrite length_insert|by apply Nat.mod_upper_bound; lia|].
  apply Forall_insert; [done|]. done.
Qed.

Lemma roll_ok now e : skew_ok e -> skew_ok (roll now e).
Proof.
  intros He. unfold roll. destruct (flt _ _); [done|]. cbn zeta. destruct (clear_steps_ok (Z.to_nat
    (Z.min (ftrunc (fdiv (fsub now (cur_start e)) (bucket_s e))) (Z.of_nat (n e)))) e He). by split.
Qed.

Lemma new_skew_ok w nb now : (0 < nb)%nat -> skew_ok (new_skew w nb now).
Proof. intros H. split; cbn; [done|by rewrite length_replicate|done|]. by apply Forall_replicate. Qed.

Lemma fmin_cases a b : fmin a b = a \/ fmin a b = b.
Proof. unfold fmin. destruct (flt b a); auto. Qed.

Lemma fold_min v vs : is_nan v = false -> Forall (fun x => is_nan x = false) vs ->
  foldl fmin v vs ∈ v :: vs /\ Forall (fun x => fnlt x (foldl fmin v vs)) (v :: vs).
Proof.
  intros Hv Hvs. revert v Hv. induction Hvs as [|x vs Hx Hvs IH]; intros v Hv; cbn [foldl].
  - split; [apply list_elem_of_here|]. apply Forall_singleton. apply flt_irrefl.
  - destruct (fmin_le v x) as [Hl1 Hl2]. assert (is_nan (fmin v x) = false) as Hm by (destruct (fmin_cases v x) as [-> | ->]; done).
    destruct (IH _ Hm) as [I1 I2]. split.
    + apply elem_of_cons in I1 as [-> | I1]; [|by do 2 apply list_elem_of_further].
      destruct (fmin_cases v x) as [-> | ->]; [apply list_elem_of_here|apply list_elem_of_further, list_elem_of_here].
    + apply Forall_cons in I2 as [I2 I3].
      assert (is_nan (foldl fmin (fmin v x) vs) = false) as Hf.
      { apply elem_of_cons in I1 as [-> | I1]; [done|]. exact (proj1 (Forall_forall _ _) Hvs _ I1). }
      constructor; [|constructor; [|done]]; by apply (fnlt_trans _ (fmin v x)).
Qed.

Lemma observed_ok e raw (put : bool) i : skew_ok e -> is_nan raw = false ->
  Forall (fun b => forall v, b = Some v -> is_nan v = false) (if put then <[i := Some raw]> (buckets e) else buckets e).
Proof. intros He Hr. destruct put; [|apply He]. apply Forall_insert; [apply He|]. by intros v [= <-]. Qed.

Lemma observe_ok raw now e : skew_ok e -> is_nan raw = false -> skew_ok (observe raw now e).1.
Proof.
  intros He Hr. unfold observe. pose proof (roll_ok now e He) as H. revert H. generalize (roll now e). intros e' H.
  cbn [fst]. pose proof (observed_ok e' raw (match mjoin (buckets e' !! cur_idx e') with None => true | Some b => flt raw b end)
    (cur_idx e') H Hr) as Hf. destruct H as [H1 H2 H3 H4]. split; cbn [n buckets cur_idx]; [done| |done|done].
  destruct (mjoin _) as [b|]; [destruct (flt raw b)|]; by rewrite ?length_insert.
Qed.

(** The sample's own slice is no greater than the sample. *)
Lemma observe_slice raw now e : skew_ok e -> is_nan raw = false ->
  let e' := (observe raw now e).1 in exists v, buckets e' !! cur_idx e' = Some (Some v) /\ fnlt raw v.
Proof.
  intros He Hr. unfold observe. pose proof (roll_ok now e He) as H. revert H. generalize (roll now e). intros e' [H1 H2 H3 H4].
  cbn [fst buckets cur_idx]. destruct (lookup_lt_is_Some_2 (buckets e') (cur_idx e')) as [b Hb]; [lia|].
  rewrite Hb. cbn. destruct b as [b|]; cbn; [destruct (flt raw b) eqn:E|].
  - exists raw. rewrite list_lookup_insert_eq by lia. split; [done|apply flt_irrefl].
  - exists b. done.
  - exists raw. rewrite list_lookup_insert_eq by lia. split; [done|apply flt_irrefl].
Qed.

(** After every sample the offset is the least of the slices' minima, it is no greater
    than the sample itself, and the corrected latency is the sample less the offset, or
    zero; it is never negative. *)
Theorem offset_is_minimum w nb start obs raw now :
  (0 < nb)%nat -> Forall (fun o => is_nan o.1 = false) obs -> is_nan raw = false ->
  let e := foldl (fun e o => (observe o.1 o.2 e).1) (new_skew w nb start) obs in
  let r := observe raw now e in
  Some (offset_us r.1) ∈ buckets r.1 /\
  (forall v, Some v ∈ buckets r.1 -> fnlt v (offset_us r.1)) /\ fnlt raw (offset_us r.1) /\
  r.2 = fmax zero (fsub raw (offset_us r.1)) /\ fnlt r.2 zero.
Proof.
  intros Hn Hobs Hr e r. assert (skew_ok e) as He.
  { unfold e. pose proof (new_skew_ok w nb start Hn) as H. revert H. generalize (new_skew w nb start).
    clear e r. induction Hobs as [|o obs Ho _ IH]; intros e0 H0; [done|]. cbn. by apply IH, observe_ok. }
  pose proof (observe_ok raw now e He Hr) as Hok. destruct (observe_slice raw now e He Hr) as (v & Hv & Hle). fold r in Hok, Hv.
  assert (Some v ∈ buckets r.1) as Hin by (eapply list_elem_of_lookup_2; exact Hv).
  assert (forall x, Some x ∈ buckets r.1 <-> x ∈ omap id (buckets r.1)) as Hom.
  { intros x. rewrite list_elem_of_omap. split; [intros H; by exists (Some x)|by intros (y & H & Hy); cbn in Hy; subst y]. }
  assert (forall x, x ∈ omap id (buckets r.1) -> is_nan x = false) as Hnan.
  { intros x Hx. apply Hom in Hx. exact (proj1 (Forall_forall _ _) (sk_nan _ Hok) _ Hx x eq_refl). }
  assert (offset_us r.1 ∈ omap id (buckets r.1) /\ Forall (fun x => fnlt x (offset_us r.1)) (omap id (buckets r.1))) as [O1 O2].
  { unfold offset_us. apply Hom in Hin. destruct (omap id (buckets r.1)) as [|x xs]; [by apply elem_of_nil in Hin|].
    apply fold_min; [apply Hnan, list_elem_of_here|]. apply Forall_forall. intros y Hy. by apply Hnan, list_elem_of_further. }
  split_and!.
  - by apply Hom.
  - intros x Hx. apply Hom in Hx. exact (proj1 (Forall_forall _ _) O2 _ Hx).
  - assert (fnlt v (offset_us r.1)) by (apply Hom in Hin; exact (proj1 (Forall_forall _ _) O2 _ Hin)).
    apply (fnlt_trans _ v); try done; [by apply Hnan, Hom|by apply Hnan].
  - done.
  - apply fmax_ge.
Qed.

Lemma offset_is_minimum_witness :
  let obs := [(of_int (-30), of_int 0); (of_int 200, of_int 40)] in
  let e := foldl (fun e o => (observe o.1 o.2 e).1) (new_skew (of_int 300) 10 (of_int 0)) obs in
  let r := observe (of_int 5) (of_int 70) e in
  fnlt r.2 zero /\ r.2 = of_int 35.
Proof.
  intros obs e r. split; [|by vm_compute].
  refine (proj2 (proj2 (proj2 (proj2 (offset_is_minimum (of_int 300) 10 (of_int 0) obs (of_int 5) (of_int 70) _ _ _))))).
  - apply Nat.ltb_lt. reflexivity.
  - apply (bool_decide_unpack _). by vm_compute.
  - reflexivity.
Defined.

(** After a silence longer than the window every slice is emptied, but the current slice's
    start moves by one window only: each of the following samples empties the window
    again, is its own offset and counts as no latency at all. *)
Example silence_blinds_samples :
  let e0 := (observe (of_int 100) (of_int 0) (new_skew (of_int 300) 10 (of_int 0))).1 in
  let '(e1, l1) := observe (of_int 40) (of_int 3600) e0 in
  let '(e2, l2) := observe (of_int 900) (of_int 3601) e1 in
  let '(e3, l3) := observe (of_int 70000) (of_int 3602) e2 in
  l1 = zero /\ l2 = zero /\ l3 = zero /\ offset_us e3 = of_int 70000.
Proof. by vm_compute. Qed.
End Clock.
