(* ===== verification/Writer.v ===== *)
(** * The writer and its transactional batches (src/src/mdfeed/services/writer.py and the
    batch part of src/src/mdfeed/storage/db.py)

    Frames become rows in the writer's buffers and ticks of its open bars; a flush moves
    them into a batch that is written in one transaction and kept for another try when
    the write fails.  A flush blocks in a worker thread, so its beginning (the buffers
    are swapped out) and its end (the transaction's outcome) are two steps, and frames
    are taken in between them. *)

From S2P Require Import Prelude PyStr PyFloat Dict Models Protocol Clock.

Module Writer.
Import Models.Models.

(** ** Rows and batches *)

Record TradeRow := mkTradeRow
  { tr_ts : Z; tr_venue : pystr; tr_symbol : pystr; tr_price : float; tr_qty : float; tr_side : Z;
    tr_recv : Z; tr_latency : Z; tr_seq : Z }.
Record BookRow := mkBookRow
  { bw_ts : Z; bw_venue : pystr; bw_symbol : pystr; bw_bid : float; bw_bid_qty : float; bw_ask : float;
    bw_ask_qty : float; bw_spread : float }.
Record SignalRow := mkSignalRow
  { sr_ts : Z; sr_venue : pystr; sr_symbol : pystr; sr_strategy : pystr; sr_action : Z; sr_strength : float; sr_price : float }.
Record BarRow := mkBarRow
  { ba_bucket : Z; ba_venue : pystr; ba_symbol : pystr; ba_open : float; ba_high : float; ba_low : float;
    ba_close : float; ba_volume : float; ba_notional : float; ba_vwap : float; ba_ticks : Z }.

Inductive Table := Trades | BookTops | Signals | Bars.
#[export] Instance table_eq_dec : EqDecision Table.
Proof. solve_decision. Defined.

(** [batch_id] is the number of the [uuid4] drawn: they never repeat. *)
Record StorageBatch := mkBatch
  { batch_id : nat; digest : pystr; b_trades : list TradeRow; b_books : list BookRow; b_signals : list SignalRow;
    b_bars : list BarRow }.
Definition rows_written (b : StorageBatch) : Z := zlen (b_trades b) + zlen (b_books b) + zlen (b_signals b).
Definition bars_written (b : StorageBatch) : Z := zlen (b_bars b).
Definition table_counts (b : StorageBatch) : list (Table * Z) :=
  [(Trades, zlen (b_trades b)); (BookTops, zlen (b_books b)); (Signals, zlen (b_signals b)); (Bars, zlen (b_bars b))].
(** [{name: count for name, count in batch.table_counts if count}] *)
Definition expected (b : StorageBatch) : list (Table * Z) := filter (fun tc => tc.2 <> 0) (table_counts b).

(** ** The database *)

Record Receipt := mkReceipt { rc_batch : nat; rc_table : Table; rc_digest : pystr; rc_count : Z }.
Record Latest := mkLatest { la_ts : Z; la_price : float; la_qty : float; la_side : Z; la_latency : Z }.

Record Db := mkDb
  { t_trades : list TradeRow; t_books : list BookRow; t_signals : list SignalRow;
    t_bars : gmap (pystr * pystr * Z) BarRow; t_latest : gmap (pystr * pystr) Latest; t_receipts : list Receipt }.
Definition new_db : Db := mkDb [] [] [] ∅ ∅ [].

(** [_latest_rows]: the newest trade of each instrument, the first of equals. *)
Definition newest_step (d : list (pystr * pystr * TradeRow)) (r : TradeRow) : list (pystr * pystr * TradeRow) :=
  let k := (tr_venue r, tr_symbol r) in
  match dget k d with
  | Some r' => if tr_ts r' <? tr_ts r then dset k r d else d
  | None => dset k r d
  end.
Definition latest_rows (ts : list TradeRow) : list TradeRow := (foldl newest_step [] ts).*2.

Definition latest_of (r : TradeRow) : Latest := mkLatest (tr_ts r) (tr_price r) (tr_qty r) (tr_side r) (tr_latency r).
(** [_LATEST_UPSERT]. *)
Definition upsert_latest (m : gmap (pystr * pystr) Latest) (r : TradeRow) : gmap (pystr * pystr) Latest :=
  let k := (tr_venue r, tr_symbol r) in
  match m !! k with
  | Some l => if la_ts l <=? tr_ts r then <[k := latest_of r]> m else m
  | None => <[k := latest_of r]> m
  end.

Definition bar_pk (r : BarRow) : pystr * pystr * Z := (ba_venue r, ba_symbol r, ba_bucket r).
(** A bar that is there already is added to. *)
Definition merge_bar (o r : BarRow) : BarRow :=
  mkBarRow (ba_bucket o) (ba_venue o) (ba_symbol o) (ba_open o) (fmax (ba_high o) (ba_high r)) (fmin (ba_low o) (ba_low r))
    (ba_close r) (fadd (ba_volume o) (ba_volume r)) (fadd (ba_notional o) (ba_notional r)) (ba_vwap r) (ba_ticks o + ba_ticks r).
Definition upsert_bar (m : gmap (pystr * pystr * Z) BarRow) (r : BarRow) : gmap (pystr * pystr * Z) BarRow :=
  <[bar_pk r := match m !! bar_pk r with Some o => merge_bar o r | None => r end]> m.
Definition upsert_bars (rows : list BarRow) (d : Db) : Db :=
  mkDb (t_trades d) (t_books d) (t_signals d) (foldl upsert_bar (t_bars d) rows) (t_latest d) (t_receipts d).

Definition write_receipts (b : StorageBatch) : list Receipt :=
  (fun tc => mkReceipt (batch_id b) tc.1 (digest b) tc.2) <$> expected b.

Inductive StorageError := SqlError | PartialReceipt | ConflictingReceipt.

(** The transaction's statements.  SQLite stores a NaN as NULL, which the NOT NULL columns
    refuse: a batch with one there is a batch that is rolled back.  PostgreSQL stores it;
    its GREATEST takes a NaN for the largest number, where [fmax] keeps the old value, so
    bars with a NaN are merged otherwise there. *)
Definition apply_batch (b : StorageBatch) (d : Db) : Db :=
  mkDb (t_trades d ++ b_trades b) (t_books d ++ b_books b) (t_signals d ++ b_signals b)
    (foldl upsert_bar (t_bars d) (b_bars b)) (foldl upsert_latest (t_latest d) (latest_rows (b_trades b)))
    (t_receipts d ++ write_receipts b).

Definition receipts_of (i : nat) (d : Db) : list Receipt := filter (fun r => rc_batch r = i) (t_receipts d).

Definition batch_already_committed (b : StorageBatch) (d : Db) : result StorageError bool :=
  match expected b, receipts_of (batch_id b) d with
  | [], _ => Ok false
  | _, [] => Ok false
  | es, rs =>
      if bool_decide (Forall (fun r => rc_table r ∈ es.*1) rs /\ Forall (fun e => e.1 ∈ rc_table <$> rs) es) then
        if bool_decide (Forall (fun e => Exists (fun r => rc_table r = e.1 /\ rc_digest r = digest b /\ rc_count r = e.2) rs) es)
        then Ok true else Err ConflictingReceipt
      else Err PartialReceipt
  end.

(** What becomes of the transaction: it commits, it is rolled back, or it commits and the
    answer is lost. *)
Inductive Outcome := Committed | RolledBack | AnswerLost.

Definition write_batch (b : StorageBatch) (o : Outcome) (d : Db) : Db * result StorageError (Z * Z) :=
  match b_trades b, b_books b, b_signals b, b_bars b with
  | [], [], [], [] => (d, Ok (0, 0))
  | _, _, _, _ =>
      match batch_already_committed b d with
      | Err e => (d, Err e)
      | Ok true => (d, Ok (rows_written b, bars_written b))
      | Ok false =>
          match o with
          | Committed => (apply_batch b d, Ok (rows_written b, bars_written b))
          | RolledBack => (d, Err SqlError)
          | AnswerLost => (apply_batch b d, Err SqlError)
          end
      end
  end.

(** ** The writer *)

Record Config := mkConfig { bar_interval_s : Z; writer_pending_max_rows : Z }.

Abbreviation BarKey := (pystr * pystr * Z)%type (only parsing).

Record Writer := mkWriter
  { w_trades : list TradeRow; w_books : list BookRow; w_signals : list SignalRow; w_bars : list (BarKey * Bar);
    retry_batch : option StorageBatch; last_book_at : gmap pystr float; seqtracks : gmap pystr Protocol.SequenceTracker;
    clock : Clock.ClockMonitor; frames_in : Z; gap_messages : Z; dropped_rows : Z; db_errors : Z;
    total_rows : Z; total_bars : Z;
    uuids : nat;                                  (** identifiers drawn so far *)
    in_flight : option (list BarKey) }.           (** a flush is in its thread, with the bars it closes *)
Definition new_writer : Writer :=
  mkWriter [] [] [] [] None ∅ ∅ (Clock.new_monitor (of_int 300)) 0 0 0 0 0 0 0 None.

(** The buffers and what is counted, set apart. *)
Definition set_rows ts bs ss bars (w : Writer) : Writer :=
  mkWriter ts bs ss bars (retry_batch w) (last_book_at w) (seqtracks w) (clock w) (frames_in w) (gap_messages w)
    (dropped_rows w) (db_errors w) (total_rows w) (total_bars w) (uuids w) (in_flight w).
Definition count_frame (lost : Z) (tr : gmap pystr Protocol.SequenceTracker) (w : Writer) : Writer :=
  mkWriter (w_trades w) (w_books w) (w_signals w) (w_bars w) (retry_batch w) (last_book_at w) tr (clock w)
    (frames_in w + 1) (gap_messages w + lost) (dropped_rows w) (db_errors w) (total_rows w) (total_bars w) (uuids w) (in_flight w).
Definition count_drop (w : Writer) : Writer :=
  mkWriter (w_trades w) (w_books w) (w_signals w) (w_bars w) (retry_batch w) (last_book_at w) (seqtracks w) (clock w)
    (frames_in w) (gap_messages w) (dropped_rows w + 1) (db_errors w) (total_rows w) (total_bars w) (uuids w) (in_flight w).
Definition set_clock c (w : Writer) : Writer :=
  mkWriter (w_trades w) (w_books w) (w_signals w) (w_bars w) (retry_batch w) (last_book_at w) (seqtracks w) c
    (frames_in w) (gap_messages w) (dropped_rows w) (db_errors w) (total_rows w) (total_bars w) (uuids w) (in_flight w).
Definition set_book_at m (w : Writer) : Writer :=
  mkWriter (w_trades w) (w_books w) (w_signals w) (w_bars w) (retry_batch w) m (seqtracks w) (clock w)
    (frames_in w) (gap_messages w) (dropped_rows w) (db_errors w) (total_rows w) (total_bars w) (uuids w) (in_flight w).

Definition pending_row_count (w : Writer) : Z :=
  match retry_batch w with Some b => rows_written b + bars_written b | None => 0 end
  + zlen (w_trades w) + zlen (w_books w) + zlen (w_signals w).

Section writer.
Variable cfg : Config.
(** The digest of the rows' JSON text; it is compared with a stored one only. *)
Variable digest_of : list TradeRow -> list BookRow -> list SignalRow -> list BarRow -> pystr.

Definition iv_ns : Z := bar_interval_s cfg * 1000000000.
Definition bar_key (t : Trade) : BarKey := (venue t, symbol t, ts_event_ns t / iv_ns * iv_ns).

Definition accumulate_bar (t : Trade) (bars : list (BarKey * Bar)) : list (BarKey * Bar) :=
  let k := bar_key t in
  let bar := match dget k bars with Some b => b | None => new_bar (venue t) (symbol t) k.2 (bar_interval_s cfg) end in
  dset k (update bar t) bars.

Definition ingest_trade (t : Trade) (seq : Z) (now : float) (w : Writer) : Writer :=
  let '(c, lat) := Clock.monitor_observe (venue t) (latency_us t) now (clock w) in
  let row := mkTradeRow (ts_event_ns t / 1000) (venue t) (symbol t) (price t) (qty t) (side t)
               (ts_recv_ns t / 1000) (Clock.ftrunc lat) seq in
  set_rows (w_trades w ++ [row]) (w_books w) (w_signals w) (accumulate_bar t (w_bars w)) (set_clock c w).

(** [BOOK_SAMPLE_S]: one quote per instrument and second. *)
Definition ingest_book (b : BookTop) (now : float) (w : Writer) : Writer :=
  let key := bk_venue b ++ lit ":" ++ bk_symbol b in
  if flt (fsub now (default Clock.zero (last_book_at w !! key))) (of_int 1) then w
  else
    let row := mkBookRow (bk_ts_event_ns b / 1000) (bk_venue b) (bk_symbol b) (bid b) (bid_qty b) (ask b) (ask_qty b) (spread_bp b) in
    set_rows (w_trades w) (w_books w ++ [row]) (w_signals w) (w_bars w) (set_book_at (<[key := now]> (last_book_at w)) w).

Definition ingest_signal (s : Signal) (w : Writer) : Writer :=
  let row := mkSignalRow (ts_ns s / 1000) (sg_venue s) (sg_symbol s) (strategy s) (action s) (strength s) (ref_price s) in
  set_rows (w_trades w) (w_books w) (w_signals w ++ [row]) (w_bars w) w.

Definition ingest (f : Protocol.Frame) (source : pystr) (now : float) (w : Writer) : Writer :=
  let tracker := default Protocol.new_tracker (seqtracks w !! source) in
  let '(tracker, lost) := Protocol.observe tracker (Protocol.seq f) in
  let w := count_frame lost (<[source := tracker]> (seqtracks w)) w in
  if writer_pending_max_rows cfg <=? pending_row_count w then count_drop w
  else if (Protocol.msg_type f =? MSG_TRADE) && (TRADE_SIZE <=? length (Protocol.payload f))%nat then
    match unpack (Protocol.payload f) with Ok t => ingest_trade t (Protocol.seq f) now w | Err _ => w end
  else if (Protocol.msg_type f =? MSG_BOOK) && (BOOK_SIZE <=? length (Protocol.payload f))%nat then
    match book_unpack (Protocol.payload f) with Ok b => ingest_book b now w | Err _ => w end
  else if (Protocol.msg_type f =? MSG_SIGNAL) && (SIGNAL_SIZE <=? length (Protocol.payload f))%nat then
    match signal_unpack (Protocol.payload f) with Ok s => ingest_signal s w | Err _ => w end
  else w.

Definition bar_row (b : Bar) : BarRow :=
  mkBarRow (bucket_ns b / 1000) (br_venue b) (br_symbol b) (open b) (high b) (low b) (close b) (volume b) (br_notional b)
    (vwap b) (tick_count b).

Definition nothing_to_flush (w : Writer) : bool :=
  match retry_batch w, w_trades w, w_books w, w_signals w, w_bars w with None, [], [], [], [] => true | _, _, _, _, _ => false end.

Definition make_storage_batch (i : nat) ts bs ss bars : StorageBatch := mkBatch i (digest_of ts bs ss bars) ts bs ss bars.

(** The bars whose bucket is over at [now]. *)
Definition done_keys (now : Z) (w : Writer) : list BarKey :=
  filter (fun k => k.2 < now / iv_ns * iv_ns) (w_bars w).*1.

(** A flush enters its thread and gets the lock. *)
Definition flush_begin (now : Z) (w : Writer) : Writer :=
  if nothing_to_flush w then w
  else
    match in_flight w with
    | Some _ => w                               (* waits for the lock *)
    | None =>
        let '(ts, bs, ss, retry, uu, done) :=
          match retry_batch w with
          | Some b => (w_trades w, w_books w, w_signals w, b, uuids w, [])
          | None =>
              let done := done_keys now w in
              let rows := bar_row <$> omap (fun k => dget k (w_bars w)) done in
              ([], [], [], make_storage_batch (uuids w) (w_trades w) (w_books w) (w_signals w) rows, S (uuids w), done)
          end in
        mkWriter ts bs ss (w_bars w) (Some retry) (last_book_at w) (seqtracks w) (clock w) (frames_in w) (gap_messages w)
          (dropped_rows w) (db_errors w) (total_rows w) (total_bars w) uu (Some done)
    end.

Definition drop_bars (done : list BarKey) (bars : list (BarKey * Bar)) : list (BarKey * Bar) := foldl (fun d k => ddel k d) bars done.

(** What the flush makes of the answer; [closed] are the bars it closed. *)
Definition finish_flush {E} (closed : list BarKey) (b : StorageBatch) (r : result E (Z * Z)) (w : Writer) : Writer :=
  match r with
  | Ok (n, nb) =>
      mkWriter (w_trades w) (w_books w) (w_signals w) (drop_bars closed (w_bars w)) None (last_book_at w) (seqtracks w)
        (clock w) (frames_in w) (gap_messages w) (dropped_rows w) (db_errors w) (total_rows w + n) (total_bars w + nb)
        (uuids w) None
  | Err _ =>
      mkWriter (w_trades w) (w_books w) (w_signals w) (w_bars w) (Some b) (last_book_at w) (seqtracks w)
        (clock w) (frames_in w) (gap_messages w) (dropped_rows w) (db_errors w + 1) (total_rows w) (total_bars w)
        (uuids w) None
  end.

(** The transaction is over, and the flush leaves its thread. *)
Definition flush_end (o : Outcome) (w : Writer) (d : Db) : Writer * Db :=
  match in_flight w, retry_batch w with
  | Some closed, Some b => let '(d, r) := write_batch b o d in (finish_flush closed b r w, d)
  | _, _ => (w, d)
  end.

(** At the end of the process, after the last flush: every open bar is written as it is. *)
Definition final_bars (w : Writer) (d : Db) : Db := upsert_bars (bar_row <$> (w_bars w).*2) d.

Inductive Event := Ingest (f : Protocol.Frame) (source : pystr) (now : float) | FlushBegin (now : Z) | FlushEnd (o : Outcome).

Definition step (s : Writer * Db) (ev : Event) : Writer * Db :=
  match ev with
  | Ingest f src now => (ingest f src now s.1, s.2)
  | FlushBegin now => (flush_begin now s.1, s.2)
  | FlushEnd o => flush_end o s.1 s.2
  end.
Definition run (evs : list Event) : Writer * Db := foldl step (new_writer, new_db) evs.
End writer.

(** ** Rows of the three kinds together *)

Record Rows := mkRows { r_trades : list TradeRow; r_books : list BookRow; r_signals : list SignalRow }.
Definition rapp (a b : Rows) : Rows := mkRows (r_trades a ++ r_trades b) (r_books a ++ r_books b) (r_signals a ++ r_signals b).
Definition rnil : Rows := mkRows [] [] [].
Definition rcount (a : Rows) : Z := zlen (r_trades a) + zlen (r_books a) + zlen (r_signals a).

Lemma rapp_assoc a b c : rapp a (rapp b c) = rapp (rapp a b) c.
Proof. unfold rapp. cbn. by rewrite !app_assoc. Qed.
Lemma rapp_nil_l a : rapp rnil a = a.
Proof. by destruct a. Qed.
Lemma rapp_nil_r a : rapp a rnil = a.
Proof. unfold rapp. cbn. rewrite !app_nil_r. by destruct a. Qed.

Definition batch_rows (b : StorageBatch) : Rows := mkRows (b_trades b) (b_books b) (b_signals b).
Definition db_rows (d : Db) : Rows := mkRows (t_trades d) (t_books d) (t_signals d).
Definition w_rows (w : Writer) : Rows := mkRows (w_trades w) (w_books w) (w_signals w).

(** The rows waiting in a batch that is not known to be written, and is not. *)
Definition retry_rows (w : Writer) (d : Db) : Rows :=
  match retry_batch w with
  | Some b => if bool_decide (receipts_of (batch_id b) d = []) then batch_rows b else rnil
  | None => rnil
  end.

(** Every row: in the database, in the batch being tried, or in the buffers. *)
Definition all_rows (s : Writer * Db) : Rows := rapp (db_rows s.2) (rapp (retry_rows s.1 s.2) (w_rows s.1)).

(** What a frame adds to the buffers. *)
Definition added (w w' : Writer) : Rows :=
  mkRows (drop (length (w_trades w)) (w_trades w')) (drop (length (w_books w)) (w_books w'))
    (drop (length (w_signals w)) (w_signals w')).

(** The receipts of a batch, once written, are its own. *)
Definition receipts_ok (b : StorageBatch) (d : Db) : Prop :=
  receipts_of (batch_id b) d = [] \/ receipts_of (batch_id b) d = write_receipts b.

Lemma expected_nil b : expected b = [] -> b_trades b = [] /\ b_books b = [] /\ b_signals b = [] /\ b_bars b = [].
Proof.
  unfold expected, table_counts. rewrite !filter_cons, filter_nil. cbn [snd].
  destruct (b_trades b), (b_books b), (b_signals b), (b_bars b); cbn [length];
    repeat (destruct (decide _); [by intros|]); try (intros _; split_and!; done); cbn in *; try lia; done.
Qed.

Lemma write_receipts_mine b d : receipts_of (batch_id b) (apply_batch b d) = receipts_of (batch_id b) d ++ write_receipts b.
Proof.
  unfold receipts_of, apply_batch. cbn [t_receipts]. rewrite filter_app. f_equal.
  unfold write_receipts. induction (expected b) as [|e es IH]; [done|]. cbn [fmap list_fmap].
  rewrite filter_cons_True by done. by rewrite IH.
Qed.

Lemma write_receipts_other b d i : i <> batch_id b -> receipts_of i (apply_batch b d) = receipts_of i d.
Proof.
  intros Hi. unfold receipts_of, apply_batch. cbn [t_receipts]. rewrite filter_app.
  replace (filter _ (write_receipts b)) with (@nil Receipt); [apply app_nil_r|].
  unfold write_receipts. induction (expected b) as [|e es IH]; [done|]. cbn [fmap list_fmap].
  rewrite filter_cons_False by (cbn; congruence). done.
Qed.

Lemma already_spec b d : receipts_ok b d ->
  batch_already_committed b d = Ok (negb (bool_decide (receipts_of (batch_id b) d = []))).
Proof.
  intros H. unfold batch_already_committed. destruct (expected b) as [|e0 es] eqn:Ee.
  - destruct H as [-> | ->]; [done|]. unfold write_receipts. by rewrite Ee.
  - rewrite <- Ee. destruct H as [-> | H]; [done|]. rewrite H.
    assert (write_receipts b <> []) as Hne by (unfold write_receipts; by rewrite Ee).
    destruct (write_receipts b) as [|r0 rs] eqn:Er; [done|]. rewrite (bool_decide_false (r0 :: rs = [])) by done.
    rewrite <- Er, !bool_decide_true; [done| |].
    + apply Forall_forall. intros e He. apply Exists_exists. exists (mkReceipt (batch_id b) e.1 (digest b) e.2).
      split; [|done]. unfold write_receipts. apply list_elem_of_fmap. by exists e.
    + unfold write_receipts. split; apply Forall_forall.
      * intros r Hr. apply list_elem_of_fmap in Hr as (e & -> & He). apply list_elem_of_fmap. by exists e.
      * intros e He. rewrite <- list_fmap_compose. apply list_elem_of_fmap. by exists e.
Qed.

(** The three ways a batch that may have been written before can come out. *)
Lemma write_batch_spec b o d : receipts_ok b d ->
  let fresh := bool_decide (receipts_of (batch_id b) d = []) in
  (write_batch b o d = (apply_batch b d, Err SqlError) /\ o = AnswerLost /\ fresh = true /\ expected b <> []) \/
  (write_batch b o d = (d, Err SqlError) /\ o = RolledBack /\ fresh = true) \/
  write_batch b o d = (if fresh && negb (bool_decide (expected b = [])) then apply_batch b d else d, Ok (rows_written b, bars_written b)).
Proof.
  intros H fresh. unfold write_batch. rewrite (already_spec b d H). fold fresh. destruct (decide (expected b = [])) as [E|E].
  - right. right. rewrite (bool_decide_true _ E), andb_false_r. destruct (expected_nil b E) as (E1 & E2 & E3 & E4).
    unfold rows_written, bars_written. by rewrite E1, E2, E3, E4.
  - rewrite (bool_decide_false _ E), andb_true_r. assert (b_trades b <> [] \/ b_books b <> [] \/ b_signals b <> [] \/ b_bars b <> []) as Hne.
    { destruct (b_trades b) eqn:E1; [|by left]. destruct (b_books b) eqn:E2; [|by right; left].
      destruct (b_signals b) eqn:E3; [|by right; right; left]. destruct (b_bars b) eqn:E4; [|by right; right; right].
      exfalso. apply E. unfold expected, table_counts. by rewrite E1, E2, E3, E4. }
    assert (forall A (x y : A), match b_trades b, b_books b, b_signals b, b_bars b with [], [], [], [] => x | _, _, _, _ => y end = y) as Hm.
    { intros A x y. destruct (b_trades b), (b_books b), (b_signals b), (b_bars b); try done.
      by destruct Hne as [?|[?|[?|?]]]. }
    rewrite Hm. destruct fresh; cbn [negb]; [|by right; right]. destruct o.
    + by right; right.
    + by right; left.
    + by left.
Qed.

(** ** Every row exactly once *)

Section once.
Variable cfg : Config.
Variable digest_of : list TradeRow -> list BookRow -> list SignalRow -> list BarRow -> pystr.
Abbreviation step := (step cfg digest_of).

Record wr_inv (s : Writer * Db) : Prop := mkInv
  { wi_ids : Forall (fun r => (rc_batch r < uuids s.1)%nat) (t_receipts s.2);
    wi_retry : forall b, retry_batch s.1 = Some b -> (batch_id b < uuids s.1)%nat /\ receipts_ok b s.2;
    wi_flight : in_flight s.1 <> None -> retry_batch s.1 <> None }.

Definition same_core (w w' : Writer) : Prop :=
  retry_batch w' = retry_batch w /\ uuids w' = uuids w /\ in_flight w' = in_flight w.

Lemma added_spec w w' x : w_rows w' = rapp (w_rows w) x -> added w w' = x.
Proof.
  intros [= E1 E2 E3]. unfold added. rewrite E1, E2, E3, !drop_app_length. by destruct x.
Qed.

(** A frame adds at most one row, and leaves the batch alone. *)
Lemma ingest_spec f src now w : exists x, w_rows (ingest cfg f src now w) = rapp (w_rows w) x /\ rcount x <= 1 /\
  same_core w (ingest cfg f src now w).
Proof.
  assert (forall w', w_rows w' = w_rows w -> same_core w w' -> exists x, w_rows w' = rapp (w_rows w) x /\ rcount x <= 1 /\ same_core w w') as Hno.
  { intros w' E H. exists rnil. split; [by rewrite rapp_nil_r|]. split; [unfold rcount; cbn; lia|done]. }
  unfold ingest. destruct (Protocol.observe _ _) as [tr lost]. cbn zeta. set (w1 := count_frame _ _ w).
  destruct (_ <=? _); [by apply Hno|]. destruct (_ && _).
  { destruct (unpack _) as [t|]; [|by apply Hno]. unfold ingest_trade.
    destruct (Clock.monitor_observe _ _ _ _) as [c lat].
    eexists (mkRows [_] [] []). split; [unfold w_rows, rapp; cbn; by rewrite !app_nil_r|]. split; [unfold rcount; cbn; lia|done]. }
  destruct (_ && _).
  { destruct (book_unpack _) as [b|]; [|by apply Hno]. unfold ingest_book. destruct (flt _ _); [by apply Hno|].
    eexists (mkRows [] [_] []). split; [unfold w_rows, rapp; cbn; by rewrite !app_nil_r|]. split; [unfold rcount; cbn; lia|done]. }
  destruct (_ && _); [|by apply Hno]. destruct (signal_unpack _) as [g|]; [|by apply Hno].
  eexists (mkRows [] [] [_]). split; [unfold w_rows, rapp; cbn; by rewrite !app_nil_r|]. split; [unfold rcount; cbn; lia|done].
Qed.

(** With full buffers a frame is counted as dropped, and nothing else. *)
Lemma full_drops f src now w : writer_pending_max_rows cfg <= pending_row_count w ->
  w_rows (ingest cfg f src now w) = w_rows w /\ dropped_rows (ingest cfg f src now w) = dropped_rows w + 1.
Proof.
  intros Hfull. unfold ingest. destruct (Protocol.observe _ _) as [tr lost]. cbn zeta.
  change (pending_row_count (count_frame _ _ _)) with (pending_row_count w). by rewrite (proj2 (Z.leb_le _ _) Hfull).
Qed.

Lemma ingest_total f src now w : total_rows (ingest cfg f src now w) = total_rows w.
Proof.
  unfold ingest. destruct (Protocol.observe _ _) as [tr lost]. cbn zeta. destruct (_ <=? _); [done|].
  destruct (_ && _); [destruct (unpack _); [unfold ingest_trade; by destruct (Clock.monitor_observe _ _ _ _)|done]|].
  destruct (_ && _); [destruct (book_unpack _); [unfold ingest_book; by destruct (flt _ _)|done]|].
  destruct (_ && _); [by destruct (signal_unpack _)|done].
Qed.

Lemma receipts_fresh s i : wr_inv s -> (uuids s.1 <= i)%nat -> receipts_of i s.2 = [].
Proof.
  intros H Hi. unfold receipts_of. pose proof (wi_ids _ H) as Hf. induction Hf as [|r rs Hr _ IH]; [done|].
  rewrite filter_cons_False by lia. exact IH.
Qed.

(** The rows an event brings. *)
Definition brings (s : Writer * Db) (ev : Event) : Rows :=
  match ev with Ingest _ _ _ => added s.1 (step s ev).1 | _ => rnil end.

Lemma all_rows_same w w' d : retry_batch w' = retry_batch w -> forall x, w_rows w' = rapp (w_rows w) x ->
  all_rows (w', d) = rapp (all_rows (w, d)) x.
Proof. intros E x Hx. unfold all_rows, retry_rows. cbn [fst snd]. rewrite E, Hx. by rewrite !rapp_assoc. Qed.

Lemma db_rows_apply b d : db_rows (apply_batch b d) = rapp (db_rows d) (batch_rows b).
Proof. done. Qed.

Lemma write_receipts_nil b : write_receipts b = [] -> expected b = [].
Proof. unfold write_receipts. by intros ?%fmap_nil_inv. Qed.

Lemma flush_begin_step now s : wr_inv s -> wr_inv (flush_begin cfg digest_of now s.1, s.2) /\
  all_rows (flush_begin cfg digest_of now s.1, s.2) = all_rows s.
Proof.
  intros H. destruct s as [w d]. cbn [fst snd]. unfold flush_begin.
  destruct (nothing_to_flush w); [done|]. destruct (in_flight w); [done|]. pose proof H as [I1 I2 I3]. cbn [fst snd] in *.
  destruct (retry_batch w) as [b|] eqn:Er.
  - split; [split; cbn [fst snd uuids retry_batch in_flight]; [done|by intros b' [= <-]; apply I2|done]|].
    unfold all_rows, retry_rows, w_rows. cbn [fst snd retry_batch w_trades w_books w_signals]. by rewrite Er.
  - pose proof (receipts_fresh _ (uuids w) H (le_n _)) as Hfresh. cbn [snd] in Hfresh.
    split; [split; cbn [fst snd uuids retry_batch in_flight]|].
    + apply (Forall_impl _ _ _ I1). lia.
    + intros b' [= <-]. split; [cbn; lia|]. by left.
    + done.
    + unfold all_rows, retry_rows. cbn [fst snd retry_batch make_storage_batch batch_id]. rewrite Er, Hfresh.
      rewrite bool_decide_true, rapp_nil_l by done. f_equal. apply rapp_nil_r.
Qed.

(** What was applied moves from the batch to the database. *)
Lemma applied_rows b d x : rapp (db_rows (apply_batch b d)) x = rapp (db_rows d) (rapp (batch_rows b) x).
Proof. by rewrite db_rows_apply, <- rapp_assoc. Qed.

Lemma applied_ok b d : receipts_of (batch_id b) d = [] -> receipts_ok b (apply_batch b d).
Proof. intros E. right. by rewrite write_receipts_mine, E. Qed.

Lemma applied_receipts b d : expected b <> [] -> receipts_of (batch_id b) (apply_batch b d) <> [].
Proof. rewrite write_receipts_mine. by intros H [_ E%write_receipts_nil]%app_eq_nil. Qed.

(** The kept batch's transaction comes in by itself. *)
Lemma applied_step b w d : wr_inv (w, d) -> retry_batch w = Some b -> receipts_of (batch_id b) d = [] -> expected b <> [] ->
  wr_inv (w, apply_batch b d) /\ all_rows (w, apply_batch b d) = all_rows (w, d).
Proof.
  intros [I1 I2 I3] Er Hn He. cbn [fst snd] in *. destruct (I2 b Er) as [Hid _]. split.
  - split; cbn [fst snd]; [|intros b' Eb; rewrite Er in Eb; injection Eb as <-; split; [done|by apply applied_ok]|done].
    cbn. apply Forall_app. split; [done|]. unfold write_receipts. apply Forall_fmap, Forall_forall. by intros e _.
  - unfold all_rows, retry_rows. cbn [fst snd]. rewrite Er.
    rewrite (bool_decide_true _ Hn), (bool_decide_false _ (applied_receipts b d He)), rapp_nil_l. apply applied_rows.
Qed.

(** The batch being written is there once, whether its transaction was applied or not:
    its rows leave the writer when, and only when, they are known to be stored. *)
Lemma finish_step {E} closed b (r : result E (Z * Z)) w d d' :
  wr_inv (w, d) -> retry_batch w = Some b ->
  d' = d \/ (receipts_of (batch_id b) d = [] /\ expected b <> [] /\ d' = apply_batch b d) ->
  (forall c, r = Ok c -> receipts_of (batch_id b) d' <> [] \/ expected b = []) ->
  wr_inv (finish_flush closed b r w, d') /\ all_rows (finish_flush closed b r w, d') = all_rows (w, d).
Proof.
  intros H Er Hd Hr. assert (wr_inv (w, d') /\ all_rows (w, d') = all_rows (w, d)) as [[Hids Hok _] Hrows].
  { destruct Hd as [->|(Hn & He & ->)]; [done|]. by apply applied_step. }
  destruct (Hok b Er) as [Hid Hok']. cbn [fst snd] in *. unfold all_rows at 1, retry_rows in Hrows. cbn [fst snd] in Hrows.
  rewrite Er in Hrows.
  rewrite <- Hrows. destruct r as [[n nb]|e].
  - split; [by split|]. unfold all_rows, retry_rows. cbn [finish_flush fst snd retry_batch]. rewrite rapp_nil_l.
    change (w_rows (mkWriter _ _ _ _ _ _ _ _ _ _ _ _ _ _ _ _)) with (w_rows w).
    destruct (Hr _ eq_refl) as [Hne|He]; [by rewrite (bool_decide_false _ Hne), rapp_nil_l|].
    destruct (expected_nil b He) as (E1 & E2 & E3 & _). unfold batch_rows. rewrite E1, E2, E3.
    change (mkRows [] [] []) with rnil. by destruct (bool_decide _); rewrite rapp_nil_l.
  - split; [|done]. split; cbn [fst snd finish_flush uuids retry_batch in_flight]; [done| |done]. by intros b' [= <-].
Qed.

Lemma flush_end_step o s : wr_inv s -> wr_inv (flush_end o s.1 s.2) /\ all_rows (flush_end o s.1 s.2) = all_rows s.
Proof.
  intros H. destruct s as [w d]. cbn [fst snd]. unfold flush_end. destruct (in_flight w) as [closed|]; [|done].
  destruct (retry_batch w) as [b|] eqn:Er; [|done]. destruct (wi_retry _ H b Er) as [_ Hok]. cbn [snd] in Hok.
  destruct (write_batch_spec b o d Hok) as [(-> & _ & F & Ne)|[(-> & _ & F)| ->]].
  - apply bool_decide_eq_true in F. apply finish_step; auto.
  - apply finish_step; auto.
  - destruct (decide (expected b = [])) as [Ee|Ee].
    + rewrite (bool_decide_true _ Ee), andb_false_r. apply finish_step; auto.
    + rewrite (bool_decide_false _ Ee), andb_true_r. case_bool_decide as F; apply finish_step; auto.
      intros c _. left. by apply applied_receipts.
Qed.

Lemma step_inv s ev : wr_inv s -> wr_inv (step s ev) /\ all_rows (step s ev) = rapp (all_rows s) (brings s ev).
Proof.
  intros H. destruct ev as [f src now|now|o]; unfold brings; [|rewrite rapp_nil_r; by apply flush_begin_step|rewrite rapp_nil_r; by apply flush_end_step].
  cbn [step fst]. destruct (ingest_spec f src now s.1) as (x & Hx & _ & S1 & S2 & S3). split.
  - destruct H as [I1 I2 I3]. split; cbn [Writer.step fst snd]; rewrite ?S1, ?S2, ?S3; done.
  - cbn [Writer.step fst]. rewrite (added_spec _ _ _ Hx). destruct s as [w d]. by apply all_rows_same.
Qed.

Fixpoint intake (s : Writer * Db) (evs : list Event) : Rows :=
  match evs with [] => rnil | ev :: evs => rapp (brings s ev) (intake (step s ev) evs) end.

Lemma run_inv evs : forall s, wr_inv s -> wr_inv (foldl step s evs) /\
  all_rows (foldl step s evs) = rapp (all_rows s) (intake s evs).
Proof.
  induction evs as [|ev evs IH]; intros s Hs; cbn [foldl intake]; [by rewrite rapp_nil_r|].
  destruct (step_inv s ev Hs) as [H1 H2]. destruct (IH _ H1) as [H3 H4]. split; [done|]. by rewrite H4, H2, rapp_assoc.
Qed.

Lemma new_inv : wr_inv (new_writer, new_db).
Proof. split; cbn; [constructor|done|done]. Qed.

(** Whatever writes fail, are rolled back or commit without an answer, and however
    frames arrive while a batch is being written, every row taken in is exactly once, and
    in order, either in the database, or in the batch kept for another try, or in the
    buffers; a kept batch is never refused for its receipts; each frame gives at most one
    row, and none exactly counts as dropped when the buffers are full. *)
Theorem rows_exactly_once evs :
  let s := run cfg digest_of evs in
  all_rows s = intake (new_writer, new_db) evs /\
  (forall b o, retry_batch s.1 = Some b ->
     (write_batch b o s.2).2 <> Err PartialReceipt /\ (write_batch b o s.2).2 <> Err ConflictingReceipt) /\
  (forall f src now, rcount (added s.1 (ingest cfg f src now s.1)) <= 1) /\
  (forall f src now, writer_pending_max_rows cfg <= pending_row_count s.1 ->
     w_rows (ingest cfg f src now s.1) = w_rows s.1 /\ dropped_rows (ingest cfg f src now s.1) = dropped_rows s.1 + 1).
Proof.
  intros s. destruct (run_inv evs _ new_inv) as [H1 H2]. fold s in H1, H2. split; [|split; [|split]].
  - unfold s, run. etransitivity; [exact H2|]. apply rapp_nil_l.
  - intros b o Hb. destruct (wi_retry _ H1 b Hb) as [_ Hok].
    by destruct (write_batch_spec b o s.2 Hok) as [(-> & _)|[(-> & _)| ->]].
  - intros f src now. destruct (ingest_spec f src now s.1) as (x & Hx & Hc & _). by rewrite (added_spec _ _ _ Hx).
  - intros f src now Hfull. by apply full_drops.
Qed.
End once.

(** ** Ticks of the bars *)

Definition ticks_at (m : gmap (pystr * pystr * Z) BarRow) (p : pystr * pystr * Z) : Z :=
  match m !! p with Some r => ba_ticks r | None => 0 end.

Fixpoint sum_ticks (p : pystr * pystr * Z) (rows : list BarRow) : Z :=
  match rows with [] => 0 | r :: rows => (if bool_decide (bar_pk r = p) then ba_ticks r else 0) + sum_ticks p rows end.

Lemma upsert_ticks rows p : forall m, ticks_at (foldl upsert_bar m rows) p = ticks_at m p + sum_ticks p rows.
Proof.
  induction rows as [|r rows IH]; intros m; cbn [foldl sum_ticks]; [lia|]. rewrite IH. unfold ticks_at, upsert_bar.
  case_bool_decide as E.
  - subst p. rewrite lookup_insert_eq. destruct (m !! bar_pk r); [cbn [merge_bar ba_ticks]|]; lia.
  - rewrite lookup_insert_ne by done. lia.
Qed.

Section bars.
Variable cfg : Config.
Variable digest_of : list TradeRow -> list BookRow -> list SignalRow -> list BarRow -> pystr.
Hypothesis interval_pos : 0 < bar_interval_s cfg.
#[local] Set Default Proof Using "All".
Abbreviation step := (step cfg digest_of).
Abbreviation iv := (iv_ns cfg).

(** The bar a stored trade belongs to. *)
Definition row_key (r : TradeRow) : BarKey := (tr_venue r, tr_symbol r, tr_ts r * 1000 / iv * iv).
Definition aligned (k : BarKey) : Prop := k.2 = k.2 / iv * iv.
(** The key of the bar in the table, whose buckets are in microseconds. *)
Definition table_key (k : BarKey) : pystr * pystr * Z := (k.1, k.2 / 1000).

Definition open_ticks (k : BarKey) (bars : list (BarKey * Bar)) : Z :=
  match dget k bars with Some b => tick_count b | None => 0 end.
Definition row_count (k : BarKey) (rs : list TradeRow) : Z := zlen (filter (fun r => row_key r = k) rs).

Lemma row_count_app k rs rs' : row_count k (rs ++ rs') = row_count k rs + row_count k rs'.
Proof. unfold row_count. rewrite filter_app, length_app. lia. Qed.

Lemma row_count_one k r : row_count k [r] = if bool_decide (row_key r = k) then 1 else 0.
Proof. unfold row_count. rewrite filter_cons, filter_nil. by case_decide; case_bool_decide. Qed.

Lemma iv_thousands : iv = bar_interval_s cfg * 1000000 * 1000.
Proof. unfold iv_ns. lia. Qed.

Lemma bucket_of_us ts : ts / 1000 * 1000 / iv * iv = ts / iv * iv.
Proof.
  rewrite iv_thousands. rewrite Z.div_mul_cancel_r by lia. rewrite Z.div_div by lia.
  by rewrite (Z.mul_comm 1000 (bar_interval_s cfg * 1000000)).
Qed.

Lemma bar_key_aligned t : aligned (bar_key cfg t).
Proof. unfold aligned, bar_key. cbn [snd]. rewrite Z.div_mul; [done|]. unfold iv_ns. lia. Qed.

Lemma aligned_thousands k : aligned k -> k.2 / 1000 * 1000 = k.2.
Proof.
  unfold aligned. rewrite iv_thousands, Z.mul_assoc. intros ->. by rewrite Z.div_mul by lia.
Qed.

Lemma table_key_inj k k' : aligned k -> aligned k' -> table_key k = table_key k' -> k = k'.
Proof.
  intros Hz%aligned_thousands Hz'%aligned_thousands [= E1 E2]. destruct k as [i z], k' as [i' z']. cbn [fst snd] in *.
  rewrite E2 in Hz. congruence.
Qed.

Lemma accumulate_get t bars k : dict_ok bars ->
  open_ticks k (accumulate_bar cfg t bars) = open_ticks k bars + (if bool_decide (bar_key cfg t = k) then 1 else 0).
Proof.
  intros Hd. unfold open_ticks, accumulate_bar. case_bool_decide as E.
  - subst k. rewrite dget_dset_eq. by destruct (dget _ bars).
  - rewrite dget_dset_ne by congruence. lia.
Qed.

(** A trade adds a row and the tick of the row's bar, or nothing of either. *)
Lemma ingest_bars f src now w : let w' := ingest cfg f src now w in
  (w_bars w' = w_bars w /\ r_trades (added w w') = []) \/
  (exists t r, w_bars w' = accumulate_bar cfg t (w_bars w) /\ r_trades (added w w') = [r] /\ row_key r = bar_key cfg t).
Proof.
  assert (forall w', w_bars w' = w_bars w -> w_trades w' = w_trades w ->
    (w_bars w' = w_bars w /\ r_trades (added w w') = []) \/
    (exists t r, w_bars w' = accumulate_bar cfg t (w_bars w) /\ r_trades (added w w') = [r] /\ row_key r = bar_key cfg t)) as Hno.
  { intros w' E E'. left. split; [done|]. unfold added. cbn. rewrite E'. by rewrite drop_all. }
  unfold ingest. destruct (Protocol.observe _ _) as [tr lost]. cbn zeta. set (w1 := count_frame _ _ w).
  destruct (_ <=? _); [by apply Hno|]. destruct (_ && _).
  { destruct (unpack _) as [t|]; [|by apply Hno]. right. unfold ingest_trade.
    destruct (Clock.monitor_observe _ _ _ _) as [c lat]. eexists t, _. split; [done|].
    split; [unfold added; cbn; by rewrite drop_app_length|]. unfold row_key, bar_key. cbn [tr_venue tr_symbol tr_ts].
    by rewrite bucket_of_us. }
  destruct (_ && _).
  { destruct (book_unpack _) as [b|]; [|by apply Hno]. unfold ingest_book. destruct (flt _ _); by apply Hno. }
  destruct (_ && _); [|by apply Hno]. destruct (signal_unpack _) as [g|]; by apply Hno.
Qed.

Lemma drop_bars_ok done bars : dict_ok bars -> dict_ok (drop_bars done bars).
Proof. unfold drop_bars. revert bars. induction done as [|k done IH]; intros bars H; [exact H|]. by apply IH, ddel_ok. Qed.

Lemma drop_bars_get k done bars : dict_ok bars -> dget k (drop_bars done bars) = if bool_decide (k ∈ done) then None else dget k bars.
Proof.
  unfold drop_bars. revert bars. induction done as [|k' done IH]; intros bars H; cbn [foldl]; [reflexivity|].
  rewrite IH by by apply ddel_ok. destruct (decide (k = k')) as [->|Hne].
  - rewrite dget_ddel_eq by done. rewrite (bool_decide_true (k' ∈ k' :: done)) by apply list_elem_of_here. by destruct (bool_decide _).
  - rewrite dget_ddel_ne by done. rewrite (bool_decide_ext (k ∈ k' :: done) (k ∈ done)); [done|]. rewrite elem_of_cons. naive_solver.
Qed.

(** ** The invariant of calm runs *)

Definition keyed (bars : list (BarKey * Bar)) : Prop :=
  forall k b, dget k bars = Some b -> (br_venue b, br_symbol b, bucket_ns b) = k /\ aligned k.

Record bars_inv (s : Writer * Db) : Prop := mkBarsInv
  { bi_rows : wr_inv s;
    bi_idle : in_flight s.1 = None -> retry_batch s.1 = None;
    bi_dict : dict_ok (w_bars s.1);
    bi_keyed : keyed (w_bars s.1);
    bi_flight : forall done, in_flight s.1 = Some done -> exists b, retry_batch s.1 = Some b /\
      receipts_of (batch_id b) s.2 = [] /\ NoDup done /\ Forall (fun k => is_Some (dget k (w_bars s.1))) done /\
      b_bars b = bar_row <$> omap (fun k => dget k (w_bars s.1)) done;
    bi_ticks : forall k, aligned k ->
      ticks_at (t_bars s.2) (table_key k) + open_ticks k (w_bars s.1) = row_count k (r_trades (all_rows s)) }.

(** No write fails, and no tick arrives for a bar that is being written. *)
Fixpoint calm (s : Writer * Db) (evs : list Event) : Prop :=
  match evs with
  | [] => True
  | ev :: evs =>
      match ev with
      | FlushEnd o => o = Committed
      | Ingest f src now =>
          match in_flight s.1 with
          | Some done => Forall (fun k => dget k (w_bars (ingest cfg f src now s.1)) = dget k (w_bars s.1)) done
          | None => True
          end
      | FlushBegin _ => True
      end /\ calm (step s ev) evs
  end.

(** The ticks of the bars being closed, summed per table key. *)
Lemma closing_ticks bars done k : keyed bars -> aligned k -> NoDup done ->
  Forall (fun k => is_Some (dget k bars)) done ->
  sum_ticks (table_key k) (bar_row <$> omap (fun k => dget k bars) done) = if bool_decide (k ∈ done) then open_ticks k bars else 0.
Proof.
  intros Hk Ha Hnd Hs. induction done as [|k' done IH]; [done|]. apply NoDup_cons in Hnd as [Hni Hnd].
  apply Forall_cons in Hs as [[b Hb] Hs]. cbn [omap list_omap]. rewrite Hb. cbn [fmap list_fmap sum_ticks].
  rewrite (IH Hnd Hs). destruct (Hk _ _ Hb) as [Hbk Hal].
  assert (bar_pk (bar_row b) = table_key k') as -> by (rewrite <- Hbk; done). cbn [bar_row ba_ticks].
  destruct (decide (k = k')) as [->|Hne].
  - rewrite bool_decide_true by done. rewrite (bool_decide_false (k' ∈ done)) by done.
    rewrite bool_decide_true by apply list_elem_of_here. unfold open_ticks. rewrite Hb. lia.
  - rewrite bool_decide_false by (intros E; apply Hne; symmetry; by apply table_key_inj).
    rewrite (bool_decide_ext (k ∈ k' :: done) (k ∈ done)); [lia|]. rewrite elem_of_cons. naive_solver.
Qed.

Lemma keyed_drop done bars : dict_ok bars -> keyed bars -> keyed (drop_bars done bars).
Proof. intros Hd H k b. rewrite drop_bars_get by done. case_bool_decide; [done|]. apply H. Qed.

Lemma keyed_accumulate t bars : keyed bars -> keyed (accumulate_bar cfg t bars).
Proof.
  intros H k b. unfold accumulate_bar. destruct (decide (k = bar_key cfg t)) as [->|Hne].
  - rewrite dget_dset_eq. intros [= <-]. split; [|apply bar_key_aligned]. cbn [update br_venue br_symbol bucket_ns].
    destruct (dget _ bars) as [b0|] eqn:E; [by apply H|]. done.
  - rewrite dget_dset_ne by done. apply H.
Qed.

Lemma flush_begin_bars now w : w_bars (flush_begin cfg digest_of now w) = w_bars w.
Proof.
  unfold flush_begin. destruct (nothing_to_flush w); [done|]. destruct (in_flight w); [done|]. by destruct (retry_batch w).
Qed.

Lemma all_trades_step s ev : wr_inv s -> r_trades (all_rows (step s ev)) = r_trades (all_rows s) ++ r_trades (brings cfg digest_of s ev).
Proof. intros H. by rewrite (proj2 (step_inv cfg digest_of s ev H)). Qed.

Lemma bars_ingest f src now s : bars_inv s -> calm s [Ingest f src now] -> bars_inv (step s (Ingest f src now)).
Proof.
  intros H [Hc _]. destruct (step_inv cfg digest_of s (Ingest f src now) (bi_rows _ H)) as [Hw _].
  pose proof (all_trades_step s (Ingest f src now) (bi_rows _ H)) as Hrows.
  destruct (ingest_spec cfg f src now s.1) as (x & _ & _ & S1 & S2 & S3). unfold brings in Hrows.
  pose proof (ingest_bars f src now s.1) as Hb. cbn zeta in Hb. destruct H as [I1 I2 I3 I4 I5 I6].
  split; [done| | | | |]; cbn [Writer.step fst snd] in *; rewrite ?S1, ?S3.
  - done.
  - destruct Hb as [[-> _]|(t & r & -> & _)]; [done|]. by apply dset_ok.
  - destruct Hb as [[-> _]|(t & r & -> & _)]; [done|]. by apply keyed_accumulate.
  - intros done Hd. rewrite Hd in Hc. destruct (I5 done Hd) as (b & B1 & B2 & B3 & B4 & B5). exists b. split_and!; try done.
    + apply Forall_forall. intros k Hk. rewrite (proj1 (Forall_forall _ _) Hc k Hk). exact (proj1 (Forall_forall _ _) B4 k Hk).
    + rewrite B5. f_equal. clear - Hc. induction Hc as [|k done Hk _ IH]; [done|]. cbn [omap list_omap]. by rewrite Hk, IH.
  - intros k Ha. rewrite Hrows, row_count_app. specialize (I6 k Ha). destruct Hb as [[-> ->]|(t & r & -> & -> & Hr)].
    + change (row_count k []) with 0. lia.
    + rewrite accumulate_get, row_count_one, Hr by done. lia.
Qed.

Lemma bars_begin now s : bars_inv s -> bars_inv (step s (FlushBegin now)).
Proof.
  intros H. destruct (step_inv cfg digest_of s (FlushBegin now) (bi_rows _ H)) as [Hw Hrows].
  unfold brings in Hrows. rewrite rapp_nil_r in Hrows. destruct H as [I1 I2 I3 I4 I5 I6].
  split; [done| | | | |]; cbn [Writer.step fst snd] in *; rewrite ?flush_begin_bars; try done.
  - unfold flush_begin. destruct (nothing_to_flush s.1); [done|]. destruct (in_flight s.1) eqn:E; [by rewrite E|].
    by destruct (retry_batch s.1).
  - intros done Hd. unfold flush_begin in Hd |- *. destruct (nothing_to_flush s.1); [by apply I5|].
    destruct (in_flight s.1) as [d0|] eqn:Ef; [rewrite Ef in Hd; injection Hd as <-; by apply I5|].
    rewrite (I2 eq_refl) in *. cbn [in_flight] in Hd. injection Hd as <-. eexists. split; [reflexivity|].
    pose proof (receipts_fresh s (uuids s.1) I1 (le_n _)) as Hf. cbn [make_storage_batch batch_id b_bars].
    split_and!; [exact Hf| | |done].
    + apply NoDup_filter. exact I3.
    + apply Forall_forall. intros k Hk. apply list_elem_of_filter in Hk as [_ Hk].
      destruct (dget k (w_bars s.1)) eqn:E; [by eexists|]. by apply dget_None in E.
  - intros k Ha. rewrite Hrows. by apply I6.
Qed.

Lemma bars_end s : bars_inv s -> bars_inv (step s (FlushEnd Committed)).
Proof.
  intros H. destruct (step_inv cfg digest_of s (FlushEnd Committed) (bi_rows _ H)) as [Hw Hrows].
  unfold brings in Hrows. rewrite rapp_nil_r in Hrows. pose proof H as [I1 I2 I3 I4 I5 I6]. cbn [Writer.step] in *.
  unfold flush_end in *. destruct (in_flight s.1) as [done_|] eqn:Ef; [|by destruct s].
  destruct (I5 done_ eq_refl) as (b & B1 & B2 & B3 & B4 & B5). rewrite B1 in *.
  destruct (write_batch_spec b Committed s.2 (or_introl B2)) as [(_ & ? & _)|[(_ & ? & _)|E]]; [done|done|].
  rewrite (bool_decide_true _ B2) in E. cbn [andb] in E. rewrite E in *.
  assert (t_bars (if negb (bool_decide (expected b = [])) then apply_batch b s.2 else s.2) = foldl upsert_bar (t_bars s.2) (b_bars b)) as Hbars.
  { case_bool_decide as Ee; [|done]. cbn [negb]. by destruct (expected_nil b Ee) as (_ & _ & _ & ->). }
  split; [done|done| | | |]; cbn [fst snd].
  - by apply drop_bars_ok.
  - by apply keyed_drop.
  - done.
  - intros k Ha. rewrite Hrows, <- I6 by done. rewrite Hbars, upsert_ticks, B5, (closing_ticks _ _ k) by done.
    unfold open_ticks. cbn [finish_flush w_bars]. rewrite drop_bars_get by done. destruct (bool_decide (k ∈ done_)); lia.
Qed.

Lemma bars_run evs : forall s, bars_inv s -> calm s evs -> bars_inv (foldl step s evs).
Proof.
  induction evs as [|ev evs IH]; intros s Hs Hc; [done|]. cbn [foldl]. destruct Hc as [H1 H2]. apply IH; [|done].
  destruct ev as [f src now|now|o]; [by apply bars_ingest|by apply bars_begin|]. subst o. by apply bars_end.
Qed.

Lemma new_bars_inv : bars_inv (new_writer, new_db).
Proof.
  split; try done. apply dict_ok_nil.
Qed.

(** As long as no write fails and no trade arrives for a bar while that bar is being
    written, the tick counts of [bars_1m] and of the writer's open bars add up, for every
    instrument and bucket, to the number of trades taken in for it (in the trades table,
    the batch and the buffers): flushing in the middle of a bucket, late trades and bars
    written in several parts lose and repeat nothing; and once the buffers are written
    and the open bars too, the table's count is that of the trades table. *)
Theorem bars_add_up evs k :
  calm (new_writer, new_db) evs -> aligned k ->
  let s := run cfg digest_of evs in
  ticks_at (t_bars s.2) (table_key k) + open_ticks k (w_bars s.1) = row_count k (r_trades (all_rows s)) /\
  (in_flight s.1 = None -> w_trades s.1 = [] ->
   ticks_at (t_bars (final_bars s.1 s.2)) (table_key k) = row_count k (t_trades s.2)).
Proof.
  intros Hc Ha s. pose proof (bars_run evs _ new_bars_inv Hc) as H. fold (run cfg digest_of evs) in H. fold s in H.
  split; [by apply (bi_ticks _ H)|]. intros Hf Hw. pose proof (bi_ticks _ H k Ha) as Ht.
  unfold all_rows, retry_rows in Ht. rewrite (bi_idle _ H Hf) in Ht. cbn [rapp r_trades db_rows w_rows rnil] in Ht.
  rewrite Hw, !app_nil_r in Ht. rewrite <- Ht. unfold final_bars, upsert_bars. cbn [t_bars]. rewrite upsert_ticks. f_equal.
  assert ((w_bars s.1).*2 = omap (fun k => dget k (w_bars s.1)) (w_bars s.1).*1) as ->.
  { pose proof (bi_dict _ H) as Hd. revert Hd. generalize (w_bars s.1). clear. intros bars Hd.
    assert (forall l, (forall kb, kb ∈ l -> dget kb.1 bars = Some kb.2) -> l.*2 = omap (fun k => dget k bars) l.*1) as G.
    { induction l as [|[k b] l IH]; intros Hl; [done|]. cbn [fmap list_fmap omap list_omap fst snd].
      assert (dget k bars = Some b) as -> by apply (Hl (k, b)), list_elem_of_here. cbn. f_equal. apply IH. intros kb Hkb. by apply Hl, list_elem_of_further. }
    apply G. intros [k b] Hin. by apply dget_intro. }
  rewrite (closing_ticks _ _ k); [|apply H|done|apply H|].
  - case_bool_decide as E; [done|]. unfold open_ticks. apply dget_None in E. by rewrite E.
  - apply Forall_forall. intros k' Hk'. destruct (dget k' (w_bars s.1)) eqn:E; [by eexists|]. by apply dget_None in E.
Qed.
End bars.

(** ** Witnesses and examples *)

Definition demo_cfg : Config := mkConfig 60 1000.
Definition demo_digest (ts : list TradeRow) (bs : list BookRow) (ss : list SignalRow) (bars : list BarRow) : pystr :=
  [zlen ts; zlen bs; zlen ss; zlen bars].
Definition demo_trade (ts qty : Z) : Trade := mkTrade (lit "U") (lit "A") ts (ts + 5000) (of_int 10) (of_int qty) SIDE_BUY.
Definition demo_frame (seq : Z) (t : Trade) : Protocol.Frame :=
  Protocol.mkFrame MSG_TRADE seq 0 (match (pack no_trunc t).2 with Ok b => b | Err _ => [] end).
Definition demo_ingest (seq ts : Z) : Event := Ingest (demo_frame seq (demo_trade ts 2)) (lit "bus") (of_int 0).
Definition demo_bar : BarKey := (lit "U", lit "A", 60000000000).

(** Two trades, a flush inside their minute, one more, a flush after the minute, a late one. *)
Definition demo_calm : list Event :=
  [demo_ingest 0 60000001000; demo_ingest 1 70000000000; FlushBegin 80000000000; FlushEnd Committed;
   demo_ingest 2 90000000000; FlushBegin 130000000000; FlushEnd Committed; demo_ingest 3 100000000000].

Lemma bars_add_up_witness :
  let s := run demo_cfg demo_digest demo_calm in
  (ticks_at (t_bars s.2) (table_key demo_bar) + open_ticks demo_bar (w_bars s.1)
   = row_count demo_cfg demo_bar (r_trades (all_rows s))) /\
  ticks_at (t_bars s.2) (table_key demo_bar) = 3 /\ row_count demo_cfg demo_bar (r_trades (all_rows s)) = 4.
Proof.
  intros s. split; [|by vm_compute]. refine (proj1 (bars_add_up demo_cfg demo_digest _ demo_calm demo_bar _ _)).
  - reflexivity.
  - vm_compute. repeat constructor.
  - reflexivity.
Defined.

(** A write that fails once: the batch is kept and written at the second flush, but its
    bars stay open, and the third flush adds them to the table a second time. *)
Example retried_bars_count_twice :
  let s := run demo_cfg demo_digest
    [demo_ingest 0 60000000000; FlushBegin 130000000000; FlushEnd RolledBack;
     FlushBegin 132000000000; FlushEnd Committed; FlushBegin 134000000000; FlushEnd Committed] in
  length (t_trades s.2) = 1%nat /\ ticks_at (t_bars s.2) (table_key demo_bar) = 2 /\
  (ba_volume <$> t_bars s.2 !! table_key demo_bar) = Some (of_int 4).
Proof. by vm_compute. Qed.

(** A late trade that arrives while its bar is being written is lost to the bars. *)
Example tick_lost_in_flight :
  let s := run demo_cfg demo_digest
    [demo_ingest 0 60000000000; FlushBegin 130000000000; demo_ingest 1 119000000000; FlushEnd Committed;
     FlushBegin 134000000000; FlushEnd Committed] in
  length (t_trades s.2) = 2%nat /\ ticks_at (t_bars s.2) (table_key demo_bar) = 1 /\ open_ticks demo_bar (w_bars s.1) = 0.
Proof. by vm_compute. Qed.

(** A bar written in two parts keeps the second part's average price. *)
Example vwap_of_last_part :
  let row v n w t := mkBarRow 0 (lit "U") (lit "A") (of_int 1) (of_int 1) (of_int 1) (of_int 1) (of_int v) (of_int n) (of_int w) t in
  let m := foldl upsert_bar ∅ [row 3 30 10 1; row 1 50 50 1] in
  (fun b => (ba_vwap b, fdiv (ba_notional b) (ba_volume b))) <$> m !! (lit "U", lit "A", 0) = Some (of_int 50, of_int 20).
Proof. by vm_compute. Qed.
End Writer.
