(* ===== verification/Retention.v ===== *)
(** * Retention: what may be deleted, and deleting it (src/src/mdfeed/retention.py)

    Days are counted from the epoch, times are microseconds.  A table is the list of its
    rows in the order a scan finds them.  Between two batches the lock is free: the
    environment says, batch by batch, what was inserted meanwhile, whether the time
    budget is used up and whether the storage raises. *)

From S2P Require Import Prelude PyStr PyFloat Clock.

Module Retention.

(** [PRUNE_TABLES]; the time column of both is [ts]. *)
Inductive Table := Trades | BookTop.
#[export] Instance table_eq_dec : EqDecision Table.
Proof. solve_decision. Defined.
#[export] Instance table_countable : Countable Table.
Proof.
  apply (inj_countable' (fun t => match t with Trades => true | BookTop => false end)
    (fun b => if b : bool then Trades else BookTop)). by intros [].
Defined.
Definition PRUNE_TABLES : list Table := [Trades; BookTop].
Definition DELETE_BATCH : Z := 50000.

Record Row := mkRow { ts : Z; cells : list pystr }.
Record Store := mkStore { trades : list Row; book_top : list Row }.
Definition rows_of (t : Table) (s : Store) : list Row := match t with Trades => trades s | BookTop => book_top s end.
Definition set_rows (t : Table) (rs : list Row) (s : Store) : Store :=
  match t with Trades => mkStore rs (book_top s) | BookTop => mkStore (trades s) rs end.

(** ** Days *)

Definition DAY_US : Z := 86400 * 1000000.
Definition day_start_us (day : Z) : Z := day * DAY_US.
Definition day_bounds_us (day : Z) : Z * Z := (day_start_us day, day_start_us day + DAY_US).
Definition day_of (us : Z) : Z := us / DAY_US.

(** [SELECT MIN(ts)]. *)
Definition min_ts (rs : list Row) : option Z :=
  match rs with [] => None | r :: rs => Some (foldl (fun m r => Z.min m (ts r)) (ts r) rs) end.
Definition source_floor_day (s : Store) : option Z :=
  match omap (fun t => day_of <$> min_ts (rows_of t s)) PRUNE_TABLES with
  | [] => None
  | d :: ds => Some (foldl Z.min d ds)
  end.

Definition in_day (day : Z) (r : Row) : bool := (day_start_us day <=? ts r) && (ts r <? day_start_us day + DAY_US).
Definition day_rows (t : Table) (day : Z) (s : Store) : list Row := List.filter (in_day day) (rows_of t s).

(** ** Receipts of the remote archive *)

(** A value of a receipt's JSON object. *)
Inductive Val := VNull | VBool (b : bool) | VInt (z : Z) | VFloat (f : float) | VStr (s : pystr) | VOther.
Definition Doc : Type := gmap pystr Val.
Definition get (k : string) (d : Doc) : Val := default VNull (d !! lit k).

(** [v == z] for an int. *)
Definition eq_int (v : Val) (z : Z) : bool :=
  match v with
  | VInt x => x =? z
  | VBool b => (if b : bool then 1 else 0) =? z
  | VFloat (S754_finite s m e) =>
      let m := cond_Zopp s (Zpos m) in if 0 <=? e then m * 2 ^ e =? z else m =? z * 2 ^ (- e)
  | VFloat (S754_zero _) => z =? 0
  | _ => false
  end.
Definition eq_str (v : Val) (s : pystr) : bool := match v with VStr x => bool_decide (x = s) | _ => false end.

Definition hex_digit (c : Z) : bool :=
  ((0x30 <=? c) && (c <=? 0x39)) || ((0x61 <=? c) && (c <=? 0x66)) || ((0x41 <=? c) && (c <=? 0x46)).
Definition is_sha256 (v : Val) : option pystr :=
  match v with VStr s => if (zlen s =? 64) && forallb hex_digit s then Some s else None | _ => None end.
(** A bool is an int to [isinstance]. *)
Definition positive_int (v : Val) : option Z :=
  match v with
  | VInt z => if 0 <=? z then Some z else None
  | VBool b => Some (if b : bool then 1 else 0)
  | _ => None
  end.

Record Receipt := mkReceipt { rc_day : Z; source_rows : Z; source_content_sha256 : pystr }.

(** Reasons, as the result names them. *)
Inductive Reason := NoSourceRows | MissingRemoteCoverage | SourceDayChanged | SourceFloorChanged.
#[export] Instance reason_eq_dec : EqDecision Reason.
Proof. solve_decision. Defined.
Record RetentionCutoff := mkCutoff { allowed : bool; cutoff_us : Z; reason : option Reason }.

Definition table_name (t : Table) : pystr := match t with Trades => lit "trades" | BookTop => lit "book_top" end.

Section retention.
(** [dt.date.fromisoformat], as a day number, whose accepted forms depend on the Python
    version. *)
Variable parse_day : pystr -> option Z.
(** The hexadecimal SHA-256 of the rows' CSV text, ordered by all their columns. *)
Variable content : Table -> list Row -> pystr.

Definition strict_receipt (d : Doc) (t : Table) : option Receipt :=
  if eq_int (get "schema_version" d) 1 && eq_str (get "status" d) (lit "verified") && eq_str (get "table" d) (table_name t) then
    match get "day" d with
    | VStr day_value =>
        match parse_day day_value,
              is_sha256 (get "local_sha256" d), is_sha256 (get "remote_fetch_sha256" d),
              is_sha256 (get "manifest_sha256" d), is_sha256 (get "remote_manifest_sha256" d),
              is_sha256 (get "source_content_sha256" d) with
        | Some day, Some l, Some r, Some m, Some rm, Some src =>
            if bool_decide (l = r) && bool_decide (m = rm) then
              match positive_int (get "local_bytes" d), positive_int (get "remote_fetch_bytes" d),
                    positive_int (get "local_rows" d), positive_int (get "remote_fetch_rows" d),
                    positive_int (get "source_rows" d) with
              | Some lb, Some rb, Some lr, Some rr, Some sr =>
                  if (lb =? rb) && (lr =? rr) && (lr =? sr)
                     && eq_str (get "source_table" d) (table_name t) && eq_str (get "source_day" d) day_value
                     && eq_int (get "source_from_us" d) (day_bounds_us day).1
                     && eq_int (get "source_to_us" d) (day_bounds_us day).2
                     && match get "object_id" d with VStr (_ :: _) => true | _ => false end
                  then Some (mkReceipt day sr src) else None
              | _, _, _, _, _ => None
              end
            else None
        | _, _, _, _, _, _ => None
        end
    | _ => None
    end
  else None.

(** The directory's receipts for a table, the last file of a day winning. *)
Definition remote_verified_receipts (docs : list Doc) (t : Table) : gmap Z Receipt :=
  foldl (fun m r => <[rc_day r := r]> m) ∅ (omap (fun d => strict_receipt d t) docs).

(** What a partial deletion left of a day: its rows and their digest. *)
Definition Progress : Type := gmap (Table * Z) (Z * pystr).

(** [_source_day_proof]. *)
Definition source_day_proof (s : Store) (t : Table) (day : Z) : Z * pystr :=
  let rs := day_rows t day s in (zlen rs, content t rs).

(** Some reason not to touch the day. *)
Definition source_matches_receipt (s : Store) (p : Progress) (t : Table) (r : Receipt) : option Reason :=
  let proof := source_day_proof s t (rc_day r) in
  match p !! (t, rc_day r) with
  | Some kept => if bool_decide (kept = proof) then None else Some SourceDayChanged
  | None => if bool_decide ((source_rows r, source_content_sha256 r) = proof) then None else Some SourceDayChanged
  end.

(** The archive's receipts, table by table. *)
Definition receipts (docs : list Doc) (t : Table) : gmap Z Receipt := remote_verified_receipts docs t.

(** Every table's receipt of the day matches what the source holds. *)
Definition day_mismatch (s : Store) (p : Progress) (docs : list Doc) (day : Z) : option Reason :=
  head (omap (fun t => match receipts docs t !! day with
                       | Some r => source_matches_receipt s p t r
                       | None => Some MissingRemoteCoverage
                       end) PRUNE_TABLES).

Definition covered (docs : list Doc) (day : Z) : bool :=
  forallb (fun t => bool_decide (is_Some (receipts docs t !! day))) PRUNE_TABLES.

(** The days from [day] on, as long as they are covered and match. *)
Fixpoint walk (fuel : nat) (s : Store) (p : Progress) (docs : list Doc) (day : Z) : result Reason Z :=
  match fuel with
  | O => Ok day
  | S fuel =>
      if covered docs day then
        match day_mismatch s p docs day with Some r => Err r | None => walk fuel s p docs (day + 1) end
      else Ok day
  end.

(** Covered days are receipts' days, so their number bounds the walk. *)
Definition walk_fuel (docs : list Doc) : nat := S (size (receipts docs Trades)).

Definition retention_cutoff (s : Store) (p : Progress) (docs : list Doc) : RetentionCutoff :=
  match source_floor_day s with
  | None => mkCutoff false 0 (Some NoSourceRows)
  | Some floor =>
      if covered docs floor then
        match walk (walk_fuel docs) s p docs floor with
        | Ok day => mkCutoff true (day_start_us day) None
        | Err r => mkCutoff false 0 (Some r)
        end
      else mkCutoff false 0 (Some MissingRemoteCoverage)
  end.

(** ** Pruning *)

(** [DELETE ... WHERE rowid IN (SELECT ... WHERE ts < cutoff LIMIT limit)]: the rows kept
    and the rows deleted. *)
Fixpoint split_older (cutoff : Z) (limit : nat) (rs : list Row) : list Row * list Row :=
  match rs, limit with
  | [], _ => ([], [])
  | _, O => (rs, [])
  | r :: rs, S n =>
      if ts r <? cutoff then let '(k, d) := split_older cutoff n rs in (k, r :: d)
      else let '(k, d) := split_older cutoff limit rs in (r :: k, d)
  end.
Definition delete_older_than (t : Table) (cutoff limit : Z) (s : Store) : Store * list Row :=
  let '(k, d) := split_older cutoff (Z.to_nat limit) (rows_of t s) in (set_rows t k s, d).

(** What happens around one batch. *)
Inductive Failure := NoFailure | StorageRaises | ProgressRaises.
Record Env := mkEnv { inserted : list (Table * Row); over_budget : bool; fails : Failure }.
Definition quiet : Env := mkEnv [] false NoFailure.
Definition insert_all (rs : list (Table * Row)) (s : Store) : Store :=
  foldl (fun s tr => set_rows tr.1 (rows_of tr.1 s ++ [tr.2]) s) s rs.

(** A batch that was deleted: its table, the state it was decided on, its rows, what it left. *)
Record Deletion := mkDeletion
  { dl_table : Table; dl_store : Store; dl_progress : Progress; dl_rows : list Row; dl_left : Store }.

(** The directory and its documents; [None] without a remote archive. *)
Record Options := mkOptions { cutoff : Z; floor_us : option Z; remote : option (list Doc) }.

Record St := mkSt { store : Store; progress : Progress; batches : nat; deleted : list (Table * Z); log : list Deletion }.
Inductive Stop := Finished | Budget | Blocked (r : Reason).

Definition rename_reason (o : Options) (s : Store) (r : Reason) : Reason :=
  match r, floor_us o, source_floor_day s with
  | MissingRemoteCoverage, Some f, Some day => if day_start_us day <? f then SourceFloorChanged else r
  | _, _, _ => r
  end.

(** The cutoff of the next batch and the day it is about, or why there is none. *)
Definition batch_limits (o : Options) (s : Store) (p : Progress) : result Reason (Z * option Z) :=
  match remote o with
  | None => Ok (cutoff o, None)
  | Some docs =>
      let c := retention_cutoff s p docs in
      if allowed c then
        let lim := Z.min (cutoff o) (cutoff_us c) in
        match source_floor_day s with
        | Some day => Ok (Z.min lim (day_bounds_us day).2, Some day)
        | None => Ok (lim, None)
        end
      else Err (rename_reason o s (default NoSourceRows (reason c)))
  end.

(** How the loop over a table's batches goes on. *)
Inductive Next := Again (n : Z) | Next_table (n : Z) | Return (r : Stop).

(** One batch under the lock, on the store [s]. *)
Definition turn_batch (f : Failure) (o : Options) (t : Table) (n : Z) (s : Store) (st : St) : St * Next :=
  match batch_limits o s (progress st) with
  | Err NoSourceRows =>
      (mkSt s (progress st) (batches st) (deleted st) (log st),
       match deleted st with [] => Return (Blocked NoSourceRows) | _ => Next_table n end)
  | Err r => (mkSt s (progress st) (batches st) (deleted st) (log st), Return (Blocked r))
  | Ok (lim, day) =>
      let '(s', gone) := delete_older_than t lim DELETE_BATCH s in
      let l := log st ++ match gone with [] => [] | _ => [mkDeletion t s (progress st) gone s'] end in
      let got := zlen gone in
      match day, f with
      | Some d, ProgressRaises =>
          if 0 <? got then (mkSt s' (progress st) (batches st) (deleted st) l, Next_table n)
          else (mkSt s' (progress st) (S (batches st)) (deleted st) (log st), Next_table n)
      | _, _ =>
          let p := match day with
            | Some d => if 0 <? got then <[(t, d) := source_day_proof s' t d]> (progress st) else progress st
            | None => progress st
            end in
          (mkSt s' p (S (batches st)) (deleted st) l,
           if got <=? 0 then Next_table n
           else if got <? DELETE_BATCH then Next_table (n + got) else Again (n + got))
      end
  end.

(** One turn of the loop, in its environment; [n] is what the table has lost so far. *)
Definition turn (o : Options) (e : Env) (t : Table) (n : Z) (st : St) : St * Next :=
  if over_budget e then (st, Return Budget)
  else
    let s := insert_all (inserted e) (store st) in
    match fails e with
    | StorageRaises => (mkSt s (progress st) (batches st) (deleted st) (log st), Next_table n)
    | f => turn_batch f o t n s st
    end.

Definition record_deleted (t : Table) (n : Z) (st : St) : St :=
  mkSt (store st) (progress st) (batches st) (if n =? 0 then deleted st else deleted st ++ [(t, n)]) (log st).

(** The loops over the tables and their batches; [env] gives the [i]-th turn's environment. *)
Fixpoint loop (fuel : nat) (o : Options) (env : nat -> Env) (i : nat) (t : Table) (rest : list Table) (n : Z) (st : St)
    : option (St * Stop) :=
  match fuel with
  | O => None
  | S fuel =>
      let '(st, next) := turn o (env i) t n st in
      match next with
      | Again n => loop fuel o env (S i) t rest n st
      | Next_table n =>
          let st := record_deleted t n st in
          match rest with [] => Some (st, Finished) | t' :: rest => loop fuel o env (S i) t' rest 0 st end
      | Return Budget => Some (record_deleted t n st, Budget)
      | Return r => Some (st, r)
      end
  end.

(** The guards before the loop; the cutoff never passes the floor. *)
Definition prune (fuel : nat) (retention_positive : bool) (cutoff : Z) (floor_us : option Z) (remote : option (list Doc))
    (allow_local_archive_floor : bool) (env : nat -> Env) (s : Store) (p : Progress) : option (St * Stop) :=
  let idle r := Some (mkSt s p 0 [] [], r) in
  if negb retention_positive then idle Finished
  else if bool_decide (is_Some floor_us) && bool_decide (remote = None) && negb allow_local_archive_floor
  then idle (Blocked MissingRemoteCoverage)
  else
    let go c := loop fuel (mkOptions c floor_us remote) env 0 Trades [BookTop] 0 (mkSt s p 0 [] []) in
    match floor_us with
    | Some f =>
        if f <=? 0 then idle (match remote with Some _ => Blocked MissingRemoteCoverage | None => Finished end)
        else go (Z.min cutoff f)
    | None => go cutoff
    end.

(** [_cutoff_us] at the time [now_s]. *)
Definition cutoff_at (retention_days now_s : float) : Z :=
  Clock.ftrunc (fsub now_s (fmul retention_days (of_int 86400))) * 1000000.

(** ** Deleting the older rows *)

Definition older (c : Z) (rs : list Row) : nat := length (List.filter (fun r => ts r <? c) rs).
Definition newer (c : Z) (rs : list Row) : list Row := List.filter (fun r => negb (ts r <? c)) rs.

Lemma split_older_spec c rs : forall n,
  Forall (fun r => ts r < c) (split_older c n rs).2 /\
  (split_older c n rs).1 ++ (split_older c n rs).2 ≡ₚ rs /\
  length (split_older c n rs).2 = Nat.min n (older c rs) /\
  older c (split_older c n rs).1 = (older c rs - n)%nat /\
  ((older c rs <= n)%nat -> (split_older c n rs).1 = newer c rs).
Proof.
  unfold older, newer. induction rs as [|r rs IH]; intros n; [destruct n; cbn; split_and!; try done; lia|].
  destruct n as [|n]; cbn [split_older].
  - cbn [fst snd]. rewrite app_nil_r. split_and!; try done; [lia|]. intros Hz. clear IH. revert Hz.
    generalize (r :: rs). intros l. induction l as [|x l IH]; [done|]. cbn [List.filter].
    destruct (ts x <? c); cbn [negb length]; [lia|]. intros H. by rewrite <- IH.
  - cbn [List.filter]. destruct (Z.ltb_spec (ts r) c) as [H|H]; cbn [negb].
    + specialize (IH n). destruct (split_older c n rs) as [k g]. cbn [fst snd length] in *.
      destruct IH as (I1 & I2 & I3 & I4 & I5). split_and!; [by constructor| |lia|lia|intros; apply I5; lia].
      rewrite <- I2. by rewrite Permutation_middle.
    + specialize (IH (S n)). destruct (split_older c (S n) rs) as [k g]. cbn [fst snd] in *.
      destruct IH as (I1 & I2 & I3 & I4 & I5). split_and!; [done|cbn; by rewrite I2|done| |].
      * cbn [List.filter]. destruct (Z.ltb_spec (ts r) c); [lia|done].
      * intros Hn. by rewrite I5.
Qed.

Lemma rows_set t rs s : rows_of t (set_rows t rs s) = rs.
Proof. by destruct t. Qed.
Lemma rows_set_other t t' rs s : t' <> t -> rows_of t' (set_rows t rs s) = rows_of t' s.
Proof. by destruct t, t'. Qed.

Lemma floor_below s day t r : source_floor_day s = Some day -> r ∈ rows_of t s -> day_start_us day <= ts r.
Proof.
  assert (forall rs m, min_ts rs = Some m -> forall r, r ∈ rs -> m <= ts r) as Hmin.
  { assert (forall rs a, foldl (fun m r => Z.min m (ts r)) a rs <= a /\
      forall r, r ∈ rs -> foldl (fun m r => Z.min m (ts r)) a rs <= ts r) as G.
    { induction rs as [|x rs IH]; intros a; [split; [cbn; lia|by intros r0 ?%elem_of_nil]|]. cbn [foldl].
      destruct (IH (Z.min a (ts x))) as [I1 I2]. split; [lia|]. intros r0 [-> |H]%elem_of_cons; [lia|by apply I2]. }
    intros [|x rs] m; [done|]. intros [= <-] r0 [-> |H]%elem_of_cons; [exact (proj1 (G rs (ts x)))|by apply (proj2 (G rs (ts x)))]. }
  unfold source_floor_day. intros Hd Hr.
  assert (exists m, min_ts (rows_of t s) = Some m /\ m <= ts r) as (m & Hm & Hle).
  { destruct (min_ts (rows_of t s)) as [m|] eqn:E; [exists m; split; [done|by apply (Hmin _ _ E)]|].
    destruct (rows_of t s); [by apply elem_of_nil in Hr|done]. }
  assert (day <= day_of m) as Hday.
  { destruct t; cbn [PRUNE_TABLES omap list_omap] in Hd; rewrite Hm in Hd; cbn in Hd.
    - destruct (day_of <$> min_ts (book_top s)); injection Hd as <-; cbn; lia.
    - destruct (day_of <$> min_ts (trades s)); injection Hd as <-; cbn; lia. }
  unfold day_start_us, day_of in *. assert (0 < DAY_US) as HD by done. pose proof (Z.mul_div_le m DAY_US HD). nia.
Qed.

Lemma split_older_newer c rs : forall n, newer c (split_older c n rs).1 = newer c rs.
Proof.
  unfold newer. induction rs as [|r rs IH]; intros [|n]; try done. cbn [split_older List.filter].
  destruct (ts r <? c) eqn:E; cbn [negb].
  - specialize (IH n). by destruct (split_older c n rs).
  - specialize (IH (S n)). destruct (split_older c (S n) rs). cbn [fst List.filter] in *. rewrite E. cbn [negb]. by rewrite IH.
Qed.

(** ** What a cutoff promises *)

(** The day's content is what a receipt or a recorded partial deletion says. *)
Definition verified (s : Store) (p : Progress) (docs : list Doc) (day : Z) : Prop :=
  forall t, exists r, receipts docs t !! day = Some r /\
    match p !! (t, day) with
    | Some kept => kept = source_day_proof s t day
    | None => (source_rows r, source_content_sha256 r) = source_day_proof s t day
    end.

Lemma receipts_day docs t day r : receipts docs t !! day = Some r -> rc_day r = day.
Proof.
  unfold receipts, remote_verified_receipts.
  assert (forall m : gmap Z Receipt, (forall d r, m !! d = Some r -> rc_day r = d) -> forall rs d r,
    foldl (fun m r => <[rc_day r := r]> m) m rs !! d = Some r -> rc_day r = d) as G.
  { intros m Hm rs. revert m Hm. induction rs as [|x rs IH]; intros m Hm d r0; [apply Hm|]. cbn. apply IH.
    intros d' r'. destruct (decide (rc_day x = d')) as [<-|]; [rewrite lookup_insert_eq; by intros [= <-]|].
    rewrite lookup_insert_ne by done. apply Hm. }
  apply G. intros d r0. by rewrite lookup_empty.
Qed.

Lemma covered_spec docs day : covered docs day = true <-> forall t, is_Some (receipts docs t !! day).
Proof.
  unfold covered, PRUNE_TABLES. rewrite forallb_forall. split.
  - intros H t. apply (bool_decide_unpack _). rewrite H; [done|]. destruct t; cbn; auto.
  - intros H t _. by apply bool_decide_eq_true_2.
Qed.

Lemma no_mismatch s p docs day : covered docs day = true -> day_mismatch s p docs day = None -> verified s p docs day.
Proof.
  rewrite covered_spec. intros Hc Hm.
  assert (forall t r, receipts docs t !! day = Some r -> source_matches_receipt s p t r = None) as Hall.
  { intros t r E. unfold day_mismatch, PRUNE_TABLES in Hm. destruct (Hc Trades) as [r1 E1], (Hc BookTop) as [r2 E2].
    simpl in Hm. rewrite E1, E2 in Hm. destruct (source_matches_receipt s p Trades r1) eqn:M1; [done|].
    destruct (source_matches_receipt s p BookTop r2) eqn:M2; [done|]. destruct t; congruence. }
  intros t. destruct (Hc t) as [r E]. exists r. split; [done|]. specialize (Hall t r E).
  unfold source_matches_receipt in Hall. rewrite (receipts_day _ _ _ _ E) in Hall. destruct (p !! _); by case_bool_decide.
Qed.

Lemma walk_spec s p docs fuel : forall day d, walk fuel s p docs day = Ok d ->
  day <= d <= day + Z.of_nat fuel /\ (forall x, day <= x < d -> covered docs x = true /\ verified s p docs x) /\
  (covered docs d = false \/ d = day + Z.of_nat fuel).
Proof.
  induction fuel as [|fuel IH]; intros day d; cbn [walk].
  - intros [= <-]. split_and!; [lia|lia|intros; lia|right; lia].
  - destruct (covered docs day) eqn:Ec.
    + destruct (day_mismatch s p docs day) as [|] eqn:Em; [done|]. intros Hw. destruct (IH _ _ Hw) as (I1 & I2 & I3).
      split_and!; [lia|lia| |destruct I3; [by left|right; lia]]. intros x Hx. destruct (decide (x = day)) as [->|].
      * split; [done|]. by apply no_mismatch.
      * apply I2. lia.
    + intros [= <-]. split_and!; [lia|lia|intros; lia|by left].
Qed.

(** The days of a run of covered days are as many receipts. *)
Lemma covered_run docs day n : (forall x, day <= x < day + Z.of_nat n -> covered docs x = true) -> (n <= size (receipts docs Trades))%nat.
Proof.
  intros H. rewrite <- size_dom. replace n with (length (seqZ day (Z.of_nat n))) by (rewrite length_seqZ; lia).
  rewrite <- (size_list_to_set (C := gset Z)) by apply NoDup_seqZ. apply subseteq_size. intros x Hx.
  apply elem_of_list_to_set, elem_of_seqZ in Hx. apply elem_of_dom.
  by apply covered_spec, H.
Qed.

(** The cutoff ends the run of verified days that starts at the source's first day. *)
Lemma cutoff_spec s p docs : allowed (retention_cutoff s p docs) = true -> exists floor last,
  source_floor_day s = Some floor /\ cutoff_us (retention_cutoff s p docs) = day_start_us last /\ floor < last /\
  (forall day, floor <= day < last -> covered docs day = true /\ verified s p docs day) /\ covered docs last = false.
Proof.
  unfold retention_cutoff. destruct (source_floor_day s) as [floor|]; [|done]. destruct (covered docs floor) eqn:Ec; [|done].
  destruct (walk _ _ _ _ floor) as [last|] eqn:Ew; [|done]. intros _. exists floor, last.
  destruct (walk_spec _ _ _ _ _ _ Ew) as (W1 & W2 & W3).
  assert (covered docs last = false) as Hl.
  { destruct W3 as [?|W3]; [done|]. exfalso.
    assert (walk_fuel docs <= size (receipts docs Trades))%nat; [|unfold walk_fuel in *; lia].
    apply (covered_run docs floor). intros x Hx. apply W2. lia. }
  split_and!; [done|done| |done|done]. destruct (decide (floor = last)) as [->|]; [congruence|lia].
Qed.

Lemma batch_limits_spec o s p lim day : batch_limits o s p = Ok (lim, day) ->
  lim <= cutoff o /\ forall docs, remote o = Some docs -> exists d, day = Some d /\ source_floor_day s = Some d /\
    lim <= day_start_us d + DAY_US /\ verified s p docs d.
Proof.
  unfold batch_limits. destruct (remote o) as [docs|]; [|intros [= <- <-]; split; [lia|done]].
  destruct (allowed (retention_cutoff s p docs)) eqn:Ea; [|done].
  destruct (cutoff_spec _ _ _ Ea) as (floor & last & F1 & F2 & F3 & F4 & _). rewrite F1. intros [= <- <-].
  split; [lia|]. intros docs' [= <-]. exists floor. split_and!; [done|done|cbn; lia|]. apply F4. lia.
Qed.

(** ** Turns *)

Lemma rows_insert t ins : forall s, rows_of t (insert_all ins s) = rows_of t s ++ omap (fun tr => if bool_decide (tr.1 = t) then Some tr.2 else None) ins.
Proof.
  unfold insert_all. induction ins as [|[t' r] ins IH]; intros s; cbn [foldl omap list_omap fst snd]; [by rewrite app_nil_r|].
  rewrite IH. case_bool_decide as E; [subst t'; by rewrite rows_set, <- app_assoc|by rewrite rows_set_other by congruence].
Qed.

(** What a recorded deletion was allowed to take. *)
Definition deletion_ok (o : Options) (d : Deletion) : Prop :=
  Forall (fun r => r ∈ rows_of (dl_table d) (dl_store d) /\ ts r < cutoff o /\
    forall docs, remote o = Some docs -> exists day, source_floor_day (dl_store d) = Some day /\
      day_start_us day <= ts r < day_start_us day + DAY_US /\ verified (dl_store d) (dl_progress d) docs day) (dl_rows d).

Definition lost (t : Table) (l : list Deletion) : list Row :=
  mjoin ((fun d => if bool_decide (dl_table d = t) then dl_rows d else []) <$> l).

Lemma lost_app t l l' : lost t (l ++ l') = lost t l ++ lost t l'.
Proof. unfold lost. by rewrite fmap_app, join_app. Qed.

(** A turn deletes [gone] from its table, whose rows are those it had and the inserted. *)
Record turned (o : Options) (e : Env) (t : Table) (st st' : St) (gone : list Row) : Prop := mkTurned
  { tu_log : exists entry, log st' = log st ++ entry /\ Forall (deletion_ok o) entry /\
      forall t', lost t' entry = if bool_decide (t = t') then gone else [];
    tu_rows : forall t', exists came, Forall (fun r => (t', r) ∈ inserted e) came /\
      rows_of t' (store st') ++ (if bool_decide (t = t') then gone else []) ≡ₚ rows_of t' (store st) ++ came;
    tu_older : Forall (fun r => ts r < cutoff o) gone }.

Lemma came_from (t : Table) (ins : list (Table * Row)) : Forall (fun r => (t, r) ∈ ins) (omap (fun tr => if bool_decide (tr.1 = t) then Some tr.2 else None) ins).
Proof.
  apply Forall_forall. intros r Hr. apply list_elem_of_omap in Hr as ([t' r'] & Hin & Hx). cbn in Hx.
  case_bool_decide as E; [|done]. injection Hx as ->. by subst t'.
Qed.

Lemma turned_idle o e t st st' : log st' = log st -> (store st' = store st \/ store st' = insert_all (inserted e) (store st)) ->
  turned o e t st st' [].
Proof.
  intros Hl Hs. split; [exists []; rewrite app_nil_r; split_and!; try done; intros t'; by destruct (bool_decide _)| |constructor].
  intros t'. replace (if bool_decide (t = t') then [] else []) with (@nil Row) by by destruct (bool_decide _).
  rewrite app_nil_r. destruct Hs as [-> | ->]; [exists []; by rewrite app_nil_r|].
  eexists. split; [apply came_from|]. by rewrite rows_insert.
Qed.

(** The recorded deletion of a batch. *)
Definition entry_of (t : Table) (s : Store) (p : Progress) (gone : list Row) (s' : Store) : list Deletion :=
  match gone with [] => [] | _ => [mkDeletion t s p gone s'] end.

Lemma entry_lost t s p gone s' t' : lost t' (entry_of t s p gone s') = if bool_decide (t = t') then gone else [].
Proof. unfold lost, entry_of. destruct gone; cbn; case_bool_decide; by rewrite ?app_nil_r. Qed.

Lemma entry_deletion_ok o t s p lim day k gone n s' : batch_limits o s p = Ok (lim, day) ->
  split_older lim n (rows_of t s) = (k, gone) -> Forall (deletion_ok o) (entry_of t s p gone s').
Proof.
  intros El Es. destruct (batch_limits_spec _ _ _ _ _ El) as [L1 L2].
  destruct (split_older_spec lim (rows_of t s) n) as (S1 & S2 & _). rewrite Es in S1, S2. cbn [fst snd] in *.
  assert (deletion_ok o (mkDeletion t s p gone s')) as H.
  { apply Forall_forall. cbn [dl_rows dl_table dl_store dl_progress]. intros r Hr.
    assert (r ∈ rows_of t s) as Hin by (rewrite <- S2; apply elem_of_app; by right).
    pose proof (proj1 (Forall_forall _ _) S1 r Hr) as Hlt. cbn in Hlt. split_and!; [done|lia|].
    intros docs Hd. destruct (L2 docs Hd) as (d & D1 & D2 & D3 & D4). exists d. split_and!; [done| |lia|done].
    by apply (floor_below s _ t). }
  unfold entry_of. destruct gone; [constructor|]. by constructor.
Qed.

Lemma delete_turned o e t st st' lim day k gone n :
  let s := insert_all (inserted e) (store st) in
  batch_limits o s (progress st) = Ok (lim, day) -> split_older lim n (rows_of t s) = (k, gone) ->
  log st' = log st ++ entry_of t s (progress st) gone (set_rows t k s) -> store st' = set_rows t k s -> turned o e t st st' gone.
Proof.
  intros s El Es E1 E2. destruct (split_older_spec lim (rows_of t s) n) as (S1 & S2 & _). rewrite Es in S1, S2. cbn [fst snd] in *.
  split.
  - eexists. split; [exact E1|]. split; [by eapply entry_deletion_ok|]. intros t'. apply entry_lost.
  - intros t'. rewrite E2. eexists. split; [apply came_from|]. rewrite <- rows_insert. fold s.
    case_bool_decide as Et; [subst t'; by rewrite rows_set|]. rewrite app_nil_r. by rewrite rows_set_other by congruence.
  - destruct (batch_limits_spec _ _ _ _ _ El) as [L1 _]. apply (Forall_impl _ _ _ S1). lia.
Qed.

(** Only a full batch is followed by another. *)
Lemma again_full lim s t k gone n m : split_older lim (Z.to_nat DELETE_BATCH) (rows_of t s) = (k, gone) ->
  (if zlen gone <=? 0 then Next_table n else if zlen gone <? DELETE_BATCH then Next_table (n + zlen gone)
   else Again (n + zlen gone)) = Again m -> zlen gone = DELETE_BATCH.
Proof.
  intros Es. destruct (split_older_spec lim (rows_of t s) (Z.to_nat DELETE_BATCH)) as (_ & _ & S3 & _). rewrite Es in S3.
  cbn [snd] in S3. destruct (_ <=? 0); [done|]. destruct (Z.ltb_spec (zlen gone) DELETE_BATCH); [done|]. intros _.
  unfold DELETE_BATCH in *. lia.
Qed.

Lemma turn_spec o e t n st : exists gone, turned o e t st (turn o e t n st).1 gone /\
  forall m, (turn o e t n st).2 = Again m -> zlen gone = DELETE_BATCH.
Proof.
  assert (forall st' (nx : Next), log st' = log st -> (store st' = store st \/ store st' = insert_all (inserted e) (store st)) ->
    (forall m, nx <> Again m) -> exists gone, turned o e t st (st', nx).1 gone /\ forall m, (st', nx).2 = Again m -> zlen gone = DELETE_BATCH) as Hidle.
  { intros st' nx H1 H2 H3. exists []. split; [by apply turned_idle|]. intros m E. by apply H3 in E. }
  unfold turn. destruct (over_budget e); [apply Hidle; auto|]. set (s := insert_all (inserted e) (store st)).
  assert (forall f, f <> StorageRaises -> exists gone, turned o e t st (turn_batch f o t n s st).1 gone /\
    forall m, (turn_batch f o t n s st).2 = Again m -> zlen gone = DELETE_BATCH) as Hb.
  2:{ destruct (fails e); [by apply Hb|by apply Hidle; auto|by apply Hb]. }
  intros f Hf. unfold turn_batch. destruct (batch_limits o s (progress st)) as [[lim day]|r] eqn:El.
  2:{ destruct r; try (by apply Hidle; auto). apply Hidle; auto. by destruct (deleted st). }
  unfold delete_older_than. destruct (split_older lim (Z.to_nat DELETE_BATCH) (rows_of t s)) as [k gone] eqn:Es.
  assert (forall st', log st' = log st ++ entry_of t s (progress st) gone (set_rows t k s) -> store st' = set_rows t k s -> turned o e t st st' gone) as Hok
    by (intros st' E1 E2; by eapply delete_turned).
  exists gone. destruct day as [d|], f; try done; try (split; [by apply Hok|intros m; by apply (again_full lim s t k)]).
  destruct (0 <? zlen gone) eqn:Eg; (split; [apply Hok; [|done]|done]); [done|].
  cbn [log fst]. destruct gone; [by rewrite app_nil_r|done].
Qed.

(** ** Runs *)

(** Rows neither appear nor vanish but by an insertion or a recorded deletion. *)
Record pruned (o : Options) (env : nat -> Env) (st st' : St) : Prop := mkPruned
  { pr_log : exists l, log st' = log st ++ l /\ Forall (deletion_ok o) l /\
      forall t, exists came, Forall (fun r => exists i, (t, r) ∈ inserted (env i)) came /\
        rows_of t (store st') ++ lost t l ≡ₚ rows_of t (store st) ++ came }.

Lemma pruned_refl o env st : pruned o env st st.
Proof.
  split. exists []. rewrite app_nil_r. split_and!; [done|constructor|]. intros t. exists []. by rewrite !app_nil_r.
Qed.

Lemma pruned_trans o env st1 st2 st3 : pruned o env st1 st2 -> pruned o env st2 st3 -> pruned o env st1 st3.
Proof.
  intros [(l1 & A1 & A2 & A3)] [(l2 & B1 & B2 & B3)]. split. exists (l1 ++ l2). split_and!.
  - by rewrite B1, A1, <- app_assoc.
  - by apply Forall_app.
  - intros t. destruct (A3 t) as (c1 & C1 & P1), (B3 t) as (c2 & C2 & P2). exists (c1 ++ c2). split; [by apply Forall_app|].
    rewrite lost_app, (Permutation_app_comm (lost t l1)), app_assoc, P2, <- app_assoc, (Permutation_app_comm c2), app_assoc, P1.
    by rewrite <- app_assoc.
Qed.

Lemma turned_pruned o env i t st st' gone : turned o (env i) t st st' gone -> pruned o env st st'.
Proof.
  intros [(l & L1 & L2 & L3) H _]. split. exists l. split_and!; [done|done|]. intros t'. destruct (H t') as (came & C1 & C2).
  exists came. split; [apply (Forall_impl _ _ _ C1); by exists i|]. by rewrite L3.
Qed.

Lemma record_pruned o env t n st : pruned o env st (record_deleted t n st).
Proof. split. destruct (pruned_refl o env st) as [(l & H)]. by exists l. Qed.

Lemma loop_pruned fuel o env : forall i t rest n st st' stop, loop fuel o env i t rest n st = Some (st', stop) -> pruned o env st st'.
Proof.
  induction fuel as [|fuel IH]; intros i t rest n st st' stop; cbn [loop]; [done|].
  destruct (turn_spec o (env i) t n st) as (gone & T & _). apply turned_pruned in T.
  destruct (turn o (env i) t n st) as [st1 [m|m|r]]; cbn [fst] in T.
  - intros H. eapply pruned_trans; [exact T|by eapply IH].
  - destruct rest as [|t' rest]; [intros [= <- <-]|intros H]; (eapply pruned_trans; [exact T|]).
    + apply record_pruned.
    + eapply pruned_trans; [apply record_pruned|by eapply IH].
  - destruct r; intros [= <- <-]; try done. eapply pruned_trans; [exact T|apply record_pruned].
Qed.

Lemma prune_pruned fuel positive c floor arch allow env s p st stop :
  prune fuel positive c floor arch allow env s p = Some (st, stop) -> exists o,
  cutoff o <= c /\ (forall f, floor = Some f -> cutoff o <= f) /\ remote o = arch /\
  pruned o env (mkSt s p 0 [] []) st.
Proof.
  assert (st = mkSt s p 0 [] [] -> exists o, cutoff o <= c /\ (forall f, floor = Some f -> cutoff o <= f) /\
    remote o = arch /\ pruned o env (mkSt s p 0 [] []) st) as Hidle.
  { intros ->. exists (mkOptions (Z.min c (default c floor)) floor arch). split_and!; [cbn; lia|intros f ->; cbn; lia|done|apply pruned_refl]. }
  unfold prune. destruct (negb positive); [intros [= <- _]; by apply Hidle|].
  destruct (_ && negb allow); [intros [= <- _]; by apply Hidle|]. destruct floor as [f|].
  - destruct (f <=? 0); [intros [= <- _]; by apply Hidle|]. intros H.
    eexists (mkOptions _ _ _). split_and!; [| | |by eapply loop_pruned]; cbn; [lia|intros f' [= <-]; lia|done].
  - intros H. eexists (mkOptions _ _ _). split_and!; [| | |by eapply loop_pruned]; cbn; [lia|done|done].
Qed.

(** C16: Whatever is inserted between the batches and whichever of them fail, every row a
    pruning run deletes was in its table, is older than the retention cutoff and than the
    archive's floor, and, with a remote archive, is of the source's first day, for which
    both tables have a verified remote receipt that agrees with the day's rows as they
    were under the lock, or with what an earlier partial deletion recorded; and rows
    neither appear nor vanish otherwise: the rows left and the rows deleted are the
    earlier ones and the inserted. *)
Theorem deletes_only_verified fuel positive c floor arch allow env s p st stop :
  prune fuel positive c floor arch allow env s p = Some (st, stop) ->
  Forall (fun d => Forall (fun r =>
      r ∈ rows_of (dl_table d) (dl_store d) /\ ts r < c /\ (forall f, floor = Some f -> ts r < f) /\
      forall docs, arch = Some docs -> exists day, source_floor_day (dl_store d) = Some day /\
        day_start_us day <= ts r < day_start_us day + DAY_US /\ verified (dl_store d) (dl_progress d) docs day) (dl_rows d)) (log st) /\
  forall t, exists came, Forall (fun r => exists i, (t, r) ∈ inserted (env i)) came /\
    rows_of t (store st) ++ lost t (log st) ≡ₚ rows_of t s ++ came.
Proof.
  intros H. destruct (prune_pruned _ _ _ _ _ _ _ _ _ _ _ H) as (o & Hc & Hf & Hrem & [(l & L1 & L2 & L3)]).
  cbn in L1. rewrite L1. split; [|exact L3].
  apply (Forall_impl _ _ _ L2). intros d Hd. apply (Forall_impl _ _ _ Hd). intros r (R1 & R2 & R3). rewrite <- Hrem.
  split_and!; [done|lia| |done]. intros f Ef. specialize (Hf f Ef). lia.
Qed.

Lemma eq_str_spec v s : eq_str v s = true -> v = VStr s.
Proof. destruct v; try done. cbn. intros ->%bool_decide_eq_true. done. Qed.

(** A receipt in force is what one of the documents says. *)
Lemma receipts_from docs t day rc : receipts docs t !! day = Some rc -> exists d, d ∈ docs /\ strict_receipt d t = Some rc.
Proof.
  unfold receipts, remote_verified_receipts. intros H.
  assert (forall m : gmap Z Receipt, forall rs, foldl (fun m r => <[rc_day r := r]> m) m rs !! day = Some rc -> m !! day = Some rc \/ rc ∈ rs) as G.
  { intros m rs. revert m. induction rs as [|x rs IH]; intros m; [by left|]. cbn. intros [Hm|Hm]%IH; [|right; by right].
    destruct (decide (rc_day x = day)) as [<-|]; [|rewrite lookup_insert_ne in Hm by done; by left].
    rewrite lookup_insert_eq in Hm. injection Hm as ->. right. by left. }
  apply G in H as [H|H]; [by rewrite lookup_empty in H|]. apply list_elem_of_omap in H as (d & Hd & Hr). by exists d.
Qed.

Lemma strict_receipt_says d t rc : strict_receipt d t = Some rc ->
  get "source_table" d = VStr (table_name t) /\ get "source_content_sha256" d = VStr (source_content_sha256 rc).
Proof.
  unfold strict_receipt. destruct (_ && eq_str (get "table" d) (table_name t)); [|done].
  destruct (get "day" d); try done. destruct (parse_day s); [|done].
  destruct (is_sha256 (get "local_sha256" d)); [|done]. destruct (is_sha256 (get "remote_fetch_sha256" d)); [|done].
  destruct (is_sha256 (get "manifest_sha256" d)); [|done]. destruct (is_sha256 (get "remote_manifest_sha256" d)); [|done].
  destruct (is_sha256 (get "source_content_sha256" d)) as [src|] eqn:Es; [|done].
  destruct (_ && bool_decide (_ = _)); [|done]. destruct (positive_int (get "local_bytes" d)); [|done].
  destruct (positive_int (get "remote_fetch_bytes" d)); [|done]. destruct (positive_int (get "local_rows" d)); [|done].
  destruct (positive_int (get "remote_fetch_rows" d)); [|done]. destruct (positive_int (get "source_rows" d)); [|done].
  destruct (_ && match get "object_id" d with VStr (_ :: _) => true | _ => false end) eqn:Eb; [|done].
  intros [= <-]. rewrite !andb_true_iff in Eb. destruct Eb as [[[[[[_ _] Et%eq_str_spec] _] _] _] _].
  split; [exact Et|]. cbn. unfold is_sha256 in Es. destruct (get "source_content_sha256" d); try done.
  by destruct (_ && forallb hex_digit s0); simplify_eq.
Qed.

(** ** What a chain of deletions leaves known *)

Lemma filter_perm {A} (f : A -> bool) l l' : l ≡ₚ l' -> List.filter f l ≡ₚ List.filter f l'.
Proof.
  induction 1 as [|x l l' _ IH|x y l|l1 l2 l3 _ IH1 _ IH2]; cbn; [done| | |by etransitivity].
  - destruct (f x); by rewrite IH.
  - destruct (f x), (f y); by try apply perm_swap.
Qed.

(** The day a batch was taken off, and the rows of it whose digests the run computed:
    those before the batch and those after it. *)
Definition dl_day (d : Deletion) : Z := default 0 (source_floor_day (dl_store d)).
Definition compared (d : Deletion) : list (list Row) :=
  [day_rows (dl_table d) (dl_day d) (dl_store d); day_rows (dl_table d) (dl_day d) (dl_left d)].

Section kept.
Variable docs : list Doc.
(** The rows whose digests are at hand, and something known of rows: it holds of fewer
    rows, of rows at hand with the same digest, and of those that agree with a receipt. *)
Variable Seen : Table -> list Row -> Prop.
Variable K : Table -> list Row -> Prop.
Hypothesis K_sub : forall t rs rs', K t rs -> rs' ⊆+ rs -> K t rs'.
Hypothesis K_same : forall t rs rs', Seen t rs -> Seen t rs' -> (zlen rs, content t rs) = (zlen rs', content t rs') -> K t rs -> K t rs'.
Hypothesis K_receipt : forall t d rc rs, Seen t rs -> receipts docs t !! d = Some rc ->
  (source_rows rc, source_content_sha256 rc) = (zlen rs, content t rs) -> K t rs.
#[local] Set Default Proof Using "All".

Definition progress_kept (p : Progress) : Prop := forall t d kept, p !! (t, d) = Some kept ->
  exists rs, kept = (zlen rs, content t rs) /\ K t rs /\ Seen t rs.
Definition log_kept (l : list Deletion) : Prop := Forall (fun dl => K (dl_table dl) (dl_rows dl)) l.
Definition log_seen (l : list Deletion) : Prop := Forall (fun dl => Forall (Seen (dl_table dl)) (compared dl)) l.

Lemma verified_kept s p d t : progress_kept p -> verified s p docs d -> Seen t (day_rows t d s) -> K t (day_rows t d s).
Proof.
  intros Hp Hv Hs. destruct (Hv t) as (rc & Hrc & Hm). destruct (p !! (t, d)) as [kept|] eqn:E.
  - destruct (Hp _ _ _ E) as (rs & E1 & E2 & E3). subst kept. by apply (K_same t rs).
  - by apply (K_receipt t d rc).
Qed.

(** A batch is taken off one day. *)
Lemma batch_of_day o t s p lim d k gone n : remote o = Some docs -> batch_limits o s p = Ok (lim, Some d) ->
  split_older lim n (rows_of t s) = (k, gone) -> day_rows t d s ≡ₚ List.filter (in_day d) k ++ gone.
Proof.
  intros Ho El Es. pose proof (entry_deletion_ok _ _ _ _ _ _ _ _ _ s El Es) as Hd. destruct (batch_limits_spec _ _ _ _ _ El) as [_ L2].
  destruct (L2 docs Ho) as (d' & [= <-] & Hfloor & _ & _). destruct (split_older_spec lim (rows_of t s) n) as (_ & S2 & _).
  rewrite Es in S2. cbn [fst snd] in S2. unfold day_rows. rewrite <- (filter_perm _ _ _ S2), List.filter_app. apply Permutation_app; [done|].
  assert (Forall (fun r => in_day d r = true) gone) as Hg.
  { unfold entry_of in Hd. destruct gone as [|g gs]; [constructor|]. apply Forall_cons in Hd as [Hd _].
    apply (Forall_impl _ _ _ Hd). intros r (_ & _ & R3). destruct (R3 docs Ho) as (day' & Ef & Hrange & _). cbn in Ef.
    assert (day' = d) as -> by congruence. unfold in_day. lia. }
  clear -Hg. induction Hg as [|r gone Hr _ IH]; [done|]. cbn. by rewrite Hr, IH.
Qed.

(** What a turn adds to the log, and what it then promises. *)
Definition adds (st st' : St) : Prop := exists l, log st' = log st ++ l /\
  (log_seen l -> progress_kept (progress st') /\ log_kept l).

Lemma turn_kept o e t n st : remote o = Some docs -> progress_kept (progress st) -> adds st (turn o e t n st).1.
Proof.
  intros Ho Hp. assert (forall st', progress st' = progress st -> log st' = log st -> adds st st') as Hidle.
  { intros st' H1 H2. exists []. rewrite app_nil_r, H1. split; [done|]. intros _. split; [done|constructor]. }
  unfold turn. destruct (over_budget e); [by apply Hidle|]. set (s := insert_all (inserted e) (store st)).
  assert (forall f, adds st (turn_batch f o t n s st).1) as Hb; [|destruct (fails e); [apply Hb|by apply Hidle|apply Hb]].
  intros f. unfold turn_batch. destruct (batch_limits o s (progress st)) as [[lim day]|r] eqn:El; [|by destruct r; apply Hidle].
  destruct (batch_limits_spec _ _ _ _ _ El) as [_ L2]. destruct (L2 docs Ho) as (d & -> & Hfloor & _ & Hv).
  unfold delete_older_than. destruct (split_older lim (Z.to_nat DELETE_BATCH) (rows_of t s)) as [k gone] eqn:Es.
  destruct gone as [|g gs].
  { cbn [app]. destruct f; cbn; apply Hidle; cbn; by rewrite ?app_nil_r. }
  set (dl := mkDeletion t s (progress st) (g :: gs) (set_rows t k s)).
  assert (dl_day dl = d) as Ed by (unfold dl_day; cbn [dl dl_store]; by rewrite Hfloor).
  assert (log_seen [dl] -> log_kept [dl] /\ K t (day_rows t d (set_rows t k s)) /\ Seen t (day_rows t d (set_rows t k s))) as Hdl.
  { intros [Hs _]%Forall_cons. unfold compared in Hs. rewrite Ed in Hs. cbn [dl dl_table dl_store dl_left] in Hs.
    apply Forall_cons in Hs as [Hs [Hs' _]%Forall_cons]. pose proof (verified_kept _ _ _ t Hp Hv Hs) as HK.
    pose proof (batch_of_day _ _ _ _ _ _ _ _ _ Ho El Es) as Hday. split; [|split; [|done]].
    - constructor; [|constructor]. apply (K_sub _ _ _ HK). cbn [dl dl_rows]. rewrite Hday. by apply submseteq_inserts_l.
    - apply (K_sub _ _ _ HK). rewrite Hday. unfold day_rows. rewrite rows_set. by apply submseteq_inserts_r. }
  assert (forall p, p = progress st \/ p = <[(t, d) := source_day_proof (set_rows t k s) t d]> (progress st) ->
    log_seen [dl] -> progress_kept p) as Hprog.
  { intros p [-> | ->] Hs; [done|]. destruct (Hdl Hs) as (_ & D2 & D3). unfold progress_kept, Progress in *. intros t' d' kept.
    destruct (decide ((t, d) = (t', d'))) as [E|E]; [|rewrite lookup_insert_ne by done; apply Hp].
    injection E as <- <-. rewrite lookup_insert_eq. intros [= <-]. by eexists. }
  assert (forall st', log st' = log st ++ [dl] -> progress st' = progress st \/
    progress st' = <[(t, d) := source_day_proof (set_rows t k s) t d]> (progress st) -> adds st st') as Hadd.
  { intros st' H1 H2. exists [dl]. split; [done|]. intros Hs. split; [by apply (Hprog _ H2)|by apply Hdl]. }
  fold dl. destruct f; (apply Hadd; [done|first [by left|by right]]).
Qed.

Lemma log_seen_app l l' : log_seen (l ++ l') <-> log_seen l /\ log_seen l'.
Proof. apply Forall_app. Qed.

Lemma loop_kept o env : remote o = Some docs -> forall fuel i t rest n st st' stop,
  loop fuel o env i t rest n st = Some (st', stop) -> progress_kept (progress st) -> log_kept (log st) ->
  log_seen (log st') -> progress_kept (progress st') /\ log_kept (log st').
Proof.
  intros Ho. induction fuel as [|fuel IH]; intros i t rest n st st' stop; cbn [loop]; [done|]. intros H Hp Hl Hs.
  destruct (turn_kept o (env i) t n st Ho Hp) as (l & Hl1 & Hk).
  destruct (turn o (env i) t n st) as [st1 nx]. cbn [fst] in *.
  assert ((exists l', log st' = log st1 ++ l') -> progress_kept (progress st1) /\ log_kept (log st1)) as Hnext.
  { intros [l' El']. rewrite El', Hl1, !log_seen_app in Hs. destruct Hk as [Hk1 Hk2]; [apply Hs|]. split; [done|].
    rewrite Hl1. by apply Forall_app. }
  destruct nx as [m|m|r].
  - destruct (loop_pruned _ _ _ _ _ _ _ _ _ _ H) as [(l' & El' & _)]. destruct Hnext; [by exists l'|]. by apply (IH _ _ _ _ _ _ _ H).
  - destruct rest as [|t' rest]; [injection H as <- _; apply Hnext; exists []; by rewrite app_nil_r|].
    destruct (loop_pruned _ _ _ _ _ _ _ _ _ _ H) as [(l' & El' & _)]. destruct Hnext; [by exists l'|]. by apply (IH _ _ _ _ _ _ _ H).
  - assert (log st' = log st1 /\ progress st' = progress st1) as [E1 E2] by (destruct r; by injection H as <- _).
    rewrite E1, E2. apply Hnext. exists []. by rewrite app_nil_r.
Qed.

Lemma prune_kept fuel positive c floor allow env s p st stop :
  prune fuel positive c floor (Some docs) allow env s p = Some (st, stop) -> progress_kept p -> log_seen (log st) ->
  progress_kept (progress st) /\ log_kept (log st).
Proof.
  intros H Hp Hs. assert (log_kept []) as Hn by constructor. unfold prune in H.
  destruct (negb positive); [by injection H as <- _|]. destruct (_ && negb allow); [by injection H as <- _|].
  destruct floor as [f|]; [destruct (f <=? 0); [by injection H as <- _|]|]; by (refine (loop_kept _ _ _ _ _ _ _ _ _ _ _ H _ _ _)).
Qed.
End kept.

(** ** Termination *)

Definition older_in (o : Options) (t : Table) (s : Store) : nat := older (cutoff o) (rows_of t s).

Lemma older_perm c rs rs' : rs ≡ₚ rs' -> older c rs = older c rs'.
Proof.
  unfold older. induction 1 as [|x rs rs' _ IH|x y rs|rs1 rs2 rs3 _ IH1 _ IH2]; cbn; [done| | |congruence].
  - by destruct (ts x <? c); cbn; rewrite IH.
  - by destruct (ts x <? c), (ts y <? c).
Qed.

Lemma older_app c rs rs' : older c (rs ++ rs') = (older c rs + older c rs')%nat.
Proof. unfold older. by rewrite List.filter_app, length_app. Qed.

Lemma older_all c rs : Forall (fun r => ts r < c) rs -> older c rs = length rs.
Proof. unfold older. induction 1 as [|r rs H _ IH]; [done|]. cbn. rewrite (proj2 (Z.ltb_lt _ _) H). cbn. by rewrite IH. Qed.

Lemma older_none c rs : Forall (fun r => c <= ts r) rs -> older c rs = 0%nat.
Proof. unfold older. induction 1 as [|r rs H _ IH]; [done|]. cbn. by rewrite (proj2 (Z.ltb_ge _ _) H). Qed.

Section terminates.
Variable o : Options.
Variable env : nat -> Env.
Hypothesis nothing_older : forall i t r, (t, r) ∈ inserted (env i) -> cutoff o <= ts r.
#[local] Set Default Proof Using "All".

(** A turn takes its deleted rows off the older ones and adds none. *)
Lemma turn_older i t n st gone t' : turned o (env i) t st (turn o (env i) t n st).1 gone ->
  (older_in o t' (store (turn o (env i) t n st).1) + (if bool_decide (t = t') then length gone else 0) = older_in o t' (store st))%nat.
Proof.
  intros [_ H Hg]. destruct (H t') as (came & C1 & C2). apply (older_perm (cutoff o)) in C2. rewrite !older_app in C2.
  rewrite (older_none _ came) in C2 by (apply (Forall_impl _ _ _ C1); intros r; apply nothing_older). unfold older_in.
  case_bool_decide; [rewrite (older_all _ gone) in C2 by done|]; cbn in C2; lia.
Qed.

Fixpoint work (rest : list Table) (s : Store) : nat :=
  match rest with [] => 0 | t :: rest => S (older_in o t s + work rest s) end.

Lemma work_le rest s s' : (forall t, (older_in o t s' <= older_in o t s)%nat) -> (work rest s' <= work rest s)%nat.
Proof. intros H. induction rest as [|t rest IH]; cbn; [lia|]. specialize (H t). lia. Qed.

Lemma loop_total fuel : forall i t rest n st, (older_in o t (store st) + work rest (store st) < fuel)%nat ->
  is_Some (loop fuel o env i t rest n st).
Proof.
  induction fuel as [|fuel IH]; intros i t rest n st Hf; [lia|]. cbn [loop].
  destruct (turn_spec o (env i) t n st) as (gone & T & Hfull). pose proof (fun t' => turn_older i t n st gone t' T) as Hold.
  pose proof (work_le rest (store st) (store (turn o (env i) t n st).1) ltac:(intros t'; specialize (Hold t'); lia)) as Hw.
  specialize (Hold t). rewrite bool_decide_true in Hold by done.
  destruct (turn o (env i) t n st) as [st1 [m|m|r]]; cbn [fst snd] in *.
  - apply IH. specialize (Hfull m eq_refl). unfold DELETE_BATCH in Hfull. lia.
  - destruct rest as [|t' rest]; [by eexists|]. apply IH. cbn in *. lia.
  - destruct r; by eexists.
Qed.
End terminates.

(** A pruning run ends, with or without a time budget and whatever fails, as long as
    nothing older than the cutoff is inserted meanwhile: the fuel that a turn for every
    row of the two tables and two more give is enough. *)
Theorem prune_terminates positive c floor arch allow env s p fuel :
  (forall i t r, (t, r) ∈ inserted (env i) -> c <= ts r) ->
  (length (trades s) + length (book_top s) + 2 <= fuel)%nat ->
  is_Some (prune fuel positive c floor arch allow env s p).
Proof.
  intros Hnew Hf. unfold prune. destruct (negb positive); [by eexists|]. destruct (_ && negb allow); [by eexists|].
  assert (forall c', c' <= c -> is_Some (loop fuel (mkOptions c' floor arch) env 0 Trades [BookTop] 0 (mkSt s p 0 [] []))) as G.
  { intros c' Hc. apply loop_total; [intros i t r Hin; specialize (Hnew i t r Hin); cbn; lia|].
    cbn. unfold older_in, older. cbn. pose proof (List.filter_length_le (fun r => ts r <? c') (trades s)).
    pose proof (List.filter_length_le (fun r => ts r <? c') (book_top s)). lia. }
  destruct floor as [f|]; [|apply G; lia]. destruct (f <=? 0); [by eexists|]. apply G. lia.
Qed.

(** ** The plan *)

(** [prune_plan] of one table (its time span aside). *)
Record Plan := mkPlan { pl_rows : Z; pl_delete : Z; pl_keep : Z; pl_batches : Z }.
Definition prune_plan (positive : bool) (c : Z) (t : Table) (s : Store) : Plan :=
  let n := zlen (rows_of t s) in
  let doomed := if positive then Z.of_nat (older c (rows_of t s)) else 0 in
  mkPlan n doomed (n - doomed) ((doomed + DELETE_BATCH - 1) / DELETE_BATCH).

Definition batch_nat : nat := Z.to_nat DELETE_BATCH.
(** The batches a table's loop takes: one more than the full ones. *)
Definition turns_for (m : nat) : nat := S (m / batch_nat).

Lemma batch_nat_Z : Z.of_nat batch_nat = DELETE_BATCH.
Proof. apply Z2Nat.id. done. Qed.
Lemma batch_nat_eq : Z.to_nat DELETE_BATCH = batch_nat.
Proof. done. Qed.
#[local] Opaque batch_nat.

Lemma div_step (b m : nat) : (0 < b <= m)%nat -> (m / b = S ((m - b) / b))%nat.
Proof.
  intros H. replace m with ((m - b) + 1 * b)%nat at 1 by lia. rewrite Nat.div_add by lia. lia.
Qed.

Section quiet_runs.
Variable c : Z.
Abbreviation o := (mkOptions c None None).
#[local] Set Default Proof Using "Type".

(** One undisturbed batch. *)
Lemma quiet_turn t n st : exists l, turn o quiet t n st =
  let '(k, gone) := split_older c batch_nat (rows_of t (store st)) in
  (mkSt (set_rows t k (store st)) (progress st) (S (batches st)) (deleted st) (log st ++ l),
   if zlen gone <=? 0 then Next_table n else if zlen gone <? DELETE_BATCH then Next_table (n + zlen gone) else Again (n + zlen gone)).
Proof.
  unfold turn, turn_batch, batch_limits, delete_older_than. cbn [over_budget inserted fails quiet insert_all foldl remote cutoff].
  rewrite batch_nat_eq. destruct (split_older c batch_nat (rows_of t (store st))) as [k gone]. by eexists.
Qed.

Lemma quiet_table m : forall fuel i t rest n st, older c (rows_of t (store st)) = m -> exists l,
  let st' := record_deleted t (n + Z.of_nat m) (mkSt (set_rows t (newer c (rows_of t (store st))) (store st)) (progress st)
               (batches st + turns_for m) (deleted st) (log st ++ l)) in
  loop (turns_for m + fuel) o (fun _ => quiet) i t rest n st
  = match rest with [] => Some (st', Finished) | t' :: rest => loop fuel o (fun _ => quiet) (i + turns_for m) t' rest 0 st' end.
Proof.
  induction m as [m IH] using lt_wf_ind. intros fuel i t rest n st Hm. unfold turns_for at 2. cbn [Nat.add loop].
  destruct (quiet_turn t n st) as [l1 ->]. destruct (split_older_spec c (rows_of t (store st)) batch_nat) as (_ & _ & S3 & S4 & S5).
  pose proof (split_older_newer c (rows_of t (store st)) batch_nat) as Hnew.
  destruct (split_older c batch_nat (rows_of t (store st))) as [k gone]. cbn [fst snd] in *. rewrite Hm in *.
  pose proof batch_nat_Z as HZ. assert (0 < batch_nat)%nat as HB by (unfold DELETE_BATCH in HZ; lia).
  destruct (le_lt_dec batch_nat m) as [Hge|Hlt].
  - destruct (Z.leb_spec (zlen gone) 0); [lia|]. destruct (Z.ltb_spec (zlen gone) DELETE_BATCH); [lia|].
    set (st1 := mkSt _ _ _ _ _). destruct (IH (m - batch_nat)%nat ltac:(lia) fuel (S i) t rest (n + zlen gone) st1) as [l2 H2].
    { cbn [st1 store]. rewrite rows_set. lia. }
    assert (m / batch_nat = S ((m - batch_nat) / batch_nat))%nat as Hdiv.
    { apply div_step. lia. }
    exists (l1 ++ l2). cbn zeta. unfold turns_for in *. rewrite Hdiv. cbn [Nat.add] in *. rewrite H2. cbn [st1 store progress batches deleted log].
    rewrite rows_set, Hnew, <- app_assoc.
    replace (set_rows t (newer c (rows_of t (store st))) (set_rows t k (store st))) with (set_rows t (newer c (rows_of t (store st))) (store st)) by by destruct t.
    replace (n + zlen gone + Z.of_nat (m - batch_nat)) with (n + Z.of_nat m) by lia.
    replace (S (batches st) + S ((m - batch_nat) / batch_nat))%nat with (batches st + S (S ((m - batch_nat) / batch_nat)))%nat by lia.
    rewrite (Nat.add_succ_r i (S ((m - batch_nat) / batch_nat))). reflexivity.
  - exists l1. cbn zeta. unfold turns_for. rewrite Nat.div_small by done. rewrite Nat.add_0_l, !Nat.add_1_r.
    rewrite <- S5 by lia. assert (length gone = m) as Hg by lia.
    destruct (Z.leb_spec (zlen gone) 0); [replace (n + Z.of_nat m) with n by lia; done|].
    destruct (Z.ltb_spec (zlen gone) DELETE_BATCH); [|lia]. by rewrite Hg.
Qed.
End quiet_runs.

(** Undisturbed and without an archive's floor, a pruning run deletes exactly the rows
    the plan announces: afterwards each table holds exactly its rows not older than the
    cutoff, in their order, and the reported numbers are the plan's; it takes one batch
    more than the full ones per table. *)
Theorem prune_follows_plan c s p fuel :
  (turns_for (older c (trades s)) + turns_for (older c (book_top s)) <= fuel)%nat ->
  exists st, prune fuel true c None None false (fun _ => quiet) s p = Some (st, Finished) /\
    (forall t, rows_of t (store st) = newer c (rows_of t s)) /\
    (forall t, zlen (rows_of t (store st)) = pl_keep (prune_plan true c t s)) /\
    deleted st = filter (fun tn => tn.2 <> 0) ((fun t => (t, pl_delete (prune_plan true c t s))) <$> PRUNE_TABLES) /\
    batches st = (turns_for (older c (trades s)) + turns_for (older c (book_top s)))%nat.
Proof.
  intros Hf. unfold prune. cbn [negb bool_decide andb]. rewrite bool_decide_false by by intros [].
  cbn [andb]. set (st0 := mkSt s p 0 [] []).
  replace fuel with (turns_for (older c (trades s)) + (turns_for (older c (book_top s)) + (fuel - turns_for (older c (trades s)) - turns_for (older c (book_top s)))))%nat by lia.
  destruct (quiet_table c (older c (trades s)) (turns_for (older c (book_top s)) + (fuel - turns_for (older c (trades s)) - turns_for (older c (book_top s))))
    0 Trades [BookTop] 0 st0 eq_refl) as [l1 ->]. set (st1 := record_deleted _ _ _).
  destruct (quiet_table c (older c (book_top s)) (fuel - turns_for (older c (trades s)) - turns_for (older c (book_top s)))
    (0 + turns_for (older c (trades s))) BookTop [] 0 st1 eq_refl) as [l2 ->].
  assert (forall t, zlen (newer c (rows_of t s)) = zlen (rows_of t s) - Z.of_nat (older c (rows_of t s))) as Hlen.
  { intros t. unfold newer, older. pose proof (List.filter_length (fun r => ts r <? c) (rows_of t s)). lia. }
  eexists. split; [reflexivity|]. assert (forall t, rows_of t (set_rows BookTop (newer c (book_top s)) (set_rows Trades (newer c (trades s)) s)) = newer c (rows_of t s)) as Hr
    by by intros [].
  split; [exact Hr|]. split; [intros t; etransitivity; [|exact (Hlen t)]; by rewrite <- Hr|]. split; [|done].
  cbn [record_deleted deleted st1 st0 prune_plan pl_delete PRUNE_TABLES fmap list_fmap rows_of]. rewrite !Z.add_0_l.
  rewrite !filter_cons, filter_nil. cbn [snd].
  destruct (Z.eqb_spec (Z.of_nat (older c (trades s))) 0), (Z.eqb_spec (Z.of_nat (older c (book_top s))) 0);
    repeat case_decide; try done; lia.
Qed.
End retention.

(** ** How fast the disk fills *)

(** [DiskWatch]: the first and the last sample, a time and a size. *)
Record DiskWatch := mkWatch { first : option (float * Z); last : option (float * Z) }.
Definition sample (now : float) (size : Z) (w : DiskWatch) : DiskWatch :=
  mkWatch (match first w with Some f => Some f | None => Some (now, size) end) (Some (now, size)).
Definition growth_bytes_per_hour (w : DiskWatch) : float :=
  match first w, last w with
  | Some f, Some l =>
      let dt := fsub l.1 f.1 in
      if flt dt (of_int 60) then Clock.zero else fmul (fdiv (of_int (l.2 - f.2)) dt) (of_int 3600)
  | _, _ => Clock.zero
  end.
Definition hours_until_full (free : Z) (w : DiskWatch) : option float :=
  let g := growth_bytes_per_hour w in
  if fle g Clock.zero then None else Some (fdiv (of_int free) g).

(** ** Witnesses and examples *)

Definition demo_parse (s : pystr) : option Z := Some 0.
Definition demo_content (t : Table) (rs : list Row) : pystr := replicate 64 0x61.
Definition demo_sha : Val := VStr (replicate 64 0x61).
Definition demo_doc (t : Table) (rows : Z) : Doc := list_to_map
  [(lit "schema_version", VInt 1); (lit "status", VStr (lit "verified")); (lit "table", VStr (table_name t));
   (lit "day", VStr (lit "1970-01-01")); (lit "local_sha256", demo_sha); (lit "remote_fetch_sha256", demo_sha);
   (lit "manifest_sha256", demo_sha); (lit "remote_manifest_sha256", demo_sha); (lit "source_content_sha256", demo_sha);
   (lit "local_bytes", VInt 9); (lit "remote_fetch_bytes", VInt 9); (lit "local_rows", VInt rows);
   (lit "remote_fetch_rows", VInt rows); (lit "source_rows", VInt rows); (lit "source_table", VStr (table_name t));
   (lit "source_day", VStr (lit "1970-01-01")); (lit "source_from_us", VInt 0); (lit "source_to_us", VInt DAY_US);
   (lit "object_id", VStr (lit "x"))].
Definition demo_docs : list Doc := [demo_doc Trades 2; demo_doc BookTop 1].
(** Two trades and a quote of the archived first day, and a trade of the next. *)
Definition demo_store : Store := mkStore [mkRow 5 []; mkRow (DAY_US + 1) []; mkRow 7 []] [mkRow 6 []].
Definition demo_prune (fuel : nat) := prune demo_parse demo_content fuel true (10 * DAY_US) (Some DAY_US) (Some demo_docs) false.

Lemma deletes_only_verified_witness : exists st,
  demo_prune 10 (fun _ => quiet) demo_store ∅ = Some (st, Finished) /\ deleted st = [(Trades, 2); (BookTop, 1)] /\
  exists came, Forall (fun r => exists i : nat, (Trades, r) ∈ inserted quiet) came /\
    rows_of Trades (store st) ++ lost Trades (log st) ≡ₚ rows_of Trades demo_store ++ came.
Proof.
  eexists. split; [vm_compute; reflexivity|]. split; [reflexivity|].
  refine (proj2 (deletes_only_verified demo_parse demo_content 10 true (10 * DAY_US) (Some DAY_US) (Some demo_docs) false
    (fun _ => quiet) demo_store ∅ _ Finished _) Trades). vm_compute. reflexivity.
Defined.

Lemma prune_terminates_witness :
  is_Some (demo_prune 6 (fun i => mkEnv [(Trades, mkRow (20 * DAY_US) [])] false NoFailure) demo_store ∅).
Proof.
  refine (prune_terminates demo_parse demo_content true (10 * DAY_US) (Some DAY_US) (Some demo_docs) false _ demo_store ∅ 6 _ _).
  - cbn. intros _ t r [[= -> ->]|Hin]%elem_of_cons; [vm_compute; discriminate|by apply elem_of_nil in Hin].
  - apply Nat.leb_le. reflexivity.
Defined.

Lemma prune_follows_plan_witness : exists st,
  prune demo_parse demo_content 2 true DAY_US None None false (fun _ => quiet) demo_store ∅ = Some (st, Finished) /\
  forall t, rows_of t (store st) = newer DAY_US (rows_of t demo_store).
Proof.
  destruct (prune_follows_plan demo_parse demo_content DAY_US demo_store ∅ 2) as (st & H1 & H2 & _).
  - apply Nat.leb_le. vm_compute. reflexivity.
  - exists st. exact (conj H1 H2).
Defined.

(** The deletion is committed before the progress file is written: when writing it fails,
    the day no longer agrees with its receipt, and no later run deletes anything. *)
Example lost_progress_blocks :
  match demo_prune 10 (fun _ => mkEnv [] false ProgressRaises) demo_store ∅ with
  | Some (st, _) =>
      deleted st = [] /\ rows_of Trades (store st) = [mkRow (DAY_US + 1) []] /\
      match demo_prune 10 (fun _ => quiet) (store st) (progress st) with
      | Some (st', stop) => stop = Blocked SourceDayChanged /\ log st' = []
      | None => False
      end
  | None => False
  end.
Proof. by vm_compute. Qed.

(** The two batches of a table before and after the day changes: the run reports that it
    was blocked and nothing deleted, although a whole batch was. *)
Example blocked_run_unreported :
  let n := (Z.to_nat DELETE_BATCH + 1)%nat in
  let s := mkStore (replicate n (mkRow 5 [])) [] in
  let docs := [demo_doc Trades (Z.of_nat n); demo_doc BookTop 0] in
  let env i := match i with 1%nat => mkEnv [(Trades, mkRow 6 [])] false NoFailure | _ => quiet end in
  match prune demo_parse demo_content 5 true (10 * DAY_US) None (Some docs) false env s ∅ with
  | Some (st, stop) => stop = Blocked SourceDayChanged /\ deleted st = [] /\ length (rows_of Trades (store st)) = 2%nat
  | None => False
  end.
Proof. vm_compute. split_and!; reflexivity. Qed.
End Retention.
