(* ===== verification/Supervisor.v ===== *)
(** * Supervision of long-lived tasks (src/src/mdfeed/supervisor.py)

    A supervised task runs a factory's coroutine again and again until a stop is
    requested.  Every task is a small state machine (about to enter its loop, awaiting
    the factory, waiting before a restart, ended); the service's tasks, the table that
    holds their references and the stop event are the world that the steps change. *)

From S2P Require Import Prelude PyStr PyFloat Dict.

Module Supervisor.

(** [RESTART_BACKOFF_MAX_S] and the first delay. *)
Definition RESTART_BACKOFF_MAX_S : float := of_int 30.
Definition FIRST_BACKOFF : float := fdiv (of_int 1) (of_int 2).

(** How a factory's coroutine ends: it returns, it is cancelled, it raises. *)
Inductive Exit := Returned | Cancelled | Raised (what : pystr).
(** [last_exit]. *)
Inductive LastExit := NoExit | Stopped | WasReturned | WasCancelled | CancelledByStop | Died (what : pystr).

Inductive Phase :=
| Entering                (* about to test the loop's condition for the first time *)
| Running                 (* awaits the factory *)
| Waiting                 (* awaits the stop event, for [backoff] seconds at most *)
| Done.
#[export] Instance phase_eq_dec : EqDecision Phase.
Proof. solve_decision. Defined.

Record Task := mkTask
  { name : pystr; restarts : Z; last_exit : LastExit; alive : bool; restart : bool;
    backoff : float; phase : Phase }.

(** [tasks] is the dict of the supervisor, by task number; [spawned] is every task there is. *)
Record World := mkWorld
  { backoff_max_s : float; tasks : list (pystr * nat); spawned : list Task; stop : bool; restarts_total : Z }.
Definition new_supervisor (backoff_max : float) : World := mkWorld backoff_max [] [] false 0.

(** [spawn]: the state is kept under its name. *)
Definition spawn (nm : pystr) (rs : bool) (w : World) : World :=
  mkWorld (backoff_max_s w) (dset nm (length (spawned w)) (tasks w))
    (spawned w ++ [mkTask nm 0 NoExit true rs FIRST_BACKOFF Entering]) (stop w) (restarts_total w).

Definition set_phase (p : Phase) (t : Task) : Task :=
  mkTask (name t) (restarts t) (last_exit t) (alive t) (restart t) (backoff t) p.

(** The head of the loop. *)
Definition enter (stopping : bool) (t : Task) : Task :=
  if stopping then set_phase Done t
  else mkTask (name t) (restarts t) (last_exit t) true (restart t) (backoff t) Running.

(** The body from the end of the factory on; the flag says that a restart was counted. *)
Definition finish (e : Exit) (stopping : bool) (t : Task) : Task * bool :=
  let ended x a := mkTask (name t) (restarts t) x a (restart t) (backoff t) Done in
  match e, stopping with
  | Returned, true => (ended Stopped (alive t), false)
  | Cancelled, true => (ended CancelledByStop (alive t), false)
  | _, _ =>
      let x := match e with Returned => WasReturned | Cancelled => WasCancelled | Raised w => Died w end in
      if negb (restart t) || stopping then (ended x false, false)
      else (mkTask (name t) (restarts t + 1) x false (restart t) (backoff t) Waiting, true)
  end.

(** The wait is over, by its timeout or by the stop event. *)
Definition wake (backoff_max : float) (stopping : bool) (t : Task) : Task :=
  enter stopping
    (mkTask (name t) (restarts t) (last_exit t) (alive t) (restart t)
      (fmin (fmul (backoff t) (of_int 2)) backoff_max) (phase t)).

(** What happens to one task.  A cancellation reaches a task that awaits its factory
    inside the factory, so it shows as the way the factory ends; one that waits for its
    restart, or has not begun, is ended by it. *)
Inductive Happens := Begins | Ends (e : Exit) | Wakes | IsCancelled.

Definition task_step (backoff_max : float) (stopping : bool) (h : Happens) (t : Task) : Task * bool :=
  match h, phase t with
  | Begins, Entering => (enter stopping t, false)
  | Ends e, Running => finish e stopping t
  | Wakes, Waiting => (wake backoff_max stopping t, false)
  | IsCancelled, (Entering | Waiting) => (set_phase Done t, false)
  | _, _ => (t, false)
  end.

Inductive Event := Spawn (nm : pystr) (rs : bool) | Task_event (id : nat) (h : Happens) | StopSet.

Definition step (w : World) (ev : Event) : World :=
  match ev with
  | Spawn nm rs => spawn nm rs w
  | StopSet => mkWorld (backoff_max_s w) (tasks w) (spawned w) true (restarts_total w)
  | Task_event id h =>
      match spawned w !! id with
      | Some t =>
          let '(t', counted) := task_step (backoff_max_s w) (stop w) h t in
          mkWorld (backoff_max_s w) (tasks w) (<[id := t']> (spawned w)) (stop w)
            (if counted then restarts_total w + 1 else restarts_total w)
      | None => w
      end
  end.
Definition run (w : World) (evs : list Event) : World := foldl step w evs.

(** [report]: one entry per name, and the restarts altogether. *)
Definition reported (w : World) : list Task := omap (fun kv => spawned w !! kv.2) (tasks w).
Definition task_restarts (w : World) : Z := foldr (fun t n => restarts t + n) 0 (reported w).
Definition unstable_tasks (w : World) : list pystr := name <$> filter (fun t => 3 < restarts t) (reported w).

(** [shutdown] cancels every task the table knows. *)
Definition shutdown_cancels (w : World) : list Event :=
  omap (fun kv => match spawned w !! kv.2 with
                  | Some t => match phase t with Done => None | _ => Some (Task_event kv.2 IsCancelled) end
                  | None => None
                  end) (tasks w).

(** ** Lemmas *)

Lemma step_task w ev id t : spawned w !! id = Some t ->
  exists t', spawned (step w ev) !! id = Some t' /\
    ((forall h, ev <> Task_event id h) -> t' = t) /\
    (forall h, ev = Task_event id h -> t' = (task_step (backoff_max_s w) (stop w) h t).1).
Proof.
  intros Ht. destruct ev as [nm rs|j h|]; cbn [step].
  - exists t. cbn. split_and!; [by apply lookup_app_l_Some|done|done].
  - destruct (decide (j = id)) as [->|Hj].
    + rewrite Ht. destruct (task_step _ _ h t) as [t' c] eqn:E. exists t'. cbn. split_and!.
      * apply list_lookup_insert_eq. by eapply lookup_lt_Some.
      * intros Hn. by destruct (Hn h).
      * intros h' [= <-]. by rewrite E.
    + exists t. split_and!; [|done|intros h' [= ->]; done].
      destruct (spawned w !! j) as [u|]; [|done]. destruct (task_step _ _ h u) as [u' c]. cbn. by rewrite list_lookup_insert_ne.
  - by exists t.
Qed.

Lemma step_backoff_max w ev : backoff_max_s (step w ev) = backoff_max_s w.
Proof.
  destruct ev as [nm rs|j h|]; cbn; try done. destruct (spawned w !! j) as [u|]; [|done].
  by destruct (task_step _ _ h u).
Qed.

Lemma step_stop w ev : stop (step w ev) = match ev with StopSet => true | _ => stop w end.
Proof.
  destruct ev as [nm rs|j h|]; cbn; try done. destruct (spawned w !! j) as [u|]; [|done].
  by destruct (task_step _ _ h u).
Qed.

(** Schedules: the state before the [n]-th event of an infinite one. *)
Fixpoint at_time (w : World) (sched : nat -> Event) (n : nat) : World :=
  match n with O => w | S n => step (at_time w sched n) (sched n) end.

(** Nobody asks for a stop, and nobody cancels the task while it waits. *)
Definition undisturbed (id : nat) (ev : Event) : Prop := ev <> StopSet /\ ev <> Task_event id IsCancelled.

(** Time goes on: a timer fires and a new task is started, sooner or later. *)
Definition fair (id : nat) (sched : nat -> Event) : Prop :=
  forall n, (exists m, (n <= m)%nat /\ sched m = Task_event id Wakes) /\
            (exists m, (n <= m)%nat /\ sched m = Task_event id Begins).

Definition is_running (w : World) (id : nat) : Prop := exists t, spawned w !! id = Some t /\ phase t = Running.

(** A task that supervision keeps: it is to be restarted, it has not ended, and it waits
    its delay or runs. *)
Record kept (mx : float) (t : Task) : Prop := mkKept
  { kp_restart : restart t = true;
    kp_phase : phase t <> Done;
    kp_alive : phase t = Waiting <-> alive t = false;
    kp_backoff : backoff t = FIRST_BACKOFF \/ fnlt mx (backoff t);
    kp_exit : phase t = Waiting -> last_exit t <> NoExit /\ last_exit t <> Stopped /\ last_exit t <> CancelledByStop }.

Lemma new_kept mx nm : kept mx (mkTask nm 0 NoExit true true FIRST_BACKOFF Entering).
Proof. split; try done. by left. Qed.

Lemma enter_kept mx t : restart t = true -> backoff t = FIRST_BACKOFF \/ fnlt mx (backoff t) -> kept mx (enter false t).
Proof. intros Hr Hb. by split. Qed.

Lemma task_step_kept mx h t : h <> IsCancelled -> kept mx t -> kept mx (task_step mx false h t).1.
Proof.
  intros Hh K. pose proof K as [Hr Hp Ha Hb He]. unfold task_step.
  destruct h as [|e| |]; [..|done]; destruct (phase t) eqn:Ep; try exact K.
  - by apply enter_kept.
  - unfold finish. rewrite Hr. cbn [negb orb].
    destruct e; cbn [fst]; (split; cbn; [done|done|done|done|intros _; split_and!; done]).
  - apply enter_kept; cbn; [done|]. right. apply fmin_le.
Qed.

Lemma next_of_waiting mx t : kept mx t -> phase t = Waiting -> phase (task_step mx false Wakes t).1 = Running.
Proof. intros K Hp. unfold task_step. by rewrite Hp. Qed.

Lemma next_of_entering mx t : phase t = Entering -> phase (task_step mx false Begins t).1 = Running.
Proof. intros Hp. unfold task_step. by rewrite Hp. Qed.

Section schedule.
Variable w0 : World.
Variable sched : nat -> Event.
Variable id : nat.
Variable t0 : Task.
Hypothesis start : spawned w0 !! id = Some t0.
Hypothesis start_kept : kept (backoff_max_s w0) t0.
Hypothesis going : stop w0 = false.
Hypothesis quiet : forall n, undisturbed id (sched n).
#[local] Set Default Proof Using "All".
Abbreviation at_ := (at_time w0 sched).

Lemma at_world n : stop (at_ n) = false /\ backoff_max_s (at_ n) = backoff_max_s w0.
Proof.
  induction n as [|n [IH IH']]; [done|]. cbn [at_time]. rewrite step_stop, step_backoff_max. split; [|done].
  pose proof (proj1 (quiet n)). by destruct (sched n).
Qed.

Lemma at_kept n : exists t, spawned (at_ n) !! id = Some t /\ kept (backoff_max_s w0) t.
Proof.
  induction n as [|n (t & Ht & K)]; [by exists t0|]. cbn [at_time].
  destruct (step_task (at_ n) (sched n) id t Ht) as (t' & Ht' & Hno & Hyes). exists t'. split; [done|].
  destruct (at_world n) as [Hs Hm]. rewrite Hs, Hm in Hyes.
  destruct (sched n) as [nm rs|j h|] eqn:Es; [by rewrite Hno| |by rewrite Hno].
  destruct (decide (j = id)) as [->|Hj]; [|rewrite Hno; [done|congruence]].
  rewrite (Hyes h eq_refl). apply task_step_kept; [|done].
  intros ->. pose proof (proj2 (quiet n)) as Hq. by rewrite Es in Hq.
Qed.

(** While the event that makes it run does not come, the task stays where it is. *)
Lemma runs_by ph ev m : (ph = Waiting /\ ev = Wakes) \/ (ph = Entering /\ ev = Begins) ->
  sched m = Task_event id ev -> forall k n t, (m - n = k)%nat -> (n <= m)%nat ->
  spawned (at_ n) !! id = Some t -> phase t = ph -> exists j, (n <= j)%nat /\ is_running (at_ j) id.
Proof.
  intros Hev Hm. induction k as [|k IH]; intros n t Hk Hn Ht Hp.
  - replace n with m in * by lia. exists (S m). split; [lia|].
    destruct (step_task (at_ m) (sched m) id t Ht) as (t' & Ht' & _ & Hyes).
    exists t'. split; [done|]. rewrite (Hyes _ Hm). destruct (at_world m) as [-> ->].
    destruct (at_kept m) as (u & Hu & K). assert (u = t) as -> by congruence.
    destruct Hev as [[-> ->]|[-> ->]]; [by apply next_of_waiting|by apply next_of_entering].
  - destruct (step_task (at_ n) (sched n) id t Ht) as (t' & Ht' & Hno & Hyes).
    destruct (decide (phase t' = Running)) as [Hr|Hr]; [exists (S n); split; [lia|by exists t']|].
    assert (t' = t) as ->.
    { destruct (sched n) as [nm rs|j h|] eqn:Es; [by apply Hno| |by apply Hno].
      destruct (decide (j = id)) as [->|Hj]; [|apply Hno; congruence].
      specialize (Hyes h eq_refl). destruct (at_world n) as [Hs Hmx]. rewrite Hs in Hyes. subst t'.
      destruct (at_kept n) as (u & Hu & K). assert (u = t) as -> by congruence.
      pose proof (proj2 (quiet n)) as Hq. rewrite Es in Hq. unfold task_step in *.
      destruct Hev as [[-> _]|[-> _]]; rewrite Hp in *; destruct h; try done. }
    destruct (IH (S n) t) as (j & Hj & R); [lia|lia|done|done|]. exists j. split; [lia|done].
Qed.
End schedule.

(** ** Properties *)

(** C17: A supervised task always comes back.  From any point on, in any schedule in which
    nobody asks for a stop, nobody cancels the task while it waits to be restarted, and
    timers fire, the task is again and again awaiting its factory, however its factory
    ends; at every moment it has not ended, it is reported dead exactly while it waits
    for its restart, and the delay it waits is the first one or within the maximum. *)
Theorem supervised_lives w sched id t :
  spawned w !! id = Some t -> kept (backoff_max_s w) t -> stop w = false ->
  (forall n, undisturbed id (sched n)) -> fair id sched ->
  forall n, (exists m, (n <= m)%nat /\ is_running (at_time w sched m) id) /\
    exists t', spawned (at_time w sched n) !! id = Some t' /\ kept (backoff_max_s w) t'.
Proof.
  intros Ht K Hs Hq Hf n. pose proof (at_kept w sched id t Ht K Hs Hq n) as (t' & Ht' & K'). split; [|by exists t'].
  destruct (phase t') eqn:Ep.
  - destruct (proj2 (Hf n)) as (m & Hm & E).
    by eapply (runs_by w sched id t Ht K Hs Hq Entering Begins m); [right|exact E|reflexivity|exact Hm|exact Ht'|exact Ep].
  - exists n. split; [lia|by exists t'].
  - destruct (proj1 (Hf n)) as (m & Hm & E).
    by eapply (runs_by w sched id t Ht K Hs Hq Waiting Wakes m); [left|exact E|reflexivity|exact Hm|exact Ht'|exact Ep].
  - by destruct (kp_phase _ _ K').
Qed.

(** The delays of the default supervisor: they double up to thirty seconds. *)
Fixpoint delay (k : nat) : float :=
  match k with O => FIRST_BACKOFF | S k => fmin (fmul (delay k) (of_int 2)) RESTART_BACKOFF_MAX_S end.

Lemma delays_settle k : delay (6 + k) = RESTART_BACKOFF_MAX_S.
Proof. induction k as [|k IH]; [by vm_compute|]. change (6 + S k)%nat with (S (6 + k)). cbn [delay]. rewrite IH. by vm_compute. Qed.

Example first_delays : map delay (List.seq 0 8) =
  [FIRST_BACKOFF; of_int 1; of_int 2; of_int 4; of_int 8; of_int 16; of_int 30; of_int 30].
Proof. by vm_compute. Qed.

(** ** Witnesses and examples *)

Definition demo_task : Task := mkTask (lit "flush") 0 NoExit true true FIRST_BACKOFF Entering.
Definition demo_world : World := spawn (lit "flush") true (new_supervisor RESTART_BACKOFF_MAX_S).
(** Starts, fails and wakes by turns. *)
Definition demo_sched (n : nat) : Event :=
  Task_event 0 (match (n mod 3)%nat with O => Begins | S O => Ends (Raised (lit "OSError: ")) | _ => Wakes end).

Lemma supervised_lives_witness :
  (exists m, (5 <= m)%nat /\ is_running (at_time demo_world demo_sched m) 0) /\
    exists t', spawned (at_time demo_world demo_sched 5) !! 0%nat = Some t' /\ kept RESTART_BACKOFF_MAX_S t'.
Proof.
  refine (supervised_lives demo_world demo_sched 0 demo_task eq_refl (new_kept _ _) eq_refl _ _ 5%nat).
  - intros n. unfold demo_sched. destruct (n mod 3)%nat as [|[|?]]; by split.
  - intros n. split.
    + exists (n * 3 + 2)%nat. split; [lia|]. unfold demo_sched. rewrite Nat.add_comm, Nat.Div0.mod_add. done.
    + exists (n * 3)%nat. split; [lia|]. unfold demo_sched. rewrite Nat.Div0.mod_mul. done.
Defined.

(** A task that is cancelled while it waits for its restart ends for good, although no
    stop was asked for: the cancellation is raised by the wait, which suppresses timeouts
    only. *)
Example cancelled_while_waiting :
  let w := run demo_world [Task_event 0 Begins; Task_event 0 (Ends Returned); Task_event 0 IsCancelled; Task_event 0 Wakes] in
  stop w = false /\ (phase <$> spawned w !! 0%nat) = Some Done.
Proof. by vm_compute. Qed.

(** A second task of the same name takes the first one's place in the table: the first
    goes on, but nothing refers to it, and it is neither reported nor cancelled. *)
Example same_name_unreferenced :
  let w := run demo_world [Task_event 0 Begins; Spawn (lit "flush") true; Task_event 1 Begins] in
  (phase <$> spawned w) = [Running; Running] /\ tasks w = [(lit "flush", 1%nat)] /\
  shutdown_cancels w = [Task_event 1 IsCancelled].
Proof. by vm_compute. Qed.
End Supervisor.
