(* ===== verification/PyInt.v ===== *)
(** * Reading integers and bytes from text: [int(s)] and [bytes.fromhex(s)]

    The decimal digits outside ASCII come from the Unicode database of the interpreter, so
    the reader takes their values as an argument. *)

From S2P Require Import Prelude PyStr Hashes Json.

(** White space, as the readers of numbers see it. *)
Definition ascii_space (c : Z) : bool := ((9 <=? c) && (c <=? 13)) || (c =? 32).

(** A text's non-ASCII blanks and digits become ASCII ones. *)
Definition to_ascii (decimal : Z -> option Z) (c : Z) : Z :=
  if c <? 127 then c
  else if is_space c then 32
  else match decimal c with Some d => 48 + d | None => 63 end.

(** Digits with single underscores between them; the flag says that a digit was last. *)
Fixpoint int_digits (acc : Z) (digit_last : bool) (s : pystr) : option Z :=
  match s with
  | [] => if digit_last then Some acc else None
  | c :: s =>
      if c =? 95 then if digit_last then int_digits acc false s else None
      else if is_digit c then int_digits (acc * 10 + (c - 48)) true s else None
  end.

(** The limit on the number of digits of a text ([sys.get_int_max_str_digits]). *)
Definition MAX_STR_DIGITS : nat := 4300.

(** [int(s)]; [None] is a [ValueError]. *)
Definition py_int (decimal : Z -> option Z) (s : pystr) : option Z :=
  let s := rstrip_by ascii_space (lstrip_by ascii_space (to_ascii decimal <$> s)) in
  let '(neg, s) := match s with 45 :: s => (true, s) | 43 :: s => (false, s) | _ => (false, s) end in
  if (MAX_STR_DIGITS <? length (List.filter is_digit s))%nat then None
  else v ← int_digits 0 false s; Some (if neg : bool then - v else v).

(** [bytes.fromhex(s)]. *)
Fixpoint fromhex (s : pystr) : option bytes :=
  match s with
  | [] => Some []
  | c :: s =>
      if ascii_space c then fromhex s
      else
        match s with
        | d :: s => h ← hex_value c; l ← hex_value d; r ← fromhex s; Some (h * 16 + l :: r)
        | [] => None
        end
  end.

Lemma int_digits_foldl ds : forall a, Forall (fun c => is_digit c = true) ds -> ds <> [] \/ True ->
  forall b, (ds = [] -> b = true) -> int_digits a b ds = Some (foldl digit_step a ds).
Proof.
  induction ds as [|d ds IH]; intros a H _ b Hb; [by rewrite Hb|].
  apply Forall_cons in H as [Hd H]. cbn [int_digits]. rewrite Hd.
  destruct (Z.eqb_spec d 95) as [->|_]; [done|]. cbn [foldl]. apply IH; [done|by right|done].
Qed.

Lemma lstrip_digits s : Forall (fun c => is_digit c = true) s -> lstrip_by ascii_space s = s.
Proof.
  destruct s as [|c s]; [done|]. intros [Hc _]%Forall_cons. cbn. destruct (ascii_space c) eqn:E; [|done].
  exfalso. unfold is_digit, ascii_space in *. lia.
Qed.

(** A printed number is read back. *)
Lemma py_int_str_int decimal n : 0 <= n -> (length (digits_of n) <= MAX_STR_DIGITS)%nat -> py_int decimal (str_int n) = Some n.
Proof.
  intros Hn Hl. unfold str_int. rewrite (proj2 (Z.ltb_ge n 0)) by done.
  destruct (digits_spec (S (Z.to_nat (Z.log2 n))) n) as (E & F & c & t & Ed & Hc); [split; [done|by apply digits_fuel]|lia|].
  fold (digits_of n) in *. unfold py_int.
  assert (to_ascii decimal <$> digits_of n = digits_of n) as ->.
  { clear -F. induction F as [|x l Hx _ IH]; [done|]. cbn. f_equal; [|done]. unfold to_ascii, is_digit in *.
    destruct (Z.ltb_spec x 127); [done|lia]. }
  rewrite (lstrip_digits _ F). unfold rstrip_by.
  rewrite lstrip_digits by (apply Forall_rev; exact F). rewrite rev_involutive.
  assert (is_digit c = true) as Hd. { rewrite Ed in F. by apply Forall_cons in F as [? _]. }
  assert (List.filter is_digit (digits_of n) = digits_of n) as Hf.
  { clear -F. induction F as [|x l Hx _ IH]; [done|]. cbn. by rewrite Hx, IH. }
  assert (Forall (fun x => is_digit x = true) (digits_of n) -> match digits_of n with
    | 45 :: s0 => (true, s0) | 43 :: s0 => (false, s0) | _ => (false, digits_of n) end = (false, digits_of n)) as G.
  { rewrite Ed. intros _. unfold is_digit in Hd.
    destruct (decide (c = 45)) as [->|]; [done|]. destruct (decide (c = 43)) as [->|]; [done|].
    repeat case_match; done. }
  rewrite (G F), Hf. rewrite (proj2 (Nat.ltb_ge _ _) Hl).
  rewrite int_digits_foldl; [|done|by right|rewrite Ed; done]. by rewrite E.
Qed.

Lemma digits_length fuel n : (length (digits fuel n []) <= fuel)%nat.
Proof.
  revert n. induction fuel as [|fuel IH]; intros n; [done|]. cbn [digits]. destruct (n <? 10); [cbn; lia|].
  rewrite digits_acc, length_app. specialize (IH (n / 10)). cbn. lia.
Qed.

Lemma short_int n : 0 <= n < 2 ^ 63 -> (length (digits_of n) <= MAX_STR_DIGITS)%nat.
Proof.
  intros Hn. pose proof (digits_length (S (Z.to_nat (Z.log2 n))) n) as H. fold (digits_of n) in H.
  assert (Z.log2 n < 63). { destruct (decide (n = 0)) as [->|]; [done|]. apply Z.log2_lt_pow2; lia. }
  unfold MAX_STR_DIGITS. lia.
Qed.

Lemma hex_value_of_digit x : 0 <= x < 16 -> hex_value (Hashes.hex_digit x) = Some x /\ ascii_space (Hashes.hex_digit x) = false.
Proof.
  intros H. unfold Hashes.hex_digit. destruct (Z.ltb_spec x 10); unfold hex_value, is_digit, ascii_space.
  - rewrite (proj2 (andb_true_iff _ _)) by lia. split; [f_equal|]; lia.
  - rewrite (proj2 (andb_false_iff _ _)) by lia. rewrite (proj2 (andb_true_iff _ _)) by lia. split; [f_equal|]; lia.
Qed.

Lemma fromhex_hexdigest b : bytes_ok b -> fromhex (Hashes.hexdigest b) = Some b.
Proof.
  unfold Hashes.hexdigest. induction 1 as [|x b Hx _ IH]; [done|]. unfold byte_ok in Hx.
  destruct (hex_value_of_digit (x / 16)) as [E1 E2]; [zdm|]. destruct (hex_value_of_digit (x mod 16)) as [E3 _]; [zdm|].
  cbn [fmap list_fmap concat app fromhex]. rewrite E2, E1, E3. cbn. unfold Hashes.hexdigest in IH. rewrite IH. cbn.
  do 2 f_equal. pose proof (Z.div_mod x 16). lia.
Qed.
