(* ===== verification/Auth.v ===== *)
(** * Passwords, login throttling and sessions (src/src/mdfeed/auth.py, and the login part
    of src/src/mdfeed/services/order_desk.py)

    A login checks the throttle, lets a worker thread verify the password, and then counts
    the failure or opens a session; it is two steps, because other requests run while the
    thread works.  PBKDF2 is written out over the SHA-256 of [Hashes]. *)

From S2P Require Import Prelude PyStr PyFloat Dict Hashes Json PyInt.

Module Auth.

(** ** Passwords *)

Definition hmac_sha256 (key msg : bytes) : bytes :=
  let k := if (64 <? length key)%nat then sha256 key else key in
  let k := k ++ replicate (64 - length k) 0 in
  sha256 ((Z.lxor 0x5c <$> k) ++ sha256 ((Z.lxor 0x36 <$> k) ++ msg)).

Inductive Exn := ValueError | OverflowError | TypeError.

(** [hashlib.pbkdf2_hmac("sha256", password, salt, iterations)]: one block of output. *)
Definition pbkdf2_hmac (password salt : bytes) (iterations : Z) : result Exn bytes :=
  if iterations <? 1 then Err ValueError
  else if 2 ^ 31 - 1 <? iterations then Err OverflowError
  else
    let u1 := hmac_sha256 password (salt ++ be_pack 4 1) in
    Ok (Z.iter (iterations - 1)
          (fun ut : bytes * bytes => let u := hmac_sha256 password ut.1 in (u, zip_with Z.lxor ut.2 u)) (u1, u1)).2.

Definition ITERATIONS : Z := 600000.
Definition ALGORITHM : pystr := lit "pbkdf2_sha256".

(** [salt] is what [secrets.token_bytes(16)] gave. *)
Definition hash_password (password : pystr) (iterations : Z) (salt : bytes) : result Exn pystr :=
  match utf8_encode password with
  | None => Err ValueError
  | Some pw =>
      let! dk := pbkdf2_hmac pw salt iterations in
      Ok (ALGORITHM ++ [36] ++ str_int iterations ++ [36] ++ hexdigest salt ++ [36] ++ hexdigest dk)
  end.

(** [hmac.compare_digest] of two texts: it takes ASCII ones only. *)
Definition compare_digest (a b : pystr) : result Exn bool :=
  if forallb (fun c => c <? 128) a && forallb (fun c => c <? 128) b then Ok (bool_decide (a = b)) else Err TypeError.

(** The comparison stands after the handler, so its error gets out; so does an
    [OverflowError]. *)
Definition verify_password (decimal : Z -> option Z) (password encoded : pystr) : result Exn bool :=
  match split_char 36 encoded with
  | [algo; iters; salt_hex; hash_hex] =>
      if bool_decide (algo = ALGORITHM) then
        match utf8_encode password, fromhex salt_hex, py_int decimal iters with
        | Some pw, Some salt, Some n =>
            match pbkdf2_hmac pw salt n with
            | Ok dk => compare_digest (hexdigest dk) hash_hex
            | Err ValueError => Ok false
            | Err e => Err e
            end
        | _, _, _ => Ok false
        end
      else Ok false
  | _ => Ok false
  end.

(** ** The throttle *)

Definition zero : float := of_int 0.
Definition FAIL_WINDOW_S : float := of_int 300.
Definition FAIL_LIMIT : nat := 5.
Definition LOCK_S : float := of_int 60.

Record LoginThrottle := mkThrottle { fails : list float; locked_until : float }.
Definition new_throttle : LoginThrottle := mkThrottle [] zero.

Definition locked_for (now : float) (th : LoginThrottle) : float := fmax zero (fsub (locked_until th) now).
Definition fail (now : float) (th : LoginThrottle) : LoginThrottle :=
  let fs := List.filter (fun t => flt (fsub now t) FAIL_WINDOW_S) (fails th) ++ [now] in
  if (FAIL_LIMIT <=? length fs)%nat then mkThrottle [] (fadd now LOCK_S) else mkThrottle fs (locked_until th).
Definition success (th : LoginThrottle) : LoginThrottle := mkThrottle [] (locked_until th).

(** ** Sessions *)

Definition IDLE_TTL_S : float := of_int (30 * 60).
Definition ABSOLUTE_TTL_S : float := of_int (12 * 3600).

(** When it was created, when it was last used, and whose it is. *)
Record Session := mkSession { created : float; last_use : float; subject_of : option Z }.
Abbreviation Sessions := (list (pystr * Session)) (only parsing).

(** [tok] is what [secrets.token_urlsafe(32)] gave. *)
Definition create (tok : pystr) (now : float) (subject : option Z) (ss : Sessions) : Sessions :=
  dset tok (mkSession now now subject) ss.

Definition expired (now : float) (s : Session) : bool :=
  fgt (fsub now (last_use s)) IDLE_TTL_S || fgt (fsub now (created s)) ABSOLUTE_TTL_S.

Definition check (token : option pystr) (now : float) (ss : Sessions) : Sessions * bool :=
  match token with
  | None | Some [] => (ss, false)
  | Some tok =>
      match dget tok ss with
      | None => (ss, false)
      | Some s =>
          if expired now s then (ddel tok ss, false)
          else (dset tok (mkSession (created s) now (subject_of s)) ss, true)
      end
  end.

Definition subject (token : option pystr) (now : float) (ss : Sessions) : Sessions * option Z :=
  let '(ss, ok) := check token now ss in
  (ss, if ok then s ← (t ← token; dget t ss); subject_of s else None).

Definition revoke (token : option pystr) (ss : Sessions) : Sessions := ddel (default [] token) ss.

(** ** Cookies *)

Fixpoint first_cookie (name : pystr) (parts : list pystr) : option pystr :=
  match parts with
  | [] => None
  | p :: ps =>
      let '(k, v) := break_at (Z.eqb 61) (strip p) in
      if bool_decide (k = name) then Some (drop 1 v) else first_cookie name ps
  end.
Definition cookie_value (header name : pystr) : option pystr := first_cookie name (split_char 59 header).

(** ** The desk's login *)

Section desk.
Variable decimal : Z -> option Z.
(** The configured hash and the name of the cookie. *)
Variable desk_password_hash : pystr.
Variable COOKIE : pystr.

(** [pending]: the logins whose password is being verified. *)
Record Desk := mkDesk { throttle : LoginThrottle; sessions : Sessions; pending : list (nat * pystr); begun : nat }.
Definition new_desk : Desk := mkDesk new_throttle [] [] 0.

Inductive Response :=
| Csrf | Locked (retry_after_s : Z) | BadJson | Verifying (id : nat)
| WrongPassword | LoggedIn (tok : pystr) | Raised (e : Exn)
| LoginRequired | Served | LoggedOut | Authenticated (yes : bool) | NoSuchLogin.

(** A login begins (the password is [None] when the body is no JSON); its verification is
    over; a guarded request; a logout; a question about the session. *)
Inductive Event :=
| LoginBegin (header : bool) (now : float) (pw : option pystr)
| LoginEnd (id : nat) (now : float) (tok : pystr)
| Request (write header : bool) (cookies : pystr) (now : float)
| Logout (cookies : pystr)
| SessionQuery (cookies : pystr) (now : float).

Definition login_begin (header : bool) (now : float) (pw : option pystr) (d : Desk) : Desk * Response :=
  if negb header then (d, Csrf)
  else
    let wait := locked_for now (throttle d) in
    if fgt wait zero then (d, Locked (fround wait))
    else
      match pw with
      | None => (d, BadJson)
      | Some pw => (mkDesk (throttle d) (sessions d) ((begun d, pw) :: pending d) (S (begun d)), Verifying (begun d))
      end.

Definition login_end (id : nat) (now : float) (tok : pystr) (d : Desk) : Desk * Response :=
  match dget id (pending d) with
  | None => (d, NoSuchLogin)
  | Some pw =>
      let p := ddel id (pending d) in
      match verify_password decimal pw desk_password_hash with
      | Err e => (mkDesk (throttle d) (sessions d) p (begun d), Raised e)
      | Ok false => (mkDesk (fail now (throttle d)) (sessions d) p (begun d), WrongPassword)
      | Ok true => (mkDesk (success (throttle d)) (create tok now None (sessions d)) p (begun d), LoggedIn tok)
      end
  end.

Definition authed (cookies : pystr) (now : float) (d : Desk) : Desk * bool :=
  let '(ss, ok) := check (cookie_value cookies COOKIE) now (sessions d) in
  (mkDesk (throttle d) ss (pending d) (begun d), ok).

(** [guarded]: what comes before the handler. *)
Definition guarded (write header : bool) (cookies : pystr) (now : float) (d : Desk) : Desk * Response :=
  if write && negb header then (d, Csrf)
  else let '(d, ok) := authed cookies now d in (d, if ok then Served else LoginRequired).

Definition step (ev : Event) (d : Desk) : Desk * Response :=
  match ev with
  | LoginBegin h now pw => login_begin h now pw d
  | LoginEnd id now tok => login_end id now tok d
  | Request w h c now => guarded w h c now d
  | Logout c => (mkDesk (throttle d) (revoke (cookie_value c COOKIE) (sessions d)) (pending d) (begun d), LoggedOut)
  | SessionQuery c now => let '(d, ok) := authed c now d in (d, Authenticated ok)
  end.

(** A run, with its trace. *)
Definition trace_step (s : Desk * list (Event * Response)) (ev : Event) : Desk * list (Event * Response) :=
  let '(d, r) := step ev s.1 in (d, s.2 ++ [(ev, r)]).
Definition run (evs : list Event) : Desk * list (Event * Response) := foldl trace_step (new_desk, []) evs.
End desk.

(** ** Passwords verify *)

Lemma split_none c a : c ∉ a -> split_char c a = [a].
Proof.
  induction a as [|x a IH]; [done|]. intros [Hx Ha]%not_elem_of_cons. cbn. rewrite IH by done.
  by destruct (Z.eqb_spec x c) as [->|_].
Qed.

Lemma split_sep c a b : c ∉ a -> split_char c (a ++ c :: b) = a :: split_char c b.
Proof.
  induction a as [|x a IH].
  - intros _. cbn. rewrite Z.eqb_refl. destruct (split_char c b) eqn:E; [|done]. exfalso. destruct b as [|y b]; [done|].
    cbn in E. destruct (split_char c b); [done|]. by destruct (y =? c).
  - intros [Hx Ha]%not_elem_of_cons. cbn. rewrite IH by done. by destruct (Z.eqb_spec x c) as [->|_].
Qed.

Lemma no_dollar_hex b : bytes_ok b -> 36 ∉ hexdigest b.
Proof. intros H E. pose proof (proj1 (Forall_forall _ _) (hexdigest_chars b H) 36 E) as Hx. cbn beta in Hx. lia. Qed.

Lemma no_dollar_int n : 36 ∉ str_int n.
Proof. intros E. pose proof (proj1 (Forall_forall _ _) (str_int_chars n) 36 E) as [?|H]; [done|by vm_compute in H]. Qed.

Lemma ascii_hex b : bytes_ok b -> forallb (fun c => c <? 128) (hexdigest b) = true.
Proof.
  intros H. apply forallb_forall. intros c Hc. apply list_elem_of_In in Hc.
  pose proof (proj1 (Forall_forall _ _) (hexdigest_chars b H) c Hc) as Hx. cbn beta in Hx. lia.
Qed.

Lemma zip_xor_ok a b : bytes_ok a -> bytes_ok b -> bytes_ok (zip_with Z.lxor a b).
Proof.
  intros Ha. revert b. induction Ha as [|x a Hx _ IH]; intros b Hb; [constructor|].
  destruct Hb as [|y b Hy Hb]; [constructor|]. cbn. apply bytes_ok_cons; [|by apply IH].
  unfold byte_ok in *. split; [apply Z.lxor_nonneg; lia|].
  destruct (decide (Z.lxor x y = 0)) as [->|]; [done|]. change 256 with (2 ^ 8). apply Z.log2_lt_pow2.
  { pose proof (proj2 (Z.lxor_nonneg x y)). lia. }
  pose proof (Z.log2_lxor x y). 
  assert (Z.log2 x < 8) by (destruct (decide (x = 0)) as [->|]; [done|apply Z.log2_lt_pow2; lia]).
  assert (Z.log2 y < 8) by (destruct (decide (y = 0)) as [->|]; [done|apply Z.log2_lt_pow2; lia]). lia.
Qed.

Lemma pbkdf2_ok pw salt n dk : pbkdf2_hmac pw salt n = Ok dk -> bytes_ok dk /\ 1 <= n < 2 ^ 31.
Proof.
  unfold pbkdf2_hmac. destruct (Z.ltb_spec n 1); [done|]. destruct (Z.ltb_spec (2 ^ 31 - 1) n); [done|].
  intros [= <-]. split; [|lia].
  assert (bytes_ok (hmac_sha256 pw (salt ++ be_pack 4 1))) as Hu by apply sha256_ok.
  set (F := fun ut : bytes * bytes => _). destruct (n - 1) as [|p|p]; try exact Hu.
  apply (Pos.iter_invariant p _ F (fun ut => bytes_ok ut.2)); [|exact Hu].
  intros [u t] Ht. apply zip_xor_ok; [exact Ht|apply sha256_ok].
Qed.

(** A password's hash verifies it.  For every password that has an encoding, every
    salt and every iteration count PBKDF2 takes, [hash_password] gives a line for which
    [verify_password] answers yes; for any other password it answers without an error, and
    yes exactly when PBKDF2 derives the same key from both. *)
Theorem password_verifies decimal p pw n salt :
  utf8_encode p = Some pw -> 1 <= n < 2 ^ 31 -> bytes_ok salt ->
  exists line, hash_password p n salt = Ok line /\ verify_password decimal p line = Ok true /\
    forall q, exists yes, verify_password decimal q line = Ok yes /\
      (yes = true <-> exists qw, utf8_encode q = Some qw /\ pbkdf2_hmac qw salt n = pbkdf2_hmac pw salt n).
Proof.
  intros Hp Hn Hs. unfold hash_password. rewrite Hp.
  assert (forall w, exists dk, pbkdf2_hmac w salt n = Ok dk /\ bytes_ok dk) as D.
  { intros w. destruct (pbkdf2_hmac w salt n) as [dk|e] eqn:E; [by exists dk; split; [|eapply pbkdf2_ok]|].
    exfalso. revert E. unfold pbkdf2_hmac. rewrite (proj2 (Z.ltb_ge n 1)), (proj2 (Z.ltb_ge _ n)) by lia. done. }
  destruct (D pw) as (dk & Edk & Hdk). rewrite Edk. cbn [rbind]. eexists. split; [done|].
  set (line := ALGORITHM ++ _).
  assert (split_char 36 line = [ALGORITHM; str_int n; hexdigest salt; hexdigest dk]) as Hl.
  { unfold line. cbn [app]. rewrite split_sep by (apply (bool_decide_unpack _); by vm_compute).
    rewrite split_sep by apply no_dollar_int. rewrite split_sep by by apply no_dollar_hex.
    by rewrite split_none by by apply no_dollar_hex. }
  assert (forall q, verify_password decimal q line = match utf8_encode q with
    | Some qw => match pbkdf2_hmac qw salt n with Ok x => Ok (bool_decide (hexdigest x = hexdigest dk)) | Err e => Err e end
    | None => Ok false end) as V.
  { intros q. unfold verify_password. rewrite Hl, bool_decide_true by done.
    rewrite fromhex_hexdigest, py_int_str_int by (done || lia || (apply short_int; lia)).
    destruct (utf8_encode q) as [qw|]; [|done]. destruct (D qw) as (x & Ex & Hx). rewrite Ex.
    unfold compare_digest. by rewrite !ascii_hex. }
  split; [by rewrite V, Hp, Edk, bool_decide_true|]. intros q. rewrite V.
  destruct (utf8_encode q) as [qw|]; [|exists false; split; [done|split; [done|by intros (? & ? & ?)]]].
  destruct (D qw) as (x & Ex & Hx). rewrite Ex. eexists. split; [done|]. rewrite bool_decide_eq_true. split.
  - intros E. exists qw. split; [done|]. rewrite Ex. f_equal. by apply hexdigest_inj.
  - intros (qw' & [= <-] & E). congruence.
Qed.

Lemma password_verifies_witness :
  exists line, hash_password (lit "correct horse") 3 [1; 2; 3] = Ok line /\
    verify_password (fun _ => None) (lit "correct horse") line = Ok true /\
    forall q, exists yes, verify_password (fun _ => None) q line = Ok yes /\
      (yes = true <-> exists qw, utf8_encode q = Some qw /\
        pbkdf2_hmac qw [1; 2; 3] 3 = pbkdf2_hmac (lit "correct horse") [1; 2; 3] 3).
Proof.
  refine (password_verifies (fun _ => None) (lit "correct horse") (lit "correct horse") 3 [1; 2; 3] _ _ _).
  - by vm_compute.
  - by split.
  - repeat constructor; done.
Defined.

(** A configured line whose hash is not ASCII makes every login raise. *)
Example non_ascii_hash_raises : verify_password (fun _ => None) (lit "x") (lit "pbkdf2_sha256$1$00$" ++ [0xe9]) = Err TypeError.
Proof. by vm_compute. Qed.


(** ** The throttle *)

(** A failed login on its own: it began at the first time and was counted at the second. *)
Definition attempt (a : float * float) (th : LoginThrottle) : option LoginThrottle :=
  if fgt (locked_for a.1 th) zero then None else Some (fail a.2 th).
Definition attempts (l : list (float * float)) (th : LoginThrottle) : option LoginThrottle :=
  foldl (fun o a => th ← o; attempt a th) (Some th) l.

(** The later of two failures is a window away from the earlier, or the lock the earlier
    one could set was over when the later began. *)
Definition spaced (a b : float * float) : Prop :=
  flt (fsub b.2 a.2) FAIL_WINDOW_S = false \/ fgt (fmax zero (fsub (fadd a.2 LOCK_S) b.1)) zero = false.
Definition some_spaced (l : list (float * float)) : Prop :=
  exists i j a b, (i < j)%nat /\ l !! i = Some a /\ l !! j = Some b /\ spaced a b.

Lemma some_spaced_app l k : some_spaced l -> some_spaced (l ++ k).
Proof.
  intros (i & j & a & b & Hij & Ha & Hb & S). exists i, j, a, b. by split_and!; try apply lookup_app_l_Some.
Qed.

Lemma spaced_last l a b : a ∈ l -> spaced a b -> some_spaced (l ++ [b]).
Proof.
  intros Ha S. apply list_elem_of_lookup in Ha as [i Hi]. exists i, (length l), a, b. split_and!; [|..|done].
  - by eapply lookup_lt_Some.
  - by apply lookup_app_l_Some.
  - by rewrite lookup_app_r, Nat.sub_diag by done.
Qed.

Lemma kept_window now (es xs : list float) : Forall (fun t => flt (fsub now t) FAIL_WINDOW_S = true) es ->
  List.filter (fun t => flt (fsub now t) FAIL_WINDOW_S) (xs ++ es) =
  List.filter (fun t => flt (fsub now t) FAIL_WINDOW_S) xs ++ es.
Proof.
  intros H. rewrite List.filter_app. f_equal. induction H as [|t es Ht _ IH]; [done|]. cbn [List.filter]. by rewrite Ht, IH.
Qed.

Lemma window_or_spaced l b : some_spaced (l ++ [b]) \/ Forall (fun t => flt (fsub b.2 t) FAIL_WINDOW_S = true) l.*2.
Proof.
  destruct (decide (Forall (fun t => flt (fsub b.2 t) FAIL_WINDOW_S = true) l.*2)) as [|H]; [by right|left].
  apply (not_Forall_Exists _) in H. apply Exists_exists in H as (t & Ht & Hn).
  apply list_elem_of_fmap in Ht as (a & -> & Ha). apply spaced_last with a; [done|]. left.
  by apply not_true_is_false.
Qed.

(** After failures from [th] on: two are spaced, or the last one set the lock, or all are
    still counted. *)
Lemma attempts_spec l th th' : attempts l th = Some th' ->
  some_spaced l \/
  ((length l <= FAIL_LIMIT)%nat /\ exists l' a, l = l' ++ [a] /\ locked_until th' = fadd a.2 LOCK_S) \/
  (l = [] \/ (length l < FAIL_LIMIT)%nat) /\ exists xs, fails th' = xs ++ l.*2.
Proof.
  revert th'. induction l as [|b l IH] using rev_ind; intros th' H.
  { right. right. injection H as <-. split; [by left|]. exists (fails th). by rewrite app_nil_r. }
  unfold attempts in *. rewrite foldl_app in H. cbn in H.
  destruct (foldl _ (Some th) l) as [th1|]; [|done]. cbn in H. specialize (IH _ eq_refl).
  unfold attempt in H. destruct (fgt (locked_for b.1 th1) zero) eqn:Eb; [done|]. injection H as <-.
  destruct IH as [S|[[Hl (l' & a & -> & Hu)]|[Hl (xs & Hf)]]].
  - left. by apply some_spaced_app.
  - left. apply spaced_last with a; [by apply elem_of_app; right; left|]. right. unfold locked_for in Eb. by rewrite Hu in Eb.
  - destruct (window_or_spaced l b) as [S|W]; [by left|]. right. unfold fail.
    rewrite Hf, kept_window, <- app_assoc by done. set (ys := List.filter _ xs).
    assert (length l < FAIL_LIMIT)%nat by (destruct Hl as [->|]; [cbn; unfold FAIL_LIMIT; lia|done]).
    assert (length (ys ++ l.*2 ++ [b.2]) = length ys + length l + 1)%nat as E.
    { rewrite !length_app, length_fmap. cbn. lia. }
    destruct (Nat.leb_spec FAIL_LIMIT (length (ys ++ l.*2 ++ [b.2]))) as [Hle|Hlt].
    + left. rewrite length_app. cbn. split; [lia|]. by exists l, b.
    + right. rewrite length_app. cbn [length]. split; [right; lia|]. exists ys. by rewrite fmap_app.
Qed.

(** Guessing is slow.  Of any six failed logins in a row that were let in one after
    the other with no success between them, some two are far apart: the later one is five
    minutes after the earlier, as the code subtracts them, or it began when the minute's
    lock of the earlier was over. *)
Theorem guesses_spaced l th th' :
  attempts l th = Some th' -> (FAIL_LIMIT < length l)%nat -> some_spaced l.
Proof.
  intros H Hl. destruct (attempts_spec _ _ _ H) as [S|[[Hn _]|[[->|Hn] _]]]; [done|lia|cbn in Hl; lia|lia].
Qed.

(** A failure a second, until the lock, and one after it. *)
Definition demo_attempts : list (float * float) := (fun z => (of_int z, of_int z)) <$> [1; 2; 3; 4; 5; 65].

Lemma guesses_spaced_witness : some_spaced demo_attempts.
Proof.
  refine (guesses_spaced demo_attempts new_throttle _ _ _).
  - vm_compute. reflexivity.
  - by vm_compute; repeat constructor.
Defined.

(** The lock closes the door after five failures. *)
Example sixth_is_locked : attempts ((fun z => (of_int z, of_int z)) <$> [1; 2; 3; 4; 5; 64]) new_throttle = None.
Proof. by vm_compute. Qed.

(** Logins that begin together are all let in, because a failure is counted only when its
    password has been verified: here eight guesses are verified at once. *)
Example concurrent_guesses :
  let evs := repeat (LoginBegin true (of_int 1) (Some (lit "guess"))) 8 ++
             map (fun id => LoginEnd id (of_int 2) (lit "t")) (List.seq 0 8) in
  let tr := (run (fun _ => None) (lit "pbkdf2_sha256$1$00$00") (lit "desk") evs).2 in
  length (List.filter (fun er => match er.2 with WrongPassword => true | _ => false end) tr) = 8%nat.
Proof. by vm_compute. Qed.

(** ** Sessions *)

Section sessions.
Variable decimal : Z -> option Z.
Variable hash COOKIE : pystr.
Abbreviation step := (step decimal hash COOKIE).
Abbreviation run := (run decimal hash COOKIE).
Abbreviation Trace := (list (Event * Response)).

(** The token an entry uses, and when: it opened the session or was checked and found
    good. *)
Definition use_of (er : Event * Response) : option (pystr * float) :=
  match er with
  | (LoginEnd _ now tok, LoggedIn _) => Some (tok, now)
  | (Request _ _ c now, Served) | (SessionQuery c now, Authenticated true) => tok ← cookie_value c COOKIE; Some (tok, now)
  | _ => None
  end.
Definition logs_out (er : Event * Response) (tok : pystr) : Prop :=
  match er.1 with Logout c => default [] (cookie_value c COOKIE) = tok | _ => False end.

(** The [i]-th entry opened the session at the time [t], after a right password. *)
Definition opened (tr : Trace) (i : nat) (tok : pystr) (t : float) : Prop :=
  exists id pw b tb, tr !! i = Some (LoginEnd id t tok, LoggedIn tok) /\ (b < i)%nat /\
    tr !! b = Some (LoginBegin true tb (Some pw), Verifying id) /\ verify_password decimal pw hash = Ok true.

(** No entry from the [i]-th on logs the token out; after the [k]-th none uses it. *)
Definition not_out (tr : Trace) (i : nat) (tok : pystr) : Prop := forall j er, (i < j)%nat -> tr !! j = Some er -> ~ logs_out er tok.
Definition last_used (tr : Trace) (k : nat) (tok : pystr) (t : float) : Prop :=
  (exists er, tr !! k = Some er /\ use_of er = Some (tok, t)) /\
  forall j er, (k < j)%nat -> tr !! j = Some er -> forall t', use_of er <> Some (tok, t').

(** What the trace says of a session: it was opened, used last, and not logged out. *)
Definition session_story (tr : Trace) (tok : pystr) (s : Session) : Prop :=
  exists i k, (i <= k)%nat /\ opened tr i tok (created s) /\ not_out tr i tok /\ last_used tr k tok (last_use s).

Record desk_inv (d : Desk) (tr : Trace) : Prop := mkDeskInv
  { di_pending : forall id pw, dget id (pending d) = Some pw -> exists b tb, tr !! b = Some (LoginBegin true tb (Some pw), Verifying id);
    di_ids : dict_ok (pending d) /\ Forall (fun id => (id < begun d)%nat) (pending d).*1;
    di_ok : dict_ok (sessions d);
    di_sessions : forall tok s, dget tok (sessions d) = Some s -> session_story tr tok s }.

Lemma story_keeps tr tok s er : session_story tr tok s -> ~ logs_out er tok -> (forall t, use_of er <> Some (tok, t)) ->
  session_story (tr ++ [er]) tok s.
Proof.
  intros (i & k & Hik & (id & pw & b & tb & Ei & Hb & Eb & V) & Hn & (er' & Ek & Hu) & Hl) Ho Hno.
  exists i, k. split; [done|]. split; [exists id, pw, b, tb; split_and!; try done; by apply lookup_app_l_Some|]. split.
  - intros j x Hj Hx. apply lookup_app_Some in Hx as [Hx|[Hlen Hx]]; [by eapply Hn|].
    apply list_lookup_singleton_Some in Hx as [_ <-]. done.
  - split; [exists er'; split; [by apply lookup_app_l_Some|done]|].
    intros j x Hj Hx. apply lookup_app_Some in Hx as [Hx|[Hlen Hx]]; [by eapply Hl|].
    apply list_lookup_singleton_Some in Hx as [_ <-]. done.
Qed.

Lemma story_used tr tok s er now : session_story tr tok s -> ~ logs_out er tok -> use_of er = Some (tok, now) ->
  session_story (tr ++ [er]) tok (mkSession (created s) now (subject_of s)).
Proof.
  intros (i & k & Hik & (id & pw & b & tb & Ei & Hb & Eb & V) & Hn & (er' & Ek & Hu') & Hl) Ho Hu.
  pose proof (lookup_lt_Some _ _ _ Ei). exists i, (length tr). split; [lia|]. split.
  { exists id, pw, b, tb. split_and!; try done; by apply lookup_app_l_Some. }
  split.
  - intros j x Hj Hx. apply lookup_app_Some in Hx as [Hx|[Hlen Hx]]; [by eapply Hn|].
    apply list_lookup_singleton_Some in Hx as [_ <-]. done.
  - split; [exists er; split; [by rewrite lookup_app_r, Nat.sub_diag|done]|].
    intros j x Hj Hx. apply lookup_app_Some in Hx as [Hx|[Hlen Hx]]; [apply lookup_lt_Some in Hx; lia|].
    apply list_lookup_singleton_Some in Hx as [? _]. lia.
Qed.

(** What a check does to the table of sessions. *)
Lemma check_spec token now ss : dict_ok ss ->
  let '(ss', ok) := check token now ss in
  dict_ok ss' /\
  (ok = false -> forall t s, dget t ss' = Some s -> dget t ss = Some s) /\
  (ok = true -> exists tok s, token = Some tok /\ dget tok ss = Some s /\ expired now s = false /\
     forall t x, dget t ss' = Some x -> if bool_decide (t = tok) then x = mkSession (created s) now (subject_of s) else dget t ss = Some x).
Proof.
  intros Hok. unfold check. destruct token as [[|c tok]|]; [by split_and!| |by split_and!].
  destruct (dget (c :: tok) ss) as [s|] eqn:E; [|by split_and!]. destruct (expired now s) eqn:Ex.
  - split_and!; [by apply ddel_ok| |done]. intros _ t x Hx. destruct (decide (t = c :: tok)) as [->|Ht].
    + by rewrite dget_ddel_eq in Hx.
    + by rewrite dget_ddel_ne in Hx.
  - split_and!; [by apply dset_ok|done|]. intros _. exists (c :: tok), s. split_and!; try done.
    intros t x Hx. case_bool_decide as Ht.
    + subst t. rewrite dget_dset_eq in Hx. congruence.
    + by rewrite dget_dset_ne in Hx.
Qed.

(** Checking a cookie keeps the invariant, whatever entry it makes. *)
Lemma check_inv d tr er cookies now ss ok :
  desk_inv d tr -> check (cookie_value cookies COOKIE) now (sessions d) = (ss, ok) ->
  (forall tok, ~ logs_out er tok) -> use_of er = (if ok then tok ← cookie_value cookies COOKIE; Some (tok, now) else None) ->
  desk_inv (mkDesk (throttle d) ss (pending d) (begun d)) (tr ++ [er]).
Proof.
  intros [Hp Hids Hok Hs] E Ho Hu. pose proof (check_spec (cookie_value cookies COOKIE) now (sessions d) Hok) as C.
  rewrite E in C. destruct C as (Hok' & Hf & Ht). split; cbn; [|done|done|].
  - intros id pw (b & tb & Hb)%Hp. exists b, tb. by apply lookup_app_l_Some.
  - intros tok s Hx. destruct ok.
    + destruct (Ht eq_refl) as (tok' & s' & Ec & Hd & _ & Hall). rewrite Ec in Hu. specialize (Hall _ _ Hx).
      case_bool_decide as Htk.
      * subst tok' s. apply story_used; [by apply Hs|done|by rewrite Hu].
      * apply story_keeps; [by apply Hs|done|]. rewrite Hu. cbn. intros t [= <- _]. done.
    + apply story_keeps; [by apply Hs, Hf|done|]. by rewrite Hu.
Qed.

(** An entry that neither opens, uses nor ends a session. *)
Lemma idle_inv d d' tr er : desk_inv d tr -> sessions d' = sessions d ->
  (forall id pw, dget id (pending d') = Some pw -> dget id (pending d) = Some pw \/ exists tb, er = (LoginBegin true tb (Some pw), Verifying id)) ->
  dict_ok (pending d') /\ Forall (fun id => (id < begun d')%nat) (pending d').*1 ->
  (forall tok, ~ logs_out er tok) -> use_of er = None -> desk_inv d' (tr ++ [er]).
Proof.
  intros [Hp _ Hok Hs] Es Hpd Hids Ho Hu. split; rewrite ?Es; [|done|done|].
  - intros id pw [(b & tb & Hb)%Hp|[tb ->]]%Hpd; [exists b, tb; by apply lookup_app_l_Some|].
    exists (length tr), tb. by rewrite lookup_app_r, Nat.sub_diag.
  - intros tok s H%Hs. apply story_keeps; [done|done|]. by rewrite Hu.
Qed.

Lemma pending_del id d : dict_ok (pending d) /\ Forall (fun i => (i < begun d)%nat) (pending d).*1 ->
  (dict_ok (ddel id (pending d)) /\ Forall (fun i => (i < begun d)%nat) (ddel id (pending d)).*1) /\
  forall i pw, dget i (ddel id (pending d)) = Some pw -> dget i (pending d) = Some pw.
Proof.
  intros [Hok Hf]. split_and!; [by apply ddel_ok| |].
  - apply Forall_forall. intros i Hi%ddel_keys_In. exact (proj1 (Forall_forall _ _) Hf i Hi).
  - intros i pw H. destruct (decide (i = id)) as [->|Hi]; [by rewrite dget_ddel_eq in H|by rewrite dget_ddel_ne in H].
Qed.

(** An entry that leaves the sessions and the pending logins alone. *)
Local Ltac idle d I := by apply (idle_inv d); try done; first [apply I|auto].

Lemma begin_inv h now pw d tr : desk_inv d tr ->
  let '(d', r) := login_begin h now pw d in desk_inv d' (tr ++ [(LoginBegin h now pw, r)]).
Proof.
  intros I. pose proof (di_ids _ _ I) as [Hok Hf]. unfold login_begin.
  assert (forall r, use_of (LoginBegin h now pw, r) = None) as Hu by done.
  destruct h; cbn [negb]; [|idle d I].
  destruct (fgt _ zero); [idle d I|].
  destruct pw as [pw|]; [|idle d I].
  apply (idle_inv d); cbn; try done.
  - intros id x. cbn. case_decide as E; [intros [= <-]; right; subst; by exists now|by left].
  - assert (begun d ∉ (pending d).*1) as Hn. { intros Hi. pose proof (proj1 (Forall_forall _ _) Hf _ Hi). cbn in *. lia. }
    split; [by constructor|]. constructor; [lia|]. eapply Forall_impl; [exact Hf|]. cbn. lia.
  - by intros ? [].
Qed.

Lemma opened_story tr d id now tok pw : desk_inv d tr -> dget id (pending d) = Some pw -> verify_password decimal pw hash = Ok true ->
  session_story (tr ++ [(LoginEnd id now tok, LoggedIn tok)]) tok (mkSession now now None).
Proof.
  intros I Hd V. destruct (di_pending _ _ I _ _ Hd) as (b & tb & Hb). pose proof (lookup_lt_Some _ _ _ Hb) as Hlt.
  exists (length tr), (length tr). split; [done|]. split; [|split; [|split]].
  - exists id, pw, b, tb. split_and!; [by rewrite lookup_app_r, Nat.sub_diag|done|by apply lookup_app_l_Some|done].
  - intros j x Hj Hx. apply lookup_lt_Some in Hx. rewrite length_app in Hx. cbn in Hx. lia.
  - eexists. split; [by rewrite lookup_app_r, Nat.sub_diag|done].
  - intros j x Hj Hx. apply lookup_lt_Some in Hx. rewrite length_app in Hx. cbn in Hx. lia.
Qed.

Lemma end_inv id now tok d tr : desk_inv d tr ->
  let '(d', r) := login_end decimal hash id now tok d in desk_inv d' (tr ++ [(LoginEnd id now tok, r)]).
Proof.
  intros I. unfold login_end. destruct (dget id (pending d)) as [pw|] eqn:Ed; [|idle d I].
  destruct (pending_del id d (di_ids _ _ I)) as [Hids Hp].
  destruct (verify_password decimal pw hash) as [[]|e] eqn:V; [|by apply (idle_inv d); auto..].
  split; cbn.
  - intros i x (b & tb & Hb)%Hp%(di_pending _ _ I). exists b, tb. by apply lookup_app_l_Some.
  - done.
  - apply dset_ok, I.
  - intros t s Hs. destruct (decide (t = tok)) as [->|Ht].
    + unfold create in Hs. rewrite dget_dset_eq in Hs. injection Hs as <-. by eapply opened_story.
    + unfold create in Hs. rewrite dget_dset_ne in Hs by done. apply story_keeps; [by apply I|by intros []|]. cbn. congruence.
Qed.

Lemma login_step_inv ev d tr : desk_inv d tr -> let '(d', r) := step ev d in desk_inv d' (tr ++ [(ev, r)]).
Proof.
  intros I. destruct ev as [h now pw|id now tok|w h c now|c|c now]; cbn [Auth.step].
  - by apply begin_inv.
  - by apply end_inv.
  - unfold guarded. destruct (w && negb h); [idle d I|].
    unfold authed. destruct (check _ now (sessions d)) as [ss ok] eqn:E.
    apply check_inv with c now ok; [done|done|by intros ? []|by destruct ok].
  - split; cbn.
    + intros i x (b & tb & Hb)%(di_pending _ _ I). exists b, tb. by apply lookup_app_l_Some.
    + apply I.
    + apply ddel_ok, I.
    + intros t s Hs. set (out := default [] (cookie_value c COOKIE)) in *. unfold revoke in Hs. fold out in Hs.
      assert (t <> out) as Ht by (intros ->; by rewrite dget_ddel_eq in Hs by apply I).
      rewrite dget_ddel_ne in Hs by done. apply story_keeps; [by apply I|intros Eo; by apply Ht|done].
  - unfold authed. destruct (check _ now (sessions d)) as [ss ok] eqn:E.
    apply check_inv with c now ok; [done|done|by intros ? []|by destruct ok].
Qed.

Lemma login_run_inv evs : let '(d, tr) := run evs in desk_inv d tr.
Proof.
  induction evs as [|ev evs IH] using rev_ind; [split; cbn; [done|by split; constructor|constructor|done]|].
  unfold Auth.run in *. rewrite foldl_app. cbn. destruct (foldl _ _ evs) as [d tr]. unfold trace_step. cbn.
  pose proof (login_step_inv ev d tr IH). by destruct (step ev d).
Qed.

(** C18: Only a logged-in browser is served.  Whatever requests come, interleaved with the
    logins being verified, when a guarded request is served then its cookie carries a
    token that a login opened after a right password, that nobody has logged out since,
    whose last use is at most half an hour ago and whose login at most twelve hours, as
    the code subtracts the times; and a writing request carried the header. *)
Theorem served_only_logged_in evs w h c now d tr :
  run evs = (d, tr) -> (step (Request w h c now) d).2 = Served ->
  (w = true -> h = true) /\
  exists tok i k t0 t1, cookie_value c COOKIE = Some tok /\ (i <= k)%nat /\
    opened tr i tok t0 /\ not_out tr i tok /\ last_used tr k tok t1 /\
    fgt (fsub now t1) IDLE_TTL_S = false /\ fgt (fsub now t0) ABSOLUTE_TTL_S = false.
Proof.
  intros Hr. pose proof (login_run_inv evs) as I. rewrite Hr in I. cbn [Auth.step]. unfold guarded.
  destruct (w && negb h) eqn:Ew; [done|]. unfold authed.
  pose proof (check_spec (cookie_value c COOKIE) now (sessions d) (di_ok _ _ I)) as C.
  destruct (check _ now (sessions d)) as [ss []]; [|done]. destruct C as (_ & _ & Ht). intros _. split; [by destruct w, h|].
  destruct (Ht eq_refl) as (tok & s & Ec & Hd & Hx & _).
  destruct (di_sessions _ _ I _ _ Hd) as (i & k & Hik & Ho & Hn & Hl).
  unfold expired in Hx. apply orb_false_iff in Hx as [Hi Ha]. exists tok, i, k, (created s), (last_use s). by split_and!.
Qed.
End sessions.

Definition demo_hash : pystr := lit "pbkdf2_sha256$1$00$" ++ hexdigest (default [] (match pbkdf2_hmac (lit "open sesame") [0] 1 with Ok b => Some b | _ => None end)).
Definition demo_events : list Event :=
  [LoginBegin true (of_int 1) (Some (lit "open")); LoginBegin true (of_int 1) (Some (lit "open sesame"));
   LoginEnd 1 (of_int 2) (lit "tok"); LoginEnd 0 (of_int 3) (lit "other")].

Lemma served_only_logged_in_witness :
  exists tok i k t0 t1, cookie_value (lit "desk=tok") (lit "desk") = Some tok /\ (i <= k)%nat /\
    let tr := (run (fun _ => None) demo_hash (lit "desk") demo_events).2 in
    opened (fun _ => None) demo_hash tr i tok t0 /\ not_out (lit "desk") tr i tok /\ last_used (lit "desk") tr k tok t1 /\
    fgt (fsub (of_int 1700) t1) IDLE_TTL_S = false /\ fgt (fsub (of_int 1700) t0) ABSOLUTE_TTL_S = false.
Proof.
  refine (proj2 (served_only_logged_in (fun _ => None) demo_hash (lit "desk") demo_events true true (lit "desk=tok") (of_int 1700)
    (run (fun _ => None) demo_hash (lit "desk") demo_events).1 (run (fun _ => None) demo_hash (lit "desk") demo_events).2 _ _)).
  - by destruct (run _ _ _ _).
  - by vm_compute.
Defined.

(** ** Test vectors *)

Example pbkdf2_vector : rmap hexdigest (pbkdf2_hmac (lit "password") (lit "salt") 2)
  = Ok (lit "ae4d0c95af6b46d32d0adff928f06dd02a303f8ef3c251dfd6e2d85a95474c43").
Proof. by vm_compute. Qed.
Example cookie_ex : cookie_value (lit "a=1; desk=x=y; desk=z") (lit "desk") = Some (lit "x=y").
Proof. by vm_compute. Qed.
End Auth.
