(* ===== verification/Catalog.v ===== *)
(** * The catalogue of tables (src/src/mdfeed/storage/catalog.py)

    The tables both backends hold, their columns with the types on either side, their
    keys and the order their rows are compared in. *)

From S2P Require Import Prelude PyStr.

Module Catalog.

(** [time_encoding] has one value or none. *)
Record ColumnMapping := mkColumn
  { c_name : pystr; sqlite_type : pystr; postgres_type : pystr; nullable : bool; time_encoding : bool }.
Definition col (name sqlite postgres : string) (null time : bool) : ColumnMapping :=
  mkColumn (lit name) (lit sqlite) (lit postgres) null time.

Record TableCatalog := mkTable
  { t_name : pystr; columns : list ColumnMapping; primary_key : list pystr; natural_key : list pystr;
    verification_order : list pystr; raw_retention : bool }.

Definition sqlite_columns (t : TableCatalog) : list pystr := c_name <$> columns t.
Definition postgres_columns (t : TableCatalog) : list pystr := c_name <$> columns t.
Definition timestamp_columns (t : TableCatalog) : list pystr := c_name <$> List.filter time_encoding (columns t).

(** [None] is a [KeyError]. *)
Definition column (name : pystr) (t : TableCatalog) : option ColumnMapping :=
  List.find (fun c => bool_decide (c_name c = name)) (columns t).

Definition APPLICATION_TABLES : list pystr :=
  [lit "instruments"; lit "trades"; lit "book_top"; lit "bars_1m"; lit "signals"; lit "feed_stats"; lit "latest";
   lit "quality_events"].
Definition RAW_RETENTION_TABLES : list pystr := [lit "trades"; lit "book_top"].

Definition instruments_table : TableCatalog := mkTable (lit "instruments")
  [col "venue" "TEXT" "TEXT" false false;
   col "symbol" "TEXT" "TEXT" false false;
   col "base" "TEXT" "TEXT" true false;
   col "quote" "TEXT" "TEXT" true false;
   col "active" "INTEGER" "BOOLEAN" false false;
   col "first_seen" "TEXT" "TIMESTAMPTZ" true true;
   col "last_seen" "TEXT" "TIMESTAMPTZ" true true]
  [lit "venue"; lit "symbol"] [lit "venue"; lit "symbol"] [lit "venue"; lit "symbol"] false.

Definition trades_table : TableCatalog := mkTable (lit "trades")
  [col "ts" "INTEGER" "TIMESTAMPTZ" false true;
   col "venue" "TEXT" "TEXT" false false;
   col "symbol" "TEXT" "TEXT" false false;
   col "price" "REAL" "DOUBLE PRECISION" false false;
   col "qty" "REAL" "DOUBLE PRECISION" false false;
   col "side" "INTEGER" "SMALLINT" false false;
   col "recv_ts" "INTEGER" "TIMESTAMPTZ" false true;
   col "latency_us" "INTEGER" "INTEGER" true false;
   col "seq" "INTEGER" "BIGINT" true false]
  [] [lit "venue"; lit "symbol"; lit "ts"; lit "seq"] [lit "venue"; lit "symbol"; lit "ts"; lit "seq"] true.

Definition book_top_table : TableCatalog := mkTable (lit "book_top")
  [col "ts" "INTEGER" "TIMESTAMPTZ" false true;
   col "venue" "TEXT" "TEXT" false false;
   col "symbol" "TEXT" "TEXT" false false;
   col "bid" "REAL" "DOUBLE PRECISION" true false;
   col "bid_qty" "REAL" "DOUBLE PRECISION" true false;
   col "ask" "REAL" "DOUBLE PRECISION" true false;
   col "ask_qty" "REAL" "DOUBLE PRECISION" true false;
   col "spread_bp" "REAL" "DOUBLE PRECISION" true false]
  [] [lit "venue"; lit "symbol"; lit "ts"] [lit "venue"; lit "symbol"; lit "ts"] true.

Definition bars_1m_table : TableCatalog := mkTable (lit "bars_1m")
  [col "bucket" "INTEGER" "TIMESTAMPTZ" false true;
   col "venue" "TEXT" "TEXT" false false;
   col "symbol" "TEXT" "TEXT" false false;
   col "open" "REAL" "DOUBLE PRECISION" false false;
   col "high" "REAL" "DOUBLE PRECISION" false false;
   col "low" "REAL" "DOUBLE PRECISION" false false;
   col "close" "REAL" "DOUBLE PRECISION" false false;
   col "volume" "REAL" "DOUBLE PRECISION" false false;
   col "notional" "REAL" "DOUBLE PRECISION" false false;
   col "vwap" "REAL" "DOUBLE PRECISION" true false;
   col "tick_count" "INTEGER" "INTEGER" false false]
  [lit "venue"; lit "symbol"; lit "bucket"] [lit "venue"; lit "symbol"; lit "bucket"] [lit "venue"; lit "symbol"; lit "bucket"] false.

Definition signals_table : TableCatalog := mkTable (lit "signals")
  [col "ts" "INTEGER" "TIMESTAMPTZ" false true;
   col "venue" "TEXT" "TEXT" false false;
   col "symbol" "TEXT" "TEXT" false false;
   col "strategy" "TEXT" "TEXT" false false;
   col "action" "INTEGER" "SMALLINT" false false;
   col "strength" "REAL" "DOUBLE PRECISION" true false;
   col "ref_price" "REAL" "DOUBLE PRECISION" true false]
  [] [lit "venue"; lit "symbol"; lit "strategy"; lit "ts"] [lit "venue"; lit "symbol"; lit "strategy"; lit "ts"] false.

Definition feed_stats_table : TableCatalog := mkTable (lit "feed_stats")
  [col "ts" "INTEGER" "TIMESTAMPTZ" false true;
   col "service" "TEXT" "TEXT" false false;
   col "venue" "TEXT" "TEXT" true false;
   col "ticks" "INTEGER" "BIGINT" true false;
   col "latency_p50_us" "INTEGER" "INTEGER" true false;
   col "latency_p99_us" "INTEGER" "INTEGER" true false;
   col "gaps" "INTEGER" "INTEGER" true false;
   col "drops" "INTEGER" "INTEGER" true false;
   col "subscribers" "INTEGER" "INTEGER" true false]
  [] [lit "service"; lit "venue"; lit "ts"] [lit "service"; lit "venue"; lit "ts"] false.

Definition latest_table : TableCatalog := mkTable (lit "latest")
  [col "venue" "TEXT" "TEXT" false false;
   col "symbol" "TEXT" "TEXT" false false;
   col "ts" "INTEGER" "TIMESTAMPTZ" false true;
   col "price" "REAL" "DOUBLE PRECISION" false false;
   col "qty" "REAL" "DOUBLE PRECISION" false false;
   col "side" "INTEGER" "SMALLINT" false false;
   col "latency_us" "INTEGER" "BIGINT" true false]
  [lit "venue"; lit "symbol"] [lit "venue"; lit "symbol"] [lit "venue"; lit "symbol"] false.

Definition quality_events_table : TableCatalog := mkTable (lit "quality_events")
  [col "ts" "INTEGER" "TIMESTAMPTZ" false true;
   col "check_name" "TEXT" "TEXT" false false;
   col "severity" "TEXT" "TEXT" false false;
   col "venue" "TEXT" "TEXT" true false;
   col "symbol" "TEXT" "TEXT" true false;
   col "detail" "TEXT" "TEXT" true false;
   col "value" "REAL" "DOUBLE PRECISION" true false]
  [] [lit "check_name"; lit "severity"; lit "venue"; lit "symbol"; lit "ts"] [lit "check_name"; lit "severity"; lit "venue"; lit "symbol"; lit "ts"] false.

Definition CATALOG : list TableCatalog :=
  [instruments_table; trades_table; book_top_table; bars_1m_table; signals_table; feed_stats_table; latest_table;
   quality_events_table].

(** [CATALOG_BY_NAME[name]]; [None] is a [KeyError]. *)
Definition catalog_table (name : pystr) : option TableCatalog :=
  List.find (fun t => bool_decide (t_name t = name)) CATALOG.

(** The columns rows are ordered by: the verification order, then the rest. *)
Definition order_columns (t : TableCatalog) : list pystr :=
  verification_order t ++ List.filter (fun c => bool_decide (c ∉ verification_order t)) (sqlite_columns t).

(** The catalogue is well formed: its tables are the application's, each once and
    found by its name; in every table the column names differ, every key and the
    verification order are made of its columns, the whole order names every column exactly
    once, no column of the primary key may be null, and the tables whose rows retention
    deletes are exactly those flagged so. *)
Theorem catalog_well_formed :
  (t_name <$> CATALOG) = APPLICATION_TABLES /\ NoDup APPLICATION_TABLES /\
  (t_name <$> List.filter raw_retention CATALOG) = RAW_RETENTION_TABLES /\
  Forall (fun t => catalog_table (t_name t) = Some t /\ NoDup (sqlite_columns t) /\
    primary_key t ⊆ sqlite_columns t /\ natural_key t ⊆ sqlite_columns t /\
    order_columns t ≡ₚ sqlite_columns t /\
    Forall (fun k => exists c, column k t = Some c /\ nullable c = false) (primary_key t)) CATALOG.
Proof.
  split_and!; [done|by apply (bool_decide_unpack _); vm_compute|done|].
  unfold CATALOG. repeat apply Forall_cons_2; try apply Forall_nil_2;
    (split_and!; [done|by apply (bool_decide_unpack _); vm_compute|by apply (bool_decide_unpack _); vm_compute|
      by apply (bool_decide_unpack _); vm_compute|by apply (bool_decide_unpack _); vm_compute|
      cbn [primary_key]; repeat apply Forall_cons_2; try apply Forall_nil_2; by eexists]).
Qed.
End Catalog.
