(* ===== verification/Migration.v ===== *)
(** * Moving the store to PostgreSQL (src/src/mdfeed/migration/)

    Every table is copied chunk by chunk, each chunk in one transaction with a checkpoint;
    an interrupted run is taken up after the checkpoint, which is checked against the
    source first, and at the end the digests of both sides are compared.  A run is given
    the number of transactions it lives to commit, so that it can be killed between any
    two of them; a transaction that fails or is cut off leaves nothing, so it counts as not
    committed.

    Arguments of the model are what the databases and the interpreter do: the order their
    [ORDER BY] returns rows in, the text of a float, the reading of ISO dates. *)

From stdpp Require Import sorting.
From S2P Require Import Prelude PyStr PyFloat Hashes Json PyInt Clock Catalog.

Module Migration.
Import Catalog.

(** ** Values and errors *)

Inductive SqlValue := VNull | VInt (z : Z) | VFloat (f : float) | VText (s : pystr) | VBool (b : bool).
Abbreviation SqlRow := (list SqlValue) (only parsing).
(** An aware datetime is the moment it stands for, in microseconds. *)
Inductive PgValue := PValue (v : SqlValue) | PTime (us : Z).
Abbreviation PgRow := (list PgValue) (only parsing).

(** [MigrationPreflightError], [RuntimeError], and any other exception. *)
Inductive MigError := Preflight (msg : string) | Runtime (msg : string) | PyError (name : string).
Abbreviation R A := (result MigError A) (only parsing).

(** [[f(x) for x in l]] with an [f] that may raise. *)
Fixpoint traverse {A B} (f : A -> R B) (l : list A) : R (list B) :=
  match l with
  | [] => Ok []
  | x :: l => let! y := f x in let! ys := traverse f l in Ok (y :: ys)
  end.

Definition find_table (name : pystr) : R TableCatalog :=
  match catalog_table name with Some t => Ok t | None => Err (PyError "StopIteration") end.

(** ** Times (time.py) *)

(** The moments a datetime can stand for: the years 1 to 9999. *)
Definition MIN_SECOND : Z := -62135596800.
Definition MAX_SECOND : Z := 253402300799.

Definition epoch_us_to_datetime (value : Z) : R Z :=
  let seconds := value / 1000000 in
  let micros := value mod 1000000 in
  if (MIN_SECOND <=? seconds) && (seconds <=? MAX_SECOND) then Ok (seconds * 1000000 + micros) else Err (PyError "ValueError").

(** [timestamp()] is the rounded quotient; [int] cuts towards zero. *)
Definition datetime_to_epoch_us (us : Z) : Z := Clock.ftrunc (int_div us 1000000) * 1000000 + us mod 1000000.

Section migration.
(** [datetime.fromisoformat]: no date, a date without a time zone, a moment. *)
Variable parse_iso : pystr -> option (option Z).
(** The Unicode digits [int] reads, and [repr] of a float. *)
Variable decimal : Z -> option Z.
Variable float_repr : float -> pystr.
(** The rows of a table in the order of [ORDER BY] over the given columns. *)
Variable sqlite_order : TableCatalog -> list pystr -> list (Z * SqlRow) -> list (Z * SqlRow).
Variable postgres_order : TableCatalog -> list pystr -> list PgRow -> list PgRow.

Definition parse_aware_text (value : pystr) : R Z :=
  let s := strip value in
  let s := match rev s with 90 :: r => rev r ++ lit "+00:00" | _ => s end in
  match parse_iso s with
  | None => Err (Preflight "instrument timestamp text must be ISO-8601 with timezone")
  | Some None => Err (Preflight "datetime value is missing timezone")
  | Some (Some us) => Ok (datetime_to_epoch_us us)
  end.

(** [int(v)] of a cell that is not [None]. *)
Definition int_of (v : SqlValue) : R Z :=
  match v with
  | VNull => Err (PyError "TypeError")
  | VInt z => Ok z
  | VFloat (S754_nan) => Err (PyError "ValueError")
  | VFloat (S754_infinity _) => Err (PyError "OverflowError")
  | VFloat f => Ok (Clock.ftrunc f)
  | VText s => match py_int decimal s with Some z => Ok z | None => Err (PyError "ValueError") end
  | VBool b => Ok (if b then 1 else 0)
  end.

(** ** The source (sqlite_source.py) *)

(** The file and its tables; a table's rows come by [rowid]. *)
Record Source := mkSource
  { src_exists : bool; src_wal : bool; src_readable : bool;
    src_columns : pystr -> list pystr; src_rows : pystr -> list (Z * SqlRow) }.

Definition KNOWN_VENUES : list pystr := [lit "UPBIT"; lit "BINANCE"; lit "KIS"; lit "KRX"; lit "KRX-IDX"; lit "RATE"].

Definition open_sqlite_source (s : Source) : R unit :=
  if negb (src_exists s) then Err (Preflight "SQLite source does not exist")
  else if src_wal s then Err (Preflight "SQLite source has an active WAL; checkpoint it before immutable access")
  else if negb (src_readable s) then Err (Preflight "SQLite source is not a readable database")
  else Ok tt.

Definition is_instruments (t : TableCatalog) : bool := bool_decide (t_name t = lit "instruments").

Definition normalize_cell (t : TableCatalog) (cv : ColumnMapping * SqlValue) : R SqlValue :=
  let '(c, raw) := cv in
  match raw with
  | VNull => Ok VNull
  | _ =>
      if time_encoding c && is_instruments t then
        match raw with
        | VText s => rmap VInt (parse_aware_text s)
        | _ => Err (Preflight "instrument timestamp must be timezone text or NULL")
        end
      else if is_instruments t && bool_decide (c_name c = lit "active") then
        let! a := int_of raw in
        if (a =? 0) || (a =? 1) then Ok (VInt a) else Err (Preflight "instruments.active must be 0 or 1")
      else Ok raw
  end.
Definition normalize_sqlite_row (t : TableCatalog) (row : SqlRow) : R SqlRow := traverse (normalize_cell t) (zip (columns t) row).

Definition normalize_chunk (t : TableCatalog) (rows : list (Z * SqlRow)) : R (list (Z * SqlRow)) :=
  traverse (fun r => rmap (fun row => (r.1, row)) (normalize_sqlite_row t r.2)) rows.

(** A negative [LIMIT] is none. *)
Definition limited {A} (limit : Z) (l : list A) : list A := if limit <? 0 then l else take (Z.to_nat limit) l.

Definition read_sqlite_chunk (s : Source) (t : TableCatalog) (after_rowid limit : Z) : R (list (Z * SqlRow)) :=
  normalize_chunk t (limited limit (List.filter (fun r => after_rowid <? r.1) (src_rows s (t_name t)))).

Definition read_sqlite_rowid_range (s : Source) (t : TableCatalog) (first last : Z) : R (list (Z * SqlRow)) :=
  normalize_chunk t (List.filter (fun r => (first <=? r.1) && (r.1 <=? last)) (src_rows s (t_name t))).

(** ** Digests *)

(** [json.dumps] escapes everything that is not printable ASCII. *)
Definition u_escape (u : Z) : pystr :=
  [92; 117; hex_digit (u / 4096); hex_digit (u / 256 mod 16); hex_digit (u / 16 mod 16); hex_digit (u mod 16)].
Definition ascii_char (c : Z) : pystr :=
  if (32 <=? c) && (c <=? 126) then esc_char c
  else if bool_decide (c ∈ [8; 9; 10; 12; 13]) then esc_char c
  else if c <? 65536 then u_escape c
  else u_escape (0xD800 + (c - 65536) / 1024) ++ u_escape (0xDC00 + (c - 65536) mod 1024).
Definition json_text (s : pystr) : pystr := 34 :: concat (ascii_char <$> s) ++ [34].

Definition json_cell (v : SqlValue) : pystr :=
  match v with
  | VNull => lit "null"
  | VInt z => str_int z
  | VFloat f => float_repr f
  | VText s => json_text s
  | VBool b => if b then lit "true" else lit "false"
  end.
Fixpoint comma (l : list pystr) : pystr :=
  match l with [] => [] | [x] => x | x :: l => x ++ 44 :: comma l end.
Definition json_list (l : list pystr) : pystr := 91 :: comma l ++ [93].
Definition json_row (row : SqlRow) : pystr := json_list (json_cell <$> row).

Fixpoint insert_pair (p : pystr * pystr) (l : list (pystr * pystr)) : list (pystr * pystr) :=
  match l with [] => [p] | q :: l => if str_leb p.1 q.1 then p :: q :: l else q :: insert_pair p l end.
(** An object with sorted keys, its values as text. *)
Definition json_object (l : list (pystr * pystr)) : pystr :=
  123 :: comma ((fun kv => json_text kv.1 ++ 58 :: kv.2) <$> foldr insert_pair [] l) ++ [125].

(** A hash of lines; the text is ASCII. *)
Definition hash_lines (lines : list pystr) : pystr := hexdigest (sha256 (concat ((fun l => l ++ [10]) <$> lines))).

Definition chunk_content_hash (chunk : list (Z * SqlRow)) : pystr :=
  hash_lines ((fun r => json_list [str_int r.1; json_row r.2]) <$> chunk).

Record TableDigest := mkTableDigest
  { td_name : pystr; row_count : Z; null_counts : list (pystr * Z); min_times : list (pystr * option Z);
    max_times : list (pystr * option Z); content_hash : pystr }.
Record StorageDigest := mkStorageDigest { fingerprint : pystr; digest_tables : list TableDigest }.

(** The cells of a column, in the order of the rows. *)
Definition cells (i : nat) (rows : list SqlRow) : list SqlValue := omap (fun row => row !! i) rows.
Definition null_count (vs : list SqlValue) : Z := zlen (List.filter (fun v => match v with VNull => true | _ => false end) vs).
Definition times_of (vs : list SqlValue) : R (list Z) :=
  traverse int_of (List.filter (fun v => match v with VNull => false | _ => true end) vs).
Definition extreme (f : Z -> Z -> Z) (l : list Z) : option Z := match l with [] => None | x :: l => Some (foldl f x l) end.

Definition digest_rows (t : TableCatalog) (rows : list SqlRow) : R TableDigest :=
  let cols := imap (fun i c => (i, c)) (columns t) in
  let! times := traverse (fun ic => rmap (fun ts => (c_name ic.2, ts)) (times_of (cells ic.1 rows)))
                  (List.filter (fun ic => time_encoding ic.2) cols) in
  Ok (mkTableDigest (t_name t) (zlen rows)
        ((fun ic => (c_name ic.2, null_count (cells ic.1 rows))) <$> List.filter (fun ic => nullable ic.2) cols)
        ((fun ct => (ct.1, extreme Z.min ct.2)) <$> times) ((fun ct => (ct.1, extreme Z.max ct.2)) <$> times)
        (hash_lines (json_row <$> rows))).

Definition json_opt (o : option Z) : pystr := match o with Some z => str_int z | None => lit "null" end.
Definition digest_json (d : TableDigest) : pystr :=
  json_object
    [(lit "row_count", str_int (row_count d));
     (lit "null_counts", json_object ((fun kv => (kv.1, str_int kv.2)) <$> null_counts d));
     (lit "min_times", json_object ((fun kv => (kv.1, json_opt kv.2)) <$> min_times d));
     (lit "max_times", json_object ((fun kv => (kv.1, json_opt kv.2)) <$> max_times d));
     (lit "content_hash", json_text (content_hash d))].
Definition fingerprint_of (ds : list TableDigest) : pystr :=
  hexdigest (sha256 (json_object ((fun d => (td_name d, digest_json d)) <$> ds))).
Definition storage_digest (ds : list TableDigest) : StorageDigest := mkStorageDigest (fingerprint_of ds) ds.
(** [tables_by_name[name].row_count]. *)
Definition digest_count (d : StorageDigest) (name : pystr) : Z :=
  match List.find (fun t => bool_decide (td_name t = name)) (rev (digest_tables d)) with Some t => row_count t | None => 0 end.

Definition is_known (v : SqlValue) : bool := match v with VText s => bool_decide (s ∈ KNOWN_VENUES) | VNull => true | _ => false end.
Definition preflight_table (s : Source) (t : TableCatalog) : R unit :=
  let rows := src_rows s (t_name t) in
  if existsb (fun r => r.1 <=? 0) rows then Err (Preflight "a table contains rowid <= 0")
  else
    match list_find (fun c => c = lit "venue") (sqlite_columns t) with
    | None => Ok tt
    | Some (i, _) => if forallb is_known (cells i rows.*2) then Ok tt else Err (Preflight "unknown venue")
    end.

Definition sqlite_table_digest (s : Source) (t : TableCatalog) : R TableDigest :=
  if bool_decide (src_columns s (t_name t) = sqlite_columns t) then
    let! rows := normalize_chunk t (sqlite_order t (order_columns t) (src_rows s (t_name t))) in
    digest_rows t rows.*2
  else Err (Preflight "SQLite schema mismatch").

Definition canonical_sqlite_digest (s : Source) : R StorageDigest :=
  let! _ := open_sqlite_source s in
  let! _ := traverse (preflight_table s) CATALOG in
  rmap storage_digest (traverse (sqlite_table_digest s) CATALOG).

(** ** The target (postgres_target.py) *)

Inductive RunState := RUNNING | COMPLETED.
#[local] Instance run_state_eq_dec : EqDecision RunState.
Proof. solve_decision. Defined.
Record Checkpoint := mkCheckpoint { first_rowid : Z; last_rowid : Z; chunk_rows : Z; rows_done : Z; chunk_hash : pystr }.
(** A database, its schema made or not. *)
Record Target := mkTarget
  { has_schema : bool; t_rows : gmap pystr (list PgRow); t_runs : gmap pystr (pystr * RunState);
    t_checkpoints : gmap (pystr * pystr) Checkpoint }.
Definition empty_target (schema : bool) : Target := mkTarget schema ∅ ∅ ∅.
Definition rows_of (name : pystr) (t : Target) : list PgRow := default [] (t_rows t !! name).

Definition init_target_schema (t : Target) : Target := mkTarget true (t_rows t) (t_runs t) (t_checkpoints t).

Definition postgres_cell (t : TableCatalog) (cv : ColumnMapping * SqlValue) : R PgValue :=
  let '(c, v) := cv in
  match v with
  | VNull => Ok (PValue VNull)
  | _ =>
      if is_instruments t && bool_decide (c_name c = lit "active") then let! a := int_of v in Ok (PValue (VBool (a =? 1)))
      else if time_encoding c then let! z := int_of v in rmap PTime (epoch_us_to_datetime z)
      else Ok (PValue v)
  end.
Definition postgres_row (t : TableCatalog) (row : SqlRow) : R PgRow := traverse (postgres_cell t) (zip (columns t) row).

(** [if value] of a cell. *)
Definition truthy_value (v : SqlValue) : bool :=
  match v with
  | VNull => false | VInt z => negb (z =? 0) | VFloat f => truthy f | VText s => negb (bool_decide (s = [])) | VBool b => b
  end.
Definition normalize_pg_cell (cv : ColumnMapping * PgValue) : R SqlValue :=
  let '(c, v) := cv in
  match v with
  | PValue VNull => Ok VNull
  | PTime us =>
      if time_encoding c then Ok (VInt (datetime_to_epoch_us us))
      else if bool_decide (c_name c = lit "active") then Ok (VInt 1)
      else Err (Preflight "PostgreSQL datetime value appeared in a non-time column")
  | PValue v =>
      if time_encoding c then Err (Preflight "PostgreSQL timestamp column is not a datetime")
      else if bool_decide (c_name c = lit "active") then Ok (VInt (if truthy_value v then 1 else 0))
      else Ok v
  end.
Definition normalize_postgres_row (t : TableCatalog) (row : PgRow) : R SqlRow := traverse normalize_pg_cell (zip (columns t) row).

Definition postgres_table_digest (tg : Target) (t : TableCatalog) : R TableDigest :=
  let! rows := traverse (normalize_postgres_row t) (postgres_order t (order_columns t) (rows_of (t_name t) tg)) in
  digest_rows t rows.
Definition canonical_postgres_digest (tg : Target) : R StorageDigest :=
  if has_schema tg then rmap storage_digest (traverse (postgres_table_digest tg) CATALOG) else Err (PyError "UndefinedTable").

Definition assert_empty_or_matching (tg : Target) (run_id source_fingerprint : pystr) : R unit :=
  if negb (has_schema tg) then Ok tt
  else
    match t_runs tg !! run_id with
    | Some (fp, _) => if bool_decide (fp = source_fingerprint) then Ok tt else Err (Preflight "migration run source fingerprint changed")
    | None =>
        if existsb (fun t => 0 <? zlen (rows_of (t_name t) tg)) CATALOG
        then Err (Preflight "target is not empty and run does not match") else Ok tt
    end.

(** The transaction of one chunk: the rows and the checkpoint. *)
Definition put_chunk (run_id name : pystr) (rows : list PgRow) (c : Checkpoint) (tg : Target) : Target :=
  mkTarget (has_schema tg) (<[name := rows_of name tg ++ rows]> (t_rows tg)) (t_runs tg) (<[(run_id, name) := c]> (t_checkpoints tg)).
Definition ensure_run (run_id source_fingerprint : pystr) (tg : Target) : Target :=
  mkTarget (has_schema tg) (t_rows tg)
    (match t_runs tg !! run_id with Some _ => t_runs tg | None => <[run_id := (source_fingerprint, RUNNING)]> (t_runs tg) end)
    (t_checkpoints tg).
Definition complete_run (run_id : pystr) (tg : Target) : Target :=
  mkTarget (has_schema tg) (t_rows tg) (alter (fun r => (r.1, COMPLETED)) run_id (t_runs tg)) (t_checkpoints tg).

(** ** The engine (engine.py) *)

(** What becomes of a run: a value, an exception, or it is killed.  It carries the target
    and the transactions it may still commit. *)
Inductive Out (A : Type) := Val (a : A) | Raise (e : MigError) | Killed.
Arguments Val {A} _.
Arguments Raise {A} _.
Arguments Killed {A}.
Definition M (A : Type) : Type := nat * Target -> Out A * (nat * Target).
Definition mbind {A B} (m : M A) (f : A -> M B) : M B :=
  fun s => match m s with (Val a, s) => f a s | (Raise e, s) => (Raise e, s) | (Killed, s) => (Killed, s) end.
Definition lift {A} (r : Target -> R A) : M A :=
  fun s => (match r s.2 with Ok a => Val a | Err e => Raise e end, s).
Definition commit (f : Target -> Target) : M unit :=
  fun s => match s.1 with O => (Killed, s) | S k => (Val tt, (k, f s.2)) end.
Notation "'let#' x := m 'in' k" := (mbind m (fun x => k)) (at level 10, x pattern, m at level 100, k at level 200).

Definition checkpoint_rowid (tg : Target) (run_id name : pystr) : Z :=
  match t_checkpoints tg !! (run_id, name) with Some c => last_rowid c | None => 0 end.
Definition checkpoint_count (tg : Target) (run_id name : pystr) : Z :=
  match t_checkpoints tg !! (run_id, name) with Some c => rows_done c | None => 0 end.

Definition checkpoint_hash_from_source (s : Source) (name : pystr) (first last count : Z) : R pystr :=
  let! t := find_table name in
  let! chunk := read_sqlite_rowid_range s t first last in
  if zlen chunk =? count then Ok (chunk_content_hash chunk) else Err (Runtime "checkpoint source row count mismatch").

Definition validate_checkpoint (s : Source) (tg : Target) (nc : pystr * Checkpoint) : R unit :=
  let '(name, c) := nc in
  let! expected := checkpoint_hash_from_source s name (first_rowid c) (last_rowid c) (chunk_rows c) in
  if bool_decide (chunk_hash c = expected) then
    if zlen (rows_of name tg) =? rows_done c then Ok tt else Err (Runtime "checkpoint target row count mismatch")
  else Err (Runtime "checkpoint tamper detected").

(** The checkpoints of a run, in some order. *)
Definition checkpoints_of (run_id : pystr) (tg : Target) : list (pystr * Checkpoint) :=
  omap (fun kc => if bool_decide (kc.1.1 = run_id) then Some (kc.1.2, kc.2) else None) (map_to_list (t_checkpoints tg)).
Definition validate_checkpoints (s : Source) (run_id : pystr) (tg : Target) : R unit :=
  if has_schema tg then rmap (fun _ => tt) (traverse (validate_checkpoint s tg) (checkpoints_of run_id tg))
  else Err (PyError "UndefinedTable").

(** The rows of a chunk and its checkpoint. *)
Definition next_checkpoint (tg : Target) (run_id : pystr) (t : TableCatalog) (chunk : list (Z * SqlRow)) : Checkpoint :=
  mkCheckpoint (default 0 (head chunk.*1)) (default 0 (last chunk.*1)) (zlen chunk)
    (checkpoint_count tg run_id (t_name t) + zlen chunk) (chunk_content_hash chunk).

Fixpoint migrate_loop (s : Source) (run_id : pystr) (d : StorageDigest) (t : TableCatalog) (chunk_size : Z) (k : nat) (tg : Target)
    : Out unit * (nat * Target) :=
  match read_sqlite_chunk s t (checkpoint_rowid tg run_id (t_name t)) chunk_size with
  | Err e => (Raise e, (k, tg))
  | Ok [] => (Val tt, (k, tg))
  | Ok chunk =>
      let c := next_checkpoint tg run_id t chunk in
      match traverse (postgres_row t) chunk.*2 with
      | Err e => (Raise e, (k, tg))
      | Ok rows =>
          match k with
          | O => (Killed, (O, tg))
          | S k =>
              let tg := put_chunk run_id (t_name t) rows c tg in
              if digest_count d (t_name t) <? rows_done c then (Raise (Preflight "checkpoint row count exceeds source count"), (k, tg))
              else migrate_loop s run_id d t chunk_size k tg
          end
      end
  end.
Definition migrate_table (s : Source) (run_id : pystr) (d : StorageDigest) (chunk_size : Z) (t : TableCatalog) : M unit :=
  fun st => migrate_loop s run_id d t chunk_size st.1 st.2.
Fixpoint migrate_tables (s : Source) (run_id : pystr) (d : StorageDigest) (chunk_size : Z) (ts : list TableCatalog) : M unit :=
  match ts with
  | [] => lift (fun _ => Ok tt)
  | t :: ts => let# _ := migrate_table s run_id d chunk_size t in migrate_tables s run_id d chunk_size ts
  end.

Record MigrationReceipt := mkReceipt
  { r_run_id : pystr; source_fingerprint : pystr; completed : bool; r_source : StorageDigest; r_target : StorageDigest }.

(** [s_end] is the source as the second digest finds it; [lock_free]: nobody else migrates. *)
Definition run_migration (s s_end : Source) (run_id : pystr) (chunk_size : Z) (init_target lock_free : bool) : M MigrationReceipt :=
  let# d := lift (fun _ => canonical_sqlite_digest s) in
  let# _ := (if init_target then commit init_target_schema else lift (fun _ => Ok tt)) in
  let# _ := lift (fun _ => open_sqlite_source s) in
  let# _ := lift (fun _ => if lock_free then Ok tt else Err (Runtime "another migration is already running for this target")) in
  let# _ := lift (fun tg => assert_empty_or_matching tg run_id (fingerprint d)) in
  let# _ := lift (fun tg => validate_checkpoints s run_id tg) in
  let# _ := commit (ensure_run run_id (fingerprint d)) in
  let# _ := migrate_tables s run_id d chunk_size CATALOG in
  let# d_end := lift (fun _ => canonical_sqlite_digest s_end) in
  let# _ := lift (fun _ => if bool_decide (fingerprint d_end = fingerprint d) then Ok tt else Err (Runtime "migration source changed during copy")) in
  let# dt := lift canonical_postgres_digest in
  let# _ := lift (fun _ => if bool_decide (fingerprint d = fingerprint dt) then Ok tt
                           else Err (Runtime "migration verify failed: source and target digests differ")) in
  let# _ := commit (complete_run run_id) in
  lift (fun _ => Ok (mkReceipt run_id (fingerprint d) true d dt)).

Definition run_state (tg : Target) (run_id fp : pystr) : R (option RunState) :=
  match t_runs tg !! run_id with
  | None => Ok None
  | Some (fp', st) => if bool_decide (fp' = fp) then Ok (Some st) else Err (Preflight "migration run source fingerprint changed")
  end.
Definition migration_status (s : Source) (tg : Target) (run_id : pystr) : R MigrationReceipt :=
  let! d := canonical_sqlite_digest s in
  let! dt := canonical_postgres_digest tg in
  let! st := run_state tg run_id (fingerprint d) in
  Ok (mkReceipt run_id (fingerprint d) (bool_decide (st = Some COMPLETED) && bool_decide (fingerprint d = fingerprint dt)) d dt).
Definition verify_migration (s : Source) (tg : Target) (run_id : pystr) : R MigrationReceipt :=
  let! st := migration_status s tg run_id in
  if completed st then Ok st else Err (Runtime "migration verification failed").
End migration.
Arguments Val {A} _.
Arguments Raise {A} _.
Arguments Killed {A}.

(** ** Lists *)

Lemma traverse_Forall2 {A B} (f : A -> result MigError B) l ys : traverse f l = Ok ys <-> Forall2 (fun x y => f x = Ok y) l ys.
Proof.
  split.
  - revert ys. induction l as [|x l IH]; intros ys H; cbn in H; [injection H as <-; constructor|].
    apply rbind_Ok in H as (y & Hy & H). apply rbind_Ok in H as (zs & Hz & [= <-]). constructor; auto.
  - induction 1 as [|x y l ys Hx _ IH]; [done|]. cbn. by rewrite Hx, IH.
Qed.

Lemma traverse_perm {A B} (f : A -> result MigError B) l l' ys : traverse f l = Ok ys -> l ≡ₚ l' -> exists ys', traverse f l' = Ok ys'.
Proof.
  intros H Hp. apply traverse_Forall2 in H. assert (Forall (fun x => exists y, f x = Ok y) l) as F.
  { clear -H. induction H; constructor; eauto. }
  rewrite Hp in F. clear -F. induction F as [|x l [y Hy] _ [ys IH]]; [by exists []|]. exists (y :: ys). cbn. by rewrite Hy, IH.
Qed.

Lemma traverse_app {A B} (f : A -> result MigError B) l k xs ys : traverse f l = Ok xs -> traverse f k = Ok ys -> traverse f (l ++ k) = Ok (xs ++ ys).
Proof. rewrite !traverse_Forall2. apply Forall2_app. Qed.

Lemma rmap_Ok {A B} (f : A -> B) (r : result MigError A) b : rmap f r = Ok b <-> exists a, r = Ok a /\ b = f a.
Proof. destruct r; cbn; split; [intros [= <-]; eauto|intros (? & [= <-] & ->); done|done|by intros (? & ? & _)]. Qed.

(** Cutting a list sorted by its keys. *)
Definition sorted (l : list (Z * SqlRow)) : Prop := StronglySorted Z.lt l.*1.

Lemma filter_all {A} (p : A -> bool) l : Forall (fun x => p x = true) l -> List.filter p l = l.
Proof. induction 1 as [|x l Hx _ IH]; [done|]. cbn. by rewrite Hx, IH. Qed.
Lemma filter_nothing {A} (p : A -> bool) l : Forall (fun x => p x = false) l -> List.filter p l = [].
Proof. induction 1 as [|x l Hx _ IH]; [done|]. cbn. by rewrite Hx, IH. Qed.

Lemma sorted_cross a b x y : sorted (a ++ b) -> x ∈ a -> y ∈ b -> x.1 < y.1.
Proof.
  unfold sorted. rewrite fmap_app. intros H Hx Hy.
  exact (StronglySorted_app_1_elem_of _ _ _ _ _ H (list_elem_of_fmap_2 fst a x Hx) (list_elem_of_fmap_2 fst b y Hy)).
Qed.

(** The key of the [n]-th row, the one a checkpoint after [n] rows remembers. *)
Definition after (l : list (Z * SqlRow)) (n : nat) : Z := default 0 (last (take n l).*1).

Lemma take_last_split {A} (l : list A) n : (0 < n <= length l)%nat -> exists l' x, take n l = l' ++ [x] /\ last (take n l) = Some x.
Proof.
  intros H. destruct (exists_last (l := take n l)) as (l' & x & E).
  { intros E. apply (f_equal length) in E. rewrite length_take in E. cbn in E. lia. }
  exists l', x. split; [done|]. by rewrite E, last_snoc.
Qed.

Lemma after_bound l n x : sorted l -> Forall (fun r => 0 < r.1) l -> (n <= length l)%nat ->
  (x ∈ take n l -> x.1 <= after l n) /\ (x ∈ drop n l -> after l n < x.1).
Proof.
  intros Hs Hp Hn. unfold after. destruct n as [|n].
  { split; [by intros ?%elem_of_nil|]. cbn. intros Hx. exact (proj1 (Forall_forall _ _) Hp x Hx). }
  destruct (take_last_split l (S n)) as (l' & y & E & El); [lia|].
  rewrite fmap_last, El. cbn. rewrite <- (take_drop (S n) l) in Hs. split.
  - rewrite E. intros [Hx| ->%list_elem_of_singleton]%elem_of_app; [|lia].
    rewrite E, <- app_assoc in Hs. pose proof (sorted_cross _ _ x y Hs Hx) as H.
    specialize (H ltac:(by apply elem_of_app; left; left)). lia.
  - intros Hx. eapply sorted_cross; [exact Hs| |exact Hx]. rewrite E. apply elem_of_app. right. left.
Qed.

Lemma filter_after l n : sorted l -> Forall (fun r => 0 < r.1) l -> (n <= length l)%nat ->
  List.filter (fun r => after l n <? r.1) l = drop n l.
Proof.
  intros Hs Hp Hn. set (p := fun _ => _). transitivity (List.filter p (take n l ++ drop n l)); [by rewrite take_drop|]. unfold p.
  rewrite List.filter_app, filter_nothing, filter_all; [done|..];
    apply Forall_forall; intros x Hx; pose proof (after_bound l n x Hs Hp Hn) as [H1 H2].
  - specialize (H2 Hx). lia.
  - specialize (H1 Hx). lia.
Qed.

Lemma filter_range l m n x : sorted l -> Forall (fun r => 0 < r.1) l -> l !! m = Some x -> (m < n <= length l)%nat ->
  List.filter (fun r => (x.1 <=? r.1) && (r.1 <=? after l n)) l = drop m (take n l).
Proof.
  intros Hs Hp Hm Hn.
  assert (l = take m l ++ drop m (take n l) ++ drop n l) as E.
  { rewrite app_assoc. replace (take m l) with (take m (take n l)) by (rewrite take_take; f_equal; lia). by rewrite !take_drop. }
  assert (drop m (take n l) !! 0%nat = Some x) as Hx.
  { rewrite lookup_drop, lookup_take_lt by lia. by rewrite Nat.add_0_r. }
  assert (x ∈ drop m (take n l)) as Hx' by (by eapply list_elem_of_lookup_2).
  set (p := fun _ => _). transitivity (List.filter p (take m l ++ drop m (take n l) ++ drop n l)); [by rewrite <- E|].
  unfold p. rewrite !List.filter_app, (filter_nothing _ (take m l)), (filter_nothing _ (drop n l)), app_nil_r, filter_all; [done|..]; apply Forall_forall; intros y Hy.
  - assert (y.1 <= after l n) as H1.
    { apply after_bound; [done..|lia|]. by eapply subseteq_drop. }
    assert (x.1 <= y.1); [|lia]. rewrite E in Hs.
    destruct (drop m (take n l)) as [|x' r] eqn:Ed; [done|]. injection Hx as ->.
    apply elem_of_cons in Hy as [->|Hy]; [lia|].
    assert (sorted ([x] ++ r)) as Hs'. { unfold sorted in *. rewrite !fmap_app in Hs. apply StronglySorted_app_1_r, StronglySorted_app_1_l in Hs. exact Hs. }
    pose proof (sorted_cross [x] r x y Hs' ltac:(left) Hy). lia.
  - pose proof (proj2 (after_bound l n y Hs Hp ltac:(lia)) Hy). lia.
  - rewrite E in Hs. pose proof (sorted_cross _ _ y x Hs Hy ltac:(apply elem_of_app; by left)). lia.
Qed.

Lemma keys_pos (l : list (Z * SqlRow)) : Forall (fun z => 0 < z) l.*1 <-> Forall (fun r => 0 < r.1) l.
Proof. by rewrite Forall_fmap. Qed.

(** ** A run and its invariant *)

Section runs.
Variable parse_iso : pystr -> option (option Z).
Variable decimal : Z -> option Z.
Variable float_repr : float -> pystr.
Variable sqlite_order : TableCatalog -> list pystr -> list (Z * SqlRow) -> list (Z * SqlRow).
Variable s : Source.
Variable run_id : pystr.
Variable d : StorageDigest.
(** [ORDER BY] returns the rows there are; rows come by increasing [rowid]; the source's
    digest could be taken. *)
Hypothesis order_rows : forall t cols rows, sqlite_order t cols rows ≡ₚ rows.
Hypothesis by_rowid : forall name, sorted (src_rows s name).
Hypothesis digested : canonical_sqlite_digest parse_iso decimal float_repr sqlite_order s = Ok d.
#[local] Set Default Proof Using "All".
Abbreviation normalize := (normalize_chunk parse_iso decimal).
Abbreviation read_chunk := (read_sqlite_chunk parse_iso decimal s).
Abbreviation loop := (migrate_loop parse_iso decimal float_repr s run_id d).
Abbreviation hash := (chunk_content_hash float_repr).

(** The rows of a table as the chunks carry them. *)
Definition norm (t : TableCatalog) : list (Z * SqlRow) :=
  match normalize t (src_rows s (t_name t)) with Ok l => l | Err _ => [] end.

Lemma digested_tables : exists ds, d = storage_digest ds /\
  Forall2 (fun t td => sqlite_table_digest parse_iso decimal float_repr sqlite_order s t = Ok td) CATALOG ds /\
  Forall (fun t => preflight_table s t = Ok tt) CATALOG.
Proof.
  pose proof digested as H. unfold canonical_sqlite_digest in H.
  apply rbind_Ok in H as (_ & _ & H). apply rbind_Ok in H as (us & Hp & H).
  apply rmap_Ok in H as (ds & Hd & ->). exists ds. split; [done|]. apply traverse_Forall2 in Hp, Hd. split; [done|].
  clear -Hp. induction Hp as [|t [] l us Ht _ IH]; constructor; done.
Qed.

Lemma table_digest t td : sqlite_table_digest parse_iso decimal float_repr sqlite_order s t = Ok td ->
  normalize t (src_rows s (t_name t)) = Ok (norm t) /\ td_name td = t_name t /\ row_count td = zlen (norm t).
Proof.
  unfold sqlite_table_digest. destruct (bool_decide _); [|done]. intros H.
  apply rbind_Ok in H as (rows & Hr & H). unfold digest_rows in H. apply rbind_Ok in H as (times & _ & [= <-]).
  destruct (traverse_perm _ _ _ _ Hr (order_rows _ _ _)) as [ys Hy]. unfold norm, normalize_chunk. rewrite Hy. cbn. split_and!; [done|done|].
  apply traverse_Forall2 in Hr, Hy. apply Forall2_length in Hr, Hy.
  rewrite length_fmap. pose proof (Permutation_length (order_rows t (order_columns t) (src_rows s (t_name t)))). lia.
Qed.

Lemma norm_ok t : t ∈ CATALOG -> normalize t (src_rows s (t_name t)) = Ok (norm t).
Proof.
  intros Ht. destruct digested_tables as (ds & _ & H & _). apply list_elem_of_lookup in Ht as [i Hi].
  destruct (Forall2_lookup_l _ _ _ _ _ H Hi) as (td & _ & Htd). by eapply table_digest.
Qed.

Lemma catalog_names t t' : t ∈ CATALOG -> t' ∈ CATALOG -> t_name t = t_name t' -> t = t'.
Proof.
  intros Ht Ht'. assert (NoDup (t_name <$> CATALOG)) as N by (apply (bool_decide_unpack _); by vm_compute).
  clear -Ht Ht' N. induction CATALOG as [|x l IH]; [by apply elem_of_nil in Ht|].
  apply NoDup_cons in N as [Nx N]. apply elem_of_cons in Ht as [->|Ht], Ht' as [->|Ht']; intros E; try done.
  - destruct Nx. rewrite E. by apply list_elem_of_fmap_2.
  - destruct Nx. rewrite <- E. by apply list_elem_of_fmap_2.
  - by apply IH.
Qed.

Lemma find_catalog t : t ∈ CATALOG -> catalog_table (t_name t) = Some t.
Proof.
  intros Ht. unfold catalog_table. destruct (List.find _ CATALOG) as [t'|] eqn:E.
  - apply List.find_some in E as [Ht' En%bool_decide_eq_true]. f_equal. apply catalog_names; [by apply list_elem_of_In|done|done].
  - pose proof (List.find_none _ _ E t ltac:(by apply list_elem_of_In)) as Hn. cbn in Hn. by rewrite bool_decide_true in Hn.
Qed.

Lemma counted t : t ∈ CATALOG -> digest_count d (t_name t) = zlen (norm t).
Proof.
  intros Ht. destruct digested_tables as (ds & Ed & H & _). unfold digest_count. replace (digest_tables d) with ds by (by rewrite Ed).
  destruct (List.find _ (rev ds)) as [td|] eqn:E.
  - apply List.find_some in E as [Hin En%bool_decide_eq_true]. apply in_rev, list_elem_of_In, list_elem_of_lookup in Hin as [i Hi].
    destruct (Forall2_lookup_r _ _ _ _ _ H Hi) as (t' & Ht' & Htd). pose proof (table_digest _ _ Htd) as (_ & Hn & ->).
    assert (t' = t) as -> by (apply catalog_names; [by eapply list_elem_of_lookup_2|done|congruence]). done.
  - exfalso. apply list_elem_of_lookup in Ht as [i Hi]. destruct (Forall2_lookup_l _ _ _ _ _ H Hi) as (td & Htd & Hd).
    pose proof (List.find_none _ _ E td ltac:(apply in_rev; rewrite rev_involutive; apply list_elem_of_In; by eapply list_elem_of_lookup_2)) as Hn.
    cbn in Hn. rewrite bool_decide_true in Hn; [done|]. by eapply table_digest.
Qed.

(** The normalized rows have the keys of the raw ones. *)
Lemma norm_rows t : t ∈ CATALOG ->
  Forall2 (fun x y => rmap (fun row => (x.1, row)) (normalize_sqlite_row parse_iso decimal t x.2) = Ok y) (src_rows s (t_name t)) (norm t) /\
  (norm t).*1 = (src_rows s (t_name t)).*1 /\ sorted (norm t) /\ Forall (fun r => 0 < r.1) (norm t).
Proof.
  intros Ht. pose proof (norm_ok t Ht) as H. apply traverse_Forall2 in H.
  assert ((norm t).*1 = (src_rows s (t_name t)).*1) as E.
  { clear -H. induction H as [|x y l k Hx _ IH]; [done|]. cbn. f_equal; [|done]. apply rmap_Ok in Hx as (r & _ & ->). done. }
  split_and!; [done|done|unfold sorted; rewrite E; apply by_rowid|].
  destruct digested_tables as (_ & _ & _ & Hp). pose proof (proj1 (Forall_forall _ _) Hp t Ht) as Hpt. unfold preflight_table in Hpt.
  destruct (existsb _ _) eqn:Ex; [done|].
  apply keys_pos. rewrite E. apply keys_pos, Forall_forall. intros x Hx. cbn.
  destruct (Z.leb_spec x.1 0); [|done]. exfalso. apply not_true_iff_false in Ex. apply Ex. apply existsb_exists.
  exists x. split; [by apply list_elem_of_In|lia].
Qed.

Lemma limited_Forall2 {A B} (P : A -> B -> Prop) cs l k : Forall2 P l k -> Forall2 P (limited cs l) (limited cs k).
Proof. intros H. unfold limited. destruct (cs <? 0); [done|]. by apply Forall2_take. Qed.

Lemma after_keys (l k : list (Z * SqlRow)) n : l.*1 = k.*1 -> after l n = after k n.
Proof. intros E. unfold after. by rewrite !fmap_take, E. Qed.

Lemma read_next t n cs : t ∈ CATALOG -> (n <= length (norm t))%nat ->
  read_chunk t (after (norm t) n) cs = Ok (limited cs (drop n (norm t))).
Proof.
  intros Ht Hn. destruct (norm_rows t Ht) as (F & E & Hs & Hp). unfold read_sqlite_chunk, normalize_chunk. apply traverse_Forall2.
  apply limited_Forall2. rewrite (after_keys _ (src_rows s (t_name t))) by done.
  assert (Forall (fun r => 0 < r.1) (src_rows s (t_name t))) as Hp'.
  { apply keys_pos. rewrite <- E. by apply keys_pos. }
  rewrite filter_after; [by apply Forall2_drop|apply by_rowid|done|]. apply Forall2_length in F. lia.
Qed.

Lemma read_range t m n x : t ∈ CATALOG -> norm t !! m = Some x -> (m < n <= length (norm t))%nat ->
  read_sqlite_rowid_range parse_iso decimal s t x.1 (after (norm t) n) = Ok (drop m (take n (norm t))).
Proof.
  intros Ht Hm Hn. destruct (norm_rows t Ht) as (F & E & Hs & Hp). unfold read_sqlite_rowid_range, normalize_chunk. apply traverse_Forall2.
  assert (Forall (fun r => 0 < r.1) (src_rows s (t_name t))) as Hp'.
  { apply keys_pos. rewrite <- E. by apply keys_pos. }
  destruct (Forall2_lookup_r _ _ _ _ _ F Hm) as (x' & Hx' & Hx). apply rmap_Ok in Hx as (r & _ & ->). cbn [fst].
  rewrite (after_keys _ (src_rows s (t_name t))) by done. pose proof (Forall2_length _ _ _ F).
  rewrite (filter_range _ m n x'); [by apply Forall2_drop, Forall2_take|apply by_rowid|done|done|lia].
Qed.

(** What a checkpoint after [n] rows says. *)
Record checkpoint_ok (t : TableCatalog) (n : nat) (c : Checkpoint) : Prop := mkCkOk
  { ck_last : last_rowid c = after (norm t) n;
    ck_done : rows_done c = Z.of_nat n;
    ck_chunk : exists m x, (m < n)%nat /\ norm t !! m = Some x /\ first_rowid c = x.1 /\ chunk_rows c = Z.of_nat (n - m) /\
      chunk_hash c = hash (drop m (take n (norm t))) }.

(** A table of the target holds the first rows of the source, converted, in order, and its
    checkpoint says how many. *)
Definition table_inv (tg : Target) (t : TableCatalog) : Prop := exists n,
  (n <= length (norm t))%nat /\
  traverse (postgres_row decimal t) (take n (norm t)).*2 = Ok (rows_of (t_name t) tg) /\
  match t_checkpoints tg !! (run_id, t_name t) with None => n = 0%nat | Some c => (0 < n)%nat /\ checkpoint_ok t n c end.

Record target_inv (tg : Target) : Prop := mkTargetInv
  { ti_tables : forall t, t ∈ CATALOG -> table_inv tg t;
    ti_known : forall name c, t_checkpoints tg !! (run_id, name) = Some c -> exists t, t ∈ CATALOG /\ t_name t = name;
    ti_runs : match t_runs tg !! run_id with
              | None => forall t, t ∈ CATALOG -> rows_of (t_name t) tg = []
              | Some (fp, _) => fp = fingerprint d
              end }.

Lemma held t n tg rows : traverse (postgres_row decimal t) (take n (norm t)).*2 = Ok rows -> (n <= length (norm t))%nat ->
  rows_of (t_name t) tg = rows -> length (rows_of (t_name t) tg) = n.
Proof. intros H Hn ->. apply traverse_Forall2, Forall2_length in H. rewrite length_fmap, length_take in H. lia. Qed.

(** Where the next chunk begins. *)
Lemma where_it_is t tg n : match t_checkpoints tg !! (run_id, t_name t) with None => n = 0%nat | Some c => (0 < n)%nat /\ checkpoint_ok t n c end ->
  checkpoint_rowid tg run_id (t_name t) = after (norm t) n /\ checkpoint_count tg run_id (t_name t) = Z.of_nat n.
Proof.
  unfold checkpoint_rowid, checkpoint_count. destruct (t_checkpoints tg !! _) as [c|]; [|by intros ->].
  intros [_ [-> -> _]]. done.
Qed.

(** A chunk that is read is the next rows, and its checkpoint is right. *)
Lemma chunk_shape t n cs c0 chunk : limited cs (drop n (norm t)) = c0 :: chunk ->
  c0 :: chunk = drop n (take (n + S (length chunk)) (norm t)) /\ (n + S (length chunk) <= length (norm t))%nat /\ norm t !! n = Some c0.
Proof.
  intros E. assert (exists j, c0 :: chunk = take j (drop n (norm t))) as [j Ej].
  { unfold limited in E. destruct (cs <? 0); [exists (length (drop n (norm t))); by rewrite take_ge|by exists (Z.to_nat cs)]. }
  assert (length (c0 :: chunk) = length (take j (drop n (norm t)))) as El by congruence.
  rewrite length_take, length_drop in El. cbn [length] in El. rewrite Ej. split_and!.
  - rewrite skipn_firstn_comm. replace (n + S (length chunk) - n)%nat with (j `min` (length (norm t) - n))%nat by lia.
    rewrite <- (length_drop (norm t) n). destruct (decide (j <= length (drop n (norm t)))%nat).
    + by rewrite Nat.min_l.
    + rewrite Nat.min_r by lia. by rewrite !take_ge by lia.
  - lia.
  - assert ((c0 :: chunk) !! 0%nat = Some c0) as H by done. rewrite Ej in H.
    rewrite lookup_take_lt in H by lia. by rewrite lookup_drop, Nat.add_0_r in H.
Qed.

Lemma last_of_chunk t n k : (k <> 0)%nat -> (n + k <= length (norm t))%nat ->
  last (drop n (take (n + k) (norm t))).*1 = Some (after (norm t) (n + k)).
Proof.
  intros Hk Hn. unfold after. assert (take (n + k) (norm t) = take n (norm t) ++ drop n (take (n + k) (norm t))) as E.
  { rewrite <- (take_drop n (take (n + k) (norm t))) at 1. rewrite take_take. do 2 f_equal. lia. }
  destruct (take_last_split (norm t) (n + k)) as (l & x & El & Ex); [lia|].
  rewrite !fmap_last. rewrite E, last_app in Ex. rewrite E at 2. rewrite last_app.
  destruct (last (drop n (take (n + k) (norm t)))) as [y|] eqn:Ey; [done|]. exfalso.
  apply last_None in Ey. apply (f_equal length) in Ey. rewrite length_drop, length_take in Ey. cbn in Ey. lia.
Qed.

Lemma put_inv t n cs c0 chunk rows tg : t ∈ CATALOG -> target_inv tg -> t_runs tg !! run_id <> None ->
  (n <= length (norm t))%nat -> traverse (postgres_row decimal t) (take n (norm t)).*2 = Ok (rows_of (t_name t) tg) ->
  match t_checkpoints tg !! (run_id, t_name t) with None => n = 0%nat | Some c => (0 < n)%nat /\ checkpoint_ok t n c end ->
  limited cs (drop n (norm t)) = c0 :: chunk -> traverse (postgres_row decimal t) (c0 :: chunk).*2 = Ok rows ->
  target_inv (put_chunk run_id (t_name t) rows (next_checkpoint float_repr tg run_id t (c0 :: chunk)) tg).
Proof.
  intros Ht [Hi Hk Hr] Hrun Hn Hrows Hck Hch Hconv. destruct (chunk_shape _ _ _ _ _ Hch) as (Ec & Hle & H0).
  destruct (where_it_is _ _ _ Hck) as [_ Hcount]. set (k := S (length chunk)) in *. split.
  - intros t' Ht'. destruct (decide (t_name t' = t_name t)) as [E|E].
    + assert (t' = t) as -> by by apply catalog_names. exists (n + k)%nat. split; [done|]. split.
      * unfold rows_of at 1. cbn [t_rows put_chunk]. rewrite lookup_insert_eq. cbn [default].
        assert (take (n + k) (norm t) = take n (norm t) ++ (c0 :: chunk)) as ->.
        { rewrite Ec. rewrite <- (take_drop n (take (n + k) (norm t))) at 1. rewrite take_take. do 2 f_equal. lia. }
        rewrite fmap_app. by apply traverse_app.
      * cbn [t_checkpoints put_chunk]. rewrite lookup_insert_eq. split; [lia|]. split; cbn [last_rowid rows_done first_rowid chunk_rows chunk_hash next_checkpoint].
        -- pose proof (last_of_chunk t n k ltac:(lia) Hle) as Hl. rewrite <- Ec in Hl. by rewrite Hl.
        -- rewrite Hcount. unfold k. cbn [length]. lia.
        -- exists n, c0. split_and!; [lia|done|done|unfold k; cbn [length]; lia|]. f_equal. exact Ec.
    + destruct (Hi t' Ht') as (n' & Hn' & Hrows' & Hck'). exists n'. split; [done|]. split.
      * rewrite Hrows'. f_equal. unfold rows_of. cbn. by rewrite lookup_insert_ne.
      * cbn. rewrite lookup_insert_ne by congruence. done.
  - intros name c. cbn. destruct (decide (name = t_name t)) as [->|E]; [by exists t|]. rewrite lookup_insert_ne by congruence. apply Hk.
  - cbn. destruct (t_runs tg !! run_id) as [[fp st]|]; [done|by destruct Hrun].
Qed.

(** Nothing changes outside the table. *)
Definition only (name : pystr) (tg tg' : Target) : Prop :=
  t_runs tg' = t_runs tg /\ has_schema tg' = has_schema tg /\ forall nm, nm <> name -> rows_of nm tg' = rows_of nm tg.

Lemma rows_put name rows c tg : rows_of name (put_chunk run_id name rows c tg) = rows_of name tg ++ rows.
Proof. unfold put_chunk, rows_of at 1. cbn. by rewrite lookup_insert_eq. Qed.

Lemma only_refl name tg : only name tg tg.
Proof. done. Qed.
Lemma only_put name rows c tg : only name tg (put_chunk run_id name rows c tg).
Proof. split_and!; [done|done|]. intros nm Hn. unfold rows_of. cbn. by rewrite lookup_insert_ne. Qed.
Lemma only_trans name a b c : only name a b -> only name b c -> only name a c.
Proof. intros (H1 & H2 & H3) (H4 & H5 & H6). split_and!; [congruence|congruence|]. intros nm Hn. by rewrite H6, H3. Qed.

(** How the copy of a table may end. *)
Definition loop_end (cs : Z) (t : TableCatalog) (k' : nat) (tg' : Target) (o : Out unit) : Prop :=
  match o with
  | Val _ => cs <> 0 -> length (rows_of (t_name t) tg') = length (norm t)
  | Raise e => exists r, r ∈ norm t /\ postgres_row decimal t r.2 = Err e
  | Killed => k' = 0%nat /\ (length (rows_of (t_name t) tg') < length (norm t))%nat
  end.

Lemma traverse_err {A B} (f : A -> result MigError B) l e : traverse f l = Err e -> exists x, x ∈ l /\ f x = Err e.
Proof.
  induction l as [|x l IH]; [done|]. cbn. destruct (f x) as [y|e'] eqn:E; cbn.
  - destruct (traverse f l); [done|]. intros [= <-]. destruct (IH eq_refl) as (z & Hz & Ez). exists z. split; [by right|done].
  - intros [= <-]. exists x. split; [by left|done].
Qed.

Lemma loop_spec t cs : t ∈ CATALOG -> forall k tg, target_inv tg -> t_runs tg !! run_id <> None ->
  let '(o, (k', tg')) := loop t cs k tg in
  target_inv tg' /\ only (t_name t) tg tg' /\
  (k' <= k)%nat /\ (k + length (rows_of (t_name t) tg) <= k' + length (rows_of (t_name t) tg'))%nat /\ loop_end cs t k' tg' o.
Proof.
  intros Ht. induction k as [|k IH]; intros tg I Hrun; destruct (ti_tables _ I t Ht) as (n & Hn & Hrows & Hck);
    destruct (where_it_is _ _ _ Hck) as [Ea Ecount]; cbn [migrate_loop]; rewrite Ea, (read_next t n cs Ht Hn);
    pose proof (held t n tg _ Hrows Hn eq_refl) as Hlen;
    destruct (limited cs (drop n (norm t))) as [|c0 chunk] eqn:Ech.
  1, 3: (split; [exact I|split; [apply only_refl|split; [lia|split; [lia|]]]]; intros Hcs; rewrite Hlen;
    unfold limited in Ech; apply (f_equal length) in Ech; destruct (Z.ltb_spec cs 0); rewrite ?length_take, length_drop in Ech; cbn in Ech; lia).
  - destruct (chunk_shape _ _ _ _ _ Ech) as (Ec & Hle & H0). destruct (traverse (postgres_row decimal t) (c0 :: chunk).*2) as [rows|e] eqn:Ev.
    + lazy beta iota zeta. (split; [exact I|split; [apply only_refl|split; [lia|split; [lia|]]]]). cbn [loop_end]. split; [done|]. lia.
    + lazy beta iota zeta. (split; [exact I|split; [apply only_refl|split; [lia|split; [lia|]]]]). apply traverse_err in Ev as (x & Hx & Ex).
      apply list_elem_of_fmap in Hx as (r & -> & Hr). exists r. split; [|done]. rewrite Ec in Hr. by eapply subseteq_take, subseteq_drop.
  - destruct (chunk_shape _ _ _ _ _ Ech) as (Ec & Hle & H0). destruct (traverse (postgres_row decimal t) (c0 :: chunk).*2) as [rows|e] eqn:Ev.
    + pose proof (put_inv t n cs c0 chunk rows tg Ht I Hrun Hn Hrows Hck Ech Ev) as I'.
      assert ((digest_count d (t_name t) <? rows_done (next_checkpoint float_repr tg run_id t (c0 :: chunk))) = false) as ->.
      { rewrite counted by done. unfold next_checkpoint. cbn [rows_done]. rewrite Ecount. cbn [length]. apply Z.ltb_ge. rewrite <- Nat2Z.inj_add. by apply inj_le. }
      set (tg1 := put_chunk _ _ _ _ _) in *. specialize (IH tg1 I' Hrun).
      destruct (loop t cs k tg1) as [o [k' tg']]. destruct IH as (I2 & O & Hk & Hl & E). split; [done|]. split; [|split; [lia|split; [|done]]].
      * eapply only_trans; [apply only_put|exact O].
      * assert (length (rows_of (t_name t) tg1) = length (rows_of (t_name t) tg) + S (length chunk))%nat; [|lia].
        unfold tg1. rewrite rows_put, length_app. f_equal.
        apply traverse_Forall2, Forall2_length in Ev. rewrite length_fmap in Ev. cbn in Ev. lia.
    + lazy beta iota zeta. (split; [exact I|split; [apply only_refl|split; [lia|split; [lia|]]]]). apply traverse_err in Ev as (x & Hx & Ex).
      apply list_elem_of_fmap in Hx as (r & -> & Hr). exists r. split; [|done]. rewrite Ec in Hr. by eapply subseteq_take, subseteq_drop.
Qed.

(** ** The checks before the copy *)

Lemma traverse_all {A} (f : A -> result MigError unit) l : (forall x, x ∈ l -> f x = Ok tt) -> exists us, traverse f l = Ok us.
Proof.
  induction l as [|x l IH]; intros H; [by exists []|]. destruct IH as [us E]; [intros y Hy; apply H; by right|].
  exists (tt :: us). cbn. by rewrite (H x), E by left.
Qed.

Abbreviation validate := (validate_checkpoints parse_iso decimal float_repr s run_id).

Lemma validates tg : target_inv tg -> has_schema tg = true -> validate tg = Ok tt.
Proof.
  intros I Hs. unfold validate_checkpoints. rewrite Hs.
  destruct (traverse_all (validate_checkpoint parse_iso decimal float_repr s tg) (checkpoints_of run_id tg)) as [us ->]; [|done].
  intros [name c] Hc. unfold checkpoints_of in Hc. apply list_elem_of_omap in Hc as ([[r nm] c'] & Hin & Hc). cbn in Hc.
  case_bool_decide as Hr; [|done]. injection Hc as -> ->. subst r. apply elem_of_map_to_list in Hin.
  destruct (ti_known _ I _ _ Hin) as (t & Ht & <-). destruct (ti_tables _ I t Ht) as (n & Hn & Hrows & Hck).
  rewrite Hin in Hck. destruct Hck as (Hpos & [Hlast Hdone (m & x & Hm & Hx & Hfirst & Hcr & Hh)]).
  unfold validate_checkpoint, checkpoint_hash_from_source, find_table. rewrite (find_catalog t Ht). cbn [rbind].
  rewrite Hlast, Hfirst, (read_range t m n x Ht Hx) by lia. cbn [rbind].
  assert (zlen (drop m (take n (norm t))) = chunk_rows c) as ->.
  { rewrite Hcr, length_drop, length_take. lia. }
  rewrite Z.eqb_refl. cbn [rbind]. rewrite Hh, bool_decide_true by done.
  rewrite (held t n tg _ Hrows Hn eq_refl), Hdone, Z.eqb_refl. done.
Qed.

Lemma asserts tg : target_inv tg -> assert_empty_or_matching tg run_id (fingerprint d) = Ok tt.
Proof.
  intros I. unfold assert_empty_or_matching. destruct (has_schema tg); [|done]. cbn [negb]. pose proof (ti_runs _ I) as Hr.
  destruct (t_runs tg !! run_id) as [[fp st]|]; [by rewrite bool_decide_true|].
  destruct (existsb _ CATALOG) eqn:E; [|done]. apply existsb_exists in E as (t & Ht & Hl). apply list_elem_of_In in Ht.
  rewrite (Hr t Ht) in Hl. done.
Qed.

Lemma init_inv tg : target_inv tg -> target_inv (init_target_schema tg).
Proof. intros [H1 H2 H3]. by split. Qed.

Lemma ensure_inv tg : target_inv tg -> target_inv (ensure_run run_id (fingerprint d) tg) /\ t_runs (ensure_run run_id (fingerprint d) tg) !! run_id <> None.
Proof.
  intros [H1 H2 H3]. unfold ensure_run. destruct (t_runs tg !! run_id) as [[fp st]|] eqn:E; cbn.
  - split; [|by rewrite E]. split; [done|done|]. cbn. by rewrite E.
  - split; [|by rewrite lookup_insert_eq]. split; [done|done|]. cbn. by rewrite lookup_insert_eq.
Qed.

Lemma complete_inv tg : target_inv tg -> target_inv (complete_run run_id tg).
Proof.
  intros [H1 H2 H3]. split; [done|done|]. cbn. rewrite lookup_alter_eq. by destruct (t_runs tg !! run_id) as [[fp st]|].
Qed.

(** ** All the tables *)

Fixpoint held_rows (ts : list TableCatalog) (tg : Target) : nat :=
  match ts with [] => 0%nat | t :: ts => (length (rows_of (t_name t) tg) + held_rows ts tg)%nat end.
Fixpoint source_rows (ts : list TableCatalog) : nat :=
  match ts with [] => 0%nat | t :: ts => (length (norm t) + source_rows ts)%nat end.

Lemma held_ext ts tg tg' : (forall t, t ∈ ts -> rows_of (t_name t) tg' = rows_of (t_name t) tg) -> held_rows ts tg' = held_rows ts tg.
Proof.
  induction ts as [|t ts IH]; [done|]. intros H. cbn [held_rows]. rewrite (H t), IH; [done|intros u Hu; apply H; by right|left].
Qed.

Lemma held_le ts tg : (forall t, t ∈ ts -> t ∈ CATALOG) -> target_inv tg -> (held_rows ts tg <= source_rows ts)%nat.
Proof.
  intros Hts I. induction ts as [|t ts IH]; [done|]. cbn. destruct (ti_tables _ I t) as (n & Hn & Hrows & _); [apply Hts; left|].
  pose proof (held t n tg _ Hrows Hn eq_refl). specialize (IH (fun u Hu => Hts u (list_elem_of_further _ _ _ Hu))). lia.
Qed.

Definition tables_end (cs : Z) (ts : list TableCatalog) (k' : nat) (tg' : Target) (o : Out unit) : Prop :=
  match o with
  | Val _ => cs <> 0 -> forall t, t ∈ ts -> length (rows_of (t_name t) tg') = length (norm t)
  | Raise e => exists t r, t ∈ ts /\ r ∈ norm t /\ postgres_row decimal t r.2 = Err e
  | Killed => k' = 0%nat /\ (held_rows ts tg' < source_rows ts)%nat
  end.

Lemma tables_spec cs ts : (forall t, t ∈ ts -> t ∈ CATALOG) -> NoDup (t_name <$> ts) ->
  forall k tg, target_inv tg -> t_runs tg !! run_id <> None ->
  let '(o, (k', tg')) := migrate_tables parse_iso decimal float_repr s run_id d cs ts (k, tg) in
  target_inv tg' /\ t_runs tg' = t_runs tg /\ has_schema tg' = has_schema tg /\
  (forall nm, nm ∉ t_name <$> ts -> rows_of nm tg' = rows_of nm tg) /\
  (k' <= k)%nat /\ (k + held_rows ts tg <= k' + held_rows ts tg')%nat /\ tables_end cs ts k' tg' o.
Proof.
  induction ts as [|t ts IH]; intros Hts Hnd k tg I Hrun.
  { cbn [migrate_tables]. split; [exact I|]. repeat (split; [done|]). by intros _ t Ht%elem_of_nil. }
  cbn [fmap list_fmap] in Hnd. apply NoDup_cons in Hnd as [Hn Hnd].
  cbn [migrate_tables]. unfold mbind, migrate_table. cbn [fst snd].
  pose proof (loop_spec t cs (Hts t ltac:(left)) k tg I Hrun) as L. destruct (loop t cs k tg) as [o [k1 tg1]].
  destruct L as (I1 & (Er & Es & Eo) & Hk & Hl & E).
  assert (forall u, u ∈ ts -> rows_of (t_name u) tg1 = rows_of (t_name u) tg) as Eu.
  { intros u Hu. apply Eo. intros En. apply Hn. rewrite <- En. by apply list_elem_of_fmap_2. }
  assert (held_rows ts tg1 = held_rows ts tg) as Eh by by apply held_ext.
  assert (forall nm, nm ∉ t_name <$> t :: ts -> rows_of nm tg1 = rows_of nm tg) as Enm.
  { intros nm Hnm. apply Eo. intros ->. apply Hnm. left. }
  destruct o as [[]|e|].
  - specialize (IH (fun u Hu => Hts u (list_elem_of_further _ _ _ Hu)) Hnd k1 tg1 I1 ltac:(by rewrite Er)).
    destruct (migrate_tables _ _ _ _ _ _ _ ts (k1, tg1)) as [o [k2 tg2]]. destruct IH as (I2 & Er2 & Es2 & Eo2 & Hk2 & Hl2 & E2).
    assert (rows_of (t_name t) tg2 = rows_of (t_name t) tg1) as Et by (apply Eo2; done).
    split; [done|]. split; [congruence|]. split; [congruence|]. split.
    { intros nm Hnm. rewrite Eo2; [by apply Enm|]. intros Hin. apply Hnm. by right. }
    cbn [held_rows]. split; [lia|]. split; [rewrite Et; lia|].
    destruct o as [[]|e|]; cbn [tables_end loop_end] in *.
    + intros Hcs u [->|Hu]%elem_of_cons; [rewrite Et; by apply E|by apply E2].
    + destruct E2 as (u & r & Hu & Hr & Ee). exists u, r. split; [by right|done].
    + destruct E2 as [-> Hlt]. split; [done|]. cbn [held_rows source_rows].
      destruct (ti_tables _ I2 t ltac:(apply Hts; left)) as (n & Hn' & Hrows & _). pose proof (held t n tg2 _ Hrows Hn' eq_refl). lia.
  - split; [done|]. split; [done|]. split; [done|]. split; [done|]. split; [done|]. cbn [held_rows].
    split; [lia|]. destruct E as (r & Hr & Ee). exists t, r. split; [left|done].
  - split; [done|]. split; [done|]. split; [done|]. split; [done|]. split; [done|]. cbn [held_rows].
    split; [lia|]. destruct E as [-> Hlt]. split; [done|]. cbn [held_rows source_rows].
    pose proof (held_le ts tg1 (fun u Hu => Hts u (list_elem_of_further _ _ _ Hu)) I1). lia.
Qed.

(** ** The run *)

Section attempts.
Variable postgres_order : TableCatalog -> list pystr -> list PgRow -> list PgRow.
Abbreviation run := (run_migration parse_iso decimal float_repr sqlite_order postgres_order s).

(** One attempt: the transactions it lives for, the source as its last digest finds it,
    its options. *)
Record Attempt := mkAttempt { a_commits : nat; a_end : Source; a_chunk_size : Z; a_init : bool; a_free : bool }.
Definition attempt (a : Attempt) (tg : Target) : Out MigrationReceipt * Target :=
  let '(o, st) := run (a_end a) run_id (a_chunk_size a) (a_init a) (a_free a) (a_commits a, tg) in (o, st.2).
Definition attempts (l : list Attempt) (tg : Target) : Target := foldl (fun tg a => (attempt a tg).2) tg l.

(** A computation keeps the invariant, and its value satisfies [Q]. *)
Definition keeps {A} (P : Target -> Prop) (m : M A) (Q : A -> Target -> Prop) : Prop :=
  forall k tg, P tg -> match m (k, tg) with (Val a, (_, tg')) => Q a tg' | (_, (_, tg')) => target_inv tg' end.

Lemma keeps_bind {A B} P (m : M A) Q (f : A -> M B) R : keeps P m Q -> (forall a, keeps (Q a) (f a) R) -> keeps P (mbind m f) R.
Proof.
  intros Hm Hf k tg HP. specialize (Hm k tg HP). unfold mbind. destruct (m (k, tg)) as [[a|e|] [k' tg']]; [|done|done].
  by apply Hf.
Qed.
Lemma keeps_lift {A} P (r : Target -> result MigError A) (Q : A -> Target -> Prop) :
  (forall tg, P tg -> target_inv tg) -> (forall tg a, P tg -> r tg = Ok a -> Q a tg) -> keeps P (lift r) Q.
Proof. intros HI HQ k tg HP. unfold lift. cbn. destruct (r tg) as [a|e] eqn:E; [by apply HQ|by apply HI]. Qed.
Lemma keeps_commit (P : Target -> Prop) f (Q : unit -> Target -> Prop) :
  (forall tg, P tg -> target_inv tg) -> (forall tg, P tg -> Q tt (f tg)) -> keeps P (commit f) Q.
Proof. intros HI HQ [|k] tg HP; cbn; [by apply HI|by apply HQ]. Qed.

Lemma keeps_pure {A} (phi : Prop) P (m : M A) Q : (phi -> keeps P m Q) -> keeps (fun tg => phi /\ P tg) m Q.
Proof. intros H k tg [Hp HP]. by apply H. Qed.

Definition started (tg : Target) : Prop := target_inv tg /\ t_runs tg !! run_id <> None.

Lemma tables_keep cs : keeps started (migrate_tables parse_iso decimal float_repr s run_id d cs CATALOG) (fun _ => target_inv).
Proof.
  intros k tg [I Hr].
  pose proof (tables_spec cs CATALOG (fun t Ht => Ht) ltac:(apply (bool_decide_unpack _); by vm_compute) k tg I Hr) as H.
  destruct (migrate_tables _ _ _ _ _ _ _ CATALOG (k, tg)) as [[?|?|] [? ?]]; apply H.
Qed.

Lemma run_keeps s_end cs init free : keeps target_inv (run s_end run_id cs init free) (fun _ => target_inv).
Proof.
  unfold run_migration. eapply keeps_bind.
  { apply (keeps_lift _ _ (fun a tg => a = d /\ target_inv tg)); [done|]. intros tg a I E. split; [|done]. congruence. }
  intros d'. apply keeps_pure. intros Ed. rewrite Ed. clear Ed d'.
  assert (forall B (r : Target -> result MigError B), keeps target_inv (lift r) (fun _ => target_inv)) as L by (intros; by apply keeps_lift).
  eapply (keeps_bind _ _ (fun _ => target_inv)).
  { destruct init; [|apply L]. apply keeps_commit; [done|apply init_inv]. }
  intros ?. eapply (keeps_bind _ _ (fun _ => target_inv)); [apply L|]. intros ?.
  eapply (keeps_bind _ _ (fun _ => target_inv)); [apply L|]. intros ?.
  eapply (keeps_bind _ _ (fun _ => target_inv)); [apply L|]. intros ?.
  eapply (keeps_bind _ _ (fun _ => target_inv)); [apply L|]. intros ?.
  eapply (keeps_bind _ _ (fun _ => started)); [apply keeps_commit; [done|intros tg I; by apply ensure_inv]|]. intros ?.
  eapply (keeps_bind _ _ (fun _ => target_inv)); [apply tables_keep|]. intros ?.
  eapply (keeps_bind _ _ (fun _ => target_inv)); [apply L|]. intros ?.
  eapply (keeps_bind _ _ (fun _ => target_inv)); [apply L|]. intros ?.
  eapply (keeps_bind _ _ (fun _ => target_inv)); [apply L|]. intros ?.
  eapply (keeps_bind _ _ (fun _ => target_inv)); [apply L|]. intros ?.
  eapply (keeps_bind _ _ (fun _ => target_inv)); [apply keeps_commit; [done|apply complete_inv]|]. intros ?. apply L.
Qed.

Lemma attempts_inv l tg : target_inv tg -> target_inv (attempts l tg).
Proof.
  unfold attempts. revert tg. induction l as [|a l IH]; intros tg I; [done|]. cbn. apply IH. unfold attempt.
  pose proof (run_keeps (a_end a) (a_chunk_size a) (a_init a) (a_free a) (a_commits a) tg I) as H.
  by destruct (run _ _ _ _ _ _) as [[?|?|] [? ?]].
Qed.

(** A target that nothing was copied to. *)
Definition fresh (tg : Target) : Prop :=
  t_runs tg !! run_id = None /\ (forall name, t_checkpoints tg !! (run_id, name) = None) /\
  (forall t, t ∈ CATALOG -> rows_of (t_name t) tg = []).

Lemma fresh_inv tg : fresh tg -> target_inv tg.
Proof.
  intros (Hr & Hc & He). split; [|intros name c E; by rewrite Hc in E|by rewrite Hr].
  intros t Ht. exists 0%nat. split; [lia|]. split; [by rewrite He|by rewrite Hc].
Qed.

Lemma mbind_lift {A B} (r : Target -> result MigError A) (f : A -> M B) a k tg : r tg = Ok a -> mbind (lift r) f (k, tg) = f a (k, tg).
Proof. intros E. unfold mbind, lift. cbn. by rewrite E. Qed.
Lemma mbind_commit {B} g (f : unit -> M B) k tg : mbind (commit g) f (S k, tg) = f tt (k, g tg).
Proof. done. Qed.

(** All rows of the source, converted. *)
Definition all_copied (tg : Target) : Prop := forall t, t ∈ CATALOG ->
  exists rows, normalize t (src_rows s (t_name t)) = Ok rows /\ traverse (postgres_row decimal t) rows.*2 = Ok (rows_of (t_name t) tg).

Lemma full_copied tg : target_inv tg -> (forall t, t ∈ CATALOG -> length (rows_of (t_name t) tg) = length (norm t)) -> all_copied tg.
Proof.
  intros I H t Ht. exists (norm t). split; [by apply norm_ok|]. destruct (ti_tables _ I t Ht) as (n & Hn & Hrows & _).
  pose proof (held t n tg _ Hrows Hn eq_refl) as Hl. rewrite H in Hl by done. subst n. by rewrite firstn_all in Hrows.
Qed.

(** The copy of every table with enough transactions left. *)
Lemma tables_complete cs k tg : cs <> 0 -> started tg -> (source_rows CATALOG <= k)%nat ->
  (forall t r, t ∈ CATALOG -> r ∈ norm t -> exists pr, postgres_row decimal t r.2 = Ok pr) ->
  exists k' tg', migrate_tables parse_iso decimal float_repr s run_id d cs CATALOG (k, tg) = (Val tt, (k', tg')) /\
    (k <= k' + source_rows CATALOG)%nat /\ target_inv tg' /\ t_runs tg' = t_runs tg /\ has_schema tg' = has_schema tg /\ all_copied tg'.
Proof.
  intros Hcs [I Hr] Hk Hconv.
  pose proof (tables_spec cs CATALOG (fun t Ht => Ht) ltac:(apply (bool_decide_unpack _); by vm_compute) k tg I Hr) as H.
  destruct (migrate_tables _ _ _ _ _ _ _ CATALOG (k, tg)) as [o [k' tg']]. destruct H as (I' & Er & Es & _ & Hk' & Hl & E).
  pose proof (held_le CATALOG tg' (fun t Ht => Ht) I') as Hle. destruct o as [[]|e|]; cbn [tables_end] in E.
  - exists k', tg'. split; [done|]. split; [lia|]. repeat (split; [done|]). apply full_copied; [done|]. by apply E.
  - destruct E as (t & r & Ht & Hin & Ee). destruct (Hconv t r Ht Hin) as [pr Hpr]. congruence.
  - exfalso. destruct E as [-> Hlt]. lia.
Qed.

Lemma complete_state tg k fp : t_runs tg !! run_id = Some (fp, k) -> t_runs (complete_run run_id tg) !! run_id = Some (fp, COMPLETED).
Proof. intros E. cbn. by rewrite lookup_alter_eq, E. Qed.

Lemma run_completes s_end d_end cs init k tg : target_inv tg -> init = true \/ has_schema tg = true -> cs <> 0 ->
  (source_rows CATALOG + 3 <= k)%nat ->
  (forall t r, t ∈ CATALOG -> r ∈ norm t -> exists pr, postgres_row decimal t r.2 = Ok pr) ->
  canonical_sqlite_digest parse_iso decimal float_repr sqlite_order s_end = Ok d_end -> fingerprint d_end = fingerprint d ->
  (forall tg', all_copied tg' -> has_schema tg' = true ->
     exists dt, canonical_postgres_digest decimal float_repr postgres_order tg' = Ok dt /\ fingerprint dt = fingerprint d) ->
  exists dt k' tg', run s_end run_id cs init true (k, tg) = (Val (mkReceipt run_id (fingerprint d) true d dt), (k', tg')) /\
    fingerprint dt = fingerprint d /\ all_copied tg' /\ t_runs tg' !! run_id = Some (fingerprint d, COMPLETED).
Proof.
  intros I Hs Hcs Hk Hconv Hend Efp Hdig. unfold run_migration. rewrite (mbind_lift _ _ d) by done.
  assert (exists k1 tg1, (if init then commit init_target_schema else lift (fun _ => Ok tt)) (k, tg) = (Val tt, (k1, tg1)) /\
    (source_rows CATALOG + 2 <= k1)%nat /\ target_inv tg1 /\ has_schema tg1 = true) as (k1 & tg1 & E1 & Hk1 & I1 & Hs1).
  { destruct init; [|exists k, tg; destruct Hs; [done|]; by split_and!; [..|lia|done|]].
    destruct k as [|k]; [lia|]. exists k, (init_target_schema tg). split; [done|]. split; [lia|]. split; [by apply init_inv|done]. }
  assert (open_sqlite_source s = Ok tt) as Ho.
  { pose proof digested as H. apply rbind_Ok in H as ([] & H & _). done. }
  unfold mbind at 1. rewrite E1. rewrite (mbind_lift _ _ tt) by done. rewrite (mbind_lift _ _ tt) by done.
  rewrite (mbind_lift _ _ tt) by by apply asserts. rewrite (mbind_lift _ _ tt) by by apply validates.
  destruct k1 as [|k1]; [lia|]. rewrite mbind_commit. destruct (ensure_inv _ I1) as [I2 Hr2]. set (tg2 := ensure_run _ _ _) in *.
  destruct (tables_complete cs k1 tg2 Hcs (conj I2 Hr2) ltac:(lia) Hconv) as (k3 & tg3 & E3 & Hk3 & I3 & Er3 & Es3 & Hall).
  unfold mbind at 1. rewrite E3. rewrite (mbind_lift _ _ d_end) by done.
  rewrite (mbind_lift _ _ tt) by by rewrite bool_decide_true.
  destruct (Hdig tg3 Hall) as (dt & Ed & Ef); [by rewrite Es3|]. rewrite (mbind_lift _ _ dt) by done.
  rewrite (mbind_lift _ _ tt) by by rewrite bool_decide_true.
  destruct k3 as [|k3]; [lia|]. rewrite mbind_commit. exists dt, k3, (complete_run run_id tg3). split; [done|]. split; [done|]. split; [done|].
  pose proof (ti_runs _ I3) as Hr3. rewrite Er3 in Hr3. destruct (t_runs tg2 !! run_id) as [[fp st]|] eqn:E; [|done]. subst fp.
  apply (complete_state _ st). by rewrite Er3.
Qed.
End attempts.
End runs.

(** ** Properties *)

(** C20: A migration may be killed at any moment and started again.  Whatever attempts were
    made at a fresh target, each cut off after any number of its transactions, with any
    chunk size and options, every table of the target holds the first rows of the source in
    the order of their rowids, each exactly once and converted; and the next attempt's
    checks accept what it finds: neither the target nor a checkpoint is taken for somebody
    else's. *)
Theorem copied_exactly_once parse_iso decimal float_repr sqlite_order postgres_order s run_id d tg0 l :
  (forall t cols rows, sqlite_order t cols rows ≡ₚ rows) -> (forall name, sorted (src_rows s name)) ->
  canonical_sqlite_digest parse_iso decimal float_repr sqlite_order s = Ok d -> fresh run_id tg0 ->
  let tg := attempts parse_iso decimal float_repr sqlite_order s run_id postgres_order l tg0 in
  (forall t, t ∈ CATALOG -> exists rows n, normalize_chunk parse_iso decimal t (src_rows s (t_name t)) = Ok rows /\
     traverse (postgres_row decimal t) (take n rows).*2 = Ok (rows_of (t_name t) tg)) /\
  assert_empty_or_matching tg run_id (fingerprint d) = Ok tt /\
  (has_schema tg = true -> validate_checkpoints parse_iso decimal float_repr s run_id tg = Ok tt).
Proof.
  intros Ho Hb Hd Hf tg.
  pose proof (attempts_inv _ _ _ _ s run_id d Ho Hb Hd postgres_order l tg0 (fresh_inv _ _ _ _ s run_id d Ho Hb Hd postgres_order tg0 Hf)) as I.
  fold tg in I. split_and!.
  - intros t Ht. destruct (ti_tables _ _ _ _ _ _ _ I t Ht) as (n & Hn & Hrows & _).
    exists (norm parse_iso decimal s t), n. split; [|done]. by eapply norm_ok.
  - by eapply asserts.
  - intros Hs. by eapply validates.
Qed.

(** C21: A migration that is not cut off ends.  After any attempts, an attempt that has a
    schema, the lock, a chunk size other than zero and as many transactions as the source
    has rows and three more copies every row of every table; and when the digests of both
    sides agree at the end it returns a receipt and the run is marked completed. *)
Theorem migration_completes parse_iso decimal float_repr sqlite_order postgres_order s s_end run_id d d_end tg0 l cs init k :
  (forall t cols rows, sqlite_order t cols rows ≡ₚ rows) -> (forall name, sorted (src_rows s name)) ->
  canonical_sqlite_digest parse_iso decimal float_repr sqlite_order s = Ok d -> fresh run_id tg0 ->
  let tg := attempts parse_iso decimal float_repr sqlite_order s run_id postgres_order l tg0 in
  let copied := all_copied parse_iso decimal s in
  init = true \/ has_schema tg = true -> cs <> 0 ->
  (source_rows parse_iso decimal s CATALOG + 3 <= k)%nat ->
  (forall t r, t ∈ CATALOG -> r ∈ norm parse_iso decimal s t -> exists pr, postgres_row decimal t r.2 = Ok pr) ->
  canonical_sqlite_digest parse_iso decimal float_repr sqlite_order s_end = Ok d_end -> fingerprint d_end = fingerprint d ->
  (forall tg', copied tg' -> has_schema tg' = true ->
     exists dt, canonical_postgres_digest decimal float_repr postgres_order tg' = Ok dt /\ fingerprint dt = fingerprint d) ->
  exists dt k' tg',
    run_migration parse_iso decimal float_repr sqlite_order postgres_order s s_end run_id cs init true (k, tg) =
      (Val (mkReceipt run_id (fingerprint d) true d dt), (k', tg')) /\
    fingerprint dt = fingerprint d /\ copied tg' /\ t_runs tg' !! run_id = Some (fingerprint d, COMPLETED).
Proof.
  intros Ho Hb Hd Hf tg copied. apply run_completes; [done..|]. apply attempts_inv; [done..|]. by eapply fresh_inv.
Qed.

(** ** Witnesses and examples *)

(** Rows that are all convertible, checked by computation. *)
Lemma convertible parse_iso decimal s :
  forallb (fun t => match traverse (postgres_row decimal t) (norm parse_iso decimal s t).*2 with Ok _ => true | Err _ => false end) CATALOG = true ->
  forall t r, t ∈ CATALOG -> r ∈ norm parse_iso decimal s t -> exists pr, postgres_row decimal t r.2 = Ok pr.
Proof.
  intros H t r Ht Hr. apply list_elem_of_In in Ht. apply (proj1 (forallb_forall _ _) H) in Ht.
  destruct (traverse _ _) as [rows|] eqn:E; [|done]. apply traverse_Forall2 in E.
  apply list_elem_of_lookup in Hr as [i Hi].
  destruct (Forall2_lookup_l _ _ _ i r.2 E) as (pr & _ & Hp); [by rewrite list_lookup_fmap, Hi|by exists pr].
Qed.

(** A digest of the target depends on its rows only. *)
Lemma digest_ext decimal float_repr order tg tg' : has_schema tg = has_schema tg' ->
  (forall t, t ∈ CATALOG -> rows_of (t_name t) tg = rows_of (t_name t) tg') ->
  canonical_postgres_digest decimal float_repr order tg = canonical_postgres_digest decimal float_repr order tg'.
Proof.
  intros Hs H. unfold canonical_postgres_digest. rewrite Hs. destruct (has_schema tg'); [|done]. f_equal. clear Hs. revert H.
  induction CATALOG as [|t l IH]; [done|]. intros H. cbn. rewrite IH by (intros u Hu; apply H; by right).
  unfold postgres_table_digest. by rewrite H by left.
Qed.

Lemma copied_same parse_iso decimal s tg tg' : all_copied parse_iso decimal s tg -> all_copied parse_iso decimal s tg' ->
  forall t, t ∈ CATALOG -> rows_of (t_name t) tg = rows_of (t_name t) tg'.
Proof. intros H H' t Ht. destruct (H t Ht) as (r & E1 & E2), (H' t Ht) as (r' & E1' & E2'). congruence. Qed.

Lemma fresh_empty run_id b : fresh run_id (empty_target b).
Proof. split_and!; [done|done|]. intros t _. done. Qed.

Definition demo_time : Z := 1700000000123456.
Definition demo_trade (i : Z) (seq : SqlValue) : SqlRow :=
  [VInt (demo_time + i); VText (lit "UPBIT"); VText (lit "KRW-BTC"); VFloat (of_int 1); VFloat (of_int 1); VInt 1;
   VInt (demo_time + i + 10); VInt 10; seq].
Definition demo_rows (name : pystr) : list (Z * SqlRow) :=
  if bool_decide (name = lit "trades") then [(1, demo_trade 0 (VInt 7)); (2, demo_trade 1 (VInt 8)); (5, demo_trade 2 (VInt 9))]
  else if bool_decide (name = lit "latest") then
    [(1, [VText (lit "UPBIT"); VText (lit "KRW-BTC"); VInt (demo_time + 2); VFloat (of_int 1); VFloat (of_int 1); VInt 1; VNull])]
  else [].
Definition demo_columns (name : pystr) : list pystr := match catalog_table name with Some t => sqlite_columns t | None => [] end.
Definition demo_source (rows : pystr -> list (Z * SqlRow)) : Source := mkSource true false true demo_columns rows.
Definition demo_iso (s : pystr) : option (option Z) := None.
Definition demo_decimal (c : Z) : option Z := None.
(** The floats of the examples are all one. *)
Definition demo_repr (f : float) : pystr := lit "1.0".
Definition in_order {A} (t : TableCatalog) (cols : list pystr) (rows : list A) : list A := rows.
Definition default_digest : StorageDigest := mkStorageDigest [] [].
Definition ok_or {A} (a : A) (r : result MigError A) : A := match r with Ok x => x | Err _ => a end.
Definition demo_digest : StorageDigest := ok_or default_digest (canonical_sqlite_digest demo_iso demo_decimal demo_repr in_order (demo_source demo_rows)).

Lemma demo_sorted name : sorted (src_rows (demo_source demo_rows) name).
Proof.
  cbn. unfold demo_rows. case_bool_decide; [|case_bool_decide]; unfold sorted; cbn; repeat constructor.
Qed.
Lemma demo_digested : canonical_sqlite_digest demo_iso demo_decimal demo_repr in_order (demo_source demo_rows) = Ok demo_digest.
Proof. vm_compute. reflexivity. Qed.

(** Two attempts that were killed, after two transactions and after one. *)
Definition demo_attempts : list Attempt :=
  [mkAttempt 2 (demo_source demo_rows) 2 false true; mkAttempt 1 (demo_source demo_rows) 1 true true].

Lemma copied_exactly_once_witness :
  let tg := attempts demo_iso demo_decimal demo_repr in_order (demo_source demo_rows) (lit "run-1") in_order demo_attempts (empty_target true) in
  length (rows_of (lit "trades") tg) = 2%nat /\
  ((forall t, t ∈ CATALOG -> exists rows n, normalize_chunk demo_iso demo_decimal t (src_rows (demo_source demo_rows) (t_name t)) = Ok rows /\
     traverse (postgres_row demo_decimal t) (take n rows).*2 = Ok (rows_of (t_name t) tg)) /\
   assert_empty_or_matching tg (lit "run-1") (fingerprint demo_digest) = Ok tt /\
   (has_schema tg = true -> validate_checkpoints demo_iso demo_decimal demo_repr (demo_source demo_rows) (lit "run-1") tg = Ok tt)).
Proof.
  split; [by vm_compute|].
  refine (copied_exactly_once demo_iso demo_decimal demo_repr in_order in_order (demo_source demo_rows) (lit "run-1") demo_digest
    (empty_target true) demo_attempts _ demo_sorted demo_digested (fresh_empty _ _)).
  intros t cols rows. done.
Defined.

Definition demo_full : Target :=
  mkTarget true (list_to_map ((fun t => (t_name t, ok_or [] (traverse (postgres_row demo_decimal t) (norm demo_iso demo_decimal (demo_source demo_rows) t).*2))) <$> CATALOG)) ∅ ∅.

Lemma demo_convertible :
  forallb (fun t => match traverse (postgres_row demo_decimal t) (norm demo_iso demo_decimal (demo_source demo_rows) t).*2 with Ok _ => true | Err _ => false end) CATALOG = true.
Proof. by vm_compute. Qed.

Lemma demo_copied : all_copied demo_iso demo_decimal (demo_source demo_rows) demo_full.
Proof.
  intros t Ht. eexists. split.
  { eapply (norm_ok demo_iso demo_decimal demo_repr in_order (demo_source demo_rows) (lit "run-1")); [by intros|exact demo_sorted|exact demo_digested|done]. }
  assert (rows_of (t_name t) demo_full = ok_or [] (traverse (postgres_row demo_decimal t) (norm demo_iso demo_decimal (demo_source demo_rows) t).*2)) as ->.
  { unfold rows_of. cbn [demo_full t_rows]. erewrite elem_of_list_to_map_1; [done| |].
    - rewrite <- list_fmap_compose. apply (bool_decide_unpack _). by vm_compute.
    - by apply (list_elem_of_fmap_2 (fun t => (t_name t, ok_or [] (traverse (postgres_row demo_decimal t) (norm demo_iso demo_decimal (demo_source demo_rows) t).*2)))). }
  pose proof (proj1 (forallb_forall _ _) demo_convertible t (proj1 (list_elem_of_In _ _) Ht)) as H. cbn beta in H.
  by destruct (traverse _ _).
Qed.

Lemma migration_completes_witness : exists dt k' tg',
  run_migration demo_iso demo_decimal demo_repr in_order in_order (demo_source demo_rows) (demo_source demo_rows) (lit "run-1") 2 false true
    (7%nat, attempts demo_iso demo_decimal demo_repr in_order (demo_source demo_rows) (lit "run-1") in_order demo_attempts (empty_target true)) =
    (Val (mkReceipt (lit "run-1") (fingerprint demo_digest) true demo_digest dt), (k', tg')) /\
  fingerprint dt = fingerprint demo_digest /\ all_copied demo_iso demo_decimal (demo_source demo_rows) tg' /\
  t_runs tg' !! lit "run-1" = Some (fingerprint demo_digest, COMPLETED).
Proof.
  refine (migration_completes demo_iso demo_decimal demo_repr in_order in_order (demo_source demo_rows) (demo_source demo_rows) (lit "run-1")
    demo_digest demo_digest (empty_target true) demo_attempts 2 false 7 _ demo_sorted demo_digested (fresh_empty _ _) _ _ _ _ demo_digested eq_refl _).
  - intros t cols rows. done.
  - right. by vm_compute.
  - done.
  - by vm_compute; repeat constructor.
  - apply convertible, demo_convertible.
  - intros tg' Hc Hs.
    rewrite (digest_ext _ _ _ tg' demo_full Hs (copied_same _ _ _ _ _ Hc demo_copied)).
    exists (ok_or default_digest (canonical_postgres_digest demo_decimal demo_repr in_order demo_full)). split; by vm_compute.
Defined.

(** A moment before 1970 with a fraction of a second comes back a second later. *)
Example before_1970 : datetime_to_epoch_us (-500000) = 500000.
Proof. by vm_compute. Qed.

(** SQLite puts a null first, PostgreSQL last: with two rows that differ in the null only
    and a verification order that reaches it, the rows are all copied and the digests
    differ. *)
Definition null_first (t : TableCatalog) (cols : list pystr) (rows : list (Z * SqlRow)) : list (Z * SqlRow) :=
  let isnull (r : Z * SqlRow) := match last r.2 with Some VNull => true | _ => false end in
  List.filter isnull rows ++ List.filter (fun r => negb (isnull r)) rows.
Definition null_last (t : TableCatalog) (cols : list pystr) (rows : list PgRow) : list PgRow :=
  let isnull (r : PgRow) := match last r with Some (PValue VNull) => true | _ => false end in
  List.filter (fun r => negb (isnull r)) rows ++ List.filter isnull rows.
Definition null_rows (name : pystr) : list (Z * SqlRow) :=
  if bool_decide (name = lit "trades") then [(1, demo_trade 0 VNull); (2, demo_trade 0 (VInt 8))] else [].

Example null_order_differs :
  let '(o, (_, tg)) := run_migration demo_iso demo_decimal demo_repr null_first null_last (demo_source null_rows) (demo_source null_rows)
    (lit "run-1") 100 true true (9%nat, empty_target false) in
  o = Raise (Runtime "migration verify failed: source and target digests differ") /\ length (rows_of (lit "trades") tg) = 2%nat.
Proof. by vm_compute. Qed.
End Migration.
