(* ===== verification/Url.v ===== *)
(** * URLs and paths, as the standard library takes them apart

    [urllib.parse.urlparse], [unquote] and [parse_qs], and [posixpath]'s [join], [normpath]
    and [abspath], on the texts an HTTP request target can hold. *)

From S2P Require Import Prelude PyStr Dict Json WsProto.

Module Url.

(** ** Latin-1 letters *)

(** [s.upper()] on a Latin-1 character. *)
Definition upper1 (c : Z) : pystr :=
  if (97 <=? c) && (c <=? 122) then [c - 32]
  else if c =? 0xB5 then [0x39C]
  else if c =? 0xDF then [83; 83]
  else if c =? 0xFF then [0x178]
  else if (0xE0 <=? c) && (c <=? 0xFE) && negb (c =? 0xF7) then [c - 32]
  else [c].
Definition upper (s : pystr) : pystr := concat (upper1 <$> s).
Definition lower (s : pystr) : pystr := Ws.lower1 <$> s.

Definition is_alpha (c : Z) : bool := ((65 <=? c) && (c <=? 90)) || ((97 <=? c) && (c <=? 122)).

(** ** [urlparse] *)

(** Leading control characters and blanks go, and every tab and line break. *)
Definition clean_url (u : pystr) : pystr :=
  List.filter (fun c => negb (bool_decide (c ∈ [9; 13; 10]))) (lstrip_by (fun c => c <=? 32) u).

Definition scheme_char (c : Z) : bool := is_alpha c || is_digit c || bool_decide (c ∈ [43; 45; 46]).

(** The scheme before the first colon, when it looks like one, and the rest. *)
Definition split_scheme (u : pystr) : pystr * pystr :=
  match break_at (Z.eqb 58) u with
  | (c :: a, _ :: rest) => if is_alpha c && forallb scheme_char (c :: a) then (lower (c :: a), rest) else ([], u)
  | _ => ([], u)
  end.

(** The authority after [//], up to the next of [/?#]. *)
Definition split_netloc (u : pystr) : pystr * pystr :=
  match u with
  | 47 :: 47 :: u => break_at (fun c => bool_decide (c ∈ [47; 63; 35])) u
  | _ => ([], u)
  end.

Definition has (c : Z) (s : pystr) : bool := existsb (Z.eqb c) s.

Definition uses_params : list pystr :=
  [[]; lit "ftp"; lit "hdl"; lit "prospero"; lit "http"; lit "imap"; lit "https"; lit "shttp"; lit "rtsp";
   lit "rtspu"; lit "sip"; lit "sips"; lit "mms"; lit "sftp"; lit "tel"].

(** The path without the [;parameters] of its last segment. *)
Fixpoint drop_params (p : pystr) : pystr :=
  match p with
  | [] => []
  | c :: r => if has 47 p then c :: drop_params r else before_char 59 p
  end.

(** The path and the query; [None] is a [ValueError].  [netloc_ok] stands for the checks of
    an authority that need the [ipaddress] and [unicodedata] modules. *)
Definition urlparse (netloc_ok : pystr -> bool) (target : pystr) : option (pystr * pystr) :=
  let '(scheme, u) := split_scheme (clean_url target) in
  let '(netloc, u) := split_netloc u in
  if negb (Bool.eqb (has 91 netloc) (has 93 netloc)) || negb (netloc_ok netloc) then None
  else
    let u := before_char 35 u in
    let '(path, q) := break_at (Z.eqb 63) u in
    let path := if bool_decide (scheme ∈ uses_params) && has 59 path then drop_params path else path in
    Some (path, tail q).

(** ** Percent-encoding *)

(** [bytes.decode("utf-8", "replace")]: a replacement character for every maximal
    ill-formed sequence. *)
Definition bad : Z := 0xFFFD.
Fixpoint utf8_decode_replace (bs : bytes) : pystr :=
  match bs with
  | [] => []
  | b0 :: r1 =>
      if b0 <? 0x80 then b0 :: utf8_decode_replace r1
      else if (b0 <? 0xC2) || (0xF5 <=? b0) then bad :: utf8_decode_replace r1
      else if b0 <? 0xE0 then
        match r1 with
        | [] => [bad]
        | b1 :: r2 =>
            if is_cont b1 then ((b0 - 0xC0) * 64 + (b1 - 0x80)) :: utf8_decode_replace r2
            else bad :: utf8_decode_replace r1
        end
      else if b0 <? 0xF0 then
        match r1 with
        | [] => [bad]
        | b1 :: r2 =>
            if negb (ok_second3 b0 b1) then bad :: utf8_decode_replace r1
            else match r2 with
                 | [] => [bad]
                 | b2 :: r3 =>
                     if is_cont b2 then
                       ((b0 - 0xE0) * 4096 + (b1 - 0x80) * 64 + (b2 - 0x80)) :: utf8_decode_replace r3
                     else bad :: utf8_decode_replace r2
                 end
        end
      else
        match r1 with
        | [] => [bad]
        | b1 :: r2 =>
            if negb (ok_second4 b0 b1) then bad :: utf8_decode_replace r1
            else match r2 with
                 | [] => [bad]
                 | b2 :: r3 =>
                     if negb (is_cont b2) then bad :: utf8_decode_replace r2
                     else match r3 with
                          | [] => [bad]
                          | b3 :: r4 =>
                              if is_cont b3 then
                                ((b0 - 0xF0) * 262144 + (b1 - 0x80) * 4096
                                 + (b2 - 0x80) * 64 + (b3 - 0x80)) :: utf8_decode_replace r4
                              else bad :: utf8_decode_replace r3
                          end
                 end
        end
  end.

(** [%XX] becomes its byte; other percent signs stay. *)
Fixpoint unquote_to_bytes (s : bytes) : bytes :=
  match s with
  | [] => []
  | c :: r =>
      if c =? 37 then
        match r with
        | a :: b :: r2 =>
            match hex_value a, hex_value b with
            | Some h, Some l => h * 16 + l :: unquote_to_bytes r2
            | _, _ => c :: unquote_to_bytes r
            end
        | _ => c :: unquote_to_bytes r
        end
      else c :: unquote_to_bytes r
  end.

(** Every run of ASCII characters is decoded by itself. *)
Fixpoint unquote_runs (run s : pystr) : pystr :=
  match s with
  | [] => utf8_decode_replace (unquote_to_bytes (rev run))
  | c :: s =>
      if c <? 128 then unquote_runs (c :: run) s
      else utf8_decode_replace (unquote_to_bytes (rev run)) ++ c :: unquote_runs [] s
  end.
Definition unquote (s : pystr) : pystr := unquote_runs [] s.

Definition unplus (s : pystr) : pystr := (fun c => if c =? 43 then 32 else c) <$> s.

(** The pairs of a query in order; a name without [=] or without a value is dropped. *)
Definition parse_qsl (q : pystr) : list (pystr * pystr) :=
  omap (fun nv => match break_at (Z.eqb 61) nv with
                  | (k, _ :: (_ :: _) as v) => Some (unquote (unplus k), unquote (unplus v))
                  | _ => None
                  end) (split_char 38 q).

(** [{k: v[0] for k, v in parse_qs(q).items()}]: the first value of every name. *)
Definition first_values (kvs : list (pystr * pystr)) : list (pystr * pystr) :=
  foldl (fun d kv => match dget kv.1 d with Some _ => d | None => dset kv.1 kv.2 d end) [] kvs.

Example unquote_ex : unquote (lit "/a%20b%2F%e2%82%ac%zz%") = lit "/a b/" ++ [0x20AC] ++ lit "%zz%".
Proof. by vm_compute. Qed.
Example unquote_cut : unquote (lit "%e2%82/%ff") = [bad; 47; bad].
Proof. by vm_compute. Qed.
Example urlparse_ex : urlparse (fun _ => true) (lit "/a;x/b;y?q=1#f") = Some (lit "/a;x/b", lit "q=1").
Proof. by vm_compute. Qed.
Example urlparse_abs : urlparse (fun _ => true) (lit "http://h:80/p?x") = Some (lit "/p", lit "x").
Proof. by vm_compute. Qed.
Example query_ex : first_values (parse_qsl (lit "a=1&b=&a=2&c&d=x+y%3D")) = [(lit "a", lit "1"); (lit "d", lit "x y=")].
Proof. by vm_compute. Qed.

(** ** Paths ([posixpath]) *)

Definition path_join (a b : pystr) : pystr :=
  match b with
  | 47 :: _ => b
  | _ => match last a with
         | None | Some 47 => a ++ b
         | Some _ => a ++ [47] ++ b
         end
  end.

(** The number of slashes a path starts with, as [normpath] keeps them. *)
Definition initial_slashes (p : pystr) : nat :=
  match p with
  | 47 :: 47 :: 47 :: _ => 1
  | 47 :: 47 :: _ => 2
  | 47 :: _ => 1
  | _ => 0
  end.

Definition dot : pystr := [46].
Definition dotdot : pystr := [46; 46].

(** One component; [acc] holds the ones before it, the last first. *)
Definition norm_step (rooted : bool) (acc : list pystr) (comp : pystr) : list pystr :=
  if bool_decide (comp = []) || bool_decide (comp = dot) then acc
  else if negb (bool_decide (comp = dotdot)) || (negb rooted && bool_decide (acc = []))
          || bool_decide (hd_error acc = Some dotdot) then comp :: acc
  else tail acc.

Definition join_slash (cs : list pystr) : pystr := Ws.join [47] cs.

Definition normpath (p : pystr) : pystr :=
  match p with
  | [] => dot
  | _ =>
      let n := initial_slashes p in
      let comps := rev (foldl (norm_step (negb (n =? 0)%nat)) [] (split_char 47 p)) in
      match replicate n 47 ++ join_slash comps with [] => dot | q => q end
  end.

Definition abspath (cwd p : pystr) : pystr :=
  normpath (match p with 47 :: _ => p | _ => path_join cwd p end).

Example normpath_ex : normpath (lit "/srv/www/../x//./y/") = lit "/srv/x/y" /\ normpath (lit "../a/..") = lit ".."
  /\ normpath (lit "///..") = lit "/".
Proof. by vm_compute. Qed.

(** ** Lemmas on paths *)

Definition clean (c : pystr) : Prop := c <> [] /\ c <> dot /\ c <> dotdot /\ 47 ∉ c.

#[export] Instance clean_dec c : Decision (clean c).
Proof. unfold clean. apply _. Defined.

Lemma split_char_cons c s : exists h t, split_char c s = h :: t.
Proof.
  induction s as [|x s (h & t & IH)]; cbn; [by eexists _, _|]. rewrite IH.
  destruct (x =? c); by eexists _, _.
Qed.

Lemma split_char_app c a b : split_char c (a ++ c :: b) = split_char c a ++ split_char c b.
Proof.
  induction a as [|x a IH]; cbn.
  - rewrite Z.eqb_refl. by destruct (split_char_cons c b) as (h & t & ->).
  - rewrite IH. destruct (split_char_cons c a) as (h & t & ->). cbn. by destruct (x =? c).
Qed.

Lemma split_char_none c a : c ∉ a -> split_char c a = [a].
Proof.
  induction a as [|x a IH]; [done|]. intros [Hx Ha]%not_elem_of_cons. cbn. rewrite IH by done.
  by rewrite (proj2 (Z.eqb_neq x c)) by congruence.
Qed.

Lemma split_char_free c a : Forall (fun p => c ∉ p) (split_char c a).
Proof.
  induction a as [|x a IH]; cbn; [repeat constructor; apply not_elem_of_nil|].
  destruct (split_char_cons c a) as (h & t & E). rewrite E in IH |- *.
  apply Forall_cons in IH as [Hh Ht]. destruct (Z.eqb_spec x c); repeat constructor; try done.
  - apply not_elem_of_nil.
  - by apply not_elem_of_cons.
Qed.

Lemma split_join cs : cs <> [] -> Forall clean cs -> split_char 47 (join_slash cs) = cs.
Proof.
  intros Hn H. induction H as [|c cs (_ & _ & _ & Hc) Hcs IH]; [done|].
  destruct cs as [|d cs]; [by apply split_char_none|].
  change (join_slash (c :: d :: cs)) with (c ++ 47 :: join_slash (d :: cs)).
  rewrite split_char_app, split_char_none, IH by done. done.
Qed.

Lemma join_slash_app a b : a <> [] -> b <> [] -> join_slash (a ++ b) = join_slash a ++ 47 :: join_slash b.
Proof.
  intros Ha Hb. induction a as [|x a IH]; [done|]. destruct a as [|y a].
  - by destruct b.
  - change (join_slash ((x :: y :: a) ++ b)) with (x ++ 47 :: join_slash ((y :: a) ++ b)).
    rewrite IH by done. change (join_slash (x :: y :: a)) with (x ++ 47 :: join_slash (y :: a)).
    by rewrite <- app_assoc.
Qed.

(** What [normpath] makes of an absolute path: one or two slashes and clean components. *)
Definition rooted (n : nat) (cs : list pystr) : pystr := replicate n 47 ++ join_slash cs.
Definition slashes_ok (n : nat) : Prop := n = 1%nat \/ n = 2%nat.

Lemma join_slash_head cs : Forall clean cs -> hd_error (join_slash cs) <> Some 47.
Proof.
  destruct 1 as [|[|x c] cs (Hc & _ & _ & Hx) _]; [done|done|].
  destruct cs; cbn; intros [= ->]; apply Hx, list_elem_of_here.
Qed.

Lemma initial_slashes_rooted n s : slashes_ok n -> hd_error s <> Some 47 ->
  initial_slashes (replicate n 47 ++ s) = n.
Proof. destruct s as [|z s]; intros [-> | ->]; cbn; try done; intros ?; repeat case_match; congruence. Qed.

Lemma norm_clean acc comps :
  Forall clean acc -> Forall (fun p => 47 ∉ p) comps -> Forall clean (foldl (norm_step true) acc comps).
Proof.
  intros Ha Hc. revert acc Ha. induction Hc as [|c comps Hc _ IH]; intros acc Ha; [done|].
  apply IH. unfold norm_step. case_bool_decide; [done|]. case_bool_decide; [done|]. cbn.
  assert (bool_decide (hd_error acc = Some dotdot) = false) as ->.
  { apply bool_decide_eq_false. destruct acc as [|a acc]; [done|]. intros [= ->].
    apply Forall_cons in Ha as [(_ & _ & H' & _) _]. done. }
  case_bool_decide; cbn; [by apply Forall_tail|]. constructor; [by split_and!|done].
Qed.

Lemma norm_push acc cs : Forall clean cs -> foldl (norm_step true) acc cs = rev cs ++ acc.
Proof.
  intros H. revert acc. induction H as [|c cs (H1 & H2 & H3 & _) _ IH]; intros acc; [done|].
  cbn [foldl]. rewrite IH. unfold norm_step. rewrite !bool_decide_false by done. cbn.
  by rewrite <- app_assoc.
Qed.

Lemma norm_step_skip r acc : norm_step r acc [] = acc.
Proof. done. Qed.

(** The components of a path that starts with slashes. *)
Lemma split_rooted n s : foldl (norm_step true) [] (split_char 47 (replicate n 47 ++ s)) =
  foldl (norm_step true) [] (split_char 47 s).
Proof.
  induction n as [|n IH]; [done|]. cbn [replicate app].
  change (47 :: replicate n 47 ++ s) with ([] ++ 47 :: replicate n 47 ++ s).
  rewrite split_char_app. cbn [split_char app foldl]. rewrite norm_step_skip. exact IH.
Qed.

Lemma normpath_rooted n s : slashes_ok n -> hd_error s <> Some 47 ->
  normpath (replicate n 47 ++ s) = rooted n (rev (foldl (norm_step true) [] (split_char 47 s))).
Proof.
  intros Hn Hs. rewrite <- (split_rooted n).
  pose proof (initial_slashes_rooted n s Hn Hs) as I. unfold normpath, rooted.
  destruct (replicate n 47 ++ s) as [|z p] eqn:E; [by destruct Hn as [-> | ->]|].
  rewrite I. destruct Hn as [-> | ->]; done.
Qed.

Lemma normpath_is_rooted n s : slashes_ok n -> hd_error s <> Some 47 ->
  exists cs, Forall clean cs /\ normpath (replicate n 47 ++ s) = rooted n cs.
Proof.
  intros Hn Hs. eexists. split; [|by apply normpath_rooted].
  apply Forall_rev, norm_clean; [constructor|apply split_char_free].
Qed.

Lemma rooted_inj n m cs ds : slashes_ok n -> slashes_ok m -> Forall clean cs -> Forall clean ds ->
  rooted n cs = rooted m ds -> n = m /\ cs = ds.
Proof.
  intros Hn Hm Hc Hd E.
  assert (n = m) as <-.
  { pose proof (initial_slashes_rooted n _ Hn (join_slash_head _ Hc)).
    pose proof (initial_slashes_rooted m _ Hm (join_slash_head _ Hd)). unfold rooted in E. congruence. }
  split; [done|]. unfold rooted in E. apply app_inv_head in E.
  assert (forall xs, Forall clean xs -> join_slash xs = [] -> xs = []) as Z.
  { intros [|x [|y xs]]; [done| |]; intros [(Hx & _) _]%Forall_cons; cbn; [done|by destruct x]. }
  destruct (decide (cs = [])) as [->|Hcn]; [symmetry; by apply Z|].
  destruct (decide (ds = [])) as [->|Hdn]; [by apply Z|].
  by rewrite <- (split_join cs), <- (split_join ds), E.
Qed.

Lemma last_join cs : cs <> [] -> Forall clean cs -> exists z, last (join_slash cs) = Some z /\ z <> 47.
Proof.
  intros Hn H. induction H as [|c cs (Hc & _ & _ & Hx) Hcs IH]; [done|]. destruct cs as [|d cs].
  - cbn. destruct c as [|z c _] using rev_ind; [done|]. rewrite last_snoc. exists z. split; [done|].
    intros ->. apply Hx. set_solver.
  - destruct IH as (z & Hz & ?); [done|]. exists z. split; [|done].
    change (join_slash (c :: d :: cs)) with (c ++ 47 :: join_slash (d :: cs)).
    rewrite last_app, last_cons, Hz. done.
Qed.

Lemma join_slash_nonempty cs : cs <> [] -> Forall clean cs -> join_slash cs <> [].
Proof. intros Hn H E. destruct (last_join cs Hn H) as (z & Hz & _). by rewrite E in Hz. Qed.

Lemma not_slash {A} z (x y : A) : z <> 47 -> match z with 47 => x | _ => y end = y.
Proof. intros H. destruct z as [|p|p]; try done. do 6 (destruct p; try done). Qed.

(** Joining to a root: a slash in between unless the root is slashes only. *)
Lemma path_join_rooted n rs b : slashes_ok n -> Forall clean rs -> hd_error b <> Some 47 ->
  path_join (rooted n rs) b = replicate n 47 ++ (match rs with [] => b | _ => join_slash rs ++ 47 :: b end).
Proof.
  intros Hn Hr Hb. unfold path_join.
  assert (match b with 47 :: _ => b | _ => match last (rooted n rs) with
     | None | Some 47 => rooted n rs ++ b | Some _ => rooted n rs ++ [47] ++ b end end =
     match last (rooted n rs) with
     | None | Some 47 => rooted n rs ++ b | Some _ => rooted n rs ++ [47] ++ b end) as ->.
  { destruct b as [|z b]; [done|]. apply not_slash. cbn in Hb. congruence. }
  destruct (decide (rs = [])) as [->|Hn0].
  - unfold rooted. cbn. rewrite app_nil_r. destruct Hn as [-> | ->]; done.
  - destruct (last_join rs Hn0 Hr) as (z & Hz & Hne). unfold rooted. rewrite last_app, Hz.
    destruct rs as [|r rs]; [done|]. rewrite <- !app_assoc.
    by rewrite not_slash.
Qed.

Lemma path_join_clean n rs c : slashes_ok n -> Forall clean rs -> clean c ->
  path_join (rooted n rs) c = rooted n (rs ++ [c]).
Proof.
  intros Hn Hr Hc. rewrite path_join_rooted; [|done|done|].
  - unfold rooted. f_equal. destruct rs as [|r rs]; [done|]. by rewrite join_slash_app.
  - destruct Hc as (? & _ & _ & Hx). destruct c as [|z c]; [done|]. cbn. intros [= ->]. set_solver.
Qed.

Lemma foldl_join_rooted n rs cs : slashes_ok n -> Forall clean rs -> Forall clean cs ->
  foldl path_join (rooted n rs) cs = rooted n (rs ++ cs).
Proof.
  intros Hn Hr Hc. revert rs Hr. induction Hc as [|c cs Hc _ IH]; intros rs Hr; cbn [foldl].
  - by rewrite app_nil_r.
  - rewrite path_join_clean by done. rewrite IH; [by rewrite <- app_assoc|].
    apply Forall_app. split; [done|by apply Forall_singleton].
Qed.

(** Joining component by component is joining the relative path. *)
Lemma foldl_join_relative a cs : cs <> [] -> Forall clean cs ->
  foldl path_join a cs = path_join a (join_slash cs).
Proof.
  intros Hn Hc. destruct cs as [|c cs]; [done|]. clear Hn. revert a c Hc.
  induction cs as [|d cs IH]; intros a c Hc; [done|]. apply Forall_cons in Hc as [Hc Hcs].
  change (foldl path_join a (c :: d :: cs)) with (foldl path_join (path_join a c) (d :: cs)).
  rewrite IH by done. change (join_slash (c :: d :: cs)) with (c ++ 47 :: join_slash (d :: cs)).
  destruct Hc as (Hc0 & _ & _ & Hx).
  assert (hd_error (join_slash (d :: cs)) <> Some 47) as Hh by (by apply join_slash_head).
  assert (forall a, exists x, forall b, hd_error b <> Some 47 -> path_join a b = x ++ b) as J.
  { intros a'. exists (match last a' with None | Some 47 => a' | Some _ => a' ++ [47] end).
    intros b Hb. transitivity (match last a' with None | Some 47 => a' ++ b | Some _ => a' ++ [47] ++ b end).
    - destruct b as [|z b]; [done|]. unfold path_join. apply not_slash. cbn in Hb. congruence.
    - destruct (last a') as [v|]; [|done]. destruct (decide (v = 47)) as [->|]; [done|].
      by rewrite !not_slash, <- app_assoc. }
  assert (hd_error c <> Some 47) as Hch by (destruct c; cbn; [done|]; intros [= ->]; set_solver).
  destruct (J a) as [x Jx]. rewrite (Jx c), (Jx (c ++ _)) by (destruct c; done).
  transitivity ((x ++ c) ++ [47] ++ join_slash (d :: cs)); [|by rewrite <- app_assoc].
  destruct (join_slash (d :: cs)) as [|w t] eqn:Ej; [by apply join_slash_nonempty in Ej|].
  unfold path_join. rewrite not_slash by (cbn in Hh; congruence).
  destruct c as [|z c _] using rev_ind; [done|]. rewrite app_assoc, last_snoc.
  rewrite not_slash; [done|]. intros ->. set_solver.
Qed.

(** A rooted path below another one. *)
Lemma rooted_below n rs cs : slashes_ok n -> Forall clean rs -> Forall clean cs ->
  is_prefix (rooted n rs ++ [47]) (rooted n cs) = true -> exists ds, cs = rs ++ ds /\ ds <> [].
Proof.
  intros Hn Hr Hc (rest & E)%is_prefix_spec. unfold rooted in E.
  rewrite <- !app_assoc in E. apply app_inv_head in E.
  destruct (decide (rs = [])) as [->|Hr0].
  - exfalso. apply (join_slash_head cs Hc). by rewrite E.
  - assert (cs <> []) as Hc0 by (intros ->; by destruct (join_slash rs)).
    pose proof (split_join cs Hc0 Hc) as S. rewrite E in S. cbn [app] in S.
    rewrite split_char_app, split_join in S by done. exists (split_char 47 rest). split; [done|].
    by destruct (split_char_cons 47 rest) as (h & t & ->).
Qed.

Lemma rooted_above n rs ds : rs <> [] -> ds <> [] -> is_prefix (rooted n rs ++ [47]) (rooted n (rs ++ ds)) = true.
Proof.
  intros Hr Hd. apply is_prefix_spec. exists (join_slash ds). unfold rooted.
  by rewrite join_slash_app, <- !app_assoc.
Qed.

(** An absolute path is made rooted. *)
Lemma abspath_rooted cwd p : hd_error cwd = Some 47 -> exists n cs, slashes_ok n /\ Forall clean cs /\ abspath cwd p = rooted n cs.
Proof.
  intros Hc. unfold abspath.
  assert (exists q, (match p with 47 :: _ => p | _ => path_join cwd p end) = 47 :: q) as [q ->].
  { destruct cwd as [|z cwd]; [done|]. injection Hc as ->.
    assert (forall b, exists q, path_join (47 :: cwd) b = 47 :: q) as J.
    { intros b. unfold path_join. repeat case_match; by eexists. }
    destruct p as [|z p]; [apply J|]. destruct (decide (z = 47)) as [->|Hz]; [by eexists|].
    destruct (J (z :: p)) as [q Hq]. exists q. rewrite <- Hq. repeat case_match; congruence. }
  assert (exists n s, slashes_ok n /\ hd_error s <> Some 47 /\ normpath (47 :: q) = normpath (replicate n 47 ++ s)) as (n & s & Hn & Hs & ->).
  { destruct q as [|a q]; [exists 1%nat, []; split; [by left|by split]|].
    destruct (decide (a = 47)) as [->|Ha].
    - destruct q as [|b q]; [exists 2%nat, []; split; [by right|by split]|].
      destruct (decide (b = 47)) as [->|Hb].
      + assert (exists k s, q = replicate k 47 ++ s /\ hd_error s <> Some 47) as (k & s & -> & Hs).
        { clear. induction q as [|c q (k & s & -> & Hs)]; [by exists 0%nat, []|].
          destruct (decide (c = 47)) as [->|]; [by exists (S k), s|].
          exists 0%nat, (c :: replicate k 47 ++ s). split; [done|]. cbn. congruence. }
        exists 1%nat, s. split; [by left|]. split; [done|].
        change (47 :: 47 :: 47 :: replicate k 47 ++ s) with (replicate (3 + k) 47 ++ s).
        rewrite (normpath_rooted 1 s), <- (split_rooted (3 + k)) by (done || by left). unfold normpath, rooted.
        change (initial_slashes (replicate (3 + k) 47 ++ s)) with 1%nat.
        change (replicate (3 + k) 47 ++ s) with (47 :: 47 :: 47 :: replicate k 47 ++ s). cbv iota. done.
      + exists 2%nat, (b :: q). split; [by right|]. split; [cbn; congruence|done].
    - exists 1%nat, (a :: q). split; [by left|]. split; [cbn; congruence|done]. }
  destruct (normpath_is_rooted n s Hn Hs) as (cs & Hcs & E). by exists n, cs.
Qed.

End Url.
