(* ===== verification/Http.v ===== *)
(** * The HTTP server (src/src/mdfeed/httpd.py)

    Requests taken off a connection one after the other, routed, answered and written; files
    under a mounted directory.  A connection is the bytes the peer sends before it closes or
    falls silent.  The handlers, the file system and the table of media types are arguments;
    the application's state is passed through the handlers. *)

From S2P Require Import Prelude PyStr Dict Json PyInt WsProto Url.

Module Http.
Import Url.

Definition MAX_HEADER_BYTES : Z := 16 * 1024.
Definition MAX_BODY_BYTES : Z := 4 * 1024 * 1024.
(** [asyncio]'s limit on the bytes searched for a separator. *)
Definition STREAM_LIMIT : Z := 64 * 1024.

Definition STATUS_TEXT : list (Z * pystr) :=
  [(200, lit "OK"); (204, lit "No Content"); (400, lit "Bad Request"); (404, lit "Not Found");
   (405, lit "Method Not Allowed"); (426, lit "Upgrade Required");
   (500, lit "Internal Server Error"); (503, lit "Service Unavailable")].

Record Request := mkRequest
  { method : pystr; raw_target : pystr; path : pystr; query : list (pystr * pystr);
    headers : list (pystr * pystr); body : bytes }.

Definition with_body (r : Request) (b : bytes) : Request :=
  mkRequest (method r) (raw_target r) (path r) (query r) (headers r) b.

Record Response := mkResponse
  { status : Z; r_body : bytes; content_type : pystr; r_headers : list (pystr * pystr) }.

Definition TEXT : pystr := lit "text/plain; charset=utf-8".

(** [Response(status, text)]; [None]: the text has no UTF-8 encoding. *)
Definition text_response (st : Z) (s : pystr) : option Response :=
  b ← utf8_encode s; Some (mkResponse st b TEXT []).

(** [Response.json] of an object whose values are texts. *)
Definition json_response (o : list (pystr * pystr)) (st : Z) : option Response :=
  b ← utf8_encode (123 :: json_pairs ((fun kv => (kv.1, JStr kv.2)) <$> o) ++ [125]);
  Some (mkResponse st b (lit "application/json; charset=utf-8") []).

(** [Request.q_int]: the default is clamped when the name is missing, not when the value is no
    number. *)
Definition q_int (decimal : Z -> option Z) (r : Request) (key : pystr) (default lo hi : Z) : Z :=
  match dget key (query r) with
  | None => Z.max lo (Z.min hi default)
  | Some s => match py_int decimal s with Some n => Z.max lo (Z.min hi n) | None => default end
  end.

(** ** Writing a response *)

Definition header_line (kv : pystr * pystr) : pystr := kv.1 ++ lit ": " ++ kv.2.

(** [{**extra, **own}]. *)
Definition merge (extra own : list (pystr * pystr)) : list (pystr * pystr) :=
  foldl (fun d kv => dset kv.1 kv.2 d) extra own.

Definition head_lines (r : Response) (keep_alive cors : bool) (extra : list (pystr * pystr)) : list pystr :=
  [lit "HTTP/1.1 " ++ str_int (status r) ++ lit " " ++ default (lit "OK") (dget (status r) STATUS_TEXT);
   lit "Content-Type: " ++ content_type r;
   lit "Content-Length: " ++ str_int (zlen (r_body r));
   lit "Connection: " ++ (if keep_alive then lit "keep-alive" else lit "close")]
  ++ (if cors then [lit "Access-Control-Allow-Origin: *"] else [])
  ++ (header_line <$> merge extra (r_headers r)).

Definition render (r : Response) (keep_alive head_only cors : bool) (extra : list (pystr * pystr)) : option bytes :=
  head ← utf8_encode (Ws.join Ws.crlf (head_lines r keep_alive cors extra) ++ Ws.crlf ++ Ws.crlf);
  Some (if head_only then head else head ++ r_body r).

(** ** Reading a request *)

Definition blank_line : bytes := Ws.crlf ++ Ws.crlf.

(** One header line; a line without a colon is skipped. *)
Definition add_header (hs : list (pystr * pystr)) (line : pystr) : list (pystr * pystr) :=
  match break_at (Z.eqb 58) line with
  | (k, _ :: v) => dset (lower (strip k)) (strip v) hs
  | _ => hs
  end.

(** [_parse_request] of bytes that end with the blank line. *)
Definition parse_request (netloc_ok : pystr -> bool) (raw : bytes) : option Request :=
  i ← find_sub blank_line raw;
  match Ws.split_crlf (take i raw) with
  | [] => None
  | first :: lines =>
      match split_char 32 first with
      | [m; target; version] =>
          if is_prefix (lit "HTTP/") version then
            '(p, q) ← urlparse netloc_ok target;
            Some (mkRequest (upper m) target (unquote p) (first_values (parse_qsl q))
                    (foldl add_header [] lines) [])
          else None
      | _ => None
      end
  end.

(** ** The server *)

Section server.
(** The application: the state its handlers change and their names.  A handler returns a
    response or raises an exception of some type and text. *)
Context {St Hd : Type}.
Variable call : Hd -> Request -> St -> St * result (pystr * pystr) Response.
Variable netloc_ok : pystr -> bool.
Variable decimal : Z -> option Z.

(** The file system under the mounted directory, and [mimetypes.guess_type]. *)
Variable isdir : pystr -> bool.
Variable read_file : pystr -> option bytes.
Variable guess_type : pystr -> option pystr.

Record Server := mkServer
  { cors : bool; default_headers : list (pystr * pystr); has_registry : bool;
    routes : list ((pystr * pystr) * Hd); prefixes : list (pystr * pystr * Hd);
    ws_handler : bool; ws_path : pystr; mount : option (pystr * pystr) }.

Definition new_server (cors : bool) (extra : list (pystr * pystr)) (registry : bool) : Server :=
  mkServer cors extra registry [] [] false (lit "/ws") None.

Definition set_routes (s : Server) rs : Server :=
  mkServer (cors s) (default_headers s) (has_registry s) rs (prefixes s) (ws_handler s) (ws_path s) (mount s).

Definition route (s : Server) (m p : pystr) (h : Hd) : Server :=
  set_routes s (dset (upper m, p) h (routes s)).

Definition prefix (s : Server) (m p : pystr) (h : Hd) : Server :=
  mkServer (cors s) (default_headers s) (has_registry s) (routes s) (prefixes s ++ [(upper m, p, h)])
    (ws_handler s) (ws_path s) (mount s).

Definition websocket (s : Server) (p : pystr) : Server :=
  mkServer (cors s) (default_headers s) (has_registry s) (routes s) (prefixes s) true p (mount s).

(** [HTTPServer.static], in a process whose working directory is [cwd]. *)
Definition static (s : Server) (cwd url_prefix directory : pystr) : Server :=
  let p := match rstrip_by (Z.eqb 47) url_prefix with [] => [47] | p => p end in
  let s1 := mkServer (cors s) (default_headers s) (has_registry s) (routes s) (prefixes s)
              (ws_handler s) (ws_path s) (Some (p, abspath cwd directory)) in
  if bool_decide (p = [47]) then set_routes s1 (ddel (lit "GET", [47]) (routes s)) else s1.

Definition charset_type (t : pystr) : pystr :=
  if existsb (fun p => is_prefix p t) [lit "text/"; lit "application/json"; lit "application/javascript"]
  then t ++ lit "; charset=utf-8" else t.

Definition not_found : Response := mkResponse 404 (lit "not found") TEXT [].

(** [_serve_static] under the mount [(url_prefix, root)]; [None] when it has no answer. *)
Definition serve_static (mnt : pystr * pystr) (r : Request) : option Response :=
  let '(url_prefix, root) := mnt in
  if negb (is_prefix url_prefix (path r)) then None
  else
    let rel := match lstrip_by (Z.eqb 47) (drop (length url_prefix) (path r)) with
               | [] => lit "index.html" | rel => rel end in
    let target := normpath (path_join root rel) in
    if negb (is_prefix (root ++ [47]) target) && negb (bool_decide (target = root)) then Some not_found
    else
      let target := if isdir target then path_join target (lit "index.html") else target in
      match read_file target with
      | None => None
      | Some content =>
          Some (mkResponse 200 content
                  (charset_type (default (lit "application/octet-stream") (guess_type target)))
                  [(lit "Cache-Control", lit "no-cache")])
      end.

(** [requests], and the registry's two counters. *)
Record Counts := mkCounts { requests : Z; http_requests_total : Z; http_errors_total : Z }.

Definition count_request (s : Server) (c : Counts) : Counts :=
  mkCounts (requests c + 1) (if has_registry s then http_requests_total c + 1 else http_requests_total c)
    (http_errors_total c).
Definition count_error (s : Server) (c : Counts) : Counts :=
  mkCounts (requests c) (http_requests_total c)
    (if has_registry s then http_errors_total c + 1 else http_errors_total c).

Definition find_prefix (m : pystr) (p : pystr) (ps : list (pystr * pystr * Hd)) : option Hd :=
  match List.find (fun '(m', p', _) => bool_decide (m' = m) && is_prefix p' p) ps with
  | Some (_, _, h) => Some h
  | None => None
  end.

Definition find_handler (s : Server) (r : Request) : option Hd :=
  let m := if bool_decide (method r = lit "HEAD") then lit "GET" else method r in
  match dget (m, path r) (routes s) with
  | Some h => Some h
  | None => find_prefix m (path r) (prefixes s)
  end.

Definition METHOD_TEXT : pystr :=
  [0xD5C8; 0xC6A9; 0xB418; 0xC9C0; 32; 0xC54A; 0xC740; 32; 0xBA54; 0xC11C; 0xB4DC].

(** [_dispatch]; [None] when making the answer raises. *)
Definition dispatch_request (s : Server) (r : Request) (st : St) (c : Counts) : St * Counts * option Response :=
  match find_handler s r with
  | Some h =>
      match call h r st with
      | (st, Ok resp) => (st, c, Some resp)
      | (st, Err (name, detail)) =>
          (st, count_error s c, json_response [(lit "error", name); (lit "detail", detail)] 500)
      end
  | None =>
      match (mnt ← mount s; serve_static mnt r) with
      | Some resp => (st, c, Some resp)
      | None =>
          (st, c,
           if existsb (fun kv => bool_decide (kv.1.2 = path r)) (routes s) then text_response 405 METHOD_TEXT
           else json_response [(lit "error", lit "not found"); (lit "path", path r)] 404)
      end
  end.

(** ** A connection *)

(** What a turn of the loop leaves: the connection is closed, it goes on with the bytes not
    yet read, or the WebSocket handler takes it over with them. *)
Inductive Next :=
| Close
| Continue (rest : bytes)
| Upgrade (r : Request) (rest : bytes).

Definition TOO_LARGE : pystr := [0xD5E4; 0xB354; 0xAC00; 32; 0xB108; 0xBB34; 32; 0xD07D; 0xB2C8; 0xB2E4].
Definition BAD_REQUEST : pystr := [0xC798; 0xBABB; 0xB41C; 32; 0xC694; 0xCCAD].

Definition refuse (msg : pystr) : list bytes :=
  match (r ← text_response 400 msg; render r false false true []) with Some b => [b] | None => [] end.

(** [reader.readuntil(blank line)]: the head and what follows it, [Err true] when the limit is
    passed, [Err false] when the peer ends or falls silent before. *)
Definition read_head (buf : bytes) : result bool (bytes * bytes) :=
  match find_sub blank_line buf with
  | Some i => if STREAM_LIMIT <? Z.of_nat i then Err true else Ok (take (i + 4) buf, drop (i + 4) buf)
  | None => Err (STREAM_LIMIT <? zlen buf - 3)
  end.

(** [int(headers.get("content-length", "0") or 0)]. *)
Definition content_length (hs : list (pystr * pystr)) : option Z :=
  match dget (lit "content-length") hs with None | Some [] => Some 0 | Some v => py_int decimal v end.

(** The body after the head; [None] when the length is not a number or the peer ends
    before. *)
Definition take_body (r : Request) (buf : bytes) : option (Request * bytes) :=
  n ← content_length (headers r);
  if 0 <? n then
    let n := Z.min n MAX_BODY_BYTES in
    if zlen buf <? n then None else Some (with_body r (take (Z.to_nat n) buf), drop (Z.to_nat n) buf)
  else Some (r, buf).

Definition wants_websocket (s : Server) (r : Request) : bool :=
  ws_handler s && bool_decide (path r = ws_path s)
  && bool_decide (lower (default [] (dget (lit "upgrade") (headers r))) = lit "websocket").

Definition keeps (r : Request) (resp : Response) : bool :=
  negb (bool_decide (lower (default (lit "keep-alive") (dget (lit "connection") (headers r))) = lit "close"))
  && (status resp <? 500).

(** Answering a request that was read whole. *)
Definition respond (s : Server) (r : Request) (rest : bytes) (st : St) (c : Counts)
    : St * Counts * list bytes * Next :=
  if wants_websocket s r then (st, c, [], Upgrade r rest)
  else
    let '(st, c, resp) := dispatch_request s r st c in
    match resp with
    | None => (st, c, [], Close)
    | Some resp =>
        let keep := keeps r resp in
        match render resp keep (bool_decide (method r = lit "HEAD")) (cors s) (default_headers s) with
        | None => (st, c, [], Close)
        | Some out => (st, c, [out], if keep then Continue rest else Close)
        end
    end.

(** One turn of [_handle]'s loop: the writes, and how it goes on. *)
Definition turn (s : Server) (buf : bytes) (st : St) (c : Counts) : St * Counts * list bytes * Next :=
  match read_head buf with
  | Err true => (st, c, refuse TOO_LARGE, Close)
  | Err false => (st, c, [], Close)
  | Ok (raw, rest) =>
      if MAX_HEADER_BYTES <? zlen raw then (st, c, refuse TOO_LARGE, Close)
      else
        match parse_request netloc_ok raw with
        | None => (st, c, refuse BAD_REQUEST, Close)
        | Some r =>
            let c := count_request s c in
            match take_body r rest with
            | None => (st, c, [], Close)
            | Some (r, rest) => respond s r rest st c
            end
        end
  end.

(** The loop; the fuel is a number of requests. *)
Fixpoint handle_loop (fuel : nat) (s : Server) (buf : bytes) (st : St) (c : Counts)
    : option (St * Counts * list bytes * Next) :=
  match fuel with
  | O => None
  | S fuel =>
      match turn s buf st c with
      | (st, c, out, Continue rest) =>
          '(st, c, out', n) ← handle_loop fuel s rest st c; Some (st, c, out ++ out', n)
      | (st, c, out, n) => Some (st, c, out, n)
      end
  end.

(** Every request takes at least one byte, so the length of the input is enough fuel. *)
Definition handle (s : Server) (buf : bytes) (st : St) (c : Counts) :=
  handle_loop (S (length buf)) s buf st c.

End server.

Arguments mkServer {Hd}.
Arguments route {Hd}. Arguments static {Hd}. Arguments new_server {Hd}.

(** ** Static files *)

Section static_proofs.
Context {St Hd : Type}.
Variable isdir : pystr -> bool.
Variable read_file : pystr -> option bytes.
Variable guess_type : pystr -> option pystr.

(** The response for a file. *)
Definition file_response (file : pystr) (content : bytes) : Response :=
  mkResponse 200 content (charset_type (default (lit "application/octet-stream") (guess_type file)))
    [(lit "Cache-Control", lit "no-cache")].

Lemma lstrip_head z s : hd_error (lstrip_by (Z.eqb z) s) <> Some z.
Proof.
  induction s as [|c s IH]; cbn; [done|]. destruct (Z.eqb_spec z c); [done|]. cbn. congruence.
Qed.

Lemma mounted (s : Server (Hd := Hd)) cwd url dir p root : mount (static s cwd url dir) = Some (p, root) ->
  p = (match rstrip_by (Z.eqb 47) url with [] => [47] | p => p end) /\ root = abspath cwd dir.
Proof. unfold static. case_bool_decide; cbn; by intros [= <- <-]. Qed.

(** Where the target of a request lies. *)
Lemma target_rooted n rs rel : slashes_ok n -> Forall clean rs -> hd_error rel <> Some 47 ->
  normpath (path_join (rooted n rs) rel) = rooted n (rev (foldl (norm_step true) (rev rs) (split_char 47 rel))).
Proof.
  intros Hn Hr Hrel. rewrite path_join_rooted by done. rewrite normpath_rooted; [|done|].
  - destruct rs as [|r rs]; [done|]. rewrite split_char_app, foldl_app, split_join by done.
    by rewrite (norm_push [] (r :: rs)), app_nil_r.
  - destruct rs as [|r rs]; [done|]. pose proof (join_slash_head (r :: rs) Hr).
    destruct (join_slash (r :: rs)) eqn:E; [by apply join_slash_nonempty in E|done].
Qed.

(** What a mount finds of a path below its prefix. *)
Lemma mounted_path p cs : cs <> [] -> Forall clean cs ->
  is_prefix p (foldl path_join p cs) = true /\ lstrip_by (Z.eqb 47) (drop (length p) (foldl path_join p cs)) = join_slash cs.
Proof.
  intros Hcs0 Hcs. pose proof (join_slash_head cs Hcs) as Hh.
  assert (exists sep, foldl path_join p cs = p ++ sep ++ join_slash cs /\ (sep = [] \/ sep = [47])) as (sep & -> & Hsep).
  { rewrite foldl_join_relative by done. destruct (join_slash cs) as [|z t] eqn:Ej; [by apply join_slash_nonempty in Ej|].
    unfold path_join. rewrite not_slash by (cbn in Hh; congruence).
    destruct (last p) as [v|]; [|by exists []; split; [|left]].
    destruct (decide (v = 47)) as [->|]; [exists []; by split; [done|left]|].
    rewrite not_slash by done. exists [47]; by split; [done|right]. }
  split; [apply is_prefix_spec; by eexists|]. rewrite drop_app_length.
  assert (lstrip_by (Z.eqb 47) (join_slash cs) = join_slash cs) as L.
  { destruct (join_slash cs) as [|z t]; [done|]. cbn [lstrip_by]. rewrite (proj2 (Z.eqb_neq 47 z)); [done|].
    cbn in Hh. congruence. }
  destruct Hsep as [-> | ->]; [exact L|]. cbn. exact L.
Qed.

(** The file an answer is read from. *)
Lemma answer_below n rs cs : slashes_ok n -> Forall clean rs -> Forall clean cs ->
  is_prefix (rooted n rs ++ [47]) (rooted n cs) = true \/ rooted n cs = rooted n rs ->
  exists ds, Forall clean ds /\
    (if isdir (rooted n cs) then path_join (rooted n cs) (lit "index.html") else rooted n cs) = foldl path_join (rooted n rs) ds.
Proof.
  intros Hn Hr Hcs H. assert (exists ds, cs = rs ++ ds) as [ds ->].
  { destruct H as [E|E]; [destruct (rooted_below n rs cs Hn Hr Hcs E) as (ds & -> & _); by exists ds|].
    apply rooted_inj in E as [_ ->]; try done. exists []. by rewrite app_nil_r. }
  apply Forall_app in Hcs as [_ Hds]. destruct (isdir (rooted n (rs ++ ds))).
  - assert (clean (lit "index.html")) by (apply (bool_decide_unpack _); by vm_compute).
    exists (ds ++ [lit "index.html"]). split; [apply Forall_app; split; [done|by apply Forall_singleton]|].
    rewrite foldl_app, foldl_join_rooted by done. done.
  - exists ds. by rewrite foldl_join_rooted.
Qed.

(** C22: Nothing outside the mounted directory is ever served, and every file inside is.  In a
    process with an absolute working directory, whatever the request's path, the answer of
    a static mount is none, a 404, or a file whose path is the directory's followed by
    components that are neither empty, [.] nor [..]; and a file reached by such components
    from a directory other than the file system's root is served under the mount's prefix
    followed by the same components. *)
Theorem static_exact (s : Server (Hd := Hd)) cwd url dir p root :
  hd_error cwd = Some 47 -> mount (static s cwd url dir) = Some (p, root) ->
  (forall r resp, serve_static isdir read_file guess_type (p, root) r = Some resp ->
     resp = not_found \/
     exists cs content, Forall clean cs /\ read_file (foldl path_join root cs) = Some content /\
       resp = file_response (foldl path_join root cs) content) /\
  (forall r cs content, root <> [47] -> root <> [47; 47] -> cs <> [] -> Forall clean cs ->
     path r = foldl path_join p cs -> isdir (foldl path_join root cs) = false ->
     read_file (foldl path_join root cs) = Some content ->
     serve_static isdir read_file guess_type (p, root) r = Some (file_response (foldl path_join root cs) content)).
Proof.
  intros Hcwd [Hp ->]%mounted. destruct (abspath_rooted cwd dir Hcwd) as (n & rs & Hn & Hr & Er).
  rewrite Er. clear Er. split.
  - intros r resp. unfold serve_static. destruct (is_prefix p (path r)); [|done]. cbn [negb].
    set (rel := match lstrip_by _ _ with [] => _ | rel => rel end).
    assert (hd_error rel <> Some 47) as Hrel.
    { unfold rel. pose proof (lstrip_head 47 (drop (length p) (path r))). by destruct (lstrip_by _ _). }
    rewrite target_rooted by done. set (cs := rev (foldl _ _ _)).
    assert (Forall clean cs) as Hcs.
    { apply Forall_rev, norm_clean; [by apply Forall_rev|apply split_char_free]. }
    destruct (negb _ && negb _) eqn:Eout; intros Hresp; [left; congruence|]. right.
    destruct (answer_below n rs cs Hn Hr Hcs) as (ds' & Hds' & E').
    { apply andb_false_iff in Eout as [E|E]; apply negb_false_iff in E; [by left|right; by apply bool_decide_eq_true in E]. }
    cbv zeta in Hresp. rewrite E' in Hresp. destruct (read_file _) as [content|] eqn:Ef in Hresp; [|done].
    injection Hresp as <-. by exists ds', content.
  - intros r cs content Hr1 Hr2 Hcs0 Hcs Epath Hdir Hfile. unfold serve_static.
    assert (rs <> []) as Hrs. { intros ->. destruct Hn as [-> | ->]; [by apply Hr1|by apply Hr2]. }
    rewrite Epath. destruct (mounted_path p cs Hcs0 Hcs) as [-> ->].
    cbn [negb]. destruct (join_slash cs) as [|z t] eqn:Ej; [by apply join_slash_nonempty in Ej|].
    rewrite <- Ej. rewrite target_rooted by (done || by apply join_slash_head).
    rewrite split_join, norm_push, rev_app_distr, !rev_involutive by done.
    rewrite rooted_above by done. cbn [negb andb]. rewrite foldl_join_rooted in * by done.
    by rewrite Hdir, Hfile.
Qed.
End static_proofs.

Definition demo_server : Server (Hd := pystr) :=
  static (route (new_server true [] true) (lit "get") (lit "/healthz") (lit "health")) (lit "/srv") (lit "/") (lit "web/mts").
Definition demo_files (f : pystr) : option bytes :=
  if bool_decide (f = lit "/srv/web/mts/js/app.js") then Some [1; 2; 3]
  else if bool_decide (f = lit "/srv/web/secret") then Some [9] else None.
Definition demo_get (target : pystr) : Request :=
  default (mkRequest [] [] [] [] [] []) (parse_request (fun _ => true) (lit "GET " ++ target ++ lit " HTTP/1.1" ++ blank_line)).

Lemma static_exact_witness :
  serve_static (fun _ => false) demo_files (fun _ => None) (lit "/", lit "/srv/web/mts") (demo_get (lit "/js/app.js"))
  = Some (file_response (fun _ => None) (lit "/srv/web/mts/js/app.js") [1; 2; 3]).
Proof.
  refine (proj2 (static_exact (fun _ => false) demo_files (fun _ => None) demo_server (lit "/srv") (lit "/") (lit "web/mts")
    (lit "/") (lit "/srv/web/mts") eq_refl _) (demo_get (lit "/js/app.js")) [lit "js"; lit "app.js"] [1; 2; 3] _ _ _ _ _ _ _).
  - by vm_compute.
  - done.
  - done.
  - done.
  - apply (bool_decide_unpack _). by vm_compute.
  - by vm_compute.
  - done.
  - by vm_compute.
Defined.

Example traversal_refused :
  serve_static (fun _ => false) demo_files (fun _ => None) (lit "/", lit "/srv/web/mts") (demo_get (lit "/%2e%2e/secret")) = Some not_found.
Proof. by vm_compute. Qed.

(** The prefix is compared as text: with a mount at [/static], the path [/staticjs/app.js] is
    taken for [js/app.js] in it. *)
Example prefix_without_separator :
  serve_static (fun _ => false) demo_files (fun _ => None) (lit "/static", lit "/srv/web/mts") (demo_get (lit "/staticjs/app.js"))
  = Some (file_response (fun _ => None) (lit "/srv/web/mts/js/app.js") [1; 2; 3]).
Proof. by vm_compute. Qed.

(** ** Requests on the wire *)

Lemma find_skip p x : 13 ∉ p -> find_sub blank_line (p ++ x) = Nat.add (length p) <$> find_sub blank_line x.
Proof.
  induction p as [|c p IH]; [by intros _; cbn; destruct (find_sub _ x)|].
  intros [Hc Hp]%not_elem_of_cons. cbn [app find_sub].
  change (is_prefix blank_line (c :: p ++ x)) with ((13 =? c) && is_prefix [10; 13; 10] (p ++ x)).
  rewrite (proj2 (Z.eqb_neq 13 c)) by congruence. cbn [andb]. rewrite IH by done. by destruct (find_sub _ x).
Qed.

Lemma find_after_crlf z x : z <> 13 ->
  find_sub blank_line (13 :: 10 :: z :: x) = S <$> (S <$> find_sub blank_line (z :: x)).
Proof.
  intros Hz. set (y := z :: x).
  assert (is_prefix blank_line (13 :: 10 :: y) = false) as E.
  { change (is_prefix blank_line (13 :: 10 :: y)) with ((13 =? z) && is_prefix [10] x).
    by rewrite (proj2 (Z.eqb_neq 13 z)) by congruence. }
  change (find_sub blank_line (13 :: 10 :: y)) with
    (if is_prefix blank_line (13 :: 10 :: y) then Some O else S <$> (S <$> find_sub blank_line y)).
  by rewrite E.
Qed.

(** A line of a head. *)
Definition line_ok (l : pystr) : Prop := l <> [] /\ 13 ∉ l.

(** A head of such lines ends at the first blank line, and splits into them. *)
Lemma find_blank ls rest : ls <> [] -> Forall line_ok ls ->
  find_sub blank_line (Ws.join Ws.crlf ls ++ blank_line ++ rest) = Some (length (Ws.join Ws.crlf ls)).
Proof.
  intros Hn H. induction H as [|l ls [Hl Hc] Hls IH]; [done|]. destruct ls as [|d ls].
  - cbn [Ws.join]. rewrite find_skip by done. cbn. by rewrite Nat.add_0_r.
  - change (Ws.join Ws.crlf (l :: d :: ls)) with (l ++ 13 :: 10 :: Ws.join Ws.crlf (d :: ls)).
    rewrite <- app_assoc, find_skip by done. cbn [app].
    assert (find_sub blank_line (13 :: 10 :: Ws.join Ws.crlf (d :: ls) ++ blank_line ++ rest) =
      S <$> (S <$> find_sub blank_line (Ws.join Ws.crlf (d :: ls) ++ blank_line ++ rest))) as ->.
    { apply Forall_cons in Hls as [[Hd Hd'] _]. destruct d as [|z d]; [done|].
      apply not_elem_of_cons in Hd' as [Hz _].
      assert (exists y, Ws.join Ws.crlf ((z :: d) :: ls) = z :: y) as [y ->] by (destruct ls; by eexists).
      apply find_after_crlf. congruence. }
    rewrite IH by done. cbn. f_equal. rewrite length_app. cbn. lia.
Qed.

Lemma find_crlf_none l : 13 ∉ l -> find_sub Ws.crlf l = None.
Proof.
  induction l as [|c l IH]; [done|]. intros [Hc Hl]%not_elem_of_cons. cbn [find_sub].
  change (is_prefix Ws.crlf (c :: l)) with ((13 =? c) && is_prefix [10] l).
  rewrite (proj2 (Z.eqb_neq 13 c)) by congruence. cbn [andb]. by rewrite IH.
Qed.

Lemma split_lines ls fuel : ls <> [] -> Forall line_ok ls -> (length ls <= fuel)%nat ->
  Ws.split_sub fuel Ws.crlf (Ws.join Ws.crlf ls) = ls.
Proof.
  intros Hn H. revert fuel. induction H as [|l ls [Hl Hc] Hls IH]; intros fuel Hf; [done|].
  destruct fuel as [|fuel]; [cbn in Hf; lia|]. destruct ls as [|d ls].
  - cbn. by rewrite find_crlf_none.
  - change (Ws.join Ws.crlf (l :: d :: ls)) with (l ++ Ws.crlf ++ Ws.join Ws.crlf (d :: ls)).
    rewrite Ws.split_line; [|by apply Forall_forall; intros x Hx ->]. rewrite IH; [done|done|cbn in *; lia].
Qed.

Lemma join_lines_length ls : Forall line_ok ls -> (length ls <= length (Ws.join Ws.crlf ls))%nat.
Proof.
  induction 1 as [|l ls [Hl Hc] Hls IH]; [done|]. destruct l as [|c l]; [done|].
  destruct ls as [|d ls]; [cbn; lia|].
  change (Ws.join Ws.crlf ((c :: l) :: d :: ls)) with ((c :: l) ++ Ws.crlf ++ Ws.join Ws.crlf (d :: ls)).
  rewrite !length_app. cbn in *. lia.
Qed.

Lemma split_crlf_join ls : ls <> [] -> Forall line_ok ls -> Ws.split_crlf (Ws.join Ws.crlf ls) = ls.
Proof. intros Hn H. by apply split_lines, join_lines_length. Qed.

Lemma break_at_app c k r : c ∉ k -> break_at (Z.eqb c) (k ++ c :: r) = (k, c :: r).
Proof.
  induction k as [|x k IH]; cbn; [by rewrite Z.eqb_refl|]. intros [Hx Hk]%not_elem_of_cons.
  by rewrite (proj2 (Z.eqb_neq c x)), IH by done.
Qed.

(** Header lines and what the reader makes of them. *)
Definition header_ok (kv : pystr * pystr) : Prop := (13 ∉ kv.1) /\ (58 ∉ kv.1) /\ 13 ∉ kv.2.
Definition take_header (d : list (pystr * pystr)) (kv : pystr * pystr) : list (pystr * pystr) :=
  dset (lower (strip kv.1)) (strip kv.2) d.

Lemma add_header_line d kv : header_ok kv -> add_header d (header_line kv) = take_header d kv.
Proof.
  destruct kv as [k v]. intros (_ & Hk & _). unfold add_header, header_line. cbn [fst snd].
  change (k ++ lit ": " ++ v) with (k ++ 58 :: 32 :: v). by rewrite break_at_app.
Qed.

Lemma add_header_lines d hs : Forall header_ok hs -> foldl add_header d (header_line <$> hs) = foldl take_header d hs.
Proof.
  intros H. revert d. induction H as [|kv hs Hkv _ IH]; intros d; [done|].
  cbn [fmap list_fmap foldl]. by rewrite add_header_line, IH.
Qed.

Lemma header_line_ok kv : header_ok kv -> line_ok (header_line kv).
Proof.
  destruct kv as [k v]. intros (Hk & _ & Hv). split; [by destruct k|]. unfold header_line. cbn [fst snd].
  rewrite !not_elem_of_app. split; [done|]. split; [apply (bool_decide_unpack _); by vm_compute|done].
Qed.

Definition first_line (m t : pystr) : pystr := m ++ 32 :: t ++ 32 :: lit "HTTP/1.1".
Definition request_head (m t : pystr) (hs : list (pystr * pystr)) : pystr :=
  Ws.join Ws.crlf (first_line m t :: (header_line <$> hs)).

Lemma head_lines_ok m t hs : 13 ∉ m -> 13 ∉ t -> Forall header_ok hs -> Forall line_ok (first_line m t :: (header_line <$> hs)).
Proof.
  intros Hm Ht Hh. constructor.
  - split; [by destruct m|]. unfold first_line. rewrite !not_elem_of_app, !not_elem_of_cons, !not_elem_of_app, !not_elem_of_cons.
    split_and!; try done. apply (bool_decide_unpack _); by vm_compute.
  - apply Forall_fmap. eapply Forall_impl; [exact Hh|]. apply header_line_ok.
Qed.

Section wire.
Context {St Hd : Type}.
Variable call : Hd -> Request -> St -> St * result (pystr * pystr) Response.
Variable netloc_ok : pystr -> bool.
Variable decimal : Z -> option Z.
Variable isdir : pystr -> bool.
Variable read_file : pystr -> option bytes.
Variable guess_type : pystr -> option pystr.

Abbreviation handle := (handle call netloc_ok decimal isdir read_file guess_type).
Abbreviation handle_loop := (handle_loop call netloc_ok decimal isdir read_file guess_type).
Abbreviation turn := (turn call netloc_ok decimal isdir read_file guess_type).
Abbreviation respond := (respond call isdir read_file guess_type).

(** A request as a client writes it, and as the server should understand it. *)
Inductive sent : bytes -> Request -> Prop :=
| Sent m t hs b p q n :
    13 ∉ m -> 32 ∉ m -> 13 ∉ t -> 32 ∉ t -> Forall header_ok hs ->
    zlen (request_head m t hs) + 4 <= MAX_HEADER_BYTES ->
    urlparse netloc_ok t = Some (p, q) ->
    content_length decimal (foldl take_header [] hs) = Some n -> zlen b = Z.max 0 (Z.min n MAX_BODY_BYTES) ->
    sent (request_head m t hs ++ blank_line ++ b)
      (mkRequest (upper m) t (unquote p) (first_values (parse_qsl q)) (foldl take_header [] hs) b).

(** The answers to requests, one after the other, until one closes or takes over the
    connection. *)
Fixpoint served (s : Server) (xs : list (bytes * Request)) (st : St) (c : Counts) : St * Counts * list bytes * Next :=
  match xs with
  | [] => (st, c, [], Close)
  | (_, r) :: xs =>
      match respond s r (concat xs.*1) st (count_request s c) with
      | (st, c, out, Continue _) => let '(st, c, out', n) := served s xs st c in (st, c, out ++ out', n)
      | x => x
      end
  end.

Lemma parse_sent m t hs p q : 13 ∉ m -> 32 ∉ m -> 13 ∉ t -> 32 ∉ t -> Forall header_ok hs ->
  urlparse netloc_ok t = Some (p, q) ->
  parse_request netloc_ok (request_head m t hs ++ blank_line) =
  Some (mkRequest (upper m) t (unquote p) (first_values (parse_qsl q)) (foldl take_header [] hs) []).
Proof.
  intros Hm Hm' Ht Ht' Hh Hu. pose proof (head_lines_ok m t hs Hm Ht Hh) as Hl. unfold parse_request, request_head.
  rewrite <- (app_nil_r blank_line) at 2. rewrite find_blank by done. cbn [mbind option_bind].
  rewrite take_app_length, split_crlf_join by done. unfold first_line.
  rewrite split_char_app, (split_char_none 32 m), split_char_app, (split_char_none 32 t) by done.
  rewrite (split_char_none 32 (lit "HTTP/1.1")) by (apply (bool_decide_unpack _); by vm_compute). cbn [app].
  change (is_prefix (lit "HTTP/") (lit "HTTP/1.1")) with true. cbv iota.
  rewrite Hu. cbn [mbind option_bind]. by rewrite add_header_lines.
Qed.

Lemma read_body_sent r b rest n : content_length decimal (headers r) = Some n -> body r = [] ->
  zlen b = Z.max 0 (Z.min n MAX_BODY_BYTES) -> take_body decimal r (b ++ rest) = Some (with_body r b, rest).
Proof.
  intros Hn Hb Hl. unfold take_body. rewrite Hn. cbn [mbind option_bind].
  assert (0 < MAX_BODY_BYTES) by done. destruct (Z.ltb_spec 0 n).
  - rewrite (proj2 (Z.ltb_ge _ _)) by (rewrite length_app; lia).
    assert (Z.to_nat (Z.min n MAX_BODY_BYTES) = length b) as -> by lia.
    by rewrite take_app_length, drop_app_length.
  - destruct b as [|z b]; [|cbn in Hl; lia]. destruct r; cbn in *. by subst.
Qed.

Lemma respond_rest s r rest rest' st c st' c' out :
  respond s r rest st c = (st', c', out, Continue rest') -> rest' = rest.
Proof.
  unfold Http.respond. destruct (wants_websocket s r); [done|]. destruct (dispatch_request _ _ _ _ _ _ _ _) as [[? ?] [resp|]]; [|done].
  destruct (render _ _ _ _ _); [|done]. destruct (keeps r resp); congruence.
Qed.

Lemma turn_sent s x r rest st c : sent x r ->
  turn s (x ++ rest) st c = respond s r rest st (count_request s c).
Proof.
  intros [m t hs b p q n Hm Hm' Ht Ht' Hh Hs Hu Hn Hl]. unfold Http.turn, read_head.
  pose proof (head_lines_ok m t hs Hm Ht Hh) as Hlines.
  rewrite <- !app_assoc. unfold request_head at 1. rewrite find_blank by done. fold (request_head m t hs).
  rewrite (proj2 (Z.ltb_ge _ _)) by (unfold STREAM_LIMIT, MAX_HEADER_BYTES in *; lia).
  assert (length (request_head m t hs ++ blank_line) = (length (request_head m t hs) + 4)%nat) as L by (by rewrite length_app).
  rewrite app_assoc, <- L, take_app_length, drop_app_length.
  rewrite (proj2 (Z.ltb_ge _ _)) by lia. rewrite (parse_sent m t hs p q) by done.
  by rewrite (read_body_sent _ b rest n).
Qed.

(** The server understands a connection as the client meant it.  When the bytes sent are
    requests one after the other, each with a head within the limit and the body its
    length announces (its first 4 MiB: what lies beyond is read as the next request),
    then every request is answered once, in order, with the fields the client gave, until
    an answer closes the connection or a WebSocket handler takes it over. *)
Theorem connection_understood s xs st c : Forall (fun x => sent x.1 x.2) xs ->
  handle s (concat xs.*1) st c = Some (served s xs st c).
Proof.
  unfold Http.handle. generalize (Nat.lt_succ_diag_r (length (concat xs.*1))).
  generalize (S (length (concat xs.*1))). intros fuel Hf H. revert fuel st c Hf.
  induction H as [|[x r] xs Hx _ IH]; intros fuel st c Hf; (destruct fuel as [|fuel]; [lia|]); cbn [Http.handle_loop].
  - done.
  - change (concat ((x, r) :: xs).*1) with (x ++ concat xs.*1) in *. cbn [fst snd] in Hx.
    rewrite (turn_sent s x r) by done. cbn [served].
    destruct (respond _ _ _ _ _) as [[[st1 c1] out] [|rest|]] eqn:E; [done| |done].
    apply respond_rest in E as ->. rewrite IH.
    + cbn [mbind option_bind]. by destruct (served s xs st1 c1) as [[[? ?] ?] ?].
    + rewrite length_app in Hf. destruct Hx. rewrite !length_app in Hf. cbn in Hf. lia.
Qed.
End wire.

(** ** Responses on the wire *)

Definition ascii_line (s : pystr) : Prop := Forall (fun c => 0 <= c < 128 /\ c <> 13) s.

(** Header fields a response may be given. *)
Definition field_ok (kv : pystr * pystr) : Prop :=
  ascii_line kv.1 /\ (58 ∉ kv.1) /\ ascii_line kv.2 /\ lower (strip kv.1) <> lit "content-length".

Definition fields (r : Response) (keep cors : bool) (extra : list (pystr * pystr)) : list (pystr * pystr) :=
  [(lit "Content-Type", content_type r); (lit "Content-Length", str_int (zlen (r_body r)));
   (lit "Connection", if keep then lit "keep-alive" else lit "close")]
  ++ (if cors then [(lit "Access-Control-Allow-Origin", lit "*")] else []) ++ merge extra (r_headers r).

Definition status_line (st : Z) : pystr :=
  lit "HTTP/1.1 " ++ str_int st ++ lit " " ++ default (lit "OK") (dget st STATUS_TEXT).

Lemma head_lines_fields r keep cors extra :
  head_lines r keep cors extra = status_line (status r) :: (header_line <$> fields r keep cors extra).
Proof.
  unfold head_lines, fields, status_line. rewrite !fmap_app. destruct keep, cors; reflexivity.
Qed.

Definition ascii_line_b (s : pystr) : bool := forallb (fun c => (0 <=? c) && (c <? 128) && negb (c =? 13)) s.
Lemma ascii_line_by s : ascii_line_b s = true -> ascii_line s.
Proof.
  unfold ascii_line_b, ascii_line. rewrite forallb_forall. intros H. apply Forall_forall. intros c Hc%list_elem_of_In.
  specialize (H c Hc). lia.
Qed.

Lemma ascii_str_int n : ascii_line (str_int n).
Proof.
  eapply Forall_impl; [apply str_int_chars|]. intros c H. cbn in H. unfold is_digit in H. lia.
Qed.

Lemma ascii_no_cr s : ascii_line s -> 13 ∉ s.
Proof. intros H Hin. pose proof (proj1 (Forall_forall _ _) H 13 Hin) as E. cbn in E. lia. Qed.

Lemma ascii_app a b : ascii_line a -> ascii_line b -> ascii_line (a ++ b).
Proof. intros. by apply Forall_app. Qed.

Lemma ascii_status_line st : ascii_line (status_line st).
Proof.
  unfold status_line. repeat apply ascii_app; try (by apply ascii_line_by); [apply ascii_str_int|].
  destruct (dget st STATUS_TEXT) as [t|] eqn:E; [|by apply ascii_line_by]. apply dget_In in E.
  assert (Forall (fun kv => ascii_line_b kv.2 = true) STATUS_TEXT) as H by (by repeat constructor).
  by apply ascii_line_by, (proj1 (Forall_forall _ _) H (st, t)).
Qed.

Lemma field_header_ok kv : field_ok kv -> header_ok kv.
Proof. intros (H1 & H2 & H3 & _). split_and!; [by apply ascii_no_cr|done|by apply ascii_no_cr]. Qed.

Lemma ascii_header_line kv : field_ok kv -> ascii_line (header_line kv).
Proof. intros (H1 & _ & H3 & _). unfold header_line. repeat apply ascii_app; [done|by apply ascii_line_by|done]. Qed.

Lemma ascii_join ls : Forall ascii_line ls -> Forall (fun c => 0 <= c < 128) (Ws.join Ws.crlf ls).
Proof.
  induction 1 as [|l ls Hl Hls IH]; [constructor|].
  assert (Forall (fun c => 0 <= c < 128) l) as Hl' by (eapply Forall_impl; [exact Hl|]; cbn; lia).
  destruct ls as [|d ls]; [done|]. cbn [Ws.join]. apply Forall_app. split; [done|].
  apply Forall_app. split; [|exact IH]. repeat constructor; lia.
Qed.

Lemma dget_take_headers k hs : forall d, Forall (fun kv => lower (strip kv.1) <> k) hs ->
  dget k (foldl take_header d hs) = dget k d.
Proof.
  induction hs as [|kv hs IH]; intros d H; [done|]. apply Forall_cons in H as [Hkv H]. cbn [foldl].
  rewrite IH by done. unfold take_header. by rewrite dget_dset_ne by congruence.
Qed.

Lemma strip_solid s : Forall (fun c => is_space c = false) s -> strip s = s.
Proof.
  intros H. unfold strip. assert (lstrip_by is_space s = s) as ->.
  { destruct H as [|c s Hc _]; [done|]. cbn. by rewrite Hc. }
  destruct s as [|c s _] using rev_ind; [done|]. apply rstrip_by_last.
  by apply Forall_app in H as [_ [? _]%Forall_cons].
Qed.

Lemma strip_str_int n : strip (str_int n) = str_int n.
Proof.
  apply strip_solid. eapply Forall_impl; [apply str_int_chars|]. intros c H. cbn in H.
  assert (0 <= c < 58) as Hc by (unfold is_digit in H; lia).
  assert ((negb (is_space c) || negb ((c =? 45) || is_digit c)) = true) as E
    by (apply (forall_below (fun c => negb (is_space c) || negb ((c =? 45) || is_digit c)) 58); [by vm_compute|lia]).
  destruct (is_space c); [|done]. exfalso. cbn [negb orb] in E.
  destruct H as [-> | H]; [done|]. by rewrite H, orb_true_r in E.
Qed.

(** A response is framed right.  When its fields are ASCII text without line breaks and
    none is a second length, what [render] writes has one head up to the first blank
    line, the body is exactly what follows it (nothing for HEAD), and a reader that takes the head apart the way
    the server itself does finds the body's length in bytes, for HEAD too. *)
Theorem response_framed r keep head_only cors extra decimal :
  Forall field_ok (merge extra (r_headers r)) -> ascii_line (content_type r) -> zlen (r_body r) < 2 ^ 63 ->
  exists out i, render r keep head_only cors extra = Some out /\ find_sub blank_line out = Some i /\
    drop (i + 4) out = (if head_only then [] else r_body r) /\
    content_length decimal (foldl add_header [] (tail (Ws.split_crlf (take i out)))) = Some (zlen (r_body r)).
Proof.
  intros Hf Hc Hb.
  assert (Forall header_ok (fields r keep cors extra) /\ Forall ascii_line (header_line <$> fields r keep cors extra)) as [Hh Ha].
  { assert (forall k v, ascii_line_b k && negb (bool_decide (58 ∈ k)) = true -> ascii_line v ->
      header_ok (k, v) /\ ascii_line (header_line (k, v))) as F.
    { intros k v [Hk Hk']%andb_true_iff Hv. apply ascii_line_by in Hk. apply negb_true_iff, bool_decide_eq_false in Hk'.
      split; [split_and!; cbn; [by apply ascii_no_cr|done|by apply ascii_no_cr]|].
      unfold header_line. repeat apply ascii_app; [done|by apply ascii_line_by|done]. }
    assert (Forall (fun kv => header_ok kv /\ ascii_line (header_line kv)) (fields r keep cors extra)) as G.
    { repeat apply Forall_app_2.
      - apply Forall_cons; split; [by apply F; [by vm_compute|]|].
        apply Forall_cons; split; [by apply F; [by vm_compute|apply ascii_str_int]|].
        apply Forall_singleton, F; [by vm_compute|]. by destruct keep; apply ascii_line_by.
      - destruct cors; [|constructor]. apply Forall_singleton, F; [by vm_compute|by apply ascii_line_by].
      - eapply Forall_impl; [exact Hf|]. intros kv Hkv. by split; [apply field_header_ok|apply ascii_header_line]. }
    split; [eapply Forall_impl; [exact G|by intros ? []]|]. apply Forall_fmap.
    eapply Forall_impl; [exact G|by intros ? []]. }
  pose proof (ascii_status_line (status r)) as Hs.
  set (ls := status_line (status r) :: (header_line <$> fields r keep cors extra)).
  assert (Forall line_ok ls) as Hls.
  { constructor; [split; [done|by apply ascii_no_cr]|]. apply Forall_fmap.
    eapply Forall_impl; [exact Hh|]. apply header_line_ok. }
  assert (utf8_encode (Ws.join Ws.crlf ls ++ Ws.crlf ++ Ws.crlf) = Some (Ws.join Ws.crlf ls ++ blank_line)) as E.
  { apply Ws.utf8_ascii, Forall_app. split; [apply ascii_join; by constructor|repeat constructor; lia]. }
  exists (Ws.join Ws.crlf ls ++ blank_line ++ (if head_only then [] else r_body r)), (length (Ws.join Ws.crlf ls)).
  split_and!.
  - unfold render. rewrite head_lines_fields. fold ls. rewrite E. cbn [mbind option_bind].
    destruct head_only; [by rewrite app_nil_r|by rewrite <- app_assoc].
  - by apply find_blank.
  - rewrite app_assoc. apply drop_app_length'. by rewrite length_app.
  - rewrite take_app_length, split_crlf_join by done. unfold ls. cbn [tail]. rewrite add_header_lines by done.
    unfold content_length.
    assert (dget (lit "content-length") (foldl take_header [] (fields r keep cors extra)) = Some (str_int (zlen (r_body r)))) as ->.
    { unfold fields. rewrite !foldl_app, dget_take_headers, dget_take_headers.
      - cbn [foldl]. unfold take_header. cbn [fst snd]. rewrite dget_dset_ne by done.
        change (lower (strip (lit "Content-Length"))) with (lit "content-length"). by rewrite dget_dset_eq, strip_str_int.
      - destruct cors; by repeat constructor.
      - eapply Forall_impl; [exact Hf|]. by intros ? (_ & _ & _ & ?). }
    destruct (str_int (zlen (r_body r))) as [|z t] eqn:Ed.
    + pose proof (py_int_str_int (fun _ => None) (zlen (r_body r))) as P. rewrite Ed in P.
      discriminate P; [lia|]. apply short_int. lia.
    + rewrite <- Ed. apply py_int_str_int; [lia|]. apply short_int. lia.
Qed.

(** ** Examples *)

Definition demo_response (st : Z) (b : bytes) : Response := mkResponse st b TEXT [(lit "X-From", lit "desk")].

Lemma response_framed_witness : exists out i,
  render (demo_response 401 (lit "no")) true false true [(lit "Cache-Control", lit "no-store")] = Some out /\
  find_sub blank_line out = Some i /\ drop (i + 4) out = lit "no" /\
  content_length (fun _ => None) (foldl add_header [] (tail (Ws.split_crlf (take i out)))) = Some 2.
Proof.
  refine (response_framed (demo_response 401 (lit "no")) true false true [(lit "Cache-Control", lit "no-store")] (fun _ => None) _ _ _).
  - repeat constructor; try done; by apply (bool_decide_unpack _); vm_compute.
  - by apply ascii_line_by.
  - done.
Defined.

(** A status the table does not know is sent with the reason [OK]. *)
Example unauthorized_says_ok : take 15 (status_line 401) = lit "HTTP/1.1 401 OK".
Proof. by vm_compute. Qed.

(** A server with a health check and an echo that counts its calls. *)
Definition demo_call (h : pystr) (r : Request) (n : Z) : Z * result (pystr * pystr) Response :=
  if bool_decide (h = lit "echo") then (n + 1, Ok (demo_response 200 (body r)))
  else (n, Ok (demo_response 200 (lit "fine"))).
Definition demo_echo : Server (Hd := pystr) := route demo_server (lit "post") (lit "/echo") (lit "echo").

Definition demo_requests : list (bytes * Request) :=
  [(request_head (lit "POST") (lit "/echo") [(lit "Content-Length", lit "2")] ++ blank_line ++ lit "hi",
    mkRequest (lit "POST") (lit "/echo") (lit "/echo") [] [(lit "content-length", lit "2")] (lit "hi"));
   (request_head (lit "get") (lit "/healthz?x=1") [(lit "Connection", lit "Close")] ++ blank_line ++ [],
    mkRequest (lit "GET") (lit "/healthz?x=1") (lit "/healthz") [(lit "x", lit "1")] [(lit "connection", lit "Close")] [])].

Lemma demo_sent : Forall (fun x => sent (fun _ => true) (fun _ => None) x.1 x.2) demo_requests.
Proof.
  repeat apply Forall_cons_2; [| |constructor].
  - refine (Sent _ _ (lit "POST") (lit "/echo") [(lit "Content-Length", lit "2")] (lit "hi") (lit "/echo") [] 2 _ _ _ _ _ _ _ _ _);
      try (by vm_compute); by apply (bool_decide_unpack _); vm_compute.
  - refine (Sent _ _ (lit "get") (lit "/healthz?x=1") [(lit "Connection", lit "Close")] [] (lit "/healthz") (lit "x=1") 0 _ _ _ _ _ _ _ _ _);
      try (by vm_compute); by apply (bool_decide_unpack _); vm_compute.
Qed.

Definition answers (o : option (Z * Counts * list bytes * Next)) : option (Z * Z * nat) :=
  '(n, c, out, _) ← o; Some (n, requests c, length out).

Lemma connection_understood_witness :
  let serve := served demo_call (fun _ => false) demo_files (fun _ => None) demo_echo demo_requests 0 (mkCounts 0 0 0) in
  handle demo_call (fun _ => true) (fun _ => None) (fun _ => false) demo_files (fun _ => None) demo_echo
    (concat demo_requests.*1) 0 (mkCounts 0 0 0) = Some serve /\ answers (Some serve) = Some (1, 2, 2%nat).
Proof.
  split; [|by vm_compute].
  refine (connection_understood demo_call (fun _ => true) (fun _ => None) (fun _ => false) demo_files (fun _ => None) demo_echo
    demo_requests 0 (mkCounts 0 0 0) demo_sent).
Defined.

(** A length that is no number closes the connection without an answer; a chunked body is
    left in the stream, where it is taken for the next request and refused. *)
Definition serve_text (buf : bytes) :=
  answers (handle demo_call (fun _ => true) (fun _ => None) (fun _ => false) demo_files (fun _ => None) demo_echo buf 0 (mkCounts 0 0 0)).
Example bad_length_unanswered :
  serve_text (request_head (lit "POST") (lit "/echo") [(lit "Content-Length", lit "two")] ++ blank_line) = Some (0, 1, 0%nat).
Proof. by vm_compute. Qed.
Example chunked_body_is_a_request :
  serve_text (request_head (lit "POST") (lit "/echo") [(lit "Transfer-Encoding", lit "chunked")] ++ blank_line ++
              lit "2" ++ Ws.crlf ++ lit "hi" ++ Ws.crlf ++ lit "0" ++ blank_line) = Some (1, 1, 2%nat).
Proof. by vm_compute. Qed.

End Http.
