(* ===== verification/Quality.v ===== *)
(** * Quality checks on the data being distributed (src/src/mdfeed/quality.py and
    src/src/mdfeed/services/quality.py)

    Five checks look at trades, quotes and bars and report events; the monitor runs them,
    and the service feeds it the frames of the bus and stores the events.  An event's text is
    left out.  A list that is sorted holds no NaN (with one, Python's order is an accident of
    its algorithm). *)

From S2P Require Import Prelude PyStr PyFloat Dict Models Protocol.

Module Quality.
Import Models.Models.

Inductive Severity := WARNING | CRITICAL.
Inductive CheckName := price_jump | quote_sanity | stale_value | bar_integrity | cross_venue.
#[export] Instance severity_eq_dec : EqDecision Severity.
Proof. solve_decision. Defined.
#[export] Instance check_name_eq_dec : EqDecision CheckName.
Proof. solve_decision. Defined.

Record QualityEvent := mkEvent
  { ts_ns : Z; ev_check : CheckName; severity : Severity; ev_venue : pystr; ev_symbol : pystr; value : float }.

Definition fabs (x : float) : float := SFabs x.
Definition num (z : Z) : float := of_int z.

(** [f"{venue}:{symbol}"]. *)
Definition key_of (venue symbol : pystr) : pystr := venue ++ 58 :: symbol.

(** The upper median, [sorted(l)[len(l) // 2]], of a list that is not empty. *)
Definition median (l : list float) : float := nth (length l / 2) (fsorted l) S754_nan.

(** ** Price jumps *)

Record JumpParams := mkJumpParams { abs_pct : float; sigma : float; window : nat; max_gap_s : float }.

Record PriceJumpCheck := mkJump
  { last_ : gmap pystr (float * Z); moves : gmap pystr (list float);
    ref_resets : Z; ref_resets_by_venue : gmap pystr Z }.
Definition new_jump : PriceJumpCheck := mkJump ∅ ∅ 0 ∅.

(** [deque(maxlen=n).append]. *)
Definition push_max {A} (n : nat) (l : list A) (x : A) : list A :=
  drop (length l + 1 - n) (l ++ [x]).

Definition gap_of (t1 t0 : Z) : float := fdiv (num (Z.abs (t1 - t0))) (num 1000000000).
Definition pct_of (price prev : float) : float := fmul (fdiv (fabs (fsub price prev)) prev) (num 100).

(** Beyond [sigma] times the usual move, and beyond half a percent. *)
Definition unusual (p : JumpParams) (ms : list float) (pct : float) : bool :=
  (16 <=? length ms)%nat &&
  let typical := median ms in
  truthy typical && fgt typical (num 0) && fgt pct (fmax (fmul typical (sigma p)) (int_div 1 2)).

Definition positive (x : float) : bool := negb (fle x (num 0)).

Definition jump_check (p : JumpParams) (c : PriceJumpCheck) (v s : pystr) (price : float) (ts : Z)
    : PriceJumpCheck * option QualityEvent :=
  let key := key_of v s in
  let prev := last_ c !! key in
  let c1 := mkJump (<[key := (price, ts)]> (last_ c)) (moves c) (ref_resets c) (ref_resets_by_venue c) in
  match prev with
  | None => (c1, None)
  | Some (prev_px, prev_ts) =>
      if negb (positive prev_px) || negb (positive price) then (c1, None)
      else if fgt (gap_of ts prev_ts) (max_gap_s p) then
        let c2 := mkJump (last_ c1) (delete key (moves c)) (ref_resets c + 1)
                    (<[v := default 0 (ref_resets_by_venue c !! v) + 1]> (ref_resets_by_venue c)) in
        let pct := pct_of price prev_px in
        (c2, if fle (abs_pct p) pct then Some (mkEvent ts price_jump WARNING v s pct) else None)
      else
        let pct := pct_of price prev_px in
        let ms := default [] (moves c !! key) in
        let c2 := mkJump (last_ c1) (<[key := push_max (window p) ms pct]> (moves c))
                    (ref_resets c) (ref_resets_by_venue c) in
        (c2, if fle (abs_pct p) pct then Some (mkEvent ts price_jump CRITICAL v s pct)
             else if unusual p ms pct then Some (mkEvent ts price_jump WARNING v s pct)
             else None)
  end.

(** ** Quotes *)

Definition quote_check (max_spread_bp : float) (v s : pystr) (bid ask : float) (ts : Z) : option QualityEvent :=
  if fle bid (num 0) || fle ask (num 0) then None
  else if fgt bid ask then
    Some (mkEvent ts quote_sanity CRITICAL v s (fmul (fdiv (fsub bid ask) ask) (num 10000)))
  else
    let mid := fdiv (fadd bid ask) (num 2) in
    let spread_bp := fmul (fdiv (fsub ask bid) mid) (num 10000) in
    if fgt spread_bp max_spread_bp then Some (mkEvent ts quote_sanity WARNING v s spread_bp) else None.

(** ** Repeated records *)

Record StaleParams := mkStaleParams { after_s : float; min_updates : Z }.

(** The record and where its run began: the wall clock, and how many there were. *)
Record StaleValueCheck := mkStale
  { state : gmap pystr ((float * Z) * float * Z); fired : gset pystr }.
Definition new_stale : StaleValueCheck := mkStale ∅ ∅.

(** [==] on a price and a time: NaN is not equal to itself. *)
Definition same_record (a b : float * Z) : bool := feq a.1 b.1 && (a.2 =? b.2).

Definition stale_check (p : StaleParams) (c : StaleValueCheck) (v s : pystr) (price : float) (ts : Z) (now : float)
    : StaleValueCheck * option QualityEvent :=
  let key := key_of v s in
  let ident := (price, ts) in
  let fresh := (mkStale (<[key := (ident, now, 1)]> (state c)) (fired c ∖ {[key]}), None) in
  match state c !! key with
  | None => fresh
  | Some (ident0, since, count) =>
      if negb (same_record ident0 ident) then fresh
      else
        let st := <[key := (ident, since, count + 1)]> (state c) in
        let held := fsub now since in
        if fle (after_s p) held && (min_updates p <=? count + 1) && negb (bool_decide (key ∈ fired c)) then
          (mkStale st ({[key]} ∪ fired c), Some (mkEvent ts stale_value WARNING v s held))
        else (mkStale st (fired c), None)
  end.

(** ** Bars *)

Definition bar_bad (o h l c : float) : bool :=
  fgt l o || fgt l c || flt h o || flt h c || flt h l.
Definition bar_check (v s : pystr) (o h l c : float) (ts : Z) : option QualityEvent :=
  if bar_bad o h l c then Some (mkEvent ts bar_integrity CRITICAL v s (num 0)) else None.

(** ** The same asset on two venues *)

Definition PAIRS : list (pystr * pystr * pystr) :=
  [(lit "BTC", lit "UPBIT:KRW-BTC", lit "BINANCE:BTCUSDT"); (lit "ETH", lit "UPBIT:KRW-ETH", lit "BINANCE:ETHUSDT");
   (lit "SOL", lit "UPBIT:KRW-SOL", lit "BINANCE:SOLUSDT"); (lit "XRP", lit "UPBIT:KRW-XRP", lit "BINANCE:XRPUSDT")].

Record CrossParams := mkCrossParams { divergence_pct : float; min_assets : nat }.
Record CrossVenueCheck := mkCross
  { prices : gmap pystr float; implied : list (pystr * float); last_fire : option float }.
Definition new_cross : CrossVenueCheck := mkCross ∅ [] None.

Definition observe (c : CrossVenueCheck) (v s : pystr) (price : float) : CrossVenueCheck :=
  mkCross (<[key_of v s := price]> (prices c)) (implied c) (last_fire c).

Definition implied_fx (c : CrossVenueCheck) : list (pystr * float) :=
  omap (fun '(asset, krw, usd) =>
    match prices c !! krw, prices c !! usd with
    | Some k, Some u => if truthy k && truthy u && fgt u (num 0) then Some (asset, fdiv k u) else None
    | _, _ => None
    end) PAIRS.

(** The asset furthest from the middle, by percent. *)
Definition worst_of (mid : float) (fx : list (pystr * float)) : option pystr * float :=
  foldl (fun '(wa, wd) '(asset, v) =>
    let dev := fmul (fdiv (fabs (fsub v mid)) mid) (num 100) in
    if fgt dev wd then (Some asset, dev) else (wa, wd)) (None, num 0) fx.

Definition seconds_of (ts : Z) : float := fdiv (num ts) (num 1000000000).

Definition cross_check (p : CrossParams) (c : CrossVenueCheck) (ts : Z) : CrossVenueCheck * option QualityEvent :=
  let fx := implied_fx c in
  let c := mkCross (prices c) fx (last_fire c) in
  if (length fx <? min_assets p)%nat then (c, None)
  else
    let mid := median fx.*2 in
    if fle mid (num 0) then (c, None)
    else
      let '(worst_asset, worst_dev) := worst_of mid fx in
      if flt worst_dev (divergence_pct p) then (c, None)
      else
        let now := seconds_of ts in
        if match last_fire c with Some t => flt (fsub now t) (num 60) | None => false end then (c, None)
        else (mkCross (prices c) fx (Some now),
              Some (mkEvent ts cross_venue WARNING (lit "CROSS") (default (lit "?") worst_asset) worst_dev)).

(** ** The monitor *)

Record Params := mkParams
  { p_jump : JumpParams; p_spread : float; p_stale : StaleParams; p_cross : CrossParams }.
(** The constructors' defaults, which are also the configuration's. *)
Definition default_params : Params :=
  mkParams (mkJumpParams (num 10) (num 8) 64 (num 300)) (num 1000) (mkStaleParams (num 120) 20) (mkCrossParams (num 3) 3).

Record QualityMonitor := mkMonitor
  { jump : PriceJumpCheck; stale : StaleValueCheck; cross : CrossVenueCheck;
    counts : list ((CheckName * Severity) * Z); recent : list QualityEvent; checked : Z }.
Definition new_monitor : QualityMonitor := mkMonitor new_jump new_stale new_cross [] [] 0.

Definition record (m : QualityMonitor) (ev : option QualityEvent) : QualityMonitor :=
  match ev with
  | None => m
  | Some e =>
      let k := (ev_check e, severity e) in
      mkMonitor (jump m) (stale m) (cross m) (dset k (default 0 (dget k (counts m)) + 1) (counts m))
        (push_max 100 (recent m) e) (checked m)
  end.
Definition listed (ev : option QualityEvent) : list QualityEvent := match ev with Some e => [e] | None => [] end.

Definition set_jump (m : QualityMonitor) j := mkMonitor j (stale m) (cross m) (counts m) (recent m) (checked m).
Definition set_stale (m : QualityMonitor) x := mkMonitor (jump m) x (cross m) (counts m) (recent m) (checked m).
Definition set_cross (m : QualityMonitor) x := mkMonitor (jump m) (stale m) x (counts m) (recent m) (checked m).
Definition count_checked (m : QualityMonitor) := mkMonitor (jump m) (stale m) (cross m) (counts m) (recent m) (checked m + 1).

Definition on_trade (p : Params) (m : QualityMonitor) (v s : pystr) (price : float) (ts : Z) (now : float)
    : QualityMonitor * list QualityEvent :=
  let m := count_checked m in
  let m := set_cross m (observe (cross m) v s price) in
  let '(j, e1) := jump_check (p_jump p) (jump m) v s price ts in
  let m := record (set_jump m j) e1 in
  let '(x, e2) := stale_check (p_stale p) (stale m) v s price ts now in
  let m := record (set_stale m x) e2 in
  let '(x, e3) := cross_check (p_cross p) (cross m) ts in
  let m := record (set_cross m x) e3 in
  (m, listed e1 ++ listed e2 ++ listed e3).

Definition on_quote (p : Params) (m : QualityMonitor) (v s : pystr) (bid ask : float) (ts : Z)
    : QualityMonitor * list QualityEvent :=
  let e := quote_check (p_spread p) v s bid ask ts in (record (count_checked m) e, listed e).

Definition on_bar (m : QualityMonitor) (v s : pystr) (o h l c : float) (ts : Z) : QualityMonitor * list QualityEvent :=
  let e := bar_check v s o h l c ts in (record m e, listed e).

(** The totals of [report]. *)
Definition total (sv : Severity) (m : QualityMonitor) : Z :=
  foldr Z.add 0 ((fun kv => if bool_decide (kv.1.2 = sv) then kv.2 else 0) <$> counts m).

(** ** The service *)

(** A row of [quality_events], without the text. *)
Record EventRow := mkRow
  { qr_ts : Z; qr_check : CheckName; qr_severity : Severity; qr_venue : pystr; qr_symbol : pystr; qr_value : float }.
Definition row_of (e : QualityEvent) : EventRow :=
  mkRow (ts_ns e / 1000) (ev_check e) (severity e) (ev_venue e) (ev_symbol e) (value e).

Record QualityService := mkService
  { monitor : QualityMonitor; frames_in : Z; last_frame_at : float; upstream_ok : bool;
    quality_events_total : list ((CheckName * Severity) * Z); pending : list EventRow; has_storage : bool }.

(** [declare_counters] makes the ten counters with value 0. *)
Definition declared : list ((CheckName * Severity) * Z) :=
  concat ((fun c => (fun s => ((c, s), 0)) <$> [CRITICAL; WARNING])
          <$> [price_jump; quote_sanity; stale_value; bar_integrity; cross_venue]).
Definition new_service (storage : bool) : QualityService := mkService new_monitor 0 (num 0) false declared [] storage.

Definition on_event (q : QualityService) (e : QualityEvent) : QualityService :=
  let k := (ev_check e, severity e) in
  mkService (monitor q) (frames_in q) (last_frame_at q) (upstream_ok q)
    (dset k (default 0 (dget k (quality_events_total q)) + 1) (quality_events_total q))
    (pending q ++ [row_of e]) (has_storage q).

(** What the monitor makes of a frame; an error of [unpack] cannot happen, the length was
    checked. *)
Definition inspect (p : Params) (m : QualityMonitor) (f : Protocol.Frame) (now : float) : QualityMonitor * list QualityEvent :=
  let payload := Protocol.payload f in
  if (Protocol.msg_type f =? MSG_TRADE) && (TRADE_SIZE <=? length payload)%nat then
    match unpack payload with
    | Ok t => on_trade p m (venue t) (symbol t) (price t) (ts_event_ns t) now
    | Err _ => (m, [])
    end
  else if (Protocol.msg_type f =? MSG_BOOK) && (BOOK_SIZE <=? length payload)%nat then
    match book_unpack payload with
    | Ok b => on_quote p m (bk_venue b) (bk_symbol b) (bid b) (ask b) (bk_ts_event_ns b)
    | Err _ => (m, [])
    end
  else (m, []).

(** [_ingest]. *)
Definition ingest (p : Params) (q : QualityService) (f : Protocol.Frame) (now : float) : QualityService :=
  let '(m, events) := inspect p (monitor q) f now in
  foldl on_event (mkService m (frames_in q + 1) now true (quality_events_total q) (pending q) (has_storage q)) events.

(** [_flush], the storage raising or not: the rows handed over, and the ones that were
    written. *)
Definition flush (q : QualityService) (raises : bool) : QualityService * list EventRow * list EventRow :=
  if bool_decide (pending q = []) || negb (has_storage q) then (q, [], [])
  else (mkService (monitor q) (frames_in q) (last_frame_at q) (upstream_ok q) (quality_events_total q) [] (has_storage q),
        pending q, if raises then [] else pending q).

(** ** Price jumps: the check against the history *)

Abbreviation Call := (pystr * pystr * float * Z)%type (only parsing).

Definition jump_step (p : JumpParams) (c : PriceJumpCheck) (x : Call) : PriceJumpCheck :=
  let '(v, s, price, ts) := x in (jump_check p c v s price ts).1.
Definition jump_run (p : JumpParams) (h : list Call) : PriceJumpCheck := foldl (jump_step p) new_jump h.

(** The prices and times a key has had. *)
Definition of_key (k : pystr) (h : list Call) : list (float * Z) :=
  omap (fun '(v, s, price, ts) => if bool_decide (key_of v s = k) then Some (price, ts) else None) h.

Definition pairs {A} (l : list A) : list (A * A) := zip l (tail l).
Definition comparable (ab : (float * Z) * (float * Z)) : bool := positive ab.1.1 && positive ab.2.1.
Definition far (p : JumpParams) (ab : (float * Z) * (float * Z)) : bool := fgt (gap_of ab.2.2 ab.1.2) (max_gap_s p).
Definition move (ab : (float * Z) * (float * Z)) : float := pct_of ab.2.1 ab.1.1.

(** What follows the last element with [f], and the last [n] elements. *)
Fixpoint after_last {A} (f : A -> bool) (l : list A) : list A :=
  match l with [] => [] | x :: l => if existsb f (x :: l) then after_last f l else x :: l end.
Definition last_n {A} (n : nat) (l : list A) : list A := drop (length l - n) l.

(** The moves a new one is measured against: of the steps of the key between positive
    prices, those since the last one over a gap, the newest [window] of them. *)
Definition recent_moves (p : JumpParams) (l : list (float * Z)) : list float :=
  last_n (window p) (move <$> after_last (far p) (List.filter comparable (pairs l))).

(** The event for a key with history [l]. *)
Definition jump_spec (p : JumpParams) (l : list (float * Z)) (v s : pystr) (price : float) (ts : Z) : option QualityEvent :=
  match last l with
  | None => None
  | Some prev =>
      let step := (prev, (price, ts)) in
      let event sv := Some (mkEvent ts price_jump sv v s (move step)) in
      if negb (comparable step) then None
      else if fle (abs_pct p) (move step) then event (if far p step then WARNING else CRITICAL)
      else if negb (far p step) && unusual p (recent_moves p l) (move step) then event WARNING
      else None
  end.

Lemma pairs_snoc {A} (l : list A) x : pairs (l ++ [x]) = pairs l ++ match last l with Some y => [(y, x)] | None => [] end.
Proof.
  unfold pairs. induction l as [|a l IH]; [done|]. destruct l as [|b l]; [done|].
  rewrite last_cons_cons. change (tail ((a :: b :: l) ++ [x])) with ((b :: l) ++ [x]).
  change (tail ((b :: l) ++ [x])) with (l ++ [x]) in IH. cbn [app zip zip_with tail] in *. by rewrite IH.
Qed.

Lemma after_last_snoc {A} (f : A -> bool) l x : after_last f (l ++ [x]) = if f x then [] else after_last f l ++ [x].
Proof.
  destruct (f x) eqn:Ex; induction l as [|a l IH]; cbn [app after_last existsb];
    rewrite ?existsb_app; cbn [existsb]; rewrite Ex, ?orb_false_r, ?orb_true_r; try done.
  rewrite IH. by destruct (f a || existsb f l).
Qed.

Lemma push_last_n {A} n (l : list A) x : push_max n (last_n n l) x = last_n n (l ++ [x]).
Proof.
  unfold push_max, last_n. rewrite !length_app, length_drop. cbn [length].
  destruct (decide (length l <= n)%nat).
  - replace (length l - n)%nat with O by lia. rewrite Nat.sub_0_r. done.
  - rewrite <- (drop_app_le l [x]) by lia. rewrite drop_drop. f_equal. lia.
Qed.

Lemma of_key_snoc k h v s price ts : of_key k (h ++ [(v, s, price, ts)]) =
  of_key k h ++ (if bool_decide (key_of v s = k) then [(price, ts)] else []).
Proof. unfold of_key. rewrite omap_app. cbn. by case_bool_decide. Qed.

Lemma filter_snoc {A} (f : A -> bool) l x : List.filter f (l ++ [x]) = List.filter f l ++ (if f x then [x] else []).
Proof. rewrite List.filter_app. cbn. by destruct (f x). Qed.

(** The check's two tables are what the history says. *)
Lemma jump_run_inv p h k :
  last_ (jump_run p h) !! k = last (of_key k h) /\
  default [] (moves (jump_run p h) !! k) = recent_moves p (of_key k h).
Proof.
  induction h as [|[[[v s] price] ts] h IH] using rev_ind; [done|].
  unfold jump_run in *. rewrite foldl_app. cbn [foldl jump_step]. set (c := foldl (jump_step p) new_jump h) in *.
  destruct IH as [IHl IHm]. rewrite of_key_snoc.
  assert (last_ (jump_check p c v s price ts).1 = <[key_of v s := (price, ts)]> (last_ c)) as El.
  { unfold jump_check. repeat case_match; done. }
  rewrite El. destruct (decide (key_of v s = k)) as [<-|Hk].
  - rewrite lookup_insert_eq, bool_decide_true, last_snoc by done. split; [done|].
    unfold recent_moves, jump_check. rewrite IHl, pairs_snoc. set (l := of_key _ h) in *.
    destruct (last l) as [[prev_px prev_ts]|] eqn:E; cbn [fst].
    2:{ rewrite app_nil_r. exact IHm. }
    rewrite filter_snoc. unfold comparable at 2. cbn [fst snd].
    rewrite <- negb_andb. destruct (positive prev_px && positive price); cbn [negb fst].
    2:{ rewrite app_nil_r. exact IHm. }
    rewrite after_last_snoc. unfold far at 1. cbn [fst snd].
    destruct (fgt (gap_of ts prev_ts) (max_gap_s p)); cbn [fst moves].
    + by rewrite lookup_delete_eq.
    + rewrite lookup_insert_eq. cbn [default from_option]. rewrite IHm. unfold recent_moves.
      by rewrite push_last_n, fmap_app.
  - rewrite lookup_insert_ne, bool_decide_false, app_nil_r by done. split; [done|]. rewrite <- IHm.
    unfold jump_check. repeat case_match; cbn [fst moves]; rewrite ?lookup_delete_ne, ?lookup_insert_ne by done; done.
Qed.

(** The price check says what it promises of the history.  After any trades of any
    instruments, what it reports of a trade is determined by the instrument's own history:
    nothing without a positive price before and now; CRITICAL for a move of at least
    [abs_pct] percent within [max_gap_s], WARNING for one over a longer gap; and WARNING
    for a smaller move that is unusual among the newest [window] moves since the last gap. *)
Theorem jump_exact p h v s price ts :
  (jump_check p (jump_run p h) v s price ts).2 = jump_spec p (of_key (key_of v s) h) v s price ts.
Proof.
  destruct (jump_run_inv p h (key_of v s)) as [El Em]. unfold jump_check, jump_spec. rewrite El.
  destruct (last _) as [[prev_px prev_ts]|]; [|done]. unfold comparable, far, move. cbn [fst snd].
  rewrite negb_andb. destruct (negb _ || negb _); [done|].
  destruct (fgt (gap_of ts prev_ts) (max_gap_s p)); cbn [snd negb andb]; [done|].
  rewrite Em. destruct (fle _ _); [done|]. by destruct (unusual _ _ _).
Qed.

(** ** Repeated records: the check against the history *)

Abbreviation StaleCall := (pystr * pystr * float * Z * float)%type (only parsing).

Definition stale_step (p : StaleParams) (c : StaleValueCheck) (x : StaleCall) : StaleValueCheck :=
  let '(v, s, price, ts, now) := x in (stale_check p c v s price ts now).1.
Definition stale_run (p : StaleParams) (h : list StaleCall) : StaleValueCheck := foldl (stale_step p) new_stale h.

(** The records of a key, with the clock readings when they came. *)
Definition records_of (k : pystr) (h : list StaleCall) : list ((float * Z) * float) :=
  omap (fun '(v, s, price, ts, now) => if bool_decide (key_of v s = k) then Some ((price, ts), now) else None) h.

(** The identical records at the end. *)
Fixpoint run_back (x : (float * Z) * float) (earlier : list ((float * Z) * float)) : list ((float * Z) * float) :=
  match earlier with
  | y :: earlier => if same_record y.1 x.1 then x :: run_back y earlier else [x]
  | [] => [x]
  end.
Definition run_of (l : list ((float * Z) * float)) : list ((float * Z) * float) :=
  match rev l with [] => [] | x :: earlier => rev (run_back x earlier) end.

Definition held_for (run : list ((float * Z) * float)) : float :=
  match head run, last run with Some (_, t0), Some (_, t1) => fsub t1 t0 | _, _ => num 0 end.

(** A repetition that has lasted long enough, in records and in time. *)
Definition due (p : StaleParams) (run : list ((float * Z) * float)) : bool :=
  (2 <=? length run)%nat && (min_updates p <=? zlen run) && fle (after_s p) (held_for run).

Definition shorter {A} (l : list A) : list (list A) := (fun n => take n l) <$> seq 0 (length l).

Definition stale_spec (p : StaleParams) (v s : pystr) (ts : Z) (run : list ((float * Z) * float)) : option QualityEvent :=
  if due p run && negb (existsb (due p) (shorter run))
  then Some (mkEvent ts stale_value WARNING v s (held_for run)) else None.

Lemma run_of_snoc l x : run_of (l ++ [x]) =
  match last l with
  | Some y => if same_record y.1 x.1 then run_of l ++ [x] else [x]
  | None => [x]
  end.
Proof.
  unfold run_of. rewrite rev_app_distr. cbn [rev app].
  destruct l as [|y l _] using rev_ind; [done|]. rewrite last_snoc, rev_app_distr. cbn [rev app run_back].
  by destruct (same_record y.1 x.1).
Qed.

Lemma shorter_snoc {A} (l : list A) x : shorter (l ++ [x]) = shorter l ++ [l].
Proof.
  unfold shorter. rewrite length_app, seq_app, fmap_app. cbn. f_equal.
  - apply list_fmap_ext. intros i n Hn%lookup_seq. by rewrite take_app_le by lia.
  - by rewrite take_app_length.
Qed.

Lemma records_of_snoc k h v s price ts now : records_of k (h ++ [(v, s, price, ts, now)]) =
  records_of k h ++ (if bool_decide (key_of v s = k) then [((price, ts), now)] else []).
Proof. unfold records_of. rewrite omap_app. cbn. by case_bool_decide. Qed.

Lemma held_for_snoc r0 run x : held_for ((r0 :: run) ++ [x]) = fsub x.2 r0.2.
Proof. unfold held_for. rewrite last_snoc. cbn. by destruct r0, x. Qed.

(** The end of the run is the end of the list, and the run is not empty when the list is not. *)
Lemma run_of_last l : last (run_of l) = last l.
Proof.
  destruct l as [|x l _] using rev_ind; [done|]. rewrite run_of_snoc, last_snoc.
  destruct (last l); [|done]. by destruct (same_record _ _); rewrite ?last_snoc.
Qed.

(** What the check keeps of a key whose records end in [run]. *)
Definition kept_state (run : list ((float * Z) * float)) : option ((float * Z) * float * Z) :=
  match head run, last run with
  | Some (_, t0), Some (ident, _) => Some (ident, t0, zlen run)
  | _, _ => None
  end.

Definition stale_inv (p : StaleParams) (c : StaleValueCheck) (h : list StaleCall) : Prop := forall k,
  let run := run_of (records_of k h) in
  state c !! k = kept_state run /\ (k ∈ fired c <-> existsb (due p) (shorter run ++ [run]) = true).

(** One call, told by the run it continues or begins. *)
Lemma stale_check_spec p c h v s price ts now :
  stale_inv p c h ->
  let k := key_of v s in
  let run := run_of (records_of k (h ++ [(v, s, price, ts, now)])) in
  let '(c', e) := stale_check p c v s price ts now in
  e = stale_spec p v s ts run /\ state c' = <[k := (price, ts, match head run with Some (_, t0) => t0 | None => now end, zlen run)]> (state c) /\
  last run = Some ((price, ts), now) /\
  (forall k', k' ∈ fired c' <-> if bool_decide (k' = k) then existsb (due p) (shorter run ++ [run]) = true else k' ∈ fired c).
Proof.
  intros I k run. pose proof (I k) as [Is If]. cbv zeta in Is, If.
  assert (run = match last (records_of k h) with
    | Some y => if same_record y.1 (price, ts) then run_of (records_of k h) ++ [((price, ts), now)] else [((price, ts), now)]
    | None => [((price, ts), now)] end) as Er.
  { unfold run. rewrite records_of_snoc, bool_decide_true by done. apply run_of_snoc. }
  rewrite <- (run_of_last (records_of k h)) in Er. set (r := run_of (records_of k h)) in *.
  assert (forall x, due p [x] = false) as D1 by done.
  assert (forall x, stale_spec p v s ts [x] = None) as S1 by done.
  assert (forall x : (float * Z) * float, existsb (due p) (shorter [x] ++ [[x]]) = false) as E1 by done.
  assert (forall k', k' ∈ fired c ∖ {[k]} <->
    if bool_decide (k' = k) then existsb (due p) (shorter [((price, ts), now)] ++ [[((price, ts), now)]]) = true else k' ∈ fired c) as F1.
  { intros k'. rewrite E1. case_bool_decide; set_solver. }
  unfold stale_check. fold k. rewrite Is. unfold kept_state.
  destruct r as [|r0 r' ] eqn:Hr.
  { cbn [last] in Er. rewrite Er. cbn [head]. by rewrite S1. }
  destruct (last (r0 :: r')) as [[ident tl]|] eqn:El; [|by apply last_None in El].
  cbn [head]. destruct r0 as [i0 t0]. cbn [fst] in Er.
  destruct (same_record ident (price, ts)) eqn:Esame; cbn [negb]; [|rewrite Er; cbn [head]; by rewrite S1].
  assert (zlen run = zlen ((i0, t0) :: r') + 1) as Hlen by (rewrite Er, length_app; cbn [length]; lia).
  assert (held_for run = fsub now t0) as Hheld by (by rewrite Er, held_for_snoc).
  assert (shorter run = shorter ((i0, t0) :: r') ++ [(i0, t0) :: r']) as Hsh by (by rewrite Er, shorter_snoc).
  assert (due p run = fle (after_s p) (fsub now t0) && (min_updates p <=? zlen ((i0, t0) :: r') + 1)) as Hdue.
  { unfold due. rewrite Hlen, Hheld. assert ((2 <=? length run)%nat = true) as ->.
    { apply Nat.leb_le. cbn [length] in Hlen. lia. } cbn [andb]. apply andb_comm. }
  assert (bool_decide (k ∈ fired c) = existsb (due p) (shorter run)) as Hfired.
  { rewrite Hsh. destruct (existsb _ _) eqn:E; [by apply bool_decide_eq_true, If|].
    apply bool_decide_eq_false. intros G%If. congruence. }
  unfold stale_spec. rewrite Hdue, Hfired, Hheld, Hlen.
  assert (last run = Some ((price, ts), now)) as Hlast by (by rewrite Er, last_snoc).
  assert (match head run with Some (_, t) => t | None => now end = t0) as -> by (by rewrite Er).
  assert (forall k', k' ∈ (if due p run then {[k]} ∪ fired c else fired c) <->
    if bool_decide (k' = k) then existsb (due p) (shorter run ++ [run]) = true else k' ∈ fired c) as F2.
  { intros k'. destruct (bool_decide_reflect (k' = k)) as [Ek|Ek]; [rewrite Ek|destruct (due p run); clear -Ek; set_solver].
    rewrite existsb_app. cbn [existsb]. rewrite orb_false_r, orb_true_iff, <- Hfired, bool_decide_eq_true.
    destruct (due p run); clear; set_solver. }
  rewrite Hdue in F2.
  destruct (fle _ _ && _) eqn:Ed; cbn [andb].
  - destruct (existsb (due p) (shorter run)) eqn:Ee; cbn [negb]; split_and!; try done.
    intros k'. rewrite <- F2. apply bool_decide_eq_true in Hfired. set_solver.
  - split_and!; done.
Qed.

Lemma stale_run_inv p h : stale_inv p (stale_run p h) h.
Proof.
  induction h as [|[[[[v s] price] ts] now] h IH] using rev_ind.
  - intros k. cbn. split; [done|]. split; [set_solver|done].
  - unfold stale_run in *. rewrite foldl_app. cbn [foldl stale_step].
    pose proof (stale_check_spec p _ h v s price ts now IH) as H. cbv zeta in H.
    destruct (stale_check _ _ _ _ _ _ _) as [c' e]. destruct H as (_ & Hs & Hl & Hf). cbn [fst]. intros k. cbv zeta.
    rewrite Hs, Hf. destruct (decide (k = key_of v s)) as [->|Hk].
    + rewrite lookup_insert_eq, bool_decide_true by done. split; [|done]. clear Hf Hs. revert Hl.
      generalize (run_of (records_of (key_of v s) (h ++ [(v, s, price, ts, now)]))). intros r Hl.
      unfold kept_state. rewrite Hl. by destruct r as [|[i0 t0] r].
    + rewrite lookup_insert_ne, bool_decide_false, records_of_snoc, bool_decide_false, app_nil_r by congruence. apply IH.
Qed.

(** A repeated record is reported exactly once per repetition, when it is due.  After
    any trades of any instruments, a trade is reported exactly when the run of identical
    records it ends (same price, same exchange time) has the length and has lasted the
    time, and no earlier trade of that run already had; distinct trades at one price are
    never reported. *)
Theorem stale_exact p h v s price ts now :
  (stale_check p (stale_run p h) v s price ts now).2 =
  stale_spec p v s ts (run_of (records_of (key_of v s) (h ++ [(v, s, price, ts, now)]))).
Proof.
  pose proof (stale_check_spec p _ h v s price ts now (stale_run_inv p h)) as H. cbv zeta in H.
  by destruct (stale_check _ _ _ _ _ _ _) as [c' e]; destruct H as (-> & _).
Qed.

(** ** Bars *)

(** The bars the platform builds from trades are never reported. *)
Lemma bars_never_flagged v s bucket interval t ts :
  Forall (fun p => is_nan p = false) (price <$> t :: ts) ->
  let b := foldl update (new_bar v s bucket interval) (t :: ts) in
  bar_check v s (open b) (high b) (low b) (close b) bucket = None.
Proof.
  intros Hn b. destruct (bar_summarises_ticks v s bucket interval t ts Hn) as (Ho & Hc & Hh & Hl & Hb & _).
  fold b in Ho, Hc, Hh, Hl, Hb. rewrite Forall_forall in Hb.
  assert (open b ∈ price <$> t :: ts) as Hoin by (rewrite Ho; apply list_elem_of_here).
  assert (close b ∈ price <$> t :: ts) as Hcin by (by apply last_Some_elem_of).
  unfold bar_check, bar_bad, fgt. change SFltb with flt.
  pose proof (Hb _ Hoin) as [? ?]. pose proof (Hb _ Hcin) as [? ?]. pose proof (Hb _ Hh) as [? ?]. pose proof (Hb _ Hl) as [? ?].
  cbn beta in *. change (SFltb (open b) (low b)) with (flt (open b) (low b)).
  by repeat match goal with H : ?x = false |- context [?x] => rewrite H end.
Qed.

(** ** The cross-venue alarm *)

(** An alarm leaves its time behind, and none follows within sixty seconds of it. *)
Lemma cross_cooldown p c ts :
  let '(c', e) := cross_check p c ts in
  match e with
  | Some _ => last_fire c' = Some (seconds_of ts) /\
      match last_fire c with Some t => flt (fsub (seconds_of ts) t) (num 60) = false | None => True end
  | None => last_fire c' = last_fire c
  end.
Proof.
  unfold cross_check. destruct (_ <? _)%nat; [done|]. destruct (fle _ _); [done|].
  destruct (worst_of _ _) as [wa wd]. destruct (flt wd _); [done|]. cbn [last_fire].
  destruct (last_fire c) as [t|]; [|done]. by destruct (flt (fsub _ t) _) eqn:E.
Qed.

(** ** The service: where every event goes *)

Inductive Event := Frame (f : Protocol.Frame) (now : float) | Flush (raises : bool).

(** The service with what has happened so far: the events reported, the rows handed to the
    storage, and the rows it wrote. *)
Definition World : Type := QualityService * list QualityEvent * list EventRow * list EventRow.
Definition step (p : Params) (w : World) (ev : Event) : World :=
  let '(q, evs, handed, written) := w in
  match ev with
  | Frame f now => (ingest p q f now, evs ++ (inspect p (monitor q) f now).2, handed, written)
  | Flush raises => let '(q, h, wr) := flush q raises in (q, evs, handed ++ h, written ++ wr)
  end.
Definition run (p : Params) (storage : bool) (evs : list Event) : World :=
  foldl (step p) (new_service storage, [], [], []) evs.

Definition count_of (k : CheckName * Severity) (evs : list QualityEvent) : Z :=
  zlen (List.filter (fun e => bool_decide ((ev_check e, severity e) = k)) evs).

Lemma count_of_app k a b : count_of k (a ++ b) = count_of k a + count_of k b.
Proof. unfold count_of. rewrite List.filter_app, length_app. lia. Qed.

Lemma record_counts m ev k : default 0 (dget k (counts (record m ev))) = default 0 (dget k (counts m)) + count_of k (listed ev).
Proof.
  destruct ev as [e|]; cbn [record listed counts]; [|unfold count_of; cbn; lia]. unfold count_of. cbn [List.filter].
  case_bool_decide as E; cbn [length]; [subst k; rewrite dget_dset_eq; cbn; lia|]. rewrite dget_dset_ne by congruence. lia.
Qed.

Lemma inspect_counts p m f now k :
  default 0 (dget k (counts (inspect p m f now).1)) = default 0 (dget k (counts m)) + count_of k (inspect p m f now).2.
Proof.
  assert (count_of k [] = 0) as Z0 by done. unfold inspect.
  destruct (_ && _); [|destruct (_ && _); [|cbn; lia]].
  - destruct (unpack _) as [t|]; [|cbn; lia]. unfold on_trade.
    destruct (jump_check _ _ _ _ _ _) as [j e1]. destruct (stale_check _ _ _ _ _ _ _) as [x e2].
    destruct (cross_check _ _ _) as [y e3]. cbn [fst snd]. rewrite !count_of_app, record_counts. cbn [counts set_cross].
    rewrite record_counts. cbn [counts set_stale]. rewrite record_counts. cbn [counts set_jump set_cross count_checked]. lia.
  - destruct (book_unpack _) as [b|]; [|cbn; lia]. unfold on_quote. cbn [fst snd]. by rewrite record_counts.
Qed.

Lemma on_events q evs :
  let q' := foldl on_event q evs in
  monitor q' = monitor q /\ pending q' = pending q ++ (row_of <$> evs) /\ has_storage q' = has_storage q /\
  forall k n, dget k (quality_events_total q) = Some n -> dget k (quality_events_total q') = Some (n + count_of k evs).
Proof.
  revert q. induction evs as [|e evs IH]; intros q; cbn [foldl].
  - rewrite app_nil_r. split_and!; try done. intros k n ->. f_equal. unfold count_of. cbn. lia.
  - destruct (IH (on_event q e)) as (Hm & Hp & Hs & Hk). split_and!.
    + by rewrite Hm.
    + rewrite Hp. cbn. by rewrite <- app_assoc.
    + by rewrite Hs.
    + intros k n Hn. unfold count_of in *. cbn [List.filter]. case_bool_decide as E.
      * subst k. rewrite (Hk _ (n + 1)); [cbn [length]; f_equal; lia|]. cbn. by rewrite dget_dset_eq, Hn.
      * apply Hk. cbn. by rewrite dget_dset_ne by congruence.
Qed.

(** Every event the checks report is counted once in the registry and once in the monitor, and
    its row is waiting or was handed to the storage, in order; the rows written are the
    rows handed over, as long as the storage never raises. *)
Theorem events_accounted p storage evs q reported handed written :
  run p storage evs = (q, reported, handed, written) ->
  (row_of <$> reported) = handed ++ pending q /\
  (forall k, dget k (quality_events_total q) = Some (count_of k reported)) /\
  (forall k, default 0 (dget k (counts (monitor q))) = count_of k reported) /\
  (Forall (fun e => e <> Flush true) evs -> written = handed).
Proof.
  revert q reported handed written. induction evs as [|ev evs IH] using rev_ind; intros q reported handed written.
  - unfold run. cbn. intros [= <- <- <- <-]. split_and!; try done. by intros [[] []].
  - unfold run in *. rewrite foldl_app. cbn [foldl]. destruct (foldl _ _ evs) as [[[q0 r0] h0] w0].
    destruct (IH q0 r0 h0 w0 eq_refl) as (Hr & Ht & Hc & Hw). clear IH. destruct ev as [f now|raises]; cbn [step].
    + intros [= <- <- <- <-]. unfold ingest. pose proof (inspect_counts p (monitor q0) f now) as Hi.
      destruct (inspect _ _ _ _) as [m es]. cbn [fst snd] in Hi |- *.
      destruct (on_events (mkService m (frames_in q0 + 1) now true (quality_events_total q0) (pending q0) (has_storage q0)) es)
        as (Hm & Hp & _ & Hk). rewrite Hp, Hm. cbn [pending monitor] in *. split_and!.
      * by rewrite fmap_app, Hr, <- app_assoc.
      * intros k. rewrite count_of_app. by apply Hk.
      * intros k. rewrite count_of_app, <- Hc. apply Hi.
      * intros [H _]%Forall_app. auto.
    + unfold flush. destruct (_ || _) eqn:E.
      * intros [= <- <- <- <-]. rewrite !app_nil_r. split_and!; try done. intros [H _]%Forall_app. auto.
      * intros [= <- <- <- <-]. cbn [pending quality_events_total monitor]. rewrite app_nil_r. split_and!; try done.
        intros [H Hx]%Forall_app. rewrite (Hw H). apply Forall_cons in Hx as [Hx _]. destruct raises; [by destruct Hx|done].
Qed.

(** ** Examples *)

Definition P0 : Params := default_params.
Definition btc (price : Z) (sec : Z) : Call := (lit "UPBIT", lit "KRW-BTC", num price, sec * 1000000000).

(** Eleven percent within a second, and over ten minutes. *)
Example jump_in_a_tick : (jump_check (p_jump P0) (jump_run (p_jump P0) [btc 100 0]) (lit "UPBIT") (lit "KRW-BTC") (num 111) 1000000000).2
  = Some (mkEvent 1000000000 price_jump CRITICAL (lit "UPBIT") (lit "KRW-BTC") (num 11)).
Proof. by vm_compute. Qed.
Example jump_over_a_gap : severity <$> (jump_check (p_jump P0) (jump_run (p_jump P0) [btc 100 0]) (lit "UPBIT") (lit "KRW-BTC") (num 111) 600000000000).2
  = Some WARNING.
Proof. by vm_compute. Qed.

(** The same record every ten seconds: the twentieth is reported, the next are not; trades that
    differ in their time never are. *)
Definition again (step_ts : Z) (n : nat) : StaleCall := (lit "KIS", lit "005930", num 70000, step_ts * Z.of_nat n, num (10 * Z.of_nat n)).
Definition reported_at (step_ts : Z) : list nat :=
  List.filter (fun n => match (stale_check (p_stale P0) (stale_run (p_stale P0) (again step_ts <$> seq 0 n)) (lit "KIS") (lit "005930")
     (num 70000) (step_ts * Z.of_nat n) (num (10 * Z.of_nat n))).2 with Some _ => true | None => false end) (seq 0 25).
Example frozen_record_reported_once : reported_at 0 = [19%nat].
Proof. by vm_compute. Qed.
Example same_price_not_reported : reported_at 1 = [].
Proof. by vm_compute. Qed.

(** A far future time in one trade silences the cross-venue alarm until it has come: the
    clock of the alarm is the trades' own. *)
Definition diverged : CrossVenueCheck :=
  mkCross (list_to_map [(lit "UPBIT:KRW-BTC", num 1300); (lit "BINANCE:BTCUSDT", num 1); (lit "UPBIT:KRW-ETH", num 1300); (lit "BINANCE:ETHUSDT", num 1);
                        (lit "UPBIT:KRW-SOL", num 1500); (lit "BINANCE:SOLUSDT", num 1)]) [] None.
Example future_time_silences :
  let '(c1, e1) := cross_check (p_cross P0) diverged (10 ^ 18) in
  let '(c2, e2) := cross_check (p_cross P0) c1 (10 ^ 18 - 86400 * 1000000000) in
  (severity <$> e1, e2) = (Some WARNING, None).
Proof. by vm_compute. Qed.

(** A write that fails loses its events. *)
Definition quote_frame : Protocol.Frame :=
  Protocol.mkFrame MSG_BOOK 1 0 (match (book_pack no_trunc (mkBook (lit "KIS") (lit "005930") 0 0 (num 11) (num 1) (num 10) (num 1))).2 with Ok b => b | Err _ => [] end).
Example failed_flush_loses :
  let '(q, reported, handed, written) := run P0 true [Frame quote_frame (num 1); Flush true; Flush false] in
  (length reported, length handed, written, pending q) = (1%nat, 1%nat, [], []).
Proof. by vm_compute. Qed.

End Quality.
