(* ===== verification/Paper.v ===== *)
(** * The paper-trading ledger (src/quant/paper_ledger.py)

    The signals the live engine stored are filled at the open of the first bar that begins
    after them, long only, at a cost either way.  The rows of the two queries are arguments:
    the signals in the order of their times, the bars of every instrument in the order of
    their buckets.  Printing and the file written are left out, and so are the averages (the
    builtin [sum]'s compensation differs between Python versions). *)

From Stdlib Require Import Sorted.
From stdpp Require Import sorting.
From S2P Require Import Prelude PyStr PyFloat Dict Json.

Module Paper.

Definition FEE_RATE : float := int_div 5 10000.
Definition SLIPPAGE_BP : float := of_int 5.
Definition BAR_US : Z := 60 * 1000000.
Definition FILL_WINDOW_US : Z := 15 * BAR_US.
Definition BUY : Z := 1.
Definition SELL : Z := -1.
Definition NON_TRADABLE_VENUES : list pystr := [lit "KRX-IDX"].

(** A row of [signals]; [ref_price] may be null. *)
Record Signal := mkSignal
  { ts : Z; venue : pystr; symbol : pystr; strategy : pystr; action : Z; ref_price : option float }.

Abbreviation Key := (pystr * pystr)%type (only parsing).
Abbreviation PKey := (pystr * pystr * pystr)%type (only parsing).

(** ** Bars *)

Record Bars := mkBars { b_ts : gmap Key (list Z); b_op : gmap Key (list float) }.
Definition no_bars : Bars := mkBars ∅ ∅.

(** One row of [bars_1m]: venue, symbol, bucket, open. *)
Definition load_row (keys : list Key) (bn : Bars * Z) (row : pystr * pystr * Z * option float) : Bars * Z :=
  let '(b, n) := bn in
  let '(v, s, bucket, op) := row in
  let k := (v, s) in
  if bool_decide (k ∈ keys) then
    (mkBars (<[k := default [] (b_ts b !! k) ++ [bucket]]> (b_ts b))
            (<[k := default [] (b_op b !! k) ++ [default (of_int 0) op]]> (b_op b)), n + 1)
  else (b, n).
Definition load (keys : list Key) (rows : list (pystr * pystr * Z * option float)) : Bars * Z :=
  foldl (load_row keys) (no_bars, 0) rows.

(** [bisect.bisect_right]: the interval halves, so its length is enough fuel. *)
Fixpoint bisect_loop (fuel : nat) (a : list Z) (x : Z) (lo hi : nat) : nat :=
  match fuel with
  | O => lo
  | S fuel =>
      if (lo <? hi)%nat then
        let mid := ((lo + hi) / 2)%nat in
        if x <? nth mid a 0 then bisect_loop fuel a x lo mid else bisect_loop fuel a x (S mid) hi
      else lo
  end.
Definition bisect_right (a : list Z) (x : Z) : nat := bisect_loop (length a) a x 0 (length a).

Definition next_open (b : Bars) (key : Key) (after_us : Z) : option (Z * float) :=
  match b_ts b !! key with
  | None | Some [] => None
  | Some a =>
      let i := bisect_right a after_us in
      if (length a <=? i)%nat then None
      else
        let t := nth i a 0 in
        if FILL_WINDOW_US <? t - after_us then None
        else
          let px := nth i (default [] (b_op b !! key)) (of_int 0) in
          if fgt px (of_int 0) then Some (t, px) else None
  end.

(** ** Filling the signals *)

Record PaperTrade := mkTrade
  { t_venue : pystr; t_symbol : pystr; entry_ts : Z; exit_ts : Z; entry : float; exit : float; ret : float }.

Record Book := mkBook
  { open_pos : list (PKey * (Z * float)); trades : list (pystr * list PaperTrade);
    unfilled : list (pystr * Z); ignored : list (pystr * Z); ref_gap : list float;
    skipped_venue : Z; skipped_blank : Z }.
Definition new_book : Book := mkBook [] [] [] [] [] 0 0.

Definition bump (k : pystr) (d : list (pystr * Z)) : list (pystr * Z) := dset k (default 0 (dget k d) + 1) d.

Definition blank (s : pystr) : bool := bool_decide (s = []) || bool_decide (strip s = []).
Definition non_tradable (s : Signal) : bool := bool_decide (venue s ∈ NON_TRADABLE_VENUES).

Definition one : float := of_int 1.
(** [px * (1 + slip) * (1 + fee)] and [px * (1 - slip) * (1 - fee)]. *)
Definition buy_price (slip fee px : float) : float := fmul (fmul px (fadd one slip)) (fadd one fee).
Definition sell_price (slip fee px : float) : float := fmul (fmul px (fsub one slip)) (fsub one fee).

Definition note_gap (ref : option float) (px : float) (gaps : list float) : list float :=
  match ref with
  | Some r => if truthy r then gaps ++ [fdiv (fsub px r) r] else gaps
  | None => gaps
  end.

(** A signal that is neither bought nor sold and holds nothing has no position to pop. *)
Inductive PaperError := KeyError.

(** One signal of the loop. *)
Definition take_signal (b : Bars) (slip fee : float) (k : Book) (s : Signal) : result PaperError Book :=
  let set_open o := mkBook o (trades k) (unfilled k) (ignored k) (ref_gap k) (skipped_venue k) (skipped_blank k) in
  if non_tradable s then
    Ok (mkBook (open_pos k) (trades k) (unfilled k) (ignored k) (ref_gap k) (skipped_venue k + 1) (skipped_blank k))
  else if blank (symbol s) then
    Ok (mkBook (open_pos k) (trades k) (unfilled k) (ignored k) (ref_gap k) (skipped_venue k) (skipped_blank k + 1))
  else
    let pkey := (venue s, symbol s, strategy s) in
    let held := match dget pkey (open_pos k) with Some _ => true | None => false end in
    if ((action s =? BUY) && held) || ((action s =? SELL) && negb held) then
      Ok (mkBook (open_pos k) (trades k) (unfilled k) (bump (strategy s) (ignored k)) (ref_gap k) (skipped_venue k) (skipped_blank k))
    else
      match next_open b (venue s, symbol s) (ts s) with
      | None =>
          Ok (mkBook (open_pos k) (trades k) (bump (strategy s) (unfilled k)) (ignored k) (ref_gap k) (skipped_venue k) (skipped_blank k))
      | Some (fill_ts, px) =>
          let gaps := note_gap (ref_price s) px (ref_gap k) in
          if action s =? BUY then
            Ok (mkBook (dset pkey (fill_ts, buy_price slip fee px) (open_pos k)) (trades k) (unfilled k) (ignored k) gaps
                  (skipped_venue k) (skipped_blank k))
          else
            match dget pkey (open_pos k) with
            | None => Err KeyError
            | Some (ets, en) =>
                let ex := sell_price slip fee px in
                let t := mkTrade (venue s) (symbol s) ets fill_ts en ex (fsub (fdiv ex en) one) in
                Ok (mkBook (ddel pkey (open_pos k))
                      (dset (strategy s) (default [] (dget (strategy s) (trades k)) ++ [t]) (trades k))
                      (unfilled k) (ignored k) gaps (skipped_venue k) (skipped_blank k))
            end
      end.

Fixpoint take_signals (b : Bars) (slip fee : float) (k : Book) (sigs : list Signal) : result PaperError Book :=
  match sigs with
  | [] => Ok k
  | s :: sigs => let! k := take_signal b slip fee k s in take_signals b slip fee k sigs
  end.

(** The instruments whose bars are loaded. *)
Definition wanted (sigs : list Signal) : list Key :=
  (fun s => (venue s, symbol s)) <$> List.filter (fun s => negb (non_tradable s) && negb (blank (symbol s))) sigs.

(** The loop of [run] over the rows of the two queries. *)
Definition fill_all (sigs : list Signal) (rows : list (pystr * pystr * Z * option float)) (fee slip_bp : float) : result PaperError Book :=
  take_signals (load (wanted sigs) rows).1 (fdiv slip_bp (of_int 10000)) fee new_book sigs.

(** ** The report *)

(** [sorted(tl, key=exit_ts)]. *)
Fixpoint insert_exit (t : PaperTrade) (l : list PaperTrade) : list PaperTrade :=
  match l with [] => [t] | u :: l => if exit_ts t <? exit_ts u then t :: u :: l else u :: insert_exit t l end.
Definition by_exit (l : list PaperTrade) : list PaperTrade := foldl (fun acc t => insert_exit t acc) [] l.

(** [cum, peak, mdd] after every trade. *)
Definition draw (c : float * float * float) (t : PaperTrade) : float * float * float :=
  let '(cum, peak, mdd) := c in
  let cum := fadd cum (ret t) in
  let peak := fmax peak cum in
  (cum, peak, fmax mdd (fsub peak cum)).

Definition zero : float := of_int 0.
Definition fmax_of (l : list float) : float := match l with [] => zero | x :: l => foldl fmax x l end.
Definition fmin_of (l : list float) : float := match l with [] => zero | x :: l => foldl fmin x l end.

Record Stats := mkStats
  { n_trades : Z; win_rate : float; best : float; worst : float; pnl_units : float; mdd_units : float;
    unfilled_signals : Z; ignored_signals : Z; open_at_end : Z }.

Definition stats_of (k : Book) (strat : pystr) (tl : list PaperTrade) : Stats :=
  let rets := ret <$> tl in
  let wins := List.filter (fun r => fgt r zero) rets in
  let '(cum, _, mdd) := foldl draw (zero, zero, zero) (by_exit tl) in
  mkStats (zlen tl) (match rets with [] => zero | _ => int_div (zlen wins) (zlen rets) end)
    (fmax_of rets) (fmin_of rets) cum mdd
    (default 0 (dget strat (unfilled k))) (default 0 (dget strat (ignored k)))
    (zlen (List.filter (fun p => bool_decide (p.1.2 = strat)) (open_pos k))).

Definition total (d : list (pystr * Z)) : Z := foldr Z.add 0 d.*2.

(** [int(x)] of a float that is not negative. *)
Definition trunc (a : float) : Z :=
  match a with S754_finite _ m e => if 0 <=? e then Zpos m * 2 ^ e else Zpos m / 2 ^ (- e) | _ => 0 end.

Record Report := mkReport
  { signals_total : Z; strategies : list (pystr * Stats); unfilled_total : Z; unfilled_pct : float;
    ref_vs_fill : option (Z * float * float) }.

(** [sorted(trades.items())]: by name. *)
Fixpoint insert_name {A} (p : pystr * A) (l : list (pystr * A)) : list (pystr * A) :=
  match l with [] => [p] | q :: l => if str_leb p.1 q.1 then p :: q :: l else q :: insert_name p l end.
Definition by_name {A} (l : list (pystr * A)) : list (pystr * A) := foldr insert_name [] l.

Definition report (sigs : list Signal) (k : Book) : Report :=
  let gaps := fsorted (ref_gap k) in
  mkReport (zlen sigs) ((fun '(s, tl) => (s, stats_of k s tl)) <$> by_name (trades k)) (total (unfilled k))
    (match sigs with [] => zero | _ => int_div (total (unfilled k)) (zlen sigs) end)
    (match gaps with
     | [] => None
     | _ => Some (zlen gaps, fmul (nth (length gaps / 2) gaps zero) (of_int 10000),
                  fmul (nth (Z.to_nat (trunc (fmul (of_int (zlen gaps)) (int_div 95 100)))) gaps zero) (of_int 10000))
     end).

(** ** The search *)

Definition ascending (a : list Z) : Prop := forall i j, (i <= j)%nat -> (j < length a)%nat -> nth i a 0 <= nth j a 0.

Lemma bisect_loop_spec fuel a x lo hi :
  ascending a -> (lo <= hi)%nat -> (hi <= length a)%nat -> (hi - lo <= fuel)%nat ->
  (forall i, (i < lo)%nat -> nth i a 0 <= x) -> (forall i, (hi <= i < length a)%nat -> x < nth i a 0) ->
  let r := bisect_loop fuel a x lo hi in
  (r <= length a)%nat /\ (forall i, (i < r)%nat -> nth i a 0 <= x) /\ (forall i, (r <= i < length a)%nat -> x < nth i a 0).
Proof.
  intros Ha. revert lo hi. induction fuel as [|fuel IH]; intros lo hi Hl Hh Hf Hlo Hhi; cbn [bisect_loop].
  - assert (lo = hi) as -> by lia. by split_and!.
  - destruct (Nat.ltb_spec lo hi) as [Hlt|Hge]; [|assert (lo = hi) as -> by lia; by split_and!].
    assert (lo <= (lo + hi) / 2 < hi)%nat as Hm.
    { split; [apply Nat.div_le_lower_bound; lia|apply Nat.Div0.div_lt_upper_bound; lia]. }
    set (mid := ((lo + hi) / 2)%nat) in *. destruct (Z.ltb_spec x (nth mid a 0)) as [Hx|Hx].
    + apply IH; try lia; [done|]. intros i Hi. eapply Z.lt_le_trans; [exact Hx|]. apply Ha; lia.
    + apply IH; try lia; [|done]. intros i Hi. etransitivity; [|exact Hx]. apply Ha; lia.
Qed.

(** The bars of an instrument, as pairs; the loader keeps the two arrays of one length. *)
Definition bars_of (b : Bars) (key : Key) : list (Z * float) :=
  zip (default [] (b_ts b !! key)) (default [] (b_op b !! key)).

(** What [next_open] should return: the first bar that begins after the moment, unless it
    begins too late or has no price. *)
Definition first_after (bars : list (Z * float)) (after_us : Z) : option (Z * float) :=
  match List.find (fun p => after_us <? p.1) bars with
  | Some (t, px) => if (t - after_us <=? FILL_WINDOW_US) && fgt px (of_int 0) then Some (t, px) else None
  | None => None
  end.

Definition loaded (b : Bars) : Prop := forall key,
  length (default [] (b_ts b !! key)) = length (default [] (b_op b !! key)).

Lemma find_zip after (a : list Z) (o : list float) i : length a = length o ->
  (i <= length a)%nat -> (forall j, (j < i)%nat -> nth j a 0 <= after) -> (forall j, (i <= j < length a)%nat -> after < nth j a 0) ->
  List.find (fun p => after <? p.1) (zip a o) = if (length a <=? i)%nat then None else Some (nth i a 0, nth i o (of_int 0)).
Proof.
  revert a o. induction i as [|i IH]; intros [|t a] [|p o] Hl Hi Hlo Hhi; try done; cbn [zip zip_with List.find fst].
  - rewrite (proj2 (Z.ltb_lt _ _)) by (apply (Hhi 0%nat); cbn; lia). done.
  - rewrite (proj2 (Z.ltb_ge _ _)) by (apply (Hlo 0%nat); lia).
    rewrite (IH a o); [done|by injection Hl|cbn in Hi; lia| |].
    + intros j Hj. apply (Hlo (S j)). lia.
    + intros j Hj. apply (Hhi (S j)). cbn. lia.
Qed.

Lemma next_open_first b key after : loaded b -> ascending (default [] (b_ts b !! key)) ->
  next_open b key after = first_after (bars_of b key) after.
Proof.
  intros Hl Ha. specialize (Hl key). unfold next_open, first_after, bars_of.
  set (o := default [] (b_op b !! key)) in *. destruct (b_ts b !! key) as [a|]; cbn [default from_option id] in *.
  2:{ by destruct o. }
  destruct (bisect_loop_spec (length a) a after 0 (length a) Ha) as (Hr & Hlo & Hhi); try lia.
  fold (bisect_right a after) in Hr, Hlo, Hhi. rewrite (find_zip after a o (bisect_right a after)) by done.
  destruct a as [|t a]; [done|]. destruct (length (t :: a) <=? bisect_right (t :: a) after)%nat; [done|].
  cbv zeta. destruct (Z.ltb_spec FILL_WINDOW_US (nth (bisect_right (t :: a) after) (t :: a) 0 - after)).
  - by rewrite (proj2 (Z.leb_gt _ _)) by lia.
  - rewrite (proj2 (Z.leb_le _ _)) by lia. done.
Qed.

(** The loader, told for one instrument: the buckets and the opens of its rows, in order. *)
Definition key_rows (key : Key) (rows : list (pystr * pystr * Z * option float)) : list (Z * float) :=
  omap (fun '(v, s, bucket, op) => if bool_decide ((v, s) = key) then Some (bucket, default (of_int 0) op) else None) rows.

Lemma load_spec keys rows key : let b := (load keys rows).1 in
  default [] (b_ts b !! key) = (if bool_decide (key ∈ keys) then (key_rows key rows).*1 else []) /\
  default [] (b_op b !! key) = (if bool_decide (key ∈ keys) then (key_rows key rows).*2 else []).
Proof.
  induction rows as [|row rows IH] using rev_ind; [cbn; by case_bool_decide|].
  unfold load in *. rewrite foldl_app. cbn [foldl]. destruct (foldl _ _ rows) as [b n]. cbn [fst] in IH.
  destruct row as [[[v s] bucket] op]. unfold key_rows in *. rewrite omap_app, !fmap_app. cbn [load_row omap list_omap].
  destruct (bool_decide_reflect ((v, s) = key)) as [<-|Hne].
  - case_bool_decide as Hin; cbn [fst b_ts b_op]; [|exact IH].
    rewrite !lookup_insert_eq. cbn [default from_option id]. by destruct IH as [-> ->].
  - cbn [fmap list_fmap]. rewrite !app_nil_r. destruct (bool_decide ((v, s) ∈ keys)); cbn [fst b_ts b_op]; [|exact IH].
    by rewrite !lookup_insert_ne by done.
Qed.

Lemma load_loaded keys rows : loaded (load keys rows).1.
Proof.
  intros key. destruct (load_spec keys rows key) as [-> ->]. case_bool_decide; [|done]. by rewrite !length_fmap.
Qed.

(** ** Where every signal goes *)

Definition trade_count (d : list (pystr * list PaperTrade)) : Z := foldr Z.add 0 ((fun x => zlen x.2) <$> d).

Lemma total_bump k d : total (bump k d) = total d + 1.
Proof.
  unfold bump, total. induction d as [|[k' n] d IH]; [done|]. cbn. case_bool_decide as E; cbn; [subst; lia|].
  rewrite IH. lia.
Qed.

Lemma trade_count_add k t d : trade_count (dset k (default [] (dget k d) ++ [t]) d) = trade_count d + 1.
Proof.
  unfold trade_count. induction d as [|[k' l] d IH]; [done|]. cbn. case_bool_decide as E; cbn.
  - rewrite length_app. cbn. lia.
  - rewrite IH. lia.
Qed.

Lemma length_dset_new {V} (k : PKey) (v : V) d : dget k d = None -> length (dset k v d) = S (length d).
Proof. induction d as [|[k' v'] d IH]; cbn; [done|]. case_bool_decide; [done|]. cbn. auto. Qed.

Lemma length_ddel {V} (k : PKey) (v : V) d : dget k d = Some v -> S (length (ddel k d)) = length d.
Proof. induction d as [|[k' v'] d IH]; cbn; [done|]. case_bool_decide; [done|]. cbn. auto. Qed.

(** The signals a book has taken in: a trade stands for two. *)
Definition accounted (k : Book) : Z :=
  skipped_venue k + skipped_blank k + total (ignored k) + total (unfilled k) + 2 * trade_count (trades k) + zlen (open_pos k).

Section fills.
Variable b : Bars.
Variables slip fee : float.

(** A purchase: the signal and the position it opened. *)
Definition bought (s : Signal) (k : PKey) (pos : Z * float) : Prop :=
  action s = BUY /\ (venue s, symbol s, strategy s) = k /\
  exists px, next_open b (venue s, symbol s) (ts s) = Some (pos.1, px) /\ pos.2 = buy_price slip fee px.

(** A completed trade: the two signals behind it. *)
Definition traded (sb ss : Signal) (strat : pystr) (t : PaperTrade) : Prop :=
  bought sb (t_venue t, t_symbol t, strat) (entry_ts t, entry t) /\
  (venue ss, symbol ss, strategy ss) = (t_venue t, t_symbol t, strat) /\ action ss <> BUY /\
  exists px, next_open b (venue ss, symbol ss) (ts ss) = Some (exit_ts t, px) /\
    exit t = sell_price slip fee px /\ ret t = fsub (fdiv (exit t) (entry t)) one.

(** [sb] before [ss] in the list. *)
Definition in_order (sb ss : Signal) (l : list Signal) : Prop := exists i j, (i < j)%nat /\ l !! i = Some sb /\ l !! j = Some ss.

Record book_inv (done : list Signal) (k : Book) : Prop :=
  { bi_count : zlen done = accounted k;
    bi_dict : dict_ok (open_pos k);
    bi_open : forall pk pos, dget pk (open_pos k) = Some pos -> exists s, s ∈ done /\ bought s pk pos;
    bi_trades : forall strat tl t, dget strat (trades k) = Some tl -> t ∈ tl ->
      exists sb ss, in_order sb ss done /\ traded sb ss strat t }.

Lemma in_order_snoc sb ss l x : in_order sb ss l -> in_order sb ss (l ++ [x]).
Proof. intros (i & j & H & Hi & Hj). exists i, j. split_and!; [done| |]; by apply lookup_app_l_Some. Qed.

Lemma in_order_last sb l x : sb ∈ l -> in_order sb x (l ++ [x]).
Proof.
  intros (i & Hi)%list_elem_of_lookup. exists i, (length l). split_and!.
  - by apply lookup_lt_Some in Hi.
  - by apply lookup_app_l_Some.
  - by apply list_lookup_middle.
Qed.

(** A step that leaves positions and trades alone keeps what was known of them. *)
Lemma book_inv_same done k k' s : book_inv done k -> open_pos k' = open_pos k -> trades k' = trades k ->
  accounted k' = accounted k + 1 -> book_inv (done ++ [s]) k'.
Proof.
  intros [Hc Hd Ho Ht] Eo Et Ec. split.
  - rewrite length_app. cbn. lia.
  - by rewrite Eo.
  - rewrite Eo. intros pk pos Hp. destruct (Ho pk pos Hp) as (x & Hx & Hb). exists x. split; [set_solver|done].
  - rewrite Et. intros strat tl t Hs Hin. destruct (Ht strat tl t Hs Hin) as (sb & ss & Hio & Htr).
    exists sb, ss. split; [by apply in_order_snoc|done].
Qed.

Ltac untouched I :=
  cbv beta iota; eapply (book_inv_same _ _ _ _ I); [| |unfold accounted;
    cbn [skipped_venue skipped_blank ignored unfilled trades open_pos]; rewrite ?total_bump; lia].

Lemma take_signal_inv done k s : book_inv done k ->
  match take_signal b slip fee k s with
  | Ok k' => book_inv (done ++ [s]) k'
  | Err KeyError => action s <> BUY /\ action s <> SELL
  end.
Proof.
  intros I. unfold take_signal. destruct (non_tradable s); [by untouched I|].
  destruct (blank (symbol s)); [by untouched I|].
  set (pk := (venue s, symbol s, strategy s)).
  destruct (_ || _) eqn:Eign; [by untouched I|].
  apply orb_false_iff in Eign as [Eb Es].
  destruct (next_open b (venue s, symbol s) (ts s)) as [[fts px]|] eqn:En; [|by untouched I].
  destruct I as [Hc Hd Ho Ht]. destruct (Z.eqb_spec (action s) BUY) as [Ea|Ea].
  - cbn [andb] in Eb. destruct (dget pk (open_pos k)) as [pos|] eqn:Eg; [done|].
    split; cbn [open_pos trades].
    + rewrite length_app. unfold accounted in *.
      cbn [skipped_venue skipped_blank ignored unfilled trades open_pos length]. rewrite length_dset_new by done. lia.
    + by apply dset_ok.
    + intros pk' pos'. destruct (decide (pk' = pk)) as [->|Hne].
      * rewrite dget_dset_eq. intros [= <-]. exists s. split; [set_solver|]. split; [done|]. split; [done|]. by exists px.
      * rewrite dget_dset_ne by done. intros Hp. destruct (Ho _ _ Hp) as (x & Hx & Hb). exists x. split; [set_solver|done].
    + intros strat tl t Hs Hin. destruct (Ht strat tl t Hs Hin) as (sb & ss & Hio & Htr).
      exists sb, ss. split; [by apply in_order_snoc|done].
  - destruct (dget pk (open_pos k)) as [[ets en]|] eqn:Eg.
    2:{ split; [done|]. intros Hs. rewrite Hs in Es. done. }
    split; cbn [open_pos trades].
    + rewrite length_app. unfold accounted in *.
      cbn [skipped_venue skipped_blank ignored unfilled trades open_pos length]. rewrite trade_count_add. pose proof (length_ddel _ _ _ Eg). lia.
    + by apply ddel_ok.
    + intros pk' pos' Hp. destruct (decide (pk' = pk)) as [->|Hne]; [by rewrite dget_ddel_eq in Hp|].
      rewrite dget_ddel_ne in Hp by done. destruct (Ho _ _ Hp) as (x & Hx & Hb). exists x. split; [set_solver|done].
    + intros strat tl t. destruct (decide (strat = strategy s)) as [->|Hne].
      * rewrite dget_dset_eq. intros [= <-] [Hin|Hin]%elem_of_app.
        -- destruct (dget (strategy s) (trades k)) as [tl|] eqn:Et; [|by apply elem_of_nil in Hin].
           destruct (Ht _ _ _ Et Hin) as (sb & ss & Hio & Htr). exists sb, ss. split; [by apply in_order_snoc|done].
        -- apply list_elem_of_singleton in Hin as ->. destruct (Ho _ _ Eg) as (sb & Hin & Hb).
           exists sb, s. split; [by apply in_order_last|]. split; [done|]. split; [done|]. split; [done|]. by exists px.
      * rewrite dget_dset_ne by done. intros Hs Hin. destruct (Ht _ _ _ Hs Hin) as (sb & ss & Hio & Htr).
        exists sb, ss. split; [by apply in_order_snoc|done].
Qed.

Lemma take_signals_inv sigs : forall done k, book_inv done k ->
  match take_signals b slip fee k sigs with
  | Ok k' => book_inv (done ++ sigs) k'
  | Err KeyError => exists s, s ∈ sigs /\ action s <> BUY /\ action s <> SELL
  end.
Proof.
  induction sigs as [|s sigs IH]; intros done k I; cbn [take_signals]; [by rewrite app_nil_r|].
  pose proof (take_signal_inv done k s I) as H. destruct (take_signal b slip fee k s) as [k1|[]]; cbn [rbind].
  - specialize (IH _ _ H). rewrite <- app_assoc in IH. destruct (take_signals _ _ _ _ _) as [k2|[]]; [exact IH|].
    destruct IH as (x & Hx & Ha). exists x. split; [set_solver|done].
  - exists s. split; [set_solver|done].
Qed.

Lemma new_book_inv : book_inv [] new_book.
Proof. split; [done|constructor|done|done]. Qed.
End fills.

(** The first bar after a later moment is not an earlier bar. *)
Lemma first_after_mono bars m1 m2 t1 p1 t2 p2 : StronglySorted Z.le bars.*1 -> m1 <= m2 ->
  first_after bars m1 = Some (t1, p1) -> first_after bars m2 = Some (t2, p2) -> t1 <= t2.
Proof.
  intros Hs Hm. unfold first_after. induction bars as [|[t p] bars IH]; [done|]. cbn in Hs |- *.
  apply StronglySorted_inv in Hs as [Hs Hall].
  destruct (Z.ltb_spec m1 t) as [H1|H1]; [|rewrite (proj2 (Z.ltb_ge m2 t)) by lia; auto].
  clear IH. intros E1. assert (t1 = t) as -> by (destruct (_ && _); [by injection E1|done]).
  destruct (Z.ltb_spec m2 t) as [H2|H2]; [destruct ((t - m2 <=? _) && _); [|done]; intros [= <- <-]; lia|].
  destruct (List.find (fun p => m2 <? p.1) bars) as [[t' p']|] eqn:Ef; [|done]. apply List.find_some in Ef as [Hin _].
  assert (t <= t') by (apply (proj1 (Forall_forall _ _) Hall), list_elem_of_fmap; exists (t', p'); split; [done|by apply list_elem_of_In]).
  destruct ((t' - m2 <=? _) && _); [|done]. by intros [= <- _].
Qed.

Lemma sorted_ascending a : StronglySorted Z.le a -> ascending a.
Proof.
  induction 1 as [|x a Ha IH Hall]; intros i j Hij Hj; [cbn in Hj; lia|].
  destruct i as [|i], j as [|j]; cbn [nth]; [lia| |lia|apply IH; cbn in Hj; lia].
  apply (proj1 (Forall_forall _ _) Hall), list_elem_of_In, nth_In. cbn in Hj. lia.
Qed.

Lemma sorted_lookup (l : list Signal) i j x y : StronglySorted Z.le (ts <$> l) -> (i < j)%nat ->
  l !! i = Some x -> l !! j = Some y -> ts x <= ts y.
Proof.
  revert i j. induction l as [|z l IH]; intros i j Hs Hij Hi Hj; [done|].
  apply StronglySorted_inv in Hs as [Hs Hall]. destruct j as [|j]; [lia|]. destruct i as [|i]; cbn in Hi, Hj.
  - injection Hi as ->. apply (proj1 (Forall_forall _ _) Hall), list_elem_of_fmap. exists y. split; [done|].
    by apply list_elem_of_lookup_2 in Hj.
  - apply (IH i j); [done|lia|done|done].
Qed.

(** C23: The paper ledger accounts for every signal and fills none early.  With the rows in the
    order the queries give them and only buys and sells among the signals, the run
    succeeds; every signal is excluded, ignored, unfilled, or one half of a completed trade
    or of a position still open; and every completed trade is a purchase and a later sale
    by the same strategy of the same instrument, each filled at the open of the first bar
    that begins after its signal, within the window, the sale not before the purchase. *)
Theorem paper_fills_exact sigs rows fee slip_bp :
  Forall (fun s => action s = BUY \/ action s = SELL) sigs -> StronglySorted Z.le (ts <$> sigs) ->
  (forall key, StronglySorted Z.le (key_rows key rows).*1) ->
  exists k, fill_all sigs rows fee slip_bp = Ok k /\ zlen sigs = accounted k /\
    forall strat tl t, dget strat (trades k) = Some tl -> t ∈ tl -> exists sb ss px px',
      in_order sb ss sigs /\ action sb = BUY /\ action ss = SELL /\
      (venue sb, symbol sb, strategy sb) = (t_venue t, t_symbol t, strat) /\
      (venue ss, symbol ss, strategy ss) = (t_venue t, t_symbol t, strat) /\
      first_after (key_rows (t_venue t, t_symbol t) rows) (ts sb) = Some (entry_ts t, px) /\
      first_after (key_rows (t_venue t, t_symbol t) rows) (ts ss) = Some (exit_ts t, px') /\
      entry t = buy_price (fdiv slip_bp (of_int 10000)) fee px /\ exit t = sell_price (fdiv slip_bp (of_int 10000)) fee px' /\
      entry_ts t <= exit_ts t.
Proof.
  intros Hact Hts Hrows. unfold fill_all. set (b := (load (wanted sigs) rows).1). set (slip := fdiv slip_bp _).
  pose proof (take_signals_inv b slip fee sigs [] new_book (new_book_inv _ _ _)) as H.
  destruct (take_signals _ _ _ _ _) as [k|[]].
  2:{ destruct H as (s & Hin & H1 & H2). by destruct (proj1 (Forall_forall _ _) Hact s Hin). }
  exists k. split; [done|]. destruct H as [Hc _ _ Ht]. split; [done|].
  intros strat tl t Hs Hin. destruct (Ht _ _ _ Hs Hin) as (sb & ss & Ho & (Hab & Ekb & px & Enb & Eb) & Eks & Has & px' & Ens & Ex & _).
  destruct Ho as (i & j & Hij & Hi & Hj).
  assert (forall s fts q, (venue s, symbol s) = (t_venue t, t_symbol t) -> next_open b (venue s, symbol s) (ts s) = Some (fts, q) ->
    first_after (key_rows (t_venue t, t_symbol t) rows) (ts s) = Some (fts, q)) as F.
  { intros s fts q E En. rewrite E in En. destruct (load_spec (wanted sigs) rows (t_venue t, t_symbol t)) as [L1 L2].
    fold b in L1, L2. rewrite next_open_first in En; [|apply load_loaded|].
    - unfold bars_of in En. rewrite L1, L2 in En. case_bool_decide; [|done].
      by rewrite <- En, zip_fst_snd.
    - rewrite L1. apply sorted_ascending. case_bool_decide; [apply Hrows|constructor]. }
  injection Ekb as E1 E2 E3. injection Eks as E4 E5 E6.
  exists sb, ss, px, px'. split_and!; try done; try congruence.
  - by exists i, j.
  - destruct (proj1 (Forall_forall _ _) Hact ss); [by apply list_elem_of_lookup_2 in Hj|done|done].
  - apply F; [congruence|done].
  - apply F; [congruence|done].
  - eapply (first_after_mono (key_rows (t_venue t, t_symbol t) rows) (ts sb) (ts ss)); [done| |apply F|apply F]; try done; try congruence.
    by eapply sorted_lookup.
Qed.

(** ** Examples *)

Definition upbit (t a : Z) : Signal := mkSignal (t * BAR_US) (lit "UPBIT") (lit "KRW-BTC") (lit "ema") a (Some (of_int 100)).
Definition demo_sigs : list Signal :=
  [upbit 0 BUY; upbit 1 BUY; upbit 3 SELL; mkSignal (4 * BAR_US) (lit "KRX-IDX") (lit "KOSPI") (lit "ema") BUY None; upbit 30 BUY].
Definition demo_bars : list (pystr * pystr * Z * option float) :=
  (fun '(t, p) => (lit "UPBIT", lit "KRW-BTC", t * BAR_US, Some (of_int p))) <$> [(0, 99); (1, 100); (2, 110); (4, 120); (60, 130)].
Definition demo_book : Book := match fill_all demo_sigs demo_bars FEE_RATE SLIPPAGE_BP with Ok k => k | Err _ => new_book end.

Lemma demo_ascending key : StronglySorted Z.le (key_rows key demo_bars).*1.
Proof.
  unfold key_rows, demo_bars. cbn [fmap list_fmap omap list_omap].
  destruct (bool_decide ((lit "UPBIT", lit "KRW-BTC") = key)); cbn; repeat constructor; done.
Qed.

(** The purchase is filled at the bar after it, the repeated purchase is ignored, the index is
    excluded, and the last purchase finds no bar within the window. *)
Example demo_book_ex : (skipped_venue demo_book, ignored demo_book, unfilled demo_book, open_pos demo_book,
    (fun t => (entry_ts t, exit_ts t)) <$> concat (trades demo_book).*2) =
  (1, [(lit "ema", 1)], [(lit "ema", 1)], [], [(BAR_US, 4 * BAR_US)]).
Proof. by vm_compute. Qed.

Lemma paper_fills_exact_witness : exists k, fill_all demo_sigs demo_bars FEE_RATE SLIPPAGE_BP = Ok k /\ zlen demo_sigs = accounted k /\
    forall strat tl t, dget strat (trades k) = Some tl -> t ∈ tl -> exists sb ss px px',
      in_order sb ss demo_sigs /\ action sb = BUY /\ action ss = SELL /\
      (venue sb, symbol sb, strategy sb) = (t_venue t, t_symbol t, strat) /\
      (venue ss, symbol ss, strategy ss) = (t_venue t, t_symbol t, strat) /\
      first_after (key_rows (t_venue t, t_symbol t) demo_bars) (ts sb) = Some (entry_ts t, px) /\
      first_after (key_rows (t_venue t, t_symbol t) demo_bars) (ts ss) = Some (exit_ts t, px') /\
      entry t = buy_price (fdiv SLIPPAGE_BP (of_int 10000)) FEE_RATE px /\ exit t = sell_price (fdiv SLIPPAGE_BP (of_int 10000)) FEE_RATE px' /\
      entry_ts t <= exit_ts t.
Proof.
  refine (paper_fills_exact demo_sigs demo_bars FEE_RATE SLIPPAGE_BP _ _ demo_ascending).
  - apply (bool_decide_unpack _). by vm_compute.
  - cbn. repeat constructor; done.
Defined.

(** The report lists the strategies with a completed trade: one whose signals all went
    unfilled is not in it. *)
Example silent_strategy :
  match fill_all [upbit 30 BUY] demo_bars FEE_RATE SLIPPAGE_BP with
  | Ok k => (strategies (report [upbit 30 BUY] k), unfilled k)
  | Err _ => ([], [])
  end = ([], [(lit "ema", 1)]).
Proof. by vm_compute. Qed.

End Paper.
