(* ===== verification/Archive.v ===== *)
(** * The archive of raw data (src/src/mdfeed/archive.py)

    A day of a table becomes a gzipped CSV file with a manifest beside it; the file is read
    again before anything is believed, pushed to a remote store, fetched back, and only then
    gets the receipt that allows [Retention] to delete.  The rows are SQLite's; a file system
    is a map from paths to contents and modification times in nanoseconds.

    Arguments of the model: gzip, the JSON text of a manifest, the order the database returns
    rows in, the text of a date, the float clock, and what the remote store does. *)

From S2P Require Import Prelude PyStr PyFloat PyInt Hashes WsProto Json Clock Url Retention.

Module Archive.
Import Retention.Retention.

Definition FETCH_CHUNK : Z := 50000.
Definition REMOTE_RECEIPT_SCHEMA_VERSION : Z := 1.
Definition CACHE_SETTLE_S : float := of_int 10.
Definition VERIFY_CACHE_MAX : nat := 4096.

(** [ARCHIVE_TABLES]. *)
Definition columns (t : Table) : list pystr :=
  match t with
  | Trades => [lit "ts"; lit "venue"; lit "symbol"; lit "price"; lit "qty"; lit "side"; lit "recv_ts"; lit "latency_us"; lit "seq"]
  | BookTop => [lit "ts"; lit "venue"; lit "symbol"; lit "bid"; lit "bid_qty"; lit "ask"; lit "ask_qty"; lit "spread_bp"]
  end.
Definition ARCHIVE_TABLES : list Table := [Trades; BookTop].

(** ** CSV *)

(** [csv.writer(buf, lineterminator="\n")]: a field with a comma, a quote or a line break is
    quoted. *)
Definition csv_special (c : Z) : bool := bool_decide (c ∈ [44; 34; 10; 13]).
Definition csv_field (s : pystr) : pystr :=
  if existsb csv_special s then 34 :: concat ((fun c => if c =? 34 then [34; 34] else [c]) <$> s) ++ [34] else s.
Definition csv_line (fields : list pystr) : pystr := Ws.join [44] (csv_field <$> fields) ++ [10].

(** A row's cells hold the texts the writer gives their values. *)
Definition row_fields (r : Row) : list pystr := str_int (ts r) :: cells r.
Definition csv_text (t : Table) (rs : list Row) : pystr :=
  csv_line (columns t) ++ concat ((fun r => csv_line (row_fields r)) <$> rs).

(** The lines a text file has: line feeds, carriage returns and pairs of them end one. *)
Fixpoint count_lines (open : bool) (b : bytes) : Z :=
  match b with
  | [] => if open then 1 else 0
  | 13 :: (10 :: b) => 1 + count_lines false b
  | c :: b => if (c =? 10) || (c =? 13) then 1 + count_lines false b else count_lines true b
  end.

(** Valid UTF-8. *)
Definition utf8_ok (b : bytes) : bool := bool_decide (utf8_encode (utf8_decode_ignore b) = Some b).

(** ** What a CSV text determines *)

Definition esc (s : pystr) : pystr := concat ((fun c => if c =? 34 then [34; 34] else [c]) <$> s).

Lemma esc_cons c s : esc (c :: s) = (if c =? 34 then [34; 34] else [c]) ++ esc s.
Proof. done. Qed.

(** A quoted field ends with the first quote that is not doubled. *)
Lemma esc_inj s : forall s' c c' r r', c <> 34 -> c' <> 34 -> esc s ++ 34 :: c :: r = esc s' ++ 34 :: c' :: r' ->
  s = s' /\ c :: r = c' :: r'.
Proof.
  induction s as [|x s IH]; intros [|y s'] c c' r r' Hc Hc'; rewrite ?esc_cons.
  - by intros [= <- <-].
  - destruct (Z.eqb_spec y 34) as [->|Hy]; cbn; [intros [= ->]; done|intros [= <-]; done].
  - destruct (Z.eqb_spec x 34) as [->|Hx]; cbn; [intros [= <-]; done|intros [= ->]; done].
  - destruct (Z.eqb_spec x 34) as [->|Hx], (Z.eqb_spec y 34) as [->|Hy]; cbn; intros H.
    + injection H as H. by destruct (IH s' c c' r r' Hc Hc' H) as [-> ->].
    + congruence.
    + congruence.
    + injection H as -> H. by destruct (IH s' c c' r r' Hc Hc' H) as [-> ->].
Qed.

(** A plain field ends at the first separator. *)
Lemma plain_inj s : forall s' c c' r r', existsb csv_special s = false -> existsb csv_special s' = false ->
  csv_special c = true -> csv_special c' = true -> s ++ c :: r = s' ++ c' :: r' -> s = s' /\ c :: r = c' :: r'.
Proof.
  induction s as [|x s IH]; intros [|y s'] c c' r r'; cbn [existsb]; rewrite ?orb_false_iff; intros H1 H2 Hc Hc'; cbn; intros E.
  - done.
  - injection E as -> ->. destruct H2. congruence.
  - injection E as -> <-. destruct H1. congruence.
  - injection E as -> E. destruct (IH s' c c' r r' (proj2 H1) (proj2 H2) Hc Hc' E) as [-> ->]. done.
Qed.

Definition sep (c : Z) : Prop := c = 44 \/ c = 10.
Lemma sep_special c : sep c -> csv_special c = true /\ c <> 34.
Proof. intros [-> | ->]; by split. Qed.

Lemma field_inj s s' c c' r r' : sep c -> sep c' -> csv_field s ++ c :: r = csv_field s' ++ c' :: r' -> s = s' /\ c :: r = c' :: r'.
Proof.
  intros [Hc Hc34]%sep_special [Hc' Hc34']%sep_special. unfold csv_field. fold (esc s) (esc s').
  destruct (existsb csv_special s) eqn:E, (existsb csv_special s') eqn:E'; cbn [app]; rewrite <- ?app_assoc; cbn [app].
  - intros [= H]. by apply esc_inj.
  - intros H. exfalso. destruct s' as [|y s']; cbn in H; [injection H as <- _; done|].
    injection H as <- _. done.
  - intros H. exfalso. destruct s as [|x s]; cbn in H; [injection H as -> _; done|].
    injection H as -> _. done.
  - by apply plain_inj.
Qed.

Lemma csv_line_cons s fs : csv_line (s :: fs) = csv_field s ++ match fs with [] => [10] | _ => 44 :: csv_line fs end.
Proof. unfold csv_line. destruct fs; cbn [fmap list_fmap Ws.join]; rewrite <- ?app_assoc; done. Qed.

Lemma line_inj fs : forall fs' r r', fs <> [] -> fs' <> [] -> csv_line fs ++ r = csv_line fs' ++ r' -> fs = fs' /\ r = r'.
Proof.
  induction fs as [|s fs IH]; intros [|s' fs'] r r' H H'; try done. rewrite !csv_line_cons, <- !app_assoc. intros E.
  assert (sep 44 /\ sep 10) as [S1 S2] by (split; [by left|by right]).
  destruct fs as [|s1 fs], fs' as [|s1' fs']; cbn [app] in E; apply field_inj in E as [-> E]; try done.
  - by injection E as ->.
  - injection E as E. apply IH in E as [-> ->]; done.
Qed.

Lemma csv_line_nonempty fs : csv_line fs <> [].
Proof. unfold csv_line. intros H. by apply app_eq_nil in H as [_ H]. Qed.

Lemma lines_inj l : forall l', Forall (fun fs => fs <> []) l -> Forall (fun fs => fs <> []) l' ->
  concat (csv_line <$> l) = concat (csv_line <$> l') -> l = l'.
Proof.
  induction l as [|x l IH]; intros [|y l'] H H'; cbn; intros E; try done.
  - symmetry in E. by apply app_eq_nil in E as [?%csv_line_nonempty _].
  - by apply app_eq_nil in E as [?%csv_line_nonempty _].
  - apply Forall_cons in H as [H1 H2], H' as [H1' H2']. apply line_inj in E as [-> E]; [|done..]. f_equal. by apply IH.
Qed.

(** The text of an export is that of one list of rows. *)
Lemma csv_text_inj t rs rs' : csv_text t rs = csv_text t rs' -> rs = rs'.
Proof.
  unfold csv_text. intros H%app_inv_head. revert H. change (fun r => csv_line (row_fields r)) with (csv_line ∘ row_fields).
  rewrite !list_fmap_compose. intros H%lines_inj; [|by apply Forall_forall; intros ? (? & -> & _)%list_elem_of_fmap..].
  revert rs' H. induction rs as [|r rs IH]; intros [|r' rs']; rewrite ?fmap_cons; try done.
  intros E. injection E as E1%str_int_inj E2 ->%IH. destruct r, r'. cbn in *. by subst.
Qed.

(** ** Files and errors *)

Inductive Exc := ValueError | TypeError | OverflowError | FileNotFound | ZlibError | RemoteArtifactError (reason : string).

(** What [gzip] reads from a file: the text, an error the code catches ([OSError],
    [EOFError], [BadGzipFile]), or the [zlib.error] of a damaged body, which it does not. *)
Inductive Unzipped := Whole (text : bytes) | Broken | Damaged.

Record File := mkFile { data : bytes; mtime : Z }.
Abbreviation FS := (gmap pystr File) (only parsing).

(** What a manifest's text gives: an object, a [ValueError], which the code catches, or a
    value that is no object, whose [TypeError] it does not catch. *)
Inductive Loaded := Object (d : Doc) | Invalid | Not_object.

(** The files and [_VERIFY_CACHE]. *)
Record World := mkWorld { files : FS; cache : gmap (pystr * Z * Z) bool }.
Definition set_files (w : World) (fs : FS) : World := mkWorld fs (cache w).
Definition put (path : pystr) (f : File) (w : World) : World := set_files w (<[path := f]> (files w)).

Section archive.
Variable decimal : Z -> option Z.
Variable float_repr : float -> pystr.
(** [date.isoformat] and [date.fromisoformat]. *)
Variable iso : Z -> pystr.
Variable parse_day : pystr -> option Z.
Variable gzip : bytes -> bytes.
Variable gunzip : bytes -> Unzipped.
(** [json.dump(man, ..., indent=2)] and [Manifest(json.load(fh))]. *)
Variable dump : Doc -> bytes.
Variable load : bytes -> Loaded.
(** [ORDER BY] all columns. *)
Variable order : Table -> list Row -> list Row.

(** ** Manifests *)

(** [str(man.get("sha256", ""))]; the text of a list or an object is no digest. *)
Definition text_of (v : Val) : pystr :=
  match v with
  | VStr s => s
  | VInt z => str_int z
  | VFloat f => float_repr f
  | VBool b => if b then lit "True" else lit "False"
  | VNull => lit "None"
  | VOther => lit "[...]"
  end.
Definition man_sha256 (man : Doc) : pystr := match man !! lit "sha256" with None => [] | Some v => text_of v end.

(** [int(value)], or 0 for a null, a list or an object. *)
Definition int_of (v : Val) : result Exc Z :=
  match v with
  | VInt z => Ok z
  | VBool b => Ok (if b then 1 else 0)
  | VFloat f => match f with S754_nan => Err ValueError | S754_infinity _ => Err OverflowError | _ => Ok (Clock.ftrunc f) end
  | VStr s => match py_int decimal s with Some z => Ok z | None => Err ValueError end
  | VNull | VOther => Ok 0
  end.
Definition man_rows (man : Doc) : result Exc Z := int_of (get "rows" man).
Definition man_bytes (man : Doc) : result Exc Z := int_of (get "bytes" man).

(** [f"{table}-{day.isoformat()}.csv.gz"]. *)
Definition name_ (t : Table) (day : Z) : pystr := table_name t ++ lit "-" ++ iso day ++ lit ".csv.gz".
Definition json_of (path : pystr) : pystr := path ++ lit ".json".

Definition read_manifest (fs : FS) (mpath : pystr) : result Exc (option Doc) :=
  match fs !! mpath with
  | None => Ok None
  | Some f => match load (data f) with Object d => Ok (Some d) | Invalid => Ok None | Not_object => Err TypeError end
  end.

(** ** Verification *)

(** [_verify_file_uncached]; only errors of the operating system and of gzip are caught. *)
Definition verify_uncached (fs : FS) (path : pystr) (man : Doc) : result Exc bool :=
  match fs !! path with
  | None => Ok false
  | Some f =>
      if negb (eq_int (get "bytes" man) (zlen (data f))) then Ok false
      else if negb (bool_decide (hexdigest (sha256 (data f)) = man_sha256 man)) then Ok false
      else
        match gunzip (data f) with
        | Broken => Ok false
        | Damaged => Err ZlibError
        | Whole text =>
            if negb (utf8_ok text) then Err ValueError
            else let! r := man_rows man in Ok (Z.max 0 (count_lines false text - 1) =? r)
        end
  end.

(** [st_mtime] in seconds. *)
Definition mtime_s (f : File) : float :=
  fadd (of_int (mtime f / 1000000000)) (fmul (int_div 1 1000000000) (of_int (mtime f mod 1000000000))).

(** [verify_file]. *)
Definition verify_file (w : World) (now : float) (path : pystr) (man : Doc) (use_cache : bool) : World * result Exc bool :=
  match files w !! path, use_cache with
  | None, true => (w, Ok false)
  | Some f, true =>
      if fle CACHE_SETTLE_S (fsub now (mtime_s f)) then
        let key := (path, zlen (data f), mtime f) in
        match cache w !! key with
        | Some hit => (w, Ok hit)
        | None =>
            match verify_uncached (files w) path man with
            | Ok ok =>
                let c := if (VERIFY_CACHE_MAX <=? size (cache w))%nat then ∅ else cache w in
                (mkWorld (files w) (<[key := ok]> c), Ok ok)
            | Err e => (w, Err e)
            end
        end
      else (w, verify_uncached (files w) path man)
  | _, false => (w, verify_uncached (files w) path man)
  end.

(** ** Versions *)

(** [a or b] of two values. *)
Definition truthy_val (v : Val) : bool :=
  match v with
  | VNull | VStr [] | VInt 0 | VBool false => false
  | VFloat f => truthy f
  | _ => true
  end.
Definition or_val (a b : Val) : Val := if truthy_val a then a else b.

Definition object_id_for_manifest (man : Doc) : result Exc pystr :=
  match or_val (get "source_table" man) (get "table" man), or_val (get "source_day" man) (get "day" man),
        get "source_content_sha256" man with
  | VStr t, VStr d, VStr sha =>
      if zlen sha =? 64 then Ok (lit "archive/" ++ t ++ lit "/" ++ d ++ lit "/" ++ sha ++ lit ".csv.gz")
      else Err (RemoteArtifactError "archive manifest missing source content digest")
  | VStr _, VStr _, _ => Err (RemoteArtifactError "archive manifest missing source content digest")
  | _, _, _ => Err (RemoteArtifactError "archive manifest missing table/day for object id")
  end.

(** [shutil.copy2]: the content and the time. *)
Definition copy2 (src dst : pystr) (w : World) : World :=
  match files w !! src with Some f => put dst f w | None => w end.
Definition copy_if_missing (src dst : pystr) (w : World) : World :=
  match files w !! dst with Some _ => w | None => copy2 src dst w end.

Definition preserve (w : World) (out_dir path mpath : pystr) (man : Doc) : result Exc World :=
  let! id := object_id_for_manifest man in
  let version := Url.path_join out_dir id in
  Ok (copy_if_missing mpath (json_of version) (copy_if_missing path version w)).

(** The files of a directory with a suffix, by name. *)
Definition ends_with (suffix s : pystr) : bool := is_prefix (rev suffix) (rev s).
Definition is_child (dir path : pystr) : bool :=
  is_prefix (dir ++ [47]) path && negb (existsb (Z.eqb 47) (drop (length dir + 1) path)).
Fixpoint insert_str (p : pystr) (l : list pystr) : list pystr :=
  match l with [] => [p] | q :: l => if str_leb p q then p :: q :: l else q :: insert_str p l end.
Definition glob (fs : FS) (dir suffix : pystr) : list pystr :=
  foldr insert_str [] (List.filter (fun p => is_child dir p && ends_with suffix p) (map_to_list fs).*1).

Definition strip_json (mpath : pystr) : pystr := take (length mpath - 5) mpath.

(** The first candidate with the most rows. *)
Definition better (best : option (Z * pystr)) (c : Z * pystr) : option (Z * pystr) :=
  match best with Some b => if b.1 <? c.1 then Some c else best | None => Some c end.

Fixpoint candidates (fs : FS) (manifests : list pystr) : result Exc (list (Z * pystr)) :=
  match manifests with
  | [] => Ok []
  | mp :: manifests =>
      let! m := read_manifest fs mp in
      match m with
      | None => candidates fs manifests
      | Some man =>
          let! ok := verify_uncached fs (strip_json mp) man in
          if ok then
            let! r := man_rows man in
            let! cs := candidates fs manifests in
            Ok ((r, mp) :: cs)
          else candidates fs manifests
      end
  end.

Definition mark_skipped (man : Doc) : Doc := <[lit "skipped" := VBool true]> man.

(** [_restore_versioned_archive]. *)
Definition restore_versioned (w : World) (out_dir : pystr) (t : Table) (day : Z) (path mpath : pystr)
    : World * result Exc (option Doc) :=
  let root := Url.path_join out_dir (lit "archive/" ++ table_name t ++ lit "/" ++ iso day) in
  match candidates (files w) (glob (files w) root (lit ".csv.gz.json")) with
  | Err e => (w, Err e)
  | Ok cs =>
      match foldl better None cs with
      | None => (w, Ok None)
      | Some (_, mp) =>
          let w := copy2 mp mpath (copy2 (strip_json mp) path w) in
          match read_manifest (files w) mpath with
          | Err e => (w, Err e)
          | Ok None => (w, Ok None)
          | Ok (Some man) =>
              match verify_uncached (files w) path man with
              | Err e => (w, Err e)
              | Ok ok => (w, Ok (if ok : bool then Some (mark_skipped man) else None))
              end
          end
      end
  end.

(** ** Exporting a day *)

(** What the export writes of rows, and the manifest beside it. *)
Definition csv_bytes (t : Table) (rs : list Row) : option bytes := utf8_encode (csv_text t (order t rs)).

(** What [_source_day_proof] compares: the digest of the rows' text; rows that have no
    encoding raise and have none. *)
Definition content (t : Table) (rs : list Row) : pystr :=
  match csv_bytes t rs with Some b => hexdigest (sha256 b) | None => [] end.

Definition FORMAT : pystr :=
  lit "csv.gz (" ++ [0xD5E4; 0xB354] ++ lit " 1" ++ [0xC904] ++ lit " " ++ [0xD3EC; 0xD568] ++ lit ", UTF-8, ts " ++
  [0xC624; 0xB984; 0xCC28; 0xC21C] ++ lit ")".
Definition manifest_of (t : Table) (day : Z) (nrows : Z) (csv : bytes) : Doc :=
  let '(lo, hi) := day_bounds_us day in
  list_to_map
    [(lit "table", VStr (table_name t)); (lit "day", VStr (iso day)); (lit "columns", VOther); (lit "rows", VInt nrows);
     (lit "ts_from_us", VInt lo); (lit "ts_to_us", VInt hi);
     (lit "source_table", VStr (table_name t)); (lit "source_day", VStr (iso day));
     (lit "source_from_us", VInt lo); (lit "source_to_us", VInt hi); (lit "source_rows", VInt nrows);
     (lit "source_content_sha256", VStr (hexdigest (sha256 csv)));
     (lit "bytes", VInt (zlen (gzip csv))); (lit "sha256", VStr (hexdigest (sha256 (gzip csv)))); (lit "format", VStr FORMAT)].

(** The part of [export_day] after the checks: a text that has no UTF-8 encoding raises and
    leaves the unfinished file under its other name. *)
Definition write_day (w : World) (now_ns : Z) (s : Store) (t : Table) (day : Z) (out_dir path mpath : pystr)
    : World * result Exc Doc :=
  let rs := day_rows t day s in
  match csv_bytes t rs with
  | None => (w, Err ValueError)
  | Some csv =>
      let man := manifest_of t day (zlen rs) csv in
      let w := put mpath (mkFile (dump man) now_ns) (put path (mkFile (gzip csv) now_ns) w) in
      match preserve w out_dir path mpath man with
      | Ok w => (w, Ok man)
      | Err e => (w, Err e)
      end
  end.

(** [export_day] of one of the archive's tables. *)
Definition export_day (w : World) (now : float) (now_ns : Z) (s : Store) (t : Table) (day : Z) (out_dir : pystr)
    : World * result Exc Doc :=
  let path := Url.path_join out_dir (name_ t day) in
  let mpath := json_of path in
  let fresh w :=
    match restore_versioned w out_dir t day path mpath with
    | (w, Err e) => (w, Err e)
    | (w, Ok (Some man)) => (w, Ok man)
    | (w, Ok None) => write_day w now_ns s t day out_dir path mpath
    end in
  match read_manifest (files w) mpath with
  | Err e => (w, Err e)
  | Ok None => fresh w
  | Ok (Some man) =>
      if bool_decide (man = ∅) then fresh w
      else
        match verify_file w now path man true with
        | (w, Err e) => (w, Err e)
        | (w, Ok false) => fresh w
        | (w, Ok true) =>
            match preserve w out_dir path mpath man with
            | Ok w => (w, Ok (mark_skipped man))
            | Err e => (w, Err e)
            end
        end
  end.

(** ** The remote store *)

(** What the commands do: whether the two pushes end well, and what the two fetches leave
    under the name they are given (nothing, when they succeed without a file). *)
Record Remote := mkRemote
  { push_artifact : bool; push_manifest : bool;
    fetch_artifact : option (option bytes); fetch_manifest : option (option bytes) }.

Definition dotdot_part (id : pystr) : bool := existsb (fun p => bool_decide (p = Url.dotdot)) (split_char 47 id).
Definition validate_object_id (id : pystr) : result Exc unit :=
  if bool_decide (id = []) || is_prefix [47] id || dotdot_part id
  then Err (RemoteArtifactError "remote object id must be a relative immutable name") else Ok tt.

(** [_run_transfer] with well-formed commands. *)
Definition transfer {A} (id : pystr) (done : option A) : result Exc A :=
  let! _ := validate_object_id id in
  match done with Some a => Ok a | None => Err (RemoteArtifactError "remote transfer failed") end.
Definition pushed (b : bool) : option unit := if b then Some tt else None.
Definition must_exist (f : option bytes) : result Exc bytes := match f with Some b => Ok b | None => Err FileNotFound end.

(** [!=] on what two JSON values hold, as far as a verified size can be either. *)
Definition val_eq (a b : Val) : bool :=
  match a, b with
  | VStr x, VStr y => bool_decide (x = y)
  | VInt z, v | v, VInt z => eq_int v z
  | VBool x, v | v, VBool x => eq_int v (if x then 1 else 0)
  | VFloat f, VFloat g => feq f g
  | VNull, VNull => true
  | _, _ => false
  end.

Definition opt_text (v : Val) : Val := match v with VNull => VNull | v => VStr (text_of v) end.
Definition manifest_int (v : Val) : Val := match v with VInt z => VInt z | VBool b => VBool b | _ => VNull end.

(** [RemoteArtifactReceipt.to_json]. *)
Definition receipt_doc (id artifact manifest : pystr) (t : Table) (day : Z) (man : Doc) (sha : pystr) (lb lr : Z)
    (rsha : pystr) (rb rr : Z) (msha rmsha verified_at transport : pystr) : Doc :=
  list_to_map
    [(lit "schema_version", VInt REMOTE_RECEIPT_SCHEMA_VERSION); (lit "object_id", VStr id); (lit "artifact", VStr artifact);
     (lit "manifest", VStr manifest); (lit "table", VStr (table_name t)); (lit "day", VStr (iso day));
     (lit "local_sha256", VStr sha); (lit "local_bytes", VInt lb); (lit "local_rows", VInt lr);
     (lit "remote_fetch_sha256", VStr rsha); (lit "remote_fetch_bytes", VInt rb); (lit "remote_fetch_rows", VInt rr);
     (lit "manifest_sha256", VStr msha); (lit "remote_manifest_sha256", VStr rmsha);
     (lit "source_table", opt_text (get "source_table" man)); (lit "source_day", opt_text (get "source_day" man));
     (lit "source_from_us", manifest_int (get "source_from_us" man)); (lit "source_to_us", manifest_int (get "source_to_us" man));
     (lit "source_rows", manifest_int (get "source_rows" man));
     (lit "source_content_sha256", opt_text (get "source_content_sha256" man));
     (lit "verified_at", VStr verified_at); (lit "transport", VStr transport); (lit "status", VStr (lit "verified"))].

Definition guard (b : bool) (why : string) : result Exc unit := if b then Ok tt else Err (RemoteArtifactError why).

Definition base_name (path : pystr) : pystr := rev (break_at (Z.eqb 47) (rev path)).1.

(** [verify_remote_roundtrip] for a table and a day: the receipt, as it is written into the
    receipt directory. *)
Definition verify_remote_roundtrip (w : World) (path : pystr) (id : pystr) (rem : Remote) (t : Table) (day : Z)
    (push_first : bool) (verified_at transport : pystr) : result Exc Doc :=
  let mpath := json_of path in
  let! m := read_manifest (files w) mpath in
  match m, files w !! mpath with
  | Some man, Some mf =>
      let! ok := verify_uncached (files w) path man in
      let! _ := guard ok "local artifact does not match its manifest" in
      let msha := hexdigest (sha256 (data mf)) in
      let! _ := (if push_first then let! _ := transfer id (pushed (push_artifact rem)) in transfer (json_of id) (pushed (push_manifest rem))
                 else Ok tt) in
      let! fa := transfer id (fetch_artifact rem) in
      let! fm := transfer (json_of id) (fetch_manifest rem) in
      let! fm := must_exist fm in
      let rmsha := hexdigest (sha256 fm) in
      let! _ := guard (bool_decide (rmsha = msha)) "fetched manifest digest does not match local manifest" in
      match load fm with
      | Not_object => Err TypeError
      | Invalid => Err (RemoteArtifactError "fetched artifact does not match fetched manifest")
      | Object fman =>
          let fetched : FS := match fa with Some b => {[lit "artifact" := mkFile b 0]} | None => ∅ end in
          let! ok := verify_uncached fetched (lit "artifact") fman in
          let! _ := guard ok "fetched artifact does not match fetched manifest" in
          let! fr := man_rows fman in
          let! lr := man_rows man in
          let! _ := guard (bool_decide (man_sha256 fman = man_sha256 man) && (fr =? lr) && val_eq (get "bytes" fman) (get "bytes" man))
                      "fetched manifest content does not match local manifest" in
          let! lb := man_bytes man in
          let! rb := man_bytes fman in
          Ok (receipt_doc id (base_name path) (base_name mpath) t day man (man_sha256 man) lb lr (man_sha256 fman) rb fr
                msha rmsha verified_at transport)
      end
  | _, _ => Err (RemoteArtifactError "local manifest is missing or invalid")
  end.

(** [archive_day_remote]. *)
Definition archive_day_remote (w : World) (now : float) (now_ns : Z) (s : Store) (t : Table) (day : Z) (out_dir : pystr)
    (rem : Remote) (verified_at transport : pystr) : World * result Exc (Doc * Doc) :=
  match export_day w now now_ns s t day out_dir with
  | (w, Err e) => (w, Err e)
  | (w, Ok man) =>
      (w, let! id := object_id_for_manifest man in
          let! r := verify_remote_roundtrip w (Url.path_join out_dir (name_ t day)) id rem t day true verified_at transport in
          Ok (man, r))
  end.

(** ** The days that are archived *)

(** [n[len(prefix):-len(".csv.gz")]]. *)
Definition name_day (t : Table) (n : pystr) : pystr :=
  drop (length (table_name t) + 1) (take (length n - 7) n).

Definition is_artifact (t : Table) (n : pystr) : bool := is_prefix (table_name t ++ [45]) n && ends_with (lit ".csv.gz") n.

(** The loop of [archived_days] over the directory's names; an error ends it. *)
Fixpoint verified_days (w : World) (now : float) (dir : pystr) (t : Table) (names : list pystr) : World * result Exc (list Z) :=
  match names with
  | [] => (w, Ok [])
  | n :: names =>
      let path := Url.path_join dir n in
      if negb (is_artifact t n) then verified_days w now dir t names
      else
        match read_manifest (files w) (json_of path) with
        | Err e => (w, Err e)
        | Ok None => verified_days w now dir t names
        | Ok (Some man) =>
            if bool_decide (man = ∅) then verified_days w now dir t names
            else
              match verify_file w now path man true with
              | (w, Err e) => (w, Err e)
              | (w, Ok false) => verified_days w now dir t names
              | (w, Ok true) =>
                  match verified_days w now dir t names with
                  | (w, Ok ds) => (w, Ok (match parse_day (name_day t n) with Some d => d :: ds | None => ds end))
                  | r => r
                  end
              end
        end
  end.

(** [os.listdir], sorted. *)
Definition listdir (fs : FS) (dir : pystr) : list pystr := drop (length dir + 1) <$> glob fs dir [].
Definition archived_days (w : World) (now : float) (dir : pystr) (t : Table) : World * result Exc (list Z) :=
  verified_days w now dir t (listdir (files w) dir).

(** The first day from [day] on that is not common. *)
Fixpoint first_gap (fuel : nat) (common : gset Z) (day : Z) : Z :=
  match fuel with O => day | S fuel => if bool_decide (day ∈ common) then first_gap fuel common (day + 1) else day end.
Definition min_day (common : gset Z) : option Z :=
  match elements common with [] => None | d :: ds => Some (foldl Z.min d ds) end.
Definition cutoff_of (common : gset Z) : Z :=
  match min_day common with
  | None => 0
  | Some day => day_start_us (first_gap (size common) common day)
  end.

(** [safe_delete_cutoff_us] of both tables. *)
Definition safe_delete_cutoff_us (w : World) (now : float) (dir : pystr) : World * result Exc Z :=
  match archived_days w now dir Trades with
  | (w, Err e) => (w, Err e)
  | (w, Ok d1) =>
      match archived_days w now dir BookTop with
      | (w, Err e) => (w, Err e)
      | (w, Ok d2) => (w, Ok (cutoff_of (list_to_set d1 ∩ list_to_set d2)))
      end
  end.

(** [_looks_like_sha256]; [str.lower] changes no other character into a digit of these. *)
Definition looks_like_sha256 (v : Val) : bool := bool_decide (is_Some (is_sha256 v)).
Definition same_str (a b : Val) : bool := match a, b with VStr x, VStr y => bool_decide (x = y) | _, _ => false end.

(** What one receipt file says, which [remote_receipt_days] reads. *)
Definition receipt_day (t : Table) (d : Doc) : option Z :=
  if eq_int (get "schema_version" d) REMOTE_RECEIPT_SCHEMA_VERSION
     && eq_str (get "status" d) (lit "verified") && eq_str (get "table" d) (table_name t) then
    match get "day" d with
    | VStr day_value =>
        if forallb (fun k => looks_like_sha256 (get k d))
             ["local_sha256"; "remote_fetch_sha256"; "manifest_sha256"; "remote_manifest_sha256"; "source_content_sha256"]%string
           && same_str (get "local_sha256" d) (get "remote_fetch_sha256" d)
           && same_str (get "manifest_sha256" d) (get "remote_manifest_sha256" d)
           && eq_str (get "source_table" d) (table_name t) && eq_str (get "source_day" d) day_value
        then parse_day day_value else None
    | _ => None
    end
  else None.
Definition remote_receipt_days (docs : list Doc) (t : Table) : gset Z := list_to_set (omap (receipt_day t) docs).

Definition max_ts (rs : list Row) : option Z :=
  match rs with [] => None | r :: rs => Some (foldl (fun m r => Z.max m (ts r)) (ts r) rs) end.

(** [pending_days], given the days it has. *)
Definition pending_days (s : Store) (t : Table) (lag_s now : float) (have : gset Z) : list Z :=
  match min_ts (rows_of t s), max_ts (rows_of t s) with
  | Some lo, Some hi =>
      if lo =? 0 then []
      else
        List.filter (fun day => fle (fdiv (of_int (day_bounds_us day).2) (of_int 1000000)) (fsub now lag_s) && negb (bool_decide (day ∈ have)))
          (seqZ (day_of lo) (day_of hi - day_of lo + 1))
  | _, _ => []
  end.

End archive.

(** ** Collisions *)

(** Two of the contents have one digest. *)
Definition collides (l : list bytes) : Prop := exists a b, a ∈ l /\ b ∈ l /\ a <> b /\ sha256 a = sha256 b.
Definition distinguished (l : list bytes) : Prop := forall a b, a ∈ l -> b ∈ l -> sha256 a = sha256 b -> a = b.

Lemma collides_or l : collides l \/ distinguished l.
Proof.
  destruct (decide (Exists (fun a => Exists (fun b => a <> b /\ sha256 a = sha256 b) l) l)) as [H|H].
  - left. apply Exists_exists in H as (a & Ha & H). apply Exists_exists in H as (b & Hb & H1 & H2). by exists a, b.
  - right. intros a b Ha Hb E. destruct (decide (a = b)) as [|Hne]; [done|]. destruct H.
    apply Exists_exists. exists a. split; [done|]. apply Exists_exists. by exists b.
Qed.

Lemma same_digest l a b : distinguished l -> a ∈ l -> b ∈ l -> hexdigest (sha256 a) = hexdigest (sha256 b) -> a = b.
Proof. intros H Ha Hb E. apply H; [done..|]. by apply hexdigest_inj in E; [|apply sha256_ok..]. Qed.

Lemma digest_nonempty b : hexdigest (sha256 b) <> [].
Proof. intros H%(f_equal length). by rewrite hexdigest_length, sha256_length in H. Qed.

(** ** Encoding rows *)

Definition enc (s : pystr) : Prop := is_Some (utf8_encode s).

Lemma enc_app s s' : enc (s ++ s') <-> enc s /\ enc s'.
Proof.
  unfold enc. rewrite utf8_encode_app, <- !not_eq_None_Some.
  destruct (utf8_encode s), (utf8_encode s'); cbn; naive_solver.
Qed.

Lemma enc_concat l : enc (concat l) <-> Forall enc l.
Proof.
  induction l as [|s l IH]; cbn; [split; [by constructor|by eexists]|]. by rewrite enc_app, Forall_cons, IH.
Qed.

Section encoding.
Variable order : Table -> list Row -> list Row.
Hypothesis order_perm : forall t rs, order t rs ≡ₚ rs.
#[local] Set Default Proof Using "All".

Lemma csv_bytes_enc t rs : is_Some (csv_bytes order t rs) <-> enc (csv_line (columns t)) /\ forall r, r ∈ rs -> enc (csv_line (row_fields r)).
Proof.
  unfold csv_bytes, csv_text. fold (enc (csv_line (columns t) ++ concat ((fun r => csv_line (row_fields r)) <$> order t rs))).
  rewrite enc_app, enc_concat, Forall_fmap, Forall_forall. by setoid_rewrite order_perm.
Qed.

Lemma csv_bytes_sub t rs rs' : is_Some (csv_bytes order t rs) -> (forall r, r ∈ rs' -> r ∈ rs) -> is_Some (csv_bytes order t rs').
Proof. rewrite !csv_bytes_enc. intros [H1 H2] H. split; [done|]. intros r Hr. by apply H2, H. Qed.

(** The archived text determines the rows. *)
Lemma csv_bytes_rows t rs rs' b : csv_bytes order t rs = Some b -> csv_bytes order t rs' = Some b -> rs ≡ₚ rs'.
Proof.
  unfold csv_bytes. intros H H'. pose proof (utf8_roundtrip _ _ [] H) as E. rewrite (utf8_roundtrip _ _ [] H') in E.
  apply app_inv_tail, csv_text_inj in E. by rewrite <- (order_perm t rs), <- (order_perm t rs'), E.
Qed.

(** The contents whose digest is that of rows. *)
Definition row_contents (t : Table) (rs : list Row) : list bytes :=
  match csv_bytes order t rs with Some b => [b] | None => [] end.

Lemma content_rows l t rs rs' b : distinguished l -> b ∈ l -> (forall x, x ∈ row_contents t rs' -> x ∈ l) ->
  csv_bytes order t rs = Some b -> content order t rs' = hexdigest (sha256 b) -> csv_bytes order t rs' = Some b /\ rs' ≡ₚ rs.
Proof.
  unfold content, row_contents. intros Hl Hb Hin H H'. destruct (csv_bytes order t rs') as [b'|] eqn:E; [|by destruct (digest_nonempty b)].
  assert (b' = b) as -> by (eapply same_digest; [exact Hl|apply Hin; by left|done|done]). split; [done|]. by eapply csv_bytes_rows.
Qed.
End encoding.

(** ** Paths *)

Lemma ends_with_spec suffix s : ends_with suffix s = true <-> exists k, s = k ++ suffix.
Proof.
  unfold ends_with. rewrite is_prefix_spec. split.
  - intros [k Hk]. exists (rev k). apply (f_equal (@rev Z)) in Hk. by rewrite rev_app_distr, !rev_involutive in Hk.
  - intros [k ->]. exists (rev k). by rewrite rev_app_distr.
Qed.

Lemma path_join_suffix a b : exists k, Url.path_join a b = k ++ b.
Proof.
  unfold Url.path_join. repeat case_match; solve [by exists []|by eexists|by exists a|by exists (a ++ [47]); rewrite <- app_assoc].
Qed.

Lemma ends_join suffix a k : ends_with suffix (Url.path_join a (k ++ suffix)) = true.
Proof. apply ends_with_spec. destruct (path_join_suffix a (k ++ suffix)) as [k' ->]. exists (k' ++ k). by rewrite app_assoc. Qed.

Lemma ends_json path : ends_with (lit ".json") (json_of path) = true.
Proof. apply ends_with_spec. by exists path. Qed.

Lemma not_json path : ends_with (lit ".csv.gz") path = true -> ends_with (lit ".json") path = false.
Proof.
  intros [k ->]%ends_with_spec. destruct (ends_with (lit ".json") _) eqn:E; [|done]. apply ends_with_spec in E as [k' E].
  apply (f_equal list.last) in E. by rewrite !last_app in E.
Qed.

Lemma glob_spec fs dir suffix p : p ∈ glob fs dir suffix -> is_child dir p = true /\ ends_with suffix p = true.
Proof.
  unfold glob. assert (forall l, p ∈ foldr insert_str [] l -> p ∈ l) as Hins.
  { assert (forall q l, p ∈ insert_str q l -> p = q \/ p ∈ l) as H1.
    { intros q l. induction l as [|x l IH]; cbn; [intros [->|H]%elem_of_cons; [by left|by apply elem_of_nil in H]|].
      destruct (str_leb q x); [by intros [->|H]%elem_of_cons; [left|right]|].
      intros [->|H]%elem_of_cons; [right; by left|]. apply IH in H as [->|H]; [by left|right; by right]. }
    induction l as [|x l IH]; [done|]. cbn. intros [->|H]%H1; [by left|right; by apply IH]. }
  intros H%Hins%list_elem_of_In%List.filter_In. by destruct H as [_ [H1 H2]%andb_true_iff].
Qed.

(** ** The archive holds exports' manifests *)

(** A table's rows of a day, as an export found them. *)
Record Export := mkExport { ex_table : Table; ex_day : Z; ex_rows : list Row }.
Definition export_of (s : Store) (t : Table) (day : Z) : Export := mkExport t day (day_rows t day s).

Section copies.
Context (decimal : Z -> option Z) (float_repr : float -> pystr) (iso : Z -> pystr) (gzip : bytes -> bytes)
  (gunzip : bytes -> Unzipped) (dump : Doc -> bytes) (load : bytes -> Loaded) (order : Table -> list Row -> list Row).
Hypothesis gunzip_gzip : forall b, gunzip (gzip b) = Whole b.
Hypothesis load_dump : forall t day n csv, load (dump (manifest_of iso gzip t day n csv)) = Object (manifest_of iso gzip t day n csv).
Hypothesis order_perm : forall t rs, order t rs ≡ₚ rs.
#[local] Set Default Proof Using "All".

(** The exports that were ever made. *)
Variable exports : list Export.

(** The manifest file of one of them. *)
Definition exported (b : bytes) : Prop := exists e csv, e ∈ exports /\ csv_bytes order (ex_table e) (ex_rows e) = Some csv /\
  b = dump (manifest_of iso gzip (ex_table e) (ex_day e) (zlen (ex_rows e)) csv).

(** Where the archive reads manifests. *)
Definition day_root (dir : pystr) (t : Table) (day : Z) : pystr :=
  Url.path_join dir (lit "archive/" ++ table_name t ++ lit "/" ++ iso day).
Definition manifest_path (dir p : pystr) : Prop :=
  (exists t day, p = json_of (Url.path_join dir (name_ iso t day))) \/
  exists t day, is_child (day_root dir t day) p = true /\ ends_with (lit ".csv.gz.json") p = true.

Definition archive_ok (dir : pystr) (w : World) : Prop := forall p f man,
  manifest_path dir p -> files w !! p = Some f -> load (data f) = Object man -> exported (data f).

Lemma manifest_path_json dir p : manifest_path dir p -> ends_with (lit ".json") p = true.
Proof.
  intros [(t & day & ->)|(t & day & _ & [k ->]%ends_with_spec)]; [apply ends_json|].
  apply ends_with_spec. exists (k ++ lit ".csv.gz"). by rewrite <- app_assoc.
Qed.

Lemma artifact_no_manifest dir p : ends_with (lit ".csv.gz") p = true -> ~ manifest_path dir p.
Proof. intros H%not_json H'%manifest_path_json. congruence. Qed.

Lemma name_artifact dir t day : ends_with (lit ".csv.gz") (Url.path_join dir (name_ iso t day)) = true.
Proof. unfold name_. rewrite !app_assoc. exact (ends_join _ _ _). Qed.

Lemma put_ok dir p f w : archive_ok dir w -> (manifest_path dir p -> forall man, load (data f) = Object man -> exported (data f)) ->
  archive_ok dir (put p f w).
Proof.
  intros Hw Hf p' f' man Hp. unfold put, set_files. cbn [files]. destruct (decide (p = p')) as [->|Hne].
  - rewrite lookup_insert_eq. intros [= <-]. by apply Hf.
  - rewrite lookup_insert_ne by done. by apply Hw.
Qed.

Lemma copy2_ok dir src dst w : archive_ok dir w -> (manifest_path dir dst -> manifest_path dir src) -> archive_ok dir (copy2 src dst w).
Proof.
  intros Hw H. unfold copy2. destruct (files w !! src) as [f|] eqn:E; [|done]. apply put_ok; [done|].
  intros Hd man. apply (Hw src); auto.
Qed.

Lemma copy_if_missing_ok dir src dst w : archive_ok dir w -> (manifest_path dir dst -> manifest_path dir src) ->
  archive_ok dir (copy_if_missing src dst w).
Proof. intros. unfold copy_if_missing. destruct (files w !! dst); [done|]. by apply copy2_ok. Qed.

Lemma object_id_ends man id : object_id_for_manifest man = Ok id -> exists k, id = k ++ lit ".csv.gz".
Proof.
  assert (forall a b c d e f g : pystr, exists k, a ++ b ++ c ++ d ++ e ++ f ++ g = k ++ g) as H.
  { intros. exists (a ++ b ++ c ++ d ++ e ++ f). by rewrite <- !app_assoc. }
  unfold object_id_for_manifest. repeat case_match; try done.
  intros E. apply (f_equal (fun r => match r with Ok x => x | Err _ => id end)) in E. cbv beta iota in E. rewrite <- E. apply H.
Qed.

Lemma preserve_ok dir w path mpath man w' : archive_ok dir w -> manifest_path dir mpath ->
  preserve w dir path mpath man = Ok w' -> archive_ok dir w'.
Proof.
  intros Hw Hm. unfold preserve. destruct (object_id_for_manifest man) as [id|] eqn:E; [|done]. intros [= <-].
  destruct (object_id_ends _ _ E) as [k ->]. apply copy_if_missing_ok; [|done]. apply copy_if_missing_ok; [done|].
  intros H. by destruct (artifact_no_manifest _ _ (ends_join _ _ _) H).
Qed.

Lemma candidates_from fs l cs : candidates decimal float_repr gunzip load fs l = Ok cs -> Forall (fun c => c.2 ∈ l) cs.
Proof.
  revert cs. induction l as [|mp l IH]; intros cs; cbn [candidates]; [intros [= <-]; constructor|].
  assert (forall cs, Forall (fun c => c.2 ∈ l) cs -> Forall (fun c : Z * pystr => c.2 ∈ mp :: l) cs) as Hm.
  { intros cs0 H. apply (Forall_impl _ _ _ H). intros c Hc. by right. }
  destruct (read_manifest load fs mp) as [[man|]|]; cbn [rbind]; try done; [|by intros ?%IH; auto].
  destruct (verify_uncached _ _ _ fs (strip_json mp) man) as [[]|]; cbn [rbind]; try done; [|by intros ?%IH; auto].
  destruct (man_rows decimal man) as [r|]; cbn [rbind]; try done.
  destruct (candidates _ _ _ _ fs l) as [cs0|]; cbn [rbind]; [|done]. intros [= <-]. constructor; [by left|]. auto.
Qed.

Lemma best_from cs : forall b, foldl better None cs = Some b -> b ∈ cs.
Proof.
  assert (forall cs o b, foldl better o cs = Some b -> o = Some b \/ b ∈ cs) as G.
  { clear cs. induction cs as [|c cs IH]; intros o b; cbn [foldl]; [by left|]. intros [H|H]%IH; [|right; by right].
    unfold better in H. destruct o as [o|]; [destruct (o.1 <? c.1)|]; [|by left|]; injection H as ->; right; by left. }
  intros b H. by apply G in H as [H|H].
Qed.

Lemma restore_ok dir w t day w' r : archive_ok dir w ->
  restore_versioned decimal float_repr iso gunzip load w dir t day (Url.path_join dir (name_ iso t day))
    (json_of (Url.path_join dir (name_ iso t day))) = (w', r) -> archive_ok dir w'.
Proof.
  intros Hw. unfold restore_versioned. destruct (candidates _ _ _ _ (files w) _) as [cs|] eqn:Ec; [|by intros [= <- _]].
  destruct (foldl better None cs) as [[n mp]|] eqn:Eb; [|by intros [= <- _]].
  apply best_from in Eb. pose proof (proj1 (Forall_forall _ _) (candidates_from _ _ _ Ec) _ Eb) as Hmp. cbn [snd] in Hmp.
  set (w1 := copy2 mp _ _). assert (archive_ok dir w1) as H1.
  { apply copy2_ok; [apply copy2_ok; [done|]|].
    - intros H. destruct (artifact_no_manifest _ _ (name_artifact dir t day) H).
    - intros _. right. exists t, day. by apply glob_spec in Hmp. }
  destruct (read_manifest load (files w1) _) as [[man|]|]; [|by intros [= <- _]..].
  destruct (verify_uncached _ _ _ _ _ man); by intros [= <- _].
Qed.

Lemma write_day_ok dir w now_ns s t day w' r : archive_ok dir w -> export_of s t day ∈ exports ->
  write_day iso gzip dump order w now_ns s t day dir (Url.path_join dir (name_ iso t day))
    (json_of (Url.path_join dir (name_ iso t day))) = (w', r) -> archive_ok dir w'.
Proof.
  intros Hw He. unfold write_day. destruct (csv_bytes order t _) as [csv|] eqn:Ec; [|by intros [= <- _]].
  set (w1 := put _ _ (put _ _ w)). assert (archive_ok dir w1) as H1.
  { apply put_ok; [apply put_ok; [done|]|].
    - intros H. destruct (artifact_no_manifest _ _ (name_artifact dir t day) H).
    - intros _ man _. by exists (export_of s t day), csv. }
  destruct (preserve w1 _ _ _ _) as [w2|] eqn:Ep; intros [= <- _]; [|done].
  apply (preserve_ok _ _ _ _ _ _ H1) in Ep; [done|]. left. by exists t, day.
Qed.

Lemma verify_file_files w now path man c w' r : verify_file decimal float_repr gunzip w now path man c = (w', r) -> files w' = files w.
Proof. unfold verify_file. repeat case_match; by intros [= <- _]. Qed.

Lemma archive_ok_files dir w w' : files w' = files w -> archive_ok dir w -> archive_ok dir w'.
Proof. intros E H. unfold archive_ok. by rewrite E. Qed.

(** Exporting keeps the archive's manifests those of exports. *)
Lemma export_day_ok dir w now now_ns s t day w' r : archive_ok dir w -> export_of s t day ∈ exports ->
  export_day decimal float_repr iso gzip gunzip dump load order w now now_ns s t day dir = (w', r) -> archive_ok dir w'.
Proof.
  intros Hw He. unfold export_day. set (path := Url.path_join dir (name_ iso t day)).
  assert (forall w0, archive_ok dir w0 -> forall w' r,
    match restore_versioned decimal float_repr iso gunzip load w0 dir t day path (json_of path) with
    | (w, Err e) => (w, Err e)
    | (w, Ok (Some man)) => (w, Ok man)
    | (w, Ok None) => write_day iso gzip dump order w now_ns s t day dir path (json_of path)
    end = (w', r) -> archive_ok dir w') as Hfresh.
  { intros w0 H0 w1 r1. destruct (restore_versioned _ _ _ _ _ w0 _ _ _ _ _) as [w2 [[man|]|]] eqn:E;
      apply (restore_ok _ _ _ _ _ _ H0) in E; [by intros [= <- _]| |by intros [= <- _]]. intros Hd. by apply (write_day_ok _ _ _ _ _ _ _ _ E He Hd). }
  destruct (read_manifest load (files w) (json_of path)) as [[man|]|]; [|by apply Hfresh|by intros [= <- _]].
  case_bool_decide; [by apply Hfresh|]. destruct (verify_file _ _ _ w now path man true) as [w1 [[]|]] eqn:E;
    pose proof (archive_ok_files _ _ _ (verify_file_files _ _ _ _ _ _ _ E) Hw) as H1; [|by apply Hfresh|by intros [= <- _]].
  destruct (preserve w1 _ _ _ _) as [w2|] eqn:Ep; intros [= <- _]; [|done].
  apply (preserve_ok _ _ _ _ _ _ H1) in Ep; [done|]. left. by exists t, day.
Qed.

(** ** What manifests and receipts say *)

Lemma manifest_sha t day n csv : man_sha256 float_repr (manifest_of iso gzip t day n csv) = hexdigest (sha256 (gzip csv)).
Proof. reflexivity. Qed.

Lemma manifest_source t day n csv :
  get "source_table" (manifest_of iso gzip t day n csv) = VStr (table_name t) /\
  get "source_content_sha256" (manifest_of iso gzip t day n csv) = VStr (hexdigest (sha256 csv)).
Proof. by split. Qed.

Lemma receipt_source id a m t day man sha lb lr rsha rb rr msha rmsha va tr :
  forall d, receipt_doc float_repr iso id a m t day man sha lb lr rsha rb rr msha rmsha va tr = d ->
  get "source_table" d = opt_text float_repr (get "source_table" man) /\
  get "source_content_sha256" d = opt_text float_repr (get "source_content_sha256" man).
Proof. intros d <-. by split. Qed.

Lemma verified_digest fs p man : verify_uncached decimal float_repr gunzip fs p man = Ok true ->
  exists f, fs !! p = Some f /\ hexdigest (sha256 (data f)) = man_sha256 float_repr man.
Proof.
  unfold verify_uncached. destruct (fs !! p) as [f|]; [|done]. destruct (negb (eq_int _ _)); [done|].
  case_bool_decide; cbn [negb]; [|done]. intros _. by exists f.
Qed.

Lemma transfer_done {A} id (x : option A) a : transfer id x = Ok a -> x = Some a.
Proof. unfold transfer. destruct (validate_object_id id); cbn; [|done]. by destruct x; intros [= ->]. Qed.

Lemma guard_ok b why : guard b why = Ok tt -> b = true.
Proof. by destruct b. Qed.

(** ** The contents whose digests are compared *)

Definition export_contents (e : Export) : list bytes :=
  match csv_bytes order (ex_table e) (ex_rows e) with
  | Some csv => [csv; gzip csv; dump (manifest_of iso gzip (ex_table e) (ex_day e) (zlen (ex_rows e)) csv)]
  | None => []
  end.
Definition content_of (f : option (option bytes)) : list bytes := match f with Some (Some b) => [b] | _ => [] end.
Definition fetched (rem : Remote) : list bytes := content_of (fetch_artifact rem) ++ content_of (fetch_manifest rem).
(** The rows before and after each deletion. *)
Definition compared_rows (l : list Deletion) : list (Table * list Row) := d ← l; (fun rs => (dl_table d, rs)) <$> compared d.
Definition digested (archive : list (Remote * Doc)) (rows : list (Table * list Row)) : list bytes :=
  (exports ≫= export_contents) ++ (archive ≫= (fun rd => fetched rd.1)) ++ (rows ≫= (fun q => row_contents order q.1 q.2)).

Lemma export_digested archive rows e b : e ∈ exports -> b ∈ export_contents e -> b ∈ digested archive rows.
Proof. intros He Hb. apply elem_of_app. left. apply list_elem_of_bind. by exists e. Qed.
Lemma fetched_digested archive rows rem d b : (rem, d) ∈ archive -> b ∈ fetched rem -> b ∈ digested archive rows.
Proof. intros He Hb. apply elem_of_app. right. apply elem_of_app. left. apply list_elem_of_bind. by exists (rem, d). Qed.
Lemma rows_digested archive rows t rs b : (t, rs) ∈ rows -> b ∈ row_contents order t rs -> b ∈ digested archive rows.
Proof. intros He Hb. apply elem_of_app. right. apply elem_of_app. right. apply list_elem_of_bind. by exists (t, rs). Qed.

(** ** The copy that was fetched back *)

(** What a verified round trip fetched back is the export that the local manifest tells of. *)
Lemma roundtrip_copy l dir w path id rem t day push va tr doc : archive_ok dir w -> manifest_path dir (json_of path) ->
  distinguished l -> (forall e b, e ∈ exports -> b ∈ export_contents e -> b ∈ l) -> (forall b, b ∈ fetched rem -> b ∈ l) ->
  verify_remote_roundtrip decimal float_repr iso gunzip load w path id rem t day push va tr = Ok doc ->
  exists e csv b, e ∈ exports /\ fetch_artifact rem = Some (Some b) /\ gunzip b = Whole csv /\
    csv_bytes order (ex_table e) (ex_rows e) = Some csv /\ get "source_table" doc = VStr (table_name (ex_table e)) /\
    get "source_content_sha256" doc = VStr (hexdigest (sha256 csv)).
Proof.
  intros Hw Hm Hl Hle Hlf. unfold verify_remote_roundtrip, read_manifest. destruct (files w !! json_of path) as [mf|] eqn:Ef; [|done].
  destruct (load (data mf)) as [man| |] eqn:El; cbn [rbind]; [|done..].
  destruct (Hw _ _ _ Hm Ef El) as (e & csv & He & Hcsv & Emf). rewrite Emf, load_dump in El. injection El as <-.
  assert (forall x, x ∈ [csv; gzip csv; data mf] -> x ∈ l) as Hx.
  { intros x Hx. apply (Hle e); [done|]. unfold export_contents. by rewrite Hcsv, <- Emf. }
  pose proof (load_dump (ex_table e) (ex_day e) (zlen (ex_rows e)) csv) as El. rewrite <- Emf in El.
  set (man := manifest_of _ _ _ _ _ _) in *.
  destruct (verify_uncached _ _ _ (files w) path man) as [ok|]; cbn [rbind]; [|done].
  destruct (guard ok _); cbn [rbind]; [|done]. destruct (if push then _ else _); cbn [rbind]; [|done].
  destruct (transfer id (fetch_artifact rem)) as [fa|] eqn:Ea; cbn [rbind]; [|done]. apply transfer_done in Ea.
  destruct (transfer (json_of id) (fetch_manifest rem)) as [fm|] eqn:Em; cbn [rbind]; [|done]. apply transfer_done in Em.
  destruct fm as [fb|]; cbn [must_exist rbind]; [|done].
  destruct (guard (bool_decide _) _) as [[]|] eqn:Eg; cbn [rbind]; [|done]. apply guard_ok, bool_decide_eq_true in Eg.
  apply (same_digest l) in Eg as ->; [|done| |apply Hx; by do 2 right; left].
  2:{ apply Hlf, elem_of_app. right. rewrite Em. by left. }
  rewrite El. destruct (verify_uncached _ _ _ (match fa with Some b => _ | None => _ end) _ man) as [ok'|] eqn:Ev; cbn [rbind]; [|done].
  destruct (guard ok' _) as [[]|] eqn:Eg'; cbn [rbind]; [|done]. apply guard_ok in Eg' as ->.
  apply verified_digest in Ev as (f & Hf & Hd). destruct fa as [b|]; [|by rewrite lookup_empty in Hf].
  rewrite lookup_singleton_eq in Hf. injection Hf as <-. cbn [data] in Hd. unfold man in Hd. rewrite manifest_sha in Hd.
  apply (same_digest l) in Hd as ->; [|done| |apply Hx; by right; left].
  2:{ apply Hlf, elem_of_app. left. rewrite Ea. by left. }
  destruct (man_rows decimal man); cbn [rbind]; [|done]. destruct (guard (_ && _ && _) _); cbn [rbind]; [|done].
  destruct (man_bytes decimal man); cbn [rbind]; [|done]. intros E. exists e, csv, (gzip csv).
  split; [done|]. split; [done|]. split; [apply gunzip_gzip|]. split; [done|].
  apply (f_equal (fun r => match r with Ok x => x | Err _ => doc end)) in E. cbv beta iota in E.
  apply receipt_source in E as [-> ->]. destruct (manifest_source (ex_table e) (ex_day e) (zlen (ex_rows e)) csv) as [M1 M2]. fold man in M1, M2.
  by rewrite M1, M2.
Qed.

(** A receipt that an archiving run wrote, and what the remote store did in it. *)
Definition receipted (rd : Remote * Doc) : Prop := exists dir w now now_ns s t day va tr w' man,
  archive_ok dir w /\ export_of s t day ∈ exports /\
  archive_day_remote decimal float_repr iso gzip gunzip dump load order w now now_ns s t day dir rd.1 va tr = (w', Ok (man, rd.2)).

Lemma receipted_copy l rem d : receipted (rem, d) -> distinguished l ->
  (forall e b, e ∈ exports -> b ∈ export_contents e -> b ∈ l) -> (forall b, b ∈ fetched rem -> b ∈ l) ->
  exists e csv b, e ∈ exports /\ fetch_artifact rem = Some (Some b) /\ gunzip b = Whole csv /\
    csv_bytes order (ex_table e) (ex_rows e) = Some csv /\ get "source_table" d = VStr (table_name (ex_table e)) /\
    get "source_content_sha256" d = VStr (hexdigest (sha256 csv)).
Proof.
  intros (dir & w & now & now_ns & s & t & day & va & tr & w' & man & Hw & He & H) Hl Hle Hlf. cbn [fst snd] in H.
  unfold archive_day_remote in H. destruct (export_day _ _ _ _ _ _ _ _ w now now_ns s t day dir) as [w1 [man1|]] eqn:Ee; [|done].
  apply (export_day_ok _ _ _ _ _ _ _ _ _ Hw He) in Ee. destruct (object_id_for_manifest man1) as [id|]; cbn [rbind] in H; [|done].
  destruct (verify_remote_roundtrip _ _ _ _ _ w1 _ id rem t day true va tr) as [doc|] eqn:Er; cbn [rbind] in H; [|done].
  injection H as _ _ ->. refine (roundtrip_copy _ _ _ _ _ _ _ _ _ _ _ _ Ee _ Hl Hle Hlf Er). left. by exists t, day.
Qed.

Lemma table_name_inj t t' : table_name t = table_name t' -> t = t'.
Proof. by destruct t, t'. Qed.

(** Rows, each as often as it occurs, that a fetched copy holds. *)
Definition in_copy (archive : list (Remote * Doc)) (t : Table) (rs : list Row) : Prop := exists rem d b csv rs0,
  (rem, d) ∈ archive /\ fetch_artifact rem = Some (Some b) /\ gunzip b = Whole csv /\
  csv_bytes order t rs0 = Some csv /\ rs ⊆+ rs0.

Variable parse_day : pystr -> option Z.

(** Every recorded remainder of a day is one of [rows], in a copy. *)
Definition progress_known (archive : list (Remote * Doc)) (rows : list (Table * list Row)) : Progress -> Prop :=
  progress_kept (content order) (fun t rs => (t, rs) ∈ rows) (in_copy archive).

Lemma progress_known_mono archive rows rows' p : (forall q, q ∈ rows -> q ∈ rows') -> progress_known archive rows p ->
  progress_known archive rows' p.
Proof. intros H Hp t d kept E. destruct (Hp t d kept E) as (rs & H1 & H2 & H3). exists rs. by split_and!; [..|apply H]. Qed.

Lemma prune_known archive rows fuel positive c floor allow env s p st stop :
  Forall receipted archive -> distinguished (digested archive rows) -> (forall q, q ∈ compared_rows (log st) -> q ∈ rows) ->
  prune parse_day (content order) fuel positive c floor (Some (snd <$> archive)) allow env s p = Some (st, stop) ->
  progress_known archive rows p ->
  progress_known archive rows (progress st) /\ Forall (fun d => in_copy archive (dl_table d) (dl_rows d)) (log st).
Proof.
  intros Har Hl Hlog H Hp. apply (prune_kept _ _ (snd <$> archive) (fun t rs => (t, rs) ∈ rows) (in_copy archive)) in H; [exact H|..|exact Hp|].
  - intros t rs rs' (rem & doc & b & csv & rs0 & H1 & H2 & H3 & H4 & H5) Hs.
    exists rem, doc, b, csv, rs0. split_and!; try done. by transitivity rs.
  - intros t rs rs' S1 S2 E (rem & doc & b & csv & rs0 & H1 & H2 & H3 & H4 & H5). injection E as _ E.
    destruct (csv_bytes_sub order order_perm t rs0 rs) as [b' Hb']; [by rewrite H4|intros r Hr; by apply (elem_of_submseteq rs rs0)|].
    assert (b' ∈ digested archive rows) as Hin.
    { apply (rows_digested _ _ _ _ _ S1). unfold row_contents. rewrite Hb'. by left. }
    assert (content order t rs' = hexdigest (sha256 b')) as E' by (rewrite <- E; unfold content; by rewrite Hb').
    destruct (content_rows order order_perm _ t rs rs' b' Hl Hin (fun x => rows_digested _ _ _ _ x S2) Hb' E') as [_ Hperm].
    exists rem, doc, b, csv, rs0. split_and!; try done. by rewrite Hperm.
  - intros t d rc rs S1 (doc & Hin & Hrc)%receipts_from E. apply list_elem_of_fmap in Hin as ([rem doc'] & -> & Hin). cbn [snd] in Hrc.
    destruct (receipted_copy (digested archive rows) rem doc') as (e & csv & b & He & C2 & C3 & C4 & C5 & C6); [|done| | |].
    { exact (proj1 (Forall_forall _ _) Har _ Hin). }
    { intros e b. apply export_digested. }
    { intros b. by apply (fetched_digested _ _ _ _ _ Hin). }
    apply strict_receipt_says in Hrc as [R1 R2]. rewrite R1 in C5. rewrite R2 in C6. injection C5 as C5%table_name_inj. subst t.
    injection C6 as C6. injection E as _ E. rewrite C6 in E. symmetry in E.
    assert (csv ∈ digested archive rows) as Hcsv by (apply (export_digested _ _ e); [done|]; unfold export_contents; rewrite C4; by left).
    destruct (content_rows order order_perm _ _ _ rs csv Hl Hcsv (fun x => rows_digested _ _ _ _ x S1) C4 E) as [_ Hperm].
    exists rem, doc', b, csv, (ex_rows e). split_and!; try done. by rewrite Hperm.
  - apply Forall_forall. intros d Hd. apply Forall_forall. intros rs Hrs. apply Hlog, list_elem_of_bind. exists d. split; [|done].
    by apply list_elem_of_fmap_2.
Qed.

(** C24: No raw row is lost to pruning: if every receipt in the directory was written by an
    archiving run, whatever the remote store did and whatever was inserted between the
    batches, then each batch of rows a pruning run deletes is contained, row for row and as
    often, in a copy that was fetched back from the remote store: the fetched bytes unzip
    to the CSV text of rows that include the deleted ones; unless two of the contents these
    runs digested, the exports, what was fetched, and the day's rows before and after each
    batch, are different and have one SHA-256 digest.  What the run records of half-deleted
    days keeps the same promise for the next run. *)
Theorem deleted_rows_are_remote archive rows fuel positive c floor allow env s p st stop :
  Forall receipted archive -> progress_known archive rows p ->
  prune parse_day (content order) fuel positive c floor (Some (snd <$> archive)) allow env s p = Some (st, stop) ->
  let rows' := rows ++ compared_rows (log st) in
  collides (digested archive rows') \/
  progress_known archive rows' (progress st) /\ Forall (fun d => in_copy archive (dl_table d) (dl_rows d)) (log st).
Proof.
  intros Har Hp H rows'. destruct (collides_or (digested archive rows')) as [|Hl]; [by left|right].
  apply (prune_known _ _ _ _ _ _ _ _ _ _ _ _ Har Hl) in H; [exact H| |].
  - intros q Hq. apply elem_of_app. by right.
  - revert Hp. apply progress_known_mono. intros q Hq. apply elem_of_app. by left.
Qed.
End copies.

(** ** Witnesses and examples *)

Definition demo_decimal (c : Z) : option Z := None.
Definition demo_repr (f : float) : pystr := [].
Definition demo_iso (day : Z) : pystr := str_int day.
Definition demo_parse_day (s : pystr) : option Z := match read_int s with Some (z, []) => Some z | _ => None end.
Definition demo_gzip (b : bytes) : bytes := 31 :: b.
Definition demo_gunzip (b : bytes) : Unzipped := match b with 31 :: b => Whole b | _ => Broken end.
Definition demo_order (t : Table) (rs : list Row) : list Row := rs.

(** A JSON text of the manifest's texts and numbers; lists become a mark. *)
Definition val_code (v : Val) : jval := match v with VInt z => JInt z | VStr s => JStr (115 :: s) | _ => JStr [] end.
Definition val_decode (v : jval) : Val := match v with JInt z => VInt z | JStr (_ :: s) => VStr s | JStr [] => VOther end.
Definition demo_dump (d : Doc) : bytes := json_dumps (prod_map id val_code <$> map_to_list d).
Definition demo_load (b : bytes) : Loaded :=
  match json_loads b with Some o => Object (list_to_map (prod_map id val_decode <$> o)) | None => Invalid end.

Definition field_ok (kv : pystr * Val) : Prop := val_decode (val_code kv.2) = kv.2 /\ pair_ok (prod_map id val_code kv).

(** An object of texts, whole numbers and lists is read back. *)
Lemma demo_load_fields (d : Doc) : Forall field_ok (map_to_list d) -> demo_load (demo_dump d) = Object d.
Proof.
  intros H. unfold demo_load, demo_dump. set (o := prod_map id val_code <$> map_to_list d).
  rewrite (json_loads_dumps o) by by apply Forall_fmap; apply (Forall_impl _ _ _ H); intros kv [_ ?].
  assert (forall o' : jobj, (prod_map id val_decode <$> o').*1 = o'.*1) as Hkeys.
  { intros o'. rewrite <- list_fmap_compose. by apply list_fmap_ext. }
  assert (list_to_map (prod_map id val_decode <$> sort_keys o) = (list_to_map (prod_map id val_decode <$> o) : Doc)) as ->.
  { apply list_to_map_proper; [|by rewrite sort_keys_perm]. rewrite Hkeys, sort_keys_perm. unfold o. rewrite <- list_fmap_compose.
    change (fst ∘ prod_map id val_code) with (fun kv : pystr * Val => kv.1). apply NoDup_fst_map_to_list. }
  f_equal. unfold o. rewrite <- list_fmap_compose. transitivity (list_to_map (map_to_list d) : Doc); [|apply list_to_map_to_list].
  f_equal. clear -H. induction H as [|[k v] l [E _] _ IH]; [done|]. cbn in *. by rewrite IH, E.
Qed.

Definition nonneg (s : pystr) : Prop := Forall (fun c => 0 <= c) s.

Lemma str_int_nonneg z : nonneg (str_int z).
Proof.
  apply (Forall_impl _ _ _ (str_int_chars z)). intros c [-> | H]; [done|]. unfold is_digit in H. lia.
Qed.
Lemma digest_nonneg b : nonneg (hexdigest (sha256 b)).
Proof. apply (Forall_impl _ _ _ (hexdigest_chars _ (sha256_ok b))). lia. Qed.

Lemma str_field k s : nonneg k -> nonneg s -> field_ok (k, VStr s).
Proof. intros Hk Hs. split; [done|]. split; [exact Hk|]. by constructor. Qed.
Lemma int_field k z : nonneg k -> field_ok (k, VInt z).
Proof. intros Hk. by split. Qed.

Lemma other_field k : nonneg k -> field_ok (k, VOther).
Proof. intros Hk. split; [done|]. split; [exact Hk|]. by constructor. Qed.

Lemma demo_load_dump t day n csv : demo_load (demo_dump (manifest_of demo_iso demo_gzip t day n csv))
  = Object (manifest_of demo_iso demo_gzip t day n csv).
Proof.
  apply demo_load_fields. unfold manifest_of, day_bounds_us. cbv beta iota zeta. apply Forall_forall. intros [k v] Hkv.
  apply elem_of_map_to_list, elem_of_list_to_map_2 in Hkv. revert Hkv. generalize (k, v). apply Forall_forall.
  assert (forall s, forallb (Z.leb 0) s = true -> nonneg s) as Hlit.
  { intros s H. apply Forall_forall. intros c Hc%list_elem_of_In. apply Z.leb_le. by apply (proj1 (forallb_forall _ _) H). }
  assert (nonneg (table_name t)) as Ht by by (apply Hlit; destruct t).
  repeat (apply Forall_cons; split; [first [by apply int_field, Hlit|by apply other_field, Hlit|apply str_field; [by apply Hlit|]]|]);
    first [exact Ht|apply str_int_nonneg|apply digest_nonneg|by apply Forall_nil|by apply Hlit].
Qed.

(** Two trades, of which one is of the next day, and a quote; archived from empty
    directories. *)
Definition demo_rows : Store :=
  mkStore [mkRow 5 [lit "upbit"; lit "BTC,KRW"]; mkRow (DAY_US + 1) [lit "upbit"; lit "ETH"]] [mkRow 6 [lit "upbit"]].
Definition demo_dir : pystr := lit "/a".
Definition nowhere : World := mkWorld ∅ ∅.
Definition demo_export (t : Table) : World * result Exc Doc :=
  export_day demo_decimal demo_repr demo_iso demo_gzip demo_gunzip demo_dump demo_load demo_order nowhere (of_int 0) 0 demo_rows t 0 demo_dir.
(** A store that gives back what was pushed. *)
Definition demo_remote (t : Table) : Remote :=
  let path := Url.path_join demo_dir (name_ demo_iso t 0) in
  let fs := files (demo_export t).1 in
  mkRemote true true (Some (data <$> fs !! path)) (Some (data <$> fs !! json_of path)).
Definition demo_run (t : Table) : World * result Exc (Doc * Doc) :=
  archive_day_remote demo_decimal demo_repr demo_iso demo_gzip demo_gunzip demo_dump demo_load demo_order nowhere (of_int 0) 0
    demo_rows t 0 demo_dir (demo_remote t) (lit "now") (lit "cp").
Definition run_docs (t : Table) : Doc * Doc := match (demo_run t).2 with Ok r => r | Err _ => (∅, ∅) end.
Definition demo_archive : list (Remote * Doc) := (fun t => (demo_remote t, (run_docs t).2)) <$> ARCHIVE_TABLES.
Definition demo_exports : list Export := (fun t => export_of demo_rows t 0) <$> ARCHIVE_TABLES.
Definition demo_pruning : option (St * Stop) := prune demo_parse_day (content demo_order) 10 true (10 * DAY_US) None (Some (snd <$> demo_archive)) false
  (fun _ => quiet) demo_rows ∅.
Definition demo_end : St := default (mkSt demo_rows ∅ 0 [] []) (fst <$> demo_pruning).

Lemma demo_runs t : (demo_run t).2 = Ok (run_docs t).
Proof.
  assert (match (demo_run t).2 with Ok _ => true | Err _ => false end = true) as H by (destruct t; vm_compute; reflexivity).
  unfold run_docs. by destruct (demo_run t).2.
Qed.
Lemma demo_pruned : demo_pruning = Some (demo_end, Finished).
Proof.
  assert (match demo_pruning with Some (_, Finished) => true | _ => false end = true) as H by (vm_compute; reflexivity).
  unfold demo_end. by destruct demo_pruning as [[st []]|].
Qed.

Lemma demo_receipted : Forall (receipted demo_decimal demo_repr demo_iso demo_gzip demo_gunzip demo_dump demo_load demo_order demo_exports) demo_archive.
Proof.
  apply Forall_forall. intros [rem d] Hd. apply list_elem_of_fmap in Hd as (t & Ht & _). injection Ht as -> ->.
  exists demo_dir, nowhere, (of_int 0), 0, demo_rows, t, 0, (lit "now"), (lit "cp"), (demo_run t).1, (run_docs t).1.
  split; [intros p f man _ H; by apply (lookup_empty_Some p f) in H|]. split; [by destruct t; [left|right; left]|].
  cbn [fst snd]. fold (demo_run t). pose proof (demo_runs t) as Hrun. destruct (demo_run t) as [w r]. cbn [fst snd] in *. rewrite Hrun.
  by destruct (run_docs t).
Qed.

(** Each content's digest is computed once. *)
Definition clash (l : list bytes) : bool :=
  let ps := (fun a => (a, sha256 a)) <$> l in
  existsb (fun p => existsb (fun q => negb (bool_decide (p.1 = q.1)) && bool_decide (p.2 = q.2)) ps) ps.
Lemma clash_spec l : clash l = false -> ~ collides l.
Proof.
  intros H (a & b & Ha & Hb & Hne & E). apply not_true_iff_false in H. apply H, existsb_exists. exists (a, sha256 a).
  split; [by apply list_elem_of_In, (list_elem_of_fmap_2 (fun a => (a, sha256 a)))|]. apply existsb_exists. exists (b, sha256 b).
  split; [by apply list_elem_of_In, (list_elem_of_fmap_2 (fun a => (a, sha256 a)))|]. cbn [fst snd].
  by rewrite (bool_decide_false (a = b)), (bool_decide_true (sha256 a = sha256 b)).
Qed.

Lemma deleted_rows_are_remote_witness : demo_pruning = Some (demo_end, Finished) /\ deleted demo_end = [(Trades, 1); (BookTop, 1)] /\
  Forall (fun d => in_copy demo_gunzip demo_order demo_archive (dl_table d) (dl_rows d)) (log demo_end).
Proof.
  split; [exact demo_pruned|]. split; [vm_compute; reflexivity|].
  destruct (deleted_rows_are_remote demo_decimal demo_repr demo_iso demo_gzip demo_gunzip demo_dump demo_load demo_order
    (fun b => eq_refl) demo_load_dump (fun t rs => Permutation_refl rs) demo_exports demo_parse_day demo_archive [] 10 true (10 * DAY_US)
    None false (fun _ => quiet) demo_rows ∅ demo_end Finished) as [H|[_ H]].
  - exact demo_receipted.
  - intros t d kept E. by apply (lookup_empty_Some (t, d) kept) in E.
  - exact demo_pruned.
  - exfalso. revert H. apply clash_spec. vm_compute. reflexivity.
  - exact H.
Defined.

Lemma min_day_spec common d : min_day common = Some d -> d ∈ common /\ forall x, x ∈ common -> d <= x.
Proof.
  unfold min_day. assert (forall l a, foldl Z.min a l ∈ a :: l /\ forall x, x ∈ a :: l -> foldl Z.min a l <= x) as G.
  { induction l as [|y l IH]; intros a; cbn [foldl].
    - split; [by left|]. intros x [-> |H]%elem_of_cons; [done|by apply elem_of_nil in H].
    - destruct (IH (Z.min a y)) as [I1 I2]. assert (foldl Z.min (Z.min a y) l <= Z.min a y) as I0 by (apply I2; by left). split.
      + apply elem_of_cons in I1 as [I1|I1]; [|by do 2 right]. destruct (Z.min_spec a y) as [[_ E]|[_ E]]; rewrite I1, E; [by left|by right; left].
      + intros x [-> |[-> |H]%elem_of_cons]%elem_of_cons; [lia|lia|]. apply I2. by right. }
  destruct (elements common) as [|a l] eqn:E; [done|]. intros [= <-]. destruct (G l a) as [G1 G2]. rewrite <- E in *. split.
  - by apply elem_of_elements.
  - intros x Hx. by apply G2, elem_of_elements.
Qed.

Lemma first_gap_spec common fuel : forall day,
  (day <= first_gap fuel common day <= day + Z.of_nat fuel) /\
  (forall x, day <= x < first_gap fuel common day -> x ∈ common) /\
  (first_gap fuel common day ∉ common \/ first_gap fuel common day = day + Z.of_nat fuel).
Proof.
  induction fuel as [|fuel IH]; intros day; cbn [first_gap]; [split_and!; [lia|lia|intros; lia|right; lia]|].
  case_bool_decide as E.
  - destruct (IH (day + 1)) as (I1 & I2 & I3). split_and!; [lia|lia| |destruct I3; [by left|right; lia]].
    intros x Hx. destruct (decide (x = day)) as [->|]; [done|]. apply I2. lia.
  - split_and!; [lia|lia|intros; lia|by left].
Qed.

(** The local cutoff is the start of the first day without files that follows the first
    archived day: every day from that one up to the cutoff is archived for both tables. *)
Theorem cutoff_consecutive common : common <> ∅ -> exists first last, cutoff_of common = day_start_us last /\ first ∈ common /\
  (forall x, x ∈ common -> first <= x) /\ first < last /\ (forall x, first <= x < last -> x ∈ common) /\ last ∉ common.
Proof.
  intros Hne. unfold cutoff_of. destruct (min_day common) as [d|] eqn:E.
  2:{ unfold min_day in E. destruct (elements common) eqn:El; [|done]. by apply elements_empty_inv, leibniz_equiv in El. }
  destruct (min_day_spec _ _ E) as [M1 M2]. destruct (first_gap_spec common (size common) d) as (G1 & G2 & G3).
  set (last := first_gap _ _ _) in *. assert (last ∉ common) as Hl.
  { destruct G3 as [|G3]; [done|]. intros Hin.
    assert (list_to_set (seqZ d (Z.of_nat (S (size common)))) ⊆ common) as Hs.
    { intros x [Hx1 Hx2]%elem_of_list_to_set%elem_of_seqZ. destruct (decide (x = last)) as [->|]; [done|]. apply G2. lia. }
    apply subseteq_size in Hs. rewrite size_list_to_set, length_seqZ in Hs by apply NoDup_seqZ. lia. }
  exists d, last. split_and!; try done. destruct (decide (last = d)) as [->|]; [done|lia].
Qed.

(** A cached answer is given for another manifest too: the key names the file only. *)
Example cache_ignores_manifest :
  let f := mkFile (demo_gzip []) 0 in let w := mkWorld {[lit "a" := f]} ∅ in
  let man rows := list_to_map [(lit "bytes", VInt 1); (lit "sha256", VStr (hexdigest (sha256 (demo_gzip [])))); (lit "rows", VInt rows)] : Doc in
  let verify w rows c := verify_file demo_decimal demo_repr demo_gunzip w (of_int 20) (lit "a") (man rows) c in
  let '(w', ok) := verify w 0 true in
  ok = Ok true /\ (verify w' 7 true).2 = Ok true /\ (verify w' 7 false).2 = Ok false.
Proof. by vm_compute. Qed.

(** A cell with a line break makes two lines of one row: the export never verifies. *)
Example line_break_unverifiable :
  let s := mkStore [mkRow 5 [[10]]] [] in
  let '(w, r) := export_day demo_decimal demo_repr demo_iso demo_gzip demo_gunzip demo_dump demo_load demo_order nowhere (of_int 0) 0 s Trades 0 demo_dir in
  match r with
  | Ok man => (verify_file demo_decimal demo_repr demo_gunzip w (of_int 0) (Url.path_join demo_dir (name_ demo_iso Trades 0)) man false).2 = Ok false
  | Err _ => False
  end.
Proof. by vm_compute. Qed.
End Archive.
