(* ===== verification/Adapter.v ===== *)
(** * Exchange sessions and their supervision
    (src/src/mdfeed/adapters/base.py, [_keep_running] of src/src/mdfeed/services/feedd.py)

    An adapter runs one session after another; beside each a watchdog looks at the time of
    the last message and ends a session that has gone silent.  Ending a session must not
    depend on its willingness to end, which is what [_abandon] is for.  The adapter is a
    state machine over what its loop waits for; the environment says when messages come,
    when tasks end, when the timer it waits on fires, and what the clock and the random
    numbers are. *)

From S2P Require Import Prelude PyStr PyFloat.

Module Adapter.

Definition zero : float := of_int 0.
Definition half : float := fdiv (of_int 1) (of_int 2).
Definition FIRST_BACKOFF : float := of_int 1.
Definition MAX_BACKOFF : float := of_int 30.
Definition ATTEMPTS : nat := 2.

(** How a session ends: it returns, it raises, it is cancelled by somebody else. *)
Inductive Ending := Normal | Failure | Cancelled.

(** What [run] waits for. *)
Inductive Phase :=
| InSession (deadline : float)                 (* the session and the watchdog *)
| AbandonSession (attempt : nat)               (* the silent session to end *)
| AbandonGuard (attempt : nat) (e : Ending)    (* the watchdog to end, after the session *)
| Pausing (delay : float)                      (* the stop event, [delay] seconds at most *)
| Returned                                     (* [run] has returned *)
| RunCancelled.                                (* [run] was left by a cancellation *)

Record Adapter := mkAdapter
  { stale_after_s : float; last_msg_at : float; messages : Z; reconnects : Z; errors : Z; stopped : bool;
    backoff : float; stale_restarts : Z; cancel_timeouts : Z; phase : Phase }.

Definition set_phase (a : Adapter) (p : Phase) : Adapter :=
  mkAdapter (stale_after_s a) (last_msg_at a) (messages a) (reconnects a) (errors a) (stopped a) (backoff a) (stale_restarts a)
    (cancel_timeouts a) p.

(** ** The watchdog *)

(** The pause between two looks. *)
Definition watch_interval (a : Adapter) : float := fmin (fdiv (stale_after_s a) (of_int 2)) (of_int 15).

(** A new session's watchdog. *)
Definition start_session (a : Adapter) (now : float) : Adapter := set_phase a (InSession (fadd now (stale_after_s a))).

(** Whether a look ends the session; the time of the last message may be an earlier
    session's. *)
Definition silent (a : Adapter) (deadline now : float) : bool :=
  let last := if truthy (last_msg_at a) then last_msg_at a else deadline in
  fgt (fsub now last) (stale_after_s a).

Definition forget_messages (a : Adapter) : Adapter :=
  mkAdapter (stale_after_s a) zero (messages a) (reconnects a) (errors a) (stopped a) (backoff a) (stale_restarts a)
    (cancel_timeouts a) (phase a).
Definition count_stale (a : Adapter) : Adapter :=
  mkAdapter (stale_after_s a) (last_msg_at a) (messages a) (reconnects a) (errors a) (stopped a) (backoff a) (stale_restarts a + 1)
    (cancel_timeouts a) (phase a).

Definition look (a : Adapter) (deadline now : float) (expects : bool) : Adapter :=
  if negb expects then set_phase (forget_messages a) (InSession (fadd now (stale_after_s a)))
  else if silent a deadline now then set_phase (count_stale a) (AbandonSession 1)
  else a.

(** [is_stale]. *)
Definition is_stale (a : Adapter) (now : float) (expects : bool) : bool :=
  expects && truthy (last_msg_at a) && fgt (fsub now (last_msg_at a)) (stale_after_s a).

(** ** The loop *)

(** [_mark]: what it does to the adapter. *)
Definition mark (a : Adapter) (now : float) : Adapter :=
  mkAdapter (stale_after_s a) now (messages a + 1) (reconnects a) (errors a) (stopped a) (backoff a) (stale_restarts a)
    (cancel_timeouts a) (phase a).

Definition set_stop (a : Adapter) : Adapter :=
  mkAdapter (stale_after_s a) (last_msg_at a) (messages a) (reconnects a) (errors a) true (backoff a) (stale_restarts a)
    (cancel_timeouts a) (phase a).

(** The pause before the next session, with a random number of [0, 1). *)
Definition delay (b random : float) : float := fmul (fmin b MAX_BACKOFF) (fadd half random).

(** The rest of a turn of [run] after its session. *)
Definition after_session (a : Adapter) (e : Ending) (random : float) : Adapter :=
  match e with
  | Cancelled => set_phase a RunCancelled
  | _ =>
      let b := match e with Normal => FIRST_BACKOFF | _ => backoff a end in
      let errs := match e with Failure => errors a + 1 | _ => errors a end in
      if stopped a then
        mkAdapter (stale_after_s a) (last_msg_at a) (messages a) (reconnects a) errs (stopped a) b (stale_restarts a)
          (cancel_timeouts a) Returned
      else
        mkAdapter (stale_after_s a) (last_msg_at a) (messages a) (reconnects a + 1) errs (stopped a) b (stale_restarts a)
          (cancel_timeouts a) (Pausing (delay b random))
  end.

(** The pause is over: the head of [run]'s loop. *)
Definition resume (a : Adapter) (now : float) : Adapter :=
  let a := mkAdapter (stale_after_s a) (last_msg_at a) (messages a) (reconnects a) (errors a) (stopped a)
             (fmin (fmul (backoff a) (of_int 2)) MAX_BACKOFF) (stale_restarts a) (cancel_timeouts a) (phase a) in
  if stopped a then set_phase a Returned else start_session a now.

Definition leave_task (a : Adapter) : Adapter :=
  mkAdapter (stale_after_s a) (last_msg_at a) (messages a) (reconnects a) (errors a) (stopped a) (backoff a) (stale_restarts a)
    (cancel_timeouts a + 1) (phase a).

(** What happens.  A timer is the one the loop waits on; what the clock and the random
    numbers give then comes with it. *)
Inductive Event :=
| Message (now : float)
| StopSet
| SessionEnds (e : Ending) (random : float)
| GuardEnds (random : float)
| BothEnd (e : Ending) (random : float)
| Timer (now random : float) (expects : bool).

Definition step (a : Adapter) (ev : Event) : Adapter :=
  match ev, phase a with
  | Message now, _ => mark a now
  | StopSet, _ => set_stop a
  | SessionEnds e _, InSession _ => set_phase a (AbandonGuard 1 e)
  | SessionEnds _ random, AbandonSession _ => after_session a Failure random
  | GuardEnds random, AbandonGuard _ e => after_session a e random
  | BothEnd e random, InSession _ => after_session a e random
  | Timer now _ expects, InSession deadline => look a deadline now expects
  | Timer _ random _, AbandonSession k =>
      if (k <? ATTEMPTS)%nat then set_phase a (AbandonSession (S k)) else after_session (leave_task a) Failure random
  | Timer _ random _, AbandonGuard k e =>
      if (k <? ATTEMPTS)%nat then set_phase a (AbandonGuard (S k) e) else after_session (leave_task a) e random
  | Timer now _ _, Pausing _ => resume a now
  | _, _ => a
  end.
Definition run (a : Adapter) (evs : list Event) : Adapter := foldl step a evs.

(** A new adapter's first session. *)
Definition new_adapter (stale_after now : float) : Adapter :=
  start_session (mkAdapter stale_after zero 0 0 0 false FIRST_BACKOFF 0 0 Returned) now.

(** ** Reviving the loop ([_keep_running]) *)

(** How [adapter.run()] ends. *)
Inductive RunExit := RunReturned | RunWasCancelled | RunRaised.
Inductive Keeper := Keeping (deaths : Z) | KeeperReturned | KeeperCancelled | KeeperOverflow (deaths : Z).
Record Deaths := mkDeaths { task_deaths : Z; silent_exits : Z }.

(** [0.5 * 2 ** (deaths - 1)]: the integer power is converted to a float. *)
Definition revive_delay (deaths : Z) : option float :=
  if deaths - 1 <? 1024 then Some (fmin (fmul half (of_int (2 ^ (deaths - 1)))) MAX_BACKOFF) else None.

Definition run_ended (e : RunExit) (stopping : bool) (deaths : Z) (d : Deaths) : Keeper * Deaths :=
  match e, stopping with
  | RunReturned, true => (KeeperReturned, d)
  | RunWasCancelled, true => (KeeperCancelled, d)
  | _, _ =>
      let n := deaths + 1 in
      (match revive_delay n with Some _ => Keeping n | None => KeeperOverflow n end,
       mkDeaths (task_deaths d + 1) (silent_exits d + match e with RunRaised => 0 | _ => 1 end))
  end.

(** One ending after another, the stop event being set or not at each; after the pause the
    loop's condition is tested again. *)
Fixpoint keep_running (exits : list (RunExit * bool)) (deaths : Z) (d : Deaths) : Keeper * Deaths :=
  match exits with
  | [] => (Keeping deaths, d)
  | (e, stopping) :: exits =>
      match run_ended e stopping deaths d with
      | (Keeping n, d) => if stopping then (KeeperReturned, d) else keep_running exits n d
      | r => r
      end
  end.

(** ** Lemmas *)

(** What remains to be waited for before the next session. *)
Definition waits (a : Adapter) : nat :=
  match phase a with
  | InSession _ => 0
  | Pausing _ => 1
  | AbandonSession k | AbandonGuard k _ => 1 + (S ATTEMPTS - k)
  | Returned | RunCancelled => 0
  end.

Definition in_session (a : Adapter) : Prop := exists deadline, phase a = InSession deadline.
(** The loop is over, or told to be. *)
Definition over (a : Adapter) : Prop := stopped a = true \/ phase a = RunCancelled.

Definition is_timer (ev : Event) : bool := match ev with Timer _ _ _ => true | _ => false end.
Definition timers (evs : list Event) : nat := length (List.filter is_timer evs).

(** The attempts are counted from 1, and a loop that was not told to stop has not returned. *)
Definition adapter_ok (a : Adapter) : Prop :=
  match phase a with
  | AbandonSession k | AbandonGuard k _ => (1 <= k <= ATTEMPTS)%nat
  | Returned => stopped a = true
  | _ => True
  end.

Lemma after_session_ok a e random : adapter_ok (after_session a e random).
Proof. unfold after_session. by destruct e, (stopped a) eqn:E. Qed.

Lemma after_session_waits a e random : (waits (after_session a e random) <= 1)%nat.
Proof. unfold after_session. destruct e, (stopped a); cbn; lia. Qed.

Lemma step_ok a ev : adapter_ok a -> adapter_ok (step a ev).
Proof.
  intros H. unfold adapter_ok in H. unfold step, look, resume, start_session.
  destruct ev as [now| |e r|r|e r|now r x], (phase a) as [dl|k|k e'|d| |] eqn:E; try (unfold adapter_ok; cbn; by rewrite E);
    try apply after_session_ok; try (unfold adapter_ok; cbn; rewrite E; lia); try (unfold adapter_ok, set_phase; cbn; unfold ATTEMPTS; lia).
  - destruct (negb x); [done|]. destruct (silent a dl now); [unfold adapter_ok; cbn; unfold ATTEMPTS; lia|unfold adapter_ok; by rewrite E].
  - destruct (Nat.ltb_spec k ATTEMPTS); [unfold adapter_ok; cbn; lia|apply after_session_ok].
  - destruct (Nat.ltb_spec k ATTEMPTS); [unfold adapter_ok; cbn; lia|apply after_session_ok].
  - cbn [stopped]. destruct (stopped a) eqn:Es; unfold adapter_ok; cbn; by rewrite ?Es.
Qed.

(** While no session runs, no event lengthens the way to the next one, and a timer
    shortens it. *)
Lemma step_waits a ev : adapter_ok a -> ~ over a -> ~ in_session a ->
  (waits (step a ev) + (if is_timer ev then 1 else 0) <= waits a)%nat.
Proof.
  intros Hok Ho Hs. unfold adapter_ok in Hok. unfold over in Ho. unfold waits at 2.
  assert (stopped a = false) as Es by (destruct (stopped a); [destruct Ho; by left|done]).
  destruct (phase a) as [dl|k|k e|d| |] eqn:E; [destruct Hs; by exists dl| | | |congruence|destruct Ho; by right].
  - destruct ev; unfold step; rewrite ?E; cbn [is_timer]; try (unfold waits; cbn; rewrite ?E; lia).
    + pose proof (after_session_waits a Failure random). unfold ATTEMPTS in *. lia.
    + destruct (Nat.ltb_spec k ATTEMPTS); [unfold waits; cbn; unfold ATTEMPTS in *; lia|].
      pose proof (after_session_waits (leave_task a) Failure random). unfold ATTEMPTS in *. lia.
  - destruct ev; unfold step; rewrite ?E; cbn [is_timer]; try (unfold waits; cbn; rewrite ?E; lia).
    + pose proof (after_session_waits a e random). unfold ATTEMPTS in *. lia.
    + destruct (Nat.ltb_spec k ATTEMPTS); [unfold waits; cbn; unfold ATTEMPTS in *; lia|].
      pose proof (after_session_waits (leave_task a) e random). unfold ATTEMPTS in *. lia.
  - destruct ev; unfold step; rewrite ?E; cbn [is_timer]; try (unfold waits; cbn; rewrite ?E; lia).
    unfold resume, waits. cbn. by rewrite Es.
Qed.

Lemma waits_zero a : adapter_ok a -> waits a = 0%nat -> in_session a \/ over a.
Proof.
  unfold adapter_ok, waits. destruct (phase a) as [dl|k|k e|d| |] eqn:E; intros Hok Hw; try lia; try (unfold ATTEMPTS in *; lia).
  - left. by exists dl.
  - right. by left.
  - right. by right.
Qed.

#[local] Instance in_session_dec a : Decision (in_session a).
Proof. destruct (phase a) as [dl|k|k e|d| |] eqn:E; [left; by exists dl|right; intros [x ?]; congruence..]. Defined.
#[local] Instance over_dec a : Decision (over a).
Proof. unfold over. destruct (phase a) eqn:E; try (right; intros [?|?]; congruence); destruct (stopped a) eqn:Es;
  first [left; by left|left; by right|right; intros [?|?]; congruence]. Defined.

Lemma session_comes evs : forall a, adapter_ok a -> (waits a <= timers evs)%nat ->
  exists k, (k <= length evs)%nat /\ (in_session (run a (take k evs)) \/ over (run a (take k evs))).
Proof.
  induction evs as [|ev evs IH]; intros a Hok Hw.
  { exists O. split; [cbn; lia|]. cbn [take run foldl]. apply waits_zero; [done|]. unfold timers in Hw. cbn in Hw. lia. }
  destruct (decide (in_session a)) as [Hs|Hs]; [exists O; split; [lia|by left]|].
  destruct (decide (over a)) as [Ho|Ho]; [exists O; split; [lia|by right]|].
  pose proof (step_waits a ev Hok Ho Hs) as Hstep. destruct (IH (step a ev) (step_ok a ev Hok)) as (k & Hk & H).
  { unfold timers in *. cbn [List.filter] in Hw. destruct (is_timer ev); cbn [length] in Hw; lia. }
  exists (S k). cbn [length]. split; [lia|exact H].
Qed.

(** A session that has gone silent is replaced whatever it does when it is told to
    end.  The first look of the watchdog at which data is expected and the last message is
    more than [stale_after_s] ago ends it, and then two five-second timers and one pause
    at most lie before the next session, in any order of messages, endings and timers,
    unless a stop was requested; as long as data is not expected, no look ends a session. *)
Theorem silent_session_replaced a deadline now random evs :
  phase a = InSession deadline -> adapter_ok a ->
  step a (Timer now random false) = set_phase (forget_messages a) (InSession (fadd now (stale_after_s a))) /\
  (silent a deadline now = false -> step a (Timer now random true) = a) /\
  (silent a deadline now = true -> (3 <= timers evs)%nat ->
     let a1 := step a (Timer now random true) in
     stale_restarts a1 = stale_restarts a + 1 /\ ~ in_session a1 /\
     exists k, (k <= length evs)%nat /\ (in_session (run a1 (take k evs)) \/ over (run a1 (take k evs)))).
Proof.
  intros Hp Hok. unfold step. rewrite Hp. split; [done|]. split; [intros Hs; unfold look; by rewrite Hs|].
  intros Hs Ht. unfold look. rewrite Hs. cbn [negb]. cbv zeta. split; [done|]. split; [by intros [x H]|].
  apply session_comes; [unfold adapter_ok; cbn; unfold ATTEMPTS; lia|]. unfold waits. cbn [set_phase phase]. unfold ATTEMPTS. lia.
Qed.

(** Until a stop is requested every ending of the loop is answered by another start, as
    long as the number of endings stays below 1025. *)
Theorem keeper_revives exits deaths d : Forall (fun x => x.2 = false) exits -> 0 <= deaths -> deaths + zlen exits < 1025 ->
  keep_running exits deaths d =
    (Keeping (deaths + zlen exits),
     mkDeaths (task_deaths d + zlen exits)
       (silent_exits d + zlen (List.filter (fun x => match x.1 with RunRaised => false | _ => true end) exits))).
Proof.
  intros H. revert deaths d. induction H as [|[e s] exits Hs _ IH]; intros deaths d Hd Hl.
  { cbn. rewrite !Z.add_0_r. by destruct d. }
  cbn in Hs. subst s. cbn [keep_running]. unfold run_ended, revive_delay. cbn [length] in Hl.
  rewrite (proj2 (Z.ltb_lt (deaths + 1 - 1) 1024)) by lia.
  destruct e; rewrite IH by lia; cbn [List.filter fst task_deaths silent_exits length]; f_equal; try f_equal; lia.
Qed.

(** ** Witnesses and examples *)

Definition demo_adapter : Adapter := run (new_adapter (of_int 60) (of_int 0)) [Message (of_int 100)].

Lemma silent_session_replaced_witness :
  exists k, (k <= 3)%nat /\
    let a := run (step demo_adapter (Timer (of_int 170) zero true)) (take k (replicate 3 (Timer (of_int 171) zero true))) in
    in_session a \/ over a.
Proof.
  destruct (silent_session_replaced demo_adapter (of_int 60) (of_int 170) zero (replicate 3 (Timer (of_int 171) zero true))) as (_ & _ & H).
  - by vm_compute.
  - done.
  - destruct H as (_ & _ & k & Hk & H); [by vm_compute|apply Nat.leb_le; reflexivity|]. exists k. exact (conj Hk H).
Defined.

(** The time of the last message outlives its session: the session that replaces a silent
    one is ended at the first look, fifteen seconds after its start, if no message has
    come by then. *)
Example replacement_has_less_time :
  let a := run demo_adapter [Timer (of_int 170) zero true; SessionEnds Normal zero; Timer (of_int 171) zero true] in
  phase a = InSession (of_int 231) /\ phase (step a (Timer (of_int 186) zero true)) = AbandonSession 1.
Proof. by vm_compute. Qed.

(** An adapter's first session has twice the time. *)
Example first_session_has_twice_the_time :
  let a := new_adapter (of_int 60) (of_int 0) in
  step a (Timer (of_int 119) zero true) = a /\ phase (step a (Timer (of_int 121) zero true)) = AbandonSession 1.
Proof. by vm_compute. Qed.

(** The 1025th ending overflows the pause's computation: the keeper itself ends. *)
Example keeper_overflows : (keep_running (replicate 1025 (RunRaised, false)) 0 (mkDeaths 0 0)).1 = KeeperOverflow 1025.
Proof. by vm_compute. Qed.

End Adapter.
