(* ===== verification/Feed.v ===== *)
(** * The feed daemon and its recordings
    (src/src/mdfeed/services/feedd.py, src/src/mdfeed/adapters/replay.py)

    The daemon numbers every message and heartbeat, and hands the frame to the bus
    ([Bus]), the payload to the shared-memory ring ([RingBuffer]) and the frame to the
    recording, then brings the snapshot up to date.  Replaying a recording decodes it
    again.  The clock and the clients' tasks are the environment. *)

From Stdlib Require Import Sorted.
From S2P Require Import Prelude PyStr PyFloat Models Protocol RingBuffer Bus.

Module Feed.
Import Models.Models.

(** What an adapter emits. *)
Inductive Msg := MTrade (t : Trade) | MBook (b : BookTop).
Definition msg_venue (m : Msg) : pystr := match m with MTrade t => venue t | MBook b => bk_venue b end.
Definition msg_symbol (m : Msg) : pystr := match m with MTrade t => symbol t | MBook b => bk_symbol b end.
Definition mtype (m : Msg) : Z := match m with MTrade _ => MSG_TRADE | MBook _ => MSG_BOOK end.
Definition msg_pack (st : Trunc) (m : Msg) : Trunc * result ModelError bytes :=
  match m with MTrade t => pack st t | MBook b => book_pack st b end.

(** ** The snapshot *)

(** The fields a trade and a quote set. *)
Record LastTrade := mkLast { lt_price : float; lt_qty : float; lt_side : Z; lt_event : Z; lt_recv : Z; lt_latency : float }.
Record Top := mkTop { tp_bid : float; tp_ask : float; tp_bid_qty : float; tp_ask_qty : float; tp_mid : float; tp_spread : float }.
(** An entry; a count of 0 stands for the absent one. *)
Record Snap := mkSnap
  { sn_venue : pystr; sn_symbol : pystr; sn_last : option LastTrade; sn_trades : Z; sn_volume : float; sn_top : option Top }.

Definition blank (m : Msg) : Snap := mkSnap (msg_venue m) (msg_symbol m) None 0 (of_int 0) None.
Definition key (m : Msg) : pystr := msg_venue m ++ [58] ++ msg_symbol m.

Definition last_of (t : Trade) : LastTrade :=
  mkLast (price t) (qty t) (side t) (ts_event_ns t) (ts_recv_ns t) (fround_to (latency_us t) 1).
Definition top_of (b : BookTop) : Top := mkTop (bid b) (ask b) (bid_qty b) (ask_qty b) (mid b) (fround_to (spread_bp b) 3).

Definition note (m : Msg) (c : Snap) : Snap :=
  match m with
  | MTrade t => mkSnap (sn_venue c) (sn_symbol c) (Some (last_of t)) (sn_trades c + 1) (fround_to (fadd (sn_volume c) (qty t)) 8) (sn_top c)
  | MBook b => mkSnap (sn_venue c) (sn_symbol c) (sn_last c) (sn_trades c) (sn_volume c) (Some (top_of b))
  end.
Definition note_in (m : Msg) (s : gmap pystr Snap) : gmap pystr Snap := <[key m := note m (default (blank m) (s !! key m))]> s.

(** ** The daemon *)

Record FeedDaemon := mkDaemon
  { bus : Bus.UDSPublisher; ring : option Ring.RingBuffer; seq : Z; snapshot : gmap pystr Snap;
    recorder : option (list bytes); trunc : Trunc; published_total : Z; ring_oversize_total : Z; first_tick_at : option float }.

Definition new_daemon (queue_size : Z) (r : option Ring.RingBuffer) (record : bool) : FeedDaemon :=
  mkDaemon (Bus.new_publisher queue_size) r 0 ∅ (if record then Some [] else None) no_trunc 0 0 None.

Inductive Exc := PackError (e : ModelError) | EncodeError (e : Protocol.ProtocolError) | RingError (e : Ring.RingError).

Definition set_bus (d : FeedDaemon) (b : Bus.UDSPublisher) : FeedDaemon :=
  mkDaemon b (ring d) (seq d) (snapshot d) (recorder d) (trunc d) (published_total d) (ring_oversize_total d) (first_tick_at d).
Definition set_trunc (d : FeedDaemon) (st : Trunc) : FeedDaemon :=
  mkDaemon (bus d) (ring d) (seq d) (snapshot d) (recorder d) st (published_total d) (ring_oversize_total d) (first_tick_at d).
(** A frame takes the next number and goes to the bus. *)
Definition send_frame (d : FeedDaemon) (frame : bytes) : FeedDaemon :=
  mkDaemon (Bus.publish (bus d) frame) (ring d) (seq d + 1) (snapshot d) (recorder d) (trunc d) (published_total d)
    (ring_oversize_total d) (first_tick_at d).

(** The ring's share: a payload too long for a slot is only counted. *)
Definition ring_push (d : FeedDaemon) (payload : bytes) : FeedDaemon * result Exc unit :=
  match ring d with
  | None => (d, Ok tt)
  | Some r =>
      if (length payload <=? Ring.payload_max r)%nat then
        let '(r, res) := Ring.push r payload in
        (mkDaemon (bus d) (Some r) (seq d) (snapshot d) (recorder d) (trunc d) (published_total d) (ring_oversize_total d) (first_tick_at d),
         match res with Ok _ => Ok tt | Err e => Err (RingError e) end)
      else
        (mkDaemon (bus d) (ring d) (seq d) (snapshot d) (recorder d) (trunc d) (published_total d) (ring_oversize_total d + 1) (first_tick_at d),
         Ok tt)
  end.

(** The recording, the snapshot and the counter. *)
Definition note_msg (d : FeedDaemon) (now : float) (frame : bytes) (m : Msg) : FeedDaemon :=
  mkDaemon (bus d) (ring d) (seq d) (note_in m (snapshot d)) ((fun fs => fs ++ [frame]) <$> recorder d) (trunc d)
    (published_total d + 1) (ring_oversize_total d)
    (match m, first_tick_at d with MTrade _, None => Some now | _, f => f end).

(** [_publish]. *)
Definition publish (d : FeedDaemon) (now : float) (m : Msg) : FeedDaemon * result Exc unit :=
  let '(st, packed) := msg_pack (trunc d) m in
  let d := set_trunc d st in
  match packed with
  | Err e => (d, Err (PackError e))
  | Ok payload =>
      match Protocol.encode (mtype m) (seq d) payload 0 with
      | Err e => (d, Err (EncodeError e))
      | Ok frame =>
          match ring_push (send_frame d frame) payload with
          | (d, Err e) => (d, Err e)
          | (d, Ok _) => (note_msg d now frame m, Ok tt)
          end
      end
  end.

(** A turn of [_heartbeat]; an error ends its task. *)
Definition beat (d : FeedDaemon) (ts_ns : Z) : FeedDaemon * result Exc unit :=
  match Protocol.heartbeat (seq d) ts_ns with
  | Ok frame => (send_frame d frame, Ok tt)
  | Err e => (d, Err (EncodeError e))
  end.

(** What the bus's clients do meanwhile. *)
Inductive Peer := Connect | Says (x : Z) (h : Bus.Hello) | Take (x : Z) | Drained (x : Z) | Leaves (x : Z).
Definition peer_event (p : Peer) : Bus.event :=
  match p with
  | Connect => Bus.Accept | Says x h => Bus.Says x h | Take x => Bus.Take x | Drained x => Bus.Drained x | Leaves x => Bus.Leaves x
  end.

Inductive event := Emit (now : float) (m : Msg) | Beat (ts_ns : Z) | OnBus (p : Peer).

Definition step (d : FeedDaemon) (ev : event) : FeedDaemon :=
  match ev with
  | Emit now m => (publish d now m).1
  | Beat ts => (beat d ts).1
  | OnBus p => set_bus d (Bus.bus_step (bus d) (peer_event p))
  end.
Definition run (d : FeedDaemon) (evs : list event) : FeedDaemon := foldl step d evs.

(** [ready]. *)
Definition ready (d : FeedDaemon) : bool := bool_decide (is_Some (first_tick_at d)).

(** [health]'s verdict, given which of the adapters are stale. *)
Definition healthy (stale : list bool) : bool := bool_decide (stale <> []) && negb (forallb id stale).
Definition degraded_upstreams (ups : list (pystr * bool)) : list pystr := omap (fun u : pystr * bool => if u.2 then Some u.1 else None) ups.

(** ** Replaying a recording *)

Definition decode (f : Protocol.Frame) : option Msg :=
  if (Protocol.msg_type f =? MSG_TRADE) && (TRADE_SIZE <=? length (Protocol.payload f))%nat then
    match unpack (Protocol.payload f) with Ok t => Some (MTrade t) | Err _ => None end
  else if (Protocol.msg_type f =? MSG_BOOK) && (BOOK_SIZE <=? length (Protocol.payload f))%nat then
    match book_unpack (Protocol.payload f) with Ok b => Some (MBook b) | Err _ => None end
  else None.

Definition event_ns (m : Msg) : Z := match m with MTrade t => ts_event_ns t | MBook b => bk_ts_event_ns b end.
(** Setting both time stamps. *)
Definition stamp (ev recv : Z) (m : Msg) : Msg :=
  match m with
  | MTrade t => MTrade (mkTrade (venue t) (symbol t) ev recv (price t) (qty t) (side t))
  | MBook b => MBook (mkBook (bk_venue b) (bk_symbol b) ev recv (bid b) (bid_qty b) (ask b) (ask_qty b))
  end.

(** The pause before a message: the original distance divided by the speed, unless it
    reaches five seconds. *)
Definition pause (speed : float) (prev : option Z) (m : Msg) : option float :=
  match prev with
  | Some p =>
      if fgt speed (of_int 0) then
        let gap := fdiv (fdiv (of_int (event_ns m - p)) (of_int 1000000000)) speed in
        if flt (of_int 0) gap && flt gap (of_int 5) then Some gap else None
      else None
  | None => None
  end.

(** The state of [_play_once] and what it emits, with the pauses before. *)
Record Player := mkPlayer { prev_event_ns : option Z; shift_ns : option Z }.
Definition play_one (speed : float) (restamp : bool) (now1 now2 : Z) (p : Player) (m : Msg) : Player * (option float * Msg) :=
  let w := pause speed (prev_event_ns p) m in
  let shift := if restamp then Some (default (now1 - event_ns m) (shift_ns p)) else shift_ns p in
  (mkPlayer (Some (event_ns m)) shift, (w, stamp (event_ns m + (if restamp then default 0 shift else 0)) now2 m)).

(** [clock i] gives the two readings at the [i]-th message. *)
Fixpoint play (speed : float) (restamp : bool) (clock : nat -> Z * Z) (p : Player) (ms : list Msg) : list (option float * Msg) :=
  match ms with
  | [] => []
  | m :: ms =>
      let '(p, out) := play_one speed restamp (clock O).1 (clock O).2 p m in
      out :: play speed restamp (fun i => clock (S i)) p ms
  end.

(** [_play_once] over the file's chunks. *)
Definition play_once (speed : float) (restamp : bool) (clock : nat -> Z * Z) (chunks : list bytes) : option (list (option float * Msg)) :=
  '(fs, _) ← Protocol.feed_all Protocol.new_parser chunks;
  Some (play speed restamp clock (mkPlayer None None) (omap decode fs)).

(** ** What is published *)

(** A message or a heartbeat, with its frame's payload. *)
Inductive Item := IMsg (m : Msg) | IBeat (ts_ns : Z).
Definition payload_of (it : Item) : bytes :=
  match it with
  | IMsg m => match (msg_pack no_trunc m).2 with Ok b => b | Err _ => [] end
  | IBeat ts => be_pack 8 ts
  end.
Definition type_of (it : Item) : Z := match it with IMsg m => mtype m | IBeat _ => MSG_HEARTBEAT end.
Definition frame_of (n : Z) (it : Item) : Protocol.Frame := Protocol.mkFrame (type_of it) n 0 (payload_of it).

(** The items an event sends in a state. *)
Definition sends (d : FeedDaemon) (ev : event) : list Item :=
  match ev with
  | Emit now m =>
      match (msg_pack (trunc d) m).2 with
      | Ok payload => match Protocol.encode (mtype m) (seq d) payload 0 with Ok _ => [IMsg m] | Err _ => [] end
      | Err _ => []
      end
  | Beat ts => match Protocol.heartbeat (seq d) ts with Ok _ => [IBeat ts] | Err _ => [] end
  | OnBus _ => []
  end.
Fixpoint sent (d : FeedDaemon) (evs : list event) : list Item :=
  match evs with [] => [] | ev :: evs => sends d ev ++ sent (step d ev) evs end.

Definition numbered (n : Z) (its : list Item) : list Protocol.Frame := imap (fun i it => frame_of (n + Z.of_nat i) it) its.

Lemma numbered_cons n it its : numbered n (it :: its) = frame_of n it :: numbered (n + 1) its.
Proof.
  unfold numbered. cbn [imap]. rewrite Z.add_0_r. f_equal. apply imap_ext. intros i x _. cbn. f_equal. lia.
Qed.
Lemma numbered_app n its its' : numbered n (its ++ its') = numbered n its ++ numbered (n + zlen its) its'.
Proof.
  revert n. induction its as [|it its IH]; intros n; [cbn; by rewrite Z.add_0_r|]. cbn [app]. rewrite !numbered_cons, IH.
  cbn [app length]. do 3 f_equal. lia.
Qed.
Lemma numbered_seq n its : Protocol.seq <$> numbered n its = seqZ n (zlen its).
Proof.
  revert n. induction its as [|it its IH]; intros n; [done|]. rewrite numbered_cons. cbn [fmap list_fmap]. rewrite IH.
  cbn [length]. rewrite (seqZ_cons n) by lia. cbn. f_equal. f_equal; lia.
Qed.

(** The counters of truncated texts do not change what is packed. *)
Lemma fix_no_trunc st s n : (fix_ st s n).2 = (fix_ no_trunc s n).2.
Proof. unfold fix_. destruct (utf8_encode s) as [b|]; [|done]. by destruct (n <? length b)%nat. Qed.

Lemma pack_no_trunc st m : (msg_pack st m).2 = (msg_pack no_trunc m).2.
Proof.
  destruct m as [t|b]; cbn [msg_pack]; unfold pack, book_pack.
  - pose proof (fix_no_trunc st (symbol t) 16) as H. destruct (fix_ st (symbol t) 16) as [s1 r1], (fix_ no_trunc (symbol t) 16) as [s2 r2].
    cbn [snd] in H. subst r2. destruct r1 as [sym|]; [|done].
    pose proof (fix_no_trunc s1 (venue t) 8) as H1. pose proof (fix_no_trunc s2 (venue t) 8) as H2.
    destruct (fix_ s1 (venue t) 8), (fix_ s2 (venue t) 8). cbn [snd] in *. by rewrite H1, H2.
  - pose proof (fix_no_trunc st (bk_symbol b) 16) as H. destruct (fix_ st (bk_symbol b) 16) as [s1 r1], (fix_ no_trunc (bk_symbol b) 16) as [s2 r2].
    cbn [snd] in H. subst r2. destruct r1 as [sym|]; [|done].
    pose proof (fix_no_trunc s1 (bk_venue b) 8) as H1. pose proof (fix_no_trunc s2 (bk_venue b) 8) as H2.
    destruct (fix_ s1 (bk_venue b) 8), (fix_ s2 (bk_venue b) 8). cbn [snd] in *. by rewrite H1, H2.
Qed.

(** ** The bus under the daemon *)

Definition bus_events (d : FeedDaemon) (ev : event) : list Bus.event :=
  match ev with
  | OnBus p => [peer_event p]
  | _ => Bus.Publish <$> (Protocol.wire <$> numbered (seq d) (sends d ev))
  end.

Lemma ring_push_frame d payload : let d' := (ring_push d payload).1 in bus d' = bus d /\ seq d' = seq d /\ recorder d' = recorder d /\
  trunc d' = trunc d /\ snapshot d' = snapshot d.
Proof.
  unfold ring_push. destruct (ring d) as [r|]; [|done]. destruct (_ <=? _)%nat; [|done]. by destruct (Ring.push r payload).
Qed.

Lemma encode_wire m n payload frame : Protocol.encode (mtype m) n payload 0 = Ok frame -> (msg_pack no_trunc m).2 = Ok payload ->
  frame = Protocol.wire (frame_of n (IMsg m)) /\ Protocol.frame_ok (frame_of n (IMsg m)).
Proof.
  intros H Hp. apply (Protocol.encode_frame_ok (Protocol.mkFrame (mtype m) n 0 payload)) in H as [H1 H2].
  unfold frame_of, payload_of, type_of. by rewrite Hp.
Qed.

Lemma heartbeat_wire n ts frame : Protocol.heartbeat n ts = Ok frame ->
  frame = Protocol.wire (frame_of n (IBeat ts)) /\ Protocol.frame_ok (frame_of n (IBeat ts)).
Proof.
  unfold Protocol.heartbeat. intros (p & Hp & H)%rbind_Ok. apply Protocol.pack_u_ok in Hp as [_ ->].
  by apply (Protocol.encode_frame_ok (Protocol.mkFrame Protocol.MSG_HEARTBEAT n 0 _)) in H as [H1 H2].
Qed.

Lemma step_sends d ev :
  bus (step d ev) = Bus.bus_run (bus d) (bus_events d ev) /\ seq (step d ev) = seq d + zlen (sends d ev) /\
  Forall Protocol.frame_ok (numbered (seq d) (sends d ev)).
Proof.
  destruct ev as [now m|ts|p]; cbn [step bus_events sends].
  - unfold publish. pose proof (pack_no_trunc (trunc d) m) as Hp. destruct (msg_pack (trunc d) m) as [st packed]. cbn [snd] in *.
    destruct packed as [payload|e]; [|cbn; split_and!; [done|lia|constructor]]. cbn [set_trunc seq].
    destruct (Protocol.encode (mtype m) (seq d) payload 0) as [frame|e] eqn:Ee; [|cbn; split_and!; [done|lia|constructor]].
    destruct (encode_wire _ _ _ _ Ee (eq_sym Hp)) as [-> Hok]. rewrite numbered_cons.
    pose proof (ring_push_frame (send_frame (set_trunc d st) (Protocol.wire (frame_of (seq d) (IMsg m)))) payload) as (R1 & R2 & _).
    destruct (ring_push _ payload) as [d' [u|e]]; cbn [fst note_msg bus seq] in *; rewrite R1, R2; (split_and!; [done|done|by constructor]).
  - unfold beat. destruct (Protocol.heartbeat (seq d) ts) as [frame|e] eqn:Eh; [|cbn; split_and!; [done|lia|constructor]].
    destruct (heartbeat_wire _ _ _ Eh) as [-> Hok]. rewrite numbered_cons. cbn. split_and!; [done|done|by constructor].
  - cbn. split_and!; [done|lia|constructor].
Qed.

Fixpoint bus_trace (d : FeedDaemon) (evs : list event) : list Bus.event :=
  match evs with [] => [] | ev :: evs => bus_events d ev ++ bus_trace (step d ev) evs end.

Lemma bus_events_payloads d ev : Bus.payloads (bus_events d ev) = Protocol.wire <$> numbered (seq d) (sends d ev).
Proof.
  destruct ev as [now m|ts|p]; cbn [bus_events].
  - induction (Protocol.wire <$> _) as [|w l IH]; [done|]. unfold Bus.payloads in *. cbn. by rewrite IH.
  - induction (Protocol.wire <$> _) as [|w l IH]; [done|]. unfold Bus.payloads in *. cbn. by rewrite IH.
  - by destruct p.
Qed.

Lemma run_sends evs : forall d,
  bus (run d evs) = Bus.bus_run (bus d) (bus_trace d evs) /\ seq (run d evs) = seq d + zlen (sent d evs) /\
  Forall Protocol.frame_ok (numbered (seq d) (sent d evs)) /\
  Bus.payloads (bus_trace d evs) = Protocol.wire <$> numbered (seq d) (sent d evs).
Proof.
  induction evs as [|ev evs IH]; intros d; cbn [run foldl bus_trace sent].
  { split_and!; [done|cbn; lia|constructor|done]. }
  destruct (step_sends d ev) as (S1 & S2 & S3), (IH (step d ev)) as (I1 & I2 & I3 & I4). unfold run in *.
  rewrite Bus.bus_run_app, <- S1. split; [exact I1|]. split; [rewrite I2, S2, length_app; lia|].
  rewrite numbered_app, <- S2. split; [by apply Forall_app|]. unfold Bus.payloads in *. rewrite omap_app, fmap_app. f_equal; [|exact I4].
  exact (bus_events_payloads d ev).
Qed.

Lemma run_app d evs evs' : run d (evs ++ evs') = run (run d evs) evs'.
Proof. apply foldl_app. Qed.
Lemma sent_app d evs evs' : sent d (evs ++ evs') = sent d evs ++ sent (run d evs) evs'.
Proof. revert d. induction evs as [|ev evs IH]; intros d; [done|]. cbn [app sent]. rewrite IH, <- app_assoc. done. Qed.

(** ** What a subscriber makes of the bytes *)

Lemma sublist_fmap_inv {A B} (f : A -> B) (l : list A) : forall k, k `sublist_of` (f <$> l) -> exists k', k = f <$> k' /\ k' `sublist_of` l.
Proof.
  induction l as [|x l IH]; intros k; cbn.
  - intros ->%sublist_nil_r. by exists [].
  - rewrite sublist_cons_r. intros [H|(k0 & -> & H)].
    + destruct (IH k H) as (k' & -> & Hk'). exists k'. split; [done|by apply sublist_cons].
    + destruct (IH k0 H) as (k' & -> & Hk'). exists (x :: k'). split; [done|by apply sublist_skip].
Qed.

(** The tracker over increasing numbers: no duplicate, and what it counts as lost are the
    numbers left out between the first and the last. *)
Definition ascending (l : list Z) : Prop := StronglySorted Z.lt l.

Lemma tracker_ascending l : forall t e s, Protocol.expected t = Some e -> ascending (s :: l) -> e <= s ->
  let t' := Protocol.observe_all t (s :: l) in
  Protocol.duplicate_count t' = Protocol.duplicate_count t /\
  Protocol.lost_messages t' = Protocol.lost_messages t + (List.last (s :: l) s - e + 1 - zlen (s :: l)).
Proof.
  induction l as [|s' l IH]; intros t e s He Hs Hle; cbn [Protocol.observe_all foldl].
  - unfold Protocol.observe. rewrite He. destruct (Z.eqb_spec s e); [subst; cbn; lia|]. destruct (Z.ltb_spec s e); [lia|]. cbn. lia.
  - apply StronglySorted_inv in Hs as [Hs Hlt]. apply Forall_cons in Hlt as [Hlt _].
    assert (exists t1, (Protocol.observe t s).1 = t1 /\ Protocol.expected t1 = Some (s + 1) /\
      Protocol.duplicate_count t1 = Protocol.duplicate_count t /\ Protocol.lost_messages t1 = Protocol.lost_messages t + (s - e)) as (t1 & -> & T1 & T2 & T3).
    { unfold Protocol.observe. rewrite He. destruct (Z.eqb_spec s e); [subst; cbn; eexists; split_and!; [done|done|done|cbn; lia]|].
      destruct (Z.ltb_spec s e); [lia|]. eexists. split_and!; [done|done|done|cbn; lia]. }
    destruct (IH t1 (s + 1) s' T1 Hs ltac:(lia)) as [I1 I2]. split; [by rewrite <- T2|].
    change (foldl _ _ l) with (Protocol.observe_all t1 (s' :: l)). rewrite I2, T3.
    cbn [length]. assert (List.last (s :: s' :: l) s = List.last (s' :: l) s') as ->; [|lia]. clear. cbn [List.last].
    destruct l; [done|]. revert z. induction l as [|y l IH]; intros z; [done|]. apply IH.
Qed.

Lemma seqZ_ascending a n : ascending (seqZ a n).
Proof.
  destruct (Z.le_gt_cases n 0) as [H|H]; [rewrite seqZ_nil by lia; constructor|]. revert a. 
  pattern n. apply natlike_ind; [|clear n H|lia].
  - intros a. rewrite seqZ_nil by lia. constructor.
  - intros n Hn IH a. rewrite seqZ_cons by lia. replace (Z.pred (Z.succ n)) with n by lia. constructor; [apply IH|].
    apply Forall_forall. intros x Hx%elem_of_seqZ. lia.
Qed.

Lemma ascending_sublist l l' : l `sublist_of` l' -> ascending l' -> ascending l.
Proof.
  induction 1 as [|x l l' Hs IH|x l l' Hs IH]; intros H; [constructor|..]; apply StronglySorted_inv in H as [H1 H2]; [|by apply IH].
  constructor; [by apply IH|]. apply Forall_forall. intros y Hy. apply (proj1 (Forall_forall _ _) H2).
  by eapply elem_of_sublist.
Qed.

Lemma last_in (l : list Z) : forall s, List.last (s :: l) s ∈ s :: l.
Proof.
  induction l as [|x l IH]; intros s; [by left|]. cbn [List.last]. destruct l as [|y l]; [right; by left|]. right.
  assert (forall d d', List.last (x :: y :: l) d = List.last (x :: y :: l) d') as E.
  { intros d d'. clear. cbn. revert y. induction l as [|z l IH]; intros y; [done|apply IH]. }
  change (List.last (y :: l) s) with (List.last (x :: y :: l) s). rewrite (E s x). apply IH.
Qed.

(** Numbers taken from consecutive ones: the gaps a tracker counts between them are among
    those left out. *)
Lemma tracker_sublist l a n : l `sublist_of` seqZ a n -> 0 <= n ->
  let t := Protocol.observe_all Protocol.new_tracker l in
  Protocol.duplicate_count t = 0 /\ 0 <= Protocol.lost_messages t <= n - zlen l.
Proof.
  intros Hl Hn. pose proof (ascending_sublist _ _ Hl (seqZ_ascending a n)) as Hs.
  pose proof (sublist_length _ _ Hl) as Hlen. rewrite length_seqZ in Hlen. destruct l as [|s l]; [cbn; lia|].
  cbn [Protocol.observe_all foldl]. change (foldl _ _ l) with (Protocol.observe_all (Protocol.observe Protocol.new_tracker s).1 l).
  destruct l as [|s' l]; [cbn in *; lia|].
  pose proof (StronglySorted_inv Hs) as [Hs' Hlt]. apply Forall_cons in Hlt as [Hlt _].
  destruct (tracker_ascending l (Protocol.observe Protocol.new_tracker s).1 (s + 1) s' eq_refl Hs' ltac:(lia)) as [T1 T2].
  rewrite T1, T2. cbn [Protocol.observe Protocol.new_tracker Protocol.expected Protocol.duplicate_count Protocol.lost_messages fst].
  split; [done|]. assert (forall x, x ∈ s :: s' :: l -> a <= x < a + n) as Hr.
  { intros x Hx. apply elem_of_seqZ. by eapply elem_of_sublist. }
  pose proof (Hr s ltac:(by left)). pose proof (Hr (List.last (s' :: l) s') ltac:(right; apply last_in)) as Hlast.
  split; [|cbn [length] in *; lia].
  assert (forall l s, ascending (s :: l) -> zlen (s :: l) <= List.last (s :: l) s - s + 1) as G; [|specialize (G l s' Hs'); lia].
  clear. induction l as [|x l IH]; intros s Hs; [cbn; lia|]. apply StronglySorted_inv in Hs as [Hs Hlt].
  apply Forall_cons in Hlt as [Hlt _]. specialize (IH x Hs). cbn [length] in *.
  assert (List.last (s :: x :: l) s = List.last (x :: l) x) as ->; [|lia]. clear. cbn [List.last]. destruct l as [|y l]; [done|].
  revert y. induction l as [|z l IH]; intros y; [done|apply IH].
Qed.

Lemma wires_parse fs : Forall Protocol.frame_ok fs -> forall chunks, concat chunks = concat (Protocol.wire <$> fs) ->
  exists p, Protocol.feed_all Protocol.new_parser chunks = Some (fs, p).
Proof.
  intros Hok chunks Hc. destruct (Protocol.feed_all_frames chunks Protocol.new_parser eq_refl) as (p & Hp). exists p. rewrite Hp, Hc.
  cbn [Protocol.new_parser Protocol.buf app]. rewrite <- (app_nil_r (concat _)), Protocol.frames_wires by done.
  by rewrite Protocol.frames_nil, app_nil_r.
Qed.

(** From the daemon to a subscriber's view.  Whatever the daemon publishes and whatever
    the bus's clients do, and however the socket cuts the bytes: a client that connected at
    some moment parses, from what its task has written, frames that the daemon sent since
    then, in their order and with their numbers, none twice; its sequence tracker counts
    no duplicate, and what it counts as lost is not more than the frames the publisher
    counted as dropped; with no drop counted it has every frame sent up to the last one it
    got. *)
Theorem subscriber_hears_feed size r record before evs c chunks :
  let d := run (new_daemon size r record) before in
  let d' := run d (OnBus Connect :: evs) in
  c ∈ Bus.clients (bus d') -> Bus.cid c = Bus.next_id (bus d) -> concat chunks = concat (Bus.out c) ->
  exists fs p, Protocol.feed_all Protocol.new_parser chunks = Some (fs, p) /\
    let all := numbered (seq d) (sent d (OnBus Connect :: evs)) in
    let t := Protocol.observe_all Protocol.new_tracker (Protocol.seq <$> fs) in
    let drops := Bus.dropped (bus d') - Bus.dropped (bus d) in
    fs `sublist_of` all /\ (drops = 0 -> fs `prefix_of` all) /\
    Protocol.duplicate_count t = 0 /\ 0 <= Protocol.lost_messages t <= drops.
Proof.
  intros d d' Hc Hid Hch. destruct (run_sends before (new_daemon size r record)) as (B1 & _ & _ & _). fold d in B1.
  change (bus (new_daemon size r record)) with (Bus.new_publisher size) in B1.
  destruct (run_sends (OnBus Connect :: evs) d) as (R1 & R2 & R3 & R4). fold d' in R1, R2.
  assert (Bus.accounted (Bus.next_id (bus d)) size (Bus.payloads (bus_trace (step d (OnBus Connect)) evs)) (Bus.dropped (bus d)) (bus d')) as (_ & _ & Hv).
  { rewrite R1, B1. cbn [bus_trace bus_events peer_event]. rewrite Bus.bus_run_app, <- B1.
    change (Bus.bus_run (bus d) [Bus.Accept]) with (Bus.accept_client (bus d)).
    apply (Bus.accounted_run _ _ []). rewrite B1. apply Bus.accounted_accept, Bus.run_size. }
  destruct (proj1 (Forall_forall _ _) Hv c (proj2 (Bus.view_elem _ _ _) (conj Hc Hid))) as [_ (pre & lost & E1 & E2 & E3 & E4 & E5)].
  change (Bus.payloads (bus_trace (step d (OnBus Connect)) evs)) with (Bus.payloads (bus_trace d (OnBus Connect :: evs))) in E1.
  rewrite R4 in E1. set (all := numbered (seq d) (sent d (OnBus Connect :: evs))) in *.
  assert (exists all1, pre = Protocol.wire <$> all1 /\ all1 `prefix_of` all) as (all1 & -> & Hpre).
  { exists (take (length pre) all). split; [|apply prefix_take]. rewrite fmap_take, E1. by rewrite take_app_length. }
  destruct (sublist_fmap_inv _ _ _ E2) as (fs & Ho & Hsub). rewrite Ho in Hch, E3, E2. rewrite !length_fmap in E3.
  assert (fs `sublist_of` all) as Hall by (destruct Hpre as [k ->]; by apply sublist_inserts_r).
  assert (Forall Protocol.frame_ok fs) as Hok by (apply Forall_forall; intros f Hf; apply (proj1 (Forall_forall _ _) R3); by eapply elem_of_sublist).
  destruct (wires_parse fs Hok chunks Hch) as (p & Hp). exists fs, p. split; [done|]. cbv zeta. split; [done|].
  assert (Protocol.seq <$> all1 = seqZ (seq d) (zlen all1)) as Hnum.
  { destruct Hpre as [k Hk]. pose proof (numbered_seq (seq d) (sent d (OnBus Connect :: evs))) as Hn. fold all in Hn. rewrite Hk, fmap_app in Hn.
    apply (f_equal (take (length all1))) in Hn. rewrite take_app_length' in Hn by by rewrite length_fmap. rewrite Hn.
    unfold seqZ. rewrite <- fmap_take. f_equal. rewrite Nat2Z.id. rewrite take_seq. f_equal.
    apply (f_equal length) in Hk. unfold all, numbered in Hk. rewrite length_imap, length_app in Hk. rewrite Nat2Z.id. lia. }
  assert ((Protocol.seq <$> fs) `sublist_of` seqZ (seq d) (zlen all1)) as Hs by (rewrite <- Hnum; by apply fmap_sublist).
  destruct (tracker_sublist _ _ _ Hs ltac:(lia)) as [T1 T2]. rewrite length_fmap in T2. split.
  - intros Hz. assert (fs = all1) as -> by (apply sublist_full; [done|lia]). done.
  - split; [done|lia].
Qed.

(** ** The recording and its replay *)

(** The messages an event publishes to the end. *)
Definition notes (d : FeedDaemon) (ev : event) : list (Z * Msg) :=
  match ev with Emit now m => match (publish d now m).2 with Ok _ => [(seq d, m)] | Err _ => [] end | _ => [] end.
Fixpoint noted (d : FeedDaemon) (evs : list event) : list (Z * Msg) :=
  match evs with [] => [] | ev :: evs => notes d ev ++ noted (step d ev) evs end.

Definition note_frame (nm : Z * Msg) : Protocol.Frame := frame_of nm.1 (IMsg nm.2).

Lemma step_notes d ev :
  recorder (step d ev) = (fun fs => fs ++ (Protocol.wire <$> (note_frame <$> notes d ev))) <$> recorder d /\
  snapshot (step d ev) = foldl (fun s nm => note_in nm.2 s) (snapshot d) (notes d ev) /\
  Forall (fun nm => Protocol.frame_ok (note_frame nm)) (notes d ev).
Proof.
  assert (forall o : option (list bytes), o = (fun fs => fs ++ []) <$> o) as Hid by (intros [fs|]; cbn; by rewrite ?app_nil_r).
  destruct ev as [now m|ts|p]; cbn [step notes].
  - unfold publish. pose proof (pack_no_trunc (trunc d) m) as Hp. destruct (msg_pack (trunc d) m) as [st packed]. cbn [snd] in Hp.
    destruct packed as [payload|e]; [|cbn; split_and!; [apply Hid|done|constructor]]. cbn [set_trunc seq].
    destruct (Protocol.encode (mtype m) (seq d) payload 0) as [frame|e] eqn:Ee; [|cbn; split_and!; [apply Hid|done|constructor]].
    destruct (encode_wire _ _ _ _ Ee (eq_sym Hp)) as [-> Hok].
    pose proof (ring_push_frame (send_frame (set_trunc d st) (Protocol.wire (frame_of (seq d) (IMsg m)))) payload) as (_ & _ & R3 & _ & R5).
    destruct (ring_push _ payload) as [d' [u|e]]; cbn [fst snd note_msg recorder snapshot] in *; rewrite R3, R5; cbn [send_frame recorder snapshot set_trunc].
    + split_and!; [done|done|by constructor].
    + split_and!; [apply Hid|done|constructor].
  - unfold beat. destruct (Protocol.heartbeat (seq d) ts); cbn; (split_and!; [apply Hid|done|constructor]).
  - cbn. split_and!; [apply Hid|done|constructor].
Qed.

Lemma run_notes evs : forall d,
  recorder (run d evs) = (fun fs => fs ++ (Protocol.wire <$> (note_frame <$> noted d evs))) <$> recorder d /\
  snapshot (run d evs) = foldl (fun s nm => note_in nm.2 s) (snapshot d) (noted d evs) /\
  Forall (fun nm => Protocol.frame_ok (note_frame nm)) (noted d evs).
Proof.
  induction evs as [|ev evs IH]; intros d; cbn [run foldl noted].
  { split_and!; [by destruct (recorder d); cbn; rewrite ?app_nil_r|done|constructor]. }
  destruct (step_notes d ev) as (S1 & S2 & S3), (IH (step d ev)) as (I1 & I2 & I3). unfold run in *. split_and!.
  - rewrite I1, S1. destruct (recorder d); [|done]. cbn. by rewrite !fmap_app, app_assoc.
  - by rewrite I2, S2, foldl_app.
  - by apply Forall_app.
Qed.

(** The message fits the wire record. *)
Definition msg_ok (m : Msg) : Prop := match m with MTrade t => trade_ok t | MBook b => book_ok b end.

Lemma decode_frame n m : msg_ok m -> decode (frame_of n (IMsg m)) = Some m.
Proof.
  intros Hok. unfold decode, frame_of, payload_of, type_of. destruct m as [t|b]; cbn [msg_pack mtype Protocol.msg_type Protocol.payload].
  - destruct (w_roundtrip (WireRecord := trade_wire) no_trunc t [] Hok) as (raw & Hp & Hl & Hu). cbn in Hp, Hl, Hu.
    rewrite Hp. cbn [snd]. rewrite Hl, Nat.leb_refl. cbn. rewrite app_nil_r in Hu. by rewrite Hu.
  - destruct (w_roundtrip (WireRecord := book_wire) no_trunc b [] Hok) as (raw & Hp & Hl & Hu). cbn in Hp, Hl, Hu.
    rewrite Hp. cbn [snd]. rewrite Hl, Nat.leb_refl. cbn. rewrite app_nil_r in Hu. by rewrite Hu.
Qed.

Lemma decode_notes l : Forall (fun nm : Z * Msg => msg_ok nm.2) l -> omap decode (note_frame <$> l) = l.*2.
Proof.
  induction 1 as [|nm l H _ IH]; [done|]. rewrite fmap_cons. cbn [omap list_omap]. unfold note_frame at 1.
  rewrite decode_frame by done. by rewrite IH.
Qed.

(** The shift of a replay: none, or what brings the first message to the present. *)
Definition shift_of (restamp : bool) (clock : nat -> Z * Z) (p : Player) (ms : list Msg) : Z :=
  if restamp then default (default 0 ((fun m => (clock O).1 - event_ns m) <$> head ms)) (shift_ns p) else 0.

Lemma play_shift speed restamp ms : forall clock p,
  (play speed restamp clock p ms).*2 = imap (fun i m => stamp (event_ns m + shift_of restamp clock p ms) (clock i).2 m) ms.
Proof.
  induction ms as [|m ms IH]; intros clock p; [done|]. cbn [play play_one fmap list_fmap imap]. f_equal.
  - cbn. unfold shift_of. destruct restamp; [|done]. by destruct (shift_ns p).
  - etransitivity; [apply IH|]. apply imap_ext. intros i x _. cbn [compose].
    assert (shift_of restamp (fun i => clock (S i))
      (mkPlayer (Some (event_ns m)) (if restamp then Some (default ((clock 0%nat).1 - event_ns m) (shift_ns p)) else shift_ns p)) ms
      = shift_of restamp clock p (m :: ms)) as ->; [|done].
    unfold shift_of. destruct restamp; [|done]. cbn. by destruct (shift_ns p).
Qed.

(** A recording replays what was recorded.  After any run of the daemon with a
    recording, whatever heartbeats, clients and failing messages came between, and however
    the file is cut into chunks, the replay emits exactly the messages that were published,
    each as it was but for its times: the receive time is the replay's, the event times are
    all moved by one and the same distance, which is none at full speed. *)
Theorem replay_reproduces size r evs speed restamp clock chunks :
  let d := new_daemon size r true in
  Forall (fun nm => msg_ok nm.2) (noted d evs) ->
  exists file, recorder (run d evs) = Some file /\
    (concat chunks = concat file ->
     exists out shift, play_once speed restamp clock chunks = Some out /\ (restamp = false -> shift = 0) /\
       out.*2 = imap (fun i m => stamp (event_ns m + shift) (clock i).2 m) (noted d evs).*2).
Proof.
  intros d Hok. destruct (run_notes evs d) as (R1 & _ & R3). change (recorder d) with (Some (@nil bytes)) in R1. cbn in R1.
  exists (Protocol.wire <$> (note_frame <$> noted d evs)). split; [done|]. intros Hc.
  destruct (wires_parse (note_frame <$> noted d evs)) with (chunks := chunks) as (p & Hp); [by apply Forall_fmap|done|].
  unfold play_once. rewrite Hp. cbn. rewrite decode_notes by done. do 2 eexists. split; [reflexivity|].
  split; [|apply play_shift]. by intros ->.
Qed.

(** ** The snapshot *)

Definition with_key (k : pystr) (ms : list Msg) : list Msg := List.filter (fun m => bool_decide (key m = k)) ms.

Lemma notes_lookup k ms : forall s : gmap pystr Snap,
  foldl (fun s m => note_in m s) s ms !! k =
    match with_key k ms with
    | [] => s !! k
    | m :: _ => Some (foldl (fun c m => note m c) (default (blank m) (s !! k)) (with_key k ms))
    end.
Proof.
  unfold with_key. induction ms as [|m ms IH]; intros s; [done|]. cbn [foldl List.filter]. rewrite IH. case_bool_decide as E.
  - subst k. unfold note_in. rewrite lookup_insert_eq. destruct (List.filter _ ms) as [|m' ms'] eqn:Ef; [done|]. by cbn [default foldl].
  - unfold note_in. by rewrite lookup_insert_ne.
Qed.

(** The snapshot's entry of an instrument is what its own messages add up to. *)
Theorem snapshot_exact size r record evs k :
  let d := new_daemon size r record in
  let ms := with_key k (noted d evs).*2 in
  snapshot (run d evs) !! k = ((fun m => foldl (fun c m => note m c) (blank m) ms) <$> head ms) /\
  forall c, snapshot (run d evs) !! k = Some c ->
    sn_trades c = zlen (List.filter (fun m => match m with MTrade _ => true | MBook _ => false end) ms) /\
    sn_last c = last_of <$> list.last (omap (fun m => match m with MTrade t => Some t | MBook _ => None end) ms) /\
    sn_top c = top_of <$> list.last (omap (fun m => match m with MBook b => Some b | MTrade _ => None end) ms).
Proof.
  intros d ms. destruct (run_notes evs d) as (_ & R2 & _). assert (snapshot (run d evs) !! k = ((fun m => foldl (fun c m => note m c) (blank m) ms) <$> head ms)) as E.
  { rewrite R2. assert (forall s l, foldl (fun (s : gmap pystr Snap) (nm : Z * Msg) => note_in nm.2 s) s l = foldl (fun s m => note_in m s) s l.*2) as ->.
    { intros s l. revert s. induction l as [|nm l IH]; intros s; [done|]. apply IH. }
    rewrite notes_lookup. fold ms. by destruct ms. }
  split; [exact E|]. intros c. rewrite E. intros Hc.
  assert (forall ms c0, let c := foldl (fun c m => note m c) c0 ms in
    sn_trades c = sn_trades c0 + zlen (List.filter (fun m => match m with MTrade _ => true | MBook _ => false end) ms) /\
    sn_last c = match list.last (omap (fun m => match m with MTrade t => Some t | MBook _ => None end) ms) with Some t => Some (last_of t) | None => sn_last c0 end /\
    sn_top c = match list.last (omap (fun m => match m with MBook b => Some b | MTrade _ => None end) ms) with Some b => Some (top_of b) | None => sn_top c0 end) as G.
  { clear. induction ms as [|m ms IH] using rev_ind; intros c0; [cbn; split_and!; [lia|done|done]|].
    destruct (IH c0) as (I1 & I2 & I3). rewrite foldl_app, !omap_app, List.filter_app, length_app. cbn [foldl].
    destruct m as [t|b]; cbn; rewrite ?last_snoc, ?app_nil_r; split_and!; try done; lia. }
  destruct ms as [|m ms']; [done|]. injection Hc as <-. destruct (G (m :: ms') (blank m)) as (G1 & G2 & G3).
  cbn [foldl] in G1, G2, G3. rewrite G1, G2, G3. split_and!; [cbn; lia| |]; by destruct (list.last _).
Qed.

(** ** Witnesses *)

Definition demo_msg (price : Z) : Msg := MTrade (mkTrade (lit "UPBIT") (lit "KRW-BTC") 1700000000000000000 1700000000001000000 (of_int price) (of_int 2) SIDE_BUY).
Definition demo_evs : list event :=
  [Emit (of_int 1) (demo_msg 100); OnBus (Says 0 (Bus.Named (Some (lit "writer")))); OnBus (Take 0); Beat 5; Emit (of_int 2) (demo_msg 101);
   Emit (of_int 3) (demo_msg 102); OnBus (Drained 0); OnBus (Take 0)].
Definition demo_daemon : FeedDaemon := new_daemon 1 None true.
Definition demo_end : FeedDaemon := run (run demo_daemon [Beat 1]) (OnBus Connect :: demo_evs).
Definition demo_client : Bus.Client := nth 0 (Bus.clients (bus demo_end)) (Bus.mkClient 0 [] None Bus.Naming []).

(** Of four frames the client with a queue of one gets the first and the last; its tracker
    counts the two between. *)
Lemma subscriber_hears_feed_witness :
  exists fs p, Protocol.feed_all Protocol.new_parser (Bus.out demo_client) = Some (fs, p) /\
    let t := Protocol.observe_all Protocol.new_tracker (Protocol.seq <$> fs) in
    Protocol.duplicate_count t = 0 /\ 0 <= Protocol.lost_messages t <= Bus.dropped (bus demo_end) - 0.
Proof.
  destruct (subscriber_hears_feed 1 None true [Beat 1] demo_evs demo_client (Bus.out demo_client)) as (fs & p & H1 & _ & _ & H2).
  - vm_compute. by left.
  - by vm_compute.
  - reflexivity.
  - exists fs, p. exact (conj H1 H2).
Defined.

Example demo_client_hears : omap (fun w => match Protocol.feed_all Protocol.new_parser [w] with
    | Some ([f], _) => Some (Protocol.seq f) | _ => None end) (Bus.out demo_client) = [1; 4] /\
  Bus.dropped (bus demo_end) = 2 /\ sn_trades (default (blank (demo_msg 0)) (snapshot demo_end !! lit "UPBIT:KRW-BTC")) = 3.
Proof. by vm_compute. Qed.

#[local] Instance msg_ok_dec m : Decision (msg_ok m).
Proof. destruct m; cbn [msg_ok]; [apply _|]. unfold book_ok, u64. apply _. Defined.

Lemma replay_reproduces_witness :
  exists file, recorder (run demo_daemon demo_evs) = Some file /\
    exists out shift, play_once (of_int 0) false (fun _ => (0, 77)) file = Some out /\ (false = false -> shift = 0) /\
      out.*2 = imap (fun i m => stamp (event_ns m + shift) 77 m) (noted demo_daemon demo_evs).*2.
Proof.
  destruct (replay_reproduces 1 None demo_evs (of_int 0) false (fun _ => (0, 77)) (default [] (recorder (run demo_daemon demo_evs)))) as (file & H1 & H2).
  - apply (bool_decide_unpack _). by vm_compute.
  - exists file. split; [exact H1|]. change (recorder (run demo_daemon demo_evs) = Some file) in H1. rewrite H1 in H2. by apply H2.
Defined.

End Feed.
