(* ===== verification/Backup.v ===== *)
(** * Backups (src/src/mdfeed/backup.py)

    A backup is a dump of the database and a manifest with its digest and the row counts and
    content digests of the application tables, taken in one snapshot.  A copy in a remote
    store is believed after it has been fetched back; the restore drill restores a copy into
    a database of its own, compares its tables with the manifest and drops the database.

    Files are a map from paths to contents, a database server a map from names to databases.
    Arguments of the model: JSON texts, [pg_dump] and [pg_restore], the order the server
    returns rows in, and what the transfer commands and the connections do. *)

From S2P Require Import Prelude Dict PyStr PyFloat PyInt Hashes Json Clock Url Catalog Retention Archive Migration.

Module Backup.
Import Catalog.Catalog Migration.Migration.

(** ** Data *)

(** A JSON value as deep as a manifest needs it. *)
Inductive JsonValue := Leaf (v : Retention.Val) | Obj (o : gmap pystr Retention.Val).
Abbreviation Object := (gmap pystr JsonValue) (only parsing).
Inductive Parsed := Dictionary (o : Object) | Invalid | Not_object.

(** [BackupError], and the exceptions that leave the module as they are. *)
Inductive BackupExc := BackupError (reason : string) | Escaped (name : string).
Abbreviation R A := (result BackupExc A) (only parsing).
Definition check (b : bool) (why : string) : R unit := if b then Ok tt else Err (BackupError why).

Abbreviation Files := (gmap pystr bytes) (only parsing).
(** A database: the tables it has, with their rows. *)
Abbreviation Db := (gmap pystr (list PgRow)) (only parsing).

Record BackupReceipt := mkBackupReceipt
  { r_object_id : pystr; r_artifact_sha256 : pystr; r_remote_artifact_sha256 : pystr; r_artifact_bytes : Z;
    r_remote_artifact_bytes : Z; r_manifest_sha256 : pystr; r_remote_manifest_sha256 : pystr; r_verified_at : pystr }.

Definition sha256_hex (b : bytes) : pystr := hexdigest (sha256 b).
Definition json_of (path : pystr) : pystr := path ++ lit ".json".

Section backup.
Variable decimal : Z -> option Z.
Variable float_repr : float -> pystr.
(** [json.load], and the texts [json.dump] gives a manifest and a receipt. *)
Variable load : bytes -> Parsed.
Variable dump : Object -> bytes.
Variable dump_receipt : BackupReceipt -> bytes.
(** The file [pg_dump] writes for a snapshot, and what [pg_restore] makes of a file: nothing,
    when it exits with an error. *)
Variable pg_dump : Db -> bytes.
Variable pg_restore : bytes -> option Db.
Variable postgres_order : TableCatalog -> list pystr -> list PgRow -> list PgRow.

(** ** Manifests *)

Definition read_json (fs : Files) (path : pystr) : R Object :=
  match fs !! path with
  | None => Err (BackupError "cannot read backup manifest")
  | Some b =>
      match load b with
      | Dictionary o => Ok o
      | Invalid => Err (BackupError "cannot read backup manifest")
      | Not_object => Err (BackupError "backup manifest is not an object")
      end
  end.

(** [str(expected.get(k, ""))]; the text of an object is no digest. *)
Definition text_at (k : string) (o : Object) : pystr :=
  match o !! lit k with
  | None => []
  | Some (Leaf v) => Archive.text_of float_repr v
  | Some (Obj _) => lit "{...}"
  end.
(** [o.get(k) == z] and [o.get(k) == s]. *)
Definition int_is (k : string) (o : Object) (z : Z) : bool :=
  match o !! lit k with Some (Leaf v) => Retention.eq_int v z | _ => false end.
Definition str_is (k : string) (o : Object) (s : pystr) : bool :=
  match o !! lit k with Some (Leaf v) => Retention.eq_str v s | _ => false end.
(** [int(o.get(k) or 0)] of a value that equals an integer. *)
Definition int_at (k : string) (o : Object) : Z :=
  match o !! lit k with
  | Some (Leaf (Retention.VInt z)) => z
  | Some (Leaf (Retention.VBool b)) => if b then 1 else 0
  | Some (Leaf (Retention.VFloat f)) => Clock.ftrunc f
  | _ => 0
  end.

(** [BackupManifest.to_json]. *)
Definition manifest_fields (id artifact : pystr) (b : bytes) (snapshot : pystr) (ds : list TableDigest) (created_at : pystr)
    : list (pystr * JsonValue) :=
    [(lit "object_id", Leaf (Retention.VStr id)); (lit "artifact", Leaf (Retention.VStr artifact));
     (lit "artifact_sha256", Leaf (Retention.VStr (sha256_hex b))); (lit "artifact_bytes", Leaf (Retention.VInt (zlen b)));
     (lit "snapshot_id", Leaf (Retention.VStr snapshot));
     (lit "table_counts", Obj (list_to_map ((fun d => (td_name d, Retention.VInt (row_count d))) <$> ds)));
     (lit "table_digests", Obj (list_to_map ((fun d => (td_name d, Retention.VStr (content_hash d))) <$> ds)));
     (lit "created_at", Leaf (Retention.VStr created_at)); (lit "format", Leaf (Retention.VStr (lit "pg_dump custom")))].
Definition manifest_doc (id artifact : pystr) (b : bytes) (snapshot : pystr) (ds : list TableDigest) (created_at : pystr) : Object :=
  list_to_map (manifest_fields id artifact b snapshot ds created_at).

(** ** The digest of a table, row by row *)

Definition _normalize_cell (cv : ColumnMapping * PgValue) : R SqlValue :=
  let '(c, v) := cv in
  match v with
  | PValue VNull => Ok VNull
  | PTime us =>
      if time_encoding c then Ok (VInt (datetime_to_epoch_us us))
      else if bool_decide (c_name c = lit "active") then Ok (VInt 1)
      else Err (BackupError "PostgreSQL datetime value appeared in a non-time column")
  | PValue v =>
      if time_encoding c then Err (BackupError "PostgreSQL timestamp column is not a datetime")
      else if bool_decide (c_name c = lit "active") then Ok (VInt (if truthy_value v then 1 else 0))
      else Ok v
  end.
Fixpoint _normalize_cells (cvs : list (ColumnMapping * PgValue)) : R SqlRow :=
  match cvs with
  | [] => Ok []
  | cv :: cvs => let! v := _normalize_cell cv in let! vs := _normalize_cells cvs in Ok (v :: vs)
  end.
Definition _normalize_postgres_row (t : TableCatalog) (row : PgRow) : R SqlRow := _normalize_cells (zip (columns t) row).

(** The variables of the loop; the hasher is the text it has been given. *)
Record Streamed := mkStreamed
  { hashed : bytes; s_rows : Z; s_nulls : list (pystr * Z); s_min : list (pystr * option Z); s_max : list (pystr * option Z) }.
Definition start (t : TableCatalog) : Streamed :=
  mkStreamed [] 0 ((fun c => (c_name c, 0)) <$> List.filter nullable (columns t))
    ((fun n => (n, None)) <$> timestamp_columns t) ((fun n => (n, None)) <$> timestamp_columns t).
Definition hash_line (row : SqlRow) (s : Streamed) : Streamed :=
  mkStreamed (hashed s ++ json_row float_repr row ++ [10]) (s_rows s + 1) (s_nulls s) (s_min s) (s_max s).
Definition bump (f : Z -> Z -> Z) (n : pystr) (z : Z) (d : list (pystr * option Z)) : list (pystr * option Z) :=
  dset n (Some (match dget n d with Some (Some cur) => f cur z | _ => z end)) d.

(** The body of the inner loop. *)
Definition count_cell (cv : ColumnMapping * SqlValue) (s : Streamed) : R Streamed :=
  let '(c, v) := cv in
  let s := match v with
           | VNull => if nullable c then mkStreamed (hashed s) (s_rows s) (dset (c_name c) (default 0 (dget (c_name c) (s_nulls s)) + 1) (s_nulls s))
                                           (s_min s) (s_max s)
                      else s
           | _ => s
           end in
  match v, dget (c_name c) (s_min s) with
  | VNull, _ | _, None => Ok s
  | _, Some _ =>
      match int_of decimal v with
      | Ok z => Ok (mkStreamed (hashed s) (s_rows s) (s_nulls s) (bump Z.min (c_name c) z (s_min s)) (bump Z.max (c_name c) z (s_max s)))
      | Err _ => Err (Escaped "ValueError")
      end
  end.
Fixpoint count_cells (cvs : list (ColumnMapping * SqlValue)) (s : Streamed) : R Streamed :=
  match cvs with [] => Ok s | cv :: cvs => let! s := count_cell cv s in count_cells cvs s end.
Fixpoint stream (t : TableCatalog) (rows : list PgRow) (s : Streamed) : R Streamed :=
  match rows with
  | [] => Ok s
  | row :: rows =>
      let! normalized := _normalize_postgres_row t row in
      let! s := count_cells (zip (columns t) normalized) (hash_line normalized s) in
      stream t rows s
  end.

Definition _stream_table_digest (db : Db) (t : TableCatalog) : R TableDigest :=
  match db !! t_name t with
  | None => Err (BackupError "required application table is missing")
  | Some rows =>
      let! s := stream t (postgres_order t (order_columns t) rows) (start t) in
      Ok (mkTableDigest (t_name t) (s_rows s) (s_nulls s) (s_min s) (s_max s) (sha256_hex (hashed s)))
  end.
Fixpoint digest_tables (db : Db) (ts : list TableCatalog) : R (list TableDigest) :=
  match ts with
  | [] => Ok []
  | t :: ts => let! d := _stream_table_digest db t in let! ds := digest_tables db ts in Ok (d :: ds)
  end.
Definition _snapshot_digest (db : Db) : R StorageDigest := rmap storage_digest (digest_tables db CATALOG).

(** ** A remote copy *)

(** [_run_transfer] and the errors of the block around it: all of them become a
    [BackupError]. *)
Definition run_transfer {A} (id : pystr) (done : option A) : R A :=
  match Archive.transfer id done with Ok a => Ok a | Err _ => Err (BackupError "remote transfer failed") end.
Definition write_file (path : pystr) (f : option bytes) (fs : Files) : Files :=
  match f with Some b => <[path := b]> fs | None => fs end.
(** [_sha256_file] inside that block. *)
Definition sha_of (fs : Files) (path : pystr) : R pystr :=
  match fs !! path with Some b => Ok (sha256_hex b) | None => Err (BackupError "No such file or directory") end.

Definition slash_free (id : pystr) : pystr := (fun c => if c =? 47 then 95 else c) <$> id.
Definition receipt_path (dir id : pystr) : pystr := Url.path_join dir (slash_free id ++ lit ".json").

(** Fetching the two objects to [dest]: the files as they are then, and whether the
    commands succeeded. *)
Definition fetch_both (id dest : pystr) (rem : Archive.Remote) (fs : Files) : Files * R unit :=
  match run_transfer id (Archive.fetch_artifact rem) with
  | Err e => (fs, Err e)
  | Ok fa =>
      let fs := write_file dest fa fs in
      match run_transfer (json_of id) (Archive.fetch_manifest rem) with
      | Err e => (fs, Err e)
      | Ok fm => (write_file (json_of dest) fm fs, Ok tt)
      end
  end.
Definition compare_fetched (fs : Files) (dest manifest_sha : pystr) (expected : Object) : R unit :=
  let! remote_manifest_sha := sha_of fs (json_of dest) in
  let! _ := check (bool_decide (remote_manifest_sha = manifest_sha)) "remote manifest digest does not match trusted manifest" in
  let! remote_artifact_sha := sha_of fs dest in
  let! _ := check (bool_decide (remote_artifact_sha = text_at "artifact_sha256" expected)) "remote artifact digest does not match trusted manifest" in
  check (int_is "artifact_bytes" expected (zlen (default [] (fs !! dest)))) "remote artifact size does not match trusted manifest".

Definition receipt_of (id artifact_sha : pystr) (expected : Object) (mb : bytes) (verified_at : pystr) : BackupReceipt :=
  let size := int_at "artifact_bytes" expected in
  mkBackupReceipt id artifact_sha (text_at "artifact_sha256" expected) size size (sha256_hex mb) (sha256_hex mb) verified_at.

(** [tmp] is the name of the artifact in the new temporary directory, which is gone at the
    end. *)
Definition verify_remote_backup (fs : Files) (artifact manifest id tmp : pystr) (rem : Archive.Remote) (receipt_dir verified_at : pystr)
    (push_first : bool) : Files * R BackupReceipt :=
  match read_json fs manifest, fs !! manifest with
  | Err e, _ => (fs, Err e)
  | Ok _, None => (fs, Err (BackupError "cannot read backup manifest"))
  | Ok expected, Some mb =>
      let expected_sha := text_at "artifact_sha256" expected in
      let manifest_sha := sha256_hex mb in
      let exists_ := bool_decide (is_Some (fs !! artifact)) in
      let local := default [] (fs !! artifact) in
      let artifact_sha := if exists_ then sha256_hex local else expected_sha in
      let early :=
        let! _ := check (negb push_first || exists_) "local artifact is required before remote push" in
        let! _ := check (negb exists_ || bool_decide (expected_sha = artifact_sha)) "local artifact digest does not match manifest" in
        let! _ := check (negb exists_ || int_is "artifact_bytes" expected (zlen local)) "local artifact size does not match manifest" in
        if push_first
        then let! _ := run_transfer id (Archive.pushed (Archive.push_artifact rem)) in
             run_transfer (json_of id) (Archive.pushed (Archive.push_manifest rem))
        else Ok tt in
      match early with
      | Err e => (fs, Err e)
      | Ok _ =>
          let in_place := negb exists_ && negb push_first in
          let dest := if in_place then artifact else tmp in
          let '(fetched, r) := fetch_both id dest rem (if in_place then fs else delete tmp (delete (json_of tmp) fs)) in
          let kept := if in_place then fetched else fs in
          match r, compare_fetched fetched dest manifest_sha expected with
          | Err e, _ | Ok _, Err e => (kept, Err e)
          | Ok _, Ok _ =>
              let receipt := receipt_of id artifact_sha expected mb verified_at in
              (<[receipt_path receipt_dir id := dump_receipt receipt]> kept, Ok receipt)
          end
      end
  end.

(** ** Making a backup *)

(** The database server as [create_backup] meets it. *)
Record Source := mkSource
  { so_dsn : bool; so_connects : bool; so_snapshot : option pystr; so_db : Db; so_dumps : bool }.

(** The snapshot's digests and the dump. *)
Definition take_snapshot (s : Source) : R (pystr * list TableDigest * bytes) :=
  let! _ := check (so_connects s) "backup create failed" in
  match so_snapshot s with
  | None => Err (BackupError "PostgreSQL did not export a backup snapshot")
  | Some snapshot =>
      match _snapshot_digest (so_db s) with
      | Err (BackupError why) => Err (BackupError why)
      | Err (Escaped _) => Err (BackupError "backup create failed")
      | Ok d =>
          let! _ := check (so_dumps s) "PostgreSQL tool exited" in
          Ok (snapshot, Migration.digest_tables d, pg_dump (so_db s))
      end
  end.

Definition dump_path (dir name : pystr) : pystr := Url.path_join dir (name ++ lit ".dump").
Definition partial_of (path : pystr) : pystr := path ++ lit ".partial".

(** [rem] is nothing when both commands are empty. *)
Definition create_backup (fs : Files) (s : Source) (dir name : pystr) (object_id : option pystr) (created_at tmp : pystr)
    (rem : option Archive.Remote) (receipt_dir : option pystr) (verified_at : pystr) : Files * R (pystr * pystr) :=
  if negb (so_dsn s) then (fs, Err (BackupError "DATABASE_URL is required")) else
  let path := dump_path dir name in
  let id := match object_id with Some ((_ :: _) as id) => id | _ => lit "backups/" ++ name ++ lit ".dump" end in
  let fs := delete (partial_of path) fs in
  match take_snapshot s with
  | Err e => (fs, Err e)
  | Ok (snapshot, ds, b) =>
      let fs := delete (partial_of (json_of path)) (<[path := b]> fs) in
      let fs := <[json_of path := dump (manifest_doc id (name ++ lit ".dump") b snapshot ds created_at)]> fs in
      match rem with
      | None => (fs, Ok (path, json_of path))
      | Some rem =>
          match verify_remote_backup fs path (json_of path) id tmp rem (default dir receipt_dir) verified_at true with
          | (fs, Err e) => (fs, Err e)
          | (fs, Ok _) => (fs, Ok (path, json_of path))
          end
      end
  end.

(** ** The restore drill *)

Record Server := mkServer { databases : gmap pystr Db }.

(** What the drill meets: the name it draws, the exceptions of the connection and of
    [CREATE DATABASE], whether [pg_restore] can run, what a failing [pg_restore] leaves behind,
    whether the restored database can be read, and whether [DROP DATABASE] fails. *)
Record Drill := mkDrill
  { dr_dsn : bool; dr_name : pystr; dr_source : pystr; dr_connect : option BackupExc; dr_create : option string;
    dr_tool : bool; dr_partial : Db; dr_reads : bool; dr_drop_fails : bool }.

(** [==] of what two [get]s return: the restored value, or nothing, and the expected one. *)
Definition same {A} (eq : Retention.Val -> A -> bool) (found : option A) (expected : option Retention.Val) : bool :=
  match found, expected with
  | Some a, Some v => eq v a
  | None, None | None, Some Retention.VNull => true
  | _, _ => false
  end.
Fixpoint tables_match (ds : list TableDigest) (counts digests : gmap pystr Retention.Val) (names : list pystr) : R unit :=
  match names with
  | [] => Ok tt
  | n :: names =>
      let d := List.find (fun d => bool_decide (td_name d = n)) ds in
      let! _ := check (same Retention.eq_int (row_count <$> d) (counts !! n)) "restored count does not match manifest" in
      let! _ := check (same Retention.eq_str (content_hash <$> d) (digests !! n)) "restored digest does not match manifest" in
      tables_match ds counts digests names
  end.

(** [manifest.get(k, {})] if it is a dict. *)
Definition dict_at (k : string) (o : Object) : R (gmap pystr Retention.Val) :=
  match o !! lit k with
  | None => Ok ∅
  | Some (Obj d) => Ok d
  | Some (Leaf _) => Err (BackupError "backup manifest missing table digests")
  end.

Definition _reconcile_restored (db : Db) (manifest : Object) : R (list (pystr * Z)) :=
  let! d := _snapshot_digest db in
  let! counts := dict_at "table_counts" manifest in
  let! digests := dict_at "table_digests" manifest in
  let! _ := tables_match (Migration.digest_tables d) counts digests APPLICATION_TABLES in
  Ok ((fun d => (td_name d, row_count d)) <$> Migration.digest_tables d).

(** The [try] block: what the new database holds when it ends, if it was made, and how it
    ends. *)
Definition drill_body (e : Drill) (srv : Server) (b : bytes) (data : Object) : option Db * R (list (pystr * Z)) :=
  match databases srv !! dr_name e, dr_create e with
  | Some _, _ => (None, Err (BackupError "restore target database already exists"))
  | None, Some why => (None, Err (BackupError why))
  | None, None =>
      match (if dr_tool e then pg_restore b else None) with
      | None => (Some (dr_partial e), Err (BackupError "PostgreSQL tool exited"))
      | Some db =>
          (Some db, if dr_reads e then
                      match _reconcile_restored db data with Err (Escaped _) => Err (BackupError "restore drill failed") | r => r end
                    else Err (BackupError "restore drill failed"))
      end
  end.

Definition restore_drill (fs : Files) (artifact manifest : pystr) (e : Drill) (srv : Server)
    : Server * R (pystr * list (pystr * Z)) :=
  let before :=
    let! _ := check (dr_dsn e) "MDFEED_MAINTENANCE_DSN is required" in
    let! data := read_json fs manifest in
    match fs !! artifact with
    | None => Err (Escaped "FileNotFoundError")
    | Some b =>
        let! _ := check (str_is "artifact_sha256" data (sha256_hex b)) "restore artifact digest does not match trusted manifest" in
        let! _ := check (bool_decide (dr_name e ∉ [dr_source e; lit "postgres"; lit "template0"; lit "template1"]))
                    "restore target database name is not safe" in
        match dr_connect e with Some x => Err x | None => Ok (data, b) end
    end in
  match before with
  | Err x => (srv, Err x)
  | Ok (data, b) =>
      let '(made, r) := drill_body e srv b data in
      let left_ := match made with
                   | Some db => if dr_drop_fails e then mkServer (<[dr_name e := db]> (databases srv)) else srv
                   | None => srv
                   end in
      match r with
      | Err x => (left_, Err x)
      | Ok tables => if dr_drop_fails e then (left_, Err (BackupError "restore cleanup failed")) else (left_, Ok (dr_name e, tables))
      end
  end.

(** [pathlib.Path(id).name], of an id without [.] parts. *)
Definition last_part (id : pystr) : pystr := Archive.base_name (rstrip_by (Z.eqb 47) id).

(** The fetches go into a temporary directory, which is gone at the end. *)
Definition restore_remote_drill (fs : Files) (manifest id tmpdir : pystr) (rem : Archive.Remote) (again : option (option bytes))
    (verified_at : pystr) (e : Drill) (srv : Server) : Server * R (pystr * list (pystr * Z)) :=
  let artifact := Url.path_join tmpdir (last_part id) in
  let fs := delete artifact (delete (json_of artifact) fs) in
  match verify_remote_backup fs artifact manifest id (tmpdir ++ lit "x") rem tmpdir verified_at false with
  | (_, Err x) => (srv, Err x)
  | (fs, Ok receipt) =>
      match Archive.transfer (json_of id) again with
      | Err _ => (srv, Err (Escaped "RemoteArtifactError"))
      | Ok f =>
          let fs := write_file (json_of artifact) f fs in
          match fs !! json_of artifact with
          | None => (srv, Err (Escaped "FileNotFoundError"))
          | Some mb =>
              if bool_decide (r_remote_manifest_sha256 receipt = sha256_hex mb) then restore_drill fs artifact (json_of artifact) e srv
              else (srv, Err (BackupError "fetched restore manifest is not bound to receipt"))
          end
      end
  end.
End backup.

(** ** The streamed digest is the migration's *)

Lemma cell_same cv v : _normalize_cell cv = Ok v <-> normalize_pg_cell cv = Ok v.
Proof. destruct cv as [c [[]|us]]; cbn; repeat case_match; split; congruence. Qed.

Lemma cells_same cvs vs : _normalize_cells cvs = Ok vs <-> traverse normalize_pg_cell cvs = Ok vs.
Proof.
  revert vs. induction cvs as [|cv cvs IH]; intros vs; cbn; [split; congruence|].
  rewrite !rbind_Ok. split; intros (v & E%cell_same & (vs' & E'%IH & E2)%rbind_Ok); exists v; (split; [done|]);
    rewrite E'; cbn; congruence.
Qed.

(** A dict with one entry per chosen column; the columns carry their positions. *)
Definition numbered (t : TableCatalog) : list (nat * ColumnMapping) := imap (fun i c => (i, c)) (columns t).
Definition entries {V} (p : ColumnMapping -> bool) (f : nat -> V) (l : list (nat * ColumnMapping)) : list (pystr * V) :=
  (fun ic => (c_name ic.2, f ic.1)) <$> List.filter (fun ic => p ic.2) l.
Definition at_ {V} (i : nat) (v : V) (f : nat -> V) : nat -> V := fun j => if (j =? i)%nat then v else f j.

Lemma entries_ext {V} p (f g : nat -> V) l : (forall ic, ic ∈ l -> f ic.1 = g ic.1) -> entries p f l = entries p g l.
Proof.
  intros H. unfold entries. apply list_fmap_ext. intros k ic Hk%list_elem_of_lookup_2.
  apply list_elem_of_In, filter_In in Hk as [Hk _]. f_equal. by apply H, list_elem_of_In.
Qed.

Lemma entries_skip {V} p (f : nat -> V) i c l : p c = false -> entries p f ((i, c) :: l) = entries p f l.
Proof. intros H. unfold entries. cbn. by rewrite H. Qed.

Definition distinct (l : list (nat * ColumnMapping)) : Prop := NoDup l.*1 /\ NoDup (c_name <$> l.*2).

Lemma distinct_cons ic l : distinct (ic :: l) -> distinct l /\ forall jc, jc ∈ l -> jc.1 <> ic.1 /\ c_name jc.2 <> c_name ic.2.
Proof.
  intros [[H1 N1]%NoDup_cons [H2 N2]%NoDup_cons]. split; [done|]. intros jc Hj. split; intros E.
  - apply H1. rewrite <-E. by apply list_elem_of_fmap_2.
  - apply H2. change (c_name (snd ic)) with (c_name ic.2). rewrite <-E. apply list_elem_of_fmap_2. by apply list_elem_of_fmap_2.
Qed.

Lemma entries_get {V} p (f : nat -> V) i c l : distinct l -> (i, c) ∈ l ->
  dget (c_name c) (entries p f l) = if p c then Some (f i) else None.
Proof.
  induction l as [|[j d] l IH]; intros D H; [by apply elem_of_nil in H|]. destruct (distinct_cons _ _ D) as [D' Hne].
  apply elem_of_cons in H as [[= <- <-]|H].
  - destruct (p c) eqn:E.
    + unfold entries. cbn. rewrite E. cbn. by rewrite bool_decide_true.
    + rewrite entries_skip by done. apply dget_None. intros ([k v] & E' & H)%list_elem_of_fmap. cbn in E'. subst k.
      unfold entries in H. apply list_elem_of_fmap in H as ([k d] & [= E1 E2] & H). apply list_elem_of_In, filter_In in H as [H _].
      apply list_elem_of_In in H. by apply Hne in H as [_ []].
  - specialize (IH D' H). destruct (Hne _ H) as [_ Hn]. cbn in Hn. unfold entries in *. cbn. destruct (p d); [|done]. cbn.
    by rewrite bool_decide_false by done.
Qed.

Lemma entries_set {V} p (f : nat -> V) i c v l : distinct l -> (i, c) ∈ l -> p c = true ->
  dset (c_name c) v (entries p f l) = entries p (at_ i v f) l.
Proof.
  induction l as [|[j d] l IH]; intros D H P; [by apply elem_of_nil in H|]. destruct (distinct_cons _ _ D) as [D' Hne].
  apply elem_of_cons in H as [[= <- <-]|H].
  - unfold entries. cbn. rewrite P. cbn. rewrite bool_decide_true by done. unfold at_ at 1. rewrite Nat.eqb_refl. f_equal.
    apply (entries_ext p f (at_ i v f) l). intros jc Hj. unfold at_. by rewrite (proj2 (Nat.eqb_neq _ _)) by apply Hne, Hj.
  - destruct (Hne _ H) as [Hi Hn]. cbn in Hi, Hn. specialize (IH D' H P). unfold entries in *. cbn. destruct (p d); [|done]. cbn.
    rewrite bool_decide_false by done. unfold at_ at 1. rewrite (proj2 (Nat.eqb_neq _ _)) by done. f_equal. apply IH.
Qed.

Lemma numbered_columns t : (numbered t).*2 = columns t.
Proof. apply list_eq. intros i. rewrite list_lookup_fmap. unfold numbered. rewrite list_lookup_imap. by destruct (columns t !! i). Qed.

Lemma numbered_lookup t i ic : numbered t !! i = Some ic -> ic.1 = i /\ columns t !! i = Some ic.2.
Proof. unfold numbered. rewrite list_lookup_imap. intros (c & E & ->)%fmap_Some. done. Qed.

Lemma catalog_columns t : t ∈ CATALOG -> NoDup (sqlite_columns t).
Proof. revert t. apply Forall_forall. apply (bool_decide_unpack _). by vm_compute. Qed.

Lemma numbered_distinct t : t ∈ CATALOG -> distinct (numbered t).
Proof.
  intros H. split.
  - apply NoDup_alt. intros i j x. rewrite !list_lookup_fmap. intros (a & Ha & ->)%fmap_Some (b & Hb & E)%fmap_Some.
    apply numbered_lookup in Ha as [], Hb as []. congruence.
  - rewrite numbered_columns. by apply catalog_columns.
Qed.

Lemma filter_numbered (p : ColumnMapping -> bool) l : (List.filter (fun ic : nat * ColumnMapping => p ic.2) l).*2 = List.filter p l.*2.
Proof. induction l as [|[i c] l IH]; [done|]. cbn. destruct (p c); cbn; [|done]. by rewrite IH. Qed.

Lemma entries_const {V} p (v : V) t : entries p (fun _ => v) (numbered t) = (fun c => (c_name c, v)) <$> List.filter p (columns t).
Proof. unfold entries. rewrite <-(numbered_columns t), <-filter_numbered, <-list_fmap_compose. done. Qed.

(** ** What the loop has counted after some rows *)

Definition is_null (v : SqlValue) : bool := match v with VNull => true | _ => false end.
Definition ints (vs : list SqlValue) : list Z := omap (fun v => match v with VInt z => Some z | _ => None end) vs.
(** A normalised row: a time is an integer or missing. *)
Definition normal (t : TableCatalog) (n : SqlRow) : Prop :=
  forall i c v, columns t !! i = Some c -> n !! i = Some v -> time_encoding c = true -> v = VNull \/ exists z, v = VInt z.

Lemma cells_length cvs vs : traverse normalize_pg_cell cvs = Ok vs -> length vs = length cvs.
Proof. intros H%traverse_Forall2. symmetry. by eapply Forall2_length. Qed.

Lemma normalized_normal t row n : normalize_postgres_row t row = Ok n -> normal t n /\ (length n <= length (columns t))%nat.
Proof.
  intros H. split.
  - apply traverse_Forall2 in H. intros i c v Hc Hv T. destruct (Forall2_lookup_r _ _ _ _ _ H Hv) as (cv & Hcv & E).
    apply lookup_zip_with_Some in Hcv as (c' & x & -> & Hc' & _). rewrite Hc in Hc'. injection Hc' as <-.
    destruct x as [[]|us]; cbn in E; rewrite ?T in E; try done; injection E as <-; eauto.
  - apply cells_length in H. rewrite H, length_zip_with. lia.
Qed.

Lemma cells_snoc i ns n : cells i (ns ++ [n]) = cells i ns ++ option_list (n !! i).
Proof. unfold cells. rewrite omap_app. cbn. by destruct (n !! i). Qed.

Lemma null_count_app a b : null_count (a ++ b) = null_count a + null_count b.
Proof. unfold null_count. rewrite List.filter_app, length_app. lia. Qed.

Lemma extreme_snoc f l x : extreme f (l ++ [x]) = Some (match extreme f l with Some c => f c x | None => x end).
Proof. destruct l as [|y l]; [done|]. cbn. by rewrite foldl_app. Qed.

Lemma entries_at_skip {V} p (f : nat -> V) i c v l : distinct l -> (i, c) ∈ l -> p c = false -> entries p (at_ i v f) l = entries p f l.
Proof.
  induction l as [|[j d] l IH]; intros D H P; [done|]. destruct (distinct_cons _ _ D) as [D' Hne].
  apply elem_of_cons in H as [[= <- <-]|H].
  - rewrite !entries_skip by done. apply entries_ext. intros jc Hj. unfold at_.
    by rewrite (proj2 (Nat.eqb_neq _ _)) by apply Hne, Hj.
  - destruct (Hne _ H) as [Hi _]. cbn in Hi. specialize (IH D' H P). unfold entries in *. cbn. destruct (p d); [|done]. cbn.
    unfold at_ at 1. rewrite (proj2 (Nat.eqb_neq _ _)) by done. by rewrite IH.
Qed.

Definition rendered (t : TableCatalog) (h : bytes) (r : Z) (fn : nat -> Z) (lo hi : nat -> option Z) : Streamed :=
  mkStreamed h r (entries nullable fn (numbered t)) (entries time_encoding lo (numbered t)) (entries time_encoding hi (numbered t)).
Definition more_nulls (n : SqlRow) (f : nat -> Z) (i : nat) : Z := match n !! i with Some VNull => f i + 1 | _ => f i end.
Definition widen (op : Z -> Z -> Z) (n : SqlRow) (f : nat -> option Z) (i : nat) : option Z :=
  match n !! i with Some (VInt z) => Some (match f i with Some c => op c z | None => z end) | _ => f i end.

Lemma rendered_ext t h r fn lo hi fn' lo' hi' : (forall ic, ic ∈ numbered t -> fn ic.1 = fn' ic.1 /\ lo ic.1 = lo' ic.1 /\ hi ic.1 = hi' ic.1) ->
  rendered t h r fn lo hi = rendered t h r fn' lo' hi'.
Proof.
  intros H. unfold rendered. rewrite (entries_ext nullable fn fn'), (entries_ext _ lo lo'), (entries_ext _ hi hi'); [done|..];
    intros ic Hic; by apply H.
Qed.

Lemma count_one decimal t h r fn lo hi n i c v : distinct (numbered t) -> (i, c) ∈ numbered t -> n !! i = Some v ->
  (time_encoding c = true -> v = VNull \/ exists z, v = VInt z) ->
  count_cell decimal (c, v) (rendered t h r fn lo hi) =
    Ok (rendered t h r (at_ i (more_nulls n fn i) fn) (at_ i (widen Z.min n lo i) lo) (at_ i (widen Z.max n hi i) hi)).
Proof.
  intros D H Hv T. assert (forall V (g : nat -> V) p, entries p (at_ i (g i) g) (numbered t) = entries p g (numbered t)) as Same.
  { intros V g p. apply entries_ext. intros jc _. unfold at_. by destruct (Nat.eqb_spec jc.1 i) as [->|]. }
  unfold more_nulls, widen. rewrite Hv. unfold count_cell, rendered.
  destruct v as [|z|f|x|b]; cbn [s_nulls s_min s_max hashed s_rows].
  - rewrite !Same. destruct (nullable c) eqn:N.
    + rewrite (entries_get nullable fn i c) by done. rewrite N. cbn [default s_nulls s_min s_max hashed s_rows].
      by rewrite (entries_set nullable fn i c) by done.
    + by rewrite (entries_at_skip nullable fn i c) by done.
  - rewrite Same, (entries_get time_encoding lo i c) by done. destruct (time_encoding c) eqn:E.
    + cbn [int_of]. unfold bump. rewrite (entries_get time_encoding lo i c), (entries_get time_encoding hi i c), E by done.
      by rewrite (entries_set time_encoding lo i c), (entries_set time_encoding hi i c) by done.
    + by rewrite (entries_at_skip time_encoding lo i c), (entries_at_skip time_encoding hi i c) by done.
  - rewrite !Same, (entries_get time_encoding lo i c) by done. destruct (time_encoding c); [|done]. by destruct (T eq_refl) as [?|[? ?]].
  - rewrite !Same, (entries_get time_encoding lo i c) by done. destruct (time_encoding c); [|done]. by destruct (T eq_refl) as [?|[? ?]].
  - rewrite !Same, (entries_get time_encoding lo i c) by done. destruct (time_encoding c); [|done]. by destruct (T eq_refl) as [?|[? ?]].
Qed.

Definition from {V} (k : nat) (u f : nat -> V) (i : nat) : V := if (k <=? i)%nat then u i else f i.

Lemma count_row decimal t n : distinct (numbered t) -> normal t n -> forall l k vs h r fn lo hi,
  l = drop k (numbered t) -> vs = drop k n ->
  count_cells decimal (zip l.*2 vs) (rendered t h r fn lo hi) =
    Ok (rendered t h r (from k (more_nulls n fn) fn) (from k (widen Z.min n lo) lo) (from k (widen Z.max n hi) hi)).
Proof.
  intros D N. induction l as [|[i c] l IH]; intros k vs h r fn lo hi Hl Hvs.
  - cbn. f_equal. apply rendered_ext. intros [j d] (q & Hq)%list_elem_of_lookup.
    destruct (numbered_lookup _ _ _ Hq) as [Ej _]. cbn in *. subst j.
    assert (q < k)%nat as Hlt. { apply lookup_lt_Some in Hq. pose proof (f_equal length Hl) as E. rewrite length_drop in E. cbn in E. lia. }
    unfold from. by rewrite (proj2 (Nat.leb_gt _ _)) by done.
  - assert (numbered t !! k = Some (i, c)) as Hk by (rewrite <-(Nat.add_0_r k), <-lookup_drop, <-Hl; done).
    destruct (numbered_lookup _ _ _ Hk) as [Ei Hc]. cbn in Ei, Hc. subst i.
    destruct vs as [|v vs].
    + cbn. f_equal. apply rendered_ext. intros [j d] _. unfold from, more_nulls, widen. cbn.
      destruct (Nat.leb_spec k j) as [Hle|]; [|done].
      assert (n !! j = None) as ->; [|done]. apply lookup_ge_None. pose proof (f_equal length Hvs) as E. rewrite length_drop in E. cbn in E. lia.
    + assert (n !! k = Some v) as Hn by (rewrite <-(Nat.add_0_r k), <-lookup_drop, <-Hvs; done).
      cbn [fmap list_fmap snd zip zip_with count_cells].
      rewrite (count_one decimal t h r fn lo hi n k c v) by (first [done|by apply list_elem_of_lookup_2 in Hk|intros; by eapply N]).
      cbn [rbind]. rewrite (IH (S k) vs).
      * f_equal. apply rendered_ext. intros [j d] _. unfold from, at_, more_nulls, widen. cbn [fst].
        destruct (Nat.leb_spec (S k) j), (Nat.leb_spec k j); try lia.
        -- rewrite (proj2 (Nat.eqb_neq j k)) by lia. done.
        -- assert (j = k) as -> by lia. rewrite Nat.eqb_refl. done.
        -- rewrite (proj2 (Nat.eqb_neq j k)) by lia. done.
      * change (S k) with (1 + k)%nat. rewrite Nat.add_comm, <-drop_drop, <-Hl. done.
      * change (S k) with (1 + k)%nat. rewrite Nat.add_comm, <-drop_drop, <-Hvs. done.
Qed.

Section equal.
Context (decimal : Z -> option Z) (float_repr : float -> pystr) (postgres_order : TableCatalog -> list pystr -> list PgRow -> list PgRow).
#[local] Set Default Proof Using "All".

(** The loop's variables after the normalised rows [ns]. *)
Definition summary (t : TableCatalog) (ns : list SqlRow) : Streamed :=
  rendered t (concat ((fun l => l ++ [10]) <$> (json_row float_repr <$> ns))) (zlen ns) (fun i => null_count (cells i ns))
    (fun i => extreme Z.min (ints (cells i ns))) (fun i => extreme Z.max (ints (cells i ns))).

Lemma hash_rendered t n h r fn lo hi : hash_line float_repr n (rendered t h r fn lo hi) =
  rendered t (h ++ json_row float_repr n ++ [10]) (r + 1) fn lo hi.
Proof. done. Qed.

Lemma start_summary t : start t = summary t [].
Proof.
  transitivity (rendered t [] 0 (fun _ => 0) (fun _ => None) (fun _ => None)); [|done].
  unfold start, rendered, timestamp_columns. by rewrite !entries_const, <-list_fmap_compose.
Qed.

Lemma summary_step t ns n : t ∈ CATALOG -> normal t n ->
  count_cells decimal (zip (columns t) n) (hash_line float_repr n (summary t ns)) = Ok (summary t (ns ++ [n])).
Proof.
  intros Ht N. rewrite <-numbered_columns. unfold summary. rewrite hash_rendered.
  rewrite (count_row decimal t n (numbered_distinct t Ht) N (numbered t) 0 n) by done. f_equal.
  assert (concat ((fun l => l ++ [10]) <$> (json_row float_repr <$> ns ++ [n])) =
    concat ((fun l => l ++ [10]) <$> (json_row float_repr <$> ns)) ++ json_row float_repr n ++ [10]) as ->.
  { rewrite !fmap_app, concat_app. cbn. by rewrite app_nil_r. }
  assert (zlen (ns ++ [n]) = zlen ns + 1) as -> by (rewrite length_app; cbn; lia).
  apply rendered_ext. intros [i c] Hic. unfold from, more_nulls, widen. cbn [fst Nat.leb]. rewrite !cells_snoc.
  unfold ints. rewrite !omap_app, null_count_app. destruct (n !! i) as [[]|]; cbn; rewrite ?app_nil_r, ?extreme_snoc, ?Z.add_0_r; done.
Qed.

Lemma stream_summary t rows : t ∈ CATALOG -> forall ns s,
  stream decimal float_repr t rows (summary t ns) = Ok s <-> exists ms, traverse (normalize_postgres_row t) rows = Ok ms /\ s = summary t (ns ++ ms).
Proof.
  intros Ht. induction rows as [|row rows IH]; intros ns s; cbn [stream traverse].
  - split; [intros [= <-]; exists []; by rewrite app_nil_r|]. intros (? & [= <-] & ->). by rewrite app_nil_r.
  - rewrite rbind_Ok. split.
    + intros (n & E%cells_same & H). change (normalize_postgres_row t row = Ok n) in E.
      rewrite summary_step in H by (done || by eapply normalized_normal). cbn [rbind] in H.
      apply IH in H as (ms & E' & ->). exists (n :: ms). rewrite E, E'. cbn. by rewrite <-app_assoc.
    + intros (ms & (n & E & (ms' & E' & [= <-])%rbind_Ok)%rbind_Ok & ->). exists n. split; [by apply cells_same|].
      rewrite summary_step by (done || by eapply normalized_normal). cbn [rbind]. apply IH. exists ms'. by rewrite <-app_assoc.
Qed.

Lemma times_ints vs : Forall (fun v => v = VNull \/ exists z, v = VInt z) vs -> times_of decimal vs = Ok (ints vs).
Proof.
  unfold times_of. induction 1 as [|v vs [->|[z ->]] _ IH]; cbn; [done|done|]. change (omap ?f vs) with (ints vs). by rewrite IH.
Qed.

Lemma digest_summary t ns : Forall (normal t) ns ->
  digest_rows decimal float_repr t ns = Ok (mkTableDigest (t_name t) (s_rows (summary t ns)) (s_nulls (summary t ns))
    (s_min (summary t ns)) (s_max (summary t ns)) (sha256_hex (hashed (summary t ns)))).
Proof.
  intros N. unfold digest_rows. fold (numbered t).
  assert (forall l, l ⊆ numbered t -> traverse (fun ic => rmap (fun ts => (c_name ic.2, ts)) (times_of decimal (cells ic.1 ns)))
      (List.filter (fun ic => time_encoding ic.2) l) =
    Ok ((fun ic => (c_name ic.2, ints (cells ic.1 ns))) <$> List.filter (fun ic => time_encoding ic.2) l)) as Times.
  - induction l as [|[i c] l IH]; intros Hl; [done|]. cbn. specialize (IH ltac:(set_solver)).
    destruct (time_encoding c) eqn:E; [|done]. cbn. rewrite times_ints; [by rewrite IH|].
    assert ((i, c) ∈ numbered t) as (q & Hq)%list_elem_of_lookup by set_solver. destruct (numbered_lookup _ _ _ Hq) as [Ei Hc]. cbn in *. subst q.
    apply Forall_forall. intros v (n & Hn & Hv)%list_elem_of_omap. rewrite Forall_forall in N. by eapply N.
  - rewrite (Times (numbered t)) by done. cbn [rbind]. f_equal. f_equal; unfold summary, rendered, entries, hash_lines, sha256_hex; cbn [s_rows s_nulls s_min s_max hashed];
    try done; by rewrite <-list_fmap_compose.
Qed.

(** The digest a backup takes of an application table in one pass over the rows (counters
    and extremes updated cell by cell, the hash fed line by line) is the digest the migration
    takes of the same rows: it exists for the same tables and its counts, extremes and content
    hash are the same. *)
Theorem stream_is_migration_digest db tg t rows d : t ∈ CATALOG -> db !! t_name t = Some rows -> rows_of (t_name t) tg = rows ->
  _stream_table_digest decimal float_repr postgres_order db t = Ok d <->
  postgres_table_digest decimal float_repr postgres_order tg t = Ok d.
Proof.
  intros Ht Hdb Htg. unfold _stream_table_digest, postgres_table_digest. rewrite Hdb, Htg, start_summary, !rbind_Ok.
  split.
  - intros (s & (ms & E & ->)%(stream_summary t _ Ht) & [= <-]). exists ms. split; [done|]. apply digest_summary.
    apply traverse_Forall2 in E. apply Forall_forall. intros m (i & Hi)%list_elem_of_lookup.
    destruct (Forall2_lookup_r _ _ _ _ _ E Hi) as (row & _ & Hr). by eapply normalized_normal.
  - intros (ms & E & H). rewrite digest_summary in H; [injection H as <-|].
    + exists (summary t ms). split; [|done]. apply stream_summary; [done|]. by exists ms.
    + apply traverse_Forall2 in E. apply Forall_forall. intros m (i & Hi)%list_elem_of_lookup.
      destruct (Forall2_lookup_r _ _ _ _ _ E Hi) as (row & _ & Hr). by eapply normalized_normal.
Qed.
End equal.

Lemma manifest_field id a b snap ds at_ k v : (k, v) ∈ manifest_fields id a b snap ds at_ -> manifest_doc id a b snap ds at_ !! k = Some v.
Proof. intros H. apply elem_of_list_to_map_1; [|done]. apply (bool_decide_unpack _). by vm_compute. Qed.

Lemma digests_field id a b snap ds at_ : manifest_doc id a b snap ds at_ !! lit "table_digests" =
  Some (Obj (list_to_map ((fun d => (td_name d, Retention.VStr (content_hash d))) <$> ds))).
Proof. apply manifest_field. unfold manifest_fields. do 6 apply list_elem_of_further. apply list_elem_of_here. Qed.
Lemma sha_field id a b snap ds at_ : manifest_doc id a b snap ds at_ !! lit "artifact_sha256" = Some (Leaf (Retention.VStr (sha256_hex b))).
Proof. apply manifest_field. unfold manifest_fields. do 2 apply list_elem_of_further. apply list_elem_of_here. Qed.

Lemma bytes_field id a b snap ds at_ : manifest_doc id a b snap ds at_ !! lit "artifact_bytes" = Some (Leaf (Retention.VInt (zlen b))).
Proof. apply manifest_field. unfold manifest_fields. do 3 apply list_elem_of_further. apply list_elem_of_here. Qed.

Lemma check_Ok b why (u : unit) : check b why = Ok u -> b = true.
Proof. by destruct b. Qed.

Lemma run_transfer_Ok {A} id (o : option A) a : run_transfer id o = Ok a -> o = Some a.
Proof.
  unfold run_transfer, Archive.transfer. destruct (Archive.validate_object_id id); cbn; [|done]. destruct o; cbn; congruence.
Qed.

Lemma write_lookup path f fs p x : write_file path f fs !! p = Some x -> (p = path /\ f = Some x) \/ fs !! p = Some x.
Proof. destruct f as [b|]; cbn; [|by right]. rewrite lookup_insert_Some. naive_solver. Qed.

(** ** What a restore drill confirms *)

Section drill.
Context (decimal : Z -> option Z) (float_repr : float -> pystr) (load : bytes -> Parsed) (dump : Object -> bytes)
  (dump_receipt : BackupReceipt -> bytes) (pg_dump : Db -> bytes) (pg_restore : bytes -> option Db)
  (postgres_order : TableCatalog -> list pystr -> list PgRow -> list PgRow).
#[local] Set Default Proof Using "Type".
Abbreviation digest_of := (_stream_table_digest decimal float_repr postgres_order) (only parsing).
Abbreviation verify := (verify_remote_backup float_repr load dump_receipt) (only parsing).

(** A line of JSON for every row of a table, the rows in the order of all columns. *)
Definition canonical_text (db : Db) (t : TableCatalog) : option bytes :=
  rows ← db !! t_name t;
  match traverse (normalize_postgres_row t) (postgres_order t (order_columns t) rows) with
  | Ok ns => Some (concat ((fun l => l ++ [10]) <$> (json_row float_repr <$> ns)))
  | Err _ => None
  end.
Definition texts (db : Db) : list bytes := omap (canonical_text db) CATALOG.

Lemma digest_name db t d : digest_of db t = Ok d -> td_name d = t_name t.
Proof. unfold _stream_table_digest. destruct (db !! t_name t); [|done]. by intros (? & _ & [= <-])%rbind_Ok. Qed.

Lemma digest_text db t d : t ∈ CATALOG -> digest_of db t = Ok d ->
  exists text, canonical_text db t = Some text /\ content_hash d = sha256_hex text.
Proof.
  intros Ht. unfold _stream_table_digest, canonical_text. destruct (db !! t_name t) as [rows|]; [|done]. cbn.
  rewrite (start_summary decimal float_repr postgres_order), rbind_Ok.
  intros (s & (ns & E & ->)%(stream_summary decimal float_repr postgres_order t _ Ht) & [= <-]). rewrite E. by eexists.
Qed.

(** The dict of the digests, looked up by a table's name. *)
Lemma digests_found db ts ds t : NoDup (t_name <$> ts) -> digest_tables decimal float_repr postgres_order db ts = Ok ds -> t ∈ ts ->
  exists d, digest_of db t = Ok d /\ List.find (fun d => bool_decide (td_name d = t_name t)) ds = Some d /\ d ∈ ds.
Proof.
  revert ds. induction ts as [|u ts IH]; intros ds N H Ht; [by apply elem_of_nil in Ht|]. cbn in H.
  apply rbind_Ok in H as (d & E & (ds' & E' & [= <-])%rbind_Ok). pose proof (digest_name _ _ _ E) as En.
  cbn in N. apply NoDup_cons in N as [N1 N]. apply elem_of_cons in Ht as [->|Ht].
  - exists d. cbn. rewrite bool_decide_true by done. split_and!; [done|done|apply list_elem_of_here].
  - destruct (IH _ N E' Ht) as (d' & Hd & Hf & Hin). exists d'. cbn. rewrite bool_decide_false.
    + split_and!; [done|done|by apply list_elem_of_further].
    + rewrite En. intros Eq. apply N1. rewrite Eq. by apply list_elem_of_fmap_2.
Qed.

Lemma snapshot_digests db sd : _snapshot_digest decimal float_repr postgres_order db = Ok sd ->
  exists ds, digest_tables decimal float_repr postgres_order db CATALOG = Ok ds /\ sd = storage_digest ds.
Proof. unfold _snapshot_digest. destruct (digest_tables _ _ _ db CATALOG) as [ds|]; [|done]. intros [= <-]. by exists ds. Qed.

Lemma digests_names db ts ds : digest_tables decimal float_repr postgres_order db ts = Ok ds -> td_name <$> ds = t_name <$> ts.
Proof.
  revert ds. induction ts as [|u ts IH]; intros ds H; cbn in H; [by injection H as <-|].
  apply rbind_Ok in H as (d & E%digest_name & (ds' & E' & [= <-])%rbind_Ok). cbn. by rewrite E, (IH _ E').
Qed.

Lemma catalog_nodup : NoDup (t_name <$> CATALOG).
Proof. apply (bool_decide_unpack _). by vm_compute. Qed.
Lemma catalog_application t : t ∈ CATALOG -> t_name t ∈ APPLICATION_TABLES.
Proof. revert t. apply Forall_forall. apply (bool_decide_unpack _). by vm_compute. Qed.

Lemma tables_match_at ds counts digests names n : tables_match ds counts digests names = Ok tt -> n ∈ names ->
  same Retention.eq_str (content_hash <$> List.find (fun d => bool_decide (td_name d = n)) ds) (digests !! n) = true.
Proof.
  induction names as [|m names IH]; intros H Hn; [by apply elem_of_nil in Hn|]. cbn in H.
  apply rbind_Ok in H as (? & _ & ([] & E%check_Ok & H)%rbind_Ok). apply elem_of_cons in Hn as [->|Hn]; [done|by apply IH].
Qed.

(** A database whose digests a manifest holds, and one that was reconciled with it. *)
Lemma reconciled l db ds restored id a b snap at_ tables t :
  digest_tables decimal float_repr postgres_order db CATALOG = Ok ds ->
  _reconcile_restored decimal float_repr postgres_order restored (manifest_doc id a b snap ds at_) = Ok tables ->
  Archive.distinguished l -> texts db ⊆ l -> texts restored ⊆ l -> t ∈ CATALOG ->
  exists text, canonical_text db t = Some text /\ canonical_text restored t = Some text.
Proof.
  intros Hds H D L1 L2 Ht. unfold _reconcile_restored in H.
  apply rbind_Ok in H as (sd & (ds' & Hds' & ->)%snapshot_digests & (cs & _ & (dg & Hdg & ([] & Hm & _)%rbind_Ok)%rbind_Ok)%rbind_Ok).
  assert (dg = list_to_map ((fun d => (td_name d, Retention.VStr (content_hash d))) <$> ds)) as ->.
  { unfold dict_at in Hdg. rewrite digests_field in Hdg. by injection Hdg as <-. }
  apply (tables_match_at _ _ _ _ (t_name t)) in Hm; [|by apply catalog_application].
  destruct (digests_found _ _ _ _ catalog_nodup Hds Ht) as (d & Hd & _ & Hin), (digests_found _ _ _ _ catalog_nodup Hds' Ht) as (d' & Hd' & Hf & _).
  destruct (digest_text _ _ _ Ht Hd) as (x & Hx & Ex), (digest_text _ _ _ Ht Hd') as (x' & Hx' & Ex').
  cbn [storage_digest Migration.digest_tables] in Hm. rewrite Hf in Hm.
  assert ((list_to_map ((fun d => (td_name d, Retention.VStr (content_hash d))) <$> ds) : gmap pystr Retention.Val) !! t_name t = Some (Retention.VStr (content_hash d))) as E.
  { apply elem_of_list_to_map_1.
    - rewrite <-list_fmap_compose. change (NoDup (td_name <$> ds)). rewrite (digests_names _ _ _ Hds). apply catalog_nodup.
    - apply list_elem_of_fmap. exists d. by rewrite <-(digest_name _ _ _ Hd). }
  rewrite E in Hm. cbn in Hm. apply bool_decide_eq_true in Hm. rewrite Ex, Ex' in Hm.
  assert (x = x') as <-; [|by exists x]. eapply Archive.same_digest; [exact D|apply L1|apply L2|exact Hm];
    apply list_elem_of_omap; by exists t.
Qed.

Abbreviation create := (create_backup decimal float_repr load dump dump_receipt pg_dump postgres_order) (only parsing).
Abbreviation remote_drill := (restore_remote_drill decimal float_repr load dump_receipt pg_restore postgres_order) (only parsing).

Definition backup_id (object_id : option pystr) (name : pystr) : pystr :=
  match object_id with Some ((_ :: _) as id) => id | _ => lit "backups/" ++ name ++ lit ".dump" end.

(** The manifest a backup leaves: the digests of the snapshot and of its dump. *)
Lemma snapshot_taken s snap ds b : take_snapshot decimal float_repr pg_dump postgres_order s = Ok (snap, ds, b) ->
  digest_tables decimal float_repr postgres_order (so_db s) CATALOG = Ok ds /\ b = pg_dump (so_db s).
Proof.
  unfold take_snapshot. intros (? & _ & E)%rbind_Ok. destruct (so_snapshot s) as [snap'|]; [|done].
  destruct (_snapshot_digest _ _ _ (so_db s)) as [sd|[]] eqn:Es; [|done..].
  apply snapshot_digests in Es as (ds' & Hds & ->). by apply rbind_Ok in E as (? & _ & [= <- <- <-]).
Qed.

Lemma created fs s dir name oid at_ tmp rem rdir va fs' path mpath :
  create fs s dir name oid at_ tmp rem rdir va = (fs', Ok (path, mpath)) ->
  receipt_path (default dir rdir) (backup_id oid name) <> mpath ->
  exists snap ds b, take_snapshot decimal float_repr pg_dump postgres_order s = Ok (snap, ds, b) /\
    fs' !! mpath = Some (dump (manifest_doc (backup_id oid name) (name ++ lit ".dump") b snap ds at_)).
Proof.
  unfold create_backup. fold (backup_id oid name). destruct (so_dsn s); [|done]. cbn [negb].
  destruct (take_snapshot _ _ _ _ s) as [[[snap ds] b]|] eqn:E; [|done].
  assert (forall p b (fs : Files), (<[json_of p := b]> fs) !! json_of p = Some b) as Here by (intros; apply lookup_insert_eq).
  destruct rem as [rem|].
  - intros H Hne. exists snap, ds, b. split; [done|]. revert H. unfold verify_remote_backup.
    destruct (read_json _ _ _) as [expected|]; [|done]. rewrite Here. cbn [negb andb].
    rewrite andb_false_r. destruct (rbind _ _); [|done]. destruct (fetch_both _ _ _ _) as [fetched [[]|]]; [|done].
    destruct (compare_fetched _ _ _ _ _); [|done]. intros [= <- <- <-]. rewrite lookup_insert_ne by done. apply Here.
  - intros [= <- <- <-] _. exists snap, ds, b. split; [done|apply Here].
Qed.

Definition remote_contents (rem : Archive.Remote) (again : option (option bytes)) : list bytes :=
  Archive.fetched rem ++ Archive.content_of again.

Lemma content_in (f : option (option bytes)) (x : bytes) : f = Some (Some x) -> x ∈ Archive.content_of f.
Proof. intros ->. apply list_elem_of_here. Qed.

(** A verification of an artifact that is not there yet. *)
Lemma verified_absent fs artifact manifest id tmp rem rdir va fs' receipt mb :
  verify fs artifact manifest id tmp rem rdir va false = (fs', Ok receipt) -> fs !! artifact = None -> fs !! json_of artifact = None ->
  fs !! manifest = Some mb ->
  exists expected, load mb = Dictionary expected /\ receipt = receipt_of float_repr id (text_at float_repr "artifact_sha256" expected) expected mb va /\
    forall p x, p = artifact \/ p = json_of artifact -> fs' !! p = Some x -> x = dump_receipt receipt \/ x ∈ Archive.fetched rem.
Proof.
  intros H Ha Hj Hm. unfold verify_remote_backup in H. rewrite Hm in H. unfold read_json in H. rewrite Hm in H.
  destruct (load mb) as [expected| |]; [|done..]. rewrite Ha in H. cbn in H.
  unfold fetch_both in H. destruct (run_transfer id (Archive.fetch_artifact rem)) as [fa|] eqn:Ea; [|done].
  apply run_transfer_Ok in Ea. destruct (run_transfer (json_of id) _) as [fm|] eqn:Em; [|done]. apply run_transfer_Ok in Em.
  destruct (compare_fetched _ _ _ _ _); [|done]. injection H as <- <-. exists expected. split_and!; [done..|].
  intros p x Hp Hx. apply lookup_insert_Some in Hx as [[_ <-]|[_ Hx]]; [by left|]. right. unfold Archive.fetched. apply elem_of_app.
  apply write_lookup in Hx as [[_ ->]|Hx]; [right; by apply content_in|].
  apply write_lookup in Hx as [[_ ->]|Hx]; [left; by apply content_in|]. destruct Hp as [->| ->]; congruence.
Qed.

Lemma json_of_ne p : json_of p <> p.
Proof. intros H%(f_equal length). unfold json_of in H. rewrite length_app in H. cbn in H. lia. Qed.

(** A drill that ends well restored a database from the artifact, and reconciled it. *)
Lemma drilled fs artifact manifest e srv srv' n tables :
  restore_drill decimal float_repr load pg_restore postgres_order fs artifact manifest e srv = (srv', Ok (n, tables)) ->
  exists mb data b db, fs !! manifest = Some mb /\ load mb = Dictionary data /\ fs !! artifact = Some b /\
    str_is "artifact_sha256" data (sha256_hex b) = true /\ pg_restore b = Some db /\
    _reconcile_restored decimal float_repr postgres_order db data = Ok tables.
Proof.
  unfold restore_drill. destruct (rbind _ _) as [[data b]|] eqn:E; [|done].
  apply rbind_Ok in E as (? & _ & (data' & Hr & E)%rbind_Ok). unfold read_json in Hr.
  destruct (fs !! manifest) as [mb|] eqn:Em; [|done]. destruct (load mb) as [o| |] eqn:El; [|done..]. injection Hr as ->.
  destruct (fs !! artifact) as [b'|]; [|done]. apply rbind_Ok in E as ([] & Hs%check_Ok & (? & _ & E)%rbind_Ok).
  destruct (dr_connect e); [done|]. injection E as <- <-. unfold drill_body.
  destruct (databases srv !! dr_name e); [done|]. destruct (dr_create e); [done|]. destruct (dr_tool e); [|done].
  destruct (pg_restore b') as [db|] eqn:Ep; [|done]. destruct (dr_reads e); [|done].
  destruct (_reconcile_restored _ _ _ db data') as [ts|[]] eqn:Er; [|done..]. destruct (dr_drop_fails e); [done|].
  intros [= _ _ <-]. by exists mb, data', b', db.
Qed.

(** The receipt of a drill, and the contents whose digests the drill compares: the manifest,
    the dump, what the remote store delivers, and the tables' texts. *)
Definition drill_receipt (id : pystr) (db : Db) (mb : bytes) (va : pystr) : BackupReceipt :=
  mkBackupReceipt id (sha256_hex (pg_dump db)) (sha256_hex (pg_dump db)) (zlen (pg_dump db)) (zlen (pg_dump db)) (sha256_hex mb) (sha256_hex mb) va.
Definition compared (id : pystr) (db : Db) (mb : bytes) (rem : Archive.Remote) (again : option (option bytes)) (va : pystr) : list bytes :=
  let delivered := dump_receipt (drill_receipt id db mb va) :: Archive.fetched rem ++ Archive.content_of again in
  mb :: pg_dump db :: delivered ++ texts db ++ (x ← delivered; texts (default ∅ (pg_restore x))).

(** A remote drill that ends well checked a receipt of its own verification, compared the
    manifest delivered again with it, and drilled files the store had delivered. *)
Lemma remote_drilled fs manifest id tmpdir rem again va e srv srv' n tables mb :
  fs !! manifest = Some mb -> remote_drill fs manifest id tmpdir rem again va e srv = (srv', Ok (n, tables)) ->
  exists expected fs4 artifact mb', load mb = Dictionary expected /\
    let receipt := receipt_of float_repr id (text_at float_repr "artifact_sha256" expected) expected mb va in
    fs4 !! json_of artifact = Some mb' /\ sha256_hex mb' = r_remote_manifest_sha256 receipt /\
    (forall p x, p = artifact \/ p = json_of artifact -> fs4 !! p = Some x ->
       x ∈ dump_receipt receipt :: Archive.fetched rem ++ Archive.content_of again) /\
    restore_drill decimal float_repr load pg_restore postgres_order fs4 artifact (json_of artifact) e srv = (srv', Ok (n, tables)).
Proof.
  intros Hm1 H. unfold restore_remote_drill in H.
  set (artifact := Url.path_join tmpdir _) in H. set (fs0 := delete artifact _) in H.
  assert (fs0 !! artifact = None /\ fs0 !! json_of artifact = None) as [Ha Hj].
  { unfold fs0. split; [apply lookup_delete_eq|]. rewrite lookup_delete_ne by apply not_eq_sym, json_of_ne. apply lookup_delete_eq. }
  destruct (verify fs0 _ _ _ _ _ _ _ _) as [fs3 [receipt|]] eqn:Ev; [|done].
  assert (fs0 !! manifest = Some mb) as Hm.
  { destruct (fs0 !! manifest) as [x|] eqn:E; [|unfold verify_remote_backup, read_json in Ev; by rewrite E in Ev].
    unfold fs0 in E. apply lookup_delete_Some in E as [_ E]. apply lookup_delete_Some in E as [_ E]. congruence. }
  destruct (verified_absent _ _ _ _ _ _ _ _ _ _ _ Ev Ha Hj Hm) as (expected & El & -> & Hfs3).
  destruct (Archive.transfer (json_of id) again) as [f|] eqn:Ef; [|done].
  assert (again = Some f) as -> by (apply (run_transfer_Ok (json_of id)); unfold run_transfer; by rewrite Ef).
  destruct (write_file _ f fs3 !! json_of artifact) as [mb'|] eqn:Emb'; [|done]. case_bool_decide as Hsha; [|done].
  exists expected, (write_file (json_of artifact) f fs3), artifact, mb'. split; [done|]. cbn zeta. split; [done|]. split; [done|]. split; [|done].
  intros p x Hp Hx. apply write_lookup in Hx as [[_ ->]|Hx].
  - apply list_elem_of_further, elem_of_app. right. by apply content_in.
  - destruct (Hfs3 p x Hp Hx) as [->|?]; [apply list_elem_of_here|]. apply list_elem_of_further, elem_of_app. by left.
Qed.

(** C25: A backup that a restore drill confirms can be restored: when a backup was made, its
    manifest kept, and a drill against a remote store (whatever the store delivers, and
    whatever the server holds) ends well, then restoring the dump gives a database in which
    every application table is there and has, row by row, the canonical text it had in the
    snapshot; or two of the contents the drill compared have one SHA-256 digest. *)
Theorem drill_confirms_backup fs s dir name oid at_ tmp rem rdir va fs1 path mpath fs2 manifest id tmpdir rem' again va' e srv srv' n tables mb :
  create fs s dir name oid at_ tmp rem rdir va = (fs1, Ok (path, mpath)) ->
  receipt_path (default dir rdir) (backup_id oid name) <> mpath ->
  (forall snap ds b, take_snapshot decimal float_repr pg_dump postgres_order s = Ok (snap, ds, b) ->
    let doc := manifest_doc (backup_id oid name) (name ++ lit ".dump") b snap ds at_ in load (dump doc) = Dictionary doc) ->
  fs1 !! mpath = Some mb -> fs2 !! manifest = Some mb ->
  remote_drill fs2 manifest id tmpdir rem' again va' e srv = (srv', Ok (n, tables)) ->
  (exists restored, pg_restore (pg_dump (so_db s)) = Some restored /\
    forall t, t ∈ CATALOG -> exists text, canonical_text (so_db s) t = Some text /\ canonical_text restored t = Some text) \/
  Archive.collides (compared id (so_db s) mb rem' again va').
Proof.
  intros Hc Hne Hload Hm1 Hm2 H. destruct (Archive.collides_or (compared id (so_db s) mb rem' again va')) as [|D]; [by right|left].
  destruct (created _ _ _ _ _ _ _ _ _ _ _ _ _ Hc Hne) as (snap & ds & b & Ht & Hm1'). specialize (Hload _ _ _ Ht). cbn zeta in Hload.
  apply snapshot_taken in Ht as [Hds ->]. rewrite Hm1 in Hm1'. injection Hm1' as Emb.
  set (doc := manifest_doc _ _ _ _ _ _) in *. rewrite <-Emb in Hload.
  destruct (remote_drilled _ _ _ _ _ _ _ _ _ _ _ _ _ Hm2 H) as (expected & fs4 & artifact & mb' & El & Emb' & Hsha & Hin & Hd).
  rewrite Hload in El. injection El as <-.
  assert (receipt_of float_repr id (text_at float_repr "artifact_sha256" doc) doc mb va' = drill_receipt id (so_db s) mb va') as Er.
  { unfold receipt_of, drill_receipt, text_at, int_at, doc. by rewrite sha_field, bytes_field. }
  rewrite Er in Hsha, Hin. clear Er H. rename Hd into H. cbn [r_remote_manifest_sha256 drill_receipt] in Hsha.
  set (delivered := _ :: _ ++ _) in Hin.
  assert (forall x, x ∈ delivered -> x ∈ compared id (so_db s) mb rem' again va') as Hsub.
  { intros x Hx. do 2 apply list_elem_of_further. apply elem_of_app. by left. }
  assert (mb = mb') as <-.
  { eapply Archive.same_digest; [exact D|apply list_elem_of_here|apply Hsub, (Hin (json_of artifact)); auto|done]. }
  apply drilled in H as (mb2 & data & b & db & E1 & E2 & Eb & Hs & Hr & Hrec).
  rewrite Emb' in E1. injection E1 as <-. rewrite Hload in E2. injection E2 as <-.
  pose proof (Hin artifact b (or_introl eq_refl) Eb) as Hb.
  unfold str_is, doc in Hs. rewrite sha_field in Hs. cbn in Hs. apply bool_decide_eq_true in Hs.
  assert (pg_dump (so_db s) = b) as <-.
  { eapply Archive.same_digest; [exact D|apply list_elem_of_further, list_elem_of_here|by apply Hsub|done]. }
  exists db. split; [done|]. intros t Ht. eapply reconciled; [done|done|exact D|..|done]; intros x Hx.
  - do 2 apply list_elem_of_further. apply elem_of_app. right. apply elem_of_app. by left.
  - do 2 apply list_elem_of_further. apply elem_of_app. right. apply elem_of_app. right. apply list_elem_of_bind.
    exists (pg_dump (so_db s)). by rewrite Hr.
Qed.

(** The drill leaves the server as it was: whatever its files, its store and the server
    do, every database that was there is unchanged; the server differs afterwards only when
    the drill's own database was made and dropping it failed, and then the drill does not
    report a result. *)
Theorem drill_leaves_server fs manifest id tmpdir rem again va e srv srv' r :
  remote_drill fs manifest id tmpdir rem again va e srv = (srv', r) ->
  (forall n db, databases srv !! n = Some db -> databases srv' !! n = Some db) /\
  (srv' = srv \/ dr_drop_fails e = true /\ (exists x, r = Err x) /\
    exists db, databases srv !! dr_name e = None /\ databases srv' = <[dr_name e := db]> (databases srv)).
Proof.
  assert (forall fs a m srv' r, restore_drill decimal float_repr load pg_restore postgres_order fs a m e srv = (srv', r) ->
    srv' = srv \/ dr_drop_fails e = true /\ (exists x, r = Err x) /\
    exists db, databases srv !! dr_name e = None /\ databases srv' = <[dr_name e := db]> (databases srv)) as Drill.
  { intros fs' a m srv'' r'. unfold restore_drill. destruct (rbind _ _) as [[data b]|]; [|intros [= <- _]; by left].
    unfold drill_body. destruct (databases srv !! dr_name e) eqn:En; [intros [= <- _]; by left|].
    destruct (dr_create e); [intros [= <- _]; by left|].
    destruct (if dr_tool e then pg_restore b else None) as [db|].
    - destruct (if dr_reads e then _ else _) as [ts|x]; destruct (dr_drop_fails e); intros [= <- <-]; try (by left); right; eauto 10.
    - destruct (dr_drop_fails e); intros [= <- <-]; [right; eauto 10|by left]. }
  intros H. assert (srv' = srv \/ dr_drop_fails e = true /\ (exists x, r = Err x) /\
    exists db, databases srv !! dr_name e = None /\ databases srv' = <[dr_name e := db]> (databases srv)) as Cases.
  { unfold restore_remote_drill in H. destruct (verify _ _ _ _ _ _ _ _ _) as [fs3 [receipt|]]; [|injection H as <- _; by left].
    destruct (Archive.transfer _ _); [|injection H as <- _; by left]. destruct (write_file _ _ _ !! _); [|injection H as <- _; by left].
    destruct (bool_decide _); [|injection H as <- _; by left]. by apply Drill in H. }
  split; [|done]. intros n db Hn. destruct Cases as [->|(_ & _ & db' & En & ->)]; [done|].
  rewrite lookup_insert_ne; [done|]. intros E. rewrite E in En. congruence.
Qed.

(** A copy that is not the trusted one is not believed, but when the artifact is not there
    and the trusted manifest lies beside it, the check that refuses the copy has already put
    the copy's manifest in the trusted one's place: the same command, run again, accepts the
    copy against its own manifest. *)
Theorem refused_copy_trusted_next fs artifact id tmp rem rdir va mb mb' ab o o' :
  fs !! artifact = None -> fs !! json_of artifact = Some mb -> load mb = Dictionary o ->
  Archive.validate_object_id id = Ok tt -> Archive.validate_object_id (json_of id) = Ok tt ->
  Archive.fetch_artifact rem = Some (Some ab) -> Archive.fetch_manifest rem = Some (Some mb') ->
  sha256_hex mb' <> sha256_hex mb -> load mb' = Dictionary o' ->
  text_at float_repr "artifact_sha256" o' = sha256_hex ab -> int_is "artifact_bytes" o' (zlen ab) = true ->
  exists fs1, verify fs artifact (json_of artifact) id tmp rem rdir va false =
      (fs1, Err (BackupError "remote manifest digest does not match trusted manifest")) /\
    fs1 !! json_of artifact = Some mb' /\
    exists receipt, (verify fs1 artifact (json_of artifact) id tmp rem rdir va false).2 = Ok receipt.
Proof.
  intros Ha Hm Hl Vi Vj Fa Fm Hne Hl' Hs Hz.
  assert (forall A id (a : A), Archive.validate_object_id id = Ok tt -> run_transfer id (Some a) = Ok a) as Tr.
  { intros A i a V. unfold run_transfer, Archive.transfer. by rewrite V. }
  exists (<[json_of artifact := mb']> (<[artifact := ab]> fs)). split_and!.
  - unfold verify_remote_backup, read_json. rewrite Hm, Hl, Ha. cbn [is_Some]. rewrite bool_decide_false by (by intros []).
    cbn. unfold fetch_both. rewrite Fa, Fm, !Tr by done. cbn. unfold compare_fetched, sha_of. rewrite lookup_insert_eq. cbn.
    by rewrite bool_decide_false.
  - apply lookup_insert_eq.
  - unfold verify_remote_backup, read_json. rewrite lookup_insert_eq, Hl'. rewrite lookup_insert_ne by apply json_of_ne.
    rewrite lookup_insert_eq. rewrite bool_decide_true by done. change (default [] (Some ab)) with ab. rewrite Hs.
    rewrite (bool_decide_true (_ = _)) by done. rewrite Hz. cbn [negb orb andb check rbind].
    unfold fetch_both. rewrite Fa, Fm, !Tr by done. cbn [write_file]. unfold compare_fetched, sha_of.
    rewrite lookup_insert_eq. cbn [rbind]. rewrite (bool_decide_true (_ = _)) by done. cbn [check rbind].
    rewrite lookup_insert_ne by apply json_of_ne. rewrite lookup_insert_eq. cbn [rbind]. rewrite Hs, bool_decide_true by done.
    cbn [check rbind]. change (default [] (Some ab)) with ab. rewrite Hz. cbn. by eexists.
Qed.
End drill.

(** ** A backup, its drill, and a copy that is not trusted *)

(** The JSON texts of [Archive]'s example, an object within the object as the text it has. *)
Definition value_code (v : JsonValue) : jval :=
  match v with Leaf v => Archive.val_code v | Obj o => JStr (111 :: Archive.demo_dump o) end.
Definition value_decode (v : jval) : JsonValue :=
  match v with
  | JStr (111 :: t) => match Archive.demo_load t with Archive.Object d => Obj d | _ => Leaf Retention.VOther end
  | v => Leaf (Archive.val_decode v)
  end.
Definition demo_dump (o : Object) : bytes := json_dumps (prod_map id value_code <$> map_to_list o).
Definition demo_load (b : bytes) : Parsed :=
  match json_loads b with Some l => Dictionary (list_to_map (prod_map id value_decode <$> l)) | None => Invalid end.

(** A database with [n] trades; a dump that says how many. *)
Definition demo_trade (i : Z) : PgRow :=
  [PTime (demo_time + i); PValue (VText (lit "UPBIT")); PValue (VText (lit "KRW-BTC")); PValue (VFloat (of_int 1)); PValue (VFloat (of_int 1));
   PValue (VInt 1); PTime (demo_time + i + 10); PValue (VInt 10); PValue VNull].
Definition demo_db (n : Z) : Db :=
  list_to_map ((fun t => (t_name t, if bool_decide (t_name t = lit "trades") then demo_trade <$> seqZ 0 n else [])) <$> CATALOG).
Definition demo_pg_dump (db : Db) : bytes := lit "PGDMP" ++ str_int (zlen (default [] (db !! lit "trades"))).
Definition demo_pg_restore (b : bytes) : option Db :=
  match read_int (drop 5 b) with Some (n, []) => if is_prefix (lit "PGDMP") b then Some (demo_db n) else None | _ => None end.
Definition demo_receipt (r : BackupReceipt) : bytes := r_object_id r ++ 32 :: r_manifest_sha256 r ++ 32 :: r_verified_at r.
Definition pg_in_order (t : TableCatalog) (cols : list pystr) (rows : list PgRow) : list PgRow := rows.

Definition demo_server : Source := mkSource true true (Some (lit "snap")) (demo_db 2) true.
Definition demo_taken : R (pystr * list TableDigest * bytes) := take_snapshot demo_decimal demo_repr demo_pg_dump pg_in_order demo_server.
Definition demo_manifest : bytes :=
  match demo_taken with
  | Ok (snap, ds, b) => demo_dump (manifest_doc (lit "backups/b.dump") (lit "b.dump") b snap ds (lit "now"))
  | Err _ => []
  end.
(** The remote store gives back what was pushed. *)
Definition demo_remote : Archive.Remote := Archive.mkRemote true true (Some (Some (demo_pg_dump (demo_db 2)))) (Some (Some demo_manifest)).
Definition demo_create : Files * R (pystr * pystr) :=
  create_backup demo_decimal demo_repr demo_load demo_dump demo_receipt demo_pg_dump pg_in_order ∅ demo_server (lit "/b") (lit "b") None
    (lit "now") (lit "/tmp/x") (Some demo_remote) None (lit "now").
Definition demo_drill : Drill := mkDrill true (lit "mdfeed_restore_test_1") (lit "mdfeed") None None true ∅ true false.
Definition demo_databases : Server := mkServer {[lit "mdfeed" := demo_db 2]}.
Definition demo_kept : Files := {[lit "/safe/m.json" := demo_manifest]}.
Definition demo_drilled : Server * R (pystr * list (pystr * Z)) :=
  restore_remote_drill demo_decimal demo_repr demo_load demo_receipt demo_pg_restore pg_in_order demo_kept (lit "/safe/m.json")
    (lit "backups/b.dump") (lit "/tmp") demo_remote (Some (Some demo_manifest)) (lit "later") demo_drill demo_databases.
Definition tables_of (r : R (pystr * list (pystr * Z))) : list (pystr * Z) := match r with Ok p => p.2 | Err _ => [] end.
Definition demo_tables : list (pystr * Z) := tables_of demo_drilled.2.

Definition ok_is {A} `{EqDecision A} (r : R A) (a : A) : bool := match r with Ok x => bool_decide (x = a) | Err _ => false end.
Lemma ok_is_spec {A} `{EqDecision A} (r : R A) a : ok_is r a = true -> r = Ok a.
Proof. destruct r; cbn; [|done]. by intros ->%bool_decide_eq_true. Qed.

Lemma demo_created : demo_create = (demo_create.1, Ok (lit "/b/b.dump", lit "/b/b.dump.json")).
Proof.
  assert (ok_is demo_create.2 (lit "/b/b.dump", lit "/b/b.dump.json") = true) as H
    by (vm_compute; reflexivity).
  apply ok_is_spec in H. rewrite <-H. apply surjective_pairing.
Qed.
Lemma demo_drill_ends : demo_drilled = (demo_drilled.1, Ok (lit "mdfeed_restore_test_1", demo_tables)).
Proof.
  unfold demo_tables. assert (ok_is (rmap fst demo_drilled.2) (lit "mdfeed_restore_test_1") = true) as H
    by (vm_compute; reflexivity).
  apply ok_is_spec in H. destruct demo_drilled as [srv [[n ts]|]]; cbn [rmap fst snd] in H; [|done]. by injection H as ->.
Qed.

Lemma drill_confirms_backup_witness : demo_tables !! 1%nat = Some (lit "trades", 2) /\
  exists restored, demo_pg_restore (demo_pg_dump (demo_db 2)) = Some restored /\
    forall t, t ∈ CATALOG -> exists text, canonical_text demo_repr pg_in_order (demo_db 2) t = Some text /\
      canonical_text demo_repr pg_in_order restored t = Some text.
Proof.
  split; [by vm_compute|].
  destruct (drill_confirms_backup demo_decimal demo_repr demo_load demo_dump demo_receipt demo_pg_dump demo_pg_restore pg_in_order
    ∅ demo_server (lit "/b") (lit "b") None (lit "now") (lit "/tmp/x") (Some demo_remote) None (lit "now") demo_create.1 (lit "/b/b.dump")
    (lit "/b/b.dump.json") demo_kept (lit "/safe/m.json") (lit "backups/b.dump") (lit "/tmp") demo_remote (Some (Some demo_manifest)) (lit "later")
    demo_drill demo_databases demo_drilled.1 (lit "mdfeed_restore_test_1") demo_tables demo_manifest) as [H|H].
  - exact demo_created.
  - by vm_compute.
  - intros snap ds b E. assert (demo_taken = Ok (snap, ds, b)) as E' by exact E. vm_compute in E'. injection E' as <- <- <-. vm_compute. reflexivity.
  - vm_compute. reflexivity.
  - vm_compute. reflexivity.
  - exact demo_drill_ends.
  - exact H.
  - exfalso. revert H. apply Archive.clash_spec. vm_compute. reflexivity.
Defined.

Lemma stream_is_migration_digest_witness : exists d, row_count d = 2 /\
  _stream_table_digest demo_decimal demo_repr pg_in_order (demo_db 2) trades_table = Ok d /\
  postgres_table_digest demo_decimal demo_repr pg_in_order (mkTarget true (demo_db 2) ∅ ∅) trades_table = Ok d.
Proof.
  destruct (_stream_table_digest demo_decimal demo_repr pg_in_order (demo_db 2) trades_table) as [d|e] eqn:E.
  - exists d. split; [|split; [done|]].
    + assert (rmap row_count (_stream_table_digest demo_decimal demo_repr pg_in_order (demo_db 2) trades_table) = Ok 2) as H by (vm_compute; reflexivity).
      rewrite E in H. by injection H.
    + apply (stream_is_migration_digest demo_decimal demo_repr pg_in_order (demo_db 2) (mkTarget true (demo_db 2) ∅ ∅) trades_table
        (demo_trade <$> seqZ 0 2) d); [|vm_compute; reflexivity..|exact E].
      right. left.
  - exfalso. revert E. vm_compute. done.
Defined.

(** A drill whose database cannot be dropped. *)
Definition stuck_drill : Drill := mkDrill true (lit "mdfeed_restore_test_1") (lit "mdfeed") None None true ∅ true true.
Definition demo_stuck : Server * R (pystr * list (pystr * Z)) :=
  restore_remote_drill demo_decimal demo_repr demo_load demo_receipt demo_pg_restore pg_in_order demo_kept (lit "/safe/m.json")
    (lit "backups/b.dump") (lit "/tmp") demo_remote (Some (Some demo_manifest)) (lit "later") stuck_drill demo_databases.

Lemma drill_leaves_server_witness : demo_drilled.1 = demo_databases /\
  databases demo_stuck.1 !! lit "mdfeed" = Some (demo_db 2).
Proof.
  split.
  - destruct (drill_leaves_server demo_decimal demo_repr demo_load demo_receipt demo_pg_restore pg_in_order demo_kept (lit "/safe/m.json")
      (lit "backups/b.dump") (lit "/tmp") demo_remote (Some (Some demo_manifest)) (lit "later") demo_drill demo_databases
      demo_drilled.1 (Ok (lit "mdfeed_restore_test_1", demo_tables)) demo_drill_ends) as [_ [H|[H _]]]; [exact H|discriminate H].
  - apply (drill_leaves_server demo_decimal demo_repr demo_load demo_receipt demo_pg_restore pg_in_order demo_kept (lit "/safe/m.json")
      (lit "backups/b.dump") (lit "/tmp") demo_remote (Some (Some demo_manifest)) (lit "later") stuck_drill demo_databases
      demo_stuck.1 demo_stuck.2).
    + apply surjective_pairing.
    + apply lookup_singleton_eq.
Defined.

(** The trusted manifest is of two trades; the store holds a backup of three, consistent in
    itself. *)
Definition demo_copy : bytes := demo_pg_dump (demo_db 3).
Definition demo_other : Object :=
  {[lit "artifact_sha256" := Leaf (Retention.VStr (sha256_hex demo_copy)); lit "artifact_bytes" := Leaf (Retention.VInt (zlen demo_copy))]}.
Definition demo_trusted : Object := {[lit "artifact_sha256" := Leaf (Retention.VStr (sha256_hex (demo_pg_dump (demo_db 2))))]}.
Definition demo_beside : Files := {[lit "/b/b.dump.json" := demo_dump demo_trusted]}.
Definition false_remote : Archive.Remote := Archive.mkRemote true true (Some (Some demo_copy)) (Some (Some (demo_dump demo_other))).

Lemma refused_copy_trusted_next_witness : exists fs1,
  verify_remote_backup demo_repr demo_load demo_receipt demo_beside (lit "/b/b.dump") (json_of (lit "/b/b.dump")) (lit "b") (lit "/tmp/x")
      false_remote (lit "/r") (lit "now") false =
    (fs1, Err (BackupError "remote manifest digest does not match trusted manifest")) /\
  exists receipt, (verify_remote_backup demo_repr demo_load demo_receipt fs1 (lit "/b/b.dump") (json_of (lit "/b/b.dump")) (lit "b") (lit "/tmp/x")
      false_remote (lit "/r") (lit "now") false).2 = Ok receipt.
Proof.
  destruct (refused_copy_trusted_next demo_repr demo_load demo_receipt demo_beside (lit "/b/b.dump") (lit "b") (lit "/tmp/x") false_remote
    (lit "/r") (lit "now") (demo_dump demo_trusted) (demo_dump demo_other) demo_copy demo_trusted demo_other) as (fs1 & H1 & _ & H2);
    [vm_compute; reflexivity..| |vm_compute; reflexivity|vm_compute; reflexivity|vm_compute; reflexivity|exact (ex_intro _ fs1 (conj H1 H2))].
  intros E. assert (bool_decide (sha256_hex (demo_dump demo_other) = sha256_hex (demo_dump demo_trusted)) = false) as H by (vm_compute; reflexivity).
  exact (proj1 (bool_decide_eq_false _) H E).
Defined.
End Backup.
