(* ===== verification/GapStore.v ===== *)
(** * Gaps in the database (src/src/mdfeed/gap_repository.py, [cmd_gap] of cli.py)

    The tables behind the repository of gaps, and the store of trusted receipts: a receipt
    is given out only with a completed migration and an authoritative coverage that are bound
    to each other, cover the gap's interval and have its scope.

    A time column holds a datetime in PostgreSQL and its text in SQLite, a JSON column a
    dict or its text.  Arguments of the model: [str.upper], the ISO texts of times, JSON
    reading, and the orders of [ORDER BY]. *)

From S2P Require Import Prelude PyStr PyFloat Hashes Json Catalog Migration Gaps.

Module GapStore.
Import Gaps.Gaps.

(** ** Values *)

(** A JSON value as the code uses it: its compact text, [int(v)], and [str] of the items
    that iterating it gives. *)
Record JVal := mkVal { v_text : pystr; v_int : option Z; v_items : option (list pystr) }.
Definition of_texts (l : list pystr) : JVal := mkVal (Migration.json_list (Migration.json_text <$> l)) None (Some l).
Definition of_int (z : Z) : JVal := mkVal (str_int z) (Some z) None.
#[export] Instance jval_eq_dec : EqDecision JVal.
Proof. solve_decision. Defined.
Abbreviation Doc := (gmap pystr JVal) (only parsing).
(** [_json]: [json.dumps(value, sort_keys=True, separators=(",", ":"))]. *)
Definition _json (d : Doc) : pystr := Migration.json_object ((fun kv => (kv.1, v_text kv.2)) <$> map_to_list d).

Inductive TimeCell := TNull | TText (s : pystr) | TTime (utc_us : Z) | TNaive (us : Z) | TInt (us : Z).
Inductive DocCell := DNull | DText (s : pystr) | DDict (d : Doc).

(** [GapTransitionError] of the state machine, [_incomplete(detail)], anything else. *)
Inductive Exc := Transition (e : GapError) | Incomplete (detail : string) | PyError (name : string).
Abbreviation R A := (result Exc A) (only parsing).
Definition raising (name : string) {A} (o : option A) : R A := match o with Some a => Ok a | None => Err (PyError name) end.
Definition require (b : bool) (detail : string) : R unit := if b then Ok tt else Err (Incomplete detail).
Definition transition {A} (r : result GapError A) : R A := match r with Ok a => Ok a | Err e => Err (Transition e) end.

(** ** Tables *)

Inductive Kind := Sqlite | Postgres.
Record GapRow := mkGapRow
  { g_state : pystr; g_started : TimeCell; g_ended : TimeCell; g_recovered : TimeCell;
    g_scope_hash : pystr; g_scope_json : DocCell; g_receipt : option pystr }.
Record CoverageRow := mkCoverageRow
  { c_start : TimeCell; c_end : TimeCell; c_scope_hash : pystr; c_scope_json : DocCell; c_fingerprint : pystr;
    c_counts : DocCell; c_evidence : pystr; c_producer : pystr; c_verified : TimeCell; c_ok : bool }.
Record ReceiptRow := mkReceiptRow
  { rr_gap : pystr; rr_start : TimeCell; rr_end : TimeCell; rr_scope_hash : pystr; rr_scope_json : DocCell;
    rr_reconciliation : pystr; rr_coverage : pystr; rr_intervals : Z; rr_rows : Z; rr_evidence : pystr;
    rr_verified : TimeCell; rr_ok : bool }.
(** The application tables and the migration's runs are [Migration]'s. *)
Record Db := mkDb
  { kind : Kind; gaps : gmap pystr GapRow; coverages : gmap pystr CoverageRow; receipts : gmap pystr ReceiptRow;
    target : Migration.Target }.
Definition set_gaps (db : Db) (g : gmap pystr GapRow) : Db := mkDb (kind db) g (coverages db) (receipts db) (target db).
Definition set_coverages (db : Db) (c : gmap pystr CoverageRow) : Db := mkDb (kind db) (gaps db) c (receipts db) (target db).
Definition set_receipts (db : Db) (r : gmap pystr ReceiptRow) : Db := mkDb (kind db) (gaps db) (coverages db) r (target db).

Definition state_text (s : GapState) : pystr :=
  match s with OPEN => lit "OPEN" | ENDED_UNRECOVERED => lit "ENDED_UNRECOVERED" | BACKFILLING => lit "BACKFILLING" | RECOVERED => lit "RECOVERED" end.
(** [GapState(str(v))]. *)
Definition state_of (s : pystr) : R GapState :=
  if bool_decide (s = lit "OPEN") then Ok OPEN else if bool_decide (s = lit "ENDED_UNRECOVERED") then Ok ENDED_UNRECOVERED
  else if bool_decide (s = lit "BACKFILLING") then Ok BACKFILLING else if bool_decide (s = lit "RECOVERED") then Ok RECOVERED
  else Err (PyError "ValueError").

Definition sha256_text (s : pystr) : pystr := hexdigest (sha256 s).

Section store.
Variable upper : pystr -> pystr.
(** [isoformat] of a UTC datetime with [Z] for its offset, and [parse_utc] ([None] raises). *)
Variable format_utc : Z -> pystr.
Variable parse_utc : pystr -> option Z.
(** [json.loads]. *)
Variable loads : pystr -> option Doc.
(** [repr] of a float and [ORDER BY] for the digest of the application tables. *)
Variable decimal : Z -> option Z.
Variable float_repr : float -> pystr.
Variable postgres_order : Catalog.TableCatalog -> list pystr -> list Migration.PgRow -> list Migration.PgRow.
(** [ORDER BY started_at]. *)
Variable by_started : list (pystr * GapRow) -> list (pystr * GapRow).

(** ** Scopes, times, documents *)

Definition scope_doc (s : GapScope) : Doc :=
  list_to_map [(lit "venues", of_texts (venues s)); (lit "symbols", of_texts (symbols s)); (lit "tables", of_texts (tables s))].
Definition _scope_json (s : GapScope) : pystr := _json (scope_doc s).
(** [asdict(scope)] dumps to the same text. *)
Definition _scope_hash (s : GapScope) : pystr := sha256_text (_scope_json s).

Definition texts_at (k : string) (raw : Doc) : R (list pystr) :=
  let! v := raising "KeyError" (raw !! lit k) in raising "TypeError" (v_items v).
Definition _scope_from_dict (raw : Doc) : R GapScope :=
  let! vs := texts_at "venues" raw in let! ss := texts_at "symbols" raw in let! ts := texts_at "tables" raw in
  Ok (mkScope (upper <$> vs) ss ts).

Definition _scope_from_stored (value : DocCell) (seed : option GapRecord) : R GapScope :=
  let absent := match seed with Some g => Ok (required_scope g) | None => Ok (mkScope [] [] []) end in
  match value with
  | DNull | DText [] => absent
  | DText s => let! raw := raising "ValueError" (loads s) in _scope_from_dict raw
  | DDict d => if bool_decide (d = ∅) then absent else _scope_from_dict d
  end.

Definition _coerce_utc (c : TimeCell) : R Z :=
  match c with
  | TTime us => Ok us
  | TNaive _ => Err (PyError "ValueError")
  | TInt us => if (Migration.MIN_SECOND <=? us / 1000000) && (us / 1000000 <=? Migration.MAX_SECOND) then Ok us else Err (PyError "ValueError")
  | TText s => raising "ValueError" (parse_utc s)
  | TNull => raising "ValueError" (parse_utc (lit "None"))
  end.
(** [_coerce_utc(v) if v else None]. *)
Definition coerce_opt (c : TimeCell) : R (option Z) :=
  match c with TNull | TText [] => Ok None | TInt z => if z =? 0 then Ok None else rmap Some (_coerce_utc c) | c => rmap Some (_coerce_utc c) end.

Definition _json_load (c : DocCell) : R Doc :=
  match c with DDict d => Ok d | DText s => raising "ValueError" (loads s) | DNull => raising "ValueError" (loads (lit "None")) end.

(** What the two databases give back of a time and of a document written as text. *)
Definition time_cell (k : Kind) (us : Z) : TimeCell := match k with Sqlite => TText (format_utc us) | Postgres => TTime us end.
Definition opt_cell (k : Kind) (o : option Z) : TimeCell := match o with Some us => time_cell k us | None => TNull end.
Definition doc_cell (k : Kind) (d : Doc) : DocCell := match k with Sqlite => DText (_json d) | Postgres => DDict d end.

(** ** The repository *)

Definition _reconciliation_result (db : Db) (receipt_id : option pystr) : option pystr :=
  match receipt_id with
  | Some ((_ :: _) as i) =>
      match receipts db !! i with Some rr => if rr_ok rr then Some (rr_reconciliation rr) else None | None => None end
  | _ => None
  end.

Definition find_seed (seeds : list GapRecord) (gid : pystr) : option GapRecord := last (filter (fun g => id g = gid) seeds).

Definition _from_row (seeds : list GapRecord) (db : Db) (gid : pystr) (row : GapRow) : R GapRecord :=
  let seed := find_seed seeds gid in
  let! scope := _scope_from_stored (g_scope_json row) seed in
  let! _ := require (bool_decide (g_scope_hash row = []) || bool_decide (g_scope_hash row = _scope_hash scope)) "stored required scope hash mismatch" in
  let! started := _coerce_utc (g_started row) in
  let! ended := coerce_opt (g_ended row) in
  let! st := state_of (g_state row) in
  let! recovered := coerce_opt (g_recovered row) in
  Ok (mkGap gid started ended st scope
        (match seed with Some g => reason g | None => Given (lit "stored data gap requires verified backfill") end)
        (g_receipt row) recovered (_reconciliation_result db (g_receipt row))).

Definition get_record (seeds : list GapRecord) (db : Db) (gid : pystr) : R (option GapRecord) :=
  match gaps db !! gid with None => Ok None | Some row => rmap Some (_from_row seeds db gid row) end.

Fixpoint from_rows (seeds : list GapRecord) (db : Db) (rows : list (pystr * GapRow)) : R (list GapRecord) :=
  match rows with [] => Ok [] | r :: rows => let! g := _from_row seeds db r.1 r.2 in let! gs := from_rows seeds db rows in Ok (g :: gs) end.
Definition list_records (seeds : list GapRecord) (db : Db) : R (list GapRecord) := from_rows seeds db (by_started (map_to_list (gaps db))).

Definition _record_params (k : Kind) (g : GapRecord) : GapRow :=
  mkGapRow (state_text (state g)) (time_cell k (started_at g)) (opt_cell k (ended_at g)) (opt_cell k (recovered_at g))
    (_scope_hash (required_scope g)) (doc_cell k (scope_doc (required_scope g))) (backfill_receipt_id g).

(** The CHECK of PostgreSQL's table. *)
Definition is_null (c : TimeCell) : bool := match c with TNull => true | _ => false end.
Definition row_allowed (k : Kind) (r : GapRow) : bool :=
  let no_receipt := match g_receipt r with None => true | Some _ => false end in
  match k with
  | Sqlite => true
  | Postgres =>
      (bool_decide (g_state r = lit "OPEN") && is_null (g_ended r) && is_null (g_recovered r) && no_receipt) ||
      ((bool_decide (g_state r = lit "ENDED_UNRECOVERED") || bool_decide (g_state r = lit "BACKFILLING")) && negb (is_null (g_ended r)) && is_null (g_recovered r)) ||
      (bool_decide (g_state r = lit "RECOVERED") && negb (is_null (g_ended r)) && negb (is_null (g_recovered r)) && negb no_receipt)
  end.

(** The upsert of [save] keeps the start of a row that is there. *)
Definition save_record (db : Db) (g : GapRecord) : R Db :=
  let row := _record_params (kind db) g in
  let row := match gaps db !! id g with
             | Some old => mkGapRow (g_state row) (g_started old) (g_ended row) (g_recovered row) (g_scope_hash row)
                             (g_scope_json row) (g_receipt row)
             | None => row
             end in
  if row_allowed (kind db) row then Ok (set_gaps db (<[id g := row]> (gaps db))) else Err (PyError "CheckViolation").
Definition _insert_seed (db : Db) (g : GapRecord) : R Db :=
  let row := _record_params (kind db) g in
  if row_allowed (kind db) row then
    Ok (match gaps db !! id g with Some _ => db | None => set_gaps db (<[id g := row]> (gaps db)) end)
  else Err (PyError "CheckViolation").
(** Opening the repository; the seeds are a dict by id.  What an error leaves behind stays. *)
Fixpoint _seed (db : Db) (seeds : list GapRecord) : Db * R unit :=
  match seeds with
  | [] => (db, Ok tt)
  | g :: seeds => match _insert_seed db g with Ok db => _seed db seeds | Err e => (db, Err e) end
  end.
Definition open_storage (db : Db) (seeds : list GapRecord) : Db * R unit := _seed db (memory_repository seeds).

(** ** Coverages and receipts *)

Definition coverage_payload (cid : pystr) (cs ce : Z) (scope_hash fp : pystr) (counts : Doc) (producer : pystr) (verified : Z) : pystr :=
  Migration.json_object
    [(lit "coverage_id", Migration.json_text cid); (lit "covered_start", Migration.json_text (format_utc cs));
     (lit "covered_end", Migration.json_text (format_utc ce)); (lit "scope_hash", Migration.json_text scope_hash);
     (lit "source_fingerprint", Migration.json_text fp); (lit "table_counts", _json counts);
     (lit "producer", Migration.json_text producer); (lit "verified_at", Migration.json_text (format_utc verified))].
Definition _receipt_hash (r : BackfillReceipt) : pystr :=
  sha256_text (Migration.json_object
    [(lit "receipt_id", Migration.json_text (r_id r)); (lit "covered_start", Migration.json_text (format_utc (covered_start r)));
     (lit "covered_end", Migration.json_text (format_utc (covered_end r))); (lit "scope_hash", Migration.json_text (_scope_hash (r_scope r)));
     (lit "actual_reconciliation_id", Migration.json_text (actual_reconciliation_id r));
     (lit "authoritative_coverage_id", Migration.json_text (authoritative_coverage_id r));
     (lit "missing_intervals", str_int (missing_intervals r)); (lit "missing_rows", str_int (missing_rows r));
     (lit "verified_at", Migration.json_text (format_utc (verified_at r)))]).

(** A coverage that is there only becomes VERIFIED. *)
Definition record_trusted_coverage (db : Db) (cid : pystr) (cs ce : Z) (scope : GapScope) (fp : pystr) (counts : Doc) (producer : pystr)
    (verified : Z) : Db :=
  let k := kind db in
  let row := mkCoverageRow (time_cell k cs) (time_cell k ce) (_scope_hash scope) (doc_cell k (scope_doc scope)) fp (doc_cell k counts)
               (sha256_text (coverage_payload cid cs ce (_scope_hash scope) fp counts producer verified)) producer (time_cell k verified) true in
  let row := match coverages db !! cid with
             | Some old => mkCoverageRow (c_start old) (c_end old) (c_scope_hash old) (c_scope_json old) (c_fingerprint old) (c_counts old)
                             (c_evidence old) (c_producer old) (c_verified old) true
             | None => row
             end in
  set_coverages db (<[cid := row]> (coverages db)).

(** The fingerprint of a completed run; in PostgreSQL also the digest of the tables now. *)
Definition _completed_migration (db : Db) (run_id : pystr) : R (pystr * option Migration.StorageDigest) :=
  match Migration.t_runs (target db) !! run_id with
  | Some (fp, Migration.COMPLETED) =>
      match kind db with
      | Sqlite => Ok (fp, None)
      | Postgres =>
          match Migration.canonical_postgres_digest decimal float_repr postgres_order (target db) with
          | Err _ => Err (PyError "MigrationPreflightError")
          | Ok d =>
              let! _ := require (bool_decide (Migration.fingerprint d = fp)) "migration target fingerprint no longer matches completed run" in
              Ok (fp, Some d)
          end
      end
  | _ => Err (Incomplete "completed migration record is missing")
  end.

Record Coverage := mkCoverage { cv_start : Z; cv_end : Z; cv_scope : GapScope; cv_fingerprint : pystr; cv_counts : Doc }.

Definition _trusted_coverage (db : Db) (cid : pystr) : R Coverage :=
  match coverages db !! cid with
  | Some row =>
      if c_ok row then
        let! scope := _scope_from_stored (c_scope_json row) None in
        let! counts := _json_load (c_counts row) in
        let! cs := _coerce_utc (c_start row) in
        let! ce := _coerce_utc (c_end row) in
        let! v := _coerce_utc (c_verified row) in
        let! _ := require (bool_decide (c_scope_hash row = _scope_hash scope) &&
                    bool_decide (c_evidence row = sha256_text (coverage_payload cid cs ce (c_scope_hash row) (c_fingerprint row) counts (c_producer row) v)))
                    "trusted coverage evidence hash mismatch" in
        Ok (mkCoverage cs ce scope (c_fingerprint row) counts)
      else Err (Incomplete "trusted authoritative coverage is missing")
  | None => Err (Incomplete "trusted authoritative coverage is missing")
  end.

(** The loop over the scope's tables; a null count has the text [null]. *)
Fixpoint counts_match (counts : Doc) (d : Migration.StorageDigest) (names : list pystr) : R unit :=
  match names with
  | [] => Ok tt
  | n :: names =>
      match counts !! n with
      | None => Err (Incomplete "coverage table counts do not match migration target")
      | Some v =>
          if bool_decide (v_text v = lit "null") then Err (Incomplete "coverage table counts do not match migration target") else
          let! z := raising "ValueError" (v_int v) in
          let! row_count := raising "KeyError"
            (Migration.row_count <$> List.find (fun t => bool_decide (Migration.td_name t = n)) (rev (Migration.digest_tables d))) in
          let! _ := require (z =? row_count) "coverage table counts do not match migration target" in
          counts_match counts d names
      end
  end.

Definition _validate_authorities (db : Db) (g : GapRecord) (run_id cid : pystr) : R unit :=
  let! m := _completed_migration db run_id in
  let! c := _trusted_coverage db cid in
  let! _ := require (bool_decide (m.1 = cv_fingerprint c)) "coverage is not bound to migration fingerprint" in
  match ended_at g with
  | None => Err (PyError "TypeError")
  | Some ended =>
      let! _ := require (negb ((started_at g <? cv_start c) || (cv_end c <? ended))) "coverage does not cover the closed interval" in
      let! _ := require (bool_decide (cv_scope c = required_scope g)) "coverage scope does not match required scope" in
      match m.2 with Some d => counts_match (cv_counts c) d (tables (cv_scope c)) | None => Ok tt end
  end.

Definition record_trusted_receipt (db : Db) (gap_id receipt_id run_id cid : pystr) (verified : Z) : R (Db * BackfillReceipt) :=
  let! g := get_record [] db gap_id in
  match g with
  | Some g =>
      match ended_at g with
      | None => Err (Incomplete "gap must exist with a closed interval")
      | Some ended =>
          let! _ := _validate_authorities db g run_id cid in
          let! v := raising "ValueError" (parse_utc (format_utc verified)) in
          let r := mkReceipt receipt_id (started_at g) ended (required_scope g) (lit "stored_reconciliation") run_id cid 0 0 v in
          let k := kind db in
          match receipts db !! receipt_id with
          | Some _ => Err (PyError "IntegrityError")
          | None =>
              let row := mkReceiptRow gap_id (time_cell k (started_at g)) (time_cell k ended) (_scope_hash (required_scope g))
                           (doc_cell k (scope_doc (required_scope g))) run_id cid 0 0 (_receipt_hash r) (time_cell k v) true in
              Ok (set_receipts db (<[receipt_id := row]> (receipts db)), r)
          end
      end
  | None => Err (Incomplete "gap must exist with a closed interval")
  end.

(** ** The store of trusted receipts *)

Definition _receipt_from_row (rid : pystr) (row : ReceiptRow) : R (option BackfillReceipt) :=
  let! scope := _scope_from_stored (rr_scope_json row) None in
  let! cs := _coerce_utc (rr_start row) in
  let! ce := _coerce_utc (rr_end row) in
  let! v := _coerce_utc (rr_verified row) in
  let r := mkReceipt rid cs ce scope (lit "stored_reconciliation") (rr_reconciliation row) (rr_coverage row) (rr_intervals row) (rr_rows row) v in
  Ok (if bool_decide (rr_scope_hash row = _scope_hash scope) && bool_decide (rr_evidence row = _receipt_hash r) then Some r else None).

Definition _gap_for_validation (db : Db) (gid : pystr) : R GapRecord :=
  match gaps db !! gid with
  | None => Err (Incomplete "receipt gap is missing or open")
  | Some row =>
      match g_ended row with
      | TNull | TText [] | TInt 0 => Err (Incomplete "receipt gap is missing or open")
      | c =>
          let! started := _coerce_utc (g_started row) in
          let! ended := _coerce_utc c in
          let! st := state_of (g_state row) in
          let! scope := _scope_from_stored (g_scope_json row) None in
          let! recovered := coerce_opt (g_recovered row) in
          Ok (mkGap gid started (Some ended) st scope (Given (lit "stored data gap requires verified backfill")) (g_receipt row) recovered None)
      end
  end.

Definition _trusted_receipt_from_row (db : Db) (rid : pystr) (row : ReceiptRow) : R BackfillReceipt :=
  let! r := _receipt_from_row rid row in
  match r with
  | None => Err (Incomplete "stored recovery receipt hash mismatch")
  | Some r =>
      let! g := _gap_for_validation db (rr_gap row) in
      let! _ := _validate_authorities db g (actual_reconciliation_id r) (authoritative_coverage_id r) in
      let! _ := require (bool_decide (covered_start r = started_at g) && bool_decide (Some (covered_end r) = ended_at g)) "receipt interval does not match gap interval" in
      let! _ := require (bool_decide (r_scope r = required_scope g)) "receipt scope does not match gap scope" in
      Ok r
  end.

(** A [GapTransitionError] means that there is no trusted receipt. *)
Definition get_verified (db : Db) (rid : pystr) : R (option BackfillReceipt) :=
  match receipts db !! rid with
  | None => Ok None
  | Some row =>
      if rr_ok row then
        match _trusted_receipt_from_row db rid row with
        | Ok r => Ok (Some r)
        | Err (Transition _) | Err (Incomplete _) => Ok None
        | Err (PyError n) => Err (PyError n)
        end
      else Ok None
  end.

(** ** The command line ([cmd_gap]) *)

Inductive Command :=
| Status (gid : option pystr) (now : Z)
| CloseGap (gid : pystr) (ended_at : pystr)
| VerifyRecovery (gid : pystr) (hand_authored : bool) (receipt_id : pystr).

Definition transition_failed (db : Db) (e : Exc) : Db * R Z :=
  match e with Transition _ | Incomplete _ => (db, Ok 2) | PyError n => (db, Err (PyError n)) end.

(** The database afterwards and the exit code, or the exception that ends the command. *)
Definition cmd_gap (seeds : list GapRecord) (db : Db) (cmd : Command) : Db * R Z :=
  match open_storage db seeds with
  | (db, Err e) => (db, Err e)
  | (db, Ok _) =>
      match cmd with
      | Status None now =>
          (db, let! gs := list_records seeds db in Ok (if open_count (summarize gs now) =? 0 then 0 else 1))
      | Status (Some gid) now =>
          (db, let! g := get_record seeds db gid in
               Ok (match g with None => 2 | Some g => if open_count (summarize [g] now) =? 0 then 0 else 1 end))
      | CloseGap gid t =>
          match get_record seeds db gid with
          | Err e => (db, Err e)
          | Ok None => (db, Ok 2)
          | Ok (Some g) =>
              match raising "ValueError" (parse_utc t) with
              | Err e => (db, Err e)
              | Ok us =>
                  match close_gap g (Aware us) with
                  | Err e => transition_failed db (Transition e)
                  | Ok g => match save_record db g with Ok db => (db, Ok 1) | Err e => (db, Err e) end
                  end
              end
          end
      | VerifyRecovery gid hand_authored rid =>
          match get_record seeds db gid with
          | Err e => (db, Err e)
          | Ok None => (db, Ok 2)
          | Ok (Some g) =>
              if hand_authored then transition_failed db (Incomplete "hand-authored recovery receipt JSON is not trusted")
              else if bool_decide (rid = []) then transition_failed db (Incomplete "stored receipt id is required")
              else
                match get_verified db rid with
                | Err e => transition_failed db e
                | Ok store =>
                    match mark_recovered_from_store g rid (fun _ => store) with
                    | Err e => transition_failed db (Transition e)
                    | Ok g => match save_record db g with Ok db => (db, Ok 0) | Err e => (db, Err e) end
                    end
                end
          end
      end
  end.

(** ** What may happen to the database *)

(** A command, the producers of evidence, and any change of the other tables. *)
Inductive Event :=
| Run (cmd : Command)
| Coverage_ (cid : pystr) (cs ce : Z) (scope : GapScope) (fp : pystr) (counts : Doc) (producer : pystr) (verified : Z)
| Receipt_ (gap_id receipt_id run_id cid : pystr) (verified : Z)
| Elsewhere (cs : gmap pystr CoverageRow) (rs : gmap pystr ReceiptRow) (t : Migration.Target).

Definition step (seeds : list GapRecord) (db : Db) (ev : Event) : Db :=
  match ev with
  | Run cmd => (cmd_gap seeds db cmd).1
  | Coverage_ cid cs ce scope fp counts producer v => record_trusted_coverage db cid cs ce scope fp counts producer v
  | Receipt_ gid rid run cid v => match record_trusted_receipt db gid rid run cid v with Ok r => r.1 | Err _ => db end
  | Elsewhere cs rs t => mkDb (kind db) (gaps db) cs rs t
  end.
Definition run (seeds : list GapRecord) (evs : list Event) (db : Db) : Db := foldl (step seeds) db evs.
End store.

(** ** Evidence in the database *)

Lemma raising_Ok {A} name (o : option A) a : raising name o = Ok a -> o = Some a.
Proof. destruct o; cbn; congruence. Qed.
Lemma require_Ok b d u : require b d = Ok u -> b = true.
Proof. by destruct b. Qed.

Section evidence.
Context (upper : pystr -> pystr) (format_utc : Z -> pystr) (parse_utc : pystr -> option Z) (loads : pystr -> option Doc)
  (decimal : Z -> option Z) (float_repr : float -> pystr)
  (postgres_order : Catalog.TableCatalog -> list pystr -> list Migration.PgRow -> list Migration.PgRow)
  (by_started : list (pystr * GapRow) -> list (pystr * GapRow)).
#[local] Set Default Proof Using "Type".
Abbreviation coverage_of := (_trusted_coverage upper format_utc parse_utc loads) (only parsing).
Abbreviation receipt_of := (_receipt_from_row upper format_utc parse_utc loads) (only parsing).
Abbreviation verified := (get_verified upper format_utc parse_utc loads decimal float_repr postgres_order) (only parsing).
Abbreviation digest_now := (Migration.canonical_postgres_digest decimal float_repr postgres_order) (only parsing).

(** The rows a recovery of [g] by the receipt [rid] rests on. *)
Record backed (db : Db) (g : GapRecord) (rid : pystr) : Prop := mkBacked
  { bk_receipt : exists row r ended cov,
      receipts db !! rid = Some row /\ rr_ok row = true /\ receipt_of rid row = Ok (Some r) /\
      rr_evidence row = _receipt_hash format_utc r /\ ended_at g = Some ended /\ evidence g ended r /\
      (** the coverage: its row, its hash, its interval and its scope *)
      (exists crow, coverages db !! rr_coverage row = Some crow /\ c_ok crow = true /\
        c_evidence crow = sha256_text (coverage_payload format_utc (rr_coverage row) (cv_start cov) (cv_end cov) (c_scope_hash crow)
          (cv_fingerprint cov) (cv_counts cov) (c_producer crow) (default 0 match _coerce_utc parse_utc (c_verified crow) with Ok v => Some v | Err _ => None end))) /\
      cv_start cov <= started_at g /\ ended <= cv_end cov /\ cv_scope cov = required_scope g /\
      (** the run, and the tables as they are now *)
      Migration.t_runs (target db) !! rr_reconciliation row = Some (cv_fingerprint cov, Migration.COMPLETED) /\
      (kind db = Postgres -> exists d, digest_now (target db) = Ok d /\ Migration.fingerprint d = cv_fingerprint cov /\
        forall t, t ∈ tables (required_scope g) -> exists v z, cv_counts cov !! t = Some v /\ v_int v = Some z /\
          exists td, td ∈ Migration.digest_tables d /\ Migration.td_name td = t /\ Migration.row_count td = z) }.

Lemma counts_match_at counts d names u t : counts_match counts d names = Ok u -> t ∈ names ->
  exists v z, counts !! t = Some v /\ v_int v = Some z /\
    exists td, td ∈ Migration.digest_tables d /\ Migration.td_name td = t /\ Migration.row_count td = z.
Proof.
  induction names as [|n names IH]; intros H Ht; [by apply elem_of_nil in Ht|]. cbn in H.
  destruct (counts !! n) as [v|] eqn:Ev; [|done]. destruct (bool_decide _); [done|].
  apply rbind_Ok in H as (z & Ez%raising_Ok & (rc & Erc%raising_Ok & (? & Hz%require_Ok & H)%rbind_Ok)%rbind_Ok).
  apply elem_of_cons in Ht as [->|Ht]; [|by apply IH]. exists v, z. split_and!; [done|done|].
  apply fmap_Some in Erc as (td & Htd & ->). apply List.find_some in Htd as [Hin Hn]. exists td. apply Z.eqb_eq in Hz.
  split_and!; [|by apply bool_decide_eq_true in Hn|done]. apply list_elem_of_In. by apply in_rev in Hin.
Qed.

Lemma trusted_coverage_row db cid cov : coverage_of db cid = Ok cov ->
  exists crow, coverages db !! cid = Some crow /\ c_ok crow = true /\ c_fingerprint crow = cv_fingerprint cov /\
    c_evidence crow = sha256_text (coverage_payload format_utc cid (cv_start cov) (cv_end cov) (c_scope_hash crow)
      (cv_fingerprint cov) (cv_counts cov) (c_producer crow) (default 0 match _coerce_utc parse_utc (c_verified crow) with Ok v => Some v | Err _ => None end)).
Proof.
  unfold _trusted_coverage. destruct (coverages db !! cid) as [crow|]; [|done]. destruct (c_ok crow) eqn:Eok; [|done].
  intros (scope & _ & (counts & _ & (cs & _ & (ce & _ & (v & Ev & (? & Hb%require_Ok & [= <-])%rbind_Ok)%rbind_Ok)%rbind_Ok)%rbind_Ok)%rbind_Ok)%rbind_Ok.
  apply andb_true_iff in Hb as [_ Hb%bool_decide_eq_true]. exists crow. rewrite Ev. by split_and!.
Qed.

Lemma verified_backed db g rid r g' : verified db rid = Ok (Some r) -> mark_recovered g r = Ok g' -> backed db g rid.
Proof.
  intros H (ended & _ & He & Hev & _)%mark_recovered_ok. unfold get_verified in H.
  destruct (receipts db !! rid) as [row|] eqn:Erow; [|done]. destruct (rr_ok row) eqn:Eok; [|done].
  destruct (_trusted_receipt_from_row _ _ _ _ _ _ _ db rid row) as [r'|[]] eqn:Et; [|done..]. injection H as ->.
  unfold _trusted_receipt_from_row in Et. apply rbind_Ok in Et as ([r0|] & Er & Et); [|done].
  apply rbind_Ok in Et as (g2 & _ & (? & Hv & (? & Hint%require_Ok & (? & Hsc%require_Ok & [= ->])%rbind_Ok)%rbind_Ok)%rbind_Ok).
  apply andb_true_iff in Hint as [Hs%bool_decide_eq_true Hen%bool_decide_eq_true]. apply bool_decide_eq_true in Hsc.
  assert (actual_reconciliation_id r = rr_reconciliation row /\ authoritative_coverage_id r = rr_coverage row /\
    rr_evidence row = _receipt_hash format_utc r) as (Ea & Ec & Eh).
  { unfold _receipt_from_row in Er.
    apply rbind_Ok in Er as (sc & _ & (cs & _ & (ce & _ & (v & _ & E)%rbind_Ok)%rbind_Ok)%rbind_Ok).
    destruct (bool_decide _ && bool_decide _) eqn:Eb; [|done]. injection E as <-. apply andb_true_iff in Eb as [_ Eb%bool_decide_eq_true]. done. }
  rewrite Ea, Ec in Hv. unfold _validate_authorities in Hv.
  apply rbind_Ok in Hv as ([fp d] & Hm & (cov & Hc & (? & Hf%require_Ok & Hv)%rbind_Ok)%rbind_Ok).
  apply bool_decide_eq_true in Hf. cbn in Hf. subst fp. rewrite <-Hen in Hv.
  apply rbind_Ok in Hv as (? & Hcov%require_Ok & (? & Hsc'%require_Ok & Hd)%rbind_Ok). apply bool_decide_eq_true in Hsc'.
  apply negb_true_iff, orb_false_iff in Hcov as [H1%Z.ltb_ge H2%Z.ltb_ge].
  destruct (trusted_coverage_row _ _ _ Hc) as (crow & Hcr & Hok & _ & Hch). destruct Hev as (V1 & V2 & V3 & V4).
  split. exists row, r, ended, cov. split_and!; [done|done|done|done|done|done| | | | | |].
  - by exists crow.
  - lia.
  - lia.
  - congruence.
  - unfold _completed_migration in Hm. destruct (Migration.t_runs (target db) !! rr_reconciliation row) as [[fp []]|]; [done| |done].
    f_equal. f_equal. destruct (kind db); [by injection Hm|]. destruct (Migration.canonical_postgres_digest _ _ _ _); [|done].
    apply rbind_Ok in Hm as (? & _ & [= ? _]). done.
  - intros K. unfold _completed_migration in Hm. rewrite K in Hm.
    destruct (Migration.t_runs (target db) !! rr_reconciliation row) as [[fp []]|]; [done| |done].
    destruct (Migration.canonical_postgres_digest _ _ _ _) as [dg|]; [|done]. apply rbind_Ok in Hm as (? & Hf%require_Ok & [= -> <-]).
    apply bool_decide_eq_true in Hf. exists dg. split_and!; [done|done|]. intros t Ht. cbn in Hd. eapply counts_match_at; [exact Hd|].
    rewrite Hsc'. by rewrite <-Hsc, V3.
Qed.

(** ** Which rows change *)

Definition recovered_row (row : GapRow) : Prop := g_state row = lit "RECOVERED".
Lemma state_text_recovered s : state_text s = lit "RECOVERED" -> s = RECOVERED.
Proof. by destruct s. Qed.

Lemma save_spec db g db' : save_record format_utc db g = Ok db' ->
  exists row, db' = set_gaps db (<[id g := row]> (gaps db)) /\ g_state row = state_text (state g) /\ g_receipt row = backfill_receipt_id g.
Proof.
  unfold save_record. destruct (row_allowed _ _); [|done]. intros [= <-]. eexists. split; [done|]. by destruct (gaps db !! id g).
Qed.

Definition new_only (seeds : list GapRecord) (db db' : Db) : Prop :=
  (exists g, db' = set_gaps db g) /\
  forall gid row, gaps db' !! gid = Some row -> gaps db !! gid = Some row \/ exists s, s ∈ seeds /\ g_state row = state_text (state s).

Lemma seed_spec seeds : forall db, new_only seeds db (_seed format_utc db seeds).1.
Proof.
  induction seeds as [|s seeds IH]; intros db; cbn.
  - split; [exists (gaps db); by destruct db|]. intros gid row H. by left.
  - unfold _insert_seed. destruct (row_allowed _ _); cbn.
    + set (db1 := match gaps db !! id s with Some _ => db | None => _ end).
      assert (new_only [s] db db1) as [[g1 E1] H1].
      { unfold db1. destruct (gaps db !! id s); [split; [exists (gaps db); by destruct db|intros gid row H; by left]|].
        split; [by eexists|]. intros gid row H. cbn in H. apply lookup_insert_Some in H as [[_ <-]|[_ H]]; [|by left].
        right. exists s. split; [apply list_elem_of_here|done]. }
      destruct (IH db1) as [[g2 E2] H2]. split; [exists g2; by rewrite E2, E1|].
      intros gid row H. destruct (H2 gid row H) as [H'|(x & Hx & Ex)]; [|right; exists x; split; [by apply list_elem_of_further|done]].
      destruct (H1 gid row H') as [?|(x & ->%list_elem_of_singleton & Ex)]; [by left|right]. exists s. split; [apply list_elem_of_here|done].
    + split; [exists (gaps db); by destruct db|]. intros gid row H. by left.
Qed.

Lemma save_in_elem x g l : x ∈ save_in g l -> x = g \/ x ∈ l.
Proof.
  induction l as [|y l IH]; cbn; [intros [->|H]%elem_of_cons; [by left|by apply elem_of_nil in H]|].
  destruct (bool_decide _); intros [->|H]%elem_of_cons; [by left|right; by apply list_elem_of_further|right; apply list_elem_of_here|].
  destruct (IH H) as [->|?]; [by left|right; by apply list_elem_of_further].
Qed.
Lemma memory_elem x l : x ∈ memory_repository l -> x ∈ l.
Proof.
  unfold memory_repository. assert (forall l r, x ∈ foldl (fun l g => save_in g l) r l -> x ∈ r \/ x ∈ l) as H.
  { clear l. induction l as [|g l IH]; intros r; cbn; [by left|]. intros [[->|H]%save_in_elem|H]%IH; [right; apply list_elem_of_here|by left|].
    right. by apply list_elem_of_further. }
  intros [Hn|?]%H; [by apply elem_of_nil in Hn|done].
Qed.

Lemma open_spec db seeds : new_only seeds db (open_storage format_utc db seeds).1.
Proof.
  destruct (seed_spec (memory_repository seeds) db) as [H1 H2]. split; [done|]. intros gid row H.
  destruct (H2 gid row H) as [?|(s & Hs & E)]; [by left|right]. exists s. split; [by apply memory_elem|done].
Qed.

Abbreviation got := (get_record upper parse_utc loads) (only parsing).
Abbreviation command := (cmd_gap upper format_utc parse_utc loads decimal float_repr postgres_order by_started) (only parsing).
Abbreviation after := (run upper format_utc parse_utc loads decimal float_repr postgres_order by_started) (only parsing).

Lemma got_id seeds db gid g : got seeds db gid = Ok (Some g) -> id g = gid.
Proof.
  unfold get_record. destruct (gaps db !! gid) as [row|]; [|done]. destruct (_from_row upper parse_utc loads seeds db gid row) as [g'|] eqn:E; [|done].
  intros [= ->]. unfold _from_row in E. repeat (apply rbind_Ok in E as (? & _ & E)). by injection E as <-.
Qed.

(** Where a recovered row comes from. *)
Definition origin (seeds : list GapRecord) (db : Db) (ev : Event) (gid : pystr) (row : GapRow) : Prop :=
  exists rid g, ev = Run (VerifyRecovery gid false rid) /\ g_receipt row = Some rid /\
    let db1 := (open_storage format_utc db seeds).1 in got seeds db1 gid = Ok (Some g) /\ backed db1 g rid.

Lemma command_origin seeds db cmd gid row : (forall s, s ∈ seeds -> state s <> RECOVERED) ->
  gaps (command seeds db cmd).1 !! gid = Some row -> recovered_row row ->
  gaps db !! gid = Some row \/ origin seeds db (Run cmd) gid row.
Proof.
  intros Hs. destruct (open_spec db seeds) as [_ Hopen].
  assert (forall gid row, gaps (open_storage format_utc db seeds).1 !! gid = Some row -> recovered_row row -> gaps db !! gid = Some row) as Old.
  { intros i r H Hr. destruct (Hopen i r H) as [?|(s & Hin & E)]; [done|]. exfalso. apply (Hs s Hin), state_text_recovered. by rewrite <-E. }
  clear Hopen. unfold cmd_gap. destruct (open_storage format_utc db seeds) as [db1 [u|e]] eqn:Eo; cbn [fst] in Old; [|cbn; intros; left; by eapply Old].
  assert (forall e, (transition_failed db1 e).1 = db1) as Tf by (by intros []).
  destruct cmd as [[i|] now|i t|i hand rid].
  - cbn. intros H Hr. left. by eapply Old.
  - cbn. intros H Hr. left. by eapply Old.
  - destruct (got seeds db1 i) as [[g|]|e] eqn:Eg; [|intros H Hr; left; by eapply Old..].
    destruct (raising _ _); [|intros H Hr; left; by eapply Old]. destruct (close_gap g _) as [g'|e] eqn:Ec;
      [|rewrite Tf; intros H Hr; left; by eapply Old].
    destruct (save_record _ db1 g') as [db2|] eqn:Es; [|intros H Hr; left; by eapply Old].
    apply save_spec in Es as (r & -> & Er & _). cbn. intros [[_ <-]|[_ H]]%lookup_insert_Some Hr; [|left; by eapply Old].
    exfalso. unfold recovered_row in Hr. rewrite Er in Hr. apply state_text_recovered in Hr.
    unfold close_gap in Ec. destruct (state g); try done. cbn in Ec. by injection Ec as <-.
  - destruct (got seeds db1 i) as [[g|]|e] eqn:Eg; [|intros H Hr; left; by eapply Old..].
    destruct hand; [rewrite Tf; intros H Hr; left; by eapply Old|].
    case_bool_decide; [rewrite Tf; intros H' Hr; left; by eapply Old|].
    destruct (verified db1 rid) as [store|e] eqn:Ev; [|rewrite Tf; intros H' Hr; left; by eapply Old].
    destruct (mark_recovered_from_store g rid _) as [g'|e] eqn:Em; [|rewrite Tf; intros H' Hr; left; by eapply Old].
    destruct (save_record _ db1 g') as [db2|] eqn:Es; [|intros H' Hr; left; by eapply Old].
    apply save_spec in Es as (r & -> & Er & Erc). unfold mark_recovered_from_store in Em. destruct store as [rc|]; [|done].
    assert (id g' = i) as Ei.
    { apply mark_recovered_ok in Em as (? & _ & _ & _ & ->). cbn. by eapply got_id. }
    cbn. rewrite Ei. intros [[<- <-]|[_ H']]%lookup_insert_Some Hr; [right|left; by eapply Old].
    exists rid, g. split; [done|]. rewrite Eo. cbn. split; [|split; [done|by eapply verified_backed]].
    rewrite Erc. pose proof Em as (? & _ & _ & _ & ->)%mark_recovered_ok. cbn. f_equal.
    clear -Ev. unfold get_verified in Ev. destruct (receipts db1 !! rid); [|done]. destruct (rr_ok _); [|done].
    destruct (_trusted_receipt_from_row _ _ _ _ _ _ _ _ _ _) as [r'|[]] eqn:E; [|done..]. injection Ev as ->.
    unfold _trusted_receipt_from_row in E. apply rbind_Ok in E as ([r'|] & E1 & E); [|done].
    apply rbind_Ok in E as (? & _ & (? & _ & (? & _ & (? & _ & [= ->])%rbind_Ok)%rbind_Ok)%rbind_Ok).
    unfold _receipt_from_row in E1. repeat (apply rbind_Ok in E1 as (? & _ & E1)).
    destruct (bool_decide _ && bool_decide _); [|done]. by injection E1 as <-.
Qed.

(** C26: Whatever commands are given, whatever evidence is recorded and however the other
    tables change in between, a gap of the database is RECOVERED only because a
    [verify-recovery] command found its evidence in the database at that moment: an intact
    verified receipt for the whole closed interval and exactly the gap's scope, a completed
    migration, and an intact authoritative coverage with the migration's fingerprint, the
    interval and the scope; in PostgreSQL the application tables then still had that
    fingerprint and the row counts the coverage states. *)
Theorem recovered_only_backed seeds evs db0 gid row :
  (forall s, s ∈ seeds -> state s <> RECOVERED) -> (forall i r, gaps db0 !! i = Some r -> ~ recovered_row r) ->
  gaps (after seeds evs db0) !! gid = Some row -> recovered_row row ->
  exists before ev later, evs = before ++ ev :: later /\ origin seeds (after seeds before db0) ev gid row.
Proof.
  intros Hs H0. revert row. induction evs as [|ev evs IH] using rev_ind; intros row H Hr; [by destruct (H0 _ _ H)|].
  unfold run in H. rewrite foldl_app in H. cbn [foldl] in H. fold (after seeds evs db0) in H.
  assert (gaps (after seeds evs db0) !! gid = Some row \/ origin seeds (after seeds evs db0) ev gid row) as [Hold|Ho].
  { destruct ev as [cmd|cid cs ce sc fp counts pr v|g r rn c v|cs rs t]; cbn in H.
    - by apply command_origin.
    - by left.
    - left. destruct (record_trusted_receipt _ _ _ _ _ _ _ _ g r rn c v) as [[db' x]|] eqn:E; [|done]. cbn in H.
      unfold record_trusted_receipt in E. apply rbind_Ok in E as ([q|] & _ & E); [|done]. destruct (ended_at q); [|done].
      apply rbind_Ok in E as (? & _ & (? & _ & E)%rbind_Ok). destruct (receipts _ !! r); [done|]. by injection E as <- <-.
    - by left. }
  - destruct (IH row Hold Hr) as (b & e & l & -> & Ho). exists b, e, (l ++ [ev]). by rewrite <-app_assoc.
  - by exists evs, ev, [].
Qed.

(** ** Evidence that was recorded is found again *)

(** What [str.upper], [isoformat] with [fromisoformat], and [json.dumps] with [json.loads]
    are documented to do. *)
Record laws (sc : GapScope) : Prop := mkLaws
  { upper_twice : forall x, upper (upper x) = upper x;
    parse_format : forall us, parse_utc (format_utc us) = Some us;
    loads_scope : loads (_json (scope_doc sc)) = Some (scope_doc sc) }.

Lemma scope_doc_texts sc : texts_at "venues" (scope_doc sc) = Ok (venues sc) /\ texts_at "symbols" (scope_doc sc) = Ok (symbols sc) /\
  texts_at "tables" (scope_doc sc) = Ok (tables sc).
Proof. done. Qed.

Lemma scope_doc_back sc : upper <$> venues sc = venues sc -> _scope_from_dict upper (scope_doc sc) = Ok sc.
Proof.
  intros U. destruct (scope_doc_texts sc) as (E1 & E2 & E3). unfold _scope_from_dict. rewrite E1, E2, E3. cbn [rbind].
  rewrite U. by destruct sc.
Qed.

Lemma scope_stored_back k sc seed : laws sc -> upper <$> venues sc = venues sc ->
  _scope_from_stored upper loads (doc_cell k (scope_doc sc)) seed = Ok sc.
Proof.
  intros L U. unfold _scope_from_stored. destruct k; cbn [doc_cell].
  - destruct (_json (scope_doc sc)) eqn:E; [by unfold _json, Migration.json_object in E|]. rewrite <-E, (loads_scope sc L). cbn [raising rbind]. by apply scope_doc_back.
  - rewrite bool_decide_false; [by apply scope_doc_back|]. intros E%(f_equal (fun d => d !! lit "venues")). done.
Qed.

Lemma scope_stored_upper c sc sc' : laws sc' -> _scope_from_stored upper loads c None = Ok sc -> upper <$> venues sc = venues sc.
Proof.
  intros L. assert (forall d, _scope_from_dict upper d = Ok sc -> upper <$> venues sc = venues sc) as H.
  { intros d (vs & _ & (ss & _ & (ts & _ & [= <-])%rbind_Ok)%rbind_Ok)%rbind_Ok. cbn. rewrite <-list_fmap_compose.
    apply list_fmap_ext. intros ? x _. apply (upper_twice sc' L). }
  destruct c as [|[|x t]|d]; cbn; [by intros [= <-]..| |].
  - intros (d & _ & E)%rbind_Ok. by eapply H.
  - destruct (bool_decide _); [by intros [= <-]|apply H].
Qed.

Lemma time_back k us sc : laws sc -> _coerce_utc parse_utc (time_cell format_utc k us) = Ok us.
Proof. intros L. destruct k; cbn; [by rewrite (parse_format sc L)|done]. Qed.

Lemma got_validation db gid g : got [] db gid = Ok (Some g) -> ended_at g <> None ->
  exists g2, _gap_for_validation upper parse_utc loads db gid = Ok g2 /\ started_at g2 = started_at g /\ ended_at g2 = ended_at g /\
    required_scope g2 = required_scope g /\ _scope_from_stored upper loads (g_scope_json (default (mkGapRow [] TNull TNull TNull [] DNull None) (gaps db !! gid))) None = Ok (required_scope g).
Proof.
  unfold get_record, _gap_for_validation. destruct (gaps db !! gid) as [row|]; [|done]. cbn [default].
  destruct (_from_row _ _ _ [] db gid row) as [g'|] eqn:E; [|done]. intros [= ->] Hne.
  unfold _from_row in E. apply rbind_Ok in E as (sc & Esc & (? & _ & (st & Est & (en & Een & (s & Es & (rc & Erc & [= <-])%rbind_Ok)%rbind_Ok)%rbind_Ok)%rbind_Ok)%rbind_Ok).
  cbn in *. rewrite Est, Es, Erc. change (_scope_from_stored upper loads (g_scope_json row) None = Ok sc) in Esc. rewrite Esc. cbn.
  destruct (g_ended row) as [|[|ch tl]|us|us|us]; cbn in Een |- *; try (by injection Een as <-).
  - destruct (raising _ _) as [us|]; [|done]. injection Een as <-. by eexists.
  - injection Een as <-. by eexists.
  - done.
  - destruct us as [|us|us]; [by injection Een as <-| |]; cbn in Een |- *; destruct (_ && _); try done; injection Een as <-; by eexists.
Qed.

Lemma recorded_verified db gid rid rn cid v db' r : laws (r_scope r) ->
  record_trusted_receipt upper format_utc parse_utc loads decimal float_repr postgres_order db gid rid rn cid v = Ok (db', r) ->
  verified db' rid = Ok (Some r) /\ (exists rs, db' = set_receipts db rs) /\ r_id r = rid /\
    exists g, got [] db gid = Ok (Some g) /\ ended_at g = Some (covered_end r) /\ r = mkReceipt rid (started_at g) (covered_end r) (required_scope g)
      (lit "stored_reconciliation") rn cid 0 0 v.
Proof.
  intros L E. unfold record_trusted_receipt in E. apply rbind_Ok in E as ([g|] & Eg & E); [|done].
  destruct (ended_at g) as [ended|] eqn:Een; [|done]. apply rbind_Ok in E as (u & Hv & (v' & Ev%raising_Ok & E)%rbind_Ok).
  rewrite (parse_format _ L) in Ev. injection Ev as <-. destruct (receipts db !! rid); [done|]. injection E as <- <-.
  set (r := mkReceipt _ _ _ _ _ _ _ _ _ _). split_and!; [|by eexists|done|by exists g].
  destruct (got_validation db gid g Eg) as (g2 & Hg2 & E1 & E2 & E3 & Esc); [by rewrite Een|].
  pose proof (scope_stored_upper _ _ _ L Esc) as U. unfold get_verified. cbn [receipts set_receipts]. rewrite lookup_insert_eq. cbn [rr_ok].
  unfold _trusted_receipt_from_row, _receipt_from_row. cbn [rr_scope_json rr_start rr_end rr_verified rr_scope_hash rr_evidence rr_gap rr_intervals rr_rows rr_reconciliation rr_coverage].
  rewrite (scope_stored_back _ _ _ L U). rewrite !(time_back _ _ _ L). cbn [rbind]. rewrite !bool_decide_true by done. cbn [andb].
  change (_gap_for_validation upper parse_utc loads (set_receipts db ?x) gid) with (_gap_for_validation upper parse_utc loads db gid).
  rewrite Hg2. cbn [rbind].
  assert (_validate_authorities upper format_utc parse_utc loads decimal float_repr postgres_order db g2 rn cid = Ok u) as Hv2.
  { rewrite <-Hv. unfold _validate_authorities. by rewrite E1, E2, E3. }
  change (_validate_authorities upper format_utc parse_utc loads decimal float_repr postgres_order (set_receipts db ?x))
    with (_validate_authorities upper format_utc parse_utc loads decimal float_repr postgres_order db).
  cbn [actual_reconciliation_id authoritative_coverage_id r]. rewrite Hv2. cbn [rbind]. rewrite E1, E2, E3, Een. cbn [covered_start covered_end r_scope r].
  rewrite !bool_decide_true by done. done.
Qed.

Definition recovered_by (g : GapRecord) (r : BackfillReceipt) : GapRecord :=
  mkGap (id g) (started_at g) (Some (covered_end r)) RECOVERED (required_scope g) ByReconciliation (Some (r_id r)) (Some (verified_at r))
    (Some (actual_reconciliation_id r)).
Lemma saved_recovered db g r : exists row, save_record format_utc db (recovered_by g r) = Ok (set_gaps db (<[id g := row]> (gaps db))) /\
  recovered_row row /\ g_receipt row = Some (r_id r).
Proof.
  unfold save_record. cbn [id recovered_by]. destruct (gaps db !! id g) as [old|]; destruct (kind db); eexists; (split; [reflexivity|done]).
Qed.

(** Evidence that is recorded is enough: after a receipt was recorded for a closed gap
    with a fully named scope (which needs a completed migration and a coverage that fit),
    the [verify-recovery] command finds it, ends with exit code 0 and leaves the gap's row
    RECOVERED with this receipt. *)
Theorem recorded_evidence_recovers db gid rid rn cid v db' r seeds g : laws (r_scope r) ->
  record_trusted_receipt upper format_utc parse_utc loads decimal float_repr postgres_order db gid rid rn cid v = Ok (db', r) ->
  rid <> [] -> rn <> [] -> cid <> [] -> scope_resolved (r_scope r) = true ->
  open_storage format_utc db' seeds = (db', Ok tt) -> got seeds db' gid = Ok (Some g) -> state g <> OPEN ->
  required_scope g = r_scope r -> started_at g = covered_start r -> ended_at g = Some (covered_end r) ->
  exists db'' row, command seeds db' (VerifyRecovery gid false rid) = (db'', Ok 0) /\
    gaps db'' !! gid = Some row /\ recovered_row row /\ g_receipt row = Some rid.
Proof.
  intros L E Hr Hn Hc Hsc Ho Hg Hst Es E1 E2. destruct (recorded_verified _ _ _ _ _ _ _ _ L E) as (Hv & _ & Eid & g0 & _ & _ & Er).
  assert (mark_recovered g r = Ok (recovered_by g r)) as Hm.
  { apply mark_recovered_ok. exists (covered_end r). split; [done|]. split; [done|]. split; [|done].
    unfold evidence. rewrite Es, E1, Hsc. rewrite Er. cbn. split_and!; try done; lia. }
  unfold cmd_gap. rewrite Ho, Hg. rewrite bool_decide_false by done. rewrite Hv. unfold mark_recovered_from_store. rewrite Hm.
  destruct (saved_recovered db' g r) as (row & Hs & Hr1 & Hr2). rewrite Hs. exists (set_gaps db' (<[id g := row]> (gaps db'))), row.
  split; [done|]. cbn [gaps set_gaps]. rewrite (got_id _ _ _ _ Hg), lookup_insert_eq. by rewrite Hr2, Eid.
Qed.
End evidence.

(** ** A gap and its recovery *)

Definition demo_upper (s : pystr) : pystr := s.
Definition demo_format (us : Z) : pystr := str_int us.
Definition demo_parse (s : pystr) : option Z := match read_int s with Some (z, []) => Some z | _ => None end.
(** Reads the two documents the example stores. *)
Definition demo_counts : Doc := {[lit "trades" := of_int 0]}.
Definition demo_loads (s : pystr) : option Doc :=
  if bool_decide (s = _json (scope_doc demo_scope)) then Some (scope_doc demo_scope)
  else if bool_decide (s = _json demo_counts) then Some demo_counts else None.
Definition demo_decimal (c : Z) : option Z := None.
Definition demo_repr (f : float) : pystr := lit "1.0".
Definition pg_in_order (t : Catalog.TableCatalog) (cols : list pystr) (rows : list Migration.PgRow) : list Migration.PgRow := rows.
Definition as_listed (l : list (pystr * GapRow)) : list (pystr * GapRow) := l.

(** Empty application tables, with their fingerprint. *)
Definition fingerprint_of (r : result Migration.MigError Migration.StorageDigest) : pystr :=
  match r with Ok d => Migration.fingerprint d | Err _ => [] end.
Definition demo_fp : pystr := fingerprint_of (Migration.canonical_postgres_digest demo_decimal demo_repr pg_in_order (Migration.empty_target true)).
Definition demo_row : GapRow :=
  mkGapRow (lit "ENDED_UNRECOVERED") (TTime 10) (TTime 20) TNull (_scope_hash demo_scope) (DDict (scope_doc demo_scope)) None.
Definition demo_db : Db :=
  mkDb Postgres {[lit "g" := demo_row]} ∅ ∅ (Migration.mkTarget true ∅ {[lit "run" := (demo_fp, Migration.COMPLETED)]} ∅).
Definition demo_evidence : list Event :=
  [Coverage_ (lit "cov") 5 30 demo_scope demo_fp demo_counts (lit "ops") 40; Receipt_ (lit "g") (lit "r") (lit "run") (lit "cov") 50].
Definition demo_run (evs : list Event) : Db :=
  run demo_upper demo_format demo_parse demo_loads demo_decimal demo_repr pg_in_order as_listed [] evs demo_db.
Definition demo_events : list Event := demo_evidence ++ [Run (VerifyRecovery (lit "g") false (lit "r"))].
Definition demo_final : GapRow := default demo_row (gaps (demo_run demo_events) !! lit "g").

Lemma demo_recovered : gaps (demo_run demo_events) !! lit "g" = Some demo_final /\ recovered_row demo_final /\ g_receipt demo_final = Some (lit "r").
Proof.
  assert (match gaps (demo_run demo_events) !! lit "g" with
          | Some row => bool_decide (g_state row = lit "RECOVERED" /\ g_receipt row = Some (lit "r")) | None => false end = true) as H
    by (vm_compute; reflexivity).
  unfold demo_final, recovered_row. destruct (gaps (demo_run demo_events) !! lit "g"); [|done]. by apply bool_decide_eq_true in H.
Qed.

Lemma recovered_only_backed_witness : exists before ev later, demo_events = before ++ ev :: later /\
  origin demo_upper demo_format demo_parse demo_loads demo_decimal demo_repr pg_in_order [] (demo_run before) ev (lit "g") demo_final.
Proof.
  apply (recovered_only_backed demo_upper demo_format demo_parse demo_loads demo_decimal demo_repr pg_in_order as_listed [] demo_events demo_db (lit "g") demo_final).
  - intros x Hx. by apply elem_of_nil in Hx.
  - intros i r H. change (({[lit "g" := demo_row]} : gmap pystr GapRow) !! i = Some r) in H. apply lookup_singleton_Some in H as [_ <-]. done.
  - exact (proj1 demo_recovered).
  - exact (proj1 (proj2 demo_recovered)).
Defined.

(** A receipt recorded after the coverage. *)
Definition demo_covered : Db := demo_run (take 1 demo_evidence).
Definition demo_recorded : R (Db * BackfillReceipt) :=
  record_trusted_receipt demo_upper demo_format demo_parse demo_loads demo_decimal demo_repr pg_in_order demo_covered (lit "g") (lit "r") (lit "run")
    (lit "cov") 50.
Definition demo_trusted : BackfillReceipt := mkReceipt (lit "r") 10 20 demo_scope (lit "stored_reconciliation") (lit "run") (lit "cov") 0 0 50.
Definition demo_closed : GapRecord :=
  mkGap (lit "g") 10 (Some 20) ENDED_UNRECOVERED demo_scope (Given (lit "stored data gap requires verified backfill")) None None None.
Lemma demo_laws : laws demo_upper demo_format demo_parse demo_loads demo_scope.
Proof.
  split; [done| |by vm_compute]. intros us. unfold demo_parse, demo_format. pose proof (read_str_int us [] I) as [H _].
  rewrite app_nil_r in H. by rewrite H.
Qed.

(** The pair a recording gives, compared by what it says. *)
Definition receipt_in (r : R (Db * BackfillReceipt)) : BackfillReceipt := match r with Ok p => p.2 | Err _ => demo_receipt end.
Definition db_in (r : R (Db * BackfillReceipt)) : Db := match r with Ok p => p.1 | Err _ => demo_db end.
Lemma demo_records : demo_recorded = Ok (db_in demo_recorded, demo_trusted).
Proof.
  assert (match demo_recorded with Ok p => bool_decide (r_id p.2 = r_id demo_trusted /\ covered_start p.2 = 10 /\ covered_end p.2 = 20 /\
    r_scope p.2 = demo_scope /\ evidence_type p.2 = evidence_type demo_trusted /\ actual_reconciliation_id p.2 = lit "run" /\
    authoritative_coverage_id p.2 = lit "cov" /\ missing_intervals p.2 = 0 /\ missing_rows p.2 = 0 /\ verified_at p.2 = 50) | Err _ => false end = true) as H
    by (vm_compute; reflexivity).
  unfold db_in. destruct demo_recorded as [[db []]|]; [|done]. apply bool_decide_eq_true in H. cbn in H.
  destruct H as (-> & -> & -> & -> & -> & -> & -> & -> & -> & ->). done.
Qed.

Lemma demo_got : get_record demo_upper demo_parse demo_loads [] (db_in demo_recorded) (lit "g") = Ok (Some demo_closed).
Proof. vm_compute. reflexivity. Qed.

Lemma recorded_evidence_recovers_witness : exists db'' row,
  cmd_gap demo_upper demo_format demo_parse demo_loads demo_decimal demo_repr pg_in_order as_listed [] (db_in demo_recorded)
    (VerifyRecovery (lit "g") false (lit "r")) = (db'', Ok 0) /\
  gaps db'' !! lit "g" = Some row /\ recovered_row row /\ g_receipt row = Some (lit "r").
Proof.
  apply (recorded_evidence_recovers demo_upper demo_format demo_parse demo_loads demo_decimal demo_repr pg_in_order as_listed demo_covered
    (lit "g") (lit "r") (lit "run") (lit "cov") 50 (db_in demo_recorded) demo_trusted [] demo_closed);
    [exact demo_laws|exact demo_records|done|done|done|by vm_compute|done|exact demo_got|done..].
Defined.

(** A coverage whose id is taken keeps its contents and becomes VERIFIED. *)
Definition failed_coverage : CoverageRow :=
  mkCoverageRow (TTime 0) (TTime 1) (_scope_hash demo_scope) (DDict (scope_doc demo_scope)) (lit "old") (DDict demo_counts) [] (lit "ops") (TTime 2) false.
Example taken_coverage_verified :
  let db := set_coverages demo_db {[lit "cov" := failed_coverage]} in
  let db' := record_trusted_coverage demo_format db (lit "cov") 5 30 demo_scope demo_fp demo_counts (lit "ops") 40 in
  (fun c => (c_ok c, c_fingerprint c)) <$> coverages db' !! lit "cov" = Some (true, lit "old").
Proof. vm_compute. reflexivity. Qed.

(** A coverage recorded with lower-case venues is not trusted when it is read. *)
Definition small_scope : GapScope := mkScope [lit "upbit"] [lit "KRW-BTC"] [lit "trades"].
Definition ascii_upper (s : pystr) : pystr := (fun c => if (97 <=? c) && (c <=? 122) then c - 32 else c) <$> s.
Example small_venues_mistrusted :
  let db := record_trusted_coverage demo_format demo_db (lit "cov") 5 30 small_scope demo_fp demo_counts (lit "ops") 40 in
  match _trusted_coverage ascii_upper demo_format demo_parse demo_loads db (lit "cov") with
  | Err (Incomplete why) => why = "trusted coverage evidence hash mismatch"%string
  | _ => False
  end.
Proof. vm_compute. reflexivity. Qed.
End GapStore.
