(* ===== verification/Storage.v ===== *)
(** * The storage back-ends (src/src/mdfeed/storage/db.py)

    [Writer] holds the tables and the SQLite transaction of a batch.  Here are the other
    back-end, PostgreSQL, whose time columns hold moments and whose integer columns have
    widths, the table of newest trades with its rebuilding at start, the common queries, and
    what a store checks before it is opened.  The class [Row] says how a row of the writer
    becomes the cells of a statement and what the server makes of them. *)

From S2P Require Import Prelude PyStr PyFloat Dict Models Protocol Clock Writer PyInt Migration Url.
From stdpp Require Import sorting.

#[local] Open Scope Z_scope.

Module Storage.
Import Models.Models Writer.Writer.

(** ** Times *)

(** A [datetime]: the microseconds its clock shows, counted from 1970, and its offset from
    UTC in microseconds ([tzinfo]). *)
Record DateTime := mkDateTime { dt_wall : Z; dt_offset : option Z }.

Inductive PgError := ValueError | ConfigError | PgSql | PgPartial | PgConflicting | NoReceiptTable.

Definition day_us : Z := 86400000000.
Definition instant (d : DateTime) : Z := dt_wall d - default 0%Z (dt_offset d).

Definition in_range (us : Z) : bool := (Migration.MIN_SECOND <=? us / 1000000) && (us / 1000000 <=? Migration.MAX_SECOND).
Definition us_to_utc (us : Z) : result PgError DateTime :=
  let seconds := us / 1000000 in
  let micros := us mod 1000000 in
  if (Migration.MIN_SECOND <=? seconds) && (seconds <=? Migration.MAX_SECOND)
  then Ok (mkDateTime (seconds * 1000000 + micros) (Some 0)) else Err ValueError.

(** The difference from the epoch is a [timedelta]: days, seconds, microseconds. *)
Definition dt_to_us (d : DateTime) : Z :=
  let delta := instant d in
  let days := delta / day_us in
  let seconds := delta mod day_us / 1000000 in
  let microseconds := delta mod 1000000 in
  days * 86400000000 + seconds * 1000000 + microseconds.

Inductive StorageValue := VNone | VStr (s : pystr) | VInt (z : Z) | VFloat (x : float) | VBytes (bs : bytes) | VTime (d : DateTime).
Abbreviation StorageRow := (list StorageValue) (only parsing).

Definition int_cell (v : StorageValue) : result PgError Z := match v with VInt z => Ok z | _ => Err ConfigError end.
Definition normalize_value (v : StorageValue) : StorageValue := match v with VTime d => VInt (dt_to_us d) | _ => v end.

(** [values[pos] = _us_to_utc(_int_cell(values[pos]))] for each position. *)
Fixpoint ts_row (positions : list nat) (row : StorageRow) : result PgError StorageRow :=
  match positions with
  | [] => Ok row
  | pos :: positions =>
      let! us := int_cell (default VNone (row !! pos)) in
      let! d := us_to_utc us in
      ts_row positions (<[pos := VTime d]> row)
  end.

Fixpoint each {A B} (f : A -> result PgError B) (l : list A) : result PgError (list B) :=
  match l with
  | [] => Ok []
  | x :: l => let! y := f x in let! ys := each f l in Ok (y :: ys)
  end.

(** ** What the columns take *)

Definition int2 (z : Z) : bool := (-2 ^ 15 <=? z) && (z <? 2 ^ 15).
Definition int4 (z : Z) : bool := (-2 ^ 31 <=? z) && (z <? 2 ^ 31).
Definition int8 (z : Z) : bool := (-2 ^ 63 <=? z) && (z <? 2 ^ 63).
(** A text that can be sent: no NUL, no half of a surrogate pair. *)
Definition text (s : pystr) : bool := forallb (fun c => negb (c =? 0) && negb ((0xD800 <=? c) && (c <=? 0xDFFF))) s.

(** A row of the writer: its cells, the positions of its times, what the table keeps of
    the cells, and which rows it keeps. *)
Class Row (R : Type) := mkRow
  { cells : R -> StorageRow;
    stamps : list nat;
    kept : StorageRow -> option R;
    fits : R -> bool;
    row_law : forall r, match ts_row stamps (cells r) with Ok c => kept c | Err _ => None end = if fits r then Some r else None }.

Lemma us_to_utc_eq us : us_to_utc us = if in_range us then Ok (mkDateTime us (Some 0)) else Err ValueError.
Proof. unfold us_to_utc, in_range. destruct (_ && _); [|done]. do 2 f_equal. pose proof (Z.div_mod us 1000000). lia. Qed.

Lemma instant_utc us : instant (mkDateTime us (Some 0)) = us.
Proof. unfold instant. cbn. lia. Qed.

Definition trade_cells (r : TradeRow) : StorageRow :=
  [VInt (tr_ts r); VStr (tr_venue r); VStr (tr_symbol r); VFloat (tr_price r); VFloat (tr_qty r); VInt (tr_side r);
   VInt (tr_recv r); VInt (tr_latency r); VInt (tr_seq r)].
(** Table [trades]: side SMALLINT, latency_us INTEGER, seq BIGINT. *)
Definition trade_kept (c : StorageRow) : option TradeRow :=
  match c with
  | [VTime ts; VStr v; VStr s; VFloat p; VFloat q; VInt side; VTime recv; VInt lat; VInt n] =>
      if text v && text s && int2 side && int4 lat && int8 n then Some (mkTradeRow (instant ts) v s p q side (instant recv) lat n) else None
  | _ => None
  end.
Definition trade_fits (r : TradeRow) : bool :=
  in_range (tr_ts r) && in_range (tr_recv r) &&
  (text (tr_venue r) && text (tr_symbol r) && int2 (tr_side r) && int4 (tr_latency r) && int8 (tr_seq r)).

Definition book_cells (r : BookRow) : StorageRow :=
  [VInt (bw_ts r); VStr (bw_venue r); VStr (bw_symbol r); VFloat (bw_bid r); VFloat (bw_bid_qty r); VFloat (bw_ask r);
   VFloat (bw_ask_qty r); VFloat (bw_spread r)].
Definition book_kept (c : StorageRow) : option BookRow :=
  match c with
  | [VTime ts; VStr v; VStr s; VFloat b; VFloat bq; VFloat a; VFloat aq; VFloat sp] =>
      if text v && text s then Some (mkBookRow (instant ts) v s b bq a aq sp) else None
  | _ => None
  end.
Definition book_fits (r : BookRow) : bool := in_range (bw_ts r) && (text (bw_venue r) && text (bw_symbol r)).

Definition signal_cells (r : SignalRow) : StorageRow :=
  [VInt (sr_ts r); VStr (sr_venue r); VStr (sr_symbol r); VStr (sr_strategy r); VInt (sr_action r); VFloat (sr_strength r);
   VFloat (sr_price r)].
(** Table [signals]: action SMALLINT. *)
Definition signal_kept (c : StorageRow) : option SignalRow :=
  match c with
  | [VTime ts; VStr v; VStr s; VStr st; VInt a; VFloat x; VFloat p] =>
      if text v && text s && text st && int2 a then Some (mkSignalRow (instant ts) v s st a x p) else None
  | _ => None
  end.
Definition signal_fits (r : SignalRow) : bool :=
  in_range (sr_ts r) && (text (sr_venue r) && text (sr_symbol r) && text (sr_strategy r) && int2 (sr_action r)).

Definition bar_cells (r : BarRow) : StorageRow :=
  [VInt (ba_bucket r); VStr (ba_venue r); VStr (ba_symbol r); VFloat (ba_open r); VFloat (ba_high r); VFloat (ba_low r);
   VFloat (ba_close r); VFloat (ba_volume r); VFloat (ba_notional r); VFloat (ba_vwap r); VInt (ba_ticks r)].
(** Table [bars_1m]: tick_count INTEGER. *)
Definition bar_kept (c : StorageRow) : option BarRow :=
  match c with
  | [VTime t; VStr v; VStr s; VFloat o; VFloat h; VFloat l; VFloat k; VFloat vo; VFloat no; VFloat vw; VInt n] =>
      if text v && text s && int4 n then Some (mkBarRow (instant t) v s o h l k vo no vw n) else None
  | _ => None
  end.
Definition bar_fits (r : BarRow) : bool := in_range (ba_bucket r) && (text (ba_venue r) && text (ba_symbol r) && int4 (ba_ticks r)).

(** A row of the table [latest]: the instrument and its newest trade. *)
Definition LatestRow : Type := (pystr * pystr) * Latest.
Definition latest_row (r : TradeRow) : LatestRow := ((tr_venue r, tr_symbol r), latest_of r).
Definition latest_cells (r : LatestRow) : StorageRow :=
  [VStr r.1.1; VStr r.1.2; VInt (la_ts r.2); VFloat (la_price r.2); VFloat (la_qty r.2); VInt (la_side r.2); VInt (la_latency r.2)].
(** Table [latest]: side SMALLINT, latency_us BIGINT. *)
Definition latest_kept (c : StorageRow) : option LatestRow :=
  match c with
  | [VStr v; VStr s; VTime ts; VFloat p; VFloat q; VInt side; VInt lat] =>
      if text v && text s && int2 side && int8 lat then Some ((v, s), mkLatest (instant ts) p q side lat) else None
  | _ => None
  end.
Definition latest_fits (r : LatestRow) : bool :=
  in_range (la_ts r.2) && (text r.1.1 && text r.1.2 && int2 (la_side r.2) && int8 (la_latency r.2)).

(** The times are converted one after the other, then the columns take the cells. *)
Ltac solve_row :=
  cbn -[us_to_utc in_range text int2 int4 int8 instant];
  repeat (rewrite us_to_utc_eq; destruct (in_range _); cbn -[us_to_utc in_range text int2 int4 int8 instant]; [|done]);
  rewrite ?instant_utc; done.

Lemma trade_law r :
  match ts_row [0; 6]%nat (trade_cells r) with Ok c => trade_kept c | Err _ => None end = if trade_fits r then Some r else None.
Proof. unfold trade_fits. destruct r. solve_row. Qed.
#[export] Instance trade_table : Row TradeRow := mkRow _ trade_cells [0; 6]%nat trade_kept trade_fits trade_law.
Lemma book_law r :
  match ts_row [0]%nat (book_cells r) with Ok c => book_kept c | Err _ => None end = if book_fits r then Some r else None.
Proof. unfold book_fits. destruct r. solve_row. Qed.
#[export] Instance book_table : Row BookRow := mkRow _ book_cells [0]%nat book_kept book_fits book_law.
Lemma signal_law r :
  match ts_row [0]%nat (signal_cells r) with Ok c => signal_kept c | Err _ => None end = if signal_fits r then Some r else None.
Proof. unfold signal_fits. destruct r. solve_row. Qed.
#[export] Instance signal_table : Row SignalRow := mkRow _ signal_cells [0]%nat signal_kept signal_fits signal_law.
Lemma bar_law r :
  match ts_row [0]%nat (bar_cells r) with Ok c => bar_kept c | Err _ => None end = if bar_fits r then Some r else None.
Proof. unfold bar_fits. destruct r. solve_row. Qed.
#[export] Instance bar_table : Row BarRow := mkRow _ bar_cells [0]%nat bar_kept bar_fits bar_law.
Lemma latest_law r :
  match ts_row [2]%nat (latest_cells r) with Ok c => latest_kept c | Err _ => None end = if latest_fits r then Some r else None.
Proof. unfold latest_fits. destruct r as [[v s] []]. solve_row. Qed.
#[export] Instance latest_table : Row LatestRow := mkRow _ latest_cells [2]%nat latest_kept latest_fits latest_law.

(** ** PostgreSQL: statements of a transaction *)

(** The rows as they are sent: their times are converted before any statement. *)
Definition sent {R} `{Row R} (rows : list R) : result PgError (list StorageRow) := each (ts_row stamps) (cells <$> rows).
(** [execute_batch]: one row that its column does not take ends the transaction. *)
Definition execute_batch {R} `{Row R} (rows : list StorageRow) : option (list R) := mapM kept rows.

(** [_LATEST_UPSERT]. *)
Definition upsert_latest_row (m : gmap (pystr * pystr) Latest) (r : LatestRow) : gmap (pystr * pystr) Latest :=
  match m !! r.1 with
  | Some l => if la_ts l <=? la_ts r.2 then <[r.1 := r.2]> m else m
  | None => <[r.1 := r.2]> m
  end.

Definition set_receipts (rs : list Receipt) (d : Db) : Db :=
  mkDb (t_trades d) (t_books d) (t_signals d) (t_bars d) (t_latest d) rs.
Definition pg_insert_trades_in (trades latest : list StorageRow) (d : Db) : option Db :=
  ts ← execute_batch trades;
  ls ← execute_batch latest;
  Some (mkDb (t_trades d ++ ts) (t_books d) (t_signals d) (t_bars d) (foldl upsert_latest_row (t_latest d) ls) (t_receipts d)).
Definition pg_insert_book_in (books : list StorageRow) (d : Db) : option Db :=
  rs ← execute_batch books; Some (mkDb (t_trades d) (t_books d ++ rs) (t_signals d) (t_bars d) (t_latest d) (t_receipts d)).
Definition pg_insert_signals_in (signals : list StorageRow) (d : Db) : option Db :=
  rs ← execute_batch signals; Some (mkDb (t_trades d) (t_books d) (t_signals d ++ rs) (t_bars d) (t_latest d) (t_receipts d)).
Definition pg_upsert_bars_in (bars : list StorageRow) (d : Db) : option Db :=
  rs ← execute_batch bars; Some (upsert_bars rs d).

Definition receipt_key (r : Receipt) : nat * Table := (rc_batch r, rc_table r).
(** [WHERE receipt_id = ANY(...)]: the receipts of the batch for the tables it fills. *)
Definition pg_receipts (b : StorageBatch) (rs : list Receipt) : list Receipt :=
  filter (fun r => rc_batch r = batch_id b /\ rc_table r ∈ (expected b).*1) rs.

(** The receipts found must be those of the batch, with its digest and its counts. *)
Definition check_found (b : StorageBatch) (found : list Receipt) : result PgError unit :=
  if bool_decide (Forall (fun r => rc_table r ∈ (expected b).*1) found /\ Forall (fun e => e.1 ∈ rc_table <$> found) (expected b)) then
    if bool_decide (Forall (fun e => Exists (fun r => rc_table r = e.1 /\ rc_digest r = digest b /\ rc_count r = e.2) found) (expected b))
    then Ok tt else Err PgConflicting
  else Err PgPartial.

Definition pg_already_committed (table_there : bool) (b : StorageBatch) (d : Db) : result PgError bool :=
  match expected b with
  | [] => Ok false
  | _ =>
      if negb table_there then Err NoReceiptTable
      else match pg_receipts b (t_receipts d) with
           | [] => Ok false
           | found => rmap (fun _ => true) (check_found b found)
           end
  end.

(** [INSERT ... ON CONFLICT DO NOTHING RETURNING]. *)
Definition claim_one (acc : nat * list Receipt) (r : Receipt) : nat * list Receipt :=
  if bool_decide (receipt_key r ∈ receipt_key <$> acc.2) then acc else (S acc.1, acc.2 ++ [r]).
(** The receipts afterwards when the batch is ours, [None] when it is written already. *)
Definition claim_receipts (b : StorageBatch) (d : Db) : result PgError (option (list Receipt)) :=
  let rows := write_receipts b in
  let '(claimed, rs) := foldl claim_one (O, t_receipts d) rows in
  if (claimed =? length rows)%nat then Ok (Some rs)
  else if negb (claimed =? 0)%nat then Err PgPartial
  else rmap (fun _ => None) (check_found b (pg_receipts b rs)).

(** The statements of the transaction after the claim. *)
Definition pg_statements (trades latest books signals bars : list StorageRow) (d : Db) : option Db :=
  d ← pg_insert_trades_in trades latest d;
  d ← pg_insert_book_in books d;
  d ← pg_insert_signals_in signals d;
  pg_upsert_bars_in bars d.

Definition statement (r : option Db) : result PgError Db := match r with Some d => Ok d | None => Err PgSql end.
(** The conversions, and the statements of the transaction on the database [d]. *)
Definition pg_transaction (b : StorageBatch) (d : Db) : result PgError Db :=
  let! trades := sent (b_trades b) in
  let! latest := sent (latest_row <$> latest_rows (b_trades b)) in
  let! books := sent (b_books b) in
  let! signals := sent (b_signals b) in
  let! bars := sent (b_bars b) in
  let! claim := claim_receipts b d in
  match claim with
  | None => Ok d
  | Some rs => statement (pg_statements trades latest books signals bars (set_receipts rs d))
  end.

(** [dc] is the database when the receipts are looked for, [d] when they are claimed: a
    transaction of an earlier attempt whose answer was lost may have come in between. *)
Definition pg_write_batch (table_there : bool) (b : StorageBatch) (o : Outcome) (dc d : Db) : Db * result PgError (Z * Z) :=
  match b_trades b, b_books b, b_signals b, b_bars b with
  | [], [], [], [] => (d, Ok (0, 0))
  | _, _, _, _ =>
      match pg_already_committed table_there b dc with
      | Err e => (d, Err e)
      | Ok true => (d, Ok (rows_written b, bars_written b))
      | Ok false =>
          match pg_transaction b d with
          | Err e => (d, Err e)                     (* the transaction is rolled back *)
          | Ok d' =>
              match o with
              | Committed => (d', Ok (rows_written b, bars_written b))
              | RolledBack => (d, Err PgSql)
              | AnswerLost => (d', Err PgSql)
              end
          end
      end
  end.

(** ** PostgreSQL: the operations by themselves *)

Definition committed (o : Outcome) (n : Z) (d : Db) (r : result PgError Db) : Db * result PgError Z :=
  match r with
  | Err e => (d, Err e)
  | Ok d' => match o with Committed => (d', Ok n) | RolledBack => (d, Err PgSql) | AnswerLost => (d', Err PgSql) end
  end.

Definition pg_insert_trades (rows : list TradeRow) (o : Outcome) (d : Db) : Db * result PgError Z :=
  match rows with
  | [] => (d, Ok 0)
  | _ =>
      committed o (zlen rows) d
        (let! trades := sent rows in
         let! latest := sent (latest_row <$> latest_rows rows) in
         statement (pg_insert_trades_in trades latest d))
  end.
(** [_many]: nothing is sent for no rows. *)
Definition pg_many {R} `{Row R} (run : list StorageRow -> Db -> option Db) (rows : list R) (o : Outcome) (d : Db) : Db * result PgError Z :=
  match sent rows with
  | Err e => (d, Err e)
  | Ok [] => (d, Ok 0)
  | Ok converted => committed o (zlen converted) d (statement (run converted d))
  end.
Definition pg_insert_book : list BookRow -> Outcome -> Db -> Db * result PgError Z := pg_many pg_insert_book_in.
Definition pg_upsert_bars : list BarRow -> Outcome -> Db -> Db * result PgError Z := pg_many pg_upsert_bars_in.
Definition pg_insert_signals : list SignalRow -> Outcome -> Db -> Db * result PgError Z := pg_many pg_insert_signals_in.
Definition pg_upsert_latest_in (latest : list StorageRow) (d : Db) : option Db :=
  rs ← execute_batch latest;
  Some (mkDb (t_trades d) (t_books d) (t_signals d) (t_bars d) (foldl upsert_latest_row (t_latest d) rs) (t_receipts d)).
Definition pg_upsert_latest : list LatestRow -> Outcome -> Db -> Db * result PgError Z := pg_many pg_upsert_latest_in.

(** ** Rows that are taken *)

Definition fits_batch (b : StorageBatch) : bool :=
  forallb fits (b_trades b) && forallb fits (b_books b) && forallb fits (b_signals b) && forallb fits (b_bars b).

(** The errors of rows: a time out of range, or a column that refuses. *)
Definition row_error (e : PgError) : Prop := e = ValueError \/ e = ConfigError \/ e = PgSql.

Lemma ts_row_error ps : forall row e, ts_row ps row = Err e -> row_error e.
Proof.
  unfold row_error. induction ps as [|p ps IH]; intros row e; cbn [ts_row]; [done|].
  destruct (int_cell _) as [us|e1] eqn:E1; cbn [rbind].
  - rewrite us_to_utc_eq. destruct (in_range us); cbn [rbind]; [apply IH|]. intros [= <-]. auto.
  - intros [= <-]. unfold int_cell in E1. destruct (default _ _); simplify_eq; auto.
Qed.

Section rows.
Context {R : Type} `{Row R}.
#[local] Set Default Proof Using "All".

Lemma sent_cons (r : R) rows : sent (r :: rows) = rbind (ts_row stamps (cells r)) (fun c => rbind (sent rows) (fun cs => Ok (c :: cs))).
Proof. reflexivity. Qed.

Lemma sent_fits (rows : list R) : forallb fits rows = true -> exists cs, sent rows = Ok cs /\ execute_batch cs = Some rows.
Proof.
  induction rows as [|r rows IH]; [by exists []|]. cbn [forallb]. intros [Hr Hrs]%andb_true_iff.
  destruct (IH Hrs) as (cs & E1 & E2). pose proof (row_law r) as L. rewrite Hr in L. rewrite sent_cons.
  destruct (ts_row _ _) as [c|]; [|done]. rewrite E1. cbn [rbind]. eexists. split; [done|].
  unfold execute_batch in *. cbn [mapM]. rewrite L. cbn. by rewrite E2.
Qed.

Lemma sent_unfit (rows : list R) : forallb fits rows = false ->
  (exists e, sent rows = Err e /\ row_error e) \/ (exists cs, sent rows = Ok cs /\ execute_batch (R:=R) cs = None).
Proof.
  induction rows as [|r rows IH]; [done|]. cbn [forallb]. intros Hf. pose proof (row_law r) as L. rewrite sent_cons.
  destruct (ts_row stamps (cells r)) as [c|e] eqn:Ec; [|left; eexists; split; [done|]; by eapply ts_row_error].
  cbn [rbind]. destruct (forallb fits rows) eqn:Ef.
  - destruct (sent_fits rows Ef) as (cs & E1 & E2). rewrite andb_true_r in Hf. rewrite Hf in L. rewrite E1. right.
    eexists. split; [done|]. unfold execute_batch. cbn [mapM]. by rewrite L.
  - destruct (IH eq_refl) as [(e & -> & He)|(cs & -> & Hn)]; [left; by exists e|]. right. eexists. split; [done|].
    unfold execute_batch in *. cbn [mapM]. destruct (kept c); cbn; [by rewrite Hn|done].
Qed.
End rows.

Lemma newest_from (P : TradeRow -> Prop) ts : forall d, Forall P ts -> Forall (fun kr => P kr.2) d ->
  Forall (fun kr => P kr.2) (foldl newest_step d ts).
Proof.
  assert (forall k r d, P r -> Forall (fun kr : (pystr * pystr * TradeRow) => P kr.2) d -> Forall (fun kr => P kr.2) (dset k r d)) as Hset.
  { intros k r d Hr. induction 1 as [|[k' r'] d Hk Hd IH]; cbn [dset]; [by repeat constructor|]. case_decide; by constructor. }
  intros d Hts. revert d. induction Hts as [|r ts Hr _ IH]; intros d Hd; [done|]. cbn [foldl]. apply IH. unfold newest_step.
  destruct (dget _ d) as [r'|]; [destruct (_ <? _)|]; auto.
Qed.

Lemma latest_rows_from (P : TradeRow -> Prop) ts : Forall P ts -> Forall P (latest_rows ts).
Proof. intros H. unfold latest_rows. rewrite Forall_fmap. by apply newest_from. Qed.

Lemma latest_row_fits r : trade_fits r = true -> latest_fits (latest_row r) = true.
Proof.
  unfold trade_fits, latest_fits. cbn [latest_row fst snd latest_of la_ts la_side la_latency].
  rewrite !andb_true_iff. intros [[H1 _] [[[[H2 H3] H4] H5] _]]. split_and!; try done.
  unfold int4 in H5. unfold int8. reflect_cmp. apply andb_true_iff. rewrite Z.leb_le, Z.ltb_lt. lia.
Qed.

Lemma latest_fit (ts : list TradeRow) : forallb fits ts = true -> forallb fits (latest_row <$> latest_rows ts) = true.
Proof.
  intros H. assert (Forall (fun r => trade_fits r = true) ts) as Hf.
  { apply Forall_forall. intros r Hr. rewrite forallb_forall in H. by apply H, list_elem_of_In. }
  apply latest_rows_from in Hf. induction Hf as [|r rs Hr _ IH]; [done|]. cbn [fmap list_fmap forallb]. rewrite IH, andb_true_r.
  by apply latest_row_fits.
Qed.

Lemma upsert_latest_rows rows : forall m, foldl upsert_latest_row m (latest_row <$> rows) = foldl upsert_latest m rows.
Proof. induction rows as [|r rows IH]; intros m; [reflexivity|]. apply IH. Qed.

(** ** Claims *)

Lemma expected_tables b : NoDup (expected b).*1.
Proof.
  eapply sublist_NoDup; [|apply fmap_sublist, sublist_filter]. apply (bool_decide_unpack _). by vm_compute.
Qed.

Lemma write_receipts_keys b : receipt_key <$> write_receipts b = (fun t => (batch_id b, t)) <$> (expected b).*1.
Proof. unfold write_receipts. by rewrite <- !list_fmap_compose. Qed.

Lemma receipts_keys i d t : (i, t) ∈ receipt_key <$> t_receipts d <-> t ∈ rc_table <$> receipts_of i d.
Proof.
  unfold receipts_of. rewrite !list_elem_of_fmap. split.
  - intros (r & [= -> ->] & Hr). exists r. split; [done|]. by apply list_elem_of_filter.
  - intros (r & -> & [Hi Hr]%list_elem_of_filter). exists r. unfold receipt_key. by rewrite Hi.
Qed.

Lemma claim_fresh rows : forall n acc, NoDup (receipt_key <$> rows) ->
  (forall k, k ∈ receipt_key <$> rows -> k ∉ receipt_key <$> acc) ->
  foldl claim_one (n, acc) rows = ((n + length rows)%nat, acc ++ rows).
Proof.
  induction rows as [|r rows IH]; intros n acc Hnd Hf; cbn [foldl length]; [by rewrite Nat.add_0_r, app_nil_r|].
  cbn [fmap list_fmap] in *. apply NoDup_cons in Hnd as [Hni Hnd]. unfold claim_one at 2. cbn [fst snd].
  rewrite bool_decide_false by (apply Hf, list_elem_of_here). rewrite IH; [by rewrite <- app_assoc, Nat.add_succ_comm|done|].
  intros k Hk. rewrite fmap_app, elem_of_app. intros [Hin|Hin].
  - exact (Hf k ltac:(by apply list_elem_of_further) Hin).
  - apply list_elem_of_singleton in Hin. subst k. done.
Qed.

Lemma claim_taken rows : forall n acc, Forall (fun k => k ∈ receipt_key <$> acc) (receipt_key <$> rows) ->
  foldl claim_one (n, acc) rows = (n, acc).
Proof.
  induction rows as [|r rows IH]; intros n acc Hf; [done|]. cbn [fmap list_fmap] in Hf. apply Forall_cons in Hf as [Hr Hf].
  cbn [foldl]. unfold claim_one at 2. cbn [fst snd]. rewrite bool_decide_true by done. by apply IH.
Qed.

Lemma pg_receipts_of b d : pg_receipts b (t_receipts d) = filter (fun r => rc_table r ∈ (expected b).*1) (receipts_of (batch_id b) d).
Proof.
  unfold pg_receipts, receipts_of. rewrite list_filter_filter. apply list_filter_iff. intros r. tauto.
Qed.

Lemma receipt_tables b : Forall (fun r => rc_table r ∈ (expected b).*1) (write_receipts b).
Proof. unfold write_receipts. apply Forall_fmap, Forall_forall. intros e He. cbn. by apply list_elem_of_fmap_2. Qed.

Lemma own_found b : check_found b (write_receipts b) = Ok tt.
Proof.
  unfold check_found. rewrite !bool_decide_true; [done| |].
  - apply Forall_forall. intros e He. apply Exists_exists. exists (mkReceipt (batch_id b) e.1 (digest b) e.2).
    split; [|done]. unfold write_receipts. by apply (list_elem_of_fmap_2 (fun tc => mkReceipt _ tc.1 _ tc.2)).
  - split; [apply receipt_tables|]. apply Forall_forall. intros e He. unfold write_receipts. rewrite <- list_fmap_compose.
    apply list_elem_of_fmap. by exists e.
Qed.

Lemma filter_holds {A} (P : A -> Prop) `{forall x, Decision (P x)} l : Forall P l -> filter P l = l.
Proof. induction 1 as [|x l Hx _ IH]; [done|]. by rewrite filter_cons_True, IH. Qed.

(** The receipts of a batch as its own transactions leave them. *)
Lemma pg_receipts_ok b d : receipts_ok b d -> pg_receipts b (t_receipts d) = receipts_of (batch_id b) d.
Proof. rewrite pg_receipts_of. intros [-> | ->]; [done|]. apply filter_holds, receipt_tables. Qed.

Lemma pg_already_spec table_there b d : receipts_ok b d -> expected b <> [] ->
  pg_already_committed table_there b d =
    if table_there then Ok (negb (bool_decide (receipts_of (batch_id b) d = []))) else Err NoReceiptTable.
Proof.
  intros H He. unfold pg_already_committed. destruct (expected b) eqn:Ee; [done|]. destruct table_there; [|done]. cbn [negb].
  rewrite (pg_receipts_ok b d H). destruct H as [-> |E]; [done|]. rewrite E.
  assert (write_receipts b <> []) as Hne by (unfold write_receipts; by rewrite Ee). pose proof (own_found b) as Hf.
  destruct (write_receipts b) eqn:Ew; [done|]. by rewrite Hf.
Qed.

Lemma claim_spec b d : receipts_ok b d -> expected b <> [] ->
  claim_receipts b d =
    Ok (if bool_decide (receipts_of (batch_id b) d = []) then Some (t_receipts d ++ write_receipts b) else None).
Proof.
  intros H He. unfold claim_receipts. assert (write_receipts b <> []) as Hne by (by intros ?%write_receipts_nil).
  destruct (decide (receipts_of (batch_id b) d = [])) as [E|E].
  - rewrite (bool_decide_true _ E). rewrite claim_fresh.
    + by rewrite Nat.add_0_l, Nat.eqb_refl.
    + rewrite write_receipts_keys. apply NoDup_fmap_2; [by intros ? ? [= ]|apply expected_tables].
    + rewrite write_receipts_keys. intros k (t & -> & _)%list_elem_of_fmap. rewrite receipts_keys, E. apply not_elem_of_nil.
  - rewrite (bool_decide_false _ E). destruct H as [?|H]; [done|]. rewrite claim_taken.
    + destruct (write_receipts b) eqn:Ew; [done|]. cbn [length Nat.eqb negb]. rewrite (pg_receipts_ok b d); [|right; congruence].
      rewrite H, <- Ew. by rewrite own_found.
    + rewrite write_receipts_keys. apply Forall_fmap, Forall_forall. intros t Ht. cbn. apply receipts_keys. rewrite H.
      unfold write_receipts. by rewrite <- list_fmap_compose.
Qed.

(** ** One batch *)

(** Reads a chain of conversions whose rows all fit. *)
Ltac convert H := let cs := fresh "cs" in let E := fresh "E" in let K := fresh "K" in
  destruct (sent_fits _ H) as (cs & E & K); rewrite E; clear E; cbn [rbind].

Lemma statements_fit b d rs trades latest books signals bars :
  execute_batch trades = Some (b_trades b) -> execute_batch latest = Some (latest_row <$> latest_rows (b_trades b)) ->
  execute_batch books = Some (b_books b) -> execute_batch signals = Some (b_signals b) -> execute_batch bars = Some (b_bars b) ->
  rs = t_receipts d ++ write_receipts b ->
  pg_statements trades latest books signals bars (set_receipts rs d) = Some (apply_batch b d).
Proof.
  intros E1 E2 E3 E4 E5 ->. unfold pg_statements, pg_insert_trades_in, pg_insert_book_in, pg_insert_signals_in, pg_upsert_bars_in.
  rewrite E1. cbn [mbind option_bind]. rewrite E2. cbn [mbind option_bind]. rewrite E3. cbn [mbind option_bind].
  rewrite E4. cbn [mbind option_bind]. rewrite E5. cbn [mbind option_bind]. rewrite upsert_latest_rows. done.
Qed.

Lemma transaction_fits b d : receipts_ok b d -> expected b <> [] -> fits_batch b = true ->
  pg_transaction b d = Ok (if bool_decide (receipts_of (batch_id b) d = []) then apply_batch b d else d).
Proof.
  intros Hr He. unfold fits_batch. rewrite !andb_true_iff. intros [[[F1 F2] F3] F4]. unfold pg_transaction.
  convert F1. convert (latest_fit _ F1). convert F2. convert F3. convert F4. rewrite (claim_spec b d Hr He). cbn [rbind].
  destruct (bool_decide _); [|done]. by erewrite statements_fit.
Qed.

(** One column that refuses ends the transaction. *)
Lemma statements_refused d (trades latest books signals bars : list StorageRow) :
  execute_batch (R:=TradeRow) trades = None \/ execute_batch (R:=BookRow) books = None \/
  execute_batch (R:=SignalRow) signals = None \/ execute_batch (R:=BarRow) bars = None ->
  pg_statements trades latest books signals bars d = None.
Proof.
  intros H. unfold pg_statements, pg_insert_trades_in, pg_insert_book_in, pg_insert_signals_in, pg_upsert_bars_in.
  destruct (execute_batch (R:=TradeRow) trades); [|done]. cbn [mbind option_bind].
  destruct (execute_batch (R:=LatestRow) latest); [|done]. cbn [mbind option_bind].
  destruct (execute_batch (R:=BookRow) books); [|done]. cbn [mbind option_bind].
  destruct (execute_batch (R:=SignalRow) signals); [|done]. cbn [mbind option_bind].
  destruct (execute_batch (R:=BarRow) bars); [|done]. by destruct H as [?|[?|[?|?]]].
Qed.

Lemma sent_refused {R} `{Row R} (rows : list R) cs : sent rows = Ok cs -> forallb fits rows = false -> execute_batch (R:=R) cs = None.
Proof. intros E Hf. destruct (sent_unfit rows Hf) as [(e & E' & _)|(cs' & E' & Hn)]; congruence. Qed.

Lemma sent_error {R} `{Row R} (rows : list R) e : sent rows = Err e -> row_error e.
Proof.
  intros E. destruct (forallb fits rows) eqn:Hf; [destruct (sent_fits rows Hf) as (cs & E' & _); congruence|].
  destruct (sent_unfit rows Hf) as [(e' & E' & He)|(cs' & E' & _)]; [|congruence]. replace e with e' by congruence. done.
Qed.

(** Steps over a conversion: its error is the batch's error. *)
Ltac step_sent rows c E :=
  destruct (sent rows) as [c|?e] eqn:E; cbn [rbind]; [|left; eexists; split; [reflexivity|exact (sent_error _ _ E)]].

(** A row that is not taken fails the whole, unless the batch is there already. *)
Lemma transaction_unfit b d : receipts_ok b d -> expected b <> [] -> fits_batch b = false ->
  (exists e, pg_transaction b d = Err e /\ row_error e) \/
  (receipts_of (batch_id b) d <> [] /\ pg_transaction b d = Ok d).
Proof.
  intros Hr He Hf. unfold pg_transaction.
  step_sent (b_trades b) c1 E1. step_sent (latest_row <$> latest_rows (b_trades b)) c2 E2. step_sent (b_books b) c3 E3.
  step_sent (b_signals b) c4 E4. step_sent (b_bars b) c5 E5.
  rewrite (claim_spec b d Hr He). cbn [rbind]. case_bool_decide as Hn; [|by right].
  left. exists PgSql. split; [|by right; right]. rewrite statements_refused; [done|].
  unfold fits_batch in Hf. rewrite !andb_false_iff in Hf. destruct Hf as [[[Hf|Hf]|Hf]|Hf]; eauto using sent_refused.
Qed.

Lemma batch_not_empty b {A} (x y : A) : expected b <> [] ->
  match b_trades b, b_books b, b_signals b, b_bars b with [], [], [], [] => x | _, _, _, _ => y end = y.
Proof.
  intros He. destruct (b_trades b) eqn:E1; [|done]. destruct (b_books b) eqn:E2; [|done]. destruct (b_signals b) eqn:E3; [|done].
  destruct (b_bars b) eqn:E4; [|done]. exfalso. apply He. unfold expected, table_counts. by rewrite E1, E2, E3, E4.
Qed.

Lemma empty_batch b {A} (x y : A) : expected b = [] ->
  match b_trades b, b_books b, b_signals b, b_bars b with [], [], [], [] => x | _, _, _, _ => y end = x.
Proof. intros (-> & -> & -> & ->)%expected_nil. done. Qed.

(** What a call does to the database, and what its answer means. *)
Lemma pg_write_spec there b o dc d : receipts_ok b dc -> receipts_ok b d ->
  (receipts_of (batch_id b) dc <> [] -> receipts_of (batch_id b) d <> []) ->
  let r := pg_write_batch there b o dc d in
  (r.1 = d \/ (receipts_of (batch_id b) d = [] /\ expected b <> [] /\ fits_batch b = true /\ r.1 = apply_batch b d)) /\
  (forall c, r.2 = Ok c -> receipts_of (batch_id b) r.1 <> [] \/ expected b = []) /\
  r.2 <> Err PgPartial /\ r.2 <> Err PgConflicting.
Proof.
  intros Hc Hd Hkeep. unfold pg_write_batch. destruct (decide (expected b = [])) as [He|He]; [rewrite (empty_batch b _ _ He)|rewrite (batch_not_empty b _ _ He)].
  { cbn [fst snd]. split; [by left|]. split; [by right|done]. }
  rewrite (pg_already_spec _ b dc Hc He). destruct there; [|split; [by left|done]].
  destruct (bool_decide (receipts_of (batch_id b) dc = [])) eqn:Ec; cbn [negb].
  2:{ apply bool_decide_eq_false in Ec. split; [by left|]. split; [intros _ _; left; exact (Hkeep Ec)|done]. }
  destruct (fits_batch b) eqn:Hf.
  - rewrite (transaction_fits b d Hd He Hf). destruct (decide (receipts_of (batch_id b) d = [])) as [E|E].
    + rewrite (bool_decide_true _ E). destruct o; cbn [fst snd]; (split; [by auto|]); (split; [|done]); try done.
      intros _ _. left. by apply applied_receipts.
    + rewrite (bool_decide_false _ E). destruct o; cbn [fst snd]; (split; [by left|]); (split; [|done]); try done. intros _ _. by left.
  - destruct (transaction_unfit b d Hd He Hf) as [(e & -> & Hre)|[E ->]]; cbn [fst snd].
    + split; [by left|]. split; [done|]. by destruct Hre as [->|[->| ->]].
    + destruct o; cbn [fst snd]; (split; [by left|]); (split; [|done]); try done. intros _ _. by left.
Qed.

(** C27: A batch written to PostgreSQL is written as SQLite would write it: the database is
    untouched, or it is what the batch makes of it; an answer comes with the answer and
    the database of SQLite's transaction at the moment of the claim, even when an earlier
    attempt's transaction came in after the receipts were looked for; a batch whose rows
    all fit is written unless the transaction fails, one with a row that does not is
    refused as a whole; and a batch's own receipts are never taken for another's. *)
Theorem pg_write_refines there b o dc d :
  receipts_ok b dc -> receipts_ok b d ->
  (receipts_of (batch_id b) dc <> [] -> receipts_of (batch_id b) d <> []) ->
  let r := pg_write_batch there b o dc d in
  let sqlite := write_batch b Committed d in
  (r.1 = d \/ r.1 = sqlite.1) /\
  (forall c, r.2 = Ok c -> r.1 = sqlite.1 /\ sqlite.2 = Ok c) /\
  (there = true -> fits_batch b = true -> o = Committed -> r.2 = Ok (rows_written b, bars_written b)) /\
  (expected b <> [] -> fits_batch b = false -> receipts_of (batch_id b) d = [] -> r.1 = d /\ exists e, r.2 = Err e) /\
  r.2 <> Err PgPartial /\ r.2 <> Err PgConflicting.
Proof.
  intros Hc Hd Hk r sqlite. pose proof (pg_write_spec there b o dc d Hc Hd Hk) as (Hst & Hans & H3 & H4). fold r in Hst, Hans, H3, H4.
  assert (sqlite = (if bool_decide (receipts_of (batch_id b) d = []) && negb (bool_decide (expected b = [])) then apply_batch b d else d,
    Ok (rows_written b, bars_written b))) as Hs.
  { unfold sqlite. by destruct (write_batch_spec b Committed d Hd) as [(_ & ? & _)|[(_ & ? & _)|E]]. }
  assert (forall c, r.2 = Ok c -> c = (rows_written b, bars_written b)) as Hcount.
  { intros c. unfold r, pg_write_batch. destruct (decide (expected b = [])) as [He|He].
    - rewrite (empty_batch b _ _ He). intros [= <-]. destruct (expected_nil b He) as (E1 & E2 & E3 & E4).
      unfold rows_written, bars_written. by rewrite E1, E2, E3, E4.
    - rewrite (batch_not_empty b _ _ He). destruct (pg_already_committed _ _ _) as [[]|]; [by intros [= <-]| |done].
      destruct (pg_transaction b d); [|done]. destruct o; [|done|done]. by intros [= <-]. }
  split_and!; try done.
  - rewrite Hs. cbn [fst]. destruct Hst as [->|(E & He & _ & ->)]; [by left|]. right.
    by rewrite (bool_decide_true _ E), (bool_decide_false _ He).
  - intros c Hr. rewrite (Hcount c Hr), Hs. split; [|done]. cbn [fst]. destruct Hst as [E|(E & He & _ & ->)].
    + rewrite E in *. destruct (Hans c Hr) as [Hne|He]; [by rewrite (bool_decide_false _ Hne)|].
      by rewrite (bool_decide_true (expected b = [])), andb_false_r.
    + by rewrite (bool_decide_true _ E), (bool_decide_false _ He).
  - intros -> Hf ->. destruct (r.2) as [c|e] eqn:Er; [by rewrite (Hcount c eq_refl)|]. exfalso. revert Er. unfold r, pg_write_batch.
    destruct (decide (expected b = [])) as [He|He]; [by rewrite (empty_batch b _ _ He)|]. rewrite (batch_not_empty b _ _ He).
    rewrite (pg_already_spec _ b dc Hc He). destruct (negb (bool_decide (receipts_of (batch_id b) dc = []))); [done|].
    by rewrite (transaction_fits b d Hd He Hf).
  - intros He Hf E. destruct Hst as [Hst|(_ & _ & ? & _)]; [|congruence]. split; [done|].
    destruct (r.2) as [c|e] eqn:Er; [|by eexists]. rewrite Hst in Hans. by destruct (Hans c eq_refl).
Qed.

(** ** The writer on PostgreSQL *)

(** [doubt]: a transaction of the batch being kept may still be running in the server,
    although its answer was given up. *)
Record PgWriter := mkPgWriter { pw : Writer; pd : Db; doubt : bool }.
Definition new_pg_writer : PgWriter := mkPgWriter new_writer new_db false.

Inductive PgEvent :=
| PIngest (f : Protocol.Frame) (source : pystr) (now : float)
| PFlushBegin (now : Z)
| PFlushEnd (late : bool) (o : Outcome) (lingers : bool)  (* [late]: the one in doubt commits before the claim *)
| LateCommit
| LateAbort.

(** The transaction in doubt commits: the unique receipts let one attempt in. *)
Definition late_commit (s : PgWriter) : Db :=
  match retry_batch (pw s) with
  | Some b =>
      if doubt s && fits_batch b && bool_decide (receipts_of (batch_id b) (pd s) = []) && negb (bool_decide (expected b = []))
      then apply_batch b (pd s) else pd s
  | None => pd s
  end.

Section pg_writer.
Variable cfg : Config.
Variable digest_of : list TradeRow -> list BookRow -> list SignalRow -> list BarRow -> pystr.
Variable there : bool.

Definition pg_flush_end (late : bool) (o : Outcome) (lingers : bool) (s : PgWriter) : PgWriter :=
  match in_flight (pw s), retry_batch (pw s) with
  | Some closed, Some b =>
      let d := if late then late_commit s else pd s in
      let '(d, r) := pg_write_batch there b o (pd s) d in
      mkPgWriter (finish_flush closed b r (pw s)) d
        (match r with Ok _ => false | Err _ => (doubt s && negb late) || lingers end)
  | _, _ => s
  end.

Definition pg_step (s : PgWriter) (ev : PgEvent) : PgWriter :=
  match ev with
  | PIngest f src now => mkPgWriter (ingest cfg f src now (pw s)) (pd s) (doubt s)
  | PFlushBegin now => mkPgWriter (flush_begin cfg digest_of now (pw s)) (pd s) (doubt s)
  | PFlushEnd late o lingers => pg_flush_end late o lingers s
  | LateCommit => mkPgWriter (pw s) (late_commit s) false
  | LateAbort => mkPgWriter (pw s) (pd s) false
  end.
Definition pg_run (evs : list PgEvent) : PgWriter := foldl pg_step new_pg_writer evs.

Abbreviation rows_of s := (all_rows (pw s, pd s)).
Definition pg_brings (s : PgWriter) (ev : PgEvent) : Rows :=
  match ev with PIngest f src now => added (pw s) (ingest cfg f src now (pw s)) | _ => rnil end.
Fixpoint pg_intake (s : PgWriter) (evs : list PgEvent) : Rows :=
  match evs with [] => rnil | ev :: evs => rapp (pg_brings s ev) (pg_intake (pg_step s ev) evs) end.

Lemma late_step s : wr_inv (pw s, pd s) -> wr_inv (pw s, late_commit s) /\ all_rows (pw s, late_commit s) = rows_of s.
Proof.
  intros H. unfold late_commit. destruct (retry_batch (pw s)) as [b|] eqn:Er; [|done].
  destruct (_ && _) eqn:Eg; [|done]. rewrite !andb_true_iff, bool_decide_eq_true, negb_true_iff, bool_decide_eq_false in Eg.
  destruct Eg as [[_ Hn] He]. by apply applied_step.
Qed.

Lemma late_receipts s b : retry_batch (pw s) = Some b ->
  receipts_of (batch_id b) (pd s) <> [] -> late_commit s = pd s.
Proof. intros Er Hn. unfold late_commit. rewrite Er, (bool_decide_false _ Hn), andb_false_r. done. Qed.

Lemma pg_flush_step late o lingers s : wr_inv (pw s, pd s) ->
  wr_inv (pw (pg_flush_end late o lingers s), pd (pg_flush_end late o lingers s)) /\
  rows_of (pg_flush_end late o lingers s) = rows_of s.
Proof.
  intros H. unfold pg_flush_end. destruct (in_flight (pw s)) as [closed|]; [|done].
  destruct (retry_batch (pw s)) as [b|] eqn:Er; [|done]. destruct (late_step s H) as [Hl1 Hl2].
  set (d := if late then late_commit s else pd s).
  assert (wr_inv (pw s, d) /\ all_rows (pw s, d) = rows_of s) as [Hd <-] by (unfold d; by destruct late).
  destruct (wi_retry _ H b Er) as [_ Hok]. destruct (wi_retry _ Hd b Er) as [_ Hok']. cbn [snd] in Hok, Hok'.
  destruct (pg_write_spec there b o (pd s) d Hok Hok') as (Hst & Hans & _).
  { intros Hn. unfold d. destruct late; [by rewrite (late_receipts s b Er Hn)|done]. }
  destruct (pg_write_batch there b o (pd s) d) as [d' r]. cbn [fst snd pw pd] in *. apply finish_step; try done.
  destruct Hst as [?|(? & ? & _ & ?)]; auto.
Qed.

Lemma pg_step_inv s ev : wr_inv (pw s, pd s) ->
  wr_inv (pw (pg_step s ev), pd (pg_step s ev)) /\ rows_of (pg_step s ev) = rapp (rows_of s) (pg_brings s ev).
Proof.
  intros H. destruct ev as [f src now|now|late o lingers| |]; cbn [pg_step pg_brings pw pd]; rewrite ?rapp_nil_r.
  - exact (step_inv cfg digest_of (pw s, pd s) (Ingest f src now) H).
  - exact (flush_begin_step cfg digest_of now (pw s, pd s) H).
  - by apply pg_flush_step.
  - by apply late_step.
  - done.
Qed.

Lemma pg_run_inv evs : forall s, wr_inv (pw s, pd s) ->
  wr_inv (pw (foldl pg_step s evs), pd (foldl pg_step s evs)) /\ rows_of (foldl pg_step s evs) = rapp (rows_of s) (pg_intake s evs).
Proof.
  induction evs as [|ev evs IH]; intros s H; cbn [foldl pg_intake]; [by rewrite rapp_nil_r|].
  destruct (pg_step_inv s ev H) as [H1 H2]. destruct (IH _ H1) as [H3 H4]. split; [done|]. by rewrite H4, H2, rapp_assoc.
Qed.

(** C28: With PostgreSQL every row is exactly once in the table, the kept batch or the
    buffers, in the order taken in, whatever the transactions do: fail, lose their
    answer, or commit long after the writer has given them up, between any two events
    or in the middle of the next attempt; and the next attempt never stops at receipts. *)
Theorem postgres_rows_once evs :
  let s := pg_run evs in
  all_rows (pw s, pd s) = pg_intake new_pg_writer evs /\
  (forall b o (late : bool), retry_batch (pw s) = Some b ->
     let r := pg_write_batch there b o (pd s) (if late then late_commit s else pd s) in
     r.2 <> Err PgPartial /\ r.2 <> Err PgConflicting).
Proof.
  intros s. destruct (pg_run_inv evs new_pg_writer new_inv) as [H1 H2]. fold (pg_run evs) in H1, H2. fold s in H1, H2.
  split; [etransitivity; [exact H2|apply rapp_nil_l]|]. intros b o late Er. destruct (late_step s H1) as [Hl _].
  destruct (wi_retry _ H1 b Er) as [_ Hok]. destruct (wi_retry _ Hl b Er) as [_ Hok']. cbn [snd] in Hok, Hok'.
  destruct (pg_write_spec there b o (pd s) (if late then late_commit s else pd s)) as (_ & _ & H3); [done|by destruct late| |done].
  intros Hn. destruct late; [by rewrite (late_receipts s b Er Hn)|done].
Qed.

(** ** A row that does not fit *)

Record stuck (b : StorageBatch) (s : PgWriter) : Prop := mkStuck
  { st_kept : retry_batch (pw s) = Some b; st_receipts : receipts_ok b (pd s); st_fresh : receipts_of (batch_id b) (pd s) = [];
    st_unfit : fits_batch b = false; st_rows : expected b <> [] }.

Lemma stuck_late b s : stuck b s -> late_commit s = pd s.
Proof. intros H. unfold late_commit. by rewrite (st_kept _ _ H), (st_unfit _ _ H), andb_false_r. Qed.

Lemma stuck_step b s ev : stuck b s ->
  stuck b (pg_step s ev) /\ pd (pg_step s ev) = pd s /\ total_rows (pw (pg_step s ev)) = total_rows (pw s).
Proof.
  intros H. pose proof (stuck_late b s H) as Hl. destruct ev as [f src now|now|late o lingers| |]; cbn [pg_step pw pd]; rewrite ?Hl; [| | |by destruct H; repeat split..].
  - destruct (ingest_spec cfg f src now (pw s)) as (_ & _ & _ & S1 & _). split; [|split; [done|apply ingest_total]].
    destruct H. split; cbn [pw pd]; congruence.
  - pose proof H as [K]. unfold flush_begin. destruct (nothing_to_flush (pw s)); [by destruct H; repeat split|].
    destruct (in_flight (pw s)); [by destruct H; repeat split|]. rewrite K. by destruct H; repeat split.
  - unfold pg_flush_end. destruct (in_flight (pw s)) as [closed|]; [|by destruct H; repeat split]. rewrite (st_kept _ _ H).
    replace (if late then late_commit s else pd s) with (pd s) by (rewrite Hl; by destruct late).
    destruct (pg_write_spec there b o (pd s) (pd s) (st_receipts _ _ H) (st_receipts _ _ H)) as (Hst & Hans & _); [done|].
    destruct (pg_write_batch there b o (pd s) (pd s)) as [d' r]. cbn [fst snd pw pd] in *.
    destruct H as [K1 K2 K3 K4 K5]. destruct Hst as [->|(_ & _ & ? & _)]; [|congruence].
    destruct r as [c|e]; [by destruct (Hans c eq_refl)|]. by repeat split.
Qed.

(** C29: A batch with a row that PostgreSQL does not take (a latency past 35 minutes in the
    INTEGER column, for one) stops the storing for good: the batch is kept and tried
    again for ever, nothing after it reaches the database, the count of rows written
    stands still, and from the moment the buffers are full every frame is dropped. *)
Theorem unfit_batch_wedges b s evs : stuck b s ->
  let s' := foldl pg_step s evs in
  retry_batch (pw s') = Some b /\ pd s' = pd s /\ total_rows (pw s') = total_rows (pw s) /\
  (writer_pending_max_rows cfg <= pending_row_count (pw s') -> forall f src now,
     w_rows (ingest cfg f src now (pw s')) = w_rows (pw s') /\ dropped_rows (ingest cfg f src now (pw s')) = dropped_rows (pw s') + 1).
Proof.
  intros H s'. assert (stuck b s' /\ pd s' = pd s /\ total_rows (pw s') = total_rows (pw s)) as (Hs & Hd & Ht).
  { unfold s'. revert s H s'. induction evs as [|ev evs IH]; intros s H; [done|]. cbn [foldl].
    destruct (stuck_step b s ev H) as (H1 & <- & <-). exact (IH _ H1). }
  split_and!; [apply Hs|done|done|]. intros Hfull f src now. by apply full_drops.
Qed.
End pg_writer.

(** ** Witnesses and examples *)

Definition one_trade : StorageBatch :=
  mkBatch 0 (lit "d") [mkTradeRow 60000000 (lit "U") (lit "A") (of_int 10) (of_int 2) 1 60000005 5 0] [] [] [].

(** The first attempt's answer was lost and its transaction came in just before the
    second attempt's claim: the trade is there once, and the second attempt succeeds. *)
Lemma pg_write_refines_witness :
  let d := apply_batch one_trade new_db in
  let r := pg_write_batch true one_trade Committed new_db d in
  (r.1 = (write_batch one_trade Committed d).1) /\ length (t_trades r.1) = 1%nat /\ r.2 = Ok (1, 0).
Proof.
  intros d r. split; [|by vm_compute].
  refine (proj1 (proj1 (proj2 (pg_write_refines true one_trade Committed new_db d _ _ _)) (1, 0) _)).
  - left. by vm_compute.
  - right. by vm_compute.
  - intros H. destruct H. by vm_compute.
  - by vm_compute.
Defined.

(** A trade reported 50 minutes after it was made, as exchanges send the last trade of a
    quiet instrument when a session starts. *)
Definition late_trade : Trade := mkTrade (lit "U") (lit "B") 60000000000 3060000000000 (of_int 10) (of_int 1) SIDE_BUY.
Definition late_run : PgWriter :=
  pg_run demo_cfg demo_digest true
    [PIngest (demo_frame 0 (demo_trade 60000000000 2)) (lit "bus") (of_int 0); PIngest (demo_frame 1 late_trade) (lit "bus") (of_int 1);
     PFlushBegin 70000000000].
Definition late_batch : StorageBatch := default one_trade (retry_batch (pw late_run)).
Definition on_time : PgEvent := PIngest (demo_frame 2 (demo_trade 61000000000 2)) (lit "bus") (of_int 2).

Lemma unfit_batch_wedges_witness :
  let s := foldl (pg_step demo_cfg demo_digest true) late_run
    [PFlushEnd false Committed false; on_time; PFlushBegin 80000000000; PFlushEnd false Committed false] in
  pd s = pd late_run /\ length (t_trades (pd s)) = 0%nat /\ db_errors (pw s) = 2 /\ length (w_trades (pw s)) = 1%nat.
Proof.
  intros s. split; [|by vm_compute].
  refine (proj1 (proj2 (unfit_batch_wedges demo_cfg demo_digest true late_batch late_run
    [PFlushEnd false Committed false; on_time; PFlushBegin 80000000000; PFlushEnd false Committed false] _))).
  split; [by vm_compute|left; by vm_compute|by vm_compute|by vm_compute|apply (bool_decide_unpack _); by vm_compute].
Defined.

(** The same run on SQLite, whose integers have one width. *)
Example late_trade_stored_by_sqlite :
  let s := run demo_cfg demo_digest
    [Ingest (demo_frame 0 (demo_trade 60000000000 2)) (lit "bus") (of_int 0); Ingest (demo_frame 1 late_trade) (lit "bus") (of_int 1);
     FlushBegin 70000000000; FlushEnd Committed] in
  (tr_latency <$> t_trades s.2) = [0; 2999999995].
Proof. by vm_compute. Qed.

(** A moment of the database reads back as the microseconds it was written from, whatever
    the time zone of the session that reads it. *)
Lemma moment_roundtrip us d zone : us_to_utc us = Ok d -> dt_to_us (mkDateTime (instant d + zone) (Some zone)) = us.
Proof.
  rewrite us_to_utc_eq. destruct (in_range us); [|done]. intros [= <-]. rewrite instant_utc. unfold dt_to_us, instant, day_us.
  cbn [dt_wall dt_offset default]. rewrite Z.add_simpl_r.
  pose proof (Z.div_mod us 86400000000). pose proof (Z.div_mod (us mod 86400000000) 1000000).
  replace (us mod 1000000) with ((us mod 86400000000) mod 1000000); [lia|].
  change 86400000000 with (1000000 * 86400). rewrite Z.rem_mul_r by lia.
  rewrite (Z.mul_comm 1000000 ((us / 1000000) mod 86400)), Z.mod_add by lia. by rewrite Z.mod_mod.
Qed.
End Storage.
