(* ===== verification/Sqlite.v ===== *)
(** * The SQLite store (src/src/mdfeed/storage/db.py, [SQLiteStorage] and the common queries)

    [Writer] takes a batch as one transaction of the tables.  Here is the connection under
    it, with the transaction that Python opens before the first change and that stays open
    until a commit or a rollback; the table of newest trades through inserts, batches,
    deletions and its rebuilding at start; and the queries that read it.

    The order in which a statement meets rows that its text does not order is an argument. *)

From S2P Require Import Prelude PyStr PyFloat Dict Models Protocol Clock Writer PyInt Migration Url Storage.
From stdpp Require Import sorting.

#[local] Open Scope Z_scope.

Module Sqlite.
Import Models.Models Writer.Writer.

(** ** The connection *)

(** The committed tables, and the tables as the open transaction sees them. *)
Record Conn := mkConn { disk : Db; open_tx : option Db }.
Definition view (c : Conn) : Db := default (disk c) (open_tx c).

(** A statement is run once for each of its rows. *)
Abbreviation Statement := (list (Db -> Db)) (only parsing).
(** What goes wrong: row [r] of statement [s] fails after the rows before it, with an error
    of SQLite's or ([foreign]) with another exception, such as the [OverflowError] of an
    integer past 64 bits; or the commit fails. *)
Inductive Fault := NoFault | At (foreign : bool) (s r : nat) | AtCommit.
Definition foreign (f : Fault) : bool := match f with At b _ _ => b | _ => false end.

Definition apply_rows (st : Statement) (d : Db) : Db := foldl (fun d f => f d) d st.
Fixpoint run_statements (sts : list Statement) (f : Fault) (d : Db) : Db * bool :=
  match sts with
  | [] => (d, true)
  | st :: sts =>
      match f with
      | At _ 0 r => if (r <? length st)%nat then (apply_rows (take r st) d, false) else run_statements sts NoFault (apply_rows st d)
      | At b (S s) r => run_statements sts (At b s r) (apply_rows st d)
      | _ => run_statements sts f (apply_rows st d)
      end
  end.

Definition sql_commit (f : Fault) (c : Conn) : Conn * bool :=
  match f with AtCommit => (c, false) | _ => (mkConn (view c) None, true) end.

(** Statements that change rows begin a transaction when none is open; after an error it
    stays open with the rows changed so far. *)
Definition run_and_commit {A} (sts : list Statement) (f : Fault) (answer : A) (c : Conn) : Conn * result StorageError A :=
  let '(d, ok) := run_statements sts f (view c) in
  let c := mkConn (disk c) (Some d) in
  if ok then let '(c, ok) := sql_commit f c in (c, if ok then Ok answer else Err SqlError) else (c, Err SqlError).

Definition add_trade (r : TradeRow) (d : Db) : Db := mkDb (t_trades d ++ [r]) (t_books d) (t_signals d) (t_bars d) (t_latest d) (t_receipts d).
Definition add_book (r : BookRow) (d : Db) : Db := mkDb (t_trades d) (t_books d ++ [r]) (t_signals d) (t_bars d) (t_latest d) (t_receipts d).
Definition add_signal (r : SignalRow) (d : Db) : Db := mkDb (t_trades d) (t_books d) (t_signals d ++ [r]) (t_bars d) (t_latest d) (t_receipts d).
Definition add_bar (r : BarRow) (d : Db) : Db := upsert_bars [r] d.
Definition put_latest (r : TradeRow) (d : Db) : Db :=
  mkDb (t_trades d) (t_books d) (t_signals d) (t_bars d) (upsert_latest (t_latest d) r) (t_receipts d).
Definition add_receipt (r : Receipt) (d : Db) : Db :=
  mkDb (t_trades d) (t_books d) (t_signals d) (t_bars d) (t_latest d) (t_receipts d ++ [r]).

Definition insert_trades (rows : list TradeRow) (f : Fault) (c : Conn) : Conn * result StorageError Z :=
  match rows with
  | [] => (c, Ok 0)
  | _ => run_and_commit [add_trade <$> rows; put_latest <$> latest_rows rows] f (zlen rows) c
  end.
Definition many {R} (f : R -> Db -> Db) (rows : list R) (fault : Fault) (c : Conn) : Conn * result StorageError Z :=
  match rows with [] => (c, Ok 0) | _ => run_and_commit [f <$> rows] fault (zlen rows) c end.
Definition insert_book := many add_book.
Definition upsert_bars := many add_bar.
Definition insert_signals := many add_signal.
(** [execute]: one statement, and its commit. *)
Definition execute (f : Db -> Db * Z) (fault : Fault) (c : Conn) : Conn * result StorageError Z :=
  run_and_commit [[fun d => (f d).1]] fault (f (view c)).2 c.

Definition batch_statements (b : StorageBatch) : list Statement :=
  [add_receipt <$> write_receipts b; add_trade <$> b_trades b; put_latest <$> latest_rows (b_trades b);
   add_book <$> b_books b; add_signal <$> b_signals b; add_bar <$> b_bars b].

Definition write_batch (b : StorageBatch) (f : Fault) (c : Conn) : Conn * result StorageError (Z * Z) :=
  match b_trades b, b_books b, b_signals b, b_bars b with
  | [], [], [], [] => (c, Ok (0, 0))
  | _, _, _, _ =>
      match batch_already_committed b (view c) with
      | Err e => (c, Err e)
      | Ok true => (c, Ok (rows_written b, bars_written b))
      | Ok false =>
          match open_tx c with
          | Some _ => (c, Err SqlError)           (* BEGIN inside a transaction *)
          | None =>
              let '(d, ok) := run_statements (batch_statements b) f (disk c) in
              if ok then
                match f with
                | AtCommit => (mkConn (disk c) None, Err SqlError)                      (* rollback *)
                | _ => (mkConn d None, Ok (rows_written b, bars_written b))
                end
              else if foreign f then (mkConn (disk c) (Some d), Err SqlError)           (* no rollback *)
              else (mkConn (disk c) None, Err SqlError)
          end
      end
  end.

(** ** The table of newest trades *)

Definition trade_key (r : TradeRow) : pystr * pystr := (tr_venue r, tr_symbol r).

(** [SELECT venue, symbol, MAX(ts), price, ... GROUP BY venue, symbol]: SQLite takes the
    other columns from one of the rows that have the maximum, [pick] says from which. *)
Definition max_ts (rows : list TradeRow) : Z := foldr Z.max (default 0 (tr_ts <$> head rows)) (tr_ts <$> rows).
Definition newest_rows (k : pystr * pystr) (trades : list TradeRow) : list TradeRow :=
  let rows := filter (fun r => trade_key r = k) trades in filter (fun r => tr_ts r = max_ts rows) rows.
Definition backfill_latest (pick : pystr * pystr -> nat) (d : Db) : Db :=
  if bool_decide (t_latest d = ∅) then
    let keys := remove_dups (trade_key <$> t_trades d) in
    let newest k := (fun r => (k, latest_of r)) <$> newest_rows k (t_trades d) !! (pick k mod length (newest_rows k (t_trades d)))%nat in
    mkDb (t_trades d) (t_books d) (t_signals d) (t_bars d) (list_to_map (omap newest keys)) (t_receipts d)
  else d.

(** [DELETE FROM trades WHERE rowid IN (SELECT rowid ... WHERE ts < ? LIMIT ?)]: [scan] is
    the order in which the rows are met. *)
Definition limit_rows {A} (limit : Z) (l : list A) : list A := if limit <? 0 then l else take (Z.to_nat limit) l.
Definition older (cutoff : Z) (rows : list TradeRow) (i : nat) : Prop := exists r, rows !! i = Some r /\ tr_ts r < cutoff.
#[export] Instance older_dec cutoff rows i : Decision (older cutoff rows i).
Proof.
  unfold older. destruct (rows !! i) as [r|]; [|right; by intros (? & ? & _)].
  destruct (decide (tr_ts r < cutoff)); [left; by exists r|right; by intros (? & [= <-] & ?)].
Defined.
Definition delete_trades (scan : list nat) (cutoff limit : Z) (d : Db) : Db * Z :=
  let gone := limit_rows limit (filter (older cutoff (t_trades d)) scan) in
  let kept := omap (fun i => if bool_decide (i ∈ gone) then None else t_trades d !! i) (seq 0 (length (t_trades d))) in
  (mkDb kept (t_books d) (t_signals d) (t_bars d) (t_latest d) (t_receipts d), zlen gone).

(** ** Queries *)

(** Texts in the order of SQLite's BINARY collation, that of their code points. *)
Fixpoint text_le (a b : pystr) : bool :=
  match a, b with
  | [], _ => true
  | _ :: _, [] => false
  | x :: a, y :: b => (x <? y) || ((x =? y) && text_le a b)
  end.
Definition key_le (a b : pystr * pystr) : Prop := text_le a.1 b.1 && (negb (text_le b.1 a.1) || text_le a.2 b.2) = true.
#[export] Instance key_le_dec a b : Decision (key_le a b) := ltac:(unfold key_le; apply _).
Definition by_key {A} (a b : (pystr * pystr) * A) : Prop := key_le a.1 b.1.
#[export] Instance by_key_dec {A} (a b : (pystr * pystr) * A) : Decision (by_key a b) := ltac:(unfold by_key; apply _).

(** [if venue:] is false for None and for the empty text. *)
Definition asked (arg : option pystr) (value : pystr) : Prop := match arg with Some (c :: s) => value = c :: s | _ => True end.
#[export] Instance asked_dec arg value : Decision (asked arg value) := ltac:(unfold asked; destruct arg as [[|]|]; apply _).

Section queries.
Variable upper : pystr -> pystr.

Definition latest (limit : Z) (venue symbol : option pystr) (d : Db) : list ((pystr * pystr) * Latest) :=
  limit_rows limit (merge_sort by_key
    (filter (fun r => asked (upper <$> venue) r.1.1 /\ asked symbol r.1.2) (map_to_list (t_latest d)))).
End queries.

Definition newer_bar (a b : BarRow) : Prop := ba_bucket b <= ba_bucket a.
#[export] Instance newer_bar_dec a b : Decision (newer_bar a b) := ltac:(unfold newer_bar; apply _).
Definition bars_of (venue symbol : pystr) (d : Db) : list BarRow :=
  (filter (fun kv => kv.1.1 = (venue, symbol)) (map_to_list (t_bars d))).*2.
Definition bars (venue symbol : pystr) (limit : Z) (d : Db) : list BarRow :=
  limit_rows limit (merge_sort newer_bar (bars_of venue symbol d)).

(** [COUNT( * )], [MAX(bucket)] by instrument. *)
Definition symbols (d : Db) : list ((pystr * pystr) * (Z * Z)) :=
  let keys := remove_dups ((fun kv => kv.1.1) <$> map_to_list (t_bars d)) in
  merge_sort by_key ((fun k => let bs := bars_of k.1 k.2 d in
    (k, (zlen bs, foldr Z.max (default 0 (ba_bucket <$> head bs)) (ba_bucket <$> bs)))) <$> keys).

(** A table whose query fails counts as -1. *)
Definition counts (readable : Table -> bool) (d : Db) : list (Table * Z) :=
  (fun t => (t, if readable t then
      match t with Trades => zlen (t_trades d) | BookTops => zlen (t_books d) | Bars => Z.of_nat (size (t_bars d)) | Signals => zlen (t_signals d) end
    else -1)) <$> [Trades; BookTops; Bars; Signals].

(** ** Readers *)

Record Readers := mkReaders { closed : bool; by_thread : gset Z }.
Inductive Reader := OwnConnection (thread : Z) | MainConnection.
(** [opens]: a new connection can be opened. *)
Definition reader (thread : Z) (opens : bool) (s : Readers) : Readers * option Reader :=
  if closed s then (s, None)                       (* RuntimeError *)
  else if bool_decide (thread ∈ by_thread s) then (s, Some (OwnConnection thread))
  else if opens then (mkReaders (closed s) ({[thread]} ∪ by_thread s), Some (OwnConnection thread))
  else (s, Some MainConnection).
(** The connection's open transaction is committed, errors are ignored. *)
Definition close (f : Fault) (s : Readers) (c : Conn) : Readers * Conn := (mkReaders true (by_thread s), (sql_commit f c).1).

(** ** Statements without faults *)

Lemma run_done sts : forall f d, (run_statements sts f d).2 = true -> (run_statements sts f d).1 = foldl (fun d st => apply_rows st d) d sts.
Proof.
  induction sts as [|st sts IH]; intros f d; cbn [run_statements foldl]; [done|].
  destruct f as [|b [|s] r|]; try apply IH. destruct (_ <? _)%nat; [done|apply IH].
Qed.

Definition faulty (sizes : list nat) (f : Fault) : bool :=
  match f with NoFault => false | AtCommit => true | At _ s r => match sizes !! s with Some n => (r <? n)%nat | None => false end end.

Lemma run_stops sts : forall f d, (run_statements sts f d).2 = match f with At _ s r => negb (faulty (length <$> sts) f) | _ => true end.
Proof.
  induction sts as [|st sts IH]; intros f d; cbn [run_statements]; [by destruct f|].
  destruct f as [|b [|s] r|]; [by rewrite IH| |by rewrite IH|by rewrite IH].
  cbn [fmap list_fmap faulty lookup list_lookup]. destruct (r <? length st)%nat; [done|]. by rewrite IH.
Qed.

(** A statement of many rows is the change of all of them. *)
Lemma apply_puts {R} (f : R -> Db -> Db) (put : list R -> Db -> Db) :
  (forall d, put [] d = d) -> (forall r rows d, put rows (f r d) = put (r :: rows) d) ->
  forall rows d, apply_rows (f <$> rows) d = put rows d.
Proof.
  intros H0 H1 rows. induction rows as [|r rows IH]; intros d; [by rewrite H0|]. etransitivity; [apply IH|apply H1].
Qed.

Definition put_trades rows (d : Db) : Db := mkDb (t_trades d ++ rows) (t_books d) (t_signals d) (t_bars d) (t_latest d) (t_receipts d).
Definition put_books rows (d : Db) : Db := mkDb (t_trades d) (t_books d ++ rows) (t_signals d) (t_bars d) (t_latest d) (t_receipts d).
Definition put_signals rows (d : Db) : Db := mkDb (t_trades d) (t_books d) (t_signals d ++ rows) (t_bars d) (t_latest d) (t_receipts d).
Definition put_receipts rows (d : Db) : Db := mkDb (t_trades d) (t_books d) (t_signals d) (t_bars d) (t_latest d) (t_receipts d ++ rows).
Definition put_newest rows (d : Db) : Db :=
  mkDb (t_trades d) (t_books d) (t_signals d) (t_bars d) (foldl upsert_latest (t_latest d) rows) (t_receipts d).

Ltac put_rows := apply apply_puts; [intros []; unfold put_trades, put_books, put_signals, put_receipts, put_newest, Writer.upsert_bars; cbn;
  by rewrite ?app_nil_r|intros ???; unfold put_trades, put_books, put_signals, put_receipts, put_newest, Writer.upsert_bars; cbn;
  by rewrite <- ?app_assoc].

Lemma all_trades rows d : apply_rows (add_trade <$> rows) d = put_trades rows d.
Proof. revert rows d. put_rows. Qed.
Lemma all_books rows d : apply_rows (add_book <$> rows) d = put_books rows d.
Proof. revert rows d. put_rows. Qed.
Lemma all_signals rows d : apply_rows (add_signal <$> rows) d = put_signals rows d.
Proof. revert rows d. put_rows. Qed.
Lemma all_receipts rows d : apply_rows (add_receipt <$> rows) d = put_receipts rows d.
Proof. revert rows d. put_rows. Qed.
Lemma all_newest rows d : apply_rows (put_latest <$> rows) d = put_newest rows d.
Proof. revert rows d. put_rows. Qed.
Lemma all_bars rows d : apply_rows (add_bar <$> rows) d = Writer.upsert_bars rows d.
Proof. revert rows d. put_rows. Qed.

Lemma statements_apply b d : foldl (fun d st => apply_rows st d) d (batch_statements b) = apply_batch b d.
Proof.
  unfold batch_statements. cbn [foldl]. by rewrite all_receipts, all_trades, all_newest, all_books, all_signals, all_bars.
Qed.

(** With no transaction open, a batch on the connection is the transaction of
    [Writer]: whichever statement fails with an error of SQLite's, at whichever row, or the
    commit, all of it is rolled back and none is left open; without a fault all of it is
    committed. *)
Theorem batch_is_transaction b f c : open_tx c = None -> foreign f = false ->
  let o := if faulty (length <$> batch_statements b) f then RolledBack else Committed in
  write_batch b f c = (mkConn (Writer.write_batch b o (disk c)).1 None, (Writer.write_batch b o (disk c)).2).
Proof.
  intros Ho Hf o. destruct c as [d t]. cbn [open_tx] in Ho. subst t. unfold write_batch, Writer.write_batch, view. cbn [disk open_tx default].
  pose proof (run_done (batch_statements b) f d) as Hd. pose proof (run_stops (batch_statements b) f d) as Hs. rewrite statements_apply in Hd.
  destruct (run_statements (batch_statements b) f d) as [d' ok]. cbn [fst snd] in Hd, Hs. rewrite Hf.
  assert (Hend : (if ok then match f with AtCommit => (mkConn d None, Err SqlError) | _ => (mkConn d' None, Ok (rows_written b, bars_written b)) end
      else (mkConn d None, Err SqlError)) =
    (mkConn (if faulty (length <$> batch_statements b) f then d else apply_batch b d) None,
     if faulty (length <$> batch_statements b) f then Err SqlError else Ok (rows_written b, bars_written b))).
  { destruct f as [|b' st r|]; [subst ok; by rewrite (Hd eq_refl)| |by subst ok]. subst ok.
    destruct (faulty _ _); cbn [negb] in *; [done|]. by rewrite (Hd eq_refl). }
  destruct (b_trades b), (b_books b), (b_signals b), (b_bars b); try done;
    (destruct (batch_already_committed b d) as [[]|e]; [done|rewrite Hend; unfold o; by destruct (faulty _ _)|done]).
Qed.

(** ** A transaction left open *)

Definition write_batches (bs : list (StorageBatch * Fault)) (c : Conn) : Conn * list (result StorageError (Z * Z)) :=
  foldl (fun acc bf => let '(c, r) := write_batch bf.1 bf.2 acc.1 in (c, acc.2 ++ [r])) (c, []) bs.

Lemma blocked_batch b f c d : open_tx c = Some d -> expected b <> [] -> receipts_of (batch_id b) d = [] ->
  write_batch b f c = (c, Err SqlError).
Proof.
  intros Ho He Hr. unfold write_batch. rewrite (Storage.batch_not_empty b _ _ He).
  assert (view c = d) as -> by (unfold view; by rewrite Ho). unfold batch_already_committed. rewrite Ho, Hr. by destruct (expected b).
Qed.

Lemma fault_leaves_open {A} sts f (a : A) c : open_tx c = None ->
  match run_and_commit sts f a c with
  | (c', Ok _) => open_tx c' = None
  | (c', Err _) => disk c' = disk c /\ exists d, open_tx c' = Some d
  end.
Proof.
  intros Ho. unfold run_and_commit. destruct (run_statements sts f (view c)) as [d ok]. destruct ok; [|cbn; eauto].
  destruct f; cbn; eauto.
Qed.

(** An insert or a deletion that fails leaves the transaction open that Python began
    for it: from then on every batch with rows fails at its BEGIN, however often and
    whatever is tried, and the committed tables and the open transaction stay as they are,
    until some other statement commits, rows of the failed insert included. *)
Theorem failed_statement_blocks_batches {A} sts f (a : A) c bs : open_tx c = None ->
  (run_and_commit sts f a c).2 = Err SqlError ->
  let c' := (run_and_commit sts f a c).1 in
  Forall (fun bf => expected bf.1 <> [] /\ receipts_of (batch_id bf.1) (view c') = []) bs ->
  write_batches bs c' = (c', (fun _ => Err SqlError) <$> bs) /\ disk c' = disk c /\
  (forall R (g : R -> Db -> Db) rows, rows <> [] ->
     disk (many g rows NoFault c').1 = apply_rows (g <$> rows) (view c') /\ open_tx (many g rows NoFault c').1 = None).
Proof.
  intros Ho. pose proof (fault_leaves_open sts f a c Ho) as H. destruct (run_and_commit sts f a c) as [c' r]. cbn [fst snd].
  intros -> Hbs. destruct H as [Hd [d Hd']].
  split_and!; [|done|].
  - unfold write_batches. assert (forall acc, foldl (fun acc bf => let '(c, r) := write_batch bf.1 bf.2 acc.1 in (c, acc.2 ++ [r])) (c', acc) bs
      = (c', acc ++ ((fun _ => Err SqlError) <$> bs))) as G.
    { induction Hbs as [|[b fb] bs [Hb1 Hb2] _ IH]; intros acc; cbn [foldl fmap list_fmap]; [by rewrite app_nil_r|].
      cbn [fst snd] in *. assert (view c' = d) as Hv by (unfold view; by rewrite Hd'). rewrite Hv in Hb2. rewrite (blocked_batch b fb c' d Hd' Hb1 Hb2). cbn [fst snd].
      by rewrite IH, <- app_assoc. }
    apply (G []).
  - intros R g rows Hr. unfold many. destruct rows as [|r rows]; [done|]. unfold run_and_commit. split; reflexivity.
Qed.

(** ** The newest trade of each instrument *)

(** [l] is the newest trade of [k] among those of the history [h]. *)
Definition newest_of (h : list TradeRow) (k : pystr * pystr) (l : option Latest) : Prop :=
  match l with
  | Some x => exists r, r ∈ h /\ trade_key r = k /\ latest_of r = x /\ (forall r', r' ∈ h -> trade_key r' = k -> tr_ts r' <= tr_ts r)
  | None => forall r, r ∈ h -> trade_key r <> k
  end.
Definition latest_right (h : list TradeRow) (m : gmap (pystr * pystr) Latest) : Prop := forall k, newest_of h k (m !! k).

Lemma upsert_right h m r : latest_right h m -> latest_right (h ++ [r]) (upsert_latest m r).
Proof.
  intros H k. specialize (H k). unfold upsert_latest. change (tr_venue r, tr_symbol r) with (trade_key r).
  assert (forall l, newest_of h k l -> trade_key r <> k -> newest_of (h ++ [r]) k l) as Hother.
  { intros [x|] Hl Hne; cbn in *.
    - destruct Hl as (r0 & H1 & H2 & H3 & H4). exists r0. split_and!; try done; [apply elem_of_app; by left|].
      intros r' [Hr'|Hr']%elem_of_app Hk; [by apply H4|]. apply list_elem_of_singleton in Hr'. by subst.
    - intros r' [Hr'|Hr']%elem_of_app; [by apply Hl|]. apply list_elem_of_singleton in Hr'. by subst. }
  assert (forall l, newest_of h k l -> trade_key r = k -> match l with Some x => la_ts x <= tr_ts r | None => True end ->
    newest_of (h ++ [r]) k (Some (latest_of r))) as Hnew.
  { intros l Hl Hk Hts. exists r. split_and!; try done; [apply elem_of_app; right; by apply list_elem_of_singleton|].
    intros r' [Hr'|Hr']%elem_of_app Hk'; [|apply list_elem_of_singleton in Hr'; subst; lia]. destruct l as [x|]; cbn in Hl.
    - destruct Hl as (r0 & _ & _ & <- & H4). cbn in Hts. specialize (H4 r' Hr' Hk'). lia.
    - by destruct (Hl r' Hr'). }
  destruct (decide (trade_key r = k)) as [Hk|Hk].
  - subst k. destruct (m !! trade_key r) as [l|] eqn:El.
    + destruct (la_ts l <=? tr_ts r) eqn:Et; reflect_cmp.
      * rewrite lookup_insert_eq. by apply (Hnew (Some l)).
      * rewrite El. destruct H as (r0 & H1 & H2 & H3 & H4). subst l. exists r0. split_and!; try done; [apply elem_of_app; by left|].
        cbn in Et. intros r' [Hr'|Hr']%elem_of_app Hk'; [by apply H4|]. apply list_elem_of_singleton in Hr'. subst. lia.
    + rewrite lookup_insert_eq. by apply (Hnew None).
  - destruct (m !! trade_key r) as [l|]; [destruct (_ <=? _)|]; rewrite ?lookup_insert_ne by done; by apply Hother.
Qed.

Lemma upserts_right rows : forall h m, latest_right h m -> latest_right (h ++ rows) (foldl upsert_latest m rows).
Proof.
  induction rows as [|r rows IH]; intros h m H; cbn [foldl]; [by rewrite app_nil_r|].
  rewrite (app_assoc h [r] rows : h ++ r :: rows = _). apply IH. by apply upsert_right.
Qed.

(** A history may leave out what it has something as new for. *)
Lemma newest_more h h' k l : newest_of h k l -> (forall r, r ∈ h -> r ∈ h') ->
  (forall r', r' ∈ h' -> exists r, r ∈ h /\ trade_key r = trade_key r' /\ tr_ts r' <= tr_ts r) -> newest_of h' k l.
Proof.
  intros Hl Hsub Hdom. destruct l as [x|]; cbn in *.
  - destruct Hl as (r0 & H1 & H2 & H3 & H4). exists r0. split_and!; auto. intros r' Hr' Hk.
    destruct (Hdom r' Hr') as (r & Hr & E & Hts). specialize (H4 r Hr ltac:(congruence)). lia.
  - intros r' Hr' Hk. destruct (Hdom r' Hr') as (r & Hr & E & _). apply (Hl r Hr). congruence.
Qed.

(** [_latest_rows] keeps one of the newest trades of each instrument of the batch. *)
Lemma newest_kept ts : forall d,
  (forall k r, dget k d = Some r -> trade_key r = k) ->
  let d' := foldl newest_step d ts in
  (forall k r, dget k d' = Some r -> trade_key r = k) /\
  (forall k r, dget k d = Some r -> exists r', dget k d' = Some r' /\ tr_ts r <= tr_ts r') /\
  (forall r, r ∈ ts -> exists r', dget (trade_key r) d' = Some r' /\ tr_ts r <= tr_ts r').
Proof.
  induction ts as [|r ts IH]; intros d Hd; cbn [foldl].
  { cbn. split_and!; [done| |by intros ? ?%elem_of_nil]. intros k r' Hr. eexists. split; [done|lia]. }
  assert ((forall k r0, dget k (newest_step d r) = Some r0 -> trade_key r0 = k) /\
    (forall k r0, dget k d = Some r0 -> exists r', dget k (newest_step d r) = Some r' /\ tr_ts r0 <= tr_ts r') /\
    (exists r', dget (trade_key r) (newest_step d r) = Some r' /\ tr_ts r <= tr_ts r')) as (S1 & S2 & S3).
  { unfold newest_step. change (tr_venue r, tr_symbol r) with (trade_key r).
    assert (forall k r0, dget k (dset (trade_key r) r d) = Some r0 -> trade_key r0 = k) as Hset.
    { intros k r0. destruct (decide (k = trade_key r)) as [->|Hne]; [rewrite dget_dset_eq; by intros [= <-]|].
      rewrite dget_dset_ne by done. apply Hd. }
    assert (forall k r0, k <> trade_key r -> dget k d = Some r0 -> exists r', dget k (dset (trade_key r) r d) = Some r' /\ tr_ts r0 <= tr_ts r') as Hoth.
    { intros k r0 Hne Hr0. rewrite dget_dset_ne by done. eexists. split; [done|lia]. }
    destruct (dget (trade_key r) d) as [r1|] eqn:E1; [destruct (tr_ts r1 <? tr_ts r) eqn:Et; reflect_cmp|].
    - split_and!; [done| |rewrite dget_dset_eq; eexists; split; [done|lia]]. intros k r0 Hr0.
      destruct (decide (k = trade_key r)) as [->|Hne]; [|by apply Hoth]. rewrite dget_dset_eq. rewrite E1 in Hr0.
      injection Hr0 as <-. eexists. split; [done|lia].
    - split_and!; [done|intros k r0 Hr0; eexists; split; [done|lia]|]. rewrite E1. eexists. split; [done|lia].
    - split_and!; [done| |rewrite dget_dset_eq; eexists; split; [done|lia]]. intros k r0 Hr0.
      destruct (decide (k = trade_key r)) as [->|Hne]; [congruence|by apply Hoth]. }
  destruct (IH _ S1) as (I1 & I2 & I3). split_and!; [done| |].
  - intros k r0 Hr0. destruct (S2 k r0 Hr0) as (r1 & H1 & L1). destruct (I2 k r1 H1) as (r2 & H2 & L2). exists r2. split; [done|lia].
  - intros r0 [->|Hr0]%elem_of_cons; [|by apply I3]. destruct S3 as (r1 & H1 & L1). destruct (I2 _ _ H1) as (r2 & H2 & L2).
    exists r2. split; [done|lia].
Qed.

Lemma batch_right h m ts : latest_right h m -> latest_right (h ++ ts) (foldl upsert_latest m (latest_rows ts)).
Proof.
  intros H k. pose proof (upserts_right (latest_rows ts) h m H k) as Hk. eapply newest_more; [exact Hk| |].
  - intros r [Hr|Hr]%elem_of_app; apply elem_of_app; [by left|right].
    assert (Forall (fun r => r ∈ ts) (latest_rows ts)) as Hf by (apply Storage.latest_rows_from, Forall_forall; done).
    by apply (proj1 (Forall_forall _ _) Hf).
  - intros r' [Hr'|Hr']%elem_of_app.
    + exists r'. split_and!; [apply elem_of_app; by left|done|lia].
    + destruct (newest_kept ts [] ltac:(done)) as (K1 & _ & K3). destruct (K3 r' Hr') as (r & Hr & Hts).
      exists r. split_and!; [|by apply K1|done]. apply elem_of_app. right. unfold latest_rows. apply dget_In in Hr.
      apply list_elem_of_fmap. by exists (trade_key r', r).
Qed.

(** *** Rebuilding at start *)

Lemma max_ts_spec rows : rows <> [] -> (exists r, r ∈ rows /\ tr_ts r = max_ts rows) /\ forall r, r ∈ rows -> tr_ts r <= max_ts rows.
Proof.
  intros Hne. unfold max_ts. destruct rows as [|r0 rows]; [done|]. cbn [head fmap option_fmap option_map default]. clear Hne.
  assert (forall l z, (exists r, r ∈ r0 :: rows /\ tr_ts r = z) -> (forall r, r ∈ l -> r ∈ r0 :: rows) ->
    (exists r, r ∈ r0 :: rows /\ tr_ts r = foldr Z.max z (tr_ts <$> l)) /\
    z <= foldr Z.max z (tr_ts <$> l) /\ forall r, r ∈ l -> tr_ts r <= foldr Z.max z (tr_ts <$> l)) as G.
  { induction l as [|r l IH]; intros z Hz Hl; cbn [fmap list_fmap foldr].
    - split_and!; [done|lia|by intros ? ?%elem_of_nil].
    - destruct (IH z Hz ltac:(intros; by apply Hl, list_elem_of_further)) as ((r1 & H1 & E1) & H2 & H3). split_and!.
      + destruct (Z.max_spec (tr_ts r) (foldr Z.max z (tr_ts <$> l))) as [[_ ->]|[_ ->]]; [by exists r1|].
        exists r. split; [apply Hl, list_elem_of_here|done].
      + lia.
      + intros r' [->|Hr]%elem_of_cons; [lia|]. specialize (H3 r' Hr). lia. }
  destruct (G (r0 :: rows) (tr_ts r0)) as (G1 & _ & G3); [exists r0; split; [apply list_elem_of_here|done]|done|]. done.
Qed.

Lemma newest_rows_spec k h r : r ∈ newest_rows k h -> r ∈ h /\ trade_key r = k /\ forall r', r' ∈ h -> trade_key r' = k -> tr_ts r' <= tr_ts r.
Proof.
  unfold newest_rows. rewrite !list_elem_of_filter. intros (Hts & Hk & Hr). split_and!; try done. intros r' Hr' Hk'.
  rewrite Hts. apply max_ts_spec; [|by apply list_elem_of_filter]. intros E.
  assert (r ∈ filter (fun r => trade_key r = k) h) as Hin by by apply list_elem_of_filter. rewrite E in Hin. by apply elem_of_nil in Hin.
Qed.

Lemma newest_rows_some k h r : r ∈ h -> trade_key r = k -> newest_rows k h <> [].
Proof.
  intros Hr Hk E. unfold newest_rows in E. set (rows := filter _ h) in E.
  assert (r ∈ rows) as Hin by by apply list_elem_of_filter. destruct (max_ts_spec rows) as ((r1 & H1 & E1) & _).
  { intros E'. rewrite E' in Hin. by apply elem_of_nil in Hin. }
  assert (r1 ∈ filter (fun r => tr_ts r = max_ts rows) rows) as Hf by by apply list_elem_of_filter. rewrite E in Hf. by apply elem_of_nil in Hf.
Qed.

Lemma backfill_right pick d : t_latest d = ∅ -> latest_right (t_trades d) (t_latest (backfill_latest pick d)).
Proof.
  intros He k. unfold backfill_latest. rewrite (bool_decide_true _ He). cbn [t_latest]. set (h := t_trades d).
  set (newest := fun k => _). set (keys := remove_dups (trade_key <$> h)).
  assert (forall k kl, newest k = Some kl -> kl.1 = k /\ exists r, r ∈ newest_rows k h /\ kl.2 = latest_of r) as Hnew.
  { intros k' kl. unfold newest. rewrite fmap_Some. intros (r & Hr & ->). split; [done|]. exists r. split; [|done].
    by eapply list_elem_of_lookup_2. }
  assert (NoDup (omap newest keys).*1) as Hnd.
  { assert (forall l, (omap newest l).*1 `sublist_of` l) as Hsub.
    { induction l as [|k' l IH]; [done|]. cbn [omap list_omap]. destruct (newest k') as [kl|] eqn:E; [|by apply sublist_cons].
      destruct (Hnew _ _ E) as [<- _]. cbn [fmap list_fmap]. by apply sublist_skip. }
    eapply sublist_NoDup; [apply NoDup_remove_dups|apply Hsub]. }
  destruct (list_to_map (omap newest keys) !! k) as [x|] eqn:Ex.
  - apply elem_of_list_to_map_2, list_elem_of_omap in Ex as (k' & _ & E). destruct (Hnew _ _ E) as [Ek (r & Hr & El)]. cbn in Ek, El. subst k' x.
    destruct (newest_rows_spec k h r Hr) as (H1 & H2 & H3). by exists r.
  - intros r Hr Hk. apply not_elem_of_list_to_map_2 in Ex. apply Ex. clear Ex.
    pose proof (newest_rows_some k h r Hr Hk) as Hne.
    destruct (lookup_lt_is_Some_2 (newest_rows k h) (pick k mod length (newest_rows k h))) as [r1 Hr1].
    { apply Nat.mod_upper_bound. by destruct (newest_rows k h). }
    apply list_elem_of_fmap. exists (k, latest_of r1). split; [done|]. apply list_elem_of_omap. exists k. split.
    + apply elem_of_remove_dups, list_elem_of_fmap. by exists r.
    + unfold newest. fold h. by rewrite Hr1.
Qed.

(** *** Through the life of a database *)

(** What is done on the writing connection, each with its fault; [Reopen]: the process
    dies, or closes the storage ([closing] is the fault of that commit), and a new
    connection is opened, whose schema script and rebuilding may fail ([opened]). *)
Inductive Op :=
| Batch (b : StorageBatch) (f : Fault)
| Insert (rows : list TradeRow) (f : Fault)
| InsertBook (rows : list BookRow) (f : Fault)
| UpsertBars (rows : list BarRow) (f : Fault)
| InsertSignals (rows : list SignalRow) (f : Fault)
| DeleteOlder (scan : list nat) (cutoff limit : Z) (f : Fault)
| Reopen (closing : option Fault) (pick : pystr * pystr -> nat) (opened : bool).

Definition reopen (closing : option Fault) (pick : pystr * pystr -> nat) (opened : bool) (c : Conn) : Conn :=
  let c := match closing with Some f => (close f (mkReaders false ∅) c).2 | None => c end in
  mkConn (if opened then backfill_latest pick (disk c) else disk c) None.

Definition op_step (c : Conn) (op : Op) : Conn :=
  match op with
  | Batch b f => (write_batch b f c).1
  | Insert rows f => (insert_trades rows f c).1
  | InsertBook rows f => (insert_book rows f c).1
  | UpsertBars rows f => (upsert_bars rows f c).1
  | InsertSignals rows f => (insert_signals rows f c).1
  | DeleteOlder scan cutoff limit f => (execute (delete_trades scan cutoff limit) f c).1
  | Reopen closing pick opened => reopen closing pick opened c
  end.

(** The trades of an operation, and those of them it wrote and acknowledged: its answer is
    [Ok], and not because a receipt says that the batch is there already. *)
Definition presented (op : Op) : list TradeRow :=
  match op with Batch b _ => b_trades b | Insert rows _ => rows | _ => [] end.
Definition acked (c : Conn) (op : Op) : list TradeRow :=
  match op with
  | Batch b f =>
      match (write_batch b f c).2, batch_already_committed b (view c) with Ok _, Ok false => b_trades b | _, _ => [] end
  | Insert rows f => match (insert_trades rows f c).2 with Ok _ => rows | Err _ => [] end
  | _ => []
  end.
Fixpoint all_acked (c : Conn) (ops : list Op) : list TradeRow :=
  match ops with [] => [] | op :: ops => acked c op ++ all_acked (op_step c op) ops end.

(** An insert of trades that fails does so at its first row, and a batch that fails does so
    with an error of SQLite's.  Any fault may hit the other operations. *)
Definition whole (op : Op) : bool :=
  match op with
  | Insert rows f => match f with At _ 0 0 => true | _ => negb (faulty (length <$> [rows; latest_rows rows]) f) end
  | Batch _ f => negb (foreign f)
  | _ => true
  end.

(** Tables whose newest trades come from [P], are as new as those of [A], and whose
    trades are from [P]. *)
Record bounded (P A : list TradeRow) (d : Db) : Prop := mkBounded
  { bo_from : forall k x, t_latest d !! k = Some x -> exists r, r ∈ P /\ trade_key r = k /\ latest_of r = x;
    bo_over : forall r, r ∈ A -> exists x, t_latest d !! trade_key r = Some x /\ tr_ts r <= la_ts x;
    bo_rows : forall r, r ∈ t_trades d -> r ∈ P }.

Lemma bounded_more P P' A d : (forall r, r ∈ P -> r ∈ P') -> bounded P A d -> bounded P' A d.
Proof. intros H [H1 H2 H3]. split; [|done|auto]. intros k x Hx. destruct (H1 k x Hx) as (r & ? & ?). exists r. auto. Qed.

Lemma bounded_same P A d d' : t_latest d' = t_latest d -> (forall r, r ∈ t_trades d' -> r ∈ t_trades d) ->
  bounded P A d -> bounded P A d'.
Proof. intros El Ht [H1 H2 H3]. split; rewrite ?El; auto. Qed.

(** The newest trade of an instrument only moves forward. *)
Lemma upsert_forward m r k x : m !! k = Some x -> exists y, upsert_latest m r !! k = Some y /\ la_ts x <= la_ts y.
Proof.
  intros Hx. unfold upsert_latest. change (tr_venue r, tr_symbol r) with (trade_key r).
  assert (forall l, m !! trade_key r = Some l -> la_ts l <= tr_ts r ->
    exists y, <[trade_key r := latest_of r]> m !! k = Some y /\ la_ts x <= la_ts y) as Hset.
  { intros l Hl Hts. destruct (decide (k = trade_key r)) as [->|Hne].
    - rewrite lookup_insert_eq. eexists. split; [done|]. cbn. replace x with l by congruence. done.
    - rewrite lookup_insert_ne by done. eexists. split; [done|lia]. }
  destruct (m !! trade_key r) as [l|] eqn:El.
  - destruct (la_ts l <=? tr_ts r) eqn:Et; reflect_cmp; [by apply (Hset l)|eexists; split; [done|lia]].
  - rewrite lookup_insert_ne by congruence. eexists. split; [done|lia].
Qed.

Lemma upsert_own m r : exists y, upsert_latest m r !! trade_key r = Some y /\ tr_ts r <= la_ts y.
Proof.
  unfold upsert_latest. change (tr_venue r, tr_symbol r) with (trade_key r).
  destruct (m !! trade_key r) as [l|] eqn:El; [destruct (la_ts l <=? tr_ts r) eqn:Et; reflect_cmp|];
    rewrite ?lookup_insert_eq; eexists; (split; [done|cbn; lia]).
Qed.

Lemma upsert_from m r k y : upsert_latest m r !! k = Some y -> m !! k = Some y \/ k = trade_key r /\ y = latest_of r.
Proof.
  unfold upsert_latest. change (tr_venue r, tr_symbol r) with (trade_key r).
  destruct (decide (k = trade_key r)) as [->|Hne].
  - destruct (m !! trade_key r) as [l|] eqn:El; [destruct (_ <=? _)|]; rewrite ?lookup_insert_eq; intros [= <-]; auto.
  - destruct (m !! trade_key r) as [l|] eqn:El; [destruct (_ <=? _)|]; rewrite ?lookup_insert_ne by done; auto.
Qed.

Lemma bounded_put_latest P A r d : r ∈ P -> bounded P A d -> bounded P A (put_latest r d).
Proof.
  intros Hr [H1 H2 H3]. split; [| |done]; cbn [t_latest put_latest].
  - intros k x [Hx|[-> ->]]%upsert_from; [by apply H1|by exists r].
  - intros r0 Hr0. destruct (H2 r0 Hr0) as (x & Hx & Hts). destruct (upsert_forward _ r _ _ Hx) as (y & Hy & Hxy).
    exists y. split; [done|lia].
Qed.

Lemma bounded_add_trade P A r d : r ∈ P -> bounded P A d -> bounded P A (add_trade r d).
Proof.
  intros Hr [H1 H2 H3]. split; [done..|]. cbn [t_trades add_trade].
  intros r0 [?|Hr0]%elem_of_app; [auto|]. by apply list_elem_of_singleton in Hr0 as ->.
Qed.

(** What every step on the two sides of the connection keeps. *)
Definition both (Q : Db -> Prop) (c : Conn) : Prop := Q (disk c) /\ Q (view c).
Definition keeps (Q : Db -> Prop) (g : Db -> Db) : Prop := forall d, Q d -> Q (g d).
(** [Q] looks at the newest trades, and at the trades only to bound them. *)
Definition stable (Q : Db -> Prop) : Prop :=
  forall d d', t_latest d' = t_latest d -> (forall r, r ∈ t_trades d' -> r ∈ t_trades d) -> Q d -> Q d'.

Lemma keeps_rows Q st d : Forall (keeps Q) st -> Q d -> Q (apply_rows st d).
Proof. intros H. revert d. induction H as [|g st Hg _ IH]; intros d Hd; [done|]. apply IH, Hg, Hd. Qed.

Lemma keeps_statements Q sts : Forall (Forall (keeps Q)) sts -> forall f d, Q d -> Q (run_statements sts f d).1.
Proof.
  induction 1 as [|st sts Hst _ IH]; intros f d Hd; cbn [run_statements]; [done|].
  pose proof (keeps_rows Q st d Hst Hd) as Hall. destruct f as [|b [|s] r|]; try by apply IH.
  destruct (_ <? _)%nat; [|by apply IH]. apply keeps_rows; [by apply Forall_take|done].
Qed.

Lemma both_run {A} Q sts f (a : A) c : Forall (Forall (keeps Q)) sts -> both Q c -> both Q (run_and_commit sts f a c).1.
Proof.
  intros Hs [Hd Hv]. unfold run_and_commit. pose proof (keeps_statements Q sts Hs f (view c) Hv) as H.
  destruct (run_statements sts f (view c)) as [d ok]. cbn [fst] in H. destruct ok; [|done]. by destruct f.
Qed.

Lemma keeps_each {R} Q (g : R -> Db -> Db) rows : (forall r, r ∈ rows -> keeps Q (g r)) -> Forall (keeps Q) (g <$> rows).
Proof. intros H. apply Forall_fmap, Forall_forall. exact H. Qed.

Lemma both_many {R} Q (g : R -> Db -> Db) rows f c : (forall r, keeps Q (g r)) -> both Q c -> both Q (many g rows f c).1.
Proof.
  intros Hg Hc. unfold many. destruct rows; [done|]. apply both_run; [|done]. constructor; [|constructor]. by apply keeps_each.
Qed.

(** Every operation but the two that store trades. *)
Lemma both_quiet Q c op : stable Q -> (forall pick, keeps Q (backfill_latest pick)) ->
  match op with Batch _ _ | Insert _ _ => False | _ => True end -> both Q c -> both Q (op_step c op).
Proof.
  intros Hst Hb Hop Hc. destruct op as [| |rows f|rows f|rows f|scan cutoff limit f|closing pick opened]; [done|done|..]; cbn [op_step].
  1-3: by apply both_many; [intros r d; apply Hst|].
  - unfold execute. apply both_run; [|done]. constructor; [|constructor]. constructor; [|constructor]. intros d. apply Hst; [done|].
    intros r (i & _ & Hi)%list_elem_of_omap. destruct (bool_decide _); [done|]. by eapply list_elem_of_lookup_2.
  - unfold reopen. set (c' := match closing with Some f => _ | None => c end).
    assert (Q (disk c')) as Hd.
    { destruct Hc as [Hd Hv]. subst c'. destruct closing as [f|]; [|done]. unfold close, sql_commit. by destruct f. }
    unfold both, view. cbn [disk open_tx default]. destruct opened; [|done]. by split; apply Hb.
Qed.

(** How a batch can end, and what of it is acknowledged. *)
Lemma write_batch_ends b f c :
  let c' := op_step c (Batch b f) in let a := acked c (Batch b f) in
  (c' = c /\ a = []) \/ (c' = mkConn (disk c) None /\ a = []) \/
  (c' = mkConn (apply_batch b (disk c)) None /\ a = b_trades b) \/
  (foreign f = true /\ c' = mkConn (disk c) (Some (run_statements (batch_statements b) f (disk c)).1) /\ a = []).
Proof.
  cbn zeta. cbn [op_step acked].
  destruct (decide (b_trades b = [] /\ b_books b = [] /\ b_signals b = [] /\ b_bars b = [])) as [(H1 & H2 & H3 & H4)|Hne].
  { left. unfold write_batch. rewrite H1, H2, H3, H4. cbn. split; [done|]. by destruct (batch_already_committed b (view c)) as [[]|]. }
  assert (write_batch b f c = match batch_already_committed b (view c) with
    | Err e => (c, Err e)
    | Ok true => (c, Ok (rows_written b, bars_written b))
    | Ok false => match open_tx c with
        | Some _ => (c, Err SqlError)
        | None => let '(d, ok) := run_statements (batch_statements b) f (disk c) in
            if ok then match f with AtCommit => (mkConn (disk c) None, Err SqlError) | _ => (mkConn d None, Ok (rows_written b, bars_written b)) end
            else if foreign f then (mkConn (disk c) (Some d), Err SqlError) else (mkConn (disk c) None, Err SqlError)
        end
    end) as ->.
  { unfold write_batch. destruct (b_trades b), (b_books b), (b_signals b), (b_bars b); try done. by destruct Hne. }
  destruct (batch_already_committed b (view c)) as [[]|e]; [by left| |by left]. destruct (open_tx c); [by left|].
  pose proof (run_done (batch_statements b) f (disk c)) as Hd. rewrite statements_apply in Hd.
  destruct (run_statements (batch_statements b) f (disk c)) as [d ok]. cbn [fst snd] in *. destruct ok.
  - rewrite (Hd eq_refl). destruct f; cbn; auto 10.
  - destruct (foreign f) eqn:Ef; cbn; auto 10.
Qed.

(** The newest of a batch are as new as all of it. *)
Lemma upserts_forward rows : forall m k x, m !! k = Some x -> exists y, foldl upsert_latest m rows !! k = Some y /\ la_ts x <= la_ts y.
Proof.
  induction rows as [|r rows IH]; intros m k x Hx; cbn [foldl]; [eexists; split; [done|lia]|].
  destruct (upsert_forward m r k x Hx) as (y & Hy & L1). destruct (IH _ _ _ Hy) as (z & Hz & L2). exists z. split; [done|lia].
Qed.

Lemma upserts_own rows : forall m r, r ∈ rows -> exists y, foldl upsert_latest m rows !! trade_key r = Some y /\ tr_ts r <= la_ts y.
Proof.
  induction rows as [|r0 rows IH]; intros m r Hr; [by apply elem_of_nil in Hr|]. cbn [foldl].
  apply elem_of_cons in Hr as [->|Hr]; [|by apply IH]. destruct (upsert_own m r0) as (y & Hy & L1).
  destruct (upserts_forward rows _ _ _ Hy) as (z & Hz & L2). exists z. split; [done|lia].
Qed.

Lemma latest_over ts m r : r ∈ ts -> exists y, foldl upsert_latest m (latest_rows ts) !! trade_key r = Some y /\ tr_ts r <= la_ts y.
Proof.
  intros Hr. destruct (newest_kept ts [] ltac:(done)) as (K1 & _ & K3). destruct (K3 r Hr) as (r' & Hr' & L1).
  pose proof (K1 _ _ Hr') as Hk. destruct (upserts_own (latest_rows ts) m r') as (y & Hy & L2).
  { unfold latest_rows. apply dget_In in Hr'. apply list_elem_of_fmap. by exists (trade_key r, r'). }
  rewrite Hk in Hy. exists y. split; [done|lia].
Qed.

Lemma bounded_acked P A rows d m : bounded P A d -> t_latest d = foldl upsert_latest m (latest_rows rows) -> bounded P (A ++ rows) d.
Proof.
  intros [H1 H2 H3] El. split; [done| |done]. intros r [Hr|Hr]%elem_of_app; [by apply H2|]. rewrite El. by apply latest_over.
Qed.

Lemma latest_rows_in ts r : r ∈ latest_rows ts -> r ∈ ts.
Proof.
  assert (Forall (fun r => r ∈ ts) (latest_rows ts)) as Hf by (apply Storage.latest_rows_from, Forall_forall; done).
  apply (proj1 (Forall_forall _ _) Hf).
Qed.

Lemma stable_bounded P A : stable (bounded P A).
Proof. intros d d' El Ht. by apply bounded_same. Qed.

Lemma keeps_backfill P A pick : keeps (bounded P A) (backfill_latest pick).
Proof.
  intros d [H1 H2 H3]. unfold keeps. pose proof (backfill_right pick d) as Hr. unfold backfill_latest in *.
  case_bool_decide as He; [|by split]. specialize (Hr He). split; [| |done]; cbn [t_latest] in *.
  - intros k x Hx. specialize (Hr k). rewrite Hx in Hr. destruct Hr as (r & Hin & Hk & Hl & _). exists r. auto.
  - intros r Hin. destruct (H2 r Hin) as (x & Hx & _). by rewrite He, lookup_empty in Hx.
Qed.

Lemma keeps_inserts P A rows : (forall r, r ∈ rows -> r ∈ P) ->
  Forall (Forall (keeps (bounded P A))) [add_trade <$> rows; put_latest <$> latest_rows rows].
Proof.
  intros H. repeat constructor; apply keeps_each; intros r Hr d Hd.
  - by apply bounded_add_trade; auto.
  - by apply bounded_put_latest; auto using latest_rows_in.
Qed.

Lemma keeps_batch P A b : (forall r, r ∈ b_trades b -> r ∈ P) -> Forall (Forall (keeps (bounded P A))) (batch_statements b).
Proof.
  intros H. pose proof (keeps_inserts P A (b_trades b) H) as Hi. apply Forall_cons in Hi as [H1 [H2 _]%Forall_cons].
  repeat constructor; try done; apply keeps_each; intros r _ d; by apply stable_bounded.
Qed.

(** Inserts that answer [Ok] ran to the end and are committed. *)
Lemma insert_ok rows f c n : (insert_trades rows f c).2 = Ok n -> rows <> [] ->
  (insert_trades rows f c).1 = mkConn (put_newest (latest_rows rows) (put_trades rows (view c))) None.
Proof.
  unfold insert_trades. destruct rows as [|r rows]; [done|]. intros H _. unfold run_and_commit in *.
  pose proof (run_done [add_trade <$> r :: rows; put_latest <$> latest_rows (r :: rows)] f (view c)) as Hd.
  cbn [foldl] in Hd. rewrite all_trades, all_newest in Hd.
  destruct (run_statements _ f (view c)) as [d ok]. cbn [fst snd] in Hd. destruct ok; [|done]. rewrite (Hd eq_refl) in *.
  by destruct f.
Qed.

Lemma op_bounded P A c op : both (bounded P A) c -> (forall r, r ∈ presented op -> r ∈ P) ->
  both (bounded P (A ++ acked c op)) (op_step c op).
Proof.
  intros Hc Hp. destruct op as [b f|rows f| | | | |]; try by (cbn [acked]; rewrite app_nil_r;
    apply both_quiet; [apply stable_bounded|apply keeps_backfill|done|done]).
  - destruct Hc as [Hd Hv]. pose proof (keeps_batch P A b Hp) as Hk.
    destruct (write_batch_ends b f c) as [[-> ->]|[[-> ->]|[[-> ->]|(_ & -> & ->)]]]; rewrite ?app_nil_r.
    + done.
    + done.
    + assert (bounded P (A ++ b_trades b) (apply_batch b (disk c))); [|done].
      apply (bounded_acked _ _ _ _ (t_latest (disk c))); [|done]. rewrite <- statements_apply, <- (run_done _ NoFault).
      * by apply keeps_statements.
      * by rewrite run_stops.
    + split; [done|]. by apply keeps_statements.
  - cbn [acked op_step]. assert (both (bounded P A) (insert_trades rows f c).1) as H.
    { unfold insert_trades. destruct rows as [|r rows]; [done|]. apply both_run; [by apply keeps_inserts|done]. }
    destruct (insert_trades rows f c).2 as [n|] eqn:E; [|by rewrite app_nil_r].
    destruct (decide (rows = [])) as [->|Hne]; [by rewrite app_nil_r|].
    rewrite (insert_ok _ _ _ _ E Hne) in *. destruct H as [H _]. cbn [disk] in H.
    split; by apply (bounded_acked _ _ _ _ (t_latest (view c))).
Qed.

Lemma ops_bounded P ops : forall A c, both (bounded P A) c -> (forall r, r ∈ ops ≫= presented -> r ∈ P) ->
  both (bounded P (A ++ all_acked c ops)) (foldl op_step c ops).
Proof.
  induction ops as [|op ops IH]; intros A c Hc Hp; cbn [foldl all_acked]; [by rewrite app_nil_r|]. rewrite app_assoc.
  apply IH; [apply op_bounded; [done|]|]; intros r Hr; apply Hp; cbn [mbind list_bind]; apply elem_of_app; auto.
Qed.

(** *** Where no insert is torn *)

Definition db_right (h : list TradeRow) (d : Db) : Prop := latest_right h (t_latest d) /\ forall r, r ∈ t_trades d -> r ∈ h.

Lemma stable_right h : stable (db_right h).
Proof. intros d d' El Ht [H1 H2]. split; [by rewrite El|auto]. Qed.

Lemma keeps_right h pick : keeps (db_right h) (backfill_latest pick).
Proof.
  intros d H. unfold backfill_latest. case_bool_decide as He; [|done]. destruct H as [H1 H2]. rewrite He in H1.
  assert (t_trades d = []) as Ht.
  { destruct (t_trades d) as [|r rs] eqn:E; [done|]. exfalso. specialize (H1 (trade_key r)). rewrite lookup_empty in H1.
    apply (H1 r); [apply H2, list_elem_of_here|done]. }
  rewrite Ht. by split; [|intros ? ?%elem_of_nil].
Qed.

Lemma added_right h d d' ts : db_right h d -> t_trades d' = t_trades d ++ ts -> t_latest d' = foldl upsert_latest (t_latest d) (latest_rows ts) ->
  db_right (h ++ ts) d'.
Proof.
  intros [H1 H2] Et El. split; [rewrite El; by apply batch_right|].
  rewrite Et. intros r [Hr|Hr]%elem_of_app; apply elem_of_app; auto.
Qed.

(** A whole insert that fails has changed nothing. *)
Lemma insert_whole rows f c e : whole (Insert rows f) = true -> (insert_trades rows f c).2 = Err e ->
  (insert_trades rows f c).1 = mkConn (disk c) (Some (view c)).
Proof.
  unfold insert_trades. destruct rows as [|r rows]; [done|]. generalize (zlen (r :: rows)). intros n Hw. unfold run_and_commit.
  set (sts := [add_trade <$> r :: rows; put_latest <$> latest_rows (r :: rows)]).
  assert (faulty (length <$> sts) f = false \/ exists fo, f = At fo 0 0) as [Hf|[fo ->]]; [| |done].
  { assert ((length <$> sts) = length <$> [r :: rows; latest_rows (r :: rows)]) as ->.
    { subst sts. cbn [fmap list_fmap length]. by rewrite !length_fmap. }
    destruct f as [|fo [|st] [|r']|]; eauto; left; by apply negb_true_iff. }
  pose proof (run_stops sts f (view c)) as Hs. destruct (run_statements sts f (view c)) as [d ok]. cbn [snd] in Hs.
  assert (ok = true) as -> by (destruct f; rewrite ?Hf in Hs; by subst ok). by destruct f.
Qed.

Lemma op_right h c op : whole op = true -> both (db_right h) c -> both (db_right (h ++ acked c op)) (op_step c op).
Proof.
  intros Hw Hc. destruct op as [b f|rows f| | | | |]; try by (cbn [acked]; rewrite app_nil_r;
    apply both_quiet; [apply stable_right|apply keeps_right|done|done]).
  - cbn [whole] in Hw. destruct Hc as [Hd Hv].
    destruct (write_batch_ends b f c) as [[-> ->]|[[-> ->]|[[-> ->]|(Hf & _ & _)]]]; rewrite ?app_nil_r.
    + done.
    + done.
    + assert (db_right (h ++ b_trades b) (apply_batch b (disk c))); [|done]. by apply (added_right h (disk c)).
    + by rewrite Hf in Hw.
  - cbn [acked op_step]. destruct (insert_trades rows f c).2 as [n|] eqn:E.
    + destruct (decide (rows = [])) as [->|Hne]; [by rewrite app_nil_r|]. rewrite (insert_ok _ _ _ _ E Hne).
      destruct Hc as [_ Hv]. split; by apply (added_right h (view c)).
    + rewrite app_nil_r. rewrite (insert_whole _ _ _ _ Hw E). by split; apply Hc.
Qed.

Lemma ops_right ops : forall h c, forallb whole ops = true -> both (db_right h) c ->
  both (db_right (h ++ all_acked c ops)) (foldl op_step c ops).
Proof.
  induction ops as [|op ops IH]; intros h c Hw Hc; cbn [foldl all_acked]; [by rewrite app_nil_r|]. rewrite app_assoc.
  cbn [forallb] in Hw. apply andb_true_iff in Hw as [Hw1 Hw2]. by apply IH, op_right.
Qed.

(** *** Asking for one instrument *)

Lemma filter_key {A} (l : list ((pystr * pystr) * A)) k : NoDup l.*1 ->
  filter (fun r => r.1.1 = k.1 /\ r.1.2 = k.2) l = match dget k l with Some x => [(k, x)] | None => [] end.
Proof.
  induction l as [|[k' x] l IH]; intros Hnd; [done|]. cbn [fmap list_fmap] in Hnd. apply NoDup_cons in Hnd as [Hni Hnd].
  cbn [dget]. rewrite filter_cons. cbn [fst]. destruct k as [v s], k' as [v' s']. cbn [fst snd] in *.
  destruct (decide (v' = v /\ s' = s)) as [[-> ->]|Hne].
  - rewrite IH by done. case_decide; [|congruence]. by rewrite (proj2 (dget_None _ _) Hni).
  - case_decide as E; [injection E as -> ->; tauto|by apply IH].
Qed.

Lemma asked_one (upper : pystr -> pystr) v s limit d : v <> [] -> s <> [] -> upper v = v -> limit <> 0 ->
  latest upper limit (Some v) (Some s) d = match t_latest d !! (v, s) with Some l => [((v, s), l)] | None => [] end.
Proof.
  intros Hv Hs Hu Hl. unfold latest. rewrite (list_filter_iff _ (fun r => r.1.1 = (v, s).1 /\ r.1.2 = (v, s).2)).
  2:{ intros r. cbn [fmap option_fmap option_map]. rewrite Hu. unfold asked. by destruct v, s. }
  rewrite filter_key by apply NoDup_fst_map_to_list.
  assert (dget (v, s) (map_to_list (t_latest d)) = t_latest d !! (v, s)) as ->.
  { destruct (t_latest d !! (v, s)) as [l|] eqn:E.
    - apply dget_intro; [apply NoDup_fst_map_to_list|by apply elem_of_map_to_list].
    - apply dget_None. intros ([k x] & Ek & Hx)%list_elem_of_fmap. cbn in Ek. subst k. apply elem_of_map_to_list in Hx. congruence. }
  assert (forall l : list ((pystr * pystr) * Latest), (length l <= 1)%nat -> limit_rows limit l = l) as Hlim.
  { intros l Hle. unfold limit_rows. destruct (limit <? 0) eqn:E; [done|]. reflect_cmp. apply take_ge. lia. }
  destruct (t_latest d !! (v, s)); (rewrite Hlim; [reflexivity|]); rewrite (Permutation_length (merge_sort_Permutation _ _)); cbn; lia.
Qed.

(** C30: From the first start on, with the table rebuilt from the history if it is not
    there yet, and through inserts of trades, batches, inserts into the other tables,
    deletions of old trades, closings, crashes and restarts, each failing at any statement
    and row, with any exception, or at its commit: (1) what [latest] holds on disk for an
    instrument is a trade of it that was there or was presented; (2) it is at least as new
    as every trade that was there or that an insert or batch wrote and acknowledged; and
    (3) when no insert of trades fails after its first row and no batch ends in an
    exception that is not SQLite's, it is a newest of exactly those trades, nothing for
    other instruments, and every trade on disk is one of them.  (4) The row is what a query
    for the instrument gives, whatever its limit.  Without the condition of (3) a trade can
    be on disk that [latest] does not know, see [failed_statement_blocks_batches_witness]
    and [foreign_rows_without_latest]. *)
Theorem latest_is_newest upper pick d0 ops v s limit : t_latest d0 = ∅ -> v <> [] -> s <> [] -> upper v = v -> limit <> 0 ->
  let c1 := mkConn (backfill_latest pick d0) None in
  let d := disk (foldl op_step c1 ops) in
  let h := t_trades d0 ++ all_acked c1 ops in
  (forall k x, t_latest d !! k = Some x ->
     exists r, r ∈ t_trades d0 ++ (ops ≫= presented) /\ trade_key r = k /\ latest_of r = x) /\
  (forall r, r ∈ h -> exists x, t_latest d !! trade_key r = Some x /\ tr_ts r <= la_ts x) /\
  (forallb whole ops = true ->
     (forall k, newest_of h k (t_latest d !! k)) /\ forall r, r ∈ t_trades d -> r ∈ h) /\
  latest upper limit (Some v) (Some s) d = match t_latest d !! (v, s) with Some l => [((v, s), l)] | None => [] end.
Proof.
  intros He Hv Hs Hu Hl c1 d h.
  assert (db_right (t_trades d0) (backfill_latest pick d0)) as [R1 R2].
  { split; [by apply backfill_right|]. unfold backfill_latest. by rewrite (bool_decide_true _ He). }
  assert (bounded (t_trades d0 ++ (ops ≫= presented)) (t_trades d0) (backfill_latest pick d0)) as Hb.
  { split.
    - intros k x Hx. specialize (R1 k). rewrite Hx in R1. destruct R1 as (r & Hr & Hk & El & _). exists r.
      split; [apply elem_of_app; by left|done].
    - intros r Hr. specialize (R1 (trade_key r)). destruct (t_latest (backfill_latest pick d0) !! trade_key r) as [x|]; cbn in R1.
      + destruct R1 as (r1 & _ & _ & <- & Hmax). eexists. split; [done|]. by apply Hmax.
      + by destruct (R1 r).
    - intros r Hr. apply elem_of_app. auto. }
  destruct (ops_bounded _ ops (t_trades d0) c1 (conj Hb Hb)) as [[B1 B2 _] _]; [intros r Hr; apply elem_of_app; by right|].
  split; [exact B1|]. split; [exact B2|]. split; [|by apply asked_one]. intros Hw.
  exact (proj1 (ops_right ops (t_trades d0) c1 Hw (conj (conj R1 R2) (conj R1 R2)))).
Qed.

(** The bars asked for are the newest, newest first, and as many as there are. *)
Theorem bars_are_newest v s limit d : 0 <= limit ->
  exists rest, bars v s limit d ++ rest ≡ₚ bars_of v s d /\ StronglySorted newer_bar (bars v s limit d ++ rest) /\
    length (bars v s limit d) = (Z.to_nat limit `min` length (bars_of v s d))%nat.
Proof.
  intros Hl. unfold bars, limit_rows. destruct (limit <? 0) eqn:E; reflect_cmp; [lia|].
  set (l := merge_sort newer_bar (bars_of v s d)). exists (drop (Z.to_nat limit) l). rewrite take_drop. split_and!.
  - apply merge_sort_Permutation.
  - apply StronglySorted_merge_sort; unfold newer_bar; [intros a b c|intros a b]; lia.
  - rewrite length_take. unfold l. by rewrite (Permutation_length (merge_sort_Permutation newer_bar (bars_of v s d))).
Qed.

(** ** Witnesses and examples *)

Definition demo_row (ts qty : Z) : TradeRow := mkTradeRow ts (lit "U") (lit "A") (of_int 10) (of_int qty) 1 ts 5 0.
Definition demo_batch (i : nat) (rows : list TradeRow) : StorageBatch := mkBatch i (lit "d") rows [] [] [].
Definition empty_conn : Conn := mkConn new_db None.

Lemma batch_is_transaction_witness :
  write_batch (demo_batch 0 [demo_row 1 1; demo_row 2 1]) (At false 1 1) empty_conn =
    (mkConn (Writer.write_batch (demo_batch 0 [demo_row 1 1; demo_row 2 1]) RolledBack new_db).1 None,
     (Writer.write_batch (demo_batch 0 [demo_row 1 1; demo_row 2 1]) RolledBack new_db).2).
Proof. exact (batch_is_transaction (demo_batch 0 [demo_row 1 1; demo_row 2 1]) (At false 1 1) empty_conn eq_refl eq_refl). Defined.

(** An insert whose second row fails; the batches after it; and a quote that is written
    later, with which the first row of the failed insert is committed, without being
    the instrument's newest trade. *)
Definition torn_insert : list Statement := [add_trade <$> [demo_row 1 1; demo_row 2 1]; put_latest <$> [demo_row 2 1]].
Lemma failed_statement_blocks_batches_witness :
  let c := (run_and_commit torn_insert (At false 0 1) 2 empty_conn).1 in
  (write_batches [(demo_batch 0 [demo_row 3 1], NoFault); (demo_batch 0 [demo_row 3 1], NoFault)] c = (c, [Err SqlError; Err SqlError])) /\
  (let c' := (insert_book [mkBookRow 4 (lit "U") (lit "A") (of_int 1) (of_int 1) (of_int 2) (of_int 1) (of_int 3)] NoFault c).1 in
   tr_ts <$> t_trades (disk c') = [1] /\ t_latest (disk c') !! (lit "U", lit "A") = None).
Proof.
  intros c. split; [|by vm_compute].
  refine (proj1 (failed_statement_blocks_batches torn_insert (At false 0 1) 2 empty_conn
    [(demo_batch 0 [demo_row 3 1], NoFault); (demo_batch 0 [demo_row 3 1], NoFault)] _ _ _)).
  - reflexivity.
  - by vm_compute.
  - apply (bool_decide_unpack _). by vm_compute.
Defined.

(** An exception that is not SQLite's passes the rollback by: the receipts of the open
    transaction make the next attempt answer that the batch is written, and it is not. *)
Example foreign_exception_forgets_batch :
  let b := demo_batch 0 [demo_row 1 1; demo_row 2 1] in
  let '(c, r) := write_batch b (At true 1 1) empty_conn in
  let '(c', r') := write_batch b NoFault c in
  r = Err SqlError /\ r' = Ok (2, 0) /\ length (t_trades (disk c')) = 0%nat.
Proof. by vm_compute. Qed.

(** The same ending, and another statement's commit: a trade is on disk, and no newest. *)
Example foreign_rows_without_latest :
  let c := op_step empty_conn (Batch (demo_batch 0 [demo_row 1 1; demo_row 2 1]) (At true 1 1)) in
  let c' := op_step c (DeleteOlder [] 0 1 NoFault) in
  tr_ts <$> t_trades (disk c') = [1] /\ t_latest (disk c') !! (lit "U", lit "A") = None.
Proof. by vm_compute. Qed.

(** A history without the table, a late trade, a batch that is rolled back, a deletion
    whose commit fails, so that the next batch is refused, an insert that commits both,
    a crash and a restart. *)
Definition demo_ops : list Op :=
  [Insert [demo_row 40 3; demo_row 90 4] NoFault; Batch (demo_batch 1 [demo_row 70 5]) NoFault;
   Batch (demo_batch 2 [demo_row 95 5]) (At false 2 0); DeleteOlder [0; 1; 2; 3]%nat 80 2 AtCommit;
   Batch (demo_batch 2 [demo_row 95 5]) NoFault; Insert [demo_row 80 7] NoFault;
   InsertBook [mkBookRow 4 (lit "U") (lit "A") (of_int 1) (of_int 1) (of_int 2) (of_int 1) (of_int 3)] (At true 0 0);
   Reopen None (fun _ => O) true].
Definition old_db : Db := mkDb [demo_row 50 1; demo_row 60 2] [] [] ∅ ∅ [].

Lemma latest_is_newest_witness :
  let c1 := mkConn (backfill_latest (fun _ => O) old_db) None in
  let d := disk (foldl op_step c1 demo_ops) in
  newest_of (t_trades old_db ++ all_acked c1 demo_ops) (lit "U", lit "A") (t_latest d !! (lit "U", lit "A")) /\
  (la_ts <$> t_latest d !! (lit "U", lit "A")) = Some 90 /\ (tr_ts <$> t_trades d) = [40; 90; 70; 80].
Proof.
  intros c1 d. split; [|by vm_compute].
  refine (proj1 (proj1 (proj2 (proj2 (latest_is_newest (fun s => s) (fun _ => O) old_db demo_ops (lit "U") (lit "A") 1 _ _ _ _ _))) _) (lit "U", lit "A"));
    [done..|by vm_compute].
Defined.
End Sqlite.
