(* ===== verification/StoreOpen.v ===== *)
(** * Choosing and opening a store (src/src/mdfeed/storage/db.py, [validate_storage_config],
    [validate_runtime_schema], [open_storage])

    What the configuration must say, what the PostgreSQL server must have, and what becomes
    of the connection when something is missing.  The server's answers, and how far SQLite
    gets with its file, are arguments. *)

From S2P Require Import Prelude PyStr Url.

#[local] Open Scope Z_scope.

Module StoreOpen.
Import Url.Url.

(** ** The configuration *)

Record Cfg := mkCfg { storage_backend : pystr; storage_profile : pystr; pg_dsn : pystr; sqlite_path : pystr }.

Inductive ConfigError :=
| UrlRequired | SslMode | SslRootCert | Profile | SqliteProfile | SqlitePath | Backend      (* the configuration *)
| BadUrl                                                                                  (* [urlsplit] raises *)
| NoRole | MissingRelations (names : list pystr) | MissingPrivileges (names : list (pystr * pystr)).

(** [dsn.split()]. *)
Fixpoint split_words (cur s : pystr) : list pystr :=
  match s with
  | [] => if bool_decide (cur = []) then [] else [cur]
  | c :: s =>
      if is_space c then (if bool_decide (cur = []) then split_words [] s else cur :: split_words [] s)
      else split_words (cur ++ [c]) s
  end.
(** [item.partition("=")] with its separator found. *)
Definition key_value (item : pystr) : option (pystr * pystr) :=
  match break_at (Z.eqb 61) item with (k, _ :: v) => Some (k, v) | (_, []) => None end.
Definition last_wins (kvs : list (pystr * pystr)) : gmap pystr pystr := foldl (fun m kv => <[kv.1 := kv.2]> m) ∅ kvs.

Section config.
(** [urlsplit] refuses some host parts. *)
Variable netloc_ok : pystr -> bool.

Definition dsn_parts (dsn : pystr) : result ConfigError (gmap pystr pystr) :=
  match find_sub (lit "://") dsn with
  | Some _ =>
      match urlparse netloc_ok dsn with
      | Some (_, query) => Ok (last_wins (parse_qsl query))
      | None => Err BadUrl
      end
  | None => Ok (last_wins (omap key_value (split_words [] dsn)))
  end.

Definition validate_storage_config (cfg : Cfg) : result ConfigError unit :=
  let backend := lower (storage_backend cfg) in
  let profile := lower (storage_profile cfg) in
  if bool_decide (backend = lit "postgres") then
    guard! negb (bool_decide (pg_dsn cfg = [])) else UrlRequired in
    if bool_decide (profile = lit "production") then
      let! parts := dsn_parts (pg_dsn cfg) in
      guard! bool_decide (parts !! lit "sslmode" = Some (lit "verify-full")) else SslMode in
      guard! negb (bool_decide (default [] (parts !! lit "sslrootcert") = [])) else SslRootCert in
      Ok tt
    else guard! bool_decide (profile = lit "test") else Profile in Ok tt
  else if bool_decide (backend = lit "sqlite") then
    guard! bool_decide (profile = lit "test") else SqliteProfile in
    guard! negb (bool_decide (sqlite_path cfg = [])) else SqlitePath in
    Ok tt
  else Err Backend.

(** ** The server *)

Definition PG_RUNTIME_TABLE_PRIVILEGES : list (pystr * list pystr) :=
  (fun tp : string * list string => (lit tp.1, lit <$> tp.2)) <$>
  [("venues", ["SELECT"]); ("instruments", ["SELECT"]);
   ("trades", ["SELECT"; "INSERT"; "UPDATE"; "DELETE"]); ("book_top", ["SELECT"; "INSERT"; "UPDATE"; "DELETE"]);
   ("bars_1m", ["SELECT"; "INSERT"; "UPDATE"; "DELETE"]); ("signals", ["SELECT"; "INSERT"; "UPDATE"; "DELETE"]);
   ("feed_stats", ["SELECT"; "INSERT"; "UPDATE"; "DELETE"]); ("latest", ["SELECT"; "INSERT"; "UPDATE"; "DELETE"]);
   ("quality_events", ["SELECT"; "INSERT"; "UPDATE"; "DELETE"]); ("ingest_batch_receipts", ["SELECT"; "INSERT"]);
   ("data_gaps", ["SELECT"; "INSERT"; "UPDATE"]); ("migration_runs", ["SELECT"]); ("migration_checkpoints", ["SELECT"]);
   ("backup_restore_receipts", ["SELECT"]); ("archive_remote_receipts", ["SELECT"]);
   ("authoritative_gap_coverages", ["SELECT"]); ("gap_recovery_receipts", ["SELECT"])]%string.
Definition PG_REQUIRED_TABLES : list pystr := PG_RUNTIME_TABLE_PRIVILEGES.*1.
Definition PG_REQUIRED_VIEWS : list pystr := lit <$> ["v_latest"; "v_daily_ohlcv"; "v_spread_hourly"; "v_feed_gaps"]%string.
Definition PG_RUNTIME_VIEW_PRIVILEGES : list (pystr * list pystr) := (fun v => (v, [lit "SELECT"])) <$> PG_REQUIRED_VIEWS.

(** [role]: the current schema, which may be NULL, and user; [relkind]: pg_class's kind of a
    relation of a schema; [granted]: [has_table_privilege(user, schema.relation, privilege)]. *)
Record Server := mkServer
  { has_driver : bool; connects : bool; role : option (option pystr * pystr);
    relkind : pystr -> pystr -> option pystr; granted : pystr -> pystr -> pystr -> bool;
    answers_queries : bool;                     (** no query that is made raises *)
    schema_script : bool }.                     (** [ensure_schema]'s script runs *)

Definition missing_privileges (srv : Server) (user schema : pystr) (wanted : list (pystr * list pystr)) : list (pystr * pystr) :=
  tp ← wanted; p ← tp.2; if granted srv user (schema ++ lit "." ++ tp.1) p then [] else [(tp.1, p)].

Definition validate_runtime_schema (srv : Server) : result ConfigError unit :=
  match role srv with
  | None => Err NoRole
  | Some (schema_name, user_name) =>
      let schema := default (lit "public") schema_name in
      let has kinds name := bool_decide (default [] (relkind srv schema name) ∈ kinds) in
      let missing_tables := filter (fun t => has [lit "r"; lit "p"] t = false) PG_REQUIRED_TABLES in
      let missing_views := filter (fun v => has [lit "v"; lit "m"] v = false) PG_REQUIRED_VIEWS in
      let missing := missing_tables ++ missing_views in
      guard! bool_decide (missing = []) else MissingRelations missing in
      let lacking := missing_privileges srv user_name schema PG_RUNTIME_TABLE_PRIVILEGES ++
                     missing_privileges srv user_name schema PG_RUNTIME_VIEW_PRIVILEGES in
      guard! bool_decide (lacking = []) else MissingPrivileges lacking in
      Ok tt
  end.

(** ** Opening *)

(** How far [SQLiteStorage(path)] and [ensure_schema] get: the directory or the connection
    cannot be made, a PRAGMA on the new connection raises, or the schema script, its
    commit or the rebuilding of the newest trades does. *)
Inductive SqliteFile := FileOpens | NotConnected | PragmaRaises | SchemaRaises.

Inductive Store := PostgresStore | SqliteStore.
(** [Uncaught]: what SQLite or the file system raised passes through as it is. *)
Inductive OpenError := Configuration (e : ConfigError) | Unavailable | Uncaught.
(** The answer, and whether a connection was made that nothing has closed. *)
Record Opened := mkOpened { answer : result OpenError Store; connection : bool }.

Definition open_storage (cfg : Cfg) (srv : Server) (file : SqliteFile) : Opened :=
  match validate_storage_config cfg with
  | Err e => mkOpened (Err (Configuration e)) false
  | Ok _ =>
      if bool_decide (lower (storage_backend cfg) = lit "postgres") then
        if negb (has_driver srv) then mkOpened (Err Unavailable) false
        else if negb (connects srv) then mkOpened (Err Unavailable) false
        else if bool_decide (lower (storage_profile cfg) = lit "test") then
          if schema_script srv then mkOpened (Ok PostgresStore) true
          else mkOpened (Err Unavailable) false                                 (* pg_store.close() *)
        else if negb (answers_queries srv) then mkOpened (Err Unavailable) false  (* pg_store.close() *)
        else
          match validate_runtime_schema srv with
          | Ok _ => mkOpened (Ok PostgresStore) true
          | Err e => mkOpened (Err (Configuration e)) false                     (* pg_store.close() *)
          end
      else if bool_decide (lower (storage_backend cfg) = lit "sqlite") then
        match file with
        | FileOpens => mkOpened (Ok SqliteStore) true
        | NotConnected => mkOpened (Err Uncaught) false
        | PragmaRaises | SchemaRaises => mkOpened (Err Uncaught) true             (* nobody closes it *)
        end
      else mkOpened (Err (Configuration Backend)) false
  end.
End config.

(** ** What an open store means *)

Section opened.
Variable netloc_ok : pystr -> bool.
Abbreviation open_storage := (open_storage netloc_ok).

Lemma missing_privileges_nil srv user schema wanted : missing_privileges srv user schema wanted = [] <->
  (forall t ps p, (t, ps) ∈ wanted -> p ∈ ps -> granted srv user (schema ++ lit "." ++ t) p = true).
Proof.
  unfold missing_privileges. split.
  - intros H t ps p Ht Hp. destruct (granted _ _ _ _) eqn:E; [done|]. exfalso.
    assert ((t, p) ∈ (wanted ≫= (fun tp => tp.2 ≫= fun p => if granted srv user (schema ++ lit "." ++ tp.1) p then [] else [(tp.1, p)]))) as Hin.
    { apply list_elem_of_bind. exists (t, ps). split; [|done]. apply list_elem_of_bind. exists p. split; [|done]. cbn [fst].
      rewrite E. apply list_elem_of_here. }
    rewrite H in Hin. by apply elem_of_nil in Hin.
  - intros H. destruct (_ ≫= _) as [|x l] eqn:E; [done|]. exfalso.
    assert (x ∈ x :: l) as Hin by apply list_elem_of_here. rewrite <- E in Hin.
    apply list_elem_of_bind in Hin as ([t ps] & Hx & Ht). apply list_elem_of_bind in Hx as (p & Hx & Hp). cbn [fst snd] in *.
    rewrite (H t ps p Ht Hp) in Hx. by apply elem_of_nil in Hx.
Qed.

(** What the server must have: the relations, of the right kind, and the rights on them. *)
Record ready (srv : Server) (schema user : pystr) : Prop := mkReady
  { rd_tables : forall t, t ∈ PG_REQUIRED_TABLES -> default [] (relkind srv schema t) ∈ [lit "r"; lit "p"];
    rd_views : forall v, v ∈ PG_REQUIRED_VIEWS -> default [] (relkind srv schema v) ∈ [lit "v"; lit "m"];
    rd_rights : forall t ps p, (t, ps) ∈ PG_RUNTIME_TABLE_PRIVILEGES ++ PG_RUNTIME_VIEW_PRIVILEGES -> p ∈ ps ->
      granted srv user (schema ++ lit "." ++ t) p = true }.

Lemma filter_none {A} (P : A -> Prop) `{forall x, Decision (P x)} l : filter P l = [] <-> forall x, x ∈ l -> ~ P x.
Proof.
  split.
  - intros E x Hx Hp. assert (x ∈ filter P l) as Hf by by apply list_elem_of_filter. rewrite E in Hf. by apply elem_of_nil in Hf.
  - intros Hn. destruct (filter P l) as [|x k] eqn:E; [done|]. exfalso. assert (x ∈ filter P l) as Hf by (rewrite E; apply list_elem_of_here).
    apply list_elem_of_filter in Hf as [Hp Hx]. by apply (Hn x).
Qed.

Lemma validate_ready srv : validate_runtime_schema srv = Ok tt <->
  exists schema user, role srv = Some (schema, user) /\ ready srv (default (lit "public") schema) user.
Proof.
  unfold validate_runtime_schema. destruct (role srv) as [[schema user]|]; [|split; [done|by intros (? & ? & ? & _)]].
  set (sc := default (lit "public") schema). split.
  - case_bool_decide as Hm; [|done]. case_bool_decide as Hl; [|done]. intros _. exists schema, user. split; [done|].
    apply app_eq_nil in Hm as [Ht Hv]. apply app_eq_nil in Hl as [Hlt Hlv].
    rewrite filter_none in Ht. rewrite filter_none in Hv. rewrite missing_privileges_nil in Hlt. rewrite missing_privileges_nil in Hlv. split.
    + intros t Hin. specialize (Ht t Hin). apply not_false_iff_true, bool_decide_eq_true in Ht. done.
    + intros t Hin. specialize (Hv t Hin). apply not_false_iff_true, bool_decide_eq_true in Hv. done.
    + intros t ps p [Hin|Hin]%elem_of_app; eauto.
  - intros (schema' & user' & [= <- <-] & Hr). destruct Hr as [Ht Hv Hp]. rewrite bool_decide_true.
    + rewrite bool_decide_true; [done|]. apply app_nil. rewrite !missing_privileges_nil.
      split; intros t ps p Hin; apply Hp, elem_of_app; auto.
    + apply app_nil. rewrite !filter_none. split; intros t Hin; apply not_false_iff_true, bool_decide_eq_true; auto.
Qed.

(** The configuration of production, as the code reads the address: what [libpq] makes of
    it is not said here, see [quoted_value_passes_for_settings]. *)
Definition secured (cfg : Cfg) : Prop :=
  pg_dsn cfg <> [] /\ exists parts, dsn_parts netloc_ok (pg_dsn cfg) = Ok parts /\
    parts !! lit "sslmode" = Some (lit "verify-full") /\ default [] (parts !! lit "sslrootcert") <> [].

Lemma production_validated cfg : lower (storage_backend cfg) = lit "postgres" -> lower (storage_profile cfg) = lit "production" ->
  validate_storage_config netloc_ok cfg = Ok tt <-> secured cfg.
Proof.
  intros Hb Hp. unfold validate_storage_config, secured. rewrite Hb, Hp. rewrite !(bool_decide_true _ eq_refl).
  destruct (decide (pg_dsn cfg = [])) as [E|E]; [rewrite (bool_decide_true _ E); by split; [|intros [? _]]|].
  rewrite (bool_decide_false _ E). cbn [negb]. destruct (dsn_parts netloc_ok (pg_dsn cfg)) as [parts|e]; cbn [rbind].
  - case_bool_decide as Hm; [case_bool_decide as Hc; cbn [negb]|]; split; try done.
    + by intros (_ & ? & [= <-] & _ & ?).
    + intros _. split; [done|]. by exists parts.
    + by intros (_ & ? & [= <-] & ? & _).
  - split; [done|]. by intros (_ & ? & ? & _).
Qed.

Lemma sqlite_validated cfg : lower (storage_backend cfg) = lit "sqlite" ->
  validate_storage_config netloc_ok cfg = Ok tt <-> lower (storage_profile cfg) = lit "test" /\ sqlite_path cfg <> [].
Proof.
  intros Hb. unfold validate_storage_config. rewrite Hb.
  rewrite (bool_decide_false (lit "sqlite" = lit "postgres")) by done. rewrite (bool_decide_true _ eq_refl).
  case_bool_decide as Hp; cbn; [|split; [done|by intros [? _]]].
  case_bool_decide as Hs; cbn; [split; [done|by intros [_ ?]]|done].
Qed.

Lemma sqlite_opens cfg srv file : answer (open_storage cfg srv file) = Ok SqliteStore <->
  lower (storage_backend cfg) = lit "sqlite" /\ lower (storage_profile cfg) = lit "test" /\ sqlite_path cfg <> [] /\ file = FileOpens.
Proof.
  unfold StoreOpen.open_storage. destruct (decide (lower (storage_backend cfg) = lit "sqlite")) as [Hb|Hb].
  - pose proof (sqlite_validated cfg Hb) as Hv. rewrite Hb, (bool_decide_false (lit "sqlite" = lit "postgres")) by done.
    rewrite (bool_decide_true _ eq_refl). destruct (validate_storage_config netloc_ok cfg) as [[]|e].
    + destruct (proj1 Hv eq_refl). destruct file; cbn; split; try done; by intros (_ & _ & _ & ?).
    + cbn. split; [done|]. intros (_ & Ht & Hs & _). discriminate (proj2 Hv (conj Ht Hs)).
  - split; [|by intros [? _]]. rewrite (bool_decide_false _ Hb). repeat (case_match; try done).
Qed.

Lemma connection_left cfg srv file : connection (open_storage cfg srv file) = true <->
  (exists st, answer (open_storage cfg srv file) = Ok st) \/
  lower (storage_backend cfg) = lit "sqlite" /\ lower (storage_profile cfg) = lit "test" /\ sqlite_path cfg <> [] /\
  (file = PragmaRaises \/ file = SchemaRaises).
Proof.
  unfold StoreOpen.open_storage. destruct (decide (lower (storage_backend cfg) = lit "sqlite")) as [Hb|Hb].
  - pose proof (sqlite_validated cfg Hb) as Hv. rewrite Hb, (bool_decide_false (lit "sqlite" = lit "postgres")) by done.
    rewrite (bool_decide_true _ eq_refl). destruct (validate_storage_config netloc_ok cfg) as [[]|e].
    + destruct (proj1 Hv eq_refl) as [Ht Hs]. destruct file; cbn [answer connection].
      * split; [intros _; left; by exists SqliteStore|done].
      * split; [done|]. by intros [[? [=]]|(_ & _ & _ & [[=]|[=]])].
      * split; [intros _; right; auto|done].
      * split; [intros _; right; auto|done].
    + cbn. split; [done|]. intros [[? ?]|(_ & Ht & Hs & _)]; [done|]. discriminate (proj2 Hv (conj Ht Hs)).
  - rewrite (bool_decide_false _ Hb).
    split; [intros H; left; revert H|intros [[st H]|[? _]]; [revert H|done]]; repeat (case_match; try done); eauto.
Qed.

(** C31: In production a store opens exactly when it is PostgreSQL, the settings that the
    code reads in the address are [sslmode=verify-full] and a root certificate, the server
    answers, and it has every table and view, of the right kind, with every right the
    services use.  SQLite opens exactly for tests, with a path whose file and schema can be
    used.  A connection that was made is closed again when the opening fails, except
    SQLite's, which stays when a PRAGMA or the schema step raises. *)
Theorem production_store_checked cfg srv file :
  (lower (storage_profile cfg) = lit "production" ->
     ((exists st, answer (open_storage cfg srv file) = Ok st) <->
      lower (storage_backend cfg) = lit "postgres" /\ secured cfg /\
      has_driver srv = true /\ connects srv = true /\ answers_queries srv = true /\
      exists schema user, role srv = Some (schema, user) /\ ready srv (default (lit "public") schema) user)) /\
  (answer (open_storage cfg srv file) = Ok SqliteStore <->
     lower (storage_backend cfg) = lit "sqlite" /\ lower (storage_profile cfg) = lit "test" /\
     sqlite_path cfg <> [] /\ file = FileOpens) /\
  (connection (open_storage cfg srv file) = true <->
     (exists st, answer (open_storage cfg srv file) = Ok st) \/
     lower (storage_backend cfg) = lit "sqlite" /\ lower (storage_profile cfg) = lit "test" /\
     sqlite_path cfg <> [] /\ (file = PragmaRaises \/ file = SchemaRaises)).
Proof.
  split; [|split].
  - intros Hp. unfold StoreOpen.open_storage. destruct (decide (lower (storage_backend cfg) = lit "postgres")) as [Hb|Hb].
    + rewrite (bool_decide_true _ Hb), Hp, (bool_decide_false (lit "production" = lit "test")) by done.
      pose proof (production_validated cfg Hb Hp) as Hv. pose proof (validate_ready srv) as Hr.
      destruct (validate_storage_config netloc_ok cfg) as [[]|e].
      * destruct (has_driver srv), (connects srv), (answers_queries srv); cbn [negb answer];
          try (split; [by intros [? ?]|by intros (_ & _ & ? & ? & ? & _)]).
        destruct (validate_runtime_schema srv) as [[]|e]; cbn [answer]; split; [|by eauto| |].
        -- intros _. split_and!; try done; [by apply Hv|by apply Hr].
        -- by intros [? ?].
        -- intros (_ & _ & _ & _ & _ & H). by apply Hr in H.
      * cbn [answer]. split; [by intros [? ?]|]. intros (_ & Hs & _). by apply Hv in Hs.
    + split; [|by intros [? _]]. intros [st Hst]. exfalso. revert Hst. unfold validate_storage_config.
      rewrite Hp, (bool_decide_false _ Hb). rewrite (bool_decide_false (lit "production" = lit "test")) by done.
      by destruct (bool_decide (lower (storage_backend cfg) = lit "sqlite")).
  - apply sqlite_opens.
  - apply connection_left.
Qed.
End opened.

(** ** Examples *)

Definition any_host (_ : pystr) : bool := true.
Definition full_server : Server :=
  mkServer true true (Some (None, lit "app"))
    (fun _ name => if bool_decide (name ∈ PG_REQUIRED_VIEWS) then Some (lit "v") else Some (lit "r")) (fun _ _ _ => true) true true.
Definition prod (dsn : pystr) : Cfg := mkCfg (lit "Postgres") (lit "PRODUCTION") dsn [].

Example production_opens :
  open_storage any_host (prod (lit "postgresql://u@db/md?sslmode=verify-full&sslrootcert=/ca.pem")) full_server FileOpens = mkOpened (Ok PostgresStore) true.
Proof. by vm_compute. Qed.
Example production_without_certificate :
  open_storage any_host (prod (lit "host=db sslmode=require")) full_server FileOpens = mkOpened (Err (Configuration SslMode)) false.
Proof. by vm_compute. Qed.

(** A quoted value of a key-value address may hold blanks; the pieces of this application
    name pass for the settings, and the connection itself is made without TLS. *)
Example quoted_value_passes_for_settings :
  open_storage any_host (prod (lit "host=db sslmode=disable application_name='x sslmode=verify-full sslrootcert=y'")) full_server FileOpens
  = mkOpened (Ok PostgresStore) true.
Proof. by vm_compute. Qed.

(** A damaged file: the exception passes, and the connection with it. *)
Example damaged_file_left_open :
  open_storage any_host (mkCfg (lit "sqlite") (lit "test") [] (lit "md.db")) full_server SchemaRaises = mkOpened (Err Uncaught) true.
Proof. by vm_compute. Qed.
End StoreOpen.
