(* ===== verification/JsonValue.v ===== *)
(** * JSON values and Python's numbers from text

    [json.loads] of any text, [float(s)], and the dictionary and truth operations the
    sources use on what they get.  [Json] has the flat objects that the sources hash.

    A text is read with fuel; [loads_fuel] shows that the length of the text is enough. *)

From S2P Require Import Prelude PyStr PyFloat Dict Hashes Json PyInt.

#[local] Open Scope Z_scope.

Module JsonValue.

(** ** Numbers *)

Fixpoint span_digits (s : pystr) : pystr * pystr :=
  match s with
  | c :: s' => if is_digit c then let '(a, b) := span_digits s' in (c :: a, b) else ([], s)
  | [] => ([], [])
  end.
Definition digits_value (ds : pystr) : Z := foldl digit_step 0 ds.
Definition significant (ds : pystr) : Z := zlen (lstrip_by (Z.eqb 48) ds).

(** The digits times [10 ^ e], correctly rounded.  Far outside the range of the exponents
    the result is infinite or zero whatever the digits. *)
Definition decimal_float (neg : bool) (ds : pystr) (e : Z) : float :=
  let x :=
    match digits_value ds with
    | Zpos m =>
        if 400 <? significant ds + e then S754_infinity false
        else if significant ds + e <? -400 then S754_zero false
        else match e with
             | Zneg k => fdiv (S754_finite false m 0) (S754_finite false (Pos.pow 10 k) 0)
             | _ => of_int (Zpos m * 10 ^ e)
             end
    | _ => S754_zero false
    end in
  if neg then SFopp x else x.

(** [e+12], [E-3]: the exponent and the rest; [None] when the text does not go on so. *)
Definition read_exponent (s : pystr) : option (Z * pystr) :=
  match s with
  | c :: s =>
      if (c =? 101) || (c =? 69) then
        let '(neg, s) := match s with 45 :: s => (true, s) | 43 :: s => (false, s) | _ => (false, s) end in
        match span_digits s with
        | ([], _) => None
        | (ds, r) => Some (if neg : bool then - digits_value ds else digits_value ds, r)
        end
      else None
  | [] => None
  end.
(** [.25]: the digits and the rest. *)
Definition read_fraction (s : pystr) : option (pystr * pystr) :=
  match s with 46 :: s => match span_digits s with ([], _) => None | (ds, r) => Some (ds, r) end | _ => None end.

(** A single underscore may stand between digits. *)
Fixpoint drop_underscores (digit_before : bool) (s : pystr) : option pystr :=
  match s with
  | [] => Some []
  | c :: s =>
      if c =? 95 then
        match s with
        | d :: _ => if digit_before && is_digit d then drop_underscores false s else None
        | [] => None
        end
      else r ← drop_underscores (is_digit c) s; Some (c :: r)
  end.

Definition lower_ascii (c : Z) : Z := if (65 <=? c) && (c <=? 90) then c + 32 else c.

(** [float(s)]; [None] is a [ValueError]. *)
Definition py_float (decimal : Z -> option Z) (s : pystr) : option float :=
  let s := rstrip_by ascii_space (lstrip_by ascii_space (to_ascii decimal <$> s)) in
  s ← drop_underscores false s;
  let '(neg, s) := match s with 45 :: s => (true, s) | 43 :: s => (false, s) | _ => (false, s) end in
  let low := lower_ascii <$> s in
  if bool_decide (low = lit "inf") || bool_decide (low = lit "infinity") then Some (S754_infinity neg)
  else if bool_decide (low = lit "nan") then Some S754_nan
  else
    let '(ip, r) := span_digits s in
    let '(fp, r) := match r with 46 :: r => span_digits r | _ => ([], r) end in
    if bool_decide (ip ++ fp = []) then None
    else
      let '(e, r) := match read_exponent r with Some (e, r) => (e, r) | None => (0, r) end in
      match r with [] => Some (decimal_float neg (ip ++ fp) (e - zlen fp)) | _ => None end.

(** [int(x)] of a float; [None] for the infinities ([OverflowError]) and NaN ([ValueError]). *)
Definition int_of_float (x : float) : option Z :=
  match x with
  | S754_zero _ => Some 0
  | S754_finite s m e =>
      let a := if 0 <=? e then Zpos m * 2 ^ e else Zpos m / 2 ^ (- e) in Some (if s then - a else a)
  | _ => None
  end.

(** ** Values *)

Inductive value :=
| VNull | VBool (b : bool) | VInt (z : Z) | VFloat (x : float) | VStr (s : pystr) | VList (l : list value)
| VObj (kvs : list (pystr * value)).

(** [DecodeError] is [json.JSONDecodeError]; a number of too many digits is a plain
    [ValueError]. *)
Inductive JsonError := DecodeError | TooManyDigits.
Abbreviation JR A := (result JsonError A) (only parsing).

Definition skip_ws (s : pystr) : pystr := lstrip_by json_ws s.

(** [\uXXXX]. *)
Definition read_hex4 (s : pystr) : option (Z * pystr) :=
  match s with
  | a :: b :: c :: d :: s =>
      x ← hex_value a; y ← hex_value b; z ← hex_value c; w ← hex_value d; Some (((x * 16 + y) * 16 + z) * 16 + w, s)
  | _ => None
  end.
(** Two escapes that are the halves of a surrogate pair are one character. *)
Definition read_unicode (s : pystr) : option (Z * pystr) :=
  '(u, r) ← read_hex4 s;
  if (0xD800 <=? u) && (u <=? 0xDBFF) then
    match r with
    | a :: b :: r' =>
        if (a =? 92) && (b =? 117) then
          match read_hex4 r' with
          | Some (v, r'') => if (0xDC00 <=? v) && (v <=? 0xDFFF) then Some (0x10000 + (u - 0xD800) * 1024 + (v - 0xDC00), r'') else Some (u, r)
          | None => Some (u, r)
          end
        else Some (u, r)
    | _ => Some (u, r)
    end
  else Some (u, r).

Definition simple_escape (c : Z) : option Z :=
  if (c =? 34) || (c =? 92) || (c =? 47) then Some c
  else if c =? 98 then Some 8 else if c =? 102 then Some 12 else if c =? 110 then Some 10
  else if c =? 114 then Some 13 else if c =? 116 then Some 9 else None.

(** A string after its opening quote. *)
Fixpoint read_string (fuel : nat) (acc : pystr) (s : pystr) : option (pystr * pystr) :=
  match fuel with
  | O => None
  | S fuel =>
      match s with
      | [] => None
      | c :: s =>
          if c =? 34 then Some (rev acc, s)
          else if c =? 92 then
            match s with
            | [] => None
            | e :: s =>
                if e =? 117 then '(c, s) ← read_unicode s; read_string fuel (c :: acc) s
                else c ← simple_escape e; read_string fuel (c :: acc) s
            end
          else if c <? 32 then None
          else read_string fuel (c :: acc) s
      end
  end.

(** A number, from its sign on. *)
Definition read_number (s : pystr) : JR (value * pystr) :=
  let '(neg, t) := match s with 45 :: t => (true, t) | _ => (false, s) end in
  match t with
  | c :: t' =>
      if negb (is_digit c) then Err DecodeError
      else
        let '(ip, r) := if c =? 48 then ([48], t') else span_digits t in
        let fraction := read_fraction r in
        let r1 := match fraction with Some (_, r) => r | None => r end in
        let exponent := read_exponent r1 in
        match fraction, exponent with
        | None, None =>
            if (MAX_STR_DIGITS <? length ip)%nat then Err TooManyDigits
            else Ok (VInt (if neg : bool then - digits_value ip else digits_value ip), r)
        | _, _ =>
            let fp := match fraction with Some (fp, _) => fp | None => [] end in
            let '(e, r2) := match exponent with Some (e, r) => (e, r) | None => (0, r1) end in
            Ok (VFloat (decimal_float neg (ip ++ fp) (e - zlen fp)), r2)
        end
  | [] => Err DecodeError
  end.

Definition strip_prefix (p s : pystr) : option pystr := if is_prefix p s then Some (drop (length p) s) else None.

Definition read_constant (s : pystr) : option (value * pystr) :=
  match strip_prefix (lit "null") s with Some r => Some (VNull, r) | None =>
  match strip_prefix (lit "true") s with Some r => Some (VBool true, r) | None =>
  match strip_prefix (lit "false") s with Some r => Some (VBool false, r) | None =>
  match strip_prefix (lit "NaN") s with Some r => Some (VFloat S754_nan, r) | None =>
  match strip_prefix (lit "Infinity") s with Some r => Some (VFloat (S754_infinity false), r) | None =>
  match strip_prefix (lit "-Infinity") s with Some r => Some (VFloat (S754_infinity true), r) | None => None
  end end end end end end.

Definition string_at (fuel : nat) (s : pystr) : JR (pystr * pystr) :=
  match s with
  | c :: s =>
      if c =? 34 then match read_string fuel [] s with Some r => Ok r | None => Err DecodeError end else Err DecodeError
  | [] => Err DecodeError
  end.
(** The first character and the rest. *)
Definition opens (c : Z) (s : pystr) : option pystr := match s with x :: s => if x =? c then Some s else None | [] => None end.

(** [scan_once], the rest of an array after a value, and the rest of an object after its
    key's place. *)
Fixpoint read_value (fuel : nat) (s : pystr) : JR (value * pystr) :=
  match fuel with
  | O => Err DecodeError
  | S fuel =>
      match opens 34 s, opens 123 s, opens 91 s with
      | Some _, _, _ => let! r := string_at fuel s in Ok (VStr r.1, r.2)
      | None, Some s, _ =>
          match opens 125 (skip_ws s) with
          | Some r => Ok (VObj [], r)
          | None => let! r := read_members fuel [] (skip_ws s) in Ok (VObj r.1, r.2)
          end
      | None, None, Some s =>
          match opens 93 (skip_ws s) with
          | Some r => Ok (VList [], r)
          | None => let! r := read_items fuel [] (skip_ws s) in Ok (VList r.1, r.2)
          end
      | None, None, None => match read_constant s with Some r => Ok r | None => read_number s end
      end
  end
with read_items (fuel : nat) (acc : list value) (s : pystr) : JR (list value * pystr) :=
  match fuel with
  | O => Err DecodeError
  | S fuel =>
      let! r := read_value fuel s in
      let rest := skip_ws r.2 in
      match opens 93 rest, opens 44 rest with
      | Some s, _ => Ok (acc ++ [r.1], s)
      | None, Some s => read_items fuel (acc ++ [r.1]) (skip_ws s)
      | None, None => Err DecodeError
      end
  end
with read_members (fuel : nat) (acc : list (pystr * value)) (s : pystr) : JR (list (pystr * value) * pystr) :=
  match fuel with
  | O => Err DecodeError
  | S fuel =>
      let! k := string_at fuel s in
      match opens 58 (skip_ws k.2) with
      | None => Err DecodeError
      | Some s =>
          let! v := read_value fuel (skip_ws s) in
          let acc := dset k.1 v.1 acc in
          let rest := skip_ws v.2 in
          match opens 125 rest, opens 44 rest with
          | Some s, _ => Ok (acc, s)
          | None, Some s => read_members fuel acc (skip_ws s)
          | None, None => Err DecodeError
          end
      end
  end.

(** [json.loads(text)]. *)
Definition loads (s : pystr) : JR value :=
  let! r := read_value (2 * length s + 2) (skip_ws s) in
  match skip_ws r.2 with [] => Ok r.1 | _ => Err DecodeError end.

(** ** The fuel is enough *)

Lemma skip_ws_le s : (length (skip_ws s) <= length s)%nat.
Proof. unfold skip_ws. induction s as [|c s IH]; [done|]. cbn [lstrip_by]. destruct (json_ws c); cbn [length]; lia. Qed.

Lemma opens_lt c s r : opens c s = Some r -> (length r < length s)%nat.
Proof. unfold opens. destruct s as [|x s]; [done|]. destruct (x =? c); [|done]. intros [= <-]. cbn. lia. Qed.

Lemma span_digits_le s : (length (span_digits s).2 <= length s)%nat.
Proof.
  induction s as [|c s IH]; [done|]. cbn [span_digits]. destruct (is_digit c); [|done]. destruct (span_digits s). cbn [snd length] in *. lia.
Qed.

Lemma read_hex4_lt s x r : read_hex4 s = Some (x, r) -> (length r < length s)%nat.
Proof.
  unfold read_hex4. destruct s as [|a [|b [|c [|d s]]]]; try done. destruct (hex_value a); [|done]. destruct (hex_value b); [|done].
  destruct (hex_value c); [|done]. destruct (hex_value d); [|done]. cbn. intros [= _ <-]. lia.
Qed.

Lemma read_unicode_lt s x r : read_unicode s = Some (x, r) -> (length r < length s)%nat.
Proof.
  unfold read_unicode. destruct (read_hex4 s) as [[u r1]|] eqn:E; [|done]. apply read_hex4_lt in E. cbn [mbind option_bind].
  assert (Some (u, r1) = Some (x, r) -> (length r < length s)%nat) as Hd by by intros [= _ <-].
  destruct (_ && _); [|exact Hd]. destruct r1 as [|a [|b r']]; try exact Hd. destruct (_ && _); [|exact Hd].
  destruct (read_hex4 r') as [[v r'']|] eqn:E'; [|exact Hd]. destruct (_ && _); [|exact Hd]. intros [= _ <-].
  apply read_hex4_lt in E'. cbn [length] in E. lia.
Qed.

Lemma read_string_lt fuel : forall acc s x r, read_string fuel acc s = Some (x, r) -> (length r < length s)%nat.
Proof.
  induction fuel as [|fuel IH]; intros acc s x r; [done|]. cbn [read_string]. destruct s as [|c s]; [done|]. cbn [length].
  destruct (c =? 34); [intros [= _ <-]; lia|]. destruct (c =? 92); [|destruct (c <? 32); [done|intros H%IH; lia]].
  destruct s as [|e s]; [done|]. cbn [length]. destruct (e =? 117).
  - destruct (read_unicode s) as [[c' s']|] eqn:E; [|done]. apply read_unicode_lt in E. cbn [mbind option_bind]. intros H%IH. lia.
  - destruct (simple_escape e); [|done]. cbn [mbind option_bind]. intros H%IH. lia.
Qed.

Lemma string_at_lt fuel s r : string_at fuel s = Ok r -> (length r.2 < length s)%nat.
Proof.
  unfold string_at. destruct s as [|c s]; [done|]. destruct (c =? 34); [|done]. destruct (read_string fuel [] s) as [[x t]|] eqn:E; [|done].
  intros [= <-]. apply read_string_lt in E. cbn. lia.
Qed.

Lemma read_fraction_le s ds r : read_fraction s = Some (ds, r) -> (length r <= length s)%nat.
Proof.
  unfold read_fraction. destruct s as [|c s]; [done|]. repeat (case_match; try done). intros [= _ <-].
  pose proof (span_digits_le s) as Hle. match goal with E : span_digits s = _ |- _ => rewrite E in Hle end. cbn in *. lia.
Qed.

Lemma read_exponent_le s e r : read_exponent s = Some (e, r) -> (length r <= length s)%nat.
Proof.
  unfold read_exponent. destruct s as [|c s]; [done|]. destruct (_ || _); [|done].
  assert (exists neg k, match s with 45 :: s0 => (true, s0) | 43 :: s0 => (false, s0) | _ => (false, s) end = (neg : bool, k) /\
    (length k <= length s)%nat) as (neg & k & -> & Hk).
  { destruct s as [|x s]; [by eexists _, _|]. repeat (case_match; try (by eexists _, _)); eexists _, _; split; try done; cbn; lia. }
  pose proof (span_digits_le k) as H. destruct (span_digits k) as [[|d ds] t]; [done|]. intros [= _ <-]. cbn in *. lia.
Qed.

Lemma read_number_lt s v r : read_number s = Ok (v, r) -> (length r < length s)%nat.
Proof.
  unfold read_number.
  assert (exists neg k, match s with 45 :: t => (true, t) | _ => (false, s) end = (neg : bool, k) /\ (length k <= length s)%nat) as (neg & k & -> & Hk).
  { destruct s as [|x s]; [by eexists _, _|]. repeat (case_match; try (by eexists _, _)); eexists _, _; split; try done; cbn; lia. }
  destruct k as [|c k]; [done|]. destruct (is_digit c) eqn:Ed; [|done]. cbn [negb].
  assert (exists ip t, (if c =? 48 then ([48], k) else span_digits (c :: k)) = (ip, t) /\ (length t <= length k)%nat) as (ip & t & -> & Ht).
  { destruct (c =? 48); [by eexists _, _|]. cbn [span_digits]. rewrite Ed. pose proof (span_digits_le k) as H.
    destruct (span_digits k) as [a b]. by eexists _, _. }
  cbn [length] in *.
  destruct (read_fraction t) as [[fp t']|] eqn:Ef; [apply read_fraction_le in Ef|].
  - destruct (read_exponent t') as [[e t'']|] eqn:Ee; [apply read_exponent_le in Ee|]; intros [= _ <-]; lia.
  - destruct (read_exponent t) as [[e t'']|] eqn:Ee; [apply read_exponent_le in Ee; intros [= _ <-]; lia|].
    destruct (_ <? _)%nat; [done|]. intros [= _ <-]. lia.
Qed.

Lemma read_constant_lt s v r : read_constant s = Some (v, r) -> (length r < length s)%nat.
Proof.
  assert (forall p, p <> [] -> forall r, strip_prefix p s = Some r -> (length r < length s)%nat) as G.
  { intros p Hp r'. unfold strip_prefix. destruct (is_prefix p s) eqn:E; [|done]. intros [= <-]. apply is_prefix_length in E.
    rewrite length_drop. destruct p; [done|]. cbn in *. lia. }
  unfold read_constant. repeat (case_match; [intros [= _ <-]; eapply G; [|eassumption]; done|]). done.
Qed.

Lemma consumes fuel :
  (forall s r, read_value fuel s = Ok r -> (length r.2 < length s)%nat) /\
  (forall acc s r, read_items fuel acc s = Ok r -> (length r.2 < length s)%nat) /\
  (forall acc s r, read_members fuel acc s = Ok r -> (length r.2 < length s)%nat).
Proof.
  induction fuel as [|fuel (IHv & IHi & IHm)]; [done|]. split_and!.
  - intros s r. cbn [read_value]. destruct (opens 34 s) as [s0|]; [|destruct (opens 123 s) as [s0|] eqn:E1; [|destruct (opens 91 s) as [s0|] eqn:E2]].
    + intros ([x t] & Hs & [= <-])%rbind_Ok. by apply string_at_lt in Hs.
    + apply opens_lt in E1. pose proof (skip_ws_le s0). destruct (opens 125 (skip_ws s0)) eqn:E; [apply opens_lt in E; intros [= <-]; cbn; lia|].
      intros ([x t] & Hs%IHm & [= <-])%rbind_Ok. cbn in *. lia.
    + apply opens_lt in E2. pose proof (skip_ws_le s0). destruct (opens 93 (skip_ws s0)) eqn:E; [apply opens_lt in E; intros [= <-]; cbn; lia|].
      intros ([x t] & Hs%IHi & [= <-])%rbind_Ok. cbn in *. lia.
    + destruct (read_constant s) as [[v t]|] eqn:E; [apply read_constant_lt in E; by intros [= <-]|]. destruct r as [v t]. apply read_number_lt.
  - intros acc s r. cbn [read_items]. intros ([v t] & Hv%IHv & Hr)%rbind_Ok. cbn [fst snd] in *. pose proof (skip_ws_le t).
    destruct (opens 93 (skip_ws t)) eqn:E; [apply opens_lt in E; injection Hr as <-; cbn; lia|].
    destruct (opens 44 (skip_ws t)) as [k|] eqn:E'; [|done]. apply opens_lt in E'. apply IHi in Hr. pose proof (skip_ws_le k). lia.
  - intros acc s r. cbn [read_members]. intros ([k t] & Hk%string_at_lt & Hr)%rbind_Ok. cbn [fst snd] in *. pose proof (skip_ws_le t).
    destruct (opens 58 (skip_ws t)) as [u|] eqn:Eu; [|done]. apply opens_lt in Eu. pose proof (skip_ws_le u).
    apply rbind_Ok in Hr as ([v w] & Hv%IHv & Hr). cbn [fst snd] in *. pose proof (skip_ws_le w).
    destruct (opens 125 (skip_ws w)) eqn:E; [apply opens_lt in E; injection Hr as <-; cbn; lia|].
    destruct (opens 44 (skip_ws w)) as [z|] eqn:E'; [|done]. apply opens_lt in E'. apply IHm in Hr. pose proof (skip_ws_le z). lia.
Qed.

(** One turn of each reader. *)
Definition value_turn (fuel : nat) (s : pystr) : JR (value * pystr) :=
  match opens 34 s, opens 123 s, opens 91 s with
  | Some _, _, _ => let! r := string_at fuel s in Ok (VStr r.1, r.2)
  | None, Some s, _ =>
      match opens 125 (skip_ws s) with
      | Some r => Ok (VObj [], r)
      | None => let! r := read_members fuel [] (skip_ws s) in Ok (VObj r.1, r.2)
      end
  | None, None, Some s =>
      match opens 93 (skip_ws s) with
      | Some r => Ok (VList [], r)
      | None => let! r := read_items fuel [] (skip_ws s) in Ok (VList r.1, r.2)
      end
  | None, None, None => match read_constant s with Some r => Ok r | None => read_number s end
  end.
Definition items_turn (fuel : nat) (acc : list value) (s : pystr) : JR (list value * pystr) :=
  let! r := read_value fuel s in
  match opens 93 (skip_ws r.2), opens 44 (skip_ws r.2) with
  | Some s, _ => Ok (acc ++ [r.1], s)
  | None, Some s => read_items fuel (acc ++ [r.1]) (skip_ws s)
  | None, None => Err DecodeError
  end.
Definition members_turn (fuel : nat) (acc : list (pystr * value)) (s : pystr) : JR (list (pystr * value) * pystr) :=
  let! k := string_at fuel s in
  match opens 58 (skip_ws k.2) with
  | None => Err DecodeError
  | Some s =>
      let! v := read_value fuel (skip_ws s) in
      match opens 125 (skip_ws v.2), opens 44 (skip_ws v.2) with
      | Some s, _ => Ok (dset k.1 v.1 acc, s)
      | None, Some s => read_members fuel (dset k.1 v.1 acc) (skip_ws s)
      | None, None => Err DecodeError
      end
  end.
Lemma read_value_S fuel s : read_value (S fuel) s = value_turn fuel s.
Proof. reflexivity. Qed.
Lemma read_items_S fuel acc s : read_items (S fuel) acc s = items_turn fuel acc s.
Proof. reflexivity. Qed.
Lemma read_members_S fuel acc s : read_members (S fuel) acc s = members_turn fuel acc s.
Proof. reflexivity. Qed.

Lemma read_string_fuel fuel : forall acc s, (length s < fuel)%nat -> read_string (S fuel) acc s = read_string fuel acc s.
Proof.
  induction fuel as [|fuel IH]; intros acc s Hl; [lia|]. cbn [read_string]. destruct s as [|c s]; [done|]. cbn [length] in Hl.
  destruct (c =? 34); [done|]. destruct (c =? 92); [|destruct (c <? 32); [done|apply IH; lia]].
  destruct s as [|e s]; [done|]. cbn [length] in Hl. destruct (e =? 117).
  - destruct (read_unicode s) as [[c' s']|] eqn:E; [|done]. apply read_unicode_lt in E. cbn [mbind option_bind]. apply IH. lia.
  - destruct (simple_escape e); [|done]. cbn [mbind option_bind]. apply IH. lia.
Qed.

Lemma string_at_fuel fuel s : (length s <= fuel)%nat -> string_at (S fuel) s = string_at fuel s.
Proof. intros H. unfold string_at. destruct s as [|c s]; [done|]. cbn in H. by rewrite read_string_fuel by lia. Qed.

Lemma more_fuel fuel :
  (forall s, (2 * length s + 1 <= fuel)%nat -> read_value (S fuel) s = read_value fuel s) /\
  (forall acc s, (2 * length s + 2 <= fuel)%nat -> read_items (S fuel) acc s = read_items fuel acc s) /\
  (forall acc s, (2 * length s + 2 <= fuel)%nat -> read_members (S fuel) acc s = read_members fuel acc s).
Proof.
  induction fuel as [|fuel (IHv & IHi & IHm)]; [split_and!; intros; lia|]. split_and!.
  - intros s Hl. rewrite (read_value_S (S fuel)), (read_value_S fuel s). unfold value_turn. destruct (opens 34 s) as [s0|]; [|destruct (opens 123 s) as [s0|] eqn:E1; [|destruct (opens 91 s) as [s0|] eqn:E2]].
    + by rewrite string_at_fuel by lia.
    + apply opens_lt in E1. pose proof (skip_ws_le s0). destruct (opens 125 (skip_ws s0)); [done|]. by rewrite IHm by lia.
    + apply opens_lt in E2. pose proof (skip_ws_le s0). destruct (opens 93 (skip_ws s0)); [done|]. by rewrite IHi by lia.
    + done.
  - intros acc s Hl. rewrite (read_items_S (S fuel)), (read_items_S fuel acc s). unfold items_turn. rewrite IHv by lia. destruct (read_value fuel s) as [[v t]|] eqn:Ev; [|done]. cbn [rbind fst snd].
    apply (proj1 (consumes fuel)) in Ev. cbn in Ev. pose proof (skip_ws_le t). destruct (opens 93 (skip_ws t)); [done|].
    destruct (opens 44 (skip_ws t)) as [k|] eqn:E'; [|done]. apply opens_lt in E'. pose proof (skip_ws_le k). by rewrite IHi by lia.
  - intros acc s Hl. rewrite (read_members_S (S fuel)), (read_members_S fuel acc s). unfold members_turn. rewrite string_at_fuel by lia. destruct (string_at fuel s) as [[k t]|] eqn:Ek; [|done].
    apply string_at_lt in Ek. cbn [rbind fst snd] in *. pose proof (skip_ws_le t). destruct (opens 58 (skip_ws t)) as [u|] eqn:Eu; [|done].
    apply opens_lt in Eu. pose proof (skip_ws_le u). rewrite IHv by lia. destruct (read_value fuel (skip_ws u)) as [[v w]|] eqn:Ev; [|done].
    apply (proj1 (consumes fuel)) in Ev. cbn [rbind fst snd] in *. pose proof (skip_ws_le w). destruct (opens 125 (skip_ws w)); [done|].
    destruct (opens 44 (skip_ws w)) as [z|] eqn:E'; [|done]. apply opens_lt in E'. pose proof (skip_ws_le z). by rewrite IHm by lia.
Qed.

(** Any greater fuel reads the same. *)
Theorem loads_fuel s extra : read_value (2 * length s + 2 + extra) (skip_ws s) = read_value (2 * length s + 2) (skip_ws s).
Proof.
  pose proof (skip_ws_le s). induction extra as [|extra IH]; [by rewrite Nat.add_0_r|]. rewrite Nat.add_succ_r, <- IH.
  apply (proj1 (more_fuel _)). lia.
Qed.

(** ** What the sources do with values *)

(** [bool(v)]. *)
Definition vtrue (v : value) : bool :=
  match v with
  | VNull => false | VBool b => b | VInt z => negb (z =? 0) | VFloat x => truthy x | VStr s => negb (bool_decide (s = []))
  | VList l => match l with [] => false | _ => true end | VObj o => match o with [] => false | _ => true end
  end.
(** [a or b]. *)
Definition vor (a b : value) : value := if vtrue a then a else b.

(** The exceptions a use of a value can raise. *)
Inductive PyExc := AttributeError | KeyError | TypeError | ValueError | OverflowError | IndexError.
Abbreviation PR A := (result PyExc A) (only parsing).

(** [v.get(key, default)]. *)
Definition vget_or (key : pystr) (d v : value) : PR value :=
  match v with VObj o => Ok (default d (dget key o)) | _ => Err AttributeError end.
Definition vget (key : pystr) (v : value) : PR value := vget_or key VNull v.
(** [v[key]] with a text for a key. *)
Definition vitem (key : pystr) (v : value) : PR value :=
  match v with
  | VObj o => match dget key o with Some x => Ok x | None => Err KeyError end
  | _ => Err TypeError
  end.
(** [v == text]. *)
Definition vis (v : value) (s : pystr) : bool := match v with VStr t => bool_decide (t = s) | _ => false end.
(** [int(v)]. *)
Definition vint (decimal : Z -> option Z) (v : value) : PR Z :=
  match v with
  | VInt z => Ok z
  | VBool b => Ok (if b then 1 else 0)
  | VFloat x => match int_of_float x with Some z => Ok z | None => if is_nan x then Err ValueError else Err OverflowError end
  | VStr s => match py_int decimal s with Some z => Ok z | None => Err ValueError end
  | _ => Err TypeError
  end.
(** [float(v)]; an integer too large is an [OverflowError]. *)
Definition vfloat (decimal : Z -> option Z) (v : value) : PR float :=
  match v with
  | VFloat x => Ok x
  | VInt z => match of_int z with S754_infinity _ => Err OverflowError | x => Ok x end
  | VBool b => Ok (of_int (if b then 1 else 0))
  | VStr s => match py_float decimal s with Some x => Ok x | None => Err ValueError end
  | _ => Err TypeError
  end.

(** ** Examples *)

(** A JSON text with its quotes written as apostrophes. *)
Definition quoted (s : string) : pystr := (fun c => if c =? 39 then 34 else c) <$> lit s.

Example loads_ex :
  loads (quoted " {'a': [1, -2.5e1, 'x\u00e9\ud83d\ude00\n'], 'b': {}, 'a': [true, null , 0.1]} ") =
  Ok (VObj [(lit "a", VList [VBool true; VNull; VFloat (int_div 1 10)]); (lit "b", VObj [])]).
Proof. by vm_compute. Qed.
Example loads_strings : loads (quoted "['x\u00e9\ud83d\ude00\n\/', -12, 1E2]") = Ok (VList [VStr [120; 0xE9; 0x1F600; 10; 47]; VInt (-12); VFloat (of_int 100)]).
Proof. by vm_compute. Qed.
Example loads_bad : Forall (fun t => loads (quoted t) = Err DecodeError) ["[1,]"; "{'a' 1}"; "01"; "'a"; "[1] 2"; "nul"; "-"; "'\x'"].
Proof. repeat constructor. Qed.
Definition ascii_only (_ : Z) : option Z := None.
Example py_float_ex :
  (py_float ascii_only <$> [lit " 1_000.5 "; lit "-1e-3"; lit "infinity"; lit "1e400"; lit ".5"; lit "70000"]) =
    [Some (int_div 2001 2); Some (int_div (-1) 1000); Some (S754_infinity false); Some (S754_infinity false); Some (int_div 1 2); Some (of_int 70000)] /\
  (py_float ascii_only <$> [lit "1__0"; lit "."; lit "1e"; lit "_1"; lit "0x1"; []]) = [None; None; None; None; None; None].
Proof. by vm_compute. Qed.
End JsonValue.
