(* ===== verification/Exchanges.v ===== *)
(** * What the exchanges send (src/src/mdfeed/adapters/upbit.py, binance.py and kis.py)

    The messages of Upbit and Binance (JSON) and of Korea Investment & Securities (pipes
    and carets, with JSON for control) become trades and quotes; the subscriptions of KIS,
    whose limit is learned from refusals, and the completion of its times of day.

    A message comes as text; bytes that are no UTF-8 end the session before these
    functions.  Arguments: [str.upper] and the digits outside ASCII. *)

From S2P Require Import Prelude PyStr PyFloat Dict Hashes Json PyInt WsProto Models Url JsonValue.

#[local] Open Scope Z_scope.

Module Exchanges.
Import Models.Models JsonValue.JsonValue Url.Url.

(** What an adapter hands on, and whether its delay is measured. *)
Inductive Emit := EmitTrade (t : Trade) (measure : bool) | EmitBook (b : BookTop) (measure : bool).
(** What was handed on before the handler returned or raised. *)
Record Out := mkOut { emits : list Emit; raised : option PyExc }.
Definition out_of (r : PR (list Emit)) : Out := match r with Ok es => mkOut es None | Err e => mkOut [] (Some e) end.
Definition then_emit (e : Emit) (r : PR (list Emit)) : Out := mkOut (e :: emits (out_of r)) (raised (out_of r)).

(** A code that is not a text fails where the record is packed. *)
Definition text_of (v : value) : PR pystr := match v with VStr s => Ok s | _ => Err AttributeError end.
Definition ms_ns : Z := 1000000.

Lemma omap_step {A B} (f : A -> option B) x l :
  omap f (x :: l) = match f x with Some y => y :: omap f l | None => omap f l end.
Proof. done. Qed.

Lemma split_joined c cs : cs <> [] -> Forall (fun x => c ∉ x) cs -> split_char c (Ws.join [c] cs) = cs.
Proof.
  intros Hn H. induction H as [|x cs Hx Hcs IH]; [done|].
  destruct cs as [|y cs]; [by apply split_char_none|].
  change (Ws.join [c] (x :: y :: cs)) with (x ++ c :: Ws.join [c] (y :: cs)).
  rewrite split_char_app, split_char_none, IH by done. done.
Qed.

Lemma joined_free c d cs : c <> d -> Forall (fun x => c ∉ x) cs -> c ∉ Ws.join [d] cs.
Proof.
  intros Hd H. induction H as [|x cs Hx Hcs IH]; [apply not_elem_of_nil|].
  destruct cs as [|y cs]; [done|]. change (Ws.join [d] (x :: y :: cs)) with (x ++ d :: Ws.join [d] (y :: cs)).
  rewrite elem_of_app, elem_of_cons. naive_solver.
Qed.

Section exchanges.
Variable decimal : Z -> option Z.
Variable upper : pystr -> pystr.

(** ** Upbit *)

Definition upbit_trade (m : value) (recv : Z) : PR (Z * bool * Trade) :=
  let! t := vitem (lit "trade_timestamp") m in
  let! ms := vint decimal t in
  let ts_event := ms * ms_ns in
  let! stream := vget (lit "stream_type") m in
  let live := negb (vis stream (lit "SNAPSHOT")) in
  let! dir := vget (lit "ask_bid") m in
  let side := if vis dir (lit "BID") then SIDE_BUY else SIDE_SELL in
  let! code := vitem (lit "code") m in
  let! p := vitem (lit "trade_price") m in
  let! price := vfloat decimal p in
  let! q := vitem (lit "trade_volume") m in
  let! qty := vfloat decimal q in
  let! symbol := text_of code in
  Ok (ts_event, live, mkTrade (lit "UPBIT") symbol ts_event recv price qty side).

Definition size_or_zero (key : pystr) (m : value) : PR float :=
  let! v := vget key m in
  vfloat decimal (vor v (VInt 0)).

Definition upbit_book (m : value) (ts_event recv : Z) (live : bool) : PR (list Emit) :=
  let! bid := vget (lit "best_bid_price") m in
  let! ask := vget (lit "best_ask_price") m in
  if vtrue bid && vtrue ask then
    let! code := vitem (lit "code") m in
    let! b := vfloat decimal bid in
    let! bq := size_or_zero (lit "best_bid_size") m in
    let! a := vfloat decimal ask in
    let! aq := size_or_zero (lit "best_ask_size") m in
    let! symbol := text_of code in
    Ok [EmitBook (mkBook (lit "UPBIT") symbol ts_event recv b bq a aq) live]
  else Ok [].

Definition upbit_records (m : value) (recv : Z) : Out :=
  match vget (lit "type") m with
  | Err e => mkOut [] (Some e)
  | Ok t =>
      if negb (vis t (lit "trade")) then mkOut [] None
      else match upbit_trade m recv with
           | Err e => mkOut [] (Some e)
           | Ok (ts_event, live, t) => then_emit (EmitTrade t live) (upbit_book m ts_event recv live)
           end
  end.

(** A text that is no JSON counts as an error; [errors] is the adapter's counter. *)
Definition on_json (handle : value -> Out) (text : pystr) (errors : Z) : Z * Out :=
  match loads text with
  | Err DecodeError => (errors + 1, mkOut [] None)
  | Err TooManyDigits => (errors, mkOut [] (Some ValueError))
  | Ok m => (errors, handle m)
  end.
Definition upbit_on_message (text : pystr) (recv : Z) (errors : Z) : Z * Out := on_json (fun m => upbit_records m recv) text errors.

(** ** Binance *)

Definition binance_trade (d : value) (recv : Z) : PR (list Emit) :=
  let! s := vitem (lit "s") d in
  let! t := vitem (lit "T") d in
  let! ms := vint decimal t in
  let! p := vitem (lit "p") d in
  let! price := vfloat decimal p in
  let! q := vitem (lit "q") d in
  let! qty := vfloat decimal q in
  let! maker := vget (lit "m") d in
  let! symbol := text_of s in
  Ok [EmitTrade (mkTrade (lit "BINANCE") symbol (ms * ms_ns) recv price qty (if vtrue maker then SIDE_SELL else SIDE_BUY)) true].

Definition binance_records (env : value) (recv : Z) : PR (list Emit) :=
  let! data := vget (lit "data") env in
  let d := vor data env in
  let! e := vget (lit "e") d in
  if negb (vis e (lit "trade")) then Ok [] else binance_trade d recv.
Definition binance_on_message (text : pystr) (recv : Z) (errors : Z) : Z * Out :=
  on_json (fun m => out_of (binance_records m recv)) text errors.

Definition URL_STREAM_MAX : nat := 50.
Definition SUBSCRIBE_CHUNK : nat := 200.
(** The streams of each SUBSCRIBE message, numbered from 1. *)
Fixpoint subscribe_chunks (fuel : nat) (n : Z) (streams : list pystr) : list (Z * list pystr) :=
  match fuel, streams with
  | S fuel, _ :: _ => (n, take SUBSCRIBE_CHUNK streams) :: subscribe_chunks fuel (n + 1) (drop SUBSCRIBE_CHUNK streams)
  | _, _ => []
  end.
Definition streams (symbols : list pystr) : list pystr := (fun s => s ++ lit "@trade") <$> symbols.
(** What a session asks for: in the address, or in messages after connecting. *)
Definition subscription (symbols : list pystr) : pystr + list (Z * list pystr) :=
  if (URL_STREAM_MAX <? length symbols)%nat then inr (subscribe_chunks (length symbols) 1 (streams symbols))
  else inl (lit "wss://stream.binance.com:9443/stream?streams=" ++ Ws.join [47] (streams symbols)).

(** ** Times of day *)

(** The microseconds of [datetime.fromtimestamp(recv_ns / 1e9)]: the fraction of the
    float, rounded to even. *)
Definition from_timestamp (recv_ns : Z) : option Z :=
  let t := fdiv (of_int recv_ns) (of_int 1000000000) in
  z ← int_of_float t;
  Some (z * 1000000 + fround (fmul (fsub t (of_int z)) (of_int 1000000))).

Definition DAY_S : Z := 86400.
Definition KST_S : Z := 32400.
Definition MAX_TS_DRIFT_NS : Z := 600000000000.
(** [str.isdigit] of one character: the ASCII digits, the decimal ones of Unicode, and
    others for which [int] fails. *)
Variable isdigit : Z -> bool.

Definition synth_event_ns (hhmmss : pystr) (recv_ns : Z) : Z * bool :=
  let field i := py_int decimal (take 2 (drop i hhmmss)) in
  if negb ((length hhmmss =? 6)%nat && forallb isdigit hhmmss) then (recv_ns, false)
  else
    match field 0%nat, field 2%nat, field 4%nat, from_timestamp recv_ns with
    | Some h, Some m, Some sec, Some us =>
        if (h <? 24) && (m <? 60) && (sec <? 60) then
          let day := (us / 1000000 + KST_S) / DAY_S in
          let timestamp := day * DAY_S + h * 3600 + m * 60 + sec - KST_S in
          match int_of_float (fmul (of_int timestamp) (of_int 1000000000)) with
          | Some ns => if MAX_TS_DRIFT_NS <? Z.abs (recv_ns - ns) then (recv_ns, false) else (ns, true)
          | None => (recv_ns, false)
          end
        else (recv_ns, false)
    | _, _, _, _ => (recv_ns, false)
    end.

(** [market_is_open] at a moment of Korean time, in microseconds since 1970. *)
Definition market_is_open (kst_us : Z) : bool :=
  let day := kst_us / (DAY_S * 1000000) in
  let time := kst_us mod (DAY_S * 1000000) in
  let weekday := (day + 3) mod 7 in
  negb (5 <=? weekday) && (9 * 3600 * 1000000 <=? time) && (time <=? (15 * 3600 + 40 * 60) * 1000000).

(** ** KIS: data *)

Definition TR_TRADE : pystr := lit "H0STCNT0".
Definition F_CODE : nat := 0.
Definition F_TIME : nat := 1.
Definition F_PRICE : nat := 2.
Definition F_ASK1 : nat := 10.
Definition F_BID1 : nat := 11.
Definition F_VOL : nat := 12.
Definition F_SIGN : nat := 21.
Definition F_ASK_QTY : nat := 36.
Definition F_BID_QTY : nat := 37.
Definition SIDE_BY_SIGN (s : pystr) : Z :=
  if bool_decide (s = lit "1") then SIDE_BUY
  else if bool_decide (s = lit "3") || bool_decide (s = lit "5") then SIDE_SELL else SIDE_UNKNOWN.

Record KIS := mkKIS
  { symbols : list pystr; effective_limit : option nat; requested : list pystr; subscribed : list value; rejected : list (value * value * pystr);
    pingpongs : Z; encrypted_skipped : Z; unknown_signs : list (pystr * Z); ts_synth_ok : Z; ts_synth_fallback : Z }.

Definition field (i : nat) (g : list pystr) : pystr := default [] (g !! i).

Definition count_record (g : list pystr) (ok : bool) (k : KIS) : KIS :=
  let sign := field F_SIGN g in
  mkKIS (symbols k) (effective_limit k) (requested k) (subscribed k) (rejected k) (pingpongs k) (encrypted_skipped k)
    (if SIDE_BY_SIGN sign =? SIDE_UNKNOWN then dset sign (default 0 (dget sign (unknown_signs k)) + 1) (unknown_signs k) else unknown_signs k)
    (if ok then ts_synth_ok k + 1 else ts_synth_ok k) (if ok then ts_synth_fallback k else ts_synth_fallback k + 1).

(** A quantity that is missing or no number is zero. *)
Definition qty_at (i : nat) (g : list pystr) : float := default (of_int 0) (s ← g !! i; py_float decimal s).

Definition kis_book (g : list pystr) (ts_event recv : Z) : list Emit :=
  match s ← g !! F_BID1; py_float decimal s, s ← g !! F_ASK1; py_float decimal s with
  | Some bid, Some ask =>
      if fgt bid (of_int 0) && fgt ask (of_int 0)
      then [EmitBook (mkBook (lit "KIS") (field F_CODE g) ts_event recv bid (qty_at F_BID_QTY g) ask (qty_at F_ASK_QTY g)) true]
      else []
  | _, _ => []
  end.

Definition kis_record (g : list pystr) (recv : Z) (k : KIS) : KIS * list Emit :=
  if (length g <=? F_SIGN)%nat then (k, [])
  else
    match py_float decimal (field F_PRICE g), py_float decimal (field F_VOL g) with
    | Some price, Some vol =>
        let '(ts_event, ok) := synth_event_ns (field F_TIME g) recv in
        (count_record g ok k,
         EmitTrade (mkTrade (lit "KIS") (field F_CODE g) ts_event recv price vol (SIDE_BY_SIGN (field F_SIGN g))) true
         :: kis_book g ts_event recv)
    | _, _ => (k, [])
    end.

Fixpoint kis_records (n : nat) (stride : nat) (f : list pystr) (recv : Z) (k : KIS) : KIS * list Emit :=
  match n with
  | O => (k, [])
  | S n =>
      let '(k, es) := kis_record (take stride f) recv k in
      let '(k, es') := kis_records n stride (drop stride f) recv k in (k, es ++ es')
  end.

Definition kis_data (text : pystr) (recv : Z) (k : KIS) : KIS * list Emit :=
  match split_char 124 text with
  | flag :: tr :: n :: body :: _ =>
      if bool_decide (flag = lit "1") then
        (mkKIS (symbols k) (effective_limit k) (requested k) (subscribed k) (rejected k) (pingpongs k) (encrypted_skipped k + 1)
           (unknown_signs k) (ts_synth_ok k) (ts_synth_fallback k), [])
      else if negb (bool_decide (tr = TR_TRADE)) then (k, [])
      else
        let f := split_char 94 body in
        let count := default 1 (py_int decimal n) in
        if count <=? 0 then (k, [])
        else
          let stride := (length f / Z.to_nat count)%nat in
          if (stride <=? F_SIGN)%nat then (k, []) else kis_records (Z.to_nat count) stride f recv k
  | _ => (k, [])
  end.

(** ** KIS: control *)

Definition set_registrations (subs : list value) (rej : list (value * value * pystr)) (lim : option nat) (k : KIS) : KIS :=
  mkKIS (symbols k) lim (requested k) subs rej (pingpongs k) (encrypted_skipped k) (unknown_signs k) (ts_synth_ok k) (ts_synth_fallback k).
Definition count_pingpong (k : KIS) : KIS :=
  mkKIS (symbols k) (effective_limit k) (requested k) (subscribed k) (rejected k) (pingpongs k + 1) (encrypted_skipped k) (unknown_signs k)
    (ts_synth_ok k) (ts_synth_fallback k).

(** [==] of Python on values: numbers by their value, dicts whatever the order. *)
Definition number (v : value) : option (Z + float) :=
  match v with VBool b => Some (inl (Z.b2z b)) | VInt n => Some (inl n) | VFloat f => Some (inr f) | _ => None end.
Definition int_is_float (n : Z) (f : float) : bool :=
  match int_of_float f with Some z => (z =? n) && feq (of_int z) f | None => false end.
Definition number_eq (x y : Z + float) : bool :=
  match x, y with
  | inl n, inl m => n =? m
  | inr f, inr g => feq f g
  | inl n, inr f | inr f, inl n => int_is_float n f
  end.
Fixpoint py_eq (a b : value) : bool :=
  match a, b with
  | VNull, VNull => true
  | VStr s, VStr t => bool_decide (s = t)
  | VList l, VList r =>
      (fix go l r := match l, r with [], [] => true | x :: l, y :: r => py_eq x y && go l r | _, _ => false end) l r
  | VObj o, VObj q =>
      (length o =? length q)%nat
      && (fix go o := match o with [] => true | (key, x) :: o => match dget key q with Some y => py_eq x y | None => false end && go o end) o
  | _, _ => match number a, number b with Some x, Some y => number_eq x y | _, _ => false end
  end.

Definition learn (k : KIS) : option nat :=
  let n := length (subscribed k) in
  match effective_limit k with Some l => if (n <? l)%nat then Some n else Some l | None => Some n end.

(** A reply of the exchange: the state and whether a PONG frame is sent. *)
Definition registration (msg header : value) (k : KIS) : PR KIS :=
  let! body := vget (lit "body") msg in
  let body := vor body (VObj []) in
  let! rt_cd := vget (lit "rt_cd") body in
  let! m := vget (lit "msg1") body in
  let! msg1 := text_of (vor m (VStr [])) in
  let msg1 := strip msg1 in
  let! hk := vget (lit "tr_key") header in
  let! tr_key := (if vtrue hk then Ok hk else
                    let! out := vget (lit "output") body in vget (lit "tr_key") (vor out (VObj []))) in
  match rt_cd with
  | VNull => Ok k
  | _ =>
      if vis rt_cd (lit "0") || bool_decide (upper msg1 = lit "ALREADY IN SUBSCRIBE") then
        Ok (if vtrue tr_key && negb (existsb (py_eq tr_key) (subscribed k))
            then set_registrations (subscribed k ++ [tr_key]) (rejected k) (effective_limit k) k else k)
      else
        let k := set_registrations (subscribed k) (rejected k ++ [(tr_key, rt_cd, msg1)]) (effective_limit k) k in
        Ok (if is_prefix (lit "MAX SUBSCRIBE") (upper msg1) then set_registrations (subscribed k) (rejected k) (learn k) k else k)
  end.

Definition on_control (text : pystr) (k : KIS) : PR (KIS * bool) :=
  match loads text with
  | Err DecodeError => Ok (k, false)
  | Err TooManyDigits => Err ValueError
  | Ok msg =>
      let! h := vget (lit "header") msg in
      let header := vor h (VObj []) in
      let! tr_id := vget (lit "tr_id") header in
      if vis tr_id (lit "PINGPONG") then Ok (count_pingpong k, true)
      else let! k := registration msg header k in Ok (k, false)
  end.

(** A new session asks for the symbols up to the learned limit. *)
Definition new_session (k : KIS) : KIS :=
  let want := match effective_limit k with
              | Some l => if (l <? length (symbols k))%nat then take l (symbols k) else symbols k
              | None => symbols k
              end in
  mkKIS (symbols k) (effective_limit k) want [] [] (pingpongs k) (encrypted_skipped k) (unknown_signs k) (ts_synth_ok k) (ts_synth_fallback k).

Definition MAX_SUBSCRIPTIONS : nat := 41.
Definition new_kis (configured : list pystr) : KIS :=
  mkKIS (take MAX_SUBSCRIPTIONS configured) None [] [] [] 0 0 [] 0 0.

(** A message of either kind.  An exception ends the session; nothing was changed
    before it was raised. *)
Definition kis_on_message (text : pystr) (recv : Z) (k : KIS) : PR (KIS * list Emit) :=
  match text with
  | c :: _ => if c =? 123 then let! r := on_control text k in Ok (r.1, []) else Ok (kis_data text recv k)
  | [] => Ok (kis_data text recv k)
  end.

Inductive KisEvent := Session | Received (text : pystr) (recv : Z).
Definition kis_step (k : KIS) (ev : KisEvent) : KIS :=
  match ev with
  | Session => new_session k
  | Received text recv => match kis_on_message text recv k with Ok (k, _) => k | Err _ => k end
  end.
Definition kis_run (configured : list pystr) (evs : list KisEvent) : KIS := foldl kis_step (new_session (new_kis configured)) evs.

#[local] Set Default Proof Using "All".

(** ** A batch as the exchange writes it *)

(** [n] records of equal width in one message, after which fields may be left over. *)
Definition kis_frame (n : pystr) (rs : list (list pystr)) (extra : list pystr) : pystr :=
  lit "0" ++ 124 :: TR_TRADE ++ 124 :: n ++ 124 :: Ws.join [94] (concat rs ++ extra).

(** The trade of a record, when its price and volume are numbers, and its quote. *)
Definition record_trade (recv : Z) (g : list pystr) : option Trade :=
  price ← py_float decimal (field F_PRICE g); vol ← py_float decimal (field F_VOL g);
  Some (mkTrade (lit "KIS") (field F_CODE g) (synth_event_ns (field F_TIME g) recv).1 recv price vol (SIDE_BY_SIGN (field F_SIGN g))).
Definition record_out (recv : Z) (g : list pystr) : list Emit :=
  match record_trade recv g with
  | Some t => EmitTrade t true :: kis_book g (ts_event_ns t) recv
  | None => []
  end.

(** Ten minutes at most separate a completed time of day from the moment of receipt. *)
Lemma synth_near s recv : Z.abs (recv - (synth_event_ns s recv).1) <= MAX_TS_DRIFT_NS.
Proof.
  assert (Z.abs (recv - recv) <= MAX_TS_DRIFT_NS) by (rewrite Z.sub_diag; easy).
  unfold synth_event_ns. repeat case_match; cbn; try easy. lia.
Qed.

Definition counted (k k' : KIS) (n : Z) : Prop :=
  ts_synth_ok k' + ts_synth_fallback k' = ts_synth_ok k + ts_synth_fallback k + n /\
  symbols k' = symbols k /\ effective_limit k' = effective_limit k /\ requested k' = requested k /\
  subscribed k' = subscribed k /\ rejected k' = rejected k.

Lemma kis_record_spec g recv k :
  (F_SIGN < length g)%nat ->
  exists k', kis_record g recv k = (k', record_out recv g) /\
    counted k k' (match record_trade recv g with Some _ => 1 | None => 0 end).
Proof.
  intros Hl. unfold kis_record, record_out, record_trade.
  rewrite (proj2 (Nat.leb_gt _ _)) by done.
  destruct (py_float decimal (field F_PRICE g)) as [price|]; [|exists k; split; [done|unfold counted; cbn; repeat split; lia]].
  cbn. destruct (py_float decimal (field F_VOL g)) as [vol|]; [|exists k; split; [done|unfold counted; cbn; repeat split; lia]].
  cbn. destruct (synth_event_ns (field F_TIME g) recv) as [ts ok]. eexists. split; [done|].
  unfold counted, count_record. destruct ok; cbn; repeat split; lia.
Qed.

Lemma kis_records_spec w rs extra recv : forall k,
  Forall (fun r => length r = w) rs -> (F_SIGN < w)%nat ->
  exists k', kis_records (length rs) w (concat rs ++ extra) recv k = (k', concat (record_out recv <$> rs)) /\
    counted k k' (zlen (omap (record_trade recv) rs)).
Proof.
  induction rs as [|r rs IH]; intros k Hw Hl; cbn [kis_records length concat fmap list_fmap].
  { exists k. split; [done|]. repeat split. cbn. lia. }
  apply Forall_cons in Hw as [Hr Hw].
  rewrite <- app_assoc, take_app_length', drop_app_length' by done.
  destruct (kis_record_spec r recv k ltac:(lia)) as (k1 & -> & (C1 & C2)).
  destruct (IH k1 Hw Hl) as (k2 & -> & (D1 & D2)). exists k2. split; [done|].
  split; [|naive_solver congruence]. rewrite D1, C1. rewrite omap_step. destruct (record_trade recv r); rewrite ?length_cons; lia.
Qed.

Lemma kis_data_read n rs extra recv k w :
  rs <> [] -> py_int decimal n = Some (zlen rs) -> 124 ∉ n ->
  Forall (fun r => length r = w) rs -> (F_SIGN < w)%nat -> (length extra < length rs)%nat ->
  Forall (fun c => 94 ∉ c /\ 124 ∉ c) (concat rs ++ extra) ->
  kis_data (kis_frame n rs extra) recv k = kis_records (length rs) w (concat rs ++ extra) recv k.
Proof.
  intros Hrs Hn Hb Hw Hl He Hf.
  assert (Forall (fun c => 94 ∉ c) (concat rs ++ extra)) as Ha by (eapply Forall_impl; [exact Hf|naive_solver]).
  assert (Forall (fun c => 124 ∉ c) (concat rs ++ extra)) as Hc by (eapply Forall_impl; [exact Hf|naive_solver]).
  assert (length (concat rs) = length rs * w)%nat as Hlen.
  { clear -Hw. induction Hw as [|r rs Hr Hrs IH]; [done|]. cbn. rewrite length_app, IH, Hr. lia. }
  assert (0 < length rs)%nat by (destruct rs; cbn; [done|lia]).
  unfold kis_frame, kis_data.
  rewrite (split_char_app 124), (split_char_none 124 (lit "0")) by apply (bool_decide_unpack _), I.
  rewrite (split_char_app 124), (split_char_none 124 TR_TRADE) by apply (bool_decide_unpack _), I.
  rewrite (split_char_app 124), (split_char_none 124 n) by done.
  rewrite (split_char_none 124) by (by apply joined_free).
  cbn [app]. rewrite bool_decide_false by done. rewrite bool_decide_true by done. cbn [negb].
  rewrite split_joined by (done || (destruct rs as [|r rs]; [done|]; destruct r; cbn in *; [apply Forall_cons in Hw as [? _]; cbn in *; unfold F_SIGN in *; lia|done])).
  rewrite Hn. cbn [default from_option id]. rewrite (proj2 (Z.leb_gt (zlen rs) 0)) by lia. rewrite Nat2Z.id, length_app, Hlen.
  replace ((length rs * w + length extra) / length rs)%nat with w.
  2:{ apply Nat.div_unique with (length extra); lia. }
  rewrite (proj2 (Nat.leb_gt _ _)) by done. done.
Qed.

(** C32: A batch of the exchange is understood record by record: when the message says how
    many records it carries and they have one width, every record whose price and volume
    are numbers becomes one trade, with the quote it carries, in the order of the message;
    fields left over after the last record are ignored.  Each of these trades is counted
    as completed or as fallen back, nothing about the subscriptions changes, and no trade
    is dated more than ten minutes from its receipt. *)
Theorem kis_batch_understood n rs extra recv k w
  (Hrs : rs <> []) (Hn : py_int decimal n = Some (zlen rs)) (Hb : 124 ∉ n)
  (Hw : Forall (fun r => length r = w) rs) (Hl : (F_SIGN < w)%nat) (He : (length extra < length rs)%nat)
  (Hf : Forall (fun c => 94 ∉ c /\ 124 ∉ c) (concat rs ++ extra)) :
  exists k', kis_on_message (kis_frame n rs extra) recv k = Ok (k', concat (record_out recv <$> rs)) /\
    counted k k' (zlen (omap (record_trade recv) rs)) /\
    Forall (fun t => ts_recv_ns t = recv /\ Z.abs (recv - ts_event_ns t) <= MAX_TS_DRIFT_NS) (omap (record_trade recv) rs).
Proof.
  destruct (kis_records_spec w rs extra recv k Hw Hl) as (k' & Hk & Hc). exists k'.
  split; [|split; [done|]].
  - change (kis_on_message (kis_frame n rs extra) recv k) with (Ok (E := PyExc) (kis_data (kis_frame n rs extra) recv k)).
    by rewrite (kis_data_read n rs extra recv k w), Hk.
  - apply Forall_forall. intros t (g & Hg & Ht)%list_elem_of_omap. unfold record_trade in Ht.
    destruct (py_float decimal (field F_PRICE g)); [|done]. cbn in Ht.
    destruct (py_float decimal (field F_VOL g)); [|done]. cbn in Ht. injection Ht as <-. cbn.
    split; [done|apply synth_near].
Qed.

(** ** The learned limit *)

(** A message changes neither what was asked for nor what is configured, and never
    raises the limit. *)
Definition under (a b : option nat) : Prop :=
  match a, b with _, None => True | Some x, Some y => (x <= y)%nat | None, Some _ => False end.
Definition after (k k' : KIS) : Prop :=
  symbols k' = symbols k /\ requested k' = requested k /\ under (effective_limit k') (effective_limit k).

Lemma under_refl a : under a a.
Proof using. destruct a; cbn; lia. Qed.
Lemma under_trans a b c : under a b -> under b c -> under a c.
Proof using. destruct a, b, c; cbn; lia || done. Qed.
Lemma after_refl k : after k k.
Proof using. split; [done|split; [done|apply under_refl]]. Qed.
Lemma after_trans k1 k2 k3 : after k1 k2 -> after k2 k3 -> after k1 k3.
Proof using. unfold after. intros (? & ? & ?) (? & ? & ?). repeat split; [congruence..|by eapply under_trans]. Qed.

Lemma learn_under k : under (learn k) (effective_limit k).
Proof using. unfold learn. destruct (effective_limit k) as [l|]; [|done].
  destruct (Nat.ltb_spec (length (subscribed k)) l); cbn [under]; lia.
Qed.

Lemma registration_after msg header k k' : registration msg header k = Ok k' -> after k k'.
Proof.
  unfold registration. intros H.
  repeat match type of H with
  | rbind _ _ = _ => apply rbind_Ok in H as (? & _ & H)
  end.
  repeat case_match; simplify_eq; try apply after_refl; cbn;
    repeat split; cbn; (apply under_refl || apply (learn_under (set_registrations _ _ _ k))).
Qed.

Lemma kis_data_after text recv k : after k (kis_data text recv k).1.
Proof.
  assert (forall n w f k, after k (kis_records n w f recv k).1) as Hrec.
  { induction n as [|n IH]; intros w f k0; [apply after_refl|]. cbn [kis_records].
    destruct (kis_record (take w f) recv k0) as [k1 es] eqn:E. specialize (IH w (drop w f) k1).
    destruct (kis_records n w (drop w f) recv k1) as [k2 es']. refine (after_trans _ _ _ _ IH).
    revert E. unfold kis_record, count_record. repeat case_match; intros; simplify_eq;
      (apply after_refl || (split; [done|split; [done|apply under_refl]])). }
  unfold kis_data. repeat case_match; try apply after_refl; try apply Hrec.
  split; [done|split; [done|apply under_refl]].
Qed.

Lemma kis_step_after k text recv : after k (kis_step k (Received text recv)).
Proof.
  cbn [kis_step]. destruct (kis_on_message text recv k) as [[k' es]|e] eqn:E; [|apply after_refl].
  revert E. unfold kis_on_message.
  assert (forall k', Ok (E := PyExc) (kis_data text recv k) = Ok (k', es) -> after k k') as Hd.
  { intros k1 [= H]. pose proof (kis_data_after text recv k) as Ha. by rewrite H in Ha. }
  destruct text as [|c text]; [apply Hd|]. destruct (c =? 123); [|apply Hd].
  intros ([k1 b] & Hc & [= <- <-])%rbind_Ok. unfold on_control in Hc. cbn.
  destruct (loads (c :: text)) as [msg|[]]; [|by injection Hc as <- _; apply after_refl|done].
  apply rbind_Ok in Hc as (h & _ & Hc). apply rbind_Ok in Hc as (t & _ & Hc).
  destruct (vis t (lit "PINGPONG")).
  - injection Hc as <- _. split; [done|split; [done|apply under_refl]].
  - apply rbind_Ok in Hc as (k2 & Hr & Hc). injection Hc as <- _. by eapply registration_after.
Qed.

(** What holds of every state of a run that asked for at most [l]. *)
Definition held (configured : list pystr) (l : option nat) (k : KIS) : Prop :=
  symbols k = take MAX_SUBSCRIPTIONS configured /\ under (effective_limit k) l /\
  requested k `prefix_of` take MAX_SUBSCRIPTIONS configured /\ under (Some (length (requested k))) l.

Lemma under_some n m l : (n <= m)%nat -> under (Some m) l -> under (Some n) l.
Proof using. destruct l; cbn; lia || done. Qed.

Lemma new_session_held configured l k :
  symbols k = take MAX_SUBSCRIPTIONS configured -> under (effective_limit k) l -> held configured l (new_session k).
Proof using.
  intros Hs Hu. split; [done|]. split; [done|]. unfold new_session. cbn [requested]. rewrite Hs.
  destruct (effective_limit k) as [m|]; cbn [under] in Hu; [|by destruct l].
  destruct (Nat.ltb_spec m (length (take MAX_SUBSCRIPTIONS configured))) as [Hm|Hm].
  - split; [by eexists; symmetry; apply take_drop|]. eapply under_some, Hu. rewrite length_take. lia.
  - split; [done|]. by eapply under_some, Hu.
Qed.

Lemma kis_step_held configured l k ev : held configured l k -> held configured l (kis_step k ev).
Proof.
  intros (Hs & Hu & Hp & Hl). destruct ev as [|text recv]; [by apply new_session_held|].
  destruct (kis_step_after k text recv) as (H1 & H2 & H3). unfold held. rewrite H1, H2.
  repeat split; try done. by eapply under_trans.
Qed.

Lemma kis_run_app configured evs evs' : kis_run configured (evs ++ evs') = foldl kis_step (kis_run configured evs) evs'.
Proof. apply foldl_app. Qed.

Lemma kis_fold_held configured l evs : forall k, held configured l k -> held configured l (foldl kis_step k evs).
Proof. induction evs as [|ev evs IH]; intros k H; [done|]. cbn. by apply IH, kis_step_held. Qed.

Lemma kis_run_held configured evs : held configured None (kis_run configured evs).
Proof. apply kis_fold_held, new_session_held; done. Qed.

(** The limit that a refusal teaches holds for good: it never exceeds what is
    configured nor 41, every later session asks for a prefix of the configured symbols no
    longer than it, whatever messages arrive and however often the session is renewed,
    and it never rises again; a limit of zero leaves every later session with nothing to
    ask for. *)
Theorem learned_limit_sticks configured evs evs' l
  (Hl : effective_limit (kis_run configured evs) = Some l) :
  let k := kis_run configured (evs ++ Session :: evs') in
  requested k `prefix_of` take MAX_SUBSCRIPTIONS configured /\
  (length (requested k) <= l)%nat /\
  (exists l', effective_limit k = Some l' /\ (l' <= l)%nat) /\
  (l = 0%nat -> requested k = []).
Proof.
  assert (held configured (Some l) (kis_run configured (evs ++ Session :: evs'))) as (_ & Hu & Hp & Hr).
  { rewrite kis_run_app. cbn [foldl]. apply kis_fold_held. cbn [kis_step]. apply new_session_held.
    - apply (kis_run_held configured evs).
    - rewrite Hl. apply under_refl. }
  cbn [under] in Hr. split; [done|]. split; [done|]. split.
  - destruct (effective_limit (kis_run configured (evs ++ _))) as [l'|]; [by exists l'|done].
  - intros ->. apply length_zero_iff_nil. lia.
Qed.

(** ** One message, one trade *)

(** What a message of Upbit or Binance can hand on: nothing; a trade; a trade and the
    quote of the same code at the same times. *)
Definition one_trade (recv : Z) (es : list Emit) : Prop :=
  match es with
  | [] => True
  | EmitTrade t live :: rest =>
      ts_recv_ns t = recv /\ (exists ms, ts_event_ns t = ms * ms_ns) /\ (side t = SIDE_BUY \/ side t = SIDE_SELL) /\
      match rest with
      | [] => True
      | [EmitBook b live'] =>
          live' = live /\ bk_symbol b = symbol t /\ bk_ts_event_ns b = ts_event_ns t /\ bk_ts_recv_ns b = recv
      | _ => False
      end
  | _ => False
  end.

Lemma upbit_book_shape m ts recv live es :
  upbit_book m ts recv live = Ok es -> es = [] \/
  exists b, es = [EmitBook b live] /\ Ok (E := PyExc) (bk_symbol b) = (let! code := vitem (lit "code") m in text_of code) /\
    bk_ts_event_ns b = ts /\ bk_ts_recv_ns b = recv.
Proof.
  unfold upbit_book. intros H. apply rbind_Ok in H as (bid & _ & H). apply rbind_Ok in H as (ask & _ & H).
  destruct (vtrue bid && vtrue ask); [|injection H as <-; by left]. right.
  apply rbind_Ok in H as (code & Hc & H). do 4 apply rbind_Ok in H as (? & _ & H).
  apply rbind_Ok in H as (s & Hs & H). injection H as <-. eexists. split; [done|]. cbn [bk_symbol bk_ts_event_ns bk_ts_recv_ns]. rewrite Hc. cbn [rbind]. by rewrite Hs.
Qed.

Lemma upbit_one_trade m recv : one_trade recv (emits (upbit_records m recv)).
Proof.
  unfold upbit_records. destruct (vget (lit "type") m) as [t|e]; [|done].
  destruct (negb (vis t (lit "trade"))); [done|].
  destruct (upbit_trade m recv) as [[[ts live] tr]|e] eqn:E; [|done]. cbn [then_emit emits one_trade].
  unfold upbit_trade in E. apply rbind_Ok in E as (tt & _ & E). apply rbind_Ok in E as (ms & _ & E).
  do 2 apply rbind_Ok in E as (? & _ & E). apply rbind_Ok in E as (code & Hc & E).
  do 4 apply rbind_Ok in E as (? & _ & E). apply rbind_Ok in E as (s & Hs & E). injection E as <- <- <-.
  cbn [ts_recv_ns ts_event_ns side symbol]. split; [done|]. split; [by exists ms|].
  split; [destruct (vis _ _); (by left) || (by right)|].
  destruct (upbit_book m _ recv _) as [es|e] eqn:Eb; [|done]. cbn [out_of emits].
  destruct (upbit_book_shape _ _ _ _ _ Eb) as [->|(b & -> & Hb & ? & ?)]; [done|].
  rewrite Hc in Hb. cbn [rbind] in Hb. rewrite Hs in Hb. injection Hb as ->. done.
Qed.

Lemma binance_one_trade env recv : one_trade recv (emits (out_of (binance_records env recv))).
Proof.
  unfold binance_records. destruct (vget (lit "data") env) as [data|]; [|done]. cbn [rbind].
  destruct (vget (lit "e") (vor data env)) as [e|]; [|done]. cbn [rbind].
  destruct (negb (vis e (lit "trade"))); [done|].
  destruct (binance_trade (vor data env) recv) as [es|] eqn:E; [|done]. unfold binance_trade in E.
  do 2 apply rbind_Ok in E as (? & _ & E). apply rbind_Ok in E as (ms & _ & E).
  do 6 apply rbind_Ok in E as (? & _ & E). injection E as <-. cbn.
  split; [done|]. split; [by exists ms|]. split; [|done]. destruct (vtrue _); ((by left) || (by right)).
Qed.

(** One message of Upbit or Binance hands on at most one trade, dated in whole
    milliseconds of the exchange and taken by a buyer or a seller; Upbit may add one
    quote, of the same code at the same times and measured or not as the trade is.  A
    message that is no JSON is counted as an error, hands on nothing and raises nothing; no
    other message is counted. *)
Theorem message_one_trade text recv errors :
  (forall o errors', upbit_on_message text recv errors = (errors', o) \/ binance_on_message text recv errors = (errors', o) ->
     one_trade recv (emits o) /\
     match loads text with
     | Err DecodeError => errors' = errors + 1 /\ o = mkOut [] None
     | _ => errors' = errors
     end).
Proof.
  intros o errors' H. unfold upbit_on_message, binance_on_message, on_json in H.
  destruct (loads text) as [m|[]]; destruct H as [[= <- <-]|[= <- <-]]; split; try done.
  - apply upbit_one_trade.
  - apply binance_one_trade.
Qed.

(** The streams of the messages are all the streams, in order, in messages numbered in
    sequence, none of which asks for more than the exchange takes. *)
Theorem chunks_all fuel : forall n streams, (length streams <= fuel)%nat ->
  let cs := subscribe_chunks fuel n streams in
  concat (snd <$> cs) = streams /\ Forall (fun c => (length c.2 <= SUBSCRIBE_CHUNK)%nat) cs /\ (fst <$> cs) = seqZ n (zlen cs).
Proof using.
  induction fuel as [|fuel IH]; intros n streams H.
  { destruct streams; [done|cbn in H; lia]. }
  destruct streams as [|s streams]; [done|]. cbn [subscribe_chunks]. set (all := s :: streams) in *.
  destruct (IH (n + 1) (drop SUBSCRIBE_CHUNK all)) as (H1 & H2 & H3).
  { rewrite length_drop. unfold SUBSCRIBE_CHUNK. lia. }
  cbn [fmap list_fmap concat fst snd]. rewrite H1, H3. split; [apply take_drop|]. split.
  - constructor; [cbn [snd]; rewrite length_take; lia|done].
  - rewrite (seqZ_cons n) by (cbn [length]; lia). cbn [length]. f_equal. f_equal; lia.
Qed.

End exchanges.

(** ** Samples *)

(** A record of the real time trades: code, time, price, best ask and bid, volume, side. *)
Definition sample_record (code time price ask bid vol sign : string) : list pystr :=
  [lit code; lit time; lit price] ++ replicate 7 (lit "0") ++ [lit ask; lit bid; lit vol] ++ replicate 8 (lit "0")
  ++ [lit sign] ++ replicate 14 (lit "0") ++ [lit "30"; lit "40"].
Definition two_records : list (list pystr) :=
  [sample_record "005930" "093015" "71000" "71100" "71000" "12" "1"; sample_record "005930" "093016" "70900" "0" "0" "x" "5"].
Definition kis_handle : pystr -> Z -> KIS -> PR (KIS * list Emit) := kis_on_message ascii_only (fun s => s) is_digit.

Lemma kis_batch_understood_witness :
  exists k', kis_handle (kis_frame (lit "2") two_records [lit "tail"]) 5000000000 (new_kis []) =
      Ok (k', concat (record_out ascii_only is_digit 5000000000 <$> two_records)) /\
    counted (new_kis []) k' (zlen (omap (record_trade ascii_only is_digit 5000000000) two_records)) /\
    Forall (fun t => ts_recv_ns t = 5000000000 /\ Z.abs (5000000000 - ts_event_ns t) <= MAX_TS_DRIFT_NS)
      (omap (record_trade ascii_only is_digit 5000000000) two_records).
Proof.
  apply (kis_batch_understood ascii_only (fun s => s) is_digit (lit "2") two_records [lit "tail"] 5000000000 (new_kis []) 38).
  - done.
  - reflexivity.
  - apply (bool_decide_unpack _). by vm_compute.
  - apply (bool_decide_unpack _). by vm_compute.
  - apply (bool_decide_unpack _). by vm_compute.
  - apply (bool_decide_unpack _). by vm_compute.
  - apply (bool_decide_unpack _). by vm_compute.
Defined.

Definition registered (code : string) : pystr :=
  lit "{" ++ quoted "'header': {'tr_id': 'H0STCNT0', 'tr_key': '" ++ lit code ++ quoted "'}, 'body': {'rt_cd': '0', 'msg1': 'SUBSCRIBE SUCCESS'}" ++ lit "}".
Definition refused (code : string) : pystr :=
  lit "{" ++ quoted "'header': {'tr_id': 'H0STCNT0', 'tr_key': '" ++ lit code ++ quoted "'}, 'body': {'rt_cd': '1', 'msg1': 'MAX SUBSCRIBE OVER'}" ++ lit "}".

Lemma learned_limit_sticks_witness :
  let run := kis_run ascii_only (fun s => s) is_digit (lit <$> ["005930"; "000660"; "035420"]%string) in
  let evs := [Received (registered "005930") 1; Received (refused "000660") 2] in
  let k := run (evs ++ Session :: [Received (registered "005930") 3]) in
  requested k `prefix_of` take MAX_SUBSCRIPTIONS (lit <$> ["005930"; "000660"; "035420"]%string) /\
  (length (requested k) <= 1)%nat /\
  (exists l', effective_limit k = Some l' /\ (l' <= 1)%nat) /\
  (1%nat = 0%nat -> requested k = []).
Proof.
  apply (learned_limit_sticks ascii_only (fun s => s) is_digit (lit <$> ["005930"; "000660"; "035420"]%string)
           [Received (registered "005930") 1; Received (refused "000660") 2] [Received (registered "005930") 3] 1).
  by vm_compute.
Defined.

(** A refusal before any registration: nothing is asked for any more. *)
Example learned_zero :
  let run := kis_run ascii_only (fun s => s) is_digit (lit <$> ["005930"; "000660"]%string) in
  requested (run [Received (refused "005930") 1; Session; Session]) = [].
Proof. by vm_compute. Qed.

(** The day of the receipt is taken in Korea: 09:30:15 there is half past midnight in UTC,
    and a second past midnight is not yet the day of a receipt before it. *)
Example synth_sample : synth_event_ns ascii_only is_digit (lit "093015") 1700008216000000000 = (1700008215000000000, true)
  /\ synth_event_ns ascii_only is_digit (lit "000001") 1700060398000000000 = (1700060398000000000, false)
  /\ synth_event_ns ascii_only is_digit (lit "240000") 1700008216000000000 = (1700008216000000000, false).
Proof. by vm_compute. Qed.

Definition upbit_sample : pystr :=
  lit "{" ++ quoted "'type':'trade','code':'KRW-BTC','trade_timestamp':1700000000123,'trade_price':50000000.0,'trade_volume':0.5,'ask_bid':'ASK','stream_type':'SNAPSHOT','best_bid_price':49999000,'best_ask_price':50000000,'best_bid_size':1.5" ++ lit "}".
Example upbit_sample_read :
  upbit_on_message ascii_only upbit_sample 7 0 =
  (0, mkOut [EmitTrade (mkTrade (lit "UPBIT") (lit "KRW-BTC") 1700000000123000000 7 (of_int 50000000) (fdiv (of_int 1) (of_int 2)) SIDE_SELL) false;
             EmitBook (mkBook (lit "UPBIT") (lit "KRW-BTC") 1700000000123000000 7 (of_int 49999000) (fdiv (of_int 3) (of_int 2))
                         (of_int 50000000) (of_int 0)) false] None).
Proof. by vm_compute. Qed.

(** JSON that is no object ends the session: the error is not counted. *)
Example list_raises : upbit_on_message ascii_only (lit "[]") 7 0 = (0, mkOut [] (Some AttributeError)).
Proof. by vm_compute. Qed.

(** At 09:00:00 and 15:40:00 on a Monday the market is open; a microsecond later, and on
    Saturday, it is not. *)
Example market_sample :
  let monday := 4 * DAY_S * 1000000 in
  market_is_open (monday + 32400 * 1000000) && market_is_open (monday + 56400 * 1000000)
  && negb (market_is_open (monday + 56400 * 1000000 + 1)) && negb (market_is_open (monday + 5 * DAY_S * 1000000 + 40000 * 1000000)) = true.
Proof. by vm_compute. Qed.
End Exchanges.
