(* ===== verification/Token.v ===== *)
(** * The shared access token (src/src/mdfeed/adapters/kis_token.py)

    Several processes share one cache file and a file lock beside it, so that the exchange
    issues one token a day.  A store holds its own lock while it waits for the file lock
    and while its request is out; the steps of the stores interleave freely. *)

From S2P Require Import Prelude PyStr PyFloat Dict JsonValue.

#[local] Open Scope Z_scope.

Module Token.
Import JsonValue.JsonValue.

Section token.
Variable decimal : Z -> option Z.

(** Seconds since 1970. *)
Definition MIN_REMAIN_S : float := of_int 600.

(** The cache as it is read: [None] when the file is missing, unreadable or no JSON. *)
Abbreviation File := (option value) (only parsing).

Definition read_cache (f : File) (now : float) : PR (option (value * float)) :=
  match f with
  | None => Ok None
  | Some d =>
      let! e := vget_or (lit "expires_at") (VInt 0) d in
      let! exp := vfloat decimal e in
      if fgt exp (fadd now MIN_REMAIN_S) then
        let! t := vget (lit "access_token") d in Ok (if vtrue t then Some (t, exp) else None)
      else Ok None
  end.

Definition cache_of (tok : value) (exp : float) : value := VObj [(lit "access_token", tok); (lit "expires_at", VFloat exp)].

(** What an answer of the exchange yields: the token and until when it is used. *)
Definition issue (d : value) (now : float) : PR (value * float) :=
  let! e := vget_or (lit "expires_in") (VInt 86400) d in
  let! seconds := vint decimal e in
  let! seconds := vfloat decimal (VInt seconds) in
  let! t := vitem (lit "access_token") d in
  Ok (t, fsub (fadd now seconds) (of_int 120)).

(** ** Stores and threads *)

(** A thread that fetches a token for a store waits for the file lock, then for the answer. *)
Inductive Phase := AwaitFile | AwaitAnswer.
(** [busy] is the thread for which a task waits, with the store's lock in its hands. *)
Record Store := mkStore { tok : value; exp : float; issues : Z; busy : option nat }.
Definition new_store : Store := mkStore VNull (of_int 0) 0 None.

Definition fresh (s : Store) (now : float) : bool := vtrue (tok s) && fgt (exp s) (fadd now (of_int 60)).

(** The stores, the threads with their store, the cache file, the thread that holds the
    file lock, and the moments at which the exchange was asked for a token. *)
Record World := mkWorld
  { stores : gmap nat Store; threads : gmap nat (nat * Phase); next : nat; file : File; lock : option nat; requests : list float }.
Definition store (w : World) (i : nat) : Store := default new_store (stores w !! i).
Definition put (i : nat) (s : Store) (w : World) : World :=
  mkWorld (<[i := s]> (stores w)) (threads w) (next w) (file w) (lock w) (requests w).

Definition waiting_for (n : option nat) (s : Store) : Store := mkStore (tok s) (exp s) (issues s) n.
Definition with_token (te : value * float) (s : Store) : Store := mkStore te.1 te.2 (issues s) None.

(** What a step shows to the task that asked: a token, an exception, or that it waits. *)
Inductive Seen := Returned (t : value) | Failed | Waits.

(** [token()] of store [i].  While another task holds the store's lock the caller waits,
    and asks again when it is free. *)
Definition ask (i : nat) (now : float) (w : World) : World * Seen :=
  let s := store w i in
  if fresh s now then (w, Returned (tok s))
  else
    match busy s with
    | None =>
        match read_cache (file w) now with
        | Err _ => (w, Failed)
        | Ok (Some te) => (put i (with_token te s) w, Returned te.1)
        | Ok None =>
            let w := put i (waiting_for (Some (next w)) s) w in
            (mkWorld (stores w) (<[next w := (i, AwaitFile)]> (threads w)) (S (next w)) (file w) (lock w) (requests w), Waits)
        end
    | Some _ => (w, Waits)
    end.

(** A thread ends and lets go of the file lock; the task that waits for it, if it still
    does, gets what it brings. *)
Definition finish (n i : nat) (r : option (value * float)) (w : World) : World * Seen :=
  let s := store w i in
  let w := mkWorld (stores w) (delete n (threads w)) (next w) (file w) (if bool_decide (lock w = Some n) then None else lock w) (requests w) in
  if bool_decide (busy s = Some n)
  then match r with
       | Some te => (put i (with_token te s) w, Returned te.1)
       | None => (put i (waiting_for None s) w, Failed)
       end
  else (w, Waits).

(** [_issue_locked] once the file lock is its own: the cache is read again. *)
Definition file_locked (n : nat) (now : float) (w : World) : World * Seen :=
  match threads w !! n, lock w with
  | Some (i, AwaitFile), None =>
      match read_cache (file w) now with
      | Err _ => finish n i None w
      | Ok (Some te) => finish n i (Some te) w
      | Ok None => (mkWorld (stores w) (<[n := (i, AwaitAnswer)]> (threads w)) (next w) (file w) (Some n) (requests w ++ [now]), Waits)
      end
  | _, _ => (w, Waits)
  end.

Definition count_issue (i : nat) (f : File) (w : World) : World :=
  let s := store w i in
  let w := put i (mkStore (tok s) (exp s) (issues s + 1) (busy s)) w in
  mkWorld (stores w) (threads w) (next w) f (lock w) (requests w).

(** The answer, [None] when the request failed or is no JSON; [written] says whether the
    cache could be replaced. *)
Definition answered (n : nat) (now : float) (d : option value) (written : bool) (w : World) : World * Seen :=
  match threads w !! n with
  | Some (i, AwaitAnswer) =>
      match d with
      | None => finish n i None w
      | Some d =>
          match issue d now with
          | Err _ => finish n i None w
          | Ok te => if written then finish n i (Some te) (count_issue i (Some (cache_of te.1 te.2)) w) else finish n i None w
          end
      end
  | _ => (w, Waits)
  end.

(** The task that holds a store's lock is cancelled: its thread goes on. *)
Definition cancelled (i : nat) (w : World) : World := put i (waiting_for None (store w i)) w.

(** The process of a store ends with its threads; the system releases their lock, and the
    store of a process that starts anew is empty. *)
Definition ended (i : nat) (w : World) : World :=
  let gone n := match threads w !! n with Some (j, _) => bool_decide (j = i) | None => false end in
  mkWorld (delete i (stores w)) (filter (fun x => x.2.1 <> i) (threads w)) (next w) (file w)
    (match lock w with Some n => if gone n : bool then None else Some n | None => None end) (requests w).

Inductive Event :=
| Ask (i : nat) (now : float)
| FileLocked (n : nat) (now : float)
| Answered (n : nat) (now : float) (d : option value) (written : bool)
| Cancelled (i : nat)
| Ended (i : nat)
| Meddled (f : File).          (* someone else changes the file *)

Definition token_step (w : World) (e : Event) : World * Seen :=
  match e with
  | Ask i now => ask i now w
  | FileLocked n now => file_locked n now w
  | Answered n now d written => answered n now d written w
  | Cancelled i => (cancelled i w, Waits)
  | Ended i => (ended i w, Waits)
  | Meddled f => (mkWorld (stores w) (threads w) (next w) f (lock w) (requests w), Waits)
  end.
Definition token_run (w : World) (es : list Event) : World := foldl (fun w e => (token_step w e).1) w es.
Definition init (f : File) : World := mkWorld ∅ ∅ 0 f None [].

(** ** One request at a time *)

#[local] Set Default Proof Using "All".

(** Only the holder of the file lock has a request out, and it is a thread that runs. *)
Definition lock_ok (w : World) : Prop :=
  (forall n i, threads w !! n = Some (i, AwaitAnswer) -> lock w = Some n) /\
  (forall n, lock w = Some n -> exists i, threads w !! n = Some (i, AwaitAnswer)) /\
  (forall n, (next w <= n)%nat -> threads w !! n = None).

Lemma finish_fields n i r w :
  threads (finish n i r w).1 = delete n (threads w) /\ next (finish n i r w).1 = next w /\ file (finish n i r w).1 = file w /\
  lock (finish n i r w).1 = (if bool_decide (lock w = Some n) then None else lock w) /\ requests (finish n i r w).1 = requests w.
Proof. unfold finish. destruct (bool_decide (busy _ = _)); [destruct r|]; done. Qed.

Lemma finish_requests n i r w : requests (finish n i r w).1 = requests w.
Proof. apply finish_fields. Qed.

Lemma finish_ok n i r w : lock_ok w -> lock_ok (finish n i r w).1.
Proof.
  intros (H1 & H2 & H3). destruct (finish_fields n i r w) as (Et & En & _ & El & _). unfold lock_ok. rewrite Et, En, El.
  split; [|split].
  - intros m j (Hm & Hj)%lookup_delete_Some. apply H1 in Hj. rewrite bool_decide_false by congruence. done.
  - intros m. case_bool_decide as Hl; [done|]. intros Hm. destruct (H2 m Hm) as (j & Hj). exists j.
    apply lookup_delete_Some. split; [congruence|done].
  - intros m Hm. apply lookup_delete_None. right. by apply H3.
Qed.

Lemma token_step_ok w e : lock_ok w -> lock_ok (token_step w e).1.
Proof.
  intros H. pose proof H as (H1 & H2 & H3). destruct e as [i now|n now|n now d wr|i|i|f]; cbn [token_step fst].
  - unfold ask. destruct (fresh _ _); [done|]. destruct (busy _); [done|].
    destruct (read_cache (file w) now) as [[te|]|]; [done| |done]. unfold lock_ok. cbn. split; [|split].
    + intros m j [(_ & [=])|(_ & Hm)]%lookup_insert_Some. by eapply H1.
    + intros m Hm. destruct (H2 m Hm) as (j & Hj). exists j. apply lookup_insert_Some. right. split; [|done].
      intros <-. by rewrite H3 in Hj.
    + intros m Hm. apply lookup_insert_None. split; [apply H3|]; lia.
  - unfold file_locked. destruct (threads w !! n) as [[i []]|] eqn:En; [|done..].
    destruct (lock w) eqn:El; [done|]. destruct (read_cache (file w) now) as [[te|]|]; [by apply finish_ok| |by apply finish_ok].
    unfold lock_ok. cbn. split; [|split].
    + intros m j [(-> & _)|(_ & Hm)]%lookup_insert_Some; [done|]. by apply H1 in Hm.
    + intros m [= <-]. exists i. apply lookup_insert_eq.
    + intros m Hm. apply lookup_insert_None. split; [by apply H3|]. intros <-. by rewrite H3 in En.
  - unfold answered. destruct (threads w !! n) as [[i []]|] eqn:En; [done| |done].
    destruct d as [d|]; [|by apply finish_ok]. destruct (issue d now) as [te|]; [|by apply finish_ok].
    destruct wr; by apply finish_ok.
  - done.
  - unfold lock_ok. cbn. split; [|split].
    + intros m j (Hm & Hj)%map_lookup_filter_Some. cbn in Hj. rewrite (H1 _ _ Hm), Hm. by rewrite bool_decide_false by done.
    + intros m Hm. destruct (lock w) as [k|] eqn:El; [|done]. destruct (H2 k eq_refl) as (j & Hj). rewrite Hj in Hm.
      case_bool_decide; [done|]. injection Hm as <-. exists j. by apply map_lookup_filter_Some.
    + intros m Hm. apply map_lookup_filter_None. left. by apply H3.
  - done.
Qed.

Lemma token_run_ok f es : lock_ok (token_run (init f) es).
Proof.
  unfold token_run. assert (lock_ok (init f)) as H. { repeat split; try done. }
  revert H. generalize (init f). induction es as [|e es IH]; intros w H; [done|]. cbn. by apply IH, token_step_ok.
Qed.
Definition meddles (e : Event) : bool := match e with Meddled _ => true | _ => false end.

Lemma step_requests w e : exists l, requests (token_step w e).1 = requests w ++ l.
Proof.
  assert (forall w', requests w' = requests w -> exists l, requests w' = requests w ++ l) as Hs.
  { intros w' H. exists []. by rewrite app_nil_r. }
  destruct e as [i now|n now|n now d wr|i|i|f]; cbn [token_step fst].
  - apply Hs. unfold ask. by repeat case_match.
  - unfold file_locked. repeat case_match; cbn [fst]; try (apply Hs; done); try (apply Hs, finish_requests). by exists [now].
  - apply Hs. unfold answered. repeat case_match; try done; cbn [fst]; by rewrite finish_requests.
  - by apply Hs.
  - by apply Hs.
  - by apply Hs.
Qed.

Lemma run_requests es : forall w, exists l, requests (token_run w es) = requests w ++ l.
Proof.
  induction es as [|e es IH]; intros w; [exists []; by rewrite app_nil_r|].
  cbn. destruct (step_requests w e) as (l & Hl). destruct (IH (token_step w e).1) as (k & Hk).
  exists (l ++ k). unfold token_run in Hk. by rewrite Hk, Hl, app_assoc.
Qed.

(** While no request is out and none is sent, the cache stays as it is. *)
Lemma quiet_step w e :
  lock_ok w -> lock w = None -> meddles e = false -> requests (token_step w e).1 = requests w ->
  lock (token_step w e).1 = None /\ file (token_step w e).1 = file w.
Proof.
  intros (H1 & _ & _) Hl He Hr. destruct e as [i now|n now|n now d wr|i|i|f]; cbn [token_step fst] in *.
  - unfold ask. by repeat case_match.
  - unfold file_locked in *. destruct (threads w !! n) as [[i []]|]; [|done..]. rewrite Hl in *.
    assert (forall r, lock (finish n i r w).1 = None /\ file (finish n i r w).1 = file w) as Hf.
    { intros r. destruct (finish_fields n i r w) as (_ & _ & -> & -> & _). by rewrite Hl. }
    destruct (read_cache (file w) now) as [[te|]|]; [apply Hf| |apply Hf]. cbn in Hr.
    apply (f_equal length) in Hr. rewrite length_app in Hr. cbn in Hr. lia.
  - unfold answered. destruct (threads w !! n) as [[i []]|] eqn:En; [done| |done]. apply H1 in En. congruence.
  - done.
  - cbn. by rewrite Hl.
  - done.
Qed.

Lemma quiet_run es : forall w,
  lock_ok w -> lock w = None -> Forall (fun e => meddles e = false) es -> requests (token_run w es) = requests w ->
  lock_ok (token_run w es) /\ lock (token_run w es) = None /\ file (token_run w es) = file w.
Proof.
  induction es as [|e es IH]; intros w Ho Hl Hm Hr; [done|]. apply Forall_cons in Hm as [He Hm]. cbn in *.
  destruct (step_requests w e) as (l & Hs). destruct (run_requests es (token_step w e).1) as (k & Hk).
  unfold token_run in Hk. rewrite Hk, Hs, <- app_assoc in Hr. rewrite <- (app_nil_r (requests w)) in Hr at 2.
  apply app_inv_head, app_eq_nil in Hr as [-> ->]. rewrite app_nil_r in Hs, Hk.
  destruct (quiet_step w e Ho Hl He Hs) as [Hl' Hf]. rewrite <- Hf. apply IH; try done. by apply token_step_ok.
Qed.

(** What was written is what is read, as long as it is good. *)
Lemma read_back te now :
  vtrue te.1 = true -> read_cache (Some (cache_of te.1 te.2)) now = Ok (if fgt te.2 (fadd now MIN_REMAIN_S) then Some te else None).
Proof.
  destruct te as [t e]. cbn [fst snd]. intros Ht.
  assert (vget_or (lit "expires_at") (VInt 0) (cache_of t e) = Ok (VFloat e)) as H1 by done.
  assert (vget (lit "access_token") (cache_of t e) = Ok t) as H2 by done.
  unfold read_cache. rewrite H1. cbn [rbind vfloat]. destruct (fgt e (fadd now MIN_REMAIN_S)); [|done].
  rewrite H2. cbn [rbind]. by rewrite Ht.
Qed.

Lemma request_means_miss w m now2 :
  requests (token_step w (FileLocked m now2)).1 <> requests w -> read_cache (file w) now2 = Ok None.
Proof.
  cbn [token_step]. unfold file_locked. destruct (threads w !! m) as [[i []]|]; [|done..]. destruct (lock w); [done|].
  destruct (read_cache (file w) now2) as [[te|]|]; [|done|]; intros H; exfalso; apply H, finish_requests.
Qed.

(** C33: The exchange is asked for one token in a token's life, whatever the processes and
    their threads do, are cancelled or die: at most one request is ever out, and after an
    issue that was written to the cache, with a token in it, the next request goes out only when that
    token has ten minutes or less to live; only a change of the file by someone else can
    bring it forward. *)
Theorem one_issue_per_life f es1 n i now1 d te es2 m now2
  (Hout : threads (token_run (init f) es1) !! n = Some (i, AwaitAnswer))
  (Hi : issue d now1 = Ok te) (Ht : vtrue te.1 = true) (Hm : Forall (fun e => meddles e = false) es2) :
  let w1 := token_run (init f) es1 in
  let w2 := (token_step w1 (Answered n now1 (Some d) true)).1 in
  let w3 := token_run w2 es2 in
  (forall n' i', threads w1 !! n' = Some (i', AwaitAnswer) -> n' = n) /\
  (requests w3 = requests w2 -> requests (token_step w3 (FileLocked m now2)).1 <> requests w3 ->
   fgt te.2 (fadd now2 MIN_REMAIN_S) = false).
Proof.
  intros w1 w2 w3. pose proof (token_run_ok f es1) as Ho. fold w1 in Hout, Ho. split.
  { intros n' i' Hn'. apply (proj1 Ho) in Hout, Hn'. congruence. }
  intros Hr Hq. apply request_means_miss in Hq.
  assert (lock_ok w2) as Ho2 by by apply token_step_ok.
  assert (lock w2 = None /\ file w2 = Some (cache_of te.1 te.2)) as [Hl2 Hf2].
  { unfold w2. cbn [token_step]. unfold answered. rewrite Hout, Hi.
    destruct (finish_fields n i (Some te) (count_issue i (Some (cache_of te.1 te.2)) w1)) as (_ & _ & -> & -> & _).
    cbn. by rewrite ((proj1 Ho) _ _ Hout), bool_decide_true by done. }
  destruct (quiet_run es2 w2 Ho2 Hl2 Hm Hr) as (_ & _ & Hf3). fold w3 in Hf3.
  rewrite Hf3, Hf2, read_back in Hq by done. by destruct (fgt te.2 (fadd now2 MIN_REMAIN_S)).
Qed.

(** ** A cache that does not heal *)

(** JSON that is no object with a readable time of expiry. *)
Definition unreadable (d : value) : Prop := exists e, (let! x := vget_or (lit "expires_at") (VInt 0) d in vfloat decimal x) = Err e.

Lemma unreadable_fails d now : unreadable d -> exists x, read_cache (Some d) now = Err x.
Proof.
  intros (x & Hx). exists x. unfold read_cache. destruct (vget_or (lit "expires_at") (VInt 0) d) as [v|]; cbn [rbind] in *; [|congruence].
  destruct (vfloat decimal v); [done|]. cbn [rbind]. congruence.
Qed.

Definition stuck (d : value) (w : World) : Prop :=
  threads w = ∅ /\ requests w = [] /\ file w = Some d /\ forall i, vtrue (tok (store w i)) = false /\ busy (store w i) = None.

Lemma store_put w i j s : store (put i s w) j = if bool_decide (i = j) then s else store w j.
Proof. unfold store, put. cbn. case_bool_decide; [subst; by rewrite lookup_insert_eq|by rewrite lookup_insert_ne]. Qed.

Lemma stuck_token_step d w e : unreadable d -> stuck d w -> meddles e = false ->
  stuck d (token_step w e).1 /\ forall t, (token_step w e).2 <> Returned t.
Proof.
  intros Hd (Hth & Hr & Hf & Hs) He. assert (stuck d w) as Hw by done.
  destruct e as [i now|n now|n now x wr|i|i|f]; cbn [token_step fst snd].
  - unfold ask, fresh. destruct (Hs i) as [-> ->]. cbn. rewrite Hf. by destruct (unreadable_fails d now Hd) as (x & ->).
  - unfold file_locked. by rewrite Hth, lookup_empty.
  - unfold answered. by rewrite Hth, lookup_empty.
  - split; [|done]. split; [done|]. split; [done|]. split; [done|]. intros j. unfold cancelled. rewrite store_put.
    case_bool_decide as Hj; [|apply Hs]. cbn. split; [apply Hs|done].
  - split; [|done]. split; [cbn; rewrite Hth; apply map_filter_empty|]. split; [done|]. split; [done|]. intros j.
    unfold store, ended. cbn. destruct (decide (i = j)) as [->|Hj]; [by rewrite lookup_delete_eq|].
    rewrite lookup_delete_ne by done. apply Hs.
  - done.
Qed.

(** A cache file that is JSON, but no object or without a number for its expiry, is
    never replaced: however often the processes ask, are restarted or retry, no token is
    given to anyone and none is asked for, until someone else changes the file. *)
Theorem bad_cache_never_heals d es e
  (Hd : unreadable d) (Hm : Forall (fun e => meddles e = false) (es ++ [e])) :
  let w := token_run (init (Some d)) es in
  requests w = [] /\ file w = Some d /\ (forall t, (token_step w e).2 <> Returned t).
Proof.
  apply Forall_app in Hm as [Hm He]. apply Forall_cons in He as [He _].
  assert (stuck d (token_run (init (Some d)) es)) as Hw.
  { assert (stuck d (init (Some d))) as H by done. revert H. generalize (init (Some d)).
    induction Hm as [|x es Hx _ IH]; intros w H; [done|]. cbn. by apply IH, stuck_token_step. }
  intros w. split_and!; [apply Hw..|]. by apply (stuck_token_step d).
Qed.
End token.

(** ** Samples *)

Definition answer_of (t : string) : value := VObj [(lit "access_token", VStr (lit t)); (lit "expires_in", VInt 86400)].
Definition at_s (n : Z) : float := of_int n.
(** Two processes start with no cache: the second finds what the first was given. *)
Definition cold_start : list Event := [Ask 0 (at_s 1000); Ask 1 (at_s 1000); FileLocked 1 (at_s 1001); FileLocked 0 (at_s 1001)].
Example second_waits :
  let w := (token_step ascii_only (token_run ascii_only (init None) cold_start) (Answered 1 (at_s 1002) (Some (answer_of "abc")) true)).1 in
  (token_step ascii_only w (FileLocked 0 (at_s 1003))).2 = Returned (VStr (lit "abc")).
Proof. by vm_compute. Qed.

Lemma one_issue_per_life_witness :
  let w1 := token_run ascii_only (init None) cold_start in
  let w2 := (token_step ascii_only w1 (Answered 1 (at_s 1002) (Some (answer_of "abc")) true)).1 in
  let w3 := token_run ascii_only w2 [Ended 0; Ask 0 (at_s 86900)] in
  (forall n' i', threads w1 !! n' = Some (i', AwaitAnswer) -> n' = 1%nat) /\
  (requests w3 = requests w2 -> requests (token_step ascii_only w3 (FileLocked 2 (at_s 86900))).1 <> requests w3 ->
   fgt (fsub (fadd (at_s 1002) (of_int 86400)) (of_int 120)) (fadd (at_s 86900) MIN_REMAIN_S) = false).
Proof.
  apply (one_issue_per_life ascii_only None cold_start 1 1 (at_s 1002) (answer_of "abc")
           (VStr (lit "abc"), fsub (fadd (at_s 1002) (of_int 86400)) (of_int 120)) [Ended 0; Ask 0 (at_s 86900)] 2 (at_s 86900)).
  - by vm_compute.
  - by vm_compute.
  - reflexivity.
  - repeat constructor.
Defined.
(** That request does go out. *)
Example next_day :
  let w1 := token_run ascii_only (init None) cold_start in
  let w2 := (token_step ascii_only w1 (Answered 1 (at_s 1002) (Some (answer_of "abc")) true)).1 in
  let w3 := token_run ascii_only w2 [Ended 0; Ask 0 (at_s 86900)] in
  requests (token_step ascii_only w3 (FileLocked 2 (at_s 86900))).1 = requests w3 ++ [at_s 86900].
Proof. by vm_compute. Qed.

Lemma bad_cache_never_heals_witness :
  let w := token_run ascii_only (init (Some VNull)) [Ask 0 (at_s 5); Ended 0; Ask 1 (at_s 6)] in
  requests w = [] /\ file w = Some VNull /\ (forall t, (token_step ascii_only w (Ask 0 (at_s 9))).2 <> Returned t).
Proof.
  apply (bad_cache_never_heals ascii_only VNull [Ask 0 (at_s 5); Ended 0; Ask 1 (at_s 6)] (Ask 0 (at_s 9))).
  - by exists AttributeError.
  - repeat constructor.
Defined.
End Token.
