(* ===== verification/Broker.v ===== *)
(** * Orders and queries at the broker (src/src/mdfeed/kis_trading.py)

    A call of the broker, the one repetition after a refusal for haste, and how a failure
    is told apart: refused, which means that nothing was taken, and uncertain, which means
    that nobody knows.  The second half puts the order call under the order desk, beside
    an account of what the broker really took.

    The wording of exceptions, and how a float is written as text, are arguments. *)

From S2P Require Import Prelude PyStr PyFloat Dict Hashes Json PyInt JsonValue Ledger Desk.

#[local] Open Scope Z_scope.

Module Broker.
Import JsonValue.JsonValue.

(** ** One call *)

(** How a request ends: an answer, whose body [None] is no UTF-8; an HTTP error with its
    body, [None] also when it cannot be read as text; an error whose body cannot be read; a
    connection that fails with one of the exceptions the call expects; or another one. *)
Inductive Http := Replied (body : option pystr) | HttpError (body : option pystr) | ErrorUnread | NoReply | Broken.

(** What a call raises; [Escaped] is anything the callers do not expect. *)
Inductive Raise := Rejected (code : value) (msg : pystr) | Uncertain | Escaped.
Abbreviation BR A := (result Raise A) (only parsing).
(** A use of a value that raises escapes. *)
Definition lift {A} (r : PR A) : BR A := match r with Ok a => Ok a | Err _ => Err Escaped end.

Definition body_json (body : option pystr) : BR value :=
  match body with
  | None => Err Uncertain
  | Some text => match loads text with Ok d => Ok d | Err _ => Err Uncertain end
  end.
Definition fetch (h : Http) : BR value :=
  match h with
  | Replied body | HttpError body => body_json body
  | NoReply => Err Uncertain
  | ErrorUnread | Broken => Err Escaped
  end.

Fixpoint contains (p s : pystr) : bool :=
  is_prefix p s || match s with [] => false | _ :: s => contains p s end.
(** [key in d]: a key of an object, an element of a list, a part of a text. *)
Definition vin (key : pystr) (d : value) : PR bool :=
  match d with
  | VObj o => Ok (match dget key o with Some _ => true | None => false end)
  | VList l => Ok (existsb (fun v => vis v key) l)
  | VStr s => Ok (contains key s)
  | _ => Err TypeError
  end.
Definition hashable (v : value) : bool := match v with VList _ | VObj _ => false | _ => true end.
Definition throttled (code : value) : bool := vis code (lit "EGW00201") || vis code (lit "EGW00215").

(** [(d.get("msg1") or "").strip()]. *)
Definition message (d : value) : BR pystr :=
  let! m := lift (vget (lit "msg1") d) in
  match vor m (VStr []) with VStr s => Ok (strip s) | _ => Err Escaped end.

Definition verdict (d : value) : BR value :=
  let! has := lift (vin (lit "rt_cd") d) in
  if negb has then Err Uncertain
  else
    let! rt := lift (vitem (lit "rt_cd") d) in
    if vis rt (lit "0") then Ok d
    else
      let! code := lift (vget_or (lit "msg_cd") (VStr []) d) in
      if hashable code then let! msg := message d in Err (Rejected code msg) else Err Escaped.

(** One attempt: the request that goes out, none when no token could be had, and whether
    the broker takes the order in it. *)
Record Attempt := mkAttempt { http : option Http; took : bool }.

(** [_call_once]: what was sent, and what came of it. *)
Definition call_once (a : Attempt) : list Attempt * BR value :=
  match http a with
  | None => ([], Err Escaped)
  | Some h => ([a], let! d := fetch h in verdict d)
  end.

(** [_call]: a refusal for haste is tried once more. *)
Definition call (a b : Attempt) : list Attempt * BR value :=
  let first := call_once a in
  match first.2 with
  | Err (Rejected code _) => if throttled code then let second := call_once b in (first.1 ++ second.1, second.2) else first
  | _ => first
  end.

(** The pause before a request, none when it is not positive: the last one is at least [gap] ago. *)
Definition pause (last gap now : float) : option float :=
  let wait := fsub (fadd last gap) now in if fgt wait (of_int 0) then Some wait else None.

(** ** Queries *)

Section queries.
Variable decimal : Z -> option Z.

(** [_num(v)] and [int(_num(v))]: a text that is no number counts as zero, one that
    stands for infinity or no number does not. *)
Definition num (v : value) : BR float :=
  match vfloat decimal (vor v (VInt 0)) with
  | Ok x => Ok x
  | Err TypeError | Err ValueError => Ok (of_int 0)
  | Err _ => Err Escaped
  end.
Definition int_num (v : value) : BR Z :=
  let! x := num v in match int_of_float x with Some z => Ok z | None => Err Escaped end.
Definition int_at (key : pystr) (o : value) : BR Z := let! v := lift (vget key o) in int_num v.
Definition num_at (key : pystr) (o : value) : BR float := let! v := lift (vget key o) in num v.

Record PriceInfo := mkPriceInfo
  { p_price : Z; p_change : Z; p_change_pct : float; p_volume : Z; p_high : Z; p_low : Z; p_open : Z }.
Definition price_of (d : value) : BR PriceInfo :=
  let! o := lift (vget (lit "output") d) in
  let o := vor o (VObj []) in
  let! p := int_at (lit "stck_prpr") o in
  let! c := int_at (lit "prdy_vrss") o in
  let! pct := num_at (lit "prdy_ctrt") o in
  let! v := int_at (lit "acml_vol") o in
  let! h := int_at (lit "stck_hgpr") o in
  let! l := int_at (lit "stck_lwpr") o in
  let! op := int_at (lit "stck_oprc") o in
  Ok (mkPriceInfo p c pct v h l op).

Record Holding := mkHolding
  { h_symbol : value; h_name : value; h_qty : Z; h_avg : float; h_price : Z; h_pnl : Z; h_pnl_pct : float }.
Record Balance := mkBalance { cash : Z; total : Z; pnl : Z; holdings : list Holding }.

Definition holding_of (h : value) : BR (option Holding) :=
  let! q := int_at (lit "hldg_qty") h in
  if 0 <? q then
    let! s := lift (vget (lit "pdno") h) in
    let! n := lift (vget (lit "prdt_name") h) in
    let! a := num_at (lit "pchs_avg_pric") h in
    let! p := int_at (lit "prpr") h in
    let! g := int_at (lit "evlu_pfls_amt") h in
    let! r := num_at (lit "evlu_pfls_rt") h in
    Ok (Some (mkHolding s n q a p g r))
  else Ok None.
Fixpoint holdings_of (hs : list value) : BR (list Holding) :=
  match hs with
  | [] => Ok []
  | h :: hs => let! x := holding_of h in let! xs := holdings_of hs in Ok (match x with Some x => x :: xs | None => xs end)
  end.
(** The values a [for] runs over: the elements of a list, the keys of an object, the
    characters of a text. *)
Definition iterated (v : value) : BR (list value) :=
  match v with
  | VList l => Ok l
  | VObj o => Ok ((fun kv => VStr kv.1) <$> o)
  | VStr s => Ok ((fun c => VStr [c]) <$> s)
  | _ => Err Escaped
  end.
(** [v[0]]. *)
Definition first_of (v : value) : BR value :=
  match v with VList (x :: _) => Ok x | VStr (c :: _) => Ok (VStr [c]) | _ => Err Escaped end.

Definition balance_of (d : value) : BR Balance :=
  let! o2 := lift (vget (lit "output2") d) in
  let! s := first_of (vor o2 (VList [VObj []])) in
  let! o1 := lift (vget (lit "output1") d) in
  let! rows := iterated (vor o1 (VList [])) in
  let! hs := holdings_of rows in
  let! c := int_at (lit "dnca_tot_amt") s in
  let! t := int_at (lit "tot_evlu_amt") s in
  let! g := int_at (lit "evlu_pfls_smtl_amt") s in
  Ok (mkBalance c t g hs).

Definition totals_of (d : value) : BR Ledger.Totals :=
  let! o := lift (vget (lit "output2") d) in
  let o := match vor o (VObj []) with VList l => match l with [] => VObj [] | x :: _ => x end | o => o end in
  let! q := int_at (lit "tot_ord_qty") o in
  let! f := int_at (lit "tot_ccld_qty") o in
  let! m := int_at (lit "tot_ccld_amt") o in
  Ok (Ledger.mkTotals q f m).

Definition query {A} (read : value -> BR A) (a b : Attempt) : BR A := let! d := (call a b).2 in read d.
End queries.

(** ** Orders *)

Record Order := mkOrder { side : Ledger.Side; o_symbol : pystr; o_qty : Z; o_price : Z }.
(** The fields of an order that depend on it; a price of zero is a market order. *)
Definition order_body (cano prdt : pystr) (o : Order) : list (pystr * pystr) :=
  [(lit "CANO", cano); (lit "ACNT_PRDT_CD", prdt); (lit "PDNO", o_symbol o);
   (lit "ORD_DVSN", if o_price o =? 0 then lit "01" else lit "00");
   (lit "ORD_QTY", str_int (o_qty o)); (lit "ORD_UNPR", str_int (o_price o))].

(** The order number and the message of an order that was taken. *)
Definition placed (d : value) : BR (value * pystr) :=
  let! o := lift (vget (lit "output") d) in
  let! odno := lift (vget (lit "ODNO") (vor o (VObj []))) in
  if negb (vtrue odno) then Err Uncertain else let! msg := message d in Ok (odno, msg).
Definition order (a b : Attempt) : list Attempt * BR (value * pystr) :=
  let r := call a b in (r.1, let! d := r.2 in placed d).

Section broker.
Variable float_text : float -> pystr.
Variable said : Raise -> pystr.

(** An order number as the column keeps it; [None] when it cannot be stored. *)
Definition stored (v : value) : option pystr :=
  match v with
  | VStr s => if existsb (fun c => (0xD800 <=? c) && (c <=? 0xDFFF)) s then None else Some s
  | VInt z => if (- 2 ^ 63 <=? z) && (z <? 2 ^ 63) then Some (str_int z) else None
  | VBool b => Some (if b then lit "1" else lit "0")
  | VFloat x => Some (float_text x)
  | _ => None
  end.

(** What the desk learns of an order call; [None] when its handler ends with an
    exception, and the order stays as it was recorded. *)
Definition answer_of (r : BR (value * pystr)) : option Desk.Answer :=
  match r with
  | Ok (odno, msg) => match stored odno with Some od => Some (Desk.Taken od msg) | None => None end
  | Err (Rejected code msg) => Some (Desk.Refused (said (Rejected code msg)))
  | Err Uncertain => Some (Desk.NoAnswer (said Uncertain))
  | Err Escaped => None
  end.
Definition answer_event (r : BR (value * pystr)) (now : float) : Desk.happening :=
  match answer_of r with Some a => Desk.Answered a now | None => Desk.Cancelled end.

(** ** What the broker took *)

(** The broker's word: an answer [rt_cd "0"] means that the order was taken, any other
    [rt_cd] that it was not; when nothing was sent nothing is taken. *)
Definition honest (a : Attempt) : Prop :=
  match (call_once a).2 with
  | Ok _ => took a = true
  | Err (Rejected _ _) => took a = false
  | Err _ => http a = None -> took a = false
  end.

Definition taken (sent : list Attempt) : nat := length (filter (fun a => took a = true) sent).

#[local] Set Default Proof Using "Type".

Lemma taken_one a : (taken [a] <= 1)%nat.
Proof. unfold taken. rewrite filter_cons. case_decide; cbn; lia. Qed.

Lemma once_sent a : (call_once a).1 = [] \/ (call_once a).1 = [a].
Proof. unfold call_once. destruct (http a); auto. Qed.

Lemma once_taken a : honest a -> (taken (call_once a).1 <= 1)%nat /\
  (forall d, (call_once a).2 = Ok d -> taken (call_once a).1 = 1%nat) /\
  (forall code msg, (call_once a).2 = Err (Rejected code msg) -> taken (call_once a).1 = 0%nat).
Proof.
  unfold honest. intros H. destruct (once_sent a) as [E|E]; rewrite E.
  - split; [cbn; lia|]. split; [|done]. intros d Hd. unfold call_once in *. by destruct (http a).
  - split; [apply taken_one|]. split.
    + intros d Hd. rewrite Hd in H. unfold taken. by rewrite filter_cons_True.
    + intros code msg Hd. rewrite Hd in H. unfold taken. rewrite filter_cons_False by congruence. done.
Qed.

Lemma taken_app x y : taken (x ++ y) = (taken x + taken y)%nat.
Proof. unfold taken. by rewrite filter_app, length_app. Qed.

(** Only a refusal is ever repeated, so the two attempts of a call take one order at most. *)
Lemma call_taken a b : honest a -> honest b -> (taken (call a b).1 <= 1)%nat /\
  (forall d, (call a b).2 = Ok d -> taken (call a b).1 = 1%nat) /\
  (forall code msg, (call a b).2 = Err (Rejected code msg) -> taken (call a b).1 = 0%nat).
Proof.
  intros (A1 & A2 & A3)%once_taken (B1 & B2 & B3)%once_taken. unfold call.
  destruct (call_once a).2 as [d|[code msg| |]] eqn:Ea; rewrite ?Ea; try by repeat split.
  destruct (throttled code); [|rewrite ?Ea; by repeat split]. cbn [fst snd].
  rewrite taken_app, (A3 _ _ eq_refl). cbn. by repeat split.
Qed.

Lemma placed_never_refuses d code msg : placed d <> Err (Rejected code msg).
Proof.
  unfold placed, message. destruct (vget (lit "output") d) as [o|]; cbn [lift rbind]; [|done].
  destruct (vget (lit "ODNO") (vor o (VObj []))) as [odno|]; cbn [lift rbind]; [|done].
  destruct (negb (vtrue odno)); [done|]. destruct (vget (lit "msg1") d) as [m|]; cbn [lift rbind]; [|done].
  by destruct (vor m (VStr [])).
Qed.

Lemma order_taken a b : honest a -> honest b -> (taken (order a b).1 <= 1)%nat /\
  (forall x, (order a b).2 = Ok x -> taken (order a b).1 = 1%nat) /\
  (forall code msg, (order a b).2 = Err (Rejected code msg) -> taken (order a b).1 = 0%nat).
Proof.
  intros Ha Hb. destruct (call_taken a b Ha Hb) as (H1 & H2 & H3). unfold order. cbn [fst snd].
  split; [done|]. split.
  - intros x (d & Hd & _)%rbind_Ok. by apply (H2 d).
  - intros code msg H. destruct (call a b).2 as [d|[c m| |]]; cbn [rbind] in H; try done; [by destruct (placed_never_refuses d code msg)|].
    by apply (H3 c m).
Qed.

Lemma taken_take k l : (taken (take k l) <= taken l)%nat.
Proof. rewrite <- (take_drop k l) at 2. rewrite taken_app. lia. Qed.

(** ** The desk above it *)

(** An order call that returns or raises; a handler or a process that ends while the call
    is under way, with [k] attempts sent; or any other step of the desk. *)
Inductive BenchEvent :=
| Place (a b : Attempt) (now : float)
| Interrupted (k : nat) (a b : Attempt) (restart : option float)
| DeskEvent (e : Desk.happening).

(** The ids of the orders that the broker took, as often as it did. *)
Record Bench := mkBench { desk : Desk.Desk; took_ids : list Z }.

Definition took_under (p : Desk.Phase) (sent : list Attempt) : list Z :=
  match p with Desk.AwaitOrder i => replicate (taken sent) i | _ => [] end.

Definition bench_step (cfg : Desk.Config) (w : Bench) (e : BenchEvent) : Bench :=
  match e with
  | Place a b now =>
      match Desk.phase (desk w) with
      | Desk.AwaitOrder _ =>
          let r := order a b in
          mkBench (Desk.desk_step cfg (desk w) (answer_event r.2 now)) (took_ids w ++ took_under (Desk.phase (desk w)) r.1)
      | _ => w
      end
  | Interrupted k a b restart =>
      mkBench (Desk.desk_step cfg (desk w) (match restart with Some now => Desk.Restart now | None => Desk.Cancelled end))
        (took_ids w ++ took_under (Desk.phase (desk w)) (take k (order a b).1))
  | DeskEvent e => mkBench (Desk.desk_step cfg (desk w) e) (took_ids w)
  end.
Definition bench_run (cfg : Desk.Config) (es : list BenchEvent) : Bench := foldl (bench_step cfg) (mkBench Desk.new_desk []) es.

(** Answers come from the calls alone, quotes are no negative prices, and the broker
    keeps its word. *)
Definition bench_ok (e : BenchEvent) : Prop :=
  match e with
  | Place a b _ | Interrupted _ a b _ => honest a /\ honest b
  | DeskEvent (Desk.Answered _ _) => False
  | DeskEvent e => Desk.quote_ok e = true
  end.
#[local] Set Default Proof Using "All".

(** What a step of the desk that is no answer does to the rows: they move along as the
    ledger's own steps do, and at most one new row is added, whose call is then awaited. *)
Definition rows_move (rec : bool) (d d' : Desk.Desk) : Prop :=
  exists os new, Ledger.orders (Desk.ledger d') = os ++ new /\ Forall2 (Ledger.follows rec) (Ledger.orders (Desk.ledger d)) os /\
    forall i, Desk.phase d' = Desk.AwaitOrder i -> Desk.phase d = Desk.AwaitOrder i \/ i = zlen (Ledger.orders (Desk.ledger d)) + 1 /\ new <> [].

Lemma follows_refl rec os : Forall2 (Ledger.follows rec) os os.
Proof using. apply Forall_Forall2_diag, Forall_forall. intros o _. split; [by repeat split|apply rtc_refl]. Qed.

Lemma rows_same rec d d' : Ledger.orders (Desk.ledger d') = Ledger.orders (Desk.ledger d) ->
  (forall i, Desk.phase d' = Desk.AwaitOrder i -> Desk.phase d = Desk.AwaitOrder i) -> rows_move rec d d'.
Proof using.
  intros E Hp. exists (Ledger.orders (Desk.ledger d)), []. rewrite app_nil_r. split; [done|]. split; [apply follows_refl|].
  intros i Hi. left. by apply Hp.
Qed.

Lemma rows_moved rec d l : Ledger.moved rec (Desk.ledger d) l -> forall p,
  (forall i, p = Desk.AwaitOrder i -> Desk.phase d = Desk.AwaitOrder i) -> rows_move rec d (Desk.mkDesk l p (Desk.sent d)).
Proof using.
  intros H p Hp. exists (Ledger.orders l), []. rewrite app_nil_r. split; [done|]. split; [|intros i Hi; left; by apply Hp]. exact H.
Qed.

Lemma create_rows day r unit now d : Ledger.by_client_id (Desk.ledger d) (Desk.r_cid r) = None ->
  rows_move false d (Desk.create day r unit now d).1.
Proof using.
  intros Hc. unfold Desk.create, Ledger.new_order. rewrite Hc. destruct (Ledger.side_of _); [|by apply rows_same].
  destruct (_ && _); [|by apply rows_same]. cbn [fst]. eexists (Ledger.orders (Desk.ledger d)), _. split; [done|].
  split; [apply follows_refl|]. intros i [= <-]. by right.
Qed.

Lemma with_unit_rows cfg day r unit now d : Ledger.by_client_id (Desk.ledger d) (Desk.r_cid r) = None ->
  rows_move false d (Desk.with_unit cfg day r unit now d).1.
Proof using.
  intros Hc. unfold Desk.with_unit. cbn zeta. destruct (_ <? _); [by apply rows_same|]. destruct (_ <? _); [by apply rows_same|].
  destruct (Ledger.totals_baseline _ _ _ _); [by apply create_rows|by apply rows_same].
Qed.

Definition restarts (e : Desk.happening) : bool := match e with Desk.Restart _ => true | _ => false end.

Lemma desk_rows cfg d e : Desk.desk_inv cfg d -> (forall a now, e <> Desk.Answered a now) -> rows_move (restarts e) d (Desk.desk_step cfg d e).
Proof using.
  intros Hi He. pose proof (Desk.di_wf _ _ Hi) as W. pose proof (Desk.di_phase _ _ Hi) as P.
  assert (rows_move false d d) as Hd by by apply rows_same.
  destruct e as [day cid sym sd q p now|q now|t now|a now| |now|t]; cbn [Desk.desk_step restarts].
  - unfold Desk.submit. destruct (Desk.parse_req cid sym sd q p) as [r|] eqn:Er; [|done].
    destruct (negb _ || _); [done|]. destruct (Desk.phase d) eqn:Ep; try done.
    destruct (Ledger.by_client_id (Desk.ledger d) cid) eqn:Ec; [done|]. destruct (Ledger.closed_days (Desk.ledger d) !! day); [done|].
    destruct (Ledger.open_order _ _ _ _); [done|]. destruct (p =? 0); [by apply rows_same|]. apply with_unit_rows.
    unfold Desk.parse_req in Er. destruct (_ && _); [|done]. destruct (Ledger.side_of sd); [|done]. by injection Er as <-.
  - unfold Desk.on_quote. destruct (Desk.phase d) eqn:Ep; try done. destruct q as [u|]; [|by apply rows_same].
    apply with_unit_rows, P.
  - unfold Desk.on_totals. destruct (Desk.phase d) as [| |day r unit|] eqn:Ep; try done. destruct t as [t|]; [|by apply rows_same].
    set (l := Ledger.set_totals_baseline day (Desk.r_sym r) (Desk.r_side r) t (Desk.ledger d)).
    assert (Ledger.orders l = Ledger.orders (Desk.ledger d)) as El by apply Ledger.set_totals_baseline_orders.
    destruct (create_rows day r unit now (Desk.mkDesk l (Desk.AwaitTotals day r unit) (Desk.sent d))) as (os & new & H1 & H2 & H3).
    { unfold Ledger.by_client_id. cbn [Desk.ledger]. rewrite El. apply P. }
    cbn [Desk.ledger] in H2. rewrite El in H2. exists os, new. split; [done|]. split; [done|]. intros i Hi'.
    apply H3 in Hi'. cbn [Desk.ledger Desk.phase] in Hi'. rewrite El in Hi'. destruct Hi'; [done|by right].
  - by destruct (He a now).
  - by apply rows_same.
  - apply (rows_moved true); [|done]. by apply (Ledger.step_moved _ (Ledger.RecoverPending now)).
  - apply (rows_moved false); [|done]. by apply Desk.task_moved.
Qed.

(** A row with this id that was not refused. *)
Definition kept (l : Ledger.Ledger) (i : Z) : Prop := exists o, o ∈ Ledger.orders l /\ Ledger.id o = i /\ Ledger.state o <> Ledger.REJECTED.

Lemma rejected_edge rec s : rtc (Ledger.edge rec) s Ledger.REJECTED -> s = Ledger.REJECTED.
Proof using. intros [->|(s' & _ & He)]%rtc_inv_r; [done|inversion He]. Qed.

Lemma rows_kept rec d d' i : rows_move rec d d' -> kept (Desk.ledger d) i -> kept (Desk.ledger d') i.
Proof using.
  intros (os & new & E & H & _) (o & Ho & Hi & Hs). apply list_elem_of_lookup in Ho as [j Hj].
  destruct (Forall2_lookup_l _ _ _ _ _ H Hj) as (o' & Hj' & [Ht He]). exists o'. rewrite E.
  split; [apply elem_of_app; left; by eapply list_elem_of_lookup_2|]. split; [destruct Ht; congruence|].
  intros Hr. rewrite Hr in He. by apply rejected_edge in He.
Qed.

Lemma kept_id l i : Ledger.wf l -> kept l i -> 1 <= i <= zlen (Ledger.orders l).
Proof using.
  intros W (o & Ho & <- & _). pose proof (Ledger.wf_ids _ W) as H.
  assert (Ledger.id o ∈ Ledger.id <$> Ledger.orders l) as Hin by (by apply list_elem_of_fmap_2). rewrite H in Hin.
  apply elem_of_seqZ in Hin. lia.
Qed.

(** A mark of another order, or of this one with another word than a refusal. *)
Lemma mark_kept i j s od msg now l : kept l j -> (j = i -> s <> Ledger.REJECTED) -> kept (Ledger.mark i s od msg now l) j.
Proof using.
  intros (o & Ho & Hi & Hs) Hj. unfold kept, Ledger.mark, Ledger.update. cbn [Ledger.event Ledger.set_orders Ledger.orders].
  eexists. split; [apply list_elem_of_fmap_2, Ho|]. cbn beta. destruct (Z.eqb_spec (Ledger.id o) i); [|done]. cbn. split; [done|]. apply Hj. congruence.
Qed.

Record bench_inv (cfg : Desk.Config) (w : Bench) : Prop := mkBI
  { bi_desk : Desk.desk_inv cfg (desk w);
    bi_once : NoDup (took_ids w);
    bi_kept : Forall (fun i => kept (Desk.ledger (desk w)) i /\ Desk.phase (desk w) <> Desk.AwaitOrder i) (took_ids w) }.

Lemma awaited_kept cfg d i : Desk.desk_inv cfg d -> Desk.phase d = Desk.AwaitOrder i -> kept (Desk.ledger d) i.
Proof using. intros H E. pose proof (Desk.di_phase _ _ H) as P. rewrite E in P. destruct P as (o & Ho & Hi & Hs). exists o. by rewrite Hs. Qed.

(** The orders that were taken before stay what they are in a step of the desk. *)
Lemma rows_bench rec cfg w d' : bench_inv cfg w -> Desk.desk_inv cfg d' -> rows_move rec (desk w) d' ->
  bench_inv cfg (mkBench d' (took_ids w)).
Proof using.
  intros [Hd Hn Hk] Hd' Hm. split; [done|done|]. cbn [desk took_ids]. apply (Forall_impl _ _ _ Hk). intros i [Hi Hp].
  split; [by eapply rows_kept|]. intros E. destruct Hm as (os & new & _ & _ & Hf). destruct (Hf i E) as [?|[-> _]]; [done|].
  apply kept_id in Hi; [lia|apply Hd].
Qed.

(** One more order was taken: the one that was awaited, which nothing awaits any more. *)
Lemma bench_takes cfg w i n d' : bench_inv cfg w -> Desk.phase (desk w) = Desk.AwaitOrder i -> (n <= 1)%nat ->
  (n = 1%nat -> kept (Desk.ledger d') i) -> Desk.phase d' = Desk.Idle ->
  bench_inv cfg (mkBench d' (took_ids w)) -> bench_inv cfg (mkBench d' (took_ids w ++ replicate n i)).
Proof using.
  intros [Hd Hn Hk] Ep Hle Hi Hp [Hd' _ Hk']. destruct n as [|[|n]]; [by rewrite app_nil_r| |lia].
  split; [done| |]; cbn [took_ids replicate desk].
  - apply NoDup_app. split; [done|]. split; [|apply NoDup_singleton]. intros j Hj ->%list_elem_of_singleton.
    by destruct (proj1 (Forall_forall _ _) Hk i Hj).
  - apply Forall_app. split; [done|]. repeat constructor; [by apply Hi|]. cbn. by rewrite Hp.
Qed.

Lemma marked_bench cfg w i s od msg now n : bench_inv cfg w -> Desk.phase (desk w) = Desk.AwaitOrder i -> (n <= 1)%nat ->
  (n = 1%nat -> s <> Ledger.REJECTED) ->
  bench_inv cfg (mkBench (Desk.mkDesk (Ledger.mark i s od msg now (Desk.ledger (desk w))) Desk.Idle (Desk.sent (desk w)))
                   (took_ids w ++ replicate n i)).
Proof using.
  intros Hw Ep Hle Hs. pose proof Hw as [Hd Hn Hk]. apply (bench_takes cfg w i n _ Hw Ep Hle); [|done|].
  - intros H1. apply mark_kept; [by eapply awaited_kept|]. intros _. by apply Hs.
  - split; [by apply Desk.inv_mark|done|]. apply (Forall_impl _ _ _ Hk). intros j [Hj Hp]. split; [|done].
    apply mark_kept; [done|]. intros ->. by destruct Hp.
Qed.

(** The handler ends without an answer. *)
Lemma silent_bench cfg w i n e : bench_inv cfg w -> Desk.phase (desk w) = Desk.AwaitOrder i -> (n <= 1)%nat ->
  e = Desk.Cancelled \/ (exists now, e = Desk.Restart now) ->
  bench_inv cfg (mkBench (Desk.desk_step cfg (desk w) e) (took_ids w ++ replicate n i)).
Proof using.
  intros Hw Ep Hle He. pose proof Hw as [Hd Hn Hk].
  assert (rows_move (restarts e) (desk w) (Desk.desk_step cfg (desk w) e)) as Hm.
  { apply desk_rows; [done|]. by destruct He as [->|[? ->]]. }
  apply (bench_takes cfg w i n _ Hw Ep Hle).
  - intros _. eapply rows_kept; [done|by eapply awaited_kept].
  - by destruct He as [->|[? ->]].
  - eapply rows_bench; [done| |done]. apply Desk.inv_step; [|done]. by destruct He as [->|[? ->]].
Qed.

Lemma bench_step_inv cfg w e : bench_ok e -> bench_inv cfg w -> bench_inv cfg (bench_step cfg w e).
Proof.
  intros He Hw. pose proof Hw as [Hd Hn Hk]. destruct e as [a b now|k a b restart|e]; cbn [bench_step].
  - destruct (Desk.phase (desk w)) as [| | |i] eqn:Ep; [done..|]. destruct He as [Ha Hb].
    destruct (order_taken a b Ha Hb) as (H1 & H2 & H3). cbn [took_under]. unfold answer_event, answer_of.
    destruct (order a b).2 as [[odno msg]|[code msg| |]] eqn:Er.
    + destruct (stored odno); [|by apply silent_bench; [..|left]].
      cbn [Desk.desk_step]. unfold Desk.on_answer. rewrite Ep. by apply marked_bench.
    + cbn [Desk.desk_step]. unfold Desk.on_answer. rewrite Ep. apply marked_bench; [done..|]. rewrite (H3 _ _ eq_refl). done.
    + cbn [Desk.desk_step]. unfold Desk.on_answer. rewrite Ep. by apply marked_bench.
    + by apply silent_bench; [..|left].
  - destruct He as [Ha Hb]. destruct (order_taken a b Ha Hb) as (H1 & _ & _). pose proof (taken_take k (order a b).1).
    set (e := match restart with Some now => Desk.Restart now | None => Desk.Cancelled end).
    assert (e = Desk.Cancelled \/ (exists now, e = Desk.Restart now)) as Hr by (destruct restart; [right; by eexists|by left]).
    destruct (Desk.phase (desk w)) as [| | |i] eqn:Ep; cbn [took_under]; [..|apply silent_bench; try done; lia];
      rewrite app_nil_r; (eapply rows_bench; [done| |apply desk_rows; [done|by destruct Hr as [->|[? ->]]]];
        apply Desk.inv_step; [by destruct Hr as [->|[? ->]]|done]).
  - assert (Desk.quote_ok e = true) as Hq by by destruct e.
    eapply rows_bench; [done|by apply Desk.inv_step|]. apply desk_rows; [done|]. intros a now ->. done.
Qed.

Lemma bench_run_inv cfg es : 0 <= Desk.order_daily_max_krw cfg -> Forall bench_ok es -> bench_inv cfg (bench_run cfg es).
Proof.
  intros Hc Hes. assert (bench_inv cfg (mkBench Desk.new_desk [])) as H.
  { split; [by apply (Desk.inv_run cfg [])|constructor|constructor]. }
  revert H. unfold bench_run. generalize (mkBench Desk.new_desk []). induction Hes as [|e es He _ IH]; intros w H; [done|].
  cbn. by apply IH, bench_step_inv.
Qed.

(** C34: With a broker that keeps its word, no order of the desk is ever taken twice and
    none that the ledger calls rejected is taken at all: whatever answers, failures and
    repetitions the calls meet, and whether their handlers are cancelled or the process
    dies in the middle and starts again. *)
Theorem broker_takes_once cfg es
  (Hc : 0 <= Desk.order_daily_max_krw cfg) (Hes : Forall bench_ok es) :
  let w := bench_run cfg es in
  NoDup (took_ids w) /\
  (forall i, i ∈ took_ids w -> exists o, o ∈ Ledger.orders (Desk.ledger (desk w)) /\ Ledger.id o = i) /\
  (forall o, o ∈ Ledger.orders (Desk.ledger (desk w)) -> Ledger.state o = Ledger.REJECTED -> Ledger.id o ∉ took_ids w).
Proof.
  intros w. destruct (bench_run_inv cfg es Hc Hes) as [Hd Hn Hk]. fold w in Hd, Hn, Hk.
  split; [done|]. split.
  - intros i Hi. destruct (proj1 (Forall_forall _ _) Hk i Hi) as [(o & Ho & E & _) _]. by exists o.
  - intros o Ho Hs Hin. destruct (proj1 (Forall_forall _ _) Hk _ Hin) as [(o' & Ho' & E & Hr) _].
    rewrite (Ledger.id_unique _ o' o (Desk.di_wf _ _ Hd) Ho' Ho E) in Hr. done.
Qed.

(** An order that was recorded and that nothing awaits. *)
Definition forgotten (d : Desk.Desk) (o : Ledger.Order) : Prop :=
  Desk.phase d <> Desk.AwaitOrder (Ledger.id o) /\
  exists o', o' ∈ Ledger.orders (Desk.ledger d) /\ Ledger.same_terms o o' /\ Ledger.state o' = Ledger.PENDING_SUBMIT.

Lemma forgotten_step cfg d e o : Desk.desk_inv cfg d -> restarts e = false -> forgotten d o -> forgotten (Desk.desk_step cfg d e) o.
Proof using.
  intros Hd Hr (Hp & o' & Ho & Ht & Hs).
  assert (kept (Desk.ledger d) (Ledger.id o)) as Hk. { exists o'. rewrite Hs. split; [done|]. split; [apply Ht|done]. }
  assert ((exists a now, e = Desk.Answered a now) \/ forall a now, e <> Desk.Answered a now) as [(a & now & ->)|Hne].
  { destruct e; try (right; done). left. by eexists _, _. }
  - cbn [Desk.desk_step]. unfold Desk.on_answer. destruct (Desk.phase d) as [| | |i] eqn:Ep; [by split; [cbn; rewrite Ep|exists o']..|].
    assert (forall s od msg, forgotten (Desk.mkDesk (Ledger.mark i s od msg now (Desk.ledger d)) Desk.Idle (Desk.sent d)) o) as Hm.
    { intros s od msg. split; [done|]. exists o'. split; [|done]. unfold Ledger.mark, Ledger.update.
      cbn [Ledger.event Ledger.set_orders Ledger.orders Desk.ledger]. apply list_elem_of_fmap. exists o'. split; [|done].
      destruct (Z.eqb_spec (Ledger.id o') i) as [E|]; [|done]. exfalso. apply Hp. f_equal. rewrite <- E. apply (proj1 Ht). }
    destruct a; apply Hm.
  - pose proof (desk_rows cfg d e Hd Hne) as (os & new & E & H & Hf). rewrite Hr in H. split.
    + intros Ei. destruct (Hf _ Ei) as [?|[Hi _]]; [done|]. apply kept_id in Hk; [lia|apply Hd].
    + apply list_elem_of_lookup in Ho as [j Hj]. destruct (Forall2_lookup_l _ _ _ _ _ H Hj) as (o2 & Hj2 & [Ht2 He]).
      exists o2. rewrite E. split; [apply elem_of_app; left; by eapply list_elem_of_lookup_2|].
      split; [unfold Ledger.same_terms in *; destruct_and!; split_and!; congruence|].
      rewrite Hs in He. by apply Ledger.pending_edge.
Qed.

(** An exception that the order call does not turn into one of its two kinds leaves
    the order as it was recorded, submitted and open, whether the broker took it or not:
    no step of the desk but a restart ever moves it on. *)
Theorem escaped_order_stays cfg es a b now es' i o
  (Hc : 0 <= Desk.order_daily_max_krw cfg) (Hes : Forall (fun e => Desk.quote_ok e = true) es)
  (Hp : Desk.phase (Desk.desk_run cfg es) = Desk.AwaitOrder i)
  (Ho : o ∈ Ledger.orders (Desk.ledger (Desk.desk_run cfg es))) (Hid : Ledger.id o = i)
  (He : answer_of (order a b).2 = None)
  (Hes' : Forall (fun e => Desk.quote_ok e = true /\ restarts e = false) es') :
  let d := Desk.desk_run cfg (es ++ answer_event (order a b).2 now :: es') in
  exists o', o' ∈ Ledger.orders (Desk.ledger d) /\ Ledger.same_terms o o' /\ Ledger.state o' = Ledger.PENDING_SUBMIT.
Proof.
  pose proof (Desk.inv_run cfg es Hc Hes) as Hi. intros d.
  assert (forgotten d o) as [_ H]; [|done]. unfold d, Desk.desk_run. rewrite foldl_app. cbn [foldl].
  unfold answer_event. rewrite He. fold (Desk.desk_run cfg es).
  assert (forgotten (Desk.desk_step cfg (Desk.desk_run cfg es) Desk.Cancelled) o) as Hf.
  { split; [done|]. exists o. split; [done|]. split; [by repeat split|].
    pose proof (Desk.di_phase _ _ Hi) as P. rewrite Hp in P. destruct P as (p & Hpo & Hpi & Hps).
    by rewrite (Ledger.id_unique _ o p (Desk.di_wf _ _ Hi) Ho Hpo) by congruence. }
  assert (Desk.desk_inv cfg (Desk.desk_step cfg (Desk.desk_run cfg es) Desk.Cancelled)) as Hd by by apply Desk.inv_step.
  revert Hf Hd. generalize (Desk.desk_step cfg (Desk.desk_run cfg es) Desk.Cancelled).
  induction Hes' as [|e es' [Hq Hr] _ IH]; intros d0 Hf Hd; [done|]. cbn [foldl].
  apply IH; [by apply (forgotten_step cfg)|by apply Desk.inv_step].
Qed.
End broker.

(** ** Samples *)

Definition answer (s : string) (t : bool) : Attempt := mkAttempt (Some (Replied (Some (quoted s)))) t.
Definition too_fast : Attempt := answer "{'rt_cd': '1', 'msg_cd': 'EGW00201', 'msg1': 'too many'}" false.
Definition good : Attempt := answer "{'rt_cd': '0', 'msg1': 'ok ', 'output': {'ODNO': '0000077', 'ORD_TMD': '090001'}}" true.
(** Taken, but the output is a list. *)
Definition odd : Attempt := answer "{'rt_cd': '0', 'msg1': 'ok', 'output': [{'ODNO': '0000078'}]}" true.
Definition lost : Attempt := mkAttempt (Some NoReply) true.
Definition no_text (_ : float) : pystr := [].
Definition no_words (_ : Raise) : pystr := lit "refused".

Example retried : order too_fast good = ([too_fast; good], Ok (VStr (lit "0000077"), lit "ok")).
Proof. by vm_compute. Qed.
Example lost_once : order lost good = ([lost], Err Uncertain).
Proof. by vm_compute. Qed.
Example odd_escapes : order odd good = ([odd], Err Escaped).
Proof. by vm_compute. Qed.

Definition totals_sample : pystr :=
  quoted "{'rt_cd': '0', 'output1': [], 'output2': {'tot_ord_qty': '15', 'tot_ccld_qty': '10', 'tot_ccld_amt': '700000.00'}}".
Example totals_read :
  query (totals_of ascii_only) (mkAttempt (Some (Replied (Some totals_sample))) false) lost = Ok (Ledger.mkTotals 15 10 700000).
Proof. by vm_compute. Qed.
(** A quantity that stands for infinity escapes the reconciliation's own handler. *)
Example infinite_totals :
  query (totals_of ascii_only) (answer "{'rt_cd': '0', 'output2': {'tot_ord_qty': 'inf'}}" false) lost = Err Escaped.
Proof. by vm_compute. Qed.

Definition bench_sample : list BenchEvent :=
  [DeskEvent (Desk.Submit Desk.today (lit "order-001") (lit "005930") (lit "buy") 10 70000 (Desk.clock 0));
   DeskEvent (Desk.TotalsRead (Some (Ledger.mkTotals 0 0 0)) (Desk.clock 1));
   Place too_fast good (Desk.clock 2);
   DeskEvent (Desk.Submit Desk.today (lit "order-002") (lit "000660") (lit "buy") 1 70000 (Desk.clock 3));
   DeskEvent (Desk.TotalsRead (Some (Ledger.mkTotals 0 0 0)) (Desk.clock 4));
   Interrupted 1 lost good (Some (Desk.clock 5));
   DeskEvent (Desk.Submit Desk.today (lit "order-003") (lit "035420") (lit "sell") 1 70000 (Desk.clock 6));
   DeskEvent (Desk.TotalsRead (Some (Ledger.mkTotals 0 0 0)) (Desk.clock 7));
   Place too_fast too_fast (Desk.clock 8)].

Definition bench_sample_run : Bench := bench_run no_text no_words Desk.demo_config bench_sample.
Example bench_states :
  (Ledger.state <$> Ledger.orders (Desk.ledger (desk bench_sample_run))) = [Ledger.ACCEPTED; Ledger.UNKNOWN; Ledger.REJECTED] /\
  took_ids bench_sample_run = [1; 2].
Proof. by vm_compute. Qed.

Lemma broker_takes_once_witness :
  let w := bench_run no_text no_words Desk.demo_config bench_sample in
  NoDup (took_ids w) /\
  (forall i, i ∈ took_ids w -> exists o, o ∈ Ledger.orders (Desk.ledger (desk w)) /\ Ledger.id o = i) /\
  (forall o, o ∈ Ledger.orders (Desk.ledger (desk w)) -> Ledger.state o = Ledger.REJECTED -> Ledger.id o ∉ took_ids w).
Proof.
  apply (broker_takes_once no_text no_words Desk.demo_config bench_sample); [done|].
  repeat apply Forall_cons_2; try apply Forall_nil_2; try reflexivity; (split; by vm_compute).
Defined.

Definition odd_start : list Desk.happening :=
  [Desk.Submit Desk.today (lit "order-001") (lit "005930") (lit "buy") 10 70000 (Desk.clock 0);
   Desk.TotalsRead (Some (Ledger.mkTotals 0 0 0)) (Desk.clock 1)].
Definition odd_order : Ledger.Order :=
  Ledger.mkOrder 1 (lit "order-001") Desk.today (lit "005930") Ledger.Buy 10 70000 70000 Ledger.PENDING_SUBMIT None None 0 0
    (Desk.clock 1) (Desk.clock 1).
Definition odd_later : list Desk.happening :=
  [Desk.Other (Desk.Reconcile Desk.today (lit "005930") Ledger.Buy (Ledger.mkTotals 10 10 700000) (Desk.clock 500));
   Desk.Submit Desk.today (lit "order-002") (lit "005930") (lit "buy") 1 70000 (Desk.clock 501)].

Lemma escaped_order_stays_witness :
  let d := Desk.desk_run Desk.demo_config (odd_start ++ answer_event no_text no_words (order odd good).2 (Desk.clock 2) :: odd_later) in
  exists o', o' ∈ Ledger.orders (Desk.ledger d) /\ Ledger.same_terms odd_order o' /\ Ledger.state o' = Ledger.PENDING_SUBMIT.
Proof.
  apply (escaped_order_stays no_text no_words Desk.demo_config odd_start odd good (Desk.clock 2) odd_later 1 odd_order).
  - done.
  - by repeat constructor.
  - by vm_compute.
  - apply list_elem_of_lookup. exists 0%nat. by vm_compute.
  - done.
  - by vm_compute.
  - by repeat constructor.
Defined.
End Broker.
