(* ===== verification/Notice.v ===== *)
(** * Notices of fills (src/src/mdfeed/kis_notice.py)

    The real time notices of the broker, from the text of a message to the ledger, which
    the order desk's [_on_notice] (src/src/mdfeed/services/order_desk.py) applies them to.

    Decryption, [str.upper] and the digits outside ASCII are arguments. *)

From S2P Require Import Prelude PyStr PyFloat Dict Json PyInt Url JsonValue Ledger.

#[local] Open Scope Z_scope.

Module Notice.
Import JsonValue.JsonValue.

Inductive Kind := KFill | KAck | KRefused.
Record Notice := mkNotice
  { kind : Kind; odno : pystr; side : pystr; symbol : pystr; qty : Z; price : Z; time : pystr; order_qty : Z }.

Definition bar : pystr := lit "|".
(** [Notice.key]. *)
Definition key (n : Notice) : pystr :=
  Ledger.lstrip0 (odno n) ++ bar ++ time n ++ bar ++ str_int (qty n) ++ bar ++ str_int (price n).

Definition F_ODNO : nat := 2.
Definition F_SIDE : nat := 4.
Definition F_SYMBOL : nat := 8.
Definition F_QTY : nat := 9.
Definition F_PRICE : nat := 10.
Definition F_TIME : nat := 11.
Definition F_REFUSED : nat := 12.
Definition F_FILLED : nat := 13.
Definition F_ORDER_QTY : nat := 16.
Definition MIN_FIELDS : nat := F_ORDER_QTY + 1.
Definition SIDE_CODE (s : pystr) : pystr :=
  if bool_decide (s = lit "01") then lit "sell" else if bool_decide (s = lit "02") then lit "buy" else lit "?".

(** [text.split(c, n)]. *)
Fixpoint split_max (n : nat) (c : Z) (s : pystr) : list pystr :=
  match s with
  | [] => [[]]
  | x :: s =>
      if (x =? c) && (0 <? n)%nat then [] :: split_max (n - 1) c s
      else match split_max n c s with h :: t => (x :: h) :: t | [] => [[x]] end
  end.

Section notice.
Variable decimal : Z -> option Z.
Variable upper : pystr -> pystr.

Definition or_zero (s : pystr) : pystr := match s with [] => lit "0" | _ => s end.
Definition int_field (s : pystr) : PR Z := match py_int decimal (or_zero s) with Some z => Ok z | None => Err ValueError end.
(** [int(float(x or 0))]. *)
Definition price_field (s : pystr) : PR Z :=
  match py_float decimal (or_zero s) with
  | None => Err ValueError
  | Some x => match int_of_float x with Some z => Ok z | None => if is_nan x then Err ValueError else Err OverflowError end
  end.

(** [parse]: a [ValueError] makes the notice unreadable, an [OverflowError] escapes. *)
Definition parse (fields : list pystr) : PR (option Notice) :=
  if (length fields <? MIN_FIELDS)%nat then Ok None
  else
    let f i := default [] (fields !! i) in
    let filled := bool_decide (f F_FILLED = lit "2") in
    let refused := bool_decide (upper (f F_REFUSED) = lit "Y") in
    let r :=
      let! q := if filled then int_field (f F_QTY) else Ok 0 in
      let! p := price_field (f F_PRICE) in
      let! oq := int_field (f F_ORDER_QTY) in
      Ok (mkNotice (if refused then KRefused else if filled then KFill else KAck) (f F_ODNO) (SIDE_CODE (f F_SIDE)) (f F_SYMBOL) q p (f F_TIME) oq) in
    match r with Ok n => Ok (Some n) | Err ValueError => Ok None | Err e => Err e end.

(** ** The client *)

(** What the client counts: the kinds, the unreadable, those that came before a key. *)
Inductive Count := Counted (k : Kind) | NoKey | Unparsed.
#[export] Instance Kind_eq : EqDecision Kind. Proof. solve_decision. Defined.
#[export] Instance Count_eq : EqDecision Count. Proof. solve_decision. Defined.

Record Client := mkClient
  { tr_id : pystr; cipher : option (value * value); connected : bool; subscribed : bool; counts : list (Count * Z); refusals : Z }.
Definition new_client (real : bool) : Client :=
  mkClient (if real then lit "H0STCNI0" else lit "H0STCNI9") None false false [] 0.
Definition tally (k : Count) (c : Client) : Client :=
  mkClient (tr_id c) (cipher c) (connected c) (subscribed c) (dset k (default 0 (dget k (counts c)) + 1) (counts c)) (refusals c).
Definition with_link (con sub : bool) (c : Client) : Client := mkClient (tr_id c) (cipher c) con sub (counts c) (refusals c).
Definition with_key (k iv : value) (c : Client) : Client := mkClient (tr_id c) (Some (k, iv)) (connected c) true (counts c) (refusals c).
(** [last_error] of a refused subscription. *)
Definition refuse (c : Client) : Client := mkClient (tr_id c) (cipher c) (connected c) (subscribed c) (counts c) (refusals c + 1).

(** What a message asks of the caller: a PONG frame, or [on_notice]. *)
Inductive Effect := Pong | Deliver (n : Notice).

Definition stripped (v : value) : PR pystr := match vor v (VStr []) with VStr s => Ok (strip s) | _ => Err AttributeError end.

(** The client afterwards, what is asked of the caller, and the exception that ends the
    session. *)
Record Out := mkOut { client : Client; effects : list Effect; raised : option PyExc }.
(** A message that is logged once the state has changed. *)
Definition logged (c : Client) (m : PR pystr) : Out := mkOut c [] (match m with Ok _ => None | Err e => Some e end).
Definition msg1 (body : value) : PR pystr := let! m := vget (lit "msg1") body in stripped m.

Definition subscription (body : value) (c : Client) : PR Out :=
  let! o := vget (lit "output") body in
  let out := vor o (VObj []) in
  let! rt := vget (lit "rt_cd") body in
  let! k := (if vis rt (lit "0") then vget (lit "key") out else Ok VNull) in
  if vtrue k then let! iv := vitem (lit "iv") out in Ok (logged (with_key k iv c) (msg1 body))
  else match rt with
       | VNull => Ok (mkOut c [] None)
       | _ => if vis rt (lit "0") then Ok (mkOut c [] None) else let! _ := msg1 body in Ok (mkOut (refuse c) [] None)
       end.

Definition or_raised (c : Client) (r : PR Out) : Out := match r with Ok o => o | Err e => mkOut c [] (Some e) end.

Definition control (text : pystr) (c : Client) : Out :=
  match loads text with
  | Err _ => mkOut c [] (Some ValueError)
  | Ok msg =>
      or_raised c (
        let! h := vget (lit "header") msg in
        let! b := vget (lit "body") msg in
        let! tr := vget (lit "tr_id") (vor h (VObj [])) in
        if vis tr (lit "PINGPONG") then Ok (mkOut c [Pong] None) else subscription (vor b (VObj [])) c)
  end.

(** The plain text of a notice; [None] when decryption raises. *)
Variable decrypt : value -> value -> pystr -> option pystr.

Definition fields_of (payload : pystr) (c : Client) : Out :=
  match parse (split_char 94 payload) with
  | Err e => mkOut c [] (Some e)
  | Ok None => mkOut (tally Unparsed c) [] None
  | Ok (Some n) => mkOut (tally (Counted (kind n)) c) [Deliver n] None
  end.

Definition data (text : pystr) (c : Client) : Out :=
  match split_max 3 124 text with
  | flag :: tr :: _ :: body :: _ =>
      if negb (bool_decide (tr = tr_id c)) then mkOut c [] None
      else if bool_decide (flag = lit "1") then
        match cipher c with
        | Some (k, iv) =>
            match decrypt k iv body with Some payload => fields_of payload c | None => mkOut c [] (Some ValueError) end
        | None => mkOut (tally NoKey c) [] None
        end
      else fields_of body c
  | _ => mkOut c [] None
  end.

(** [_on_message]. *)
Definition on_message (text : pystr) (c : Client) : Out :=
  match text with x :: _ => if x =? 123 then control text c else data text c | [] => data text c end.

(** ** With the ledger *)

(** [OrderDesk._on_notice]: only fills reach the ledger. *)
Definition on_notice (date : pystr) (now : float) (l : Ledger.Ledger) (n : Notice) : Ledger.Ledger :=
  match kind n with KFill => (Ledger.apply_notice date (odno n) (qty n) (price n) (key n) now l).1 | _ => l end.
Definition effect (date : pystr) (now : float) (l : Ledger.Ledger) (e : Effect) : Ledger.Ledger :=
  match e with Pong => l | Deliver n => on_notice date now l n end.

(** A connection, a message on the day [date], the end of a session, or what others do
    to the ledger meanwhile.  After an exception the session is over. *)
Inductive Event := Connected | Message (text : pystr) (date : pystr) (now : float) | SessionEnds | LedgerOp (o : Ledger.op).
Record State := mkState { conn : Client; ledger : Ledger.Ledger }.
Definition notice_step (s : State) (e : Event) : State :=
  match e with
  | Connected => mkState (with_link true (subscribed (conn s)) (conn s)) (ledger s)
  | SessionEnds => mkState (with_link false false (conn s)) (ledger s)
  | LedgerOp o => mkState (conn s) (Ledger.step (ledger s) o)
  | Message text date now =>
      let o := on_message text (conn s) in
      mkState (match raised o with None => client o | Some _ => with_link false false (client o) end)
        (foldl (effect date now) (ledger s) (effects o))
  end.
Definition notice_run (s : State) (es : list Event) : State := foldl notice_step s es.

(** [run]: the pause after a session, in seconds, and the next one. *)
Definition next_backoff (failed : bool) (backoff : Z) : Z := Z.min ((if failed then backoff else 1) * 2) 30.

#[local] Set Default Proof Using "All".

(** Every step only adds to the ledger's notices. *)
Lemma notice_step_grows s e : Ledger.grows (ledger s) (ledger (notice_step s e)).
Proof.
  destruct e as [|text date now| |o]; cbn; try apply Ledger.grows_refl.
  - generalize (effects (on_message text (conn s))) as efs, (ledger s). induction efs as [|e efs IH]; intros l; [apply Ledger.grows_refl|].
    cbn. eapply Ledger.grows_trans; [|apply IH]. destruct e as [|n]; [apply Ledger.grows_refl|]. cbn. unfold on_notice.
    destruct (kind n); try apply Ledger.grows_refl. apply (Ledger.step_grows l (Ledger.ApplyNotice date (odno n) (qty n) (price n) (key n) now)).
  - apply Ledger.step_grows.
Qed.
Lemma notice_run_grows es : forall s, Ledger.grows (ledger s) (ledger (notice_run s es)).
Proof.
  induction es as [|e es IH]; intros s; [apply Ledger.grows_refl|]. cbn. eapply Ledger.grows_trans; [apply notice_step_grows|apply IH].
Qed.

(** C35: A fill that a notice put into the ledger is never put there again: whatever
    happens in between, sessions that end and are resumed under another key, other
    notices, reconciliation or the end of the day, a message that carries the notice with
    the same order number (leading zeros apart), time, quantity and price leaves the
    ledger as it is, on whatever day it comes. *)
Theorem redelivered_notice_ignored s text date now es text' date' now' n n'
  (Hd : effects (on_message text (conn s)) = [Deliver n]) (Hf : kind n = KFill)
  (Ha : (Ledger.apply_notice date (odno n) (qty n) (price n) (key n) now (ledger s)).2 = Ledger.Applied) :
  let s' := notice_run (notice_step s (Message text date now)) es in
  effects (on_message text' (conn s')) = [Deliver n'] -> key n' = key n ->
  ledger (notice_step s' (Message text' date' now')) = ledger s'.
Proof.
  intros s' Hd' Hk. destruct (Ledger.applied_notice _ _ _ _ _ _ _ Ha) as (x & Hx & Hxk).
  cbn [notice_step ledger]. rewrite Hd'. cbn. unfold on_notice. rewrite Hk. destruct (kind n'); [|done..].
  rewrite (Ledger.known_notice x); [done| |done]. apply (Ledger.grows_notice (ledger (notice_step s (Message text date now)))).
  - apply notice_run_grows.
  - cbn [notice_step ledger]. rewrite Hd. cbn. unfold on_notice. by rewrite Hf.
Qed.
End notice.

(** ** Samples *)

(** A cipher that is none, and a notice of 4 shares at 71,000. *)
Definition no_cipher (_ _ : value) (text : pystr) : option pystr := Some text.
Definition handle : pystr -> Client -> Out := on_message ascii_only (fun s => s) no_cipher.
Definition run_sample : State -> list Event -> State := notice_run ascii_only (fun s => s) no_cipher.
Definition notice_fields (od qty price flag : string) : string :=
  ("id^acct^" ++ od ++ "^^02^0^00^0^005930^" ++ qty ++ "^" ++ price ++ "^093001^N^" ++ flag ++ "^Y^1^10^name")%string.
Definition subscribed_ok : pystr :=
  quoted "{'header': {'tr_id': 'H0STCNI9'}, 'body': {'rt_cd': '0', 'msg1': 'SUBSCRIBE SUCCESS', 'output': {'key': 'k', 'iv': 'v'}}}".
Definition fill_text (od : string) : pystr := lit "1|H0STCNI9|001|" ++ lit (notice_fields od "4" "71000" "2").

Example before_the_key : counts (client (handle (fill_text "0000077") (new_client false))) = [(NoKey, 1)].
Proof. by vm_compute. Qed.
Definition keyed : Client := client (handle subscribed_ok (new_client false)).
Example read_fill : effects (handle (fill_text "0000077") keyed) =
  [Deliver (mkNotice KFill (lit "0000077") (lit "buy") (lit "005930") 4 71000 (lit "093001") 10)].
Proof. by vm_compute. Qed.
(** A price that stands for infinity ends the session. *)
Example infinite_price :
  raised (handle (lit "1|H0STCNI9|001|" ++ lit (notice_fields "77" "4" "inf" "2")) keyed) = Some OverflowError.
Proof. by vm_compute. Qed.

(** An accepted order of ten shares, and the same notice twice around a lost session. *)
Definition day : pystr := lit "20260102".
Definition ledger_sample : Ledger.Ledger :=
  Ledger.run Ledger.new_ledger
    [Ledger.NewOrder (lit "order-001") day (lit "005930") (lit "buy") 10 71000 0 (of_int 1);
     Ledger.Mark 1 Ledger.ACCEPTED (Some (lit "0000077")) None (of_int 2)].
Example filled_once :
  let s := mkState keyed ledger_sample in
  let s1 := run_sample s [Message (fill_text "0000077") day (of_int 3)] in
  let s2 := run_sample s1 [SessionEnds; Connected; Message subscribed_ok day (of_int 4); Message (fill_text "77") day (of_int 5)] in
  (Ledger.filled_qty <$> Ledger.orders (ledger s1)) = [4] /\ Ledger.fills (ledger s2) = Ledger.fills (ledger s1).
Proof. by vm_compute. Qed.

Lemma redelivered_notice_ignored_witness :
  let s := mkState keyed ledger_sample in
  let s' := run_sample (notice_step ascii_only (fun s => s) no_cipher s (Message (fill_text "0000077") day (of_int 3)))
              [SessionEnds; Connected; Message subscribed_ok day (of_int 4)] in
  ledger (notice_step ascii_only (fun s => s) no_cipher s' (Message (fill_text "77") day (of_int 5))) = ledger s'.
Proof.
  apply (redelivered_notice_ignored ascii_only (fun s => s) no_cipher (mkState keyed ledger_sample) (fill_text "0000077") day (of_int 3)
           [SessionEnds; Connected; Message subscribed_ok day (of_int 4)] (fill_text "77") day (of_int 5)
           (mkNotice KFill (lit "0000077") (lit "buy") (lit "005930") 4 71000 (lit "093001") 10)
           (mkNotice KFill (lit "77") (lit "buy") (lit "005930") 4 71000 (lit "093001") 10)).
  - by vm_compute.
  - reflexivity.
  - by vm_compute.
  - by vm_compute.
  - by vm_compute.
Defined.
End Notice.
