(* ===== verification/WsGateway.v ===== *)
(** * Distribution to browsers (src/src/mdfeed/services/ws_gateway.py)

    The snapshot of all instruments, the batches of changed ones every 100 ms, the bounded
    queue of each browser, and the full snapshot that follows a dropped message.  Each
    event is the code between two awaits.  A queue holds messages; what goes over the wire
    is [WsProto]'s server frame of their JSON text.  [written] logs what was sent. *)

From S2P Require Import Prelude PyStr PyFloat Dict Json JsonValue.
From S2P Require Models Protocol Clock.

#[local] Open Scope Z_scope.

Module WsGateway.
Import Models.Models JsonValue.JsonValue.
Import Protocol.Protocol (Frame, mkFrame, msg_type, seq, payload).

(** One instrument of the snapshot; a field that has not been seen yet is absent. *)
Record Cell := mkCell
  { c_venue : pystr; c_symbol : pystr; last : option float; c_qty : float; c_side : Z; c_ts : Z; latency : float;
    trades : Z; volume : float; tick_dir : option Z;
    quote : option (float * float * float * float) (* bid, ask, mid, spread *) }.
Definition fzero : float := S754_zero false.
Definition new_cell (v s : pystr) : Cell := mkCell v s None fzero 0 0 fzero 0 fzero None None.
Definition key_of (v s : pystr) : pystr := v ++ lit ":" ++ s.
Definition cell_key (c : Cell) : pystr := key_of (c_venue c) (c_symbol c).

Definition on_trade (t : Trade) (lat : float) (c : Cell) : Cell :=
  let dir := match last c with
             | Some p => if truthy p then Some (if fgt (price t) p then 1 else if flt (price t) p then -1 else 0) else tick_dir c
             | None => tick_dir c
             end in
  mkCell (c_venue c) (c_symbol c) (Some (price t)) (qty t) (side t) (ts_event_ns t) (fround_to lat 1) (trades c + 1)
    (fround_to (fadd (volume c) (qty t)) 8) dir (quote c).
Definition on_book (b : BookTop) (c : Cell) : Cell :=
  mkCell (c_venue c) (c_symbol c) (last c) (c_qty c) (c_side c) (c_ts c) (latency c) (trades c) (volume c) (tick_dir c)
    (Some (bid b, ask b, mid b, fround_to (spread_bp b) 3)).

(** What is sent; a snapshot after a drop says so, with the number dropped. *)
Inductive Msg :=
| Snapshot (dropped : option Z) (items : list Cell)
| Tick (items : list Cell)
| TradeMsg (t : Trade) | SignalMsg (s : Signal) | HeartbeatMsg (seq : Z).

Record Conn := mkConn
  { cid : Z; queue : list Msg; maxsize : Z; raw : bool; filter_by : option (gset pystr); sent : Z; dropped : Z;
    needs_resync : bool; resyncs : Z; written : list Msg }.
Definition new_conn (i size : Z) (raw : bool) (f : option (gset pystr)) : Conn := mkConn i [] size raw f 0 0 false 0 [].

(** [not c.symbols or k in c.symbols]. *)
Definition wants (k : pystr) (c : Conn) : bool := match filter_by c with None => true | Some s => bool_decide (k ∈ s) end.
(** A size of zero or less has no bound. *)
Definition full (c : Conn) : bool := (0 <? maxsize c) && (maxsize c <=? zlen (queue c)).

Definition enqueue (m : Msg) (c : Conn) : Conn :=
  if full c
  then mkConn (cid c) (drop 1 (queue c) ++ [m]) (maxsize c) (raw c) (filter_by c) (sent c) (dropped c + 1) true (resyncs c) (written c)
  else mkConn (cid c) (queue c ++ [m]) (maxsize c) (raw c) (filter_by c) (sent c) (dropped c) (needs_resync c) (resyncs c) (written c).

Record WSGateway := mkGw
  { clients : list Conn; next_id : Z; snapshot : list (pystr * Cell); dirty : gset pystr; frames_in : Z; clock : Clock.Clock.ClockMonitor }.
Definition new_gateway (window : float) : WSGateway := mkGw [] 0 [] ∅ 0 (Clock.Clock.new_monitor window).
Definition set_clients (l : list Conn) (g : WSGateway) : WSGateway := mkGw l (next_id g) (snapshot g) (dirty g) (frames_in g) (clock g).

(** ** Upstream *)

Definition push_one (m : Msg) (key : option pystr) (c : Conn) : Conn :=
  if match m with TradeMsg _ => negb (raw c) | _ => false end then c
  else if match key with Some k => negb (wants k c) | None => false end then c
  else enqueue m c.
Definition push_raw (m : Msg) (key : option pystr) (g : WSGateway) : WSGateway :=
  set_clients (push_one m key <$> clients g) g.

(** The instrument's cell, made when it is new, and the mark for the next batch. *)
Definition change (v s : pystr) (f : Cell -> Cell) (g : WSGateway) : WSGateway :=
  let k := key_of v s in
  mkGw (clients g) (next_id g) (dset k (f (default (new_cell v s) (dget k (snapshot g)))) (snapshot g)) ({[k]} ∪ dirty g)
    (frames_in g) (clock g).

Definition count_frame (g : WSGateway) : WSGateway :=
  mkGw (clients g) (next_id g) (snapshot g) (dirty g) (frames_in g + 1) (clock g).
Definition with_clock (m : Clock.Clock.ClockMonitor) (g : WSGateway) : WSGateway :=
  mkGw (clients g) (next_id g) (snapshot g) (dirty g) (frames_in g) m.

(** [_ingest]. *)
Definition ingest (f : Frame) (now : float) (g : WSGateway) : WSGateway :=
  let g := count_frame g in
  if (msg_type f =? MSG_TRADE) && (TRADE_SIZE <=? length (payload f))%nat then
    match unpack (payload f) with
    | Err _ => g
    | Ok t =>
        let '(m, lat) := Clock.Clock.monitor_observe (venue t) (latency_us t) now (clock g) in
        let g := change (venue t) (symbol t) (on_trade t lat) (with_clock m g) in
        if existsb raw (clients g) then push_raw (TradeMsg t) (Some (key_of (venue t) (symbol t))) g else g
    end
  else if (msg_type f =? MSG_BOOK) && (BOOK_SIZE <=? length (payload f))%nat then
    match book_unpack (payload f) with
    | Err _ => g
    | Ok b => change (bk_venue b) (bk_symbol b) (on_book b) g
    end
  else if (msg_type f =? MSG_SIGNAL) && (SIGNAL_SIZE <=? length (payload f))%nat then
    match signal_unpack (payload f) with
    | Err _ => g
    | Ok s => push_raw (SignalMsg s) (Some (key_of (sg_venue s) (sg_symbol s))) g
    end
  else if msg_type f =? MSG_HEARTBEAT then push_raw (HeartbeatMsg (seq f)) None g
  else g.

(** ** Batches *)

(** The cells of the keys that a connection wants. *)
Definition cells (ks : list pystr) (snap : list (pystr * Cell)) (c : Conn) : list Cell :=
  omap (fun k => if wants k c then dget k snap else None) ks.
Definition all_cells (snap : list (pystr * Cell)) (c : Conn) : list Cell :=
  omap (fun kv => if wants kv.1 c then Some kv.2 else None) snap.

Definition clear_queue (c : Conn) : Conn :=
  mkConn (cid c) [] (maxsize c) (raw c) (filter_by c) (sent c) (dropped c) (needs_resync c) (resyncs c) (written c).
Definition set_resync (b : bool) (n : Z) (c : Conn) : Conn :=
  mkConn (cid c) (queue c) (maxsize c) (raw c) (filter_by c) (sent c) (dropped c) b n (written c).

Definition resync (snap : list (pystr * Cell)) (c : Conn) : Conn :=
  let c := set_resync false (resyncs c + 1) c in
  match all_cells snap c with
  | [] => c
  | items => let c := enqueue (Snapshot (Some (dropped c)) items) (clear_queue c) in set_resync false (resyncs c) c
  end.

(** The batch for one connection; [None] ends the whole round. *)
Definition batch_one (ks : list pystr) (snap : list (pystr * Cell)) (c : Conn) : option Conn :=
  if raw c then Some c
  else if needs_resync c then Some (resync snap c)
  else
    match filter_by c, cells ks snap c with
    | Some _, [] => Some c
    | None, [] => None
    | _, items => Some (enqueue (Tick items) c)
    end.
Fixpoint batch (ks : list pystr) (snap : list (pystr * Cell)) (cs : list Conn) : list Conn :=
  match cs with
  | [] => []
  | c :: cs => match batch_one ks snap c with Some c => c :: batch ks snap cs | None => c :: cs end
  end.

(** One turn of [_coalesce_loop]; [ks] is the set of changed keys in the order Python
    iterates it. *)
Definition coalesce (ks : list pystr) (g : WSGateway) : WSGateway :=
  let cs := match ks, clients g with [], _ | _, [] => clients g | _, cs => batch ks (snapshot g) cs end in
  mkGw cs (next_id g) (snapshot g) ∅ (frames_in g) (clock g).

(** ** Connections *)

Definition connect (size : Z) (raw : bool) (f : option (gset pystr)) (g : WSGateway) : WSGateway :=
  let c := enqueue (Snapshot None (snd <$> snapshot g)) (new_conn (next_id g) size raw f) in
  mkGw (clients g ++ [c]) (next_id g + 1) (snapshot g) (dirty g) (frames_in g) (clock g).
Definition disconnect (i : Z) (g : WSGateway) : WSGateway := set_clients (List.filter (fun c => negb (cid c =? i)) (clients g)) g.
Definition on_conn (i : Z) (f : Conn -> Conn) (g : WSGateway) : WSGateway :=
  set_clients ((fun c => if cid c =? i then f c else c) <$> clients g) g.

(** The sender takes one message and writes it. *)
Definition send_one (c : Conn) : Conn :=
  match queue c with
  | [] => c
  | m :: q => mkConn (cid c) q (maxsize c) (raw c) (filter_by c) (sent c + 1) (dropped c) (needs_resync c) (resyncs c) (written c ++ [m])
  end.

Definition with_filter (f : option (gset pystr)) (c : Conn) : Conn :=
  mkConn (cid c) (queue c) (maxsize c) (raw c) f (sent c) (dropped c) (needs_resync c) (resyncs c) (written c).
Definition with_mode (r : bool) (c : Conn) : Conn :=
  mkConn (cid c) (queue c) (maxsize c) r (filter_by c) (sent c) (dropped c) (needs_resync c) (resyncs c) (written c).

(** [set(syms)]; keys that are no texts match no instrument. *)
Definition texts (l : list value) : gset pystr := list_to_set (omap (fun v => match v with VStr s => Some s | _ => None end) l).
Definition hashable (v : value) : bool := match v with VList _ | VObj _ => false | _ => true end.
Definition set_of (v : value) : PR (gset pystr) :=
  match v with
  | VList l => if forallb hashable l then Ok (texts l) else Err TypeError
  | VStr s => Ok (list_to_set ((fun c => [c]) <$> s))
  | VObj o => Ok (list_to_set o.*1)
  | _ => Err TypeError
  end.

(** [_on_command]; [Err] ends the connection.  The payload is [None] when it is no UTF-8. *)
Definition on_command (text : option pystr) (c : Conn) : PR Conn :=
  match text with
  | None => Err ValueError
  | Some text =>
      match loads text with
      | Err DecodeError => Ok c
      | Err TooManyDigits => Err ValueError
      | Ok cmd =>
          let! op := vget (lit "op") cmd in
          if vis op (lit "subscribe") then
            let! syms := vget (lit "symbols") cmd in
            if vtrue syms then let! s := set_of syms in Ok (with_filter (Some s) c) else Ok (with_filter None c)
          else if vis op (lit "mode") then
            let! v := vget (lit "value") cmd in Ok (with_mode (vis v (lit "raw")) c)
          else Ok c
      end
  end.
Definition command (i : Z) (text : option pystr) (g : WSGateway) : WSGateway :=
  match find (fun c => cid c =? i) (clients g) with
  | None => g
  | Some c => match on_command text c with Ok c' => on_conn i (fun _ => c') g | Err _ => disconnect i g end
  end.

Inductive Event :=
| Ingest (f : Frame) (now : float)
| Coalesce (ks : list pystr)
| Connect (size : Z) (raw : bool) (f : option (gset pystr))
| Send (i : Z)
| Command (i : Z) (text : option pystr)
| Disconnect (i : Z).
(** A turn of the coalescing loop takes the changed keys, in some order. *)
Definition gw_ok (g : WSGateway) (e : Event) : Prop := match e with Coalesce ks => ks ≡ₚ elements (dirty g) | _ => True end.
Definition ws_step (g : WSGateway) (e : Event) : WSGateway :=
  match e with
  | Ingest f now => ingest f now g
  | Coalesce ks => coalesce ks g
  | Connect size raw f => connect size raw f g
  | Send i => on_conn i send_one g
  | Command i text => command i text g
  | Disconnect i => disconnect i g
  end.
Fixpoint runs (g : WSGateway) (es : list Event) (g' : WSGateway) : Prop :=
  match es with [] => g' = g | e :: es => gw_ok g e /\ runs (ws_step g e) es g' end.

(** ** What a browser shows *)

Definition items_of (m : Msg) : list Cell := match m with Snapshot _ l | Tick l => l | _ => [] end.
Definition show (v : gmap pystr Cell) (l : list Cell) : gmap pystr Cell := foldl (fun v c => <[cell_key c := c]> v) v l.
(** The newest cell of every instrument in what was received. *)
Definition shows (ms : list Msg) : gmap pystr Cell := show ∅ (ms ≫= items_of).

Lemma shows_snoc ms m : shows (ms ++ [m]) = show (shows ms) (items_of m).
Proof. unfold shows, show. by rewrite bind_app, foldl_app, bind_cons, app_nil_r. Qed.

Definition current (snap : list (pystr * Cell)) (l : list Cell) : Prop := Forall (fun c => dget (cell_key c) snap = Some c) l.

Lemma show_current snap k l : current snap l -> forall v,
  show v l !! k = if bool_decide (k ∈ cell_key <$> l) then dget k snap else v !! k.
Proof.
  induction 1 as [|c l Hc Hl IH]; intros v; [done|]. change (show v (c :: l)) with (show (<[cell_key c := c]> v) l). rewrite IH. rewrite fmap_cons.
  destruct (decide (k ∈ cell_key <$> l)) as [Hin|Hin].
  - rewrite !bool_decide_true; [done|by apply list_elem_of_further|done].
  - rewrite (bool_decide_false (k ∈ cell_key <$> l)) by done. destruct (decide (k = cell_key c)) as [->|Hk].
    + rewrite lookup_insert_eq, bool_decide_true; [done|apply list_elem_of_here].
    + rewrite lookup_insert_ne by done. rewrite bool_decide_false; [done|]. rewrite elem_of_cons. naive_solver.
Qed.

(** The snapshot's keys are those of its cells, and only they can be marked as changed. *)
Record snap_ok (g : WSGateway) : Prop := mkSnapOk
  { so_dict : dict_ok (snapshot g);
    so_keys : forall k c, dget k (snapshot g) = Some c -> cell_key c = k;
    so_dirty : forall k, k ∈ dirty g -> is_Some (dget k (snapshot g)) }.

(** A browser that takes batches: what it was sent, with what waits for it, is the
    snapshot, but for the changes of the next batch, unless it awaits a full one. *)
Definition synced (snap : list (pystr * Cell)) (d : gset pystr) (c : Conn) : Prop :=
  raw c = false -> forall k x, dget k snap = Some x -> wants k c = true ->
  k ∈ d \/ needs_resync c = true \/ shows (written c ++ queue c) !! k = Some x.

Lemma enqueue_same m c : raw (enqueue m c) = raw c /\ cid (enqueue m c) = cid c /\ filter_by (enqueue m c) = filter_by c.
Proof. unfold enqueue. by destruct (full c). Qed.
Lemma wants_same k c c' : filter_by c' = filter_by c -> wants k c' = wants k c.
Proof. unfold wants. by intros ->. Qed.

Lemma shows_enqueue m c : full c = false -> shows (written (enqueue m c) ++ queue (enqueue m c)) = show (shows (written c ++ queue c)) (items_of m).
Proof. intros Hf. unfold enqueue. rewrite Hf. cbn [written queue]. by rewrite app_assoc, shows_snoc. Qed.

Lemma synced_quiet snap d m c : items_of m = [] -> synced snap d c -> synced snap d (enqueue m c).
Proof.
  intros Hm H Hr k x Hk Hw. destruct (enqueue_same m c) as (Er & _ & Ef). rewrite Er in Hr. rewrite (wants_same k c) in Hw by done.
  destruct (full c) eqn:Hf; [right; left; unfold enqueue; by rewrite Hf|].
  rewrite shows_enqueue, Hm by done. destruct (H Hr k x Hk Hw) as [?|[?|?]]; [by left| |by do 2 right].
  right. left. unfold enqueue. by rewrite Hf.
Qed.

Lemma cells_in ks snap c k x : k ∈ ks -> dget k snap = Some x -> wants k c = true -> x ∈ cells ks snap c.
Proof. intros Hk Hx Hw. apply list_elem_of_omap. exists k. by rewrite Hw. Qed.

Lemma cells_current ks snap c : (forall k x, dget k snap = Some x -> cell_key x = k) -> current snap (cells ks snap c).
Proof.
  intros Hkey. apply Forall_forall. intros x (k & _ & Hx)%list_elem_of_omap. destruct (wants k c); [|done].
  by rewrite (Hkey k x Hx).
Qed.

Lemma all_cells_in snap c k x : dget k snap = Some x -> wants k c = true -> x ∈ all_cells snap c.
Proof. intros Hx Hw. apply list_elem_of_omap. exists (k, x). cbn. rewrite Hw. split; [by apply dget_In|done]. Qed.

Lemma all_cells_current snap c : dict_ok snap -> (forall k x, dget k snap = Some x -> cell_key x = k) -> current snap (all_cells snap c).
Proof.
  intros Hd Hkey. apply Forall_forall. intros x ([k y] & Hin & Hx)%list_elem_of_omap. cbn in Hx. destruct (wants k c); [|done].
  injection Hx as ->. apply dget_intro in Hin; [|done]. by rewrite (Hkey k x Hin).
Qed.

(** What is in the items of a message is shown once the message is there. *)
Lemma shown snap l v k x : current snap l -> (forall k x, dget k snap = Some x -> cell_key x = k) ->
  dget k snap = Some x -> x ∈ l \/ v !! k = Some x -> show v l !! k = Some x.
Proof.
  intros Hc Hkey Hx Hin. rewrite (show_current snap) by done. case_bool_decide as Hk; [done|].
  destruct Hin as [Hin|?]; [|done]. destruct Hk. rewrite <- (Hkey k x Hx). by apply list_elem_of_fmap_2.
Qed.

Lemma resync_same snap c : raw (resync snap c) = raw c /\ cid (resync snap c) = cid c /\ filter_by (resync snap c) = filter_by c /\
  needs_resync (resync snap c) = false.
Proof. unfold resync, enqueue. destruct (all_cells _ _); [done|]. by destruct (full _). Qed.

(** A full snapshot puts everything right. *)
Lemma resync_shows snap c k x : dict_ok snap -> (forall k x, dget k snap = Some x -> cell_key x = k) ->
  dget k snap = Some x -> wants k c = true -> shows (written (resync snap c) ++ queue (resync snap c)) !! k = Some x.
Proof.
  intros Hd Hkey Hx Hw. unfold resync. set (c1 := set_resync false (resyncs c + 1) c).
  pose proof (all_cells_in snap c1 k x Hx Hw) as Hin. pose proof (all_cells_current snap c1 Hd Hkey) as Hc.
  destruct (all_cells snap c1) as [|y l]; [by apply elem_of_nil in Hin|].
  assert (full (clear_queue c1) = false) as Hf.
  { unfold full. change (zlen (queue (clear_queue c1))) with 0. destruct (Z.ltb_spec 0 (maxsize (clear_queue c1))); [|done]. by apply Z.leb_gt. }
  change (shows (written (enqueue (Snapshot (Some (dropped c1)) (y :: l)) (clear_queue c1)) ++ queue (enqueue (Snapshot (Some (dropped c1)) (y :: l)) (clear_queue c1))) !! k = Some x).
  rewrite shows_enqueue by done. apply (shown snap); try done. by left.
Qed.

Lemma batch_one_synced ks snap d c c' :
  dict_ok snap -> (forall k x, dget k snap = Some x -> cell_key x = k) -> ks ≡ₚ elements d ->
  batch_one ks snap c = Some c' -> synced snap d c -> synced snap ∅ c'.
Proof.
  intros Hd Hkey Hks Hb H. unfold batch_one in Hb. destruct (raw c) eqn:Hr; [injection Hb as <-; intros ?; congruence|].
  destruct (needs_resync c) eqn:Hn.
  { injection Hb as <-. intros _ k x Hx Hw. do 2 right. apply resync_shows; try done.
    rewrite <- Hw. symmetry. apply wants_same, resync_same. }
  assert (forall k x, dget k snap = Some x -> wants k c = true -> x ∈ cells ks snap c \/ shows (written c ++ queue c) !! k = Some x) as Hold.
  { intros k x Hx Hw. destruct (H Hr k x Hx Hw) as [Hk|[?|?]]; [left|congruence|by right].
    apply (cells_in _ _ _ k); [|done..]. by rewrite Hks, elem_of_elements. }
  assert (synced snap ∅ (enqueue (Tick (cells ks snap c)) c)) as Htick.
  { intros _ k x Hx Hw. destruct (enqueue_same (Tick (cells ks snap c)) c) as (_ & _ & Ef). rewrite (wants_same k c) in Hw by done.
    destruct (full c) eqn:Hf; [right; left; unfold enqueue; by rewrite Hf|]. do 2 right. rewrite shows_enqueue by done.
    apply (shown snap); [by apply cells_current|done..|]. by apply Hold. }
  destruct (filter_by c) eqn:Ef, (cells ks snap c) as [|y l] eqn:Ec; try done; injection Hb as <-; try done.
  intros _ k x Hx Hw. destruct (Hold k x Hx Hw) as [Hin|Hs]; [by apply elem_of_nil in Hin|by do 2 right].
Qed.

(** The round never ends early: a changed instrument is in the snapshot. *)
Lemma batch_all ks snap cs : ks <> [] -> Forall (fun k => is_Some (dget k snap)) ks ->
  Forall2 (fun c c' => batch_one ks snap c = Some c') cs (batch ks snap cs).
Proof.
  intros Hne Hks. induction cs as [|c cs IH]; [constructor|]. cbn.
  destruct (batch_one ks snap c) as [c'|] eqn:E; [by constructor|]. exfalso. unfold batch_one in E.
  destruct (raw c); [done|]. destruct (needs_resync c); [done|].
  destruct (filter_by c) eqn:Ef, (cells ks snap c) eqn:Ec; try done.
  destruct ks as [|k ks]; [done|]. apply Forall_cons in Hks as [[x Hx] _].
  assert (x ∈ cells (k :: ks) snap c) as Hin; [|by rewrite Ec in Hin; apply elem_of_nil in Hin].
  apply (cells_in _ _ _ k); [apply list_elem_of_here|done|]. unfold wants. by rewrite Ef.
Qed.

(** ** Every event *)

Definition ours (i : Z) (g : WSGateway) : Prop := forall c, c ∈ clients g -> cid c = i -> synced (snapshot g) (dirty g) c.
Definition gw_inv (i : Z) (g : WSGateway) : Prop := snap_ok g /\ ours i g.

(** The cell of a change keeps its key. *)
Lemma change_ok v s f g : (forall c, cell_key (f c) = cell_key c) -> snap_ok g -> snap_ok (change v s f g).
Proof.
  intros Hf [H1 H2 H3]. set (k := key_of v s).
  assert (cell_key (f (default (new_cell v s) (dget k (snapshot g)))) = k) as Hc.
  { rewrite Hf. destruct (dget k (snapshot g)) as [c|] eqn:E; [by apply H2|done]. }
  split; cbn [change snapshot dirty].
  - by apply dset_ok.
  - intros k' c. destruct (decide (k' = k)) as [->|Hk]; [rewrite dget_dset_eq; by intros [= <-]|].
    rewrite dget_dset_ne by done. apply H2.
  - intros k' [->%elem_of_singleton|Hk]%elem_of_union; [rewrite dget_dset_eq; by eexists|].
    destruct (decide (k' = k)) as [->|Hk']; [rewrite dget_dset_eq; by eexists|]. rewrite dget_dset_ne by done. by apply H3.
Qed.

Lemma change_synced v s f g c : synced (snapshot g) (dirty g) c -> synced (snapshot (change v s f g)) (dirty (change v s f g)) c.
Proof.
  intros H Hr k x. cbn [change snapshot dirty]. destruct (decide (k = key_of v s)) as [->|Hk]; [intros _ _; left; set_solver|].
  rewrite dget_dset_ne by done. intros Hx Hw. destruct (H Hr k x Hx Hw) as [?|[?|?]]; [left; set_solver|by right; left|by do 2 right].
Qed.

Lemma change_inv i v s f g : (forall c, cell_key (f c) = cell_key c) -> gw_inv i g -> gw_inv i (change v s f g).
Proof. intros Hf [Hs Ho]. split; [by apply change_ok|]. intros c Hc Hi. by apply change_synced, Ho. Qed.

Lemma same_inv i g g' : clients g' = clients g -> snapshot g' = snapshot g -> dirty g' = dirty g -> gw_inv i g -> gw_inv i g'.
Proof. intros E1 E2 E3 [[H1 H2 H3] Ho]. unfold gw_inv, ours. rewrite E1, E2, E3. split; [split; by rewrite ?E2, ?E3|done]. Qed.

(** Connections change one by one. *)
Lemma map_inv i f g : (forall c, cid (f c) = cid c) -> (forall c, c ∈ clients g -> cid c = i -> synced (snapshot g) (dirty g) c -> synced (snapshot g) (dirty g) (f c)) ->
  gw_inv i g -> gw_inv i (set_clients (f <$> clients g) g).
Proof.
  intros Hi Hf [[H1 H2 H3] Ho]. split; [by split|]. intros c (c0 & -> & Hc)%list_elem_of_fmap E. rewrite Hi in E. cbn [snapshot dirty set_clients].
  apply Hf; [done..|]. by apply Ho.
Qed.

Lemma push_raw_inv i m k g : items_of m = [] -> gw_inv i g -> gw_inv i (push_raw m k g).
Proof.
  intros Hm. apply map_inv.
  - intros c. unfold push_one. destruct (match m with TradeMsg _ => _ | _ => _ end); [done|].
    destruct (match k with Some _ => _ | None => _ end); [done|apply enqueue_same].
  - intros c _ _ H. unfold push_one. destruct (match m with TradeMsg _ => _ | _ => _ end); [done|].
    destruct (match k with Some _ => _ | None => _ end); [done|by apply synced_quiet].
Qed.

Lemma ingest_inv i f now g : gw_inv i g -> gw_inv i (ingest f now g).
Proof.
  intros H. assert (gw_inv i (count_frame g)) as H0 by by apply (same_inv i g). unfold ingest. cbn zeta.
  destruct (_ && _); [|destruct (_ && _); [|destruct (_ && _); [|destruct (_ =? _); [by apply push_raw_inv|done]]]].
  - destruct (unpack _) as [t|]; [|done]. destruct (Clock.Clock.monitor_observe _ _ _ _) as [m lat].
    assert (gw_inv i (change (venue t) (symbol t) (on_trade t lat) (with_clock m (count_frame g)))) as H1.
    { apply change_inv; [done|]. by apply (same_inv i g). }
    destruct (existsb _ _); [by apply push_raw_inv|done].
  - destruct (book_unpack _) as [b|]; [|done]. by apply change_inv.
  - destruct (signal_unpack _) as [x|]; [|done]. by apply push_raw_inv.
Qed.

Lemma coalesce_inv i ks g : ks ≡ₚ elements (dirty g) -> gw_inv i g -> gw_inv i (coalesce ks g).
Proof.
  intros Hks [[H1 H2 H3] Ho]. split; [split; cbn [coalesce snapshot dirty]; [done|done|by intros k ?%not_elem_of_empty]|].
  assert (Forall (fun k => is_Some (dget k (snapshot g))) ks) as Hk.
  { apply Forall_forall. intros k Hk. rewrite Hks, elem_of_elements in Hk. by apply H3. }
  intros c Hc Hi. cbn [coalesce clients snapshot dirty] in *.
  destruct ks as [|k0 ks].
  { assert (dirty g = ∅) as Hd. { symmetry in Hks. apply Permutation_nil_r in Hks. apply leibniz_equiv_iff. by apply elements_empty_inv. }
    rewrite <- Hd. by apply Ho. }
  destruct (clients g) as [|c0 cs] eqn:Ec; [by apply elem_of_nil in Hc|].
  pose proof (batch_all (k0 :: ks) (snapshot g) (c0 :: cs) ltac:(done) Hk) as Hb.
  apply list_elem_of_lookup in Hc as [j Hj]. destruct (Forall2_lookup_r _ _ _ _ _ Hb Hj) as (c1 & Hj1 & Hc1).
  apply (batch_one_synced (k0 :: ks) (snapshot g) (dirty g) c1 c H1 H2 Hks Hc1). apply Ho; [rewrite Ec; by eapply list_elem_of_lookup_2|].
  rewrite <- Hi. unfold batch_one in Hc1. destruct (raw c1); [by injection Hc1 as <-|].
  destruct (needs_resync c1); [injection Hc1 as <-; symmetry; apply resync_same|].
  destruct (filter_by c1), (cells (k0 :: ks) (snapshot g) c1); simplify_eq; try done; symmetry; apply enqueue_same.
Qed.

Lemma connect_inv i size r f g : gw_inv i g -> gw_inv i (connect size r f g).
Proof.
  intros [[H1 H2 H3] Ho]. split; [by split|]. intros c [Hc|Hc]%elem_of_app Hi; [by apply Ho|].
  apply list_elem_of_singleton in Hc as ->.
  intros _ k x Hx _. do 2 right. set (c0 := new_conn (next_id g) size r f).
  assert (full c0 = false) as Hf.
  { unfold full. change (zlen (queue c0)) with 0. destruct (Z.ltb_spec 0 (maxsize c0)); [|done]. by apply Z.leb_gt. }
  cbn [connect snapshot] in Hx. rewrite shows_enqueue by done. apply (shown (snapshot g)); [|done..|].
  - apply Forall_forall. intros y ([k' y'] & -> & Hy)%list_elem_of_fmap. apply dget_intro in Hy; [|done]. cbn. by rewrite (H2 k' y' Hy).
  - left. apply list_elem_of_fmap. exists (k, x). split; [done|by apply dget_In].
Qed.

Lemma send_shows c : written (send_one c) ++ queue (send_one c) = written c ++ queue c.
Proof. unfold send_one. destruct (queue c) eqn:E; [by rewrite E|]. cbn. by rewrite <- app_assoc. Qed.

Lemma send_synced snap d c : synced snap d c -> synced snap d (send_one c).
Proof.
  intros H Hr k x Hx Hw. rewrite send_shows. assert (raw c = false /\ wants k c = true /\ needs_resync (send_one c) = needs_resync c) as (Er & Ew & ->).
  { unfold send_one in *. by destruct (queue c). }
  by apply H.
Qed.

Lemma send_inv i j g : gw_inv i g -> gw_inv i (ws_step g (Send j)).
Proof.
  apply map_inv; intros c; [|intros _ _ H]; destruct (cid c =? j); try done; [unfold send_one; by destruct (queue c)|by apply send_synced].
Qed.

Lemma disconnect_inv i j g : gw_inv i g -> gw_inv i (disconnect j g).
Proof.
  intros [[H1 H2 H3] Ho]. split; [by split|]. intros c Hc Hi. apply Ho; [|done].
  cbn [disconnect set_clients clients] in Hc. apply list_elem_of_In, filter_In in Hc as [Hc _]. by apply list_elem_of_In.
Qed.

Lemma command_inv i j text g : j <> i -> gw_inv i g -> gw_inv i (command j text g).
Proof.
  intros Hj H. unfold command. destruct (find _ _) as [c|] eqn:Ef; [|done].
  destruct (on_command text c) as [c'|] eqn:Ec; [|by apply disconnect_inv].
  apply find_some in Ef as [_ Hc%Z.eqb_eq].
  assert (cid c' = cid c) as Hid.
  { unfold on_command in Ec. destruct text as [text|]; [|done]. destruct (loads text) as [cmd|[]]; [|by injection Ec as <-|done].
    apply rbind_Ok in Ec as (op & _ & Ec). destruct (vis op _).
    - apply rbind_Ok in Ec as (syms & _ & Ec). destruct (vtrue syms); [apply rbind_Ok in Ec as (s & _ & Ec)|]; by injection Ec as <-.
    - destruct (vis op _); [|by injection Ec as <-]. apply rbind_Ok in Ec as (v & _ & Ec). by injection Ec as <-. }
  destruct H as [[H1 H2 H3] Ho]. split; [by split|]. intros x (y & -> & Hy)%list_elem_of_fmap Hi. cbn [snapshot dirty on_conn set_clients].
  destruct (Z.eqb_spec (cid y) j); [congruence|by apply Ho].
Qed.

Definition commands (i : Z) (e : Event) : bool := match e with Command j _ => j =? i | _ => false end.

Lemma ws_step_inv i g e : gw_ok g e -> commands i e = false -> gw_inv i g -> gw_inv i (ws_step g e).
Proof.
  intros Hok Hc H. destruct e as [f now|ks|size r f|j|j text|j].
  - by apply ingest_inv.
  - by apply coalesce_inv.
  - by apply connect_inv.
  - by apply send_inv.
  - apply command_inv; [by apply Z.eqb_neq|done].
  - by apply disconnect_inv.
Qed.

Lemma runs_inv i es : forall g g', runs g es g' -> Forall (fun e => commands i e = false) es -> gw_inv i g -> gw_inv i g'.
Proof.
  induction es as [|e es IH]; intros g g' Hr Hc H; [by rewrite Hr|]. destruct Hr as [Hok Hr]. apply Forall_cons in Hc as [He Hc].
  apply (IH _ _ Hr Hc). by apply ws_step_inv.
Qed.

Lemma new_gw_inv i w : gw_inv i (new_gateway w).
Proof. split; [split; [apply dict_ok_nil|done|by intros k ?%not_elem_of_empty]|]. by intros c ?%elem_of_nil. Qed.

(** C36: A browser that takes batches and keeps the filter it connected with is never
    left with an old value: for every instrument it wants, what it was sent so far shows
    the gateway's own cell, but for the messages still in its queue, the instruments that
    changed since the last batch, and a full snapshot that is due; this however many
    messages its queue dropped.  And the next batch, when anything changed at all, ends the
    wait for the full snapshot. *)
Theorem dashboard_current w es g i
  (Hr : runs (new_gateway w) es g) (Hc : Forall (fun e => commands i e = false) es) :
  (forall c k x, c ∈ clients g -> cid c = i -> raw c = false -> dget k (snapshot g) = Some x -> wants k c = true ->
     k ∈ dirty g \/ needs_resync c = true \/ shows (written c ++ queue c) !! k = Some x) /\
  (forall c ks, c ∈ clients g -> raw c = false -> needs_resync c = true -> ks ≡ₚ elements (dirty g) -> ks <> [] ->
     resync (snapshot g) c ∈ clients (ws_step g (Coalesce ks)) /\ needs_resync (resync (snapshot g) c) = false).
Proof.
  pose proof (runs_inv i es _ _ Hr Hc (new_gw_inv i w)) as [[H1 H2 H3] Ho]. split.
  - intros c k x Hin Hi Hraw Hx Hw. by apply Ho.
  - intros c ks Hin Hraw Hn Hks Hne. split; [|apply resync_same]. cbn [ws_step coalesce clients].
    assert (Forall (fun k => is_Some (dget k (snapshot g))) ks) as Hk.
    { apply Forall_forall. intros k Hk. rewrite Hks, elem_of_elements in Hk. by apply H3. }
    destruct ks as [|k0 ks]; [done|]. destruct (clients g) as [|c0 cs] eqn:Ec; [by apply elem_of_nil in Hin|].
    pose proof (batch_all (k0 :: ks) (snapshot g) (c0 :: cs) Hne Hk) as Hb.
    apply list_elem_of_lookup in Hin as [j Hj]. destruct (Forall2_lookup_l _ _ _ _ _ Hb Hj) as (c1 & Hj1 & Hc1).
    unfold batch_one in Hc1. rewrite Hraw, Hn in Hc1. injection Hc1 as ->. by eapply list_elem_of_lookup_2.
Qed.

(** ** Samples *)

Definition frame_of (r : Trunc * result ModelError bytes) (ty : Z) : Frame :=
  mkFrame ty 0 0 (match r.2 with Ok b => b | Err _ => [] end).
Definition trade_frame (sym : string) (p : Z) : Frame :=
  frame_of (pack no_trunc (mkTrade (lit "V") (lit sym) 1000 2000 (of_int p) (of_int 1) SIDE_BUY)) MSG_TRADE.
Definition signal_frame : Frame := frame_of (signal_pack no_trunc (mkSignal (lit "V") (lit "A") 5 (lit "s") 1 (of_int 1) (of_int 7))) MSG_SIGNAL.
Definition price_of (v : gmap pystr Cell) (k : string) : option float := v !! lit k ≫= last.
Definition first_conn (g : WSGateway) : Conn := default (new_conn 0 0 false None) (clients g !! 0%nat).
Definition after (es : list Event) : WSGateway := foldl ws_step (new_gateway (of_int 60)) es.

(** Two instruments, a queue of two messages, none of them read: one is dropped, and
    the next batch is a full snapshot. *)
Definition busy : list Event :=
  [Ingest (trade_frame "A" 10) (of_int 1); Coalesce [lit "V:A"]; Connect 2 false None;
   Ingest (trade_frame "B" 20) (of_int 2); Coalesce [lit "V:B"];
   Ingest (trade_frame "B" 21) (of_int 3); Coalesce [lit "V:B"];
   Ingest (trade_frame "A" 11) (of_int 4); Ingest (trade_frame "B" 22) (of_int 5)].
Example full_again :
  let g := after busy in
  (needs_resync (first_conn g), dropped (first_conn g)) = (true, 1) /\
  let c := send_one (first_conn (ws_step g (Coalesce [lit "V:A"; lit "V:B"]))) in
  (price_of (shows (written c)) "V:A", price_of (shows (written c)) "V:B") = (Some (of_int 11), Some (of_int 22)).
Proof. by vm_compute. Qed.

Lemma batch_keys g ks : bool_decide (ks ≡ₚ elements (dirty g)) = true -> gw_ok g (Coalesce ks).
Proof. by intros ?%bool_decide_eq_true. Qed.

Lemma dashboard_current_witness :
  let g := after busy in
  (forall c k x, c ∈ clients g -> cid c = 0 -> raw c = false -> dget k (snapshot g) = Some x -> wants k c = true ->
     k ∈ dirty g \/ needs_resync c = true \/ shows (written c ++ queue c) !! k = Some x) /\
  (forall c ks, c ∈ clients g -> raw c = false -> needs_resync c = true -> ks ≡ₚ elements (dirty g) -> ks <> [] ->
     resync (snapshot g) c ∈ clients (ws_step g (Coalesce ks)) /\ needs_resync (resync (snapshot g) c) = false).
Proof.
  apply (dashboard_current (of_int 60) busy (after busy) 0); [|by repeat constructor].
  repeat (split; [first [exact I | apply batch_keys; by vm_compute]|]). reflexivity.
Defined.

(** After a change of the filter nothing brings the new instrument up to date: its last
    trade was left out of the batches while it was not wanted. *)
Definition subscribe_to (k : string) : option pystr :=
  Some (lit "{" ++ quoted "'op': 'subscribe', 'symbols': ['" ++ lit k ++ quoted "']" ++ lit "}").
Example filter_change_stale :
  let g := after [Ingest (trade_frame "A" 10) (of_int 1); Ingest (trade_frame "B" 20) (of_int 1); Coalesce [lit "V:A"; lit "V:B"];
                  Connect 8 false None; Command 0 (subscribe_to "V:A");
                  Ingest (trade_frame "B" 99) (of_int 2); Coalesce [lit "V:B"];
                  Command 0 (subscribe_to "V:B"); Send 0; Coalesce []] in
  let c := first_conn g in
  (wants (lit "V:B") c, needs_resync c, queue c, bool_decide (dirty g = ∅)) = (true, false, [], true) /\
  price_of (shows (written c)) "V:B" = Some (of_int 20) /\
  (c ← dget (lit "V:B") (snapshot g); last c) = Some (of_int 99).
Proof. by vm_compute. Qed.

(** The full snapshot empties the queue of everything, signals too, and counts nothing. *)
Definition is_signal (m : Msg) : bool := match m with SignalMsg _ => true | _ => false end.
Example signal_thrown_away :
  let g := after [Ingest (trade_frame "A" 10) (of_int 1); Connect 2 false None; Ingest (trade_frame "A" 11) (of_int 2); Coalesce [lit "V:A"];
                  Ingest signal_frame (of_int 3); Ingest (trade_frame "A" 12) (of_int 4)] in
  let g' := ws_step g (Coalesce [lit "V:A"]) in
  (existsb is_signal (queue (first_conn g)), existsb is_signal (queue (first_conn g'))) = (true, false) /\
  dropped (first_conn g') = dropped (first_conn g).
Proof. by vm_compute. Qed.
End WsGateway.
