(* ===== verification/ContestService.v ===== *)
(** * The contest service (src/src/mdfeed/services/contest.py, and the listings of
    src/src/mdfeed/contest.py)

    What stands before the contest ledger: joining, the sessions and throttles, the hours
    orders are taken in, the price an order is filled at, and the check that halts the
    ledger.  Between two awaits a request is one step: hashing or checking a password, and
    waiting for a price, each split a request in two, and anything runs in between.

    A request carries the fields [_body] read, as the texts and integers [str] and [int]
    made of them; the broker's answers are events.  The clocks do not move within a step. *)

From Stdlib Require Import Sorted.
From S2P Require Import Prelude PyStr PyFloat Dict Hashes Json Contest Auth Desk Exchanges.

Module ContestService.
Import Contest.Contest.

(** ** The data *)

Definition COOKIE : pystr := lit "contest_session".
Definition ADMIN_COOKIE : pystr := lit "contest_admin".
Definition MIN_PASSWORD : Z := 10.
Definition QUOTE_TTL_S : float := of_int 1.

Definition nick_char (c : Z) : bool :=
  ((48 <=? c) && (c <=? 57)) || ((65 <=? c) && (c <=? 90)) || ((97 <=? c) && (c <=? 122))
  || ((0xac00 <=? c) && (c <=? 0xd7a3)) || (c =? 95).
Definition NICK_RE : pystr -> bool :=
  Desk.Desk.to_end (fun s => (2 <=? zlen s) && (zlen s <=? 16) && forallb nick_char s).

Record Settings := mkSettings
  { rules : Config; contest_start : pystr; contest_end : pystr; contest_off_hours : bool; contest_max_qty : Z;
    contest_admin_hash : pystr }.

(** The clocks at a step: monotonic and wall seconds, Korean time in microseconds and as
    [%Y%m%d], and the two wall readings the ledger writes. *)
Record Now := mkNow { mono : float; wall : float; kst : Z; day : pystr; stamp : pystr; row_stamp : pystr }.

(** What the broker's price call gave. *)
Inductive Answer := Quoted (price : Z) | Refused | Broken.

(** Who waits for a price: a quote request, an order, a round of the valuation with the
    symbols after this one. *)
Inductive Waiter := ForQuote | ForOrder (pid : Z) (cid side : pystr) (qty : Z) | ForValuation (rest : list pystr).

(** A password being hashed, and one being verified against the stored hash. *)
Inductive Thread := ToHash (invite nick pw : pystr) | ToVerify (nick pw : pystr) (pid : Z) (stored : pystr)
                  | ToVerifyAdmin (pw : pystr).

Inductive Break := JournalChainBroken (journal_id : Z) | CashMismatch (pid : Z) | PositionMismatch (pid : Z) (sym : pystr)
                 | OrderJournalMismatch (order_id : Z).

Record Door := mkDoor
  { sessions : list (pystr * Auth.Auth.Session); admin_sessions : list (pystr * Auth.Auth.Session);
    throttles : list (pystr * Auth.Auth.LoginThrottle); admin_throttle : Auth.Auth.LoginThrottle;
    threads : list (nat * Thread) }.

(** The cached quotes; for each symbol the call under way; the calls that are answered;
    who waits for which call; the last price of each symbol. *)
Record Market := mkMarket
  { quotes : list (pystr * (float * Z)); inflight : list (pystr * nat); answers : list (nat * Answer);
    waiting : list (nat * (pystr * nat * Waiter)); prices : list (pystr * Z); last_valuation : float }.

(** [next]: the number the next thread, call or waiter gets. *)
Record Service := mkService
  { db : Db; door : Door; market : Market; breaks : list Break; last_integrity : float; next : nat }.

(** The service over the ledger it found. *)
Definition start (d : Db) : Service :=
  mkService d (mkDoor [] [] [] Auth.Auth.new_throttle []) (mkMarket [] [] [] [] [] (of_int 0)) [] (of_int 0) 0.

Definition with_db (d : Db) (s : Service) : Service :=
  mkService d (door s) (market s) (breaks s) (last_integrity s) (next s).
Definition with_door (d : Door) (s : Service) : Service :=
  mkService (db s) d (market s) (breaks s) (last_integrity s) (next s).
Definition with_market (m : Market) (s : Service) : Service :=
  mkService (db s) (door s) m (breaks s) (last_integrity s) (next s).
Definition tick (s : Service) : Service :=
  mkService (db s) (door s) (market s) (breaks s) (last_integrity s) (S (next s)).
Definition with_sessions (ss : list (pystr * Auth.Auth.Session)) (s : Service) : Service :=
  let d := door s in with_door (mkDoor ss (admin_sessions d) (throttles d) (admin_throttle d) (threads d)) s.
Definition with_admin_sessions (ss : list (pystr * Auth.Auth.Session)) (s : Service) : Service :=
  let d := door s in with_door (mkDoor (sessions d) ss (throttles d) (admin_throttle d) (threads d)) s.
Definition with_throttle (nick : pystr) (th : Auth.Auth.LoginThrottle) (s : Service) : Service :=
  let d := door s in with_door (mkDoor (sessions d) (admin_sessions d) (dset nick th (throttles d)) (admin_throttle d) (threads d)) s.
Definition with_admin_throttle (th : Auth.Auth.LoginThrottle) (s : Service) : Service :=
  let d := door s in with_door (mkDoor (sessions d) (admin_sessions d) (throttles d) th (threads d)) s.
Definition with_threads (ts : list (nat * Thread)) (s : Service) : Service :=
  let d := door s in with_door (mkDoor (sessions d) (admin_sessions d) (throttles d) (admin_throttle d) ts) s.
Definition with_waiting (ws : list (nat * (pystr * nat * Waiter))) (s : Service) : Service :=
  let m := market s in with_market (mkMarket (quotes m) (inflight m) (answers m) ws (prices m) (last_valuation m)) s.

(** Why orders are not taken. *)
Inductive Closed := HaltedBy (why : pystr) | NotStarted | Ended | OffSession.

(** What the ledger or the password functions raised. *)
Inductive Exn := LedgerError (e : ContestError) | AuthError (e : Auth.Auth.Exn) | BrokerError | CheckError.

Inductive Response :=
| Csrf | LoginRequired | AdminLoginRequired | BadRequest
| Hashing (id : nat) | Joined (nick tok : pystr) | JoinRefused (e : ContestError)
| Locked (retry_after_s : Z) | Verifying (id : nat) | WrongPassword | LoggedIn (tok : pystr) | LoggedOut
| Price (price : Z) | NoQuote | Waiting (id : nat)
| ClosedFor (why : Closed) | Placed (o : Order) | Duplicate (o : Order)
| Codes (codes : list pystr) | StillBroken (b : list Break) | Resumed
| Shown | Who (pid : option Z) (admin : bool)
| Nothing | Raised (e : Exn).

(** ** The hours *)

(** A halt with an empty reason is falsy. *)
Definition is_halted (d : Db) : bool := match halted d with Some (_ :: _) => true | _ => false end.

Section service.
Variable decimal : Z -> option Z.
Variable cfg : Settings.

Definition str_ltb (a b : pystr) : bool := negb (str_leb b a).

(** [None]: orders are taken. *)
Definition trading_state (now : Now) (d : Db) : option Closed :=
  if is_halted d then HaltedBy <$> halted d
  else if negb (bool_decide (contest_start cfg = [])) && str_ltb (day now) (contest_start cfg) then Some NotStarted
  else if negb (bool_decide (contest_end cfg = [])) && str_ltb (contest_end cfg) (day now) then Some Ended
  else if negb (contest_off_hours cfg) && negb (Exchanges.Exchanges.market_is_open (kst now)) then Some OffSession
  else None.

(** ** Prices *)

(** [price] up to the await: the cached quote; else the waiter's number, for the call under
    way or a new one. *)
Definition price_begin (now : Now) (sym : pystr) (w : Waiter) (s : Service) : Service * (Z + nat) :=
  let m := market s in
  let ask :=
    let '(task, m, n) :=
      match dget sym (inflight m) with
      | Some task => (task, m, next s)
      | None => (next s, mkMarket (quotes m) (dset sym (next s) (inflight m)) (answers m) (waiting m) (prices m)
                           (last_valuation m), S (next s))
      end in
    (mkService (db s) (door s)
       (mkMarket (quotes m) (inflight m) (answers m) ((n, (sym, task, w)) :: waiting m) (prices m) (last_valuation m))
       (breaks s) (last_integrity s) (S n), inr n) in
  match dget sym (quotes m) with
  | Some (t, p) => if flt (fsub (mono now) t) QUOTE_TTL_S then (s, inl p) else ask
  | None => ask
  end.

(** The call is answered; its callback then takes it out of the calls under way. *)
Definition answered (task : nat) (a : Answer) (s : Service) : Service :=
  let m := market s in
  with_market (mkMarket (quotes m) (inflight m) (dset task a (answers m)) (waiting m) (prices m) (last_valuation m)) s.
Definition pop_inflight (sym : pystr) (s : Service) : Service :=
  let m := market s in
  with_market (mkMarket (quotes m) (ddel sym (inflight m)) (answers m) (waiting m) (prices m) (last_valuation m)) s.

(** [price] after an answered await. *)
Definition remember (now : Now) (sym : pystr) (p : Z) (s : Service) : Service :=
  let m := market s in
  with_market (mkMarket (dset sym (mono now, p) (quotes m)) (inflight m) (answers m) (waiting m)
                 (if 0 <? p then dset sym p (prices m) else prices m) (last_valuation m)) s.

(** ** Sessions *)

Definition me (cookies : pystr) (now : Now) (s : Service) : Service * option Z :=
  let '(ss, pid) := Auth.Auth.subject (Auth.Auth.cookie_value cookies COOKIE) (mono now) (sessions (door s)) in
  (with_sessions ss s, pid).

Definition is_admin (cookies : pystr) (now : Now) (s : Service) : Service * bool :=
  let '(ss, ok) := Auth.Auth.check (Auth.Auth.cookie_value cookies ADMIN_COOKIE) (mono now) (admin_sessions (door s)) in
  (with_admin_sessions ss s, ok).

(** [guarded] around a participant's handler, and around the operator's. *)
Definition guarded (write header : bool) (cookies : pystr) (now : Now) (fn : Z -> Service -> Service * Response) (s : Service)
    : Service * Response :=
  if write && negb header then (s, Csrf)
  else let '(s, pid) := me cookies now s in match pid with None => (s, LoginRequired) | Some pid => fn pid s end.
Definition guarded_admin (write header : bool) (cookies : pystr) (now : Now) (fn : Service -> Service * Response) (s : Service)
    : Service * Response :=
  if write && negb header then (s, Csrf)
  else let '(s, ok) := is_admin cookies now s in if ok then fn s else (s, AdminLoginRequired).

(** A thread is started; the request goes on with what it was given. *)
Definition begin_thread (t : Thread) (s : Service) : Service :=
  tick (with_threads ((next s, t) :: threads (door s)) s).
Definition end_thread (id : nat) (s : Service) : Service := with_threads (ddel id (threads (door s))) s.

Definition signup_begin (header : bool) (invite nick pw : pystr) (s : Service) : Service * Response :=
  if negb header then (s, Csrf)
  else if negb (NICK_RE nick) then (s, BadRequest)
  else if zlen pw <? MIN_PASSWORD then (s, BadRequest)
  else (begin_thread (ToHash invite nick pw) s, Hashing (next s)).

(** [salt] and [tok] are the random bytes and the random text. *)
Definition signup_end (invite nick pw : pystr) (salt : bytes) (tok : pystr) (now : Now) (s : Service) : Service * Response :=
  match Auth.Auth.hash_password pw Auth.Auth.ITERATIONS salt with
  | Err e => (s, Raised (AuthError e))
  | Ok h =>
      match signup (rules cfg) invite nick h (stamp now) (row_stamp now) (db s) with
      | Err e =>
          (s, match e with BadInvite | NicknameTaken => JoinRefused e | _ => Raised (LedgerError e) end)
      | Ok (d, p) =>
          (with_sessions (Auth.Auth.create tok (mono now) (Some (p_id p)) (sessions (door s))) (with_db d s), Joined nick tok)
      end
  end.

Definition throttle_of (nick : pystr) (s : Service) : Auth.Auth.LoginThrottle :=
  default Auth.Auth.new_throttle (dget nick (throttles (door s))).

Definition login_failed (nick : pystr) (now : Now) (s : Service) : Service :=
  with_throttle nick (Auth.Auth.fail (mono now) (throttle_of nick s)) s.

(** An unknown nickname is answered without a hash. *)
Definition login_begin (header : bool) (nick pw : pystr) (now : Now) (s : Service) : Service * Response :=
  if negb header then (s, Csrf)
  else
    let s := with_throttle nick (throttle_of nick s) s in
    let wait := Auth.Auth.locked_for (mono now) (throttle_of nick s) in
    if fgt wait (of_int 0) then (s, Locked (fround wait))
    else if negb (bindable nick) then (s, Raised (LedgerError UnicodeEncodeError))
    else
      match credentials nick (db s) with
      | None => (login_failed nick now s, WrongPassword)
      | Some (pid, h) => (begin_thread (ToVerify nick pw pid h) s, Verifying (next s))
      end.

Definition login_end (nick pw : pystr) (pid : Z) (h tok : pystr) (now : Now) (s : Service) : Service * Response :=
  match Auth.Auth.verify_password decimal pw h with
  | Err e => (s, Raised (AuthError e))
  | Ok false => (login_failed nick now s, WrongPassword)
  | Ok true =>
      (with_sessions (Auth.Auth.create tok (mono now) (Some pid) (sessions (door s)))
         (with_throttle nick (Auth.Auth.success (throttle_of nick s)) s), LoggedIn tok)
  end.

Definition admin_login_begin (header : bool) (pw : pystr) (now : Now) (s : Service) : Service * Response :=
  if negb header then (s, Csrf)
  else
    let wait := Auth.Auth.locked_for (mono now) (admin_throttle (door s)) in
    if fgt wait (of_int 0) then (s, Locked (fround wait))
    else (begin_thread (ToVerifyAdmin pw) s, Verifying (next s)).

(** The subject of an operator's session is never read. *)
Definition admin_login_end (pw tok : pystr) (now : Now) (s : Service) : Service * Response :=
  match Auth.Auth.verify_password decimal pw (contest_admin_hash cfg) with
  | Err e => (s, Raised (AuthError e))
  | Ok false => (with_admin_throttle (Auth.Auth.fail (mono now) (admin_throttle (door s))) s, WrongPassword)
  | Ok true =>
      (with_admin_sessions (Auth.Auth.create tok (mono now) None (admin_sessions (door s)))
         (with_admin_throttle (Auth.Auth.success (admin_throttle (door s))) s), LoggedIn tok)
  end.

Definition thread_end (id : nat) (salt : bytes) (tok : pystr) (now : Now) (s : Service) : Service * Response :=
  match dget id (threads (door s)) with
  | None => (s, Nothing)
  | Some (ToHash invite nick pw) => signup_end invite nick pw salt tok now (end_thread id s)
  | Some (ToVerify nick pw pid h) => login_end nick pw pid h tok now (end_thread id s)
  | Some (ToVerifyAdmin pw) => admin_login_end pw tok now (end_thread id s)
  end.

Definition logout (cookies : pystr) (s : Service) : Service * Response :=
  (with_sessions (Auth.Auth.revoke (Auth.Auth.cookie_value cookies COOKIE) (sessions (door s))) s, LoggedOut).

(** ** Orders *)

(** A request whose fields could be read. *)
Definition well_formed (cid sym side : pystr) : bool :=
  Desk.Desk.CLIENT_ID_RE cid && Desk.Desk.SYMBOL_RE sym && bool_decide (side ∈ [lit "buy"; lit "sell"]).

(** [submit] after the price. *)
Definition submit_end (pid : Z) (cid sym side : pystr) (qty p : Z) (now : Now) (s : Service) : Service * Response :=
  match place (rules cfg) pid cid sym side qty p (stamp now) (row_stamp now) (db s) with
  | Err e => (s, Raised (LedgerError e))
  | Ok (d, o, created) => (with_db d s, if created then Placed o else Duplicate o)
  end.

(** [fields]: [None] when one is missing or no number. *)
Definition submit_begin (fields : option (pystr * pystr * pystr * Z)) (now : Now) (pid : Z) (s : Service) : Service * Response :=
  match fields with
  | None => (s, BadRequest)
  | Some (cid, sym, side, qty) =>
      if negb (well_formed cid sym side) then (s, BadRequest)
      else if negb ((1 <=? qty) && (qty <=? contest_max_qty cfg)) then (s, BadRequest)
      else
        match trading_state now (db s) with
        | Some why => (s, ClosedFor why)
        | None =>
            match price_begin now sym (ForOrder pid cid side qty) s with
            | (s, inl p) => submit_end pid cid sym side qty p now s
            | (s, inr id) => (s, Waiting id)
            end
        end
  end.

Definition quote (sym : pystr) (now : Now) (_ : Z) (s : Service) : Service * Response :=
  if negb (Desk.Desk.SYMBOL_RE sym) then (s, BadRequest)
  else
    match price_begin now sym ForQuote s with
    | (s, inl p) => (s, Price p)
    | (s, inr id) => (s, Waiting id)
    end.

(** ** The valuation *)

(** The rest of a round, from one symbol's price to the next await. *)
Fixpoint valuate (now : Now) (syms : list pystr) (s : Service) : Service :=
  match syms with
  | [] => let m := market s in
          with_market (mkMarket (quotes m) (inflight m) (answers m) (waiting m) (prices m) (wall now)) s
  | sym :: syms =>
      match price_begin now sym (ForValuation syms) s with
      | (s, inl _) => valuate now syms s
      | (s, inr _) => s
      end
  end.

(** The symbols someone holds, in order, each once. *)
Fixpoint insert_symbol (x : pystr) (l : list pystr) : list pystr :=
  match l with
  | [] => [x]
  | y :: l => if bool_decide (x = y) then y :: l else if str_leb x y then x :: y :: l else y :: insert_symbol x l
  end.
Definition held_symbols (d : Db) : list pystr :=
  foldr insert_symbol [] (omap (fun e : (Z * pystr) * (Z * Z) => if 0 <? e.2.1 then Some e.1.2 else None)
                            (map_to_list (positions d))).

(** A waiter goes on when its call is answered. *)
Definition resume_waiter (id : nat) (now : Now) (s : Service) : Service * Response :=
  match dget id (waiting (market s)) with
  | None => (s, Nothing)
  | Some (sym, task, w) =>
      match dget task (answers (market s)) with
      | None => (s, Nothing)
      | Some a =>
          let s := with_waiting (ddel id (waiting (market s))) s in
          match a, w with
          | Quoted p, ForQuote => (remember now sym p s, Price p)
          | Quoted p, ForOrder pid cid side qty => submit_end pid cid sym side qty p now (remember now sym p s)
          | Quoted p, ForValuation rest => (valuate now rest (remember now sym p s), Nothing)
          | Refused, ForQuote | Refused, ForOrder _ _ _ _ => (s, NoQuote)
          | Refused, ForValuation rest => (valuate now rest s, Nothing)
          | Broken, ForValuation _ => (s, Nothing)
          | Broken, _ => (s, Raised BrokerError)
          end
      end
  end.

(** ** Operating *)

(** What the check reports; [None] when it raises. *)
Definition found (d : Db) : option (list Break) :=
  match integrity d with
  | Err Contest.Contest.Raised => None
  | Err (ChainBroken i) => Some [JournalChainBroken i]
  | Ok r => Some ((CashMismatch <$> elements (cash_mismatch r))
                  ++ ((fun k => PositionMismatch k.1 k.2) <$> elements (position_mismatch r))
                  ++ (OrderJournalMismatch <$> order_mismatch r))
  end.

Definition break_kind (b : Break) : pystr :=
  match b with
  | JournalChainBroken _ => lit "journal_chain_broken"
  | CashMismatch _ => lit "cash_mismatch"
  | PositionMismatch _ _ => lit "position_mismatch"
  | OrderJournalMismatch _ => lit "order_journal_mismatch"
  end.

Definition with_breaks (bs : list Break) (t : float) (s : Service) : Service :=
  mkService (db s) (door s) (market s) bs t (next s).

(** One round of the check; [_every] logs what it raises. *)
Definition integrity_once (now : Now) (s : Service) : Service :=
  match found (db s) with
  | None => s
  | Some bs =>
      let s := with_breaks bs (wall now) s in
      match bs with
      | b :: _ => if is_halted (db s) then s else with_db (halt (break_kind b) (db s)) s
      | [] => s
      end
  end.

Definition admin_resume (s : Service) : Service * Response :=
  match found (db s) with
  | None => (s, Raised CheckError)
  | Some [] => (with_breaks [] (last_integrity s) (with_db (resume (db s)) s), Resumed)
  | Some bs => (s, StillBroken bs)
  end.

(** [codes]: the random codes, as many as were asked for. *)
Definition admin_create_invites (codes : list pystr) (now : Now) (s : Service) : Service * Response :=
  if negb ((1 <=? zlen codes) && (zlen codes <=? 100)) then (s, BadRequest)
  else
    match create_invites codes (stamp now) (db s) with
    | Err e => (s, Raised (LedgerError e))
    | Ok d => (with_db d s, Codes codes)
    end.

(** ** Runs *)

(** The pages of the account, the orders and the board, those of the operator, and the
    session's own show what the listings below say; here they keep sessions alive. *)
Inductive Event :=
| SignupBegin (header : bool) (invite nick pw : pystr)
| LoginBegin (header : bool) (nick pw : pystr) (now : Now)
| AdminLoginBegin (header : bool) (pw : pystr) (now : Now)
| ThreadEnd (id : nat) (salt : bytes) (tok : pystr) (now : Now)
| Logout (header : bool) (cookies : pystr) (now : Now)
| Quote (cookies sym : pystr) (now : Now)
| Submit (header : bool) (cookies : pystr) (fields : option (pystr * pystr * pystr * Z)) (now : Now)
| CallAnswered (task : nat) (a : Answer)
| CallForgotten (sym : pystr)
| WaiterResumes (id : nat) (now : Now)
| Invite (header : bool) (cookies : pystr) (codes : list pystr) (now : Now)
| AdminResume (header : bool) (cookies : pystr) (now : Now)
| IntegrityRound (now : Now)
| ValuationRound (now : Now)
| Page (cookies : pystr) (now : Now)
| AdminPage (cookies : pystr) (now : Now)
| SessionPage (cookies : pystr) (now : Now).

Definition step (s : Service) (e : Event) : Service * Response :=
  match e with
  | SignupBegin h i n pw => signup_begin h i n pw s
  | LoginBegin h n pw now => login_begin h n pw now s
  | AdminLoginBegin h pw now => admin_login_begin h pw now s
  | ThreadEnd id salt tok now => thread_end id salt tok now s
  | Logout h c now => guarded true h c now (fun _ => logout c) s
  | Quote c sym now => guarded false false c now (quote sym now) s
  | Submit h c f now => guarded true h c now (submit_begin f now) s
  | CallAnswered t a => (answered t a s, Nothing)
  | CallForgotten sym => (pop_inflight sym s, Nothing)
  | WaiterResumes id now => resume_waiter id now s
  | Invite h c codes now => guarded_admin true h c now (admin_create_invites codes now) s
  | AdminResume h c now => guarded_admin true h c now admin_resume s
  | IntegrityRound now => (integrity_once now s, Nothing)
  | ValuationRound now => (valuate now (held_symbols (db s)) s, Nothing)
  | Page c now => guarded false false c now (fun _ s => (s, Shown)) s
  | AdminPage c now => guarded_admin false false c now (fun s => (s, Shown)) s
  | SessionPage c now => let '(s, pid) := me c now s in let '(s, adm) := is_admin c now s in (s, Who pid adm)
  end.

(** A run, with the state each event met. *)
Definition trace_step (st : Service * list (Service * Event)) (e : Event) : Service * list (Service * Event) :=
  ((step st.1 e).1, st.2 ++ [(st.1, e)]).
Definition run (s : Service) (es : list Event) : Service * list (Service * Event) := foldl trace_step (s, []) es.
End service.

(** ** What participants see *)

(** [prices.get(symbol)] where a zero counts as none. *)
Definition price_of (sym : pystr) (ps : list (pystr * Z)) : option Z :=
  match dget sym ps with Some 0 => None | r => r end.

Definition held_of (pid : Z) (d : Db) : list (pystr * (Z * Z)) :=
  omap (fun e : (Z * pystr) * (Z * Z) => if (e.1.1 =? pid) && (0 <? e.2.1) then Some (e.1.2, e.2) else None)
    (map_to_list (positions d)).

Definition value_of (ps : list (pystr * Z)) (h : pystr * (Z * Z)) : Z :=
  match price_of h.1 ps with Some p => h.2.1 * p | None => h.2.2 end.

Definition return_pct (equity initial : Z) : float :=
  fround_to (fmul (fsub (int_div equity initial) (of_int 1)) (of_int 100)) 2.

Fixpoint insert_held (x : pystr * (Z * Z)) (l : list (pystr * (Z * Z))) : list (pystr * (Z * Z)) :=
  match l with [] => [x] | y :: l => if str_leb x.1 y.1 then x :: y :: l else y :: insert_held x l end.

Record Holding := mkHolding { h_sym : pystr; h_qty : Z; h_cost : Z; h_price : option Z; avg_price : Z; value : Z; pnl : Z }.
Record Account := mkAccount { cash : Z; holdings : list Holding; equity : Z; a_return : float }.

Definition holding (ps : list (pystr * Z)) (h : pystr * (Z * Z)) : Holding :=
  let '(q, c) := h.2 in
  mkHolding h.1 q c (dget h.1 ps) (fround (int_div c q)) (value_of ps h) (value_of ps h - c).

(** [None]: no account. *)
Definition account (cfg : Settings) (pid : Z) (s : Service) : option Account :=
  c ← accounts (db s) !! pid;
  let hs := holding (prices (market s)) <$> foldr insert_held [] (held_of pid (db s)) in
  let e := foldl (fun e h => e + value h) c hs in
  Some (mkAccount c hs e (return_pct e (initial_cash (rules cfg)))).

Record Standing := mkStanding { b_nick : pystr; b_equity : Z; b_return : float; unpriced : list pystr; rank : Z }.

Definition standing (cfg : Config) (ps : list (pystr * Z)) (d : Db) (p : Participant) : option Standing :=
  c ← accounts d !! p_id p;
  let hs := held_of (p_id p) d in
  let e := foldl (fun e h => e + value_of ps h) c hs in
  Some (mkStanding (nickname p) e (return_pct e (initial_cash cfg))
          (omap (fun h => match price_of h.1 ps with Some _ => None | None => Some h.1 end) hs) 0).

(** [sort] with [reverse]: the largest first, equals as they were. *)
Fixpoint insert_standing (x : Standing) (l : list Standing) : list Standing :=
  match l with [] => [x] | y :: l => if b_equity y <=? b_equity x then x :: y :: l else y :: insert_standing x l end.
Definition ranked (i : nat) (b : Standing) : Standing :=
  mkStanding (b_nick b) (b_equity b) (b_return b) (unpriced b) (Z.of_nat i + 1).
Definition leaderboard (cfg : Config) (ps : list (pystr * Z)) (d : Db) : list Standing :=
  imap ranked (foldr insert_standing [] (omap (standing cfg ps d) (participants d))).

(** The orders of one participant or of all, the newest first. *)
Definition orders_of (pid : option Z) (limit : nat) (d : Db) : list Order :=
  take limit (rev (match pid with Some p => List.filter (fun o => o_pid o =? p) (orders d) | None => orders d end)).
Definition order_count (st : OrderState) (d : Db) : nat := length (List.filter (fun o => bool_decide (state o = st)) (orders d)).

(** ** What has a UTF-8 encoding *)

Definition encodes (c : Z) : Prop := is_Some (utf8_char c).

Lemma bindable_encodes s : bindable s = true <-> Forall encodes s.
Proof.
  unfold bindable. induction s as [|c s IH]; [done|]. cbn [utf8_encode]. rewrite Forall_cons.
  unfold encodes at 1. destruct (utf8_char c) as [b|]; cbn [mbind option_bind].
  - destruct (utf8_encode s); cbn; [|split; [done|intros [_ H]; by apply IH in H]].
    split; [|done]. intros _. split; [by eexists|]. by apply IH.
  - split; [done|]. intros [[? ?] _]. done.
Qed.

Lemma ascii_encodes c : 0 <= c < 128 -> encodes c.
Proof. intros H. unfold encodes, utf8_char. destruct (Z.ltb_spec c 0); [lia|]. destruct (Z.ltb_spec c 0x80); [done|lia]. Qed.

Lemma ascii_all (s : pystr) : forallb (fun c => (0 <=? c) && (c <? 128)) s = true -> Forall encodes s.
Proof.
  intros H. apply Forall_forall. intros c Hc. rewrite forallb_forall in H. specialize (H c (proj1 (list_elem_of_In _ _) Hc)).
  apply andb_true_iff in H as [?%Z.leb_le ?%Z.ltb_lt]. by apply ascii_encodes.
Qed.

Lemma digit_encodes c : is_digit c = true -> encodes c.
Proof. intros [?%Z.leb_le ?%Z.leb_le]%andb_true_iff. apply ascii_encodes. lia. Qed.

Lemma str_int_encodes z : Forall encodes (str_int z).
Proof.
  eapply Forall_impl; [apply str_int_chars|]. cbn. intros c [->|H]; [by apply ascii_encodes|by apply digit_encodes].
Qed.

Lemma hexdigest_encodes b : bytes_ok b -> Forall encodes (hexdigest b).
Proof. intros H. eapply Forall_impl; [by apply hexdigest_chars|]. cbn. intros c ?. apply ascii_encodes. lia. Qed.

Lemma esc_encodes c : encodes c -> Forall encodes (esc_char c).
Proof.
  intros H. unfold esc_char.
  repeat match goal with |- Forall _ (if ?b then _ else _) => destruct b eqn:? end;
    try (apply ascii_all; reflexivity); [|by constructor].
  destruct H as [b H]. unfold utf8_char in H. destruct (Z.ltb_spec c 0); [done|].
  apply Z.ltb_lt in Heqb6.
  assert (forall y, 0 <= y < 16 -> encodes (hex_digit y)) as Hh.
  { intros y Hy. apply ascii_encodes. unfold hex_digit. destruct (Z.ltb_spec y 10); lia. }
  do 4 (constructor; [by apply ascii_encodes|]). repeat constructor; apply Hh; zdm.
Qed.

Lemma json_str_encodes s : Forall encodes s -> Forall encodes (json_str s).
Proof.
  intros H. constructor; [by apply ascii_encodes|]. apply Forall_app. split; [|by repeat constructor; apply ascii_encodes].
  induction H; [constructor|]. cbn. apply Forall_app. split; [by apply esc_encodes|done].
Qed.

Definition val_encodes (v : jval) : Prop := match v with JInt _ => True | JStr s => Forall encodes s end.

Lemma json_pair_encodes p : Forall encodes p.1 -> val_encodes p.2 -> Forall encodes (json_pair p).
Proof.
  intros Hk Hv. unfold json_pair. apply Forall_app. split; [by apply json_str_encodes|].
  apply (Forall_app _ [_; _]). split; [by apply ascii_all|].
  destruct p as [k [z|s]]; [apply str_int_encodes|by apply json_str_encodes].
Qed.

Lemma json_dumps_encodes o : Forall (fun p => Forall encodes p.1 /\ val_encodes p.2) o -> Forall encodes (json_dumps o).
Proof.
  intros H. rewrite <- (sort_keys_perm o) in H. unfold json_dumps. constructor; [by apply ascii_encodes|].
  apply Forall_app. split; [|by apply ascii_all]. revert H. generalize (sort_keys o) as ps.
  induction 1 as [|p ps [Hk Hv] H IH]; [constructor|]. destruct ps as [|q ps]; [by apply json_pair_encodes|].
  change (json_pairs (p :: q :: ps)) with (json_pair p ++ [44; 32] ++ json_pairs (q :: ps)).
  apply Forall_app. split; [by apply json_pair_encodes|]. apply Forall_app. split; [by apply ascii_all|done].
Qed.

Lemma fill_detail_encodes o delta : Forall encodes (symbol o) -> Forall encodes (side o) ->
  Forall encodes (json_dumps (fill_detail o delta)).
Proof.
  intros H1 H2. apply json_dumps_encodes. unfold fill_detail.
  repeat (apply Forall_cons; split; [split; [by apply ascii_all|done]|]). constructor.
Qed.

Lemma chain_encodes prev t k pid d : Forall encodes prev -> Forall encodes t -> Forall encodes k -> Forall encodes d ->
  is_Some (chain prev t k pid d).
Proof.
  intros H1 H2 H3 H4. assert (Forall encodes bar) as Hb by by apply ascii_all.
  assert (bindable (chain_text prev t k pid d) = true) as H.
  { apply bindable_encodes. unfold chain_text. repeat (apply Forall_app; split; [done|]); try done.
    apply Forall_app. split; [apply str_int_encodes|]. by apply Forall_app. }
  unfold bindable in H. unfold chain. destruct (utf8_encode _); [by eexists|done].
Qed.

Lemma last_hash_encodes d : wf d -> Forall encodes (last_hash (journal d)).
Proof.
  intros [(b & [H _ _ _ _]) _ _ _ _]. destruct (journal d) as [|j js _] using rev_ind; [by apply ascii_all|].
  apply replay_snoc in H as (b1 & _ & H). apply replay_row_hash in H as (_ & H & _). rewrite last_hash_snoc.
  unfold row_chain, chain in H. destruct (utf8_encode _); [|done]. injection H as <-. apply hexdigest_encodes, sha256_ok.
Qed.

(** ** An order is always answered *)

(** Every number the order would write is one SQLite takes. *)
Definition fits (cfg : Config) (pid : Z) (sym sd : pystr) (q p : Z) (d : Db) : bool :=
  let '(a, f, x) := costs cfg sd q p in
  let cash := default 0 (accounts d !! pid) in
  let '(held, cost) := default (0, 0) (positions d !! (pid, sym)) in
  forallb int64 [pid; q; p; a; f; x] &&
  match why_not sd q p a f cash held with
  | Some _ => true
  | None => let '(delta, nq, nc) := fill_effect sd q a f x held cost in forallb int64 [delta; nq; nc]
  end.

Lemma place_total cfg pid cid sym sd q p t1 t2 d : config_ok cfg -> wf d -> is_Some (accounts d !! pid) ->
  bindable cid = true -> bindable sym = true -> sd ∈ [lit "buy"; lit "sell"] -> 0 < q -> bindable t2 = true ->
  (exists r, place cfg pid cid sym sd q p t1 t2 d = Ok r) \/
  place cfg pid cid sym sd q p t1 t2 d = Err OverflowError /\ fits cfg pid sym sd q p d = false.
Proof.
  intros Hcfg Hwf [cash Ha] Hcid Hsym Hsd Hq Ht. unfold place, fits. destruct (int64 pid) eqn:Hpid.
  2:{ right. split; [done|]. destruct (costs cfg sd q p) as [[??]?]. destruct (default _ _). cbn [forallb]. by rewrite Hpid. }
  rewrite Hcid.
  destruct (find_order pid cid d) as [o|]; [left; by eexists|]. destruct (costs cfg sd q p) as [[a f] x] eqn:Ec.
  rewrite Ha, Hsym. destruct (default _ _) as [held cost] eqn:Eh. cbn zeta.
  assert (Forall encodes sd) as Hse.
  { rewrite !elem_of_cons, elem_of_nil in Hsd. destruct Hsd as [->|[->|[]]]; by apply ascii_all. }
  rewrite (proj2 (bindable_encodes sd) Hse), (bool_decide_eq_true_2 _ Hsd), (proj2 (Z.ltb_lt _ _) Hq). cbn [andb default]; unfold id.
  change (forallb int64 [pid; q; p; a; f; x]) with (int64 pid && forallb int64 [q; p; a; f; x]). rewrite Hpid.
  destruct (forallb int64 [q; p; a; f; x]); [|by right].
  destruct (why_not sd q p a f cash held) as [why|] eqn:Ew; [left; by eexists|].
  destruct (fill_effect sd q a f x held cost) as [[delta nq] nc] eqn:Ee.
  change (forallb int64 [delta; nq; nc]) with (int64 delta && forallb int64 [nq; nc]).
  destruct (int64 delta); [|by right]. destruct (forallb int64 [nq; nc]); [|by right].
  left. assert (0 < p) as Hp by by apply why_not_none in Ew as [? _].
  destruct (costs_bounds cfg sd q p a f x Hcfg Hq Hp Ec) as (K1 & K2 & K3 & K4).
  assert (holding_ok (held, cost)) as Hh.
  { destruct (positions d !! (pid, sym)) as [hc|] eqn:E; cbn in Eh; subst; [by eapply (wf_held d Hwf)|].
    injection Eh as <- <-. done. }
  destruct (fill_effect_ok sd q p a f x cash held cost delta nq nc Hq K1 K2 K3 K4 (wf_cash d Hwf _ _ Ha) Hh Ew Hsd Ee)
    as (_ & (Hnq & _) & _). cbn in Hnq. rewrite (proj2 (Z.leb_le _ _) Hnq). unfold add_row.
  cbn [journal participants invites accounts positions orders halted].
  match goal with |- context [chain ?a ?b ?c ?d ?e] => destruct (chain_encodes a b c d e) as [h ->] end;
    [by apply last_hash_encodes|by apply bindable_encodes|by apply ascii_all| |by eexists].
  apply fill_detail_encodes; cbn [symbol side]; [by apply bindable_encodes|done].
Qed.

(** Numbers up to 2^60 leave room for one order. *)
Lemma fits_small cfg pid sym sd q p d : config_ok cfg -> wf d -> sd ∈ [lit "buy"; lit "sell"] -> 0 <= pid < 2 ^ 63 -> 1 <= q <= 2 ^ 60 ->
  - 2 ^ 60 <= q * p <= 2 ^ 60 -> default 0 (accounts d !! pid) <= 2 ^ 60 ->
  (default (0, 0) (positions d !! (pid, sym))).1 <= 2 ^ 60 -> (default (0, 0) (positions d !! (pid, sym))).2 <= 2 ^ 60 ->
  fits cfg pid sym sd q p d = true.
Proof.
  intros (_ & Hf & Ht & Hs) Hwf Hsd Hpid Hq Ha Hcash Hheld Hcost. unfold fits, costs. set (a := q * p) in *.
  assert (- 2 ^ 60 <= p <= 2 ^ 60) as Hp by (unfold a in Ha; nia).
  assert (forall ppm, 0 <= ppm <= 1000000 -> - 2 ^ 60 <= a * ppm / 1000000 <= 2 ^ 60) as Hppm.
  { intros ppm H. split; [apply Z.div_le_lower_bound; nia|apply Z.div_le_upper_bound; nia]. }
  pose proof (Hppm (fee_ppm cfg) ltac:(lia)) as H1. pose proof (Hppm (tax_ppm cfg) ltac:(lia)) as H2.
  set (f := a * fee_ppm cfg / 1000000) in *. set (x := if bool_decide (sd = lit "sell") then _ else 0).
  assert (- 2 ^ 60 <= x <= 2 ^ 60) as Hx by (unfold x; destruct (bool_decide _); lia). clearbody f x.
  assert (0 <= (default (0, 0) (positions d !! (pid, sym))).1 /\ 0 <= (default (0, 0) (positions d !! (pid, sym))).2) as [Hh Hc].
  { destruct (positions d !! (pid, sym)) as [h|] eqn:E; cbn; [|lia]. pose proof (wf_held d Hwf _ _ E) as (? & ? & _). lia. }
  destruct (default (0, 0) _) as [held cost]. cbn [fst snd] in *.
  assert (forall l, Forall (fun z => - 2 ^ 63 <= z < 2 ^ 63) l -> forallb int64 l = true) as Hall.
  { intros l H. apply forallb_forall. intros z Hz. rewrite Forall_forall in H. specialize (H z (proj2 (list_elem_of_In _ _) Hz)).
    unfold int64. apply andb_true_iff. rewrite Z.leb_le, Z.ltb_lt. lia. }
  rewrite Hall by (repeat constructor; lia). destruct (why_not _ _ _ _ _ _ _) eqn:Ew; [done|]. cbn [andb].
  unfold fill_effect. destruct (bool_decide (sd = lit "buy")) eqn:Eb; apply Hall.
  - repeat constructor; lia.
  - apply bool_decide_eq_false in Eb. assert (sd = lit "sell") as Es by set_solver.
    apply why_not_none in Ew as (_ & _ & Hle). specialize (Hle Es).
    assert (0 <= cost * q / held <= cost) as Hcq by (split; [apply Z.div_le_lower_bound|apply Z.div_le_upper_bound]; nia).
    repeat constructor; lia.
Qed.

Lemma range_encodes z c : (0 <=? z) && ((z + 9 <? 0xd800) || ((0xe000 <=? z) && (z + 9 <? 0x110000))) = true ->
  (z <=? c) && (c <=? z + 9) = true -> encodes c.
Proof.
  intros [?%Z.leb_le H]%andb_true_iff [?%Z.leb_le ?%Z.leb_le]%andb_true_iff. unfold encodes, utf8_char.
  apply orb_true_iff in H. rewrite andb_true_iff, !Z.ltb_lt, Z.leb_le in H.
  repeat match goal with |- context [if ?b then _ else _] => destruct b eqn:? end; try by eexists.
  all: rewrite ?andb_true_iff, ?Z.ltb_lt, ?Z.ltb_ge, ?Z.leb_le in *; exfalso; lia.
Qed.

Lemma re_digit_encodes c : Desk.Desk.re_digit c = true -> encodes c.
Proof.
  unfold Desk.Desk.re_digit. rewrite existsb_exists. intros (z & Hz & H). revert H. apply range_encodes.
  revert z Hz. apply (proj1 (forallb_forall _ _)). by vm_compute.
Qed.

Lemma to_end_encodes (p : pystr -> bool) s : (forall s, p s = true -> Forall encodes s) -> Desk.Desk.to_end p s = true ->
  Forall encodes s.
Proof.
  intros Hp. unfold Desk.Desk.to_end. rewrite orb_true_iff. intros [H|H]; [by apply Hp|].
  destruct s as [|c s _] using rev_ind; [constructor|]. rewrite last_snoc, removelast_last in H.
  apply andb_true_iff in H as [->%Z.eqb_eq H]. apply Forall_app. split; [by apply Hp|]. by apply ascii_all.
Qed.

Lemma forallb_encodes (p : Z -> bool) s : (forall c, p c = true -> encodes c) -> forallb p s = true -> Forall encodes s.
Proof. intros Hp H. apply Forall_forall. intros c Hc. apply Hp. rewrite forallb_forall in H. by apply H, list_elem_of_In. Qed.

Lemma id_char_encodes c : Desk.Desk.id_char c = true -> encodes c.
Proof.
  unfold Desk.Desk.id_char. rewrite !orb_true_iff, !andb_true_iff, !Z.leb_le, !Z.eqb_eq. intros H. apply ascii_encodes. lia.
Qed.

Lemma well_formed_encodes cid sym side : well_formed cid sym side = true ->
  bindable cid = true /\ bindable sym = true /\ side ∈ [lit "buy"; lit "sell"].
Proof.
  unfold well_formed. rewrite !andb_true_iff, bool_decide_eq_true. intros [[H1 H2] H3]. rewrite !bindable_encodes.
  split; [|split; [|done]].
  - eapply to_end_encodes; [|exact H1]. intros s [_ Hs]%andb_true_iff. eapply forallb_encodes; [apply id_char_encodes|exact Hs].
  - eapply to_end_encodes; [|exact H2]. intros s [_ Hs]%andb_true_iff. eapply forallb_encodes; [apply re_digit_encodes|exact Hs].
Qed.

(** What joining changes. *)
Lemma signup_tables cfg c n h t1 t2 d d' p : signup cfg c n h t1 t2 d = Ok (d', p) ->
  participants d' = participants d ++ [p] /\ positions d' = positions d /\
  accounts d' = <[p_id p := initial_cash cfg]> (accounts d) /\ orders d' = orders d /\ halted d' = halted d.
Proof.
  unfold signup. destruct (bindable c); [|done]. destruct (existsb _ _); [|done]. destruct (bindable n); [|done].
  destruct (negb _); [|done]. destruct (bindable h); [|done]. destruct (int64 _); [|done]. cbn zeta.
  destruct (add_row _ _ _ _ _) as [d1|] eqn:Ea; [|done]. intros [= <- <-]. by apply add_row_spec in Ea as (? & _ & ->).
Qed.

(** ** What a step does to the ledger and to the waiters *)

Section proofs.
Variable decimal : Z -> option Z.
Variable cfg : Settings.
Abbreviation step := (step decimal cfg).
Abbreviation run := (run decimal cfg).

(** The event is a submission that passes every check: the header, the session of [pid],
    the format, the quantity, and orders are taken now. *)
Definition accepted_by (s : Service) (e : Event) (pid : Z) (cid sym side : pystr) (qty : Z) : Prop :=
  exists cookies now, e = Submit true cookies (Some (cid, sym, side, qty)) now /\ (me cookies now s).2 = Some pid /\
    well_formed cid sym side = true /\ 1 <= qty <= contest_max_qty cfg /\ trading_state cfg now (db s) = None.

(** The event lets an order go on that was waiting for its price. *)
Definition resumed_by (s : Service) (e : Event) (pid : Z) (cid sym side : pystr) (qty : Z) : Prop :=
  exists id now task, e = WaiterResumes id now /\
    dget id (waiting (market s)) = Some (sym, task, ForOrder pid cid side qty).

(** The ledger operations a step can make, and when. *)
Inductive ledger_move (s : Service) (e : Event) : Db -> Prop :=
| move_none : ledger_move s e (db s)
| move_signup c n h t1 t2 : ledger_move s e (Contest.Contest.step (rules cfg) (db s) (Contest.Contest.Signup c n h t1 t2))
| move_invites cs t : ledger_move s e (Contest.Contest.step (rules cfg) (db s) (Contest.Contest.CreateInvites cs t))
| move_place pid cid sym side qty p t1 t2 :
    accepted_by s e pid cid sym side qty \/ resumed_by s e pid cid sym side qty ->
    ledger_move s e (Contest.Contest.step (rules cfg) (db s) (Contest.Contest.Place pid cid sym side qty p t1 t2))
| move_halt b : is_halted (db s) = false -> ledger_move s e (halt (break_kind b) (db s))
| move_resume cookies now : e = AdminResume true cookies now -> (is_admin cookies now s).2 = true ->
    found (db s) = Some [] -> ledger_move s e (resume (db s)).

Lemma submit_end_ledger pid cid sym side qty p now s s' r : submit_end cfg pid cid sym side qty p now s = (s', r) ->
  exists t1 t2, s' = with_db (Contest.Contest.step (rules cfg) (db s) (Contest.Contest.Place pid cid sym side qty p t1 t2)) s.
Proof.
  unfold submit_end. intros H. exists (stamp now), (row_stamp now). cbn [Contest.Contest.step].
  destruct (place _ _ _ _ _ _ _ _ _ _) as [[[d o] c]|]; injection H as <- _; [done|]. by destruct s.
Qed.

Lemma price_begin_db now sym w s : db (price_begin now sym w s).1 = db s.
Proof.
  unfold price_begin. destruct (dget sym (quotes _)) as [[t p]|]; [destruct (flt _ _); [done|]|];
    by destruct (dget sym (inflight _)).
Qed.

Lemma valuate_db now syms s : db (valuate now syms s) = db s.
Proof.
  revert s. induction syms as [|sym syms IH]; intros s; [done|]. cbn [valuate].
  pose proof (price_begin_db now sym (ForValuation syms) s) as H.
  destruct (price_begin _ _ _ _) as [s' [p|id]]; cbn in H; [by rewrite IH|done].
Qed.

Lemma me_frame c now s : exists ss, (me c now s).1 = with_sessions ss s.
Proof. unfold me. destruct (Auth.Auth.subject _ _ _) as [ss pid]. by exists ss. Qed.

Lemma is_admin_frame c now s : exists ss, (is_admin c now s).1 = with_admin_sessions ss s.
Proof. unfold is_admin. destruct (Auth.Auth.check _ _ _) as [ss ok]. by exists ss. Qed.

(** A participant's handler runs on a state that differs in its sessions. *)
Lemma guarded_cases w h c now fn s s' r : guarded w h c now fn s = (s', r) ->
  db s' = db s /\ market s' = market s \/
  exists pid ss, (w = true -> h = true) /\ (me c now s).2 = Some pid /\ fn pid (with_sessions ss s) = (s', r).
Proof.
  unfold guarded. destruct (w && negb h) eqn:Eh; [intros [= <- _]; by left|]. pose proof (me_frame c now s) as [ss Hs].
  destruct (me c now s) as [s1 [pid|]]; cbn in Hs; subst s1.
  - intros H. right. exists pid, ss. split; [|done]. by destruct w, h.
  - intros [= <- _]. by left.
Qed.

Lemma guarded_admin_cases w h c now fn s s' r : guarded_admin w h c now fn s = (s', r) ->
  db s' = db s /\ market s' = market s \/
  exists ss, (w = true -> h = true) /\ (is_admin c now s).2 = true /\ fn (with_admin_sessions ss s) = (s', r).
Proof.
  unfold guarded_admin. destruct (w && negb h) eqn:Eh; [intros [= <- _]; by left|]. pose proof (is_admin_frame c now s) as [ss Hs].
  destruct (is_admin c now s) as [s1 ok]; cbn in Hs; subst s1. destruct ok.
  - intros H. right. exists ss. split; [|done]. by destruct w, h.
  - intros [= <- _]. by left.
Qed.

(** The session page looks at both sessions. *)
Lemma session_page_frame c now s s' r :
  (let '(s, pid) := me c now s in let '(s, adm) := is_admin c now s in (s, Who pid adm)) = (s', r) ->
  db s' = db s /\ market s' = market s.
Proof.
  pose proof (me_frame c now s) as [ss Hs]. destruct (me c now s) as [s1 pid]. cbn in Hs. subst s1.
  pose proof (is_admin_frame c now (with_sessions ss s)) as [ss' Ha]. destruct (is_admin c now _) as [s2 adm]. cbn in Ha. subst s2.
  by intros [= <- _].
Qed.

(** A submission past the format and the hours. *)
Lemma submit_cases fields now pid s s' r : submit_begin cfg fields now pid s = (s', r) -> s' = s \/
  exists cid sym side qty, fields = Some (cid, sym, side, qty) /\ well_formed cid sym side = true /\
    1 <= qty <= contest_max_qty cfg /\ trading_state cfg now (db s) = None /\
    match price_begin now sym (ForOrder pid cid side qty) s with
    | (s1, inl p) => submit_end cfg pid cid sym side qty p now s1 = (s', r)
    | (s1, inr id) => s' = s1
    end.
Proof.
  unfold submit_begin. destruct fields as [[[[cid sym] side] qty]|]; [|intros [= <- _]; by left].
  destruct (well_formed cid sym side) eqn:Ew; cbn [negb]; [|intros [= <- _]; by left].
  destruct ((1 <=? qty) && _) eqn:Eq; cbn [negb]; [|intros [= <- _]; by left].
  destruct (trading_state cfg now (db s)) as [why|] eqn:Et; [intros [= <- _]; by left|]. intros H. right.
  exists cid, sym, side, qty. split; [done|]. split; [done|]. split; [by apply andb_true_iff in Eq as [?%Z.leb_le ?%Z.leb_le]|].
  split; [done|]. destruct (price_begin _ _ _ _) as [s1 [p|id]]; [done|by injection H as <- _].
Qed.

(** A thread that ends leaves the market alone; it may have joined somebody. *)
Lemma thread_end_cases id salt tok now s s' r : thread_end decimal cfg id salt tok now s = (s', r) ->
  market s' = market s /\ (db s' = db s \/ exists c n h t1 t2,
    db s' = Contest.Contest.step (rules cfg) (db s) (Contest.Contest.Signup c n h t1 t2)).
Proof.
  unfold thread_end. destruct (dget id _) as [[i n pw|n pw pid h|pw]|]; [| | |intros [= <- _]; by split; [|left]].
  - unfold signup_end. destruct (Auth.Auth.hash_password _ _ _) as [h|e]; [|intros [= <- _]; by split; [|left]].
    change (db (end_thread id s)) with (db s).
    destruct (signup _ _ _ _ _ _ _) as [[d p]|e] eqn:E; [|destruct e; intros [= <- _]; by split; [|left]].
    intros [= <- _]. split; [done|]. right. exists i, n, h, (stamp now), (row_stamp now). cbn [Contest.Contest.step]. by rewrite E.
  - unfold login_end. destruct (Auth.Auth.verify_password _ _ _) as [[]|]; intros [= <- _]; by split; [|left].
  - unfold admin_login_end. destruct (Auth.Auth.verify_password _ _ _) as [[]|]; intros [= <- _]; by split; [|left].
Qed.

Lemma login_begin_frame h n pw now s : db (login_begin h n pw now s).1 = db s /\ market (login_begin h n pw now s).1 = market s.
Proof.
  unfold login_begin. destruct h; [|done]. cbn [negb]. destruct (fgt _ _); [done|]. destruct (bindable n); [|done]. cbn [negb].
  by destruct (credentials _ _) as [[pid st]|].
Qed.

Lemma door_frame s e : match e with SignupBegin _ _ _ _ | LoginBegin _ _ _ _ | AdminLoginBegin _ _ _ => True | _ => False end ->
  db (step s e).1 = db s /\ market (step s e).1 = market s.
Proof.
  destruct e; try done; intros _; cbn [ContestService.step].
  - unfold signup_begin. destruct header, (NICK_RE nick), (zlen pw <? MIN_PASSWORD); done.
  - apply login_begin_frame.
  - unfold admin_login_begin. destruct header; [|done]. by destruct (fgt _ _).
Qed.

(** What a resumed waiter is given. *)
Lemma resume_cases id now s s' r : resume_waiter cfg id now s = (s', r) -> s' = s \/
  exists sym task w, dget id (waiting (market s)) = Some (sym, task, w) /\
    let s0 := with_waiting (ddel id (waiting (market s))) s in
    s' = s0 \/ (exists p, s' = remember now sym p s0) \/
    (exists pid cid side qty p, w = ForOrder pid cid side qty /\
       submit_end cfg pid cid sym side qty p now (remember now sym p s0) = (s', r)) \/
    (exists rest, s' = valuate now rest s0) \/ exists rest p, s' = valuate now rest (remember now sym p s0).
Proof.
  unfold resume_waiter. destruct (dget id _) as [[[sym task] w]|]; [|intros [= <- _]; by left].
  destruct (dget task _) as [a|]; [|intros [= <- _]; by left]. intros H. right. exists sym, task, w. split; [done|].
  destruct a as [p| |], w as [|pid cid side qty|rest]; cbn zeta; try (injection H as <- _; by eauto 9).
  right; right; left. by exists pid, cid, side, qty, p.
Qed.

Lemma step_ledger s e : ledger_move s e (db (step s e).1).
Proof.
  assert (forall d, d = db s -> ledger_move s e d) as Hn by (intros d ->; constructor).
  assert (forall pid cid sym side qty p now s1 s' r, db s1 = db s ->
    accepted_by s e pid cid sym side qty \/ resumed_by s e pid cid sym side qty ->
    submit_end cfg pid cid sym side qty p now s1 = (s', r) -> ledger_move s e (db s')) as Hp.
  { intros pid cid sym side qty p now s1 s' r E Ha (t1 & t2 & ->)%submit_end_ledger. rewrite E. by eapply move_place. }
  destruct (step s e) as [s' r] eqn:E. cbn [fst].
  destruct e; try (apply Hn; change s' with (s', r).1; rewrite <- E; by apply door_frame); cbn [ContestService.step] in E.
  - apply thread_end_cases in E as [_ [E|(c & n & h & t1 & t2 & E)]]; [by apply Hn|rewrite E; apply move_signup].
  - apply guarded_cases in E as [[E _]|(pid & ss & _ & _ & [= <- _])]; by apply Hn.
  - apply guarded_cases in E as [[E _]|(pid & ss & _ & _ & E)]; [by apply Hn|]. unfold quote in E.
    destruct (negb _); [injection E as <- _; by apply Hn|]. apply Hn.
    pose proof (price_begin_db now sym ForQuote (with_sessions ss s)) as H.
    destruct (price_begin _ _ _ _) as [s1 [p|id]]; by injection E as <- _.
  - apply guarded_cases in E as [[E _]|(pid & ss & Hh & Hm & E)]; [by apply Hn|].
    apply submit_cases in E as [->|(cid & sym & side & qty & -> & Hw & Hq & Ht & E)]; [by apply Hn|].
    pose proof (price_begin_db now sym (ForOrder pid cid side qty) (with_sessions ss s)) as H.
    destruct (price_begin _ _ _ _) as [s1 [p|id]]; [|subst s1; by apply Hn].
    eapply Hp; [exact H| |exact E]. left. exists cookies, now. by rewrite Hh.
  - injection E as <- _. by apply Hn.
  - injection E as <- _. by apply Hn.
  - apply resume_cases in E as [->|(sym & task & w & Hg & H)]; [by apply Hn|]. cbn zeta in H.
    destruct H as [->|[[p ->]|[(pid & cid & side & qty & p & -> & H)|[[rest ->]|(rest & p & ->)]]]];
      try (apply Hn; by rewrite ?valuate_db).
    eapply Hp; [|right; by exists id, now, task|exact H]. done.
  - apply guarded_admin_cases in E as [[E _]|(ss & Hh & Hm & E)]; [by apply Hn|]. unfold admin_create_invites in E.
    destruct (negb _); [injection E as <- _; by apply Hn|]. change (db (with_admin_sessions ss s)) with (db s) in E.
    destruct (create_invites _ _ _) as [d|] eqn:Ec; injection E as <- _; [|by apply Hn]. cbn [db with_db].
    replace d with (Contest.Contest.step (rules cfg) (db s) (Contest.Contest.CreateInvites codes (stamp now)));
      [apply move_invites|cbn [Contest.Contest.step]; by rewrite Ec].
  - apply guarded_admin_cases in E as [[E _]|(ss & Hh & Hm & E)]; [by apply Hn|]. unfold admin_resume in E.
    change (db (with_admin_sessions ss s)) with (db s) in E.
    destruct (found (db s)) as [[|b bs]|] eqn:Ef; injection E as <- _; try by apply Hn.
    eapply move_resume; [|exact Hm|exact Ef]. by rewrite Hh.
  - injection E as <- _. unfold integrity_once. destruct (found (db s)) as [[|b bs]|]; try by apply Hn.
    change (db (with_breaks (b :: bs) (wall now) s)) with (db s). destruct (is_halted (db s)) eqn:Eh; [by apply Hn|].
    by apply move_halt.
  - injection E as <- _. apply Hn, valuate_db.
  - apply guarded_cases in E as [[E _]|(pid & ss & _ & _ & [= <- _])]; by apply Hn.
  - apply guarded_admin_cases in E as [[E _]|(ss & _ & _ & [= <- _])]; by apply Hn.
  - apply session_page_frame in E as [E _]. by apply Hn.
Qed.

(** ** Who may be waiting *)

Abbreviation Entry := (nat * (pystr * nat * Waiter))%type (only parsing).

Definition is_order (x : Entry) : bool := match x.2.2 with ForOrder _ _ _ _ => true | _ => false end.
Definition order_waiters (s : Service) : list Entry := List.filter is_order (waiting (market s)).

Lemma price_begin_waiting now sym w s : let s' := (price_begin now sym w s).1 in
  waiting (market s') = waiting (market s) \/ exists n task, waiting (market s') = (n, (sym, task, w)) :: waiting (market s).
Proof.
  unfold price_begin. cbn zeta. destruct (dget sym (quotes _)) as [[t p]|]; [destruct (flt _ _); [by left|]|];
    destruct (dget sym (inflight _)); right; by eexists _, _.
Qed.

Lemma price_begin_orders now sym w s : (forall n task, is_order (n, (sym, task, w)) = false) ->
  order_waiters (price_begin now sym w s).1 = order_waiters s.
Proof.
  intros H. unfold order_waiters. destruct (price_begin_waiting now sym w s) as [->|(n & task & ->)]; [done|].
  cbn [List.filter]. by rewrite H.
Qed.

Lemma valuate_orders now syms s : order_waiters (valuate now syms s) = order_waiters s.
Proof.
  revert s. induction syms as [|sym syms IH]; intros s; [done|]. cbn [valuate].
  pose proof (price_begin_orders now sym (ForValuation syms) s (fun _ _ => eq_refl)) as H.
  destruct (price_begin _ _ _ _) as [s' [p|id]]; cbn [fst] in H; [by rewrite IH|done].
Qed.

(** After a step the orders that wait are some of those that waited, and perhaps the one
    that was accepted. *)
Inductive waiters_move (s : Service) (e : Event) : list Entry -> Prop :=
| wait_same : waiters_move s e (order_waiters s)
| wait_accepted n task pid cid sym side qty : accepted_by s e pid cid sym side qty ->
    waiters_move s e ((n, (sym, task, ForOrder pid cid side qty)) :: order_waiters s)
| wait_less id now : e = WaiterResumes id now -> waiters_move s e (List.filter is_order (ddel id (waiting (market s)))).

Lemma step_waiters s e : waiters_move s e (order_waiters (step s e).1).
Proof.
  assert (forall s', order_waiters s' = order_waiters s -> waiters_move s e (order_waiters s')) as Hn by (intros ? ->; constructor).
  assert (forall s', market s' = market s -> waiters_move s e (order_waiters s')) as Hm by (intros s' E; apply Hn; unfold order_waiters; by rewrite E).
  destruct (step s e) as [s' r] eqn:E. cbn [fst].
  destruct e; try (apply Hm; change s' with (s', r).1; rewrite <- E; by apply door_frame); cbn [ContestService.step] in E.
  - apply thread_end_cases in E as [E _]. by apply Hm.
  - apply guarded_cases in E as [[_ E]|(pid & ss & _ & _ & [= <- _])]; by apply Hm.
  - apply guarded_cases in E as [[_ E]|(pid & ss & _ & _ & E)]; [by apply Hm|]. unfold quote in E.
    destruct (negb _); [injection E as <- _; by apply Hm|]. apply Hn.
    pose proof (price_begin_orders now sym ForQuote (with_sessions ss s) (fun _ _ => eq_refl)) as H.
    destruct (price_begin _ _ _ _) as [s1 [p|id]]; by injection E as <- _.
  - apply guarded_cases in E as [[_ E]|(pid & ss & Hh & Hp & E)]; [by apply Hm|].
    apply submit_cases in E as [->|(cid & sym & side & qty & -> & Hw & Hq & Ht & E)]; [by apply Hm|].
    assert (forall s1, (price_begin now sym (ForOrder pid cid side qty) (with_sessions ss s)).1 = s1 ->
      waiters_move s (Submit header cookies (Some (cid, sym, side, qty)) now) (order_waiters s1)) as Hw1.
    { intros s1 <-. unfold order_waiters.
      destruct (price_begin_waiting now sym (ForOrder pid cid side qty) (with_sessions ss s)) as [->|(n & task & ->)];
        [by apply Hm|]. cbn [List.filter is_order snd]. apply wait_accepted. exists cookies, now. by rewrite Hh. }
    destruct (price_begin _ _ _ _) as [s1 [p|id]]; [|subst s1; by apply Hw1].
    apply submit_end_ledger in E as (t1 & t2 & ->). exact (Hw1 s1 eq_refl).
  - injection E as <- _. by apply Hn.
  - injection E as <- _. by apply Hn.
  - apply resume_cases in E as [->|(sym & task & w & Hg & H)]; [by apply Hm|]. cbn zeta in H.
    assert (forall s1, order_waiters s1 = List.filter is_order (ddel id (waiting (market s))) ->
      waiters_move s (WaiterResumes id now) (order_waiters s1)) as Hl by (intros s1 ->; by eapply wait_less).
    destruct H as [->|[[p ->]|[(pid & cid & side & qty & p & -> & H)|[[rest ->]|(rest & p & ->)]]]]; apply Hl; rewrite ?valuate_orders; try done.
    apply submit_end_ledger in H as (t1 & t2 & ->). done.
  - apply guarded_admin_cases in E as [[_ E]|(ss & Hh & _ & E)]; [by apply Hm|]. unfold admin_create_invites in E.
    destruct (negb _); [injection E as <- _; by apply Hm|]. destruct (create_invites _ _ _); injection E as <- _; by apply Hm.
  - apply guarded_admin_cases in E as [[_ E]|(ss & Hh & _ & E)]; [by apply Hm|]. unfold admin_resume in E.
    destruct (found _) as [[|]|]; injection E as <- _; by apply Hm.
  - injection E as <- _. apply Hm. unfold integrity_once. destruct (found _) as [[|]|]; try done. by destruct (is_halted _).
  - injection E as <- _. apply Hn, valuate_orders.
  - apply guarded_cases in E as [[_ E]|(pid & ss & _ & _ & [= <- _])]; by apply Hm.
  - apply guarded_admin_cases in E as [[_ E]|(ss & _ & _ & [= <- _])]; by apply Hm.
  - apply session_page_frame in E as [_ E]. by apply Hm.
Qed.

(** ** Orders come from accepted submissions *)

(** A new order, and what let it in. *)
Lemma move_orders s e d : ledger_move s e d -> orders d = orders (db s) \/
  exists o, orders d = orders (db s) ++ [o] /\
    (accepted_by s e (o_pid o) (client_order_id o) (symbol o) (side o) (qty o) \/
     resumed_by s e (o_pid o) (client_order_id o) (symbol o) (side o) (qty o)).
Proof.
  intros H. destruct H as [|c n h t1 t2|cs t|pid cid sym side qty p t1 t2 Ha|b Hb|c now He Hadm Hf]; try by left.
  - left. cbn [Contest.Contest.step]. destruct (signup _ _ _ _ _ _ _) as [[d p]|] eqn:E; [|done].
    by apply signup_tables in E as (_ & _ & _ & E & _).
  - left. cbn [Contest.Contest.step]. unfold create_invites. by case_bool_decide.
  - cbn [Contest.Contest.step]. destruct (place _ _ _ _ _ _ _ _ _ _) as [[[d o] c]|] eqn:E; [|by left].
    apply place_inv in E as [(_ & -> & _)|[_ E]]; [by left|]. right. exists o.
    split; [by apply placed_orders in E as [E _]|]. destruct E; subst; done.
Qed.

Lemma run_snoc s es e : run s (es ++ [e]) = ((step (run s es).1 e).1, (run s es).2 ++ [((run s es).1, e)]).
Proof. unfold ContestService.run. by rewrite foldl_app. Qed.

(** The trace holds an accepted submission of these fields. *)
Definition accepted_in (tr : list (Service * Event)) (pid : Z) (cid sym side : pystr) (qty : Z) : Prop :=
  exists s e, (s, e) ∈ tr /\ accepted_by s e pid cid sym side qty.

Lemma accepted_app tr x pid cid sym side qty : accepted_in tr pid cid sym side qty -> accepted_in (tr ++ [x]) pid cid sym side qty.
Proof. intros (s & e & H & Ha). exists s, e. split; [|done]. apply elem_of_app. by left. Qed.

Lemma accepted_last tr s e pid cid sym side qty : accepted_by s e pid cid sym side qty -> accepted_in (tr ++ [(s, e)]) pid cid sym side qty.
Proof. intros Ha. exists s, e. split; [|done]. apply elem_of_app. right. by apply list_elem_of_singleton. Qed.

Definition waiters_accepted (tr : list (Service * Event)) (ws : list Entry) : Prop :=
  forall n sym task pid cid side qty, (n, (sym, task, ForOrder pid cid side qty)) ∈ ws -> accepted_in tr pid cid sym side qty.

Lemma order_waiters_In (x : Entry) s : is_order x = true -> x ∈ waiting (market s) -> x ∈ order_waiters s.
Proof. intros Ho Hx. apply list_elem_of_In, filter_In. split; [by apply list_elem_of_In|done]. Qed.

Lemma waiters_sub s e ws x : waiters_move s e ws -> x ∈ ws ->
  x ∈ order_waiters s \/ exists n task pid cid sym side qty, x = (n, (sym, task, ForOrder pid cid side qty)) /\
    accepted_by s e pid cid sym side qty.
Proof.
  intros [|n task pid cid sym side qty Ha|id now He] Hx; [by left| |].
  - apply elem_of_cons in Hx as [->|Hx]; [|by left]. right. by exists n, task, pid, cid, sym, side, qty.
  - left. apply list_elem_of_In, filter_In in Hx as [Hx Ho]. apply order_waiters_In; [done|].
    eapply ddel_In. by apply list_elem_of_In.
Qed.

Lemma resumed_waits s e pid cid sym side qty : resumed_by s e pid cid sym side qty ->
  exists id task, (id, (sym, task, ForOrder pid cid side qty)) ∈ order_waiters s.
Proof. intros (id & now & task & _ & H%dget_In). exists id, task. by apply order_waiters_In. Qed.

Lemma open_inv d0 es : let '(s, tr) := run (start d0) es in
  waiters_accepted tr (order_waiters s) /\
  forall o, o ∈ orders (db s) -> o ∈ orders d0 \/ accepted_in tr (o_pid o) (client_order_id o) (symbol o) (side o) (qty o).
Proof.
  induction es as [|e es IH] using rev_ind.
  { split; [intros n sym task pid cid side qty H; by apply elem_of_nil in H|intros o Ho; by left]. }
  rewrite run_snoc. destruct (run (start d0) es) as [s tr]. cbn [fst snd] in *. destruct IH as [Hw Ho]. split.
  - intros n sym task pid cid side qty Hx.
    destruct (waiters_sub _ _ _ _ (step_waiters s e) Hx) as [H|(n' & t' & p' & c' & y' & d' & q' & [= -> -> -> -> -> -> ->] & Ha)].
    + by eapply accepted_app, Hw.
    + by apply accepted_last.
  - intros o. destruct (move_orders _ _ _ (step_ledger s e)) as [->|(o' & -> & Ha)]; [intros [H|H]%Ho; [by left|right; by apply accepted_app]|].
    rewrite elem_of_app, list_elem_of_singleton. intros [[H|H]%Ho| ->]; [by left|right; by apply accepted_app|]. right.
    destruct Ha as [Ha|(id & task & Hx)%resumed_waits]; [by apply accepted_last|by eapply accepted_app, Hw].
Qed.

(** ** A halted ledger *)

Lemma move_halted s e d : ledger_move s e d -> is_halted (db s) = true -> is_halted d = true \/
  exists c now, e = AdminResume true c now /\ (is_admin c now s).2 = true /\ found (db s) = Some [].
Proof.
  intros H Hh. unfold is_halted in *. destruct H as [|c n h t1 t2|cs t|pid cid sym side qty p t1 t2 Ha|b Hb|c now Hr Hadm Hf];
    try by left.
  - left. cbn [Contest.Contest.step]. destruct (signup _ _ _ _ _ _ _) as [[d p]|] eqn:E; [|done].
    by apply signup_tables in E as (_ & _ & _ & _ & ->).
  - left. cbn [Contest.Contest.step]. unfold create_invites. by case_bool_decide.
  - left. cbn [Contest.Contest.step]. destruct (place _ _ _ _ _ _ _ _ _ _) as [[[d o] c]|] eqn:E; [|done].
    apply place_inv in E as [(_ & -> & _)|[_ E]]; [done|]. by destruct E.
  - left. by destruct b.
  - right. by exists c, now.
Qed.

Lemma halted_refuses s e pid cid sym side qty : is_halted (db s) = true -> ~ accepted_by s e pid cid sym side qty.
Proof.
  intros H (c & now & _ & _ & _ & _ & Ht). unfold trading_state in Ht. rewrite H in Ht. unfold is_halted in H.
  by destruct (halted (db s)).
Qed.

Lemma ddel_length id ws x : dget id ws = Some x -> is_order (id, x) = true ->
  S (length (List.filter is_order (ddel id ws))) = length (List.filter is_order ws).
Proof.
  induction ws as [|[k v] ws IH]; [done|]. cbn [dget ddel]. case_bool_decide as E.
  - intros [= ->] Ho. subst k. cbn [List.filter]. by rewrite Ho.
  - intros H Ho. cbn [List.filter]. destruct (is_order (k, v)); cbn [length]; by rewrite <- IH.
Qed.

(** An order that goes on waits no longer. *)
Lemma resumed_leaves s e pid cid sym side qty : resumed_by s e pid cid sym side qty ->
  (step s e).1 = s \/ S (length (order_waiters (step s e).1)) = length (order_waiters s).
Proof.
  intros (id & now & task & -> & Hg). destruct (step s _) as [s' r] eqn:E. cbn [fst ContestService.step] in *.
  apply resume_cases in E as [->|(sym' & task' & w & Hg' & H)]; [by left|]. right. rewrite Hg in Hg'. injection Hg' as <- <- <-.
  unfold order_waiters at 2. rewrite <- (ddel_length id _ _ Hg eq_refl). f_equal. cbn zeta in H.
  destruct H as [->|[[p ->]|[(? & ? & ? & ? & p & _ & H)|[[rest ->]|(rest & p & ->)]]]]; rewrite ?valuate_orders; try done.
  by apply submit_end_ledger in H as (t1 & t2 & ->).
Qed.

Lemma halted_step s e : is_halted (db s) = true -> (forall h c now, e <> AdminResume h c now) ->
  let s' := (step s e).1 in
  is_halted (db s') = true /\ (forall x, x ∈ order_waiters s' -> x ∈ order_waiters s) /\
  exists new, orders (db s') = orders (db s) ++ new /\
    (length new + length (order_waiters s') <= length (order_waiters s))%nat /\
    forall o, o ∈ new -> exists id task, (id, (symbol o, task, ForOrder (o_pid o) (client_order_id o) (side o) (qty o))) ∈ order_waiters s.
Proof.
  intros Hh He s'. pose proof (step_ledger s e) as Hl. pose proof (step_waiters s e) as Hw. fold s' in Hl, Hw.
  split; [by destruct (move_halted s e _ Hl Hh) as [?|(c & now & E & _)]; [|apply He in E]|]. split.
  { intros x Hx. destruct (waiters_sub _ _ _ _ Hw Hx) as [H|(n & t & p & c & y & d & q & _ & Ha)]; [done|by apply halted_refuses in Ha]. }
  assert (length (order_waiters s') <= length (order_waiters s))%nat as Hlen.
  { destruct Hw as [|n task pid cid sym side qty Ha|id now E]; [done|by apply halted_refuses in Ha|apply ddel_filter_le]. }
  destruct (move_orders _ _ _ Hl) as [Eo|(o & Eo & [Ha|Hr])].
  - exists []. rewrite app_nil_r. split; [done|]. split; [cbn; lia|]. intros o Ho. by apply elem_of_nil in Ho.
  - by apply halted_refuses in Ha.
  - exists [o]. split; [done|]. split; [|intros o' ->%list_elem_of_singleton; by apply resumed_waits in Hr].
    apply (resumed_leaves s e) in Hr as [E|E]; [|by rewrite <- E].
    exfalso. unfold s' in Eo. rewrite E in Eo. apply (f_equal length) in Eo. rewrite length_app in Eo. cbn in Eo. lia.
Qed.

Lemma halted_run es : forall s, is_halted (db s) = true -> Forall (fun e => forall h c now, e <> AdminResume h c now) es ->
  let s' := (run s es).1 in
  is_halted (db s') = true /\ (forall x, x ∈ order_waiters s' -> x ∈ order_waiters s) /\
  exists new, orders (db s') = orders (db s) ++ new /\
    (length new + length (order_waiters s') <= length (order_waiters s))%nat /\
    forall o, o ∈ new -> exists id task, (id, (symbol o, task, ForOrder (o_pid o) (client_order_id o) (side o) (qty o))) ∈ order_waiters s.
Proof.
  induction es as [|e es IH] using rev_ind; intros s Hh He.
  { split; [done|]. split; [done|]. exists []. rewrite app_nil_r. split; [done|]. split; [cbn; lia|]. intros o Ho. by apply elem_of_nil in Ho. }
  apply Forall_app in He as [He He1]. apply Forall_cons in He1 as [He1 _]. destruct (IH s Hh He) as (A1 & A2 & new & A3 & A4 & A5).
  rewrite run_snoc. cbn [fst]. destruct (halted_step (run s es).1 e A1 He1) as (B1 & B2 & new' & B3 & B4 & B5).
  split; [done|]. split; [by auto|]. exists (new ++ new'). rewrite B3, A3, app_assoc. split; [done|].
  split; [rewrite length_app; lia|]. intros o [Ho|Ho]%elem_of_app; [by apply A5|]. destruct (B5 o Ho) as (id & task & Hx). eauto.
Qed.

(** ** Everyone the service knows has an account *)

Definition known (d : Db) (pid : Z) : Prop := is_Some (accounts d !! pid).
Definition members (d : Db) : Prop := Forall (fun p => known d (p_id p)) (participants d).
Definition subjects_known (d : Db) (ss : list (pystr * Auth.Auth.Session)) : Prop :=
  forall x pid, x ∈ ss -> Auth.Auth.subject_of x.2 = Some pid -> known d pid.
Definition threads_known (d : Db) (ts : list (nat * Thread)) : Prop :=
  forall id n pw pid h, (id, ToVerify n pw pid h) ∈ ts -> exists p, p ∈ participants d /\ p_id p = pid /\ nickname p = n /\ pw_hash p = h.
Definition orders_fit (d : Db) (ws : list Entry) : Prop :=
  forall n sym task pid cid side qty, (n, (sym, task, ForOrder pid cid side qty)) ∈ ws ->
    known d pid /\ well_formed cid sym side = true /\ 1 <= qty <= contest_max_qty cfg.

Record ready (s : Service) : Prop := mkReady
  { r_wf : wf (db s); r_members : members (db s); r_subjects : subjects_known (db s) (sessions (door s));
    r_threads : threads_known (db s) (threads (door s)); r_orders : orders_fit (db s) (order_waiters s) }.

Lemma move_known s e d pid : ledger_move s e d -> known (db s) pid -> known d pid.
Proof.
  unfold known. intros H Hk. destruct H as [|c n h t1 t2|cs t|pid' cid sym side qty p t1 t2 Ha|b Hb|c now Hr Hadm Hf]; try done;
    cbn [Contest.Contest.step].
  - destruct (signup _ _ _ _ _ _ _) as [[d p]|] eqn:E; [|done]. apply signup_tables in E as (_ & _ & -> & _).
    rewrite lookup_insert_is_Some'. by right.
  - unfold create_invites. by case_bool_decide.
  - destruct (place _ _ _ _ _ _ _ _ _ _) as [[[d o] c]|] eqn:E; [|done].
    apply place_inv in E as [(_ & -> & _)|[_ E]]; [done|]. destruct E; cbn [accounts]; [done|]. rewrite lookup_insert_is_Some'. by right.
Qed.

Lemma move_members s e d : ledger_move s e d -> members (db s) -> members d.
Proof.
  intros H Hm. assert (Forall (fun p => known d (p_id p)) (participants (db s))) as Hm'.
  { eapply Forall_impl; [exact Hm|]. cbn. intros p. by apply move_known with (s := s) (e := e). }
  revert Hm'. unfold members. clear Hm. destruct H as [|c n h t1 t2|cs t|pid' cid sym side qty p t1 t2 Ha|b Hb|c now Hr Hadm Hf]; try done;
    cbn [Contest.Contest.step].
  - destruct (signup _ _ _ _ _ _ _) as [[d p]|] eqn:E; [|done]. pose proof E as E'. apply signup_tables in E as (-> & _ & Ea & _).
    intros H. apply Forall_app. split; [done|]. constructor; [|constructor]. unfold known. rewrite Ea, lookup_insert_eq. by eexists.
  - unfold create_invites. by case_bool_decide.
  - destruct (place _ _ _ _ _ _ _ _ _ _) as [[[d o] c]|] eqn:E; [|done].
    apply place_inv in E as [(_ & -> & _)|[_ E]]; [done|]. by destruct E.
Qed.

Lemma move_participants s e d p : ledger_move s e d -> p ∈ participants (db s) -> p ∈ participants d.
Proof.
  intros H Hp. destruct H as [|c n h t1 t2|cs t|pid' cid sym side qty q t1 t2 Ha|b Hb|c now Hr Hadm Hf]; try done;
    cbn [Contest.Contest.step].
  - destruct (signup _ _ _ _ _ _ _) as [[d q]|] eqn:E; [|done]. apply signup_tables in E as (-> & _). apply elem_of_app. by left.
  - unfold create_invites. by case_bool_decide.
  - destruct (place _ _ _ _ _ _ _ _ _ _) as [[[d o] c]|] eqn:E; [|done].
    apply place_inv in E as [(_ & -> & _)|[_ E]]; [done|]. by destruct E.
Qed.

Lemma move_wf s e d : config_ok (rules cfg) -> ledger_move s e d -> wf (db s) -> wf d.
Proof.
  intros Hc H Hw. destruct H as [| | | |b Hb|c now Hr Hadm Hf]; try done; try by apply contest_step_wf.
  - by apply (contest_step_wf (rules cfg) (db s) (Contest.Contest.Halt (break_kind b))).
  - by apply (contest_step_wf (rules cfg) (db s) Contest.Contest.Resume).
Qed.

Lemma check_subjects d tok now ss : subjects_known d ss -> subjects_known d (Auth.Auth.check tok now ss).1.
Proof.
  intros H. unfold Auth.Auth.check. destruct tok as [[|c tok]|]; try done. destruct (dget (c :: tok) ss) as [x|] eqn:E; [|done].
  destruct (Auth.Auth.expired now x).
  - intros y pid Hy. by apply H, (ddel_In (c :: tok)).
  - intros y pid [->|Hy]%dset_In; [|by apply H]. cbn. by apply (H _ _ (dget_In _ _ _ E)).
Qed.

Lemma me_subjects d c now s : subjects_known d (sessions (door s)) ->
  subjects_known d (sessions (door (me c now s).1)) /\ forall pid, (me c now s).2 = Some pid -> known d pid.
Proof.
  intros H. unfold me, Auth.Auth.subject. generalize (Auth.Auth.cookie_value c COOKIE) as tok. intros tok.
  pose proof (check_subjects d tok (mono now) _ H) as Hc. destruct (Auth.Auth.check _ _ _) as [ss ok]. cbn in Hc |- *.
  split; [done|]. intros pid. destruct ok; [|done]. destruct tok as [t|]; cbn; [|done].
  destruct (dget t ss) as [x|] eqn:E; cbn; [|done]. by apply (Hc _ _ (dget_In _ _ _ E)).
Qed.

Definition door_known (d : Db) (x : Door) : Prop := subjects_known d (sessions x) /\ threads_known d (threads x).

Lemma create_subjects d tok now pid ss : subjects_known d ss -> (forall p, pid = Some p -> known d p) ->
  subjects_known d (Auth.Auth.create tok now pid ss).
Proof. intros H Hp x p [->|Hx]%dset_In; [apply Hp|by apply H]. Qed.

Lemma credentials_known d n pid h : credentials n d = Some (pid, h) ->
  exists p, p ∈ participants d /\ p_id p = pid /\ nickname p = n /\ pw_hash p = h.
Proof.
  unfold credentials. destruct (find _ _) as [p|] eqn:E; [|done]. intros [= <- <-].
  apply find_some in E as [E En%bool_decide_eq_true]. exists p. by split; [apply list_elem_of_In|].
Qed.

Lemma thread_added d id t ts : threads_known d ts ->
  (forall n pw pid h, t = ToVerify n pw pid h -> exists p, p ∈ participants d /\ p_id p = pid /\ nickname p = n /\ pw_hash p = h) ->
  threads_known d ((id, t) :: ts).
Proof. intros H Ht k n pw pid h [[= -> <-]|Hx]%elem_of_cons; [by eapply Ht|by eapply H]. Qed.

Lemma thread_end_door d id salt tok now s s' r : members d -> door_known d (door s) -> (forall pid, known (db s') pid -> known d pid) ->
  thread_end decimal cfg id salt tok now s = (s', r) -> door_known d (door s').
Proof.
  intros Hm [H1 H2] Hd. assert (threads_known d (ddel id (threads (door s)))) as H3.
  { intros k n pw pid h Hx%ddel_In. by eapply H2. }
  unfold thread_end. destruct (dget id _) as [[i n pw|n pw pid h|pw]|] eqn:Eg; [| | |by intros [= <- _]].
  - unfold signup_end. destruct (Auth.Auth.hash_password _ _ _) as [h|e]; [|by intros [= <- _]].
    destruct (signup _ _ _ _ _ _ _) as [[d1 p]|e] eqn:E; [|by intros [= <- _]]. intros [= <- _]. split; [|done].
    apply create_subjects; [done|]. intros q [= <-]. apply Hd. cbn [db with_sessions with_db with_door].
    apply signup_tables in E as (_ & _ & E & _). unfold known. rewrite E, lookup_insert_eq. by eexists.
  - unfold login_end. destruct (Auth.Auth.verify_password _ _ _) as [[]|]; intros [= <- _]; try by split.
    split; [|done]. apply create_subjects; [done|]. intros q [= <-]. apply dget_In, H2 in Eg as (p & Hp & <- & _).
    unfold members in Hm. rewrite Forall_forall in Hm. by apply Hm.
  - unfold admin_login_end. by destruct (Auth.Auth.verify_password _ _ _) as [[]|]; intros [= <- _].
Qed.

Lemma login_begin_door d h n pw now s : (forall p, p ∈ participants (db s) -> p ∈ participants d) -> door_known d (door s) ->
  door_known d (door (login_begin h n pw now s).1).
Proof.
  intros Hd [H1 H2]. unfold login_begin. destruct h; cbn [negb]; [|done]. destruct (fgt _ _); [done|].
  destruct (bindable n); cbn [negb]; [|done].
  destruct (credentials _ _) as [[pid st]|] eqn:E; [|done]. split; [done|]. apply thread_added; [done|].
  intros ? ? ? ? [= <- <- <- <-]. apply credentials_known in E as (p & Hp & E). exists p. auto.
Qed.

Lemma guarded_door d w h c now fn s : door_known d (door s) ->
  (forall pid s1, db s1 = db s -> market s1 = market s -> door_known d (door s1) -> known d pid -> door_known d (door (fn pid s1).1)) ->
  door_known d (door (guarded w h c now fn s).1).
Proof.
  intros [H1 H2] Hf. unfold guarded. destruct (w && negb h); [done|]. pose proof (me_frame c now s) as [ss Hs].
  pose proof (me_subjects d c now s H1) as [Hm Hk]. destruct (me c now s) as [s1 [pid|]]; cbn [fst snd] in *; subst s1; [|done].
  apply Hf; [done|done|done|by apply Hk].
Qed.

Lemma guarded_admin_door d w h c now fn s : door_known d (door s) -> (forall s1, door (fn s1).1 = door s1) ->
  door_known d (door (guarded_admin w h c now fn s).1).
Proof.
  intros H Hf. unfold guarded_admin. destruct (w && negb h); [done|]. pose proof (is_admin_frame c now s) as [ss Hs].
  destruct (is_admin c now s) as [s1 []]; cbn [fst] in Hs; subst s1; [by rewrite Hf|done].
Qed.

Lemma price_begin_door now sym w s : door (price_begin now sym w s).1 = door s.
Proof.
  unfold price_begin. destruct (dget sym (quotes _)) as [[t p]|]; [destruct (flt _ _); [done|]|];
    by destruct (dget sym (inflight _)).
Qed.

Lemma valuate_door now syms s : door (valuate now syms s) = door s.
Proof.
  revert s. induction syms as [|sym syms IH]; intros s; [done|]. cbn [valuate].
  pose proof (price_begin_door now sym (ForValuation syms) s) as H.
  destruct (price_begin _ _ _ _) as [s' [p|id]]; cbn in H; [by rewrite IH|done].
Qed.

Lemma submit_door fields now pid s : door (submit_begin cfg fields now pid s).1 = door s.
Proof.
  destruct (submit_begin cfg fields now pid s) as [s' r] eqn:E. cbn [fst].
  apply submit_cases in E as [->|(cid & sym & side & qty & -> & _ & _ & _ & E)]; [done|].
  pose proof (price_begin_door now sym (ForOrder pid cid side qty) s) as H.
  destruct (price_begin _ _ _ _) as [s1 [p|id]]; [|by subst]. by apply submit_end_ledger in E as (t1 & t2 & ->).
Qed.

Lemma step_door s e : ready s -> door_known (db (step s e).1) (door (step s e).1).
Proof.
  intros [W1 W2 W3 W4 W5]. pose proof (fun pid => move_known s e _ pid (step_ledger s e)) as Hk.
  pose proof (fun p => move_participants s e _ p (step_ledger s e)) as Hpa.
  pose proof (move_members s e _ (step_ledger s e) W2) as Hme. set (d := db (step s e).1) in *.
  assert (door_known d (door s)) as Hd.
  { split; [intros x pid Hx Hp; by eapply Hk, W3|]. intros id n pw pid h Hx. destruct (W4 _ _ _ _ _ Hx) as (p & Hp & E). eauto. }
  destruct e; cbn [ContestService.step] in *.
  - unfold signup_begin. destruct header, (NICK_RE nick), (zlen pw <? MIN_PASSWORD); cbn [negb]; try done.
    destruct Hd. split; [done|]. apply thread_added; done.
  - by apply login_begin_door.
  - unfold admin_login_begin. destruct header; cbn [negb]; [|done]. destruct (fgt _ _); [done|].
    destruct Hd. split; [done|]. apply thread_added; done.
  - destruct (thread_end _ _ _ _ _ _ _) as [s' r] eqn:E. by eapply thread_end_door.
  - apply guarded_door; [done|]. intros pid s1 _ _ [H1 H2] _. split; [|done]. intros x p Hx%ddel_In. by apply H1.
  - apply guarded_door; [done|]. intros pid s1 _ _ H _. unfold quote. destruct (negb _); [done|].
    pose proof (price_begin_door now sym ForQuote s1) as E. by destruct (price_begin _ _ _ _) as [s2 [p|id]]; cbn [fst] in *; rewrite E.
  - apply guarded_door; [done|]. intros pid s1 _ _ H _. by rewrite submit_door.
  - done.
  - done.
  - destruct (resume_waiter cfg id now s) as [s' r] eqn:E. cbn [fst].
    apply resume_cases in E as [->|(sym & task & w & Hg & H)]; [done|]. cbn zeta in H.
    destruct H as [->|[[p ->]|[(pid & cid & side & qty & p & -> & H)|[[rest ->]|(rest & p & ->)]]]]; rewrite ?valuate_door; try done.
    by apply submit_end_ledger in H as (t1 & t2 & ->).
  - apply guarded_admin_door; [done|]. intros s1. unfold admin_create_invites. destruct (negb _); [done|]. by destruct (create_invites _ _ _).
  - apply guarded_admin_door; [done|]. intros s1. unfold admin_resume. by destruct (found _) as [[|]|].
  - unfold integrity_once. destruct (found _) as [[|]|]; try done. by destruct (is_halted _).
  - cbn [fst]. by rewrite valuate_door.
  - by apply guarded_door.
  - by apply guarded_admin_door.
  - pose proof (me_frame cookies now s) as [ss Hs]. pose proof (me_subjects d cookies now s (proj1 Hd)) as [Hm _].
    destruct (me cookies now s) as [s1 pid]. cbn [fst] in *. subst s1. pose proof (is_admin_frame cookies now (with_sessions ss s)) as [ss' Ha].
    destruct (is_admin cookies now (with_sessions ss s)) as [s2 adm]. cbn [fst] in *. subst s2. by split; [|apply Hd].
Qed.

Lemma step_ready s e : config_ok (rules cfg) -> ready s -> ready (step s e).1.
Proof.
  intros Hc H. pose proof (step_door s e H) as [D1 D2]. pose proof (step_ledger s e) as Hl. destruct H as [W1 W2 W3 W4 W5].
  split; [by eapply move_wf|by eapply move_members|done|done|].
  intros n sym task pid cid side qty Hx.
  destruct (waiters_sub _ _ _ _ (step_waiters s e) Hx) as [H|(n' & t' & p' & c' & y' & d' & q' & [= -> -> -> -> -> -> ->] & Ha)].
  - destruct (W5 _ _ _ _ _ _ _ H) as [? ?]. split; [by eapply move_known|done].
  - destruct Ha as (c & now & -> & Hm & Hf & Hq & _). split; [|split; [done|lia]]. eapply move_known; [exact Hl|].
    by eapply me_subjects.
Qed.

Lemma run_ready es s : config_ok (rules cfg) -> ready s -> ready (run s es).1.
Proof.
  intros Hc H. induction es as [|e es IH] using rev_ind; [done|]. rewrite run_snoc. by apply step_ready.
Qed.

Lemma start_ready d : wf d -> members d -> ready (start d).
Proof.
  intros H1 H2. split; [done|done|..]; cbn.
  - intros x pid Hx. by apply elem_of_nil in Hx.
  - intros id n pw pid h Hx. by apply elem_of_nil in Hx.
  - intros n sym task pid cid side qty Hx. by apply elem_of_nil in Hx.
Qed.
End proofs.

(** ** The board *)

Definition worth (ps : list (pystr * Z)) (hs : list (pystr * (Z * Z))) : Z := foldr (fun h e => value_of ps h + e) 0 hs.

Lemma fold_worth ps hs : forall c, foldl (fun e h => e + value_of ps h) c hs = c + worth ps hs.
Proof.
  induction hs as [|h hs IH]; intros c; [cbn; lia|]. change (worth ps (h :: hs)) with (value_of ps h + worth ps hs).
  cbn [foldl]. rewrite IH. lia.
Qed.

Lemma worth_perm ps hs hs' : hs ≡ₚ hs' -> worth ps hs = worth ps hs'.
Proof. induction 1; unfold worth in *; cbn [foldr]; lia. Qed.

Lemma fold_holdings ps hs : forall c, foldl (fun e h => e + value h) c (holding ps <$> hs) = c + worth ps hs.
Proof.
  induction hs as [|[sym [q k]] hs IH]; intros c; cbn [fmap list_fmap foldl]; [cbn; lia|].
  rewrite IH. change (worth ps ((sym, (q, k)) :: hs)) with (value_of ps (sym, (q, k)) + worth ps hs).
  cbn [holding snd value]. lia.
Qed.

Lemma insert_held_perm x l : insert_held x l ≡ₚ x :: l.
Proof. induction l as [|y l IH]; [done|]. cbn. destruct (str_leb x.1 y.1); [done|]. rewrite IH. apply perm_swap. Qed.

Lemma sort_held_perm l : foldr insert_held [] l ≡ₚ l.
Proof. induction l as [|x l IH]; [done|]. cbn. by rewrite insert_held_perm, IH. Qed.

Lemma insert_standing_perm x l : insert_standing x l ≡ₚ x :: l.
Proof. induction l as [|y l IH]; [done|]. cbn. destruct (_ <=? _); [done|]. rewrite IH. apply perm_swap. Qed.

Lemma sort_standing_perm l : foldr insert_standing [] l ≡ₚ l.
Proof. induction l as [|x l IH]; [done|]. cbn. by rewrite insert_standing_perm, IH. Qed.

Definition above (a b : Standing) : Prop := b_equity b <= b_equity a.

Lemma insert_standing_sorted x l : StronglySorted above l -> StronglySorted above (insert_standing x l).
Proof.
  induction 1 as [|y l Hl IH Hy]; cbn; [by repeat constructor|]. destruct (Z.leb_spec (b_equity y) (b_equity x)).
  - constructor; [by constructor|]. constructor; [done|]. eapply Forall_impl; [exact Hy|]. unfold above. cbn. intros z ?. lia.
  - constructor; [done|]. rewrite insert_standing_perm. constructor; [unfold above; lia|done].
Qed.

Lemma sort_standing_sorted l : StronglySorted above (foldr insert_standing [] l).
Proof. induction l as [|x l IH]; [constructor|]. by apply insert_standing_sorted. Qed.

(** A standing before the ranks are written. *)
Definition unranked (b : Standing) : Standing := mkStanding (b_nick b) (b_equity b) (b_return b) (unpriced b) 0.

Lemma unranked_imap l : forall f, (forall i b, b ∈ l -> unranked (f i b) = b) -> unranked <$> imap f l = l.
Proof.
  induction l as [|b l IH]; intros f H; [done|]. cbn. rewrite H by by left. f_equal. apply IH. intros i x Hx. apply H. by right.
Qed.

(** ** The answers to an order *)

(** What the ledger made of an order at price [p]: the order it found, the one it appended,
    or an exception that changed nothing. *)
Definition settled (cfg : Settings) (pid : Z) (cid sym sd : pystr) (q p : Z) (d d' : Db) (r : Response) : Prop :=
  (exists o, r = Duplicate o /\ find_order pid cid d = Some o /\ d' = d) \/
  (exists o, r = Placed o /\ find_order pid cid d = None /\ orders d' = orders d ++ [o] /\
     (o_pid o, client_order_id o, symbol o, side o, qty o, price o) = (pid, cid, sym, sd, q, p) /\
     let '(a, f, _) := costs (rules cfg) sd q p in
     (state o = FILLED <-> 0 < p /\ (sd = lit "buy" -> a + f <= default 0 (accounts d !! pid)) /\
        (sd = lit "sell" -> q <= (default (0, 0) (positions d !! (pid, sym))).1))) \/
  (r = Raised (LedgerError OverflowError) /\ d' = d /\ fits (rules cfg) pid sym sd q p d = false).

(** What a submission is answered. *)
Definition submit_answer (cfg : Settings) (header : bool) (cookies : pystr) (fields : option (pystr * pystr * pystr * Z))
    (now : Now) (s s' : Service) (r : Response) : Prop :=
  if negb header then r = Csrf /\ s' = s
  else match (me cookies now s).2, fields with
  | None, _ => r = LoginRequired /\ db s' = db s
  | Some _, None => r = BadRequest /\ db s' = db s
  | Some pid, Some (cid, sym, sd, q) =>
      if negb (well_formed cid sym sd && ((1 <=? q) && (q <=? contest_max_qty cfg))) then r = BadRequest /\ db s' = db s
      else match trading_state cfg now (db s) with
      | Some why => r = ClosedFor why /\ db s' = db s
      | None =>
          (exists t p, dget sym (quotes (market s)) = Some (t, p) /\ settled cfg pid cid sym sd q p (db s) (db s') r) \/
          (exists id task, r = Waiting id /\ db s' = db s /\
             dget id (waiting (market s')) = Some (sym, task, ForOrder pid cid sd q))
      end
  end.

Lemma placed_settled cfg pid cid sym sd q p t1 t2 d d' o : placed (rules cfg) d pid cid sym sd q p t1 t2 d' o ->
  settled cfg pid cid sym sd q p d d' (Placed o).
Proof.
  intros H. right. left. exists o. split; [done|]. pose proof (placed_orders _ _ _ _ _ _ _ _ _ _ _ _ H) as [Ho _].
  destruct H as [cash held cost a f x why o H1 H2 H3 H4 H5 H6 H7 ->|cash held cost a f x delta nq nc h o H1 H2 H3 H4 H5 H6 H7 H8 H9 K1 K2 -> K3];
    (split; [done|]); (split; [done|]); (split; [done|]); rewrite H2, H3, H4; cbn [default fst state];
    pose proof (why_not_none sd q p a f cash held) as Hwhy; rewrite H5 in Hwhy; split; try done.
  - intros H. by apply Hwhy in H.
  - intros _. by apply Hwhy.
Qed.

Lemma submit_settled cfg pid cid sym sd q p now s s1 : config_ok (rules cfg) -> ready cfg s -> db s1 = db s -> known (db s) pid ->
  well_formed cid sym sd = true -> 1 <= q -> bindable (row_stamp now) = true ->
  settled cfg pid cid sym sd q p (db s) (db (submit_end cfg pid cid sym sd q p now s1).1) (submit_end cfg pid cid sym sd q p now s1).2.
Proof.
  intros Hc Hr E Hk (Hf1 & Hf2 & Hf3)%well_formed_encodes Hq Ht. unfold submit_end. rewrite E.
  destruct (place_total (rules cfg) pid cid sym sd q p (stamp now) (row_stamp now) (db s)) as [[[[d o] c] Hp]|[Hp Hfit]];
    try done; [by apply Hr|lia| |].
  - rewrite Hp. apply place_inv in Hp as [(Hfo & -> & ->)|[-> Hp]]; cbn [fst snd with_db db].
    + left. by exists o.
    + by eapply placed_settled.
  - rewrite Hp. cbn [fst snd]. right. by right.
Qed.

(** The price is the cached one, or the waiter is put down. *)
Lemma price_begin_cases now sym w s : match price_begin now sym w s with
  | (s1, inl p) => s1 = s /\ exists t, dget sym (quotes (market s)) = Some (t, p)
  | (s1, inr id) => db s1 = db s /\ exists task, dget id (waiting (market s1)) = Some (sym, task, w)
  end.
Proof.
  unfold price_begin. set (ask := let '(task, m, n) := _ in _).
  assert (match ask with
    | (_, inl _) => False
    | (s1, inr id) => db s1 = db s /\ exists task, dget id (waiting (market s1)) = Some (sym, task, w)
    end) as Hask.
  { unfold ask. destruct (dget sym (inflight (market s))); (split; [done|]); eexists; cbn [market waiting dget]; by case_decide. }
  destruct ask as [s1 [p|id]]; [done|]. destruct (dget sym (quotes (market s))) as [[t p]|]; [|done].
  destruct (flt _ _); [|done]. split; [done|]. by exists t.
Qed.

Lemma submit_answered decimal cfg header cookies fields now s : config_ok (rules cfg) -> ready cfg s -> bindable (row_stamp now) = true ->
  let e := Submit header cookies fields now in
  submit_answer cfg header cookies fields now s (step decimal cfg s e).1 (step decimal cfg s e).2.
Proof.
  intros Hc Hr Ht. cbn [step]. unfold submit_answer, guarded. destruct header; cbn [negb andb]; [|done].
  pose proof (me_frame cookies now s) as [ss Hss].
  pose proof (proj2 (me_subjects (db s) cookies now s (r_subjects cfg s Hr))) as Hk.
  destruct (me cookies now s) as [s1 [pid|]]; cbn [fst snd] in *; subst s1; [|done].
  unfold submit_begin. destruct fields as [[[[cid sym] sd] q]|]; [|done].
  destruct (well_formed cid sym sd) eqn:Hf; [|done]. destruct ((1 <=? q) && (q <=? contest_max_qty cfg)) eqn:Hq; [|done]. cbn [negb andb].
  change (db (with_sessions ss s)) with (db s). destruct (trading_state _ _ _); [done|].
  pose proof (price_begin_cases now sym (ForOrder pid cid sd q) (with_sessions ss s)) as Hp.
  destruct (price_begin _ _ _ _) as [s2 [p|id]].
  - destruct Hp as [-> [t Hp]]. left. exists t, p. split; [exact Hp|]. apply andb_true_iff in Hq as [Hq%Z.leb_le _].
    apply (submit_settled cfg pid cid sym sd q p now s); try done. by apply Hk.
  - destruct Hp as [Hd [task Hp]]. right. exists id, task. by split_and!.
Qed.

(** ** Properties *)

(** C37: Every order in the ledger was there when the service started or came from a
    submission the run holds: with the header and a live session of that very participant,
    with the format and a quantity within the limit, at a moment when the ledger was not
    halted and the contest and the market were open; and its participant, client id,
    symbol, side and quantity are the submission's, however many requests waited for prices
    in between. *)
Theorem orders_from_open_hours decimal cfg d0 es o :
  o ∈ orders (db (run decimal cfg (start d0) es).1) -> o ∈ orders d0 \/
  exists s e, (s, e) ∈ (run decimal cfg (start d0) es).2 /\
    accepted_by cfg s e (o_pid o) (client_order_id o) (symbol o) (side o) (qty o).
Proof.
  intros Ho. pose proof (open_inv decimal cfg d0 es) as H. destruct (run decimal cfg (start d0) es) as [s tr].
  destruct H as [_ H]. by apply H.
Qed.

(** C38: From a halted ledger, as long as no operator resumes it, whatever else is requested
    or happens: it stays halted; the only orders added are ones that waited for their price
    when it was halted; and with those still waiting they are no more than waited then. *)
Theorem halt_stops_orders decimal cfg s es : is_halted (db s) = true ->
  Forall (fun e => forall h c now, e <> AdminResume h c now) es ->
  let s' := (run decimal cfg s es).1 in
  is_halted (db s') = true /\
  exists new, orders (db s') = orders (db s) ++ new /\
    (length new + length (order_waiters s') <= length (order_waiters s))%nat /\
    forall o, o ∈ new -> exists id task,
      (id, (symbol o, task, ForOrder (o_pid o) (client_order_id o) (side o) (qty o))) ∈ order_waiters s.
Proof. intros Hh He s'. by destruct (halted_run decimal cfg es s Hh He) as (H & _ & Hn). Qed.

(** C39: In every state the service can reach from a sound ledger, a submission is answered
    for what it is (no header, no session, unreadable, orders closed), or waits for its
    price with the ledger as it was, or is settled at the cached price; and an order whose
    price call is answered is settled at the price, or refused, or broken off by what the
    broker's call raised, with the ledger as it was.  Settled: the order that participant
    and client id already name is found; or exactly one order with the submission's fields
    is appended, filled just when there is a price, the cash and the holding for it; or,
    only when one of its numbers needs more than 64 bits, [OverflowError] is raised and
    nothing changes, which cannot be while amount, cash, holding and cost are within 2^60. *)
Theorem order_always_answered decimal cfg d0 es e : config_ok (rules cfg) -> wf d0 -> members d0 ->
  let s := (run decimal cfg (start d0) es).1 in
  let s' := (step decimal cfg s e).1 in let r := (step decimal cfg s e).2 in
  match e with
  | Submit header cookies fields now => bindable (row_stamp now) = true -> submit_answer cfg header cookies fields now s s' r
  | WaiterResumes id now => bindable (row_stamp now) = true -> forall sym task pid cid sd q a,
      dget id (waiting (market s)) = Some (sym, task, ForOrder pid cid sd q) -> dget task (answers (market s)) = Some a ->
      match a with
      | Quoted p => settled cfg pid cid sym sd q p (db s) (db s') r
      | Refused => r = NoQuote /\ db s' = db s
      | Broken => r = Raised BrokerError /\ db s' = db s
      end
  | _ => True
  end /\
  (forall pid sym sd q p, sd ∈ [lit "buy"; lit "sell"] -> 0 <= pid < 2 ^ 63 -> 1 <= q <= 2 ^ 60 -> - 2 ^ 60 <= q * p <= 2 ^ 60 ->
     default 0 (accounts (db s) !! pid) <= 2 ^ 60 ->
     (default (0, 0) (positions (db s) !! (pid, sym))).1 <= 2 ^ 60 -> (default (0, 0) (positions (db s) !! (pid, sym))).2 <= 2 ^ 60 ->
     fits (rules cfg) pid sym sd q p (db s) = true).
Proof.
  intros Hc Hw Hm s s' r. pose proof (run_ready decimal cfg es _ Hc (start_ready cfg d0 Hw Hm)) as Hr. fold s in Hr.
  split; [|intros; apply fits_small; try done; by apply Hr]. subst s' r. clearbody s. clear Hw Hm.
  destruct e; try done; cbn [step]; intros Ht.
  - exact (submit_answered decimal cfg header cookies fields now s Hc Hr Ht).
  - intros sym task pid cid sd q a Eg Ea. unfold resume_waiter. rewrite Eg, Ea.
    destruct (r_orders cfg s Hr id sym task pid cid sd q) as (Hk & Hf & Hq & _); [by apply order_waiters_In, dget_In|].
    destruct a as [p| |]; [|done|done]. by apply (submit_settled cfg pid cid sym sd q p now s).
Qed.

(** C19: Whatever is requested and however it interleaves, from a sound ledger whose
    participants have accounts: every participant has an account, and no account's number
    is beyond the participants'; every session is of someone with an account; a password is only ever
    being verified against the stored hash of the participant with that nickname, for that
    participant's session; and every order that waits for a price is of someone with an
    account, well formed and within the quantity limit. *)
Theorem everyone_has_an_account decimal cfg d0 es : config_ok (rules cfg) -> wf d0 -> members d0 ->
  let s := (run decimal cfg (start d0) es).1 in
  Forall (fun p => is_Some (accounts (db s) !! p_id p)) (participants (db s)) /\
  (forall pid, is_Some (accounts (db s) !! pid) -> 1 <= pid <= zlen (participants (db s))) /\
  (forall tok x pid, (tok, x) ∈ sessions (door s) -> Auth.Auth.subject_of x = Some pid -> is_Some (accounts (db s) !! pid)) /\
  (forall id n pw pid h, (id, ToVerify n pw pid h) ∈ threads (door s) ->
     exists p, p ∈ participants (db s) /\ p_id p = pid /\ nickname p = n /\ pw_hash p = h) /\
  (forall id sym task pid cid sd q, (id, (sym, task, ForOrder pid cid sd q)) ∈ waiting (market s) ->
     is_Some (accounts (db s) !! pid) /\ well_formed cid sym sd = true /\ 1 <= q <= contest_max_qty cfg).
Proof.
  intros Hc Hw Hm s. destruct (run_ready decimal cfg es _ Hc (start_ready cfg d0 Hw Hm)) as [W1 W2 W3 W4 W5]. fold s in W1, W2, W3, W4, W5.
  split_and!; [exact W2|by apply W1| |exact W4|].
  - intros tok x pid Hx. by apply (W3 (tok, x)).
  - intros id sym task pid cid sd q Hx. by apply (W5 id sym task), order_waiters_In.
Qed.

(** A halted ledger takes orders again in one way only: a request with the header and a
    live operator's session, at a moment when the check of the whole journal finds
    nothing. *)
Theorem resume_only_when_clean decimal cfg s e : is_halted (db s) = true ->
  is_halted (db (step decimal cfg s e).1) = false ->
  exists cookies now, e = AdminResume true cookies now /\ (is_admin cookies now s).2 = true /\ found (db s) = Some [].
Proof.
  intros Hh Hn. destruct (move_halted cfg s e _ (step_ledger decimal cfg s e) Hh) as [E|E]; [congruence|done].
Qed.

(** The board holds every participant with an account exactly once, from the largest
    equity down and numbered from 1; and the equity a participant sees on the account page
    is the one the board ranks them by. *)
Theorem board_agrees cfg s : let ps := prices (market s) in let b := leaderboard (rules cfg) ps (db s) in
  unranked <$> b ≡ₚ omap (standing (rules cfg) ps (db s)) (participants (db s)) /\
  StronglySorted above (unranked <$> b) /\ rank <$> b = seqZ 1 (zlen b) /\
  forall p, p ∈ participants (db s) -> (fun a => (equity a, a_return a)) <$> account cfg (p_id p) s =
    (fun x => (b_equity x, b_return x)) <$> standing (rules cfg) ps (db s) p.
Proof.
  intros ps b. set (l := foldr insert_standing [] (omap (standing (rules cfg) ps (db s)) (participants (db s)))).
  assert (unranked <$> b = l) as E.
  { apply unranked_imap. intros i x Hx. unfold l in Hx. rewrite sort_standing_perm in Hx.
    apply list_elem_of_omap in Hx as (p & _ & Hp). unfold standing in Hp. destruct (accounts _ !! _); [|done]. by injection Hp as <-. }
  rewrite E. split; [apply sort_standing_perm|]. split; [apply sort_standing_sorted|]. split.
  - apply list_eq. intros i. rewrite list_lookup_fmap. unfold b, leaderboard. rewrite list_lookup_imap, length_imap. fold l.
    destruct (decide (i < length l)%nat) as [H|H].
    + destruct (lookup_lt_is_Some_2 l i H) as [x ->]. rewrite lookup_seqZ_lt by lia. cbn. f_equal. lia.
    + rewrite (lookup_ge_None_2 l) by lia. rewrite lookup_seqZ_ge by lia. done.
  - intros p _. unfold account, standing. destruct (accounts (db s) !! p_id p) as [c|]; [|done]. cbn [mbind option_bind fmap option_fmap option_map equity a_return b_equity b_return].
    rewrite fold_holdings, fold_worth, (worth_perm _ _ _ (sort_held_perm _)). done.
Qed.

(** ** Witnesses *)

Definition digits_only (c : Z) : option Z := if is_digit c then Some (c - 48) else None.

Definition password : pystr := lit "long password".
Definition demo_hash : pystr :=
  match Auth.Auth.hash_password password 1 (replicate 16 7) with Ok h => h | Err _ => [] end.
Definition demo_settings : Settings := mkSettings default_config [] [] false 1000 demo_hash.
Definition demo_db : Db :=
  Contest.Contest.run default_config new_db
    [Contest.Contest.CreateInvites [lit "inv1"] (lit "1.0");
     Contest.Contest.Signup (lit "inv1") (lit "kim") demo_hash (lit "2.0") (lit "2.5")].

(** A Monday in 1970 at ten o'clock, [t] seconds into the run. *)
Definition at_ (t : Z) : Now :=
  mkNow (of_int t) (of_int t) ((4 * 86400 + 36000 + t) * 1000000) (lit "19700105") (lit "3.0") (lit "3.5").

(** A login, and an order that waits for its price. *)
Definition asks : list Event :=
  [LoginBegin true (lit "kim") password (at_ 10); ThreadEnd 0 [] (lit "tok") (at_ 11);
   Submit true (lit "contest_session=tok") (Some (lit "client-01", lit "005930", lit "buy", 3)) (at_ 12)].
(** The price arrives, and the order goes on. *)
Definition goes_on : list Event :=
  [CallAnswered 1 (Quoted 70000); CallForgotten (lit "005930"); WaiterResumes 2 (at_ 13)].
Definition demo_order : Order :=
  mkOrder 1 1 (lit "client-01") (lit "005930") (lit "buy") 3 70000 210000 31 0 FILLED None (lit "3.0").

Abbreviation play := (run digits_only demo_settings) (only parsing).

Lemma orders_from_open_hours_witness :
  demo_order ∈ orders (db (play (start demo_db) (asks ++ goes_on)).1) /\
  (demo_order ∈ orders demo_db \/
   exists s e, (s, e) ∈ (play (start demo_db) (asks ++ goes_on)).2 /\
     accepted_by demo_settings s e 1 (lit "client-01") (lit "005930") (lit "buy") 3).
Proof.
  assert (demo_order ∈ orders (db (play (start demo_db) (asks ++ goes_on)).1)) as H.
  { replace (orders _) with [demo_order] by (vm_compute; reflexivity). by left. }
  split; [exact H|]. exact (orders_from_open_hours digits_only demo_settings demo_db (asks ++ goes_on) demo_order H).
Defined.

(** The ledger is halted while the order waits. *)
Definition halted_state : Service := let s := (play (start demo_db) asks).1 in with_db (halt (lit "cash_mismatch") (db s)) s.
Definition late : list Event :=
  goes_on ++ [Submit true (lit "contest_session=tok") (Some (lit "client-02", lit "005930", lit "buy", 1)) (at_ 13)].

Lemma halt_stops_orders_witness :
  is_halted (db halted_state) = true /\
  let s' := (play halted_state late).1 in
  is_halted (db s') = true /\
  exists new, orders (db s') = orders (db halted_state) ++ new /\
    (length new + length (order_waiters s') <= length (order_waiters halted_state))%nat /\
    forall o, o ∈ new -> exists id task,
      (id, (symbol o, task, ForOrder (o_pid o) (client_order_id o) (side o) (qty o))) ∈ order_waiters halted_state.
Proof.
  assert (is_halted (db halted_state) = true) as H by (vm_compute; reflexivity). split; [exact H|].
  refine (halt_stops_orders digits_only demo_settings halted_state late H _). by repeat constructor.
Defined.

(** An order whose price was asked for before the halt is still filled after it. *)
Example filled_while_halted : let s' := (play halted_state late).1 in
  is_halted (db s') = true /\ orders (db s') = [demo_order] /\ orders (db halted_state) = [].
Proof. by vm_compute. Qed.

Lemma demo_config_ok : config_ok (rules demo_settings).
Proof. unfold config_ok. cbn. lia. Qed.

Lemma demo_sound : wf demo_db /\ members demo_db.
Proof.
  split; [apply contest_run_wf; [exact demo_config_ok|exact new_db_wf]|].
  unfold members. replace (participants demo_db) with [mkParticipant 1 (lit "kim") demo_hash (lit "2.0")] by (vm_compute; reflexivity).
  constructor; [|constructor]. exists 10000000. vm_compute. reflexivity.
Qed.

Lemma order_always_answered_witness :
  let s := (play (start demo_db) (asks ++ take 2 goes_on)).1 in
  let o := step digits_only demo_settings s (WaiterResumes 2 (at_ 13)) in
  config_ok (rules demo_settings) /\ wf demo_db /\ members demo_db /\ o.2 = Placed demo_order /\
  settled demo_settings 1 (lit "client-01") (lit "005930") (lit "buy") 3 70000 (db s) (db o.1) o.2.
Proof.
  intros s o. destruct demo_sound as [Hw Hm].
  split; [exact demo_config_ok|]. split; [exact Hw|]. split; [exact Hm|]. split; [vm_compute; reflexivity|].
  refine (proj1 (order_always_answered digits_only demo_settings demo_db (asks ++ take 2 goes_on) (WaiterResumes 2 (at_ 13)) demo_config_ok Hw Hm)
    _ (lit "005930") 1%nat 1 (lit "client-01") (lit "buy") 3 (Quoted 70000) _ _); vm_compute; reflexivity.
Defined.

Lemma everyone_has_an_account_witness :
  let s := (play (start demo_db) asks).1 in
  length (sessions (door s)) = 1%nat /\ length (waiting (market s)) = 1%nat /\
  Forall (fun p => is_Some (accounts (db s) !! p_id p)) (participants (db s)).
Proof.
  split; [vm_compute; reflexivity|]. split; [vm_compute; reflexivity|].
  exact (proj1 (everyone_has_an_account digits_only demo_settings demo_db asks demo_config_ok (proj1 demo_sound) (proj2 demo_sound))).
Defined.

(** A price past any market's: the amount needs more than 64 bits. *)
Example too_large_to_write :
  place default_config 1 (lit "client-03") (lit "005930") (lit "buy") 1000 (10 ^ 17) (lit "3.0") (lit "3.5") demo_db = Err OverflowError.
Proof. by vm_compute. Qed.

(** An operator logs in over a ledger that was halted and whose books are in order. *)
Definition operator : Service :=
  (play (start (halt (lit "cash_mismatch") demo_db))
     [AdminLoginBegin true password (at_ 10); ThreadEnd 0 [] (lit "adm") (at_ 11)]).1.

Lemma resume_only_when_clean_witness :
  let e := AdminResume true (lit "contest_admin=adm") (at_ 12) in
  is_halted (db operator) = true /\
  exists cookies now, e = AdminResume true cookies now /\ (is_admin cookies now operator).2 = true /\
    found (db operator) = Some [].
Proof.
  split; [vm_compute; reflexivity|].
  refine (resume_only_when_clean digits_only demo_settings operator (AdminResume true (lit "contest_admin=adm") (at_ 12)) _ _);
    vm_compute; reflexivity.
Defined.

(** Anybody can lock a participant out: five wrong passwords for a nickname, from no
    session at all, and the right one is not looked at. *)
Example stranger_locks_account :
  let wrong k := [LoginBegin true (lit "kim") (lit "no") (at_ k); ThreadEnd (Z.to_nat k) [] (lit "tok") (at_ k)] in
  let s := (play (start demo_db) (wrong 0 ++ wrong 1 ++ wrong 2 ++ wrong 3 ++ wrong 4)).1 in
  (step digits_only demo_settings s (LoginBegin true (lit "kim") password (at_ 5))).2 = Locked 59.
Proof. by vm_compute. Qed.

(** A nickname may end in a line break, so it can look like another's. *)
Example nickname_line_break : NICK_RE (lit "kim" ++ [10]) = true.
Proof. done. Qed.

(** At 15:35 orders are still taken. *)
Example orders_after_1530 :
  trading_state demo_settings (mkNow (of_int 0) (of_int 0) ((4 * 86400 + 56100) * 1000000) (lit "19700105") [] []) demo_db = None.
Proof. by vm_compute. Qed.
End ContestService.
