(* ===== verification/Polling.v ===== *)
(** * The polling adapters (src/src/mdfeed/adapters/kis_rest.py, kis_macro.py)

    The stock poller runs two loops over one rate limiter and one memory of accumulated
    volumes: the rankings, and the universe one code at a time.  A session starts both with
    [asyncio.gather], which hands on the first exception and lets the other loop run on;
    so the state holds every loop that runs, and a loop goes from one await to the next in
    one step.  The macro poller publishes indices and rates that have changed.

    The replies of the exchange and the clocks are in the events. *)

From S2P Require Import Prelude PyStr PyFloat Dict Json PyInt Models JsonValue Exchanges.

Module Polling.
Import Models.Models JsonValue.JsonValue.

Definition zero : float := of_int 0.

(** ** The rate limiter *)

Record Limiter := mkLimiter
  { base_interval : float; min_interval : float; interval : float; max_interval : float; next : float;
    ok_streak : Z; backoffs : Z; attempts : Z }.

(** [max] of Python takes the first of equals. *)
Definition new_limiter (per_second max_int : float) (max_per_second : option float) : Limiter :=
  let top := match max_per_second with Some m => if truthy m then m else per_second | None => per_second end in
  let base := fdiv (of_int 1) per_second in
  mkLimiter base (fdiv (of_int 1) (fmax top per_second)) base max_int zero 0 0 0.
Definition MAX_INTERVAL : float := of_int 2.

(** [acquire] up to its sleep: how long it sleeps, none when the slot is there. *)
Definition acquire_wait (now : float) (l : Limiter) : option float :=
  let wait := fsub (next l) now in if fgt wait zero then Some wait else None.
(** The rest, at the clock read last. *)
Definition acquire (now : float) (l : Limiter) : Limiter :=
  mkLimiter (base_interval l) (min_interval l) (interval l) (max_interval l) (fadd (fmax now (next l)) (interval l))
    (ok_streak l) (backoffs l) (attempts l).

Definition on_success (l : Limiter) : Limiter :=
  let n := ok_streak l + 1 in
  let '(i, n) :=
    if (8 <=? n) && fgt (interval l) (min_interval l)
    then (fmax (min_interval l) (fmul (interval l) (int_div 9 10)), 0) else (interval l, n) in
  mkLimiter (base_interval l) (min_interval l) i (max_interval l) (next l) n (backoffs l) (attempts l + 1).

Definition on_rate_limited (now : float) (l : Limiter) : Limiter :=
  let i := fmin (max_interval l) (fmul (interval l) (int_div 23 20)) in
  mkLimiter (base_interval l) (min_interval l) i (max_interval l) (fmax (next l) (fadd now i)) 0 (backoffs l + 1)
    (attempts l + 1).

Definition current_rate (l : Limiter) : float := fdiv (of_int 1) (interval l).
Definition reject_pct (l : Limiter) : float :=
  if attempts l =? 0 then zero else fmul (int_div (backoffs l) (attempts l)) (of_int 100).

(** ** Replies *)

(** The text of a reply; the text of an error reply, none when it cannot be read; or a
    failed exchange. *)
Inductive Http := Replied (body : pystr) | HttpError (code : Z) (body : option pystr) | NoReply.

(** What ends a loop. *)
Inductive Ended := Raised.
Abbreviation LR A := (result Ended A) (only parsing).
Definition or_ends {A} (r : PR A) : LR A := match r with Ok a => Ok a | Err _ => Err Raised end.

(** [msg_cd] is set by the stock poller only; nothing reads it. *)
Definition http_failure (code : Z) : value := VObj [(lit "rt_cd", VStr (str_int code)); (lit "msg_cd", VStr (lit "HTTP"))].
Definition fetch (h : Http) : LR value :=
  match h with
  | Replied body => match loads body with Ok d => Ok d | Err _ => Err Raised end
  | HttpError code body =>
      match body with
      | Some t => match loads t with Ok d => Ok d | Err _ => Ok (http_failure code) end
      | None => Ok (http_failure code)
      end
  | NoReply => Err Raised
  end.

Inductive Verdict := TooFast | Refused | Accepted.
Definition verdict (d : value) : LR Verdict :=
  let! code := or_ends (vget (lit "msg_cd") d) in
  if vis code (lit "EGW00201") then Ok TooFast
  else
    let! rt := or_ends (vget (lit "rt_cd") d) in
    Ok (if vis rt (lit "0") then Accepted else Refused).

(** What [for] runs over, when it is anything at all. *)
Definition iterated (v : value) : LR (list value) :=
  match v with
  | VList l => Ok l
  | VObj o => Ok ((fun kv => VStr kv.1) <$> o)
  | VStr s => Ok ((fun c => VStr [c]) <$> s)
  | _ => if vtrue v then Err Raised else Ok []
  end.

(** ** The stock poller *)

(** A ranking loop with its turn; a sweep with its index and the code it has asked for. *)
Inductive Loop := Ranking (i : nat) | Sweep (idx : nat) (asked : option pystr).

(** [session]: the loops of the [gather] that is awaited now. *)
Record Poller := mkPoller
  { universe : list pystr; limiter : Limiter; last_vol : list (pystr * float); symbols_seen : list pystr;
    rank_calls : Z; poll_calls : Z; rate_limited : Z; errors : Z; sweep_laps : Z; lap_started : float; last_lap_s : float;
    loops : list (nat * Loop); session : option (nat * nat); started : nat }.

Definition new_poller (codes : list pystr) (per_second : float) (max_per_second : option float) : Poller :=
  mkPoller codes (new_limiter per_second MAX_INTERVAL max_per_second) [] [] 0 0 0 0 0 zero zero [] None 0.

Definition set_limiter (l : Limiter) (p : Poller) : Poller :=
  mkPoller (universe p) l (last_vol p) (symbols_seen p) (rank_calls p) (poll_calls p) (rate_limited p) (errors p)
    (sweep_laps p) (lap_started p) (last_lap_s p) (loops p) (session p) (started p).
Definition set_memory (vs : list (pystr * float)) (seen : list pystr) (p : Poller) : Poller :=
  mkPoller (universe p) (limiter p) vs seen (rank_calls p) (poll_calls p) (rate_limited p) (errors p)
    (sweep_laps p) (lap_started p) (last_lap_s p) (loops p) (session p) (started p).
Definition count_calls (ranks polls limited errs : Z) (p : Poller) : Poller :=
  mkPoller (universe p) (limiter p) (last_vol p) (symbols_seen p) (rank_calls p + ranks) (poll_calls p + polls)
    (rate_limited p + limited) (errors p + errs) (sweep_laps p) (lap_started p) (last_lap_s p) (loops p) (session p) (started p).
Definition set_laps (laps : Z) (began last : float) (p : Poller) : Poller :=
  mkPoller (universe p) (limiter p) (last_vol p) (symbols_seen p) (rank_calls p) (poll_calls p) (rate_limited p) (errors p)
    laps began last (loops p) (session p) (started p).
Definition set_loops (ls : list (nat * Loop)) (s : option (nat * nat)) (n : nat) (p : Poller) : Poller :=
  mkPoller (universe p) (limiter p) (last_vol p) (symbols_seen p) (rank_calls p) (poll_calls p) (rate_limited p) (errors p)
    (sweep_laps p) (lap_started p) (last_lap_s p) ls s n.

Section polling.
Variable decimal : Z -> option Z.

(** The end of [_call]: [None] when there is nothing to read. *)
Definition answered (h : Http) (mono : float) (p : Poller) : Poller * LR (option value) :=
  match (let! d := fetch h in let! v := verdict d in Ok (d, v)) with
  | Err e => (p, Err e)
  | Ok (d, TooFast) => (count_calls 0 0 1 0 (set_limiter (on_rate_limited mono (limiter p)) p), Ok None)
  | Ok (d, Refused) => (count_calls 0 0 0 1 p, Ok None)
  | Ok (d, Accepted) => (set_limiter (on_success (limiter p)) p, Ok (Some d))
  end.

Definition add_seen (code : pystr) (seen : list pystr) : list pystr := if bool_decide (code ∈ seen) then seen else seen ++ [code].

Definition synthetic (code : pystr) (price qty : float) (ts : Z) : Trade :=
  mkTrade (lit "KRX") code ts ts price qty SIDE_UNKNOWN.

(** [_publish_quote]: the volume that came on top since the last look. *)
Definition publish_quote (code : pystr) (price acc_vol : float) (ts : Z) (p : Poller) : Poller * list Trade :=
  if fle price zero then (p, [])
  else
    let prev := dget code (last_vol p) in
    (set_memory (dset code acc_vol (last_vol p)) (add_seen code (symbols_seen p)) p,
     match prev with
     | None => []
     | Some v => if fle acc_vol v then [] else [synthetic code price (fsub acc_vol v) ts]
     end).

(** [float(r.get(key) or 0)]: an error the loop skips the row for is [None]. *)
Definition number_at (key : pystr) (o : value) : LR (option float) :=
  let! v := or_ends (vget key o) in
  match vfloat decimal (vor v (VInt 0)) with
  | Ok x => Ok (Some x)
  | Err TypeError | Err ValueError => Ok None
  | Err _ => Err Raised
  end.

(** A row of a ranking: the code, price and volume to publish.  A code that is no text is
    taken to end the loop: a list does at once, a number at the first trade it makes. *)
Definition rank_row (r : value) : LR (option (pystr * float * float)) :=
  match r with
  | VObj _ =>
      let! a := or_ends (vget (lit "mksc_shrn_iscd") r) in
      let! b := or_ends (vget (lit "stck_shrn_iscd") r) in
      let code := vor a b in
      let! px := number_at (lit "stck_prpr") r in
      match px with
      | None => Ok None
      | Some px =>
          let! vol := number_at (lit "acml_vol") r in
          match vol with
          | None => Ok None
          | Some vol =>
              if negb (vtrue code) then Ok None
              else match code with VStr c => Ok (Some (c, px, vol)) | _ => Err Raised end
          end
      end
  | _ => Ok None
  end.

(** The rows up to one that ends the loop. *)
Fixpoint publish_rows (rs : list value) (ts : Z) (p : Poller) : Poller * list Trade * LR unit :=
  match rs with
  | [] => (p, [], Ok tt)
  | r :: rs =>
      match rank_row r with
      | Err e => (p, [], Err e)
      | Ok None => publish_rows rs ts p
      | Ok (Some (code, px, vol)) =>
          let '(p, t) := publish_quote code px vol ts p in
          let '(p, t', e) := publish_rows rs ts p in (p, t ++ t', e)
      end
  end.

(** [d.get("output") or d.get("output1") or []] *)
Definition rank_rows (d : value) : LR (list value) :=
  let! a := or_ends (vget (lit "output") d) in
  let! b := or_ends (vget (lit "output1") d) in
  iterated (vor (vor a b) (VList [])).

(** The ranking loop from its reply to its sleep. *)
Definition rank_reply (h : Http) (mono : float) (ts : Z) (p : Poller) : Poller * list Trade * LR unit :=
  match answered h mono p with
  | (p, Err e) => (p, [], Err e)
  | (p, Ok None) => (p, [], Ok tt)
  | (p, Ok (Some d)) =>
      if vtrue d then
        let p := count_calls 1 0 0 0 p in
        match rank_rows d with Err e => (p, [], Err e) | Ok rs => publish_rows rs ts p end
      else (p, [], Ok tt)
  end.

(** The sweep from one turn to the call: the code it asks for, none with no universe. *)
Definition sweep_turn (idx : nat) (wall : float) (p : Poller) : Poller * nat * option pystr :=
  match universe p with
  | [] => (p, idx, None)
  | us =>
      let code := us !! (idx mod length us)%nat in
      let idx := S idx in
      let p :=
        if (idx mod length us =? 0)%nat
        then set_laps (sweep_laps p + 1) wall (if truthy (lap_started p) then fsub wall (lap_started p) else last_lap_s p) p
        else p in
      (p, idx, code)
  end.

Definition sweep_reply (code : pystr) (h : Http) (mono : float) (ts : Z) (p : Poller) : Poller * list Trade * LR unit :=
  match answered h mono p with
  | (p, Err e) => (p, [], Err e)
  | (p, Ok None) => (p, [], Ok tt)
  | (p, Ok (Some d)) =>
      if vtrue d then
        let p := count_calls 0 1 0 0 p in
        match (let! o := or_ends (vget (lit "output") d) in
               let o := vor o (VObj []) in
               let! px := number_at (lit "stck_prpr") o in
               match px with
               | None => Ok None
               | Some px => let! vol := number_at (lit "acml_vol") o in
                            Ok (match vol with Some vol => Some (px, vol) | None => None end)
               end) with
        | Err e => (p, [], Err e)
        | Ok None => (p, [], Ok tt)
        | Ok (Some (px, vol)) => let '(p, t) := publish_quote code px vol ts p in (p, t, Ok tt)
        end
      else (p, [], Ok tt)
  end.

(** ** Sessions *)

(** A session begins; the awaited one is cancelled from outside, which cancels its two
    loops; a loop has its slot of the limiter; a sweep picks its next code; a loop's call
    is answered. *)
Inductive Event :=
| SessionBegins
| SessionCancelled
| Slot (now : float)
| Turn (id : nat) (wall : float)
| Reply (id : nat) (h : Http) (mono : float) (ts : Z).

Definition end_loop (id : nat) (p : Poller) : Poller :=
  set_loops (ddel id (loops p))
    (match session p with Some (a, b) => if (id =? a)%nat || (id =? b)%nat then None else session p | None => None end) (started p) p.
Definition keep_loop (id : nat) (l : Loop) (p : Poller) : Poller := set_loops (dset id l (loops p)) (session p) (started p) p.

(** What a loop's exception does: the loop is over, and so is the session when the loop is
    one of the two it awaits; the other loop goes on. *)
Definition settle (id : nat) (l : Loop) (r : Poller * list Trade * LR unit) : Poller * list Trade :=
  let '(p, t, e) := r in
  (match e with Ok _ => keep_loop id l p | Err _ => end_loop id p end, t).

Definition step (p : Poller) (e : Event) : Poller * list Trade :=
  match e with
  | SessionBegins =>
      match session p with
      | Some _ => (p, [])
      | None =>
          let n := started p in
          (set_loops (loops p ++ [(n, Ranking 0); (S n, Sweep 0 None)]) (Some (n, S n)) (S (S n)) p, [])
      end
  | SessionCancelled =>
      (match session p with Some (a, b) => set_loops (ddel a (ddel b (loops p))) None (started p) p | None => p end, [])
  | Slot now => (set_limiter (acquire now (limiter p)) p, [])
  | Turn id wall =>
      match dget id (loops p) with
      | Some (Sweep idx None) => let '(p, idx, code) := sweep_turn idx wall p in (keep_loop id (Sweep idx code) p, [])
      | _ => (p, [])
      end
  | Reply id h mono ts =>
      match dget id (loops p) with
      | Some (Ranking i) => settle id (Ranking (S i)) (rank_reply h mono ts p)
      | Some (Sweep idx (Some code)) => settle id (Sweep idx None) (sweep_reply code h mono ts p)
      | _ => (p, [])
      end
  end.

Definition trace_step (st : Poller * list Trade) (e : Event) : Poller * list Trade :=
  let '(p, t) := step st.1 e in (p, st.2 ++ t).
Definition run (p : Poller) (es : list Event) : Poller * list Trade := foldl trace_step (p, []) es.

(** ** The macro poller *)

Record Macro := mkMacro
  { m_limiter : Limiter; m_last : list (pystr * float); m_limited : Z; m_errors : Z; index_rows : Z; rate_rows : Z;
    rate2_total : Z; rate2_corrupt : Z; rate2_parsed : Z; holidays : list (pystr * bool) }.
Definition new_macro (per_second : float) : Macro := mkMacro (new_limiter per_second MAX_INTERVAL None) [] 0 0 0 0 0 0 0 [].

Definition is_hangul (c : Z) : bool := (0xac00 <=? c) && (c <=? 0xd7a3).
Definition is_name (v : value) : bool := match v with VStr s => existsb is_hangul s | _ => false end.
(** [float(str(v).strip())], [None] on the errors it expects. *)
Definition as_float (v : value) : option float :=
  match v with
  | VStr s => py_float decimal (strip s)
  | VInt z => Some (of_int z)
  | VFloat x => Some x
  | _ => None
  end.

(** The first name that has a rate in one of the two fields after it. *)
Definition rate_of (v : value) : option float :=
  x ← as_float v; if flt zero x && flt x (of_int 100) then Some x else None.
Fixpoint rate_pair (vals : list value) : option (pystr * float) :=
  match vals with
  | [] => None
  | v :: vs =>
      match v with
      | VStr s =>
          if existsb is_hangul s then
            match omap rate_of (take 2 vs) with x :: _ => Some (strip s, x) | [] => rate_pair vs end
          else rate_pair vs
      | _ => rate_pair vs
      end
  end.
Definition row_pair (r : value) : option (pystr * float) := match r with VObj o => rate_pair o.*2 | _ => None end.
Definition parse_rate_rows (rows : list value) : list (pystr * float) * Z :=
  (omap row_pair rows, zlen (List.filter (fun r => match row_pair r with Some _ => false | None => true end) rows)).

(** [_emit_value]: only what has changed. *)
Definition emit_value (venue symbol : pystr) (v : float) (ts : Z) (m : Macro) : Macro * list Trade :=
  let key := venue ++ [58] ++ symbol in
  if match dget key (m_last m) with Some x => feq x v | None => false end then (m, [])
  else (mkMacro (m_limiter m) (dset key v (m_last m)) (m_limited m) (m_errors m) (index_rows m) (rate_rows m)
          (rate2_total m) (rate2_corrupt m) (rate2_parsed m) (holidays m), [mkTrade venue symbol ts ts v zero SIDE_UNKNOWN]).

Definition set_m_limiter (l : Limiter) (limited errs : Z) (m : Macro) : Macro :=
  mkMacro l (m_last m) (m_limited m + limited) (m_errors m + errs) (index_rows m) (rate_rows m) (rate2_total m)
    (rate2_corrupt m) (rate2_parsed m) (holidays m).
Definition m_answered (h : Http) (mono : float) (m : Macro) : Macro * LR (option value) :=
  match (let! d := fetch h in let! v := verdict d in Ok (d, v)) with
  | Err e => (m, Err e)
  | Ok (d, TooFast) => (set_m_limiter (on_rate_limited mono (m_limiter m)) 1 0 m, Ok None)
  | Ok (d, Refused) => (set_m_limiter (m_limiter m) 0 1 m, Ok None)
  | Ok (d, Accepted) => (set_m_limiter (on_success (m_limiter m)) 0 0 m, Ok (Some d))
  end.

Definition count_rows (i r t c p : Z) (m : Macro) : Macro :=
  mkMacro (m_limiter m) (m_last m) (m_limited m) (m_errors m) (index_rows m + i) (rate_rows m + r) (rate2_total m + t)
    (rate2_corrupt m + c) (rate2_parsed m + p) (holidays m).
Definition set_holidays (hs : list (pystr * bool)) (m : Macro) : Macro :=
  mkMacro (m_limiter m) (m_last m) (m_limited m) (m_errors m) (index_rows m) (rate_rows m) (rate2_total m)
    (rate2_corrupt m) (rate2_parsed m) hs.

(** A reply to the question for an index. *)
Definition index_reply (label : pystr) (d : value) (ts : Z) (m : Macro) : Macro * list Trade * LR unit :=
  match (let! o := or_ends (vget (lit "output") d) in or_ends (vget (lit "bstp_nmix_prpr") (vor o (VObj [])))) with
  | Err e => (m, [], Err e)
  | Ok v =>
      match as_float v with
      | Some x => if truthy x && fgt x zero
                  then let '(m, t) := emit_value (lit "KRX-IDX") label x ts (count_rows 1 0 0 0 0 m) in (m, t, Ok tt)
                  else (m, [], Ok tt)
      | None => (m, [], Ok tt)
      end
  end.

(** The foreign rates; a row that is no object, or whose name is no text, ends the loop. *)
Fixpoint publish_rates (rs : list value) (ts : Z) (m : Macro) : Macro * list Trade * LR unit :=
  match rs with
  | [] => (m, [], Ok tt)
  | r :: rs =>
      match (let! n := or_ends (vget (lit "hts_kor_isnm") r) in
             let! name := match vor n (VStr []) with VStr s => Ok (strip s) | _ => Err Raised end in
             let! v := or_ends (vget (lit "bond_mnrt_prpr") r) in Ok (name, as_float v)) with
      | Err e => (m, [], Err e)
      | Ok (name, Some x) =>
          if bool_decide (name = []) then publish_rates rs ts m
          else
            let '(m, t) := emit_value (lit "RATE") name x ts (count_rows 0 1 0 0 0 m) in
            let '(m, t', e) := publish_rates rs ts m in (m, t ++ t', e)
      | Ok (_, None) => publish_rates rs ts m
      end
  end.

(** [len] of the domestic rates, which are counted only; a reply that is no list is taken
    for an error. *)
Definition rates_reply (d : value) (ts : Z) (m : Macro) : Macro * list Trade * LR unit :=
  match (let! a := or_ends (vget (lit "output1") d) in iterated (vor a (VList []))) with
  | Err e => (m, [], Err e)
  | Ok rs =>
      match publish_rates rs ts m with
      | (m, t, Err e) => (m, t, Err e)
      | (m, t, Ok _) =>
          match (let! b := or_ends (vget (lit "output2") d) in iterated (vor b (VList []))) with
          | Err e => (m, t, Err e)
          | Ok rows => let '(pairs, failed) := parse_rate_rows rows in
                       (count_rows 0 0 (zlen rows) failed (zlen pairs) m, t, Ok tt)
          end
      end
  end.

(** The calendar: a date and whether the market opens on it.  Dates are texts. *)
Definition holiday_row (r : value) : LR (option (pystr * bool)) :=
  let! day := or_ends (vget (lit "bass_dt") r) in
  if negb (vtrue day) then Ok None
  else
    let! yn := or_ends (vget (lit "opnd_yn") r) in
    match day with VStr s => Ok (Some (s, vis yn (lit "Y"))) | _ => Err Raised end.
Fixpoint calendar (rs : list value) (cal : list (pystr * bool)) : LR (list (pystr * bool)) :=
  match rs with
  | [] => Ok cal
  | r :: rs => let! x := holiday_row r in calendar rs (match x with Some (k, v) => dset k v cal | None => cal end)
  end.
Definition holidays_reply (d : value) (m : Macro) : Macro * LR unit :=
  match (let! o := or_ends (vget (lit "output") d) in let! rs := iterated (vor o (VList [])) in calendar rs []) with
  | Err e => (m, Err e)
  | Ok [] => (m, Ok tt)
  | Ok cal => (set_holidays cal m, Ok tt)
  end.

Inductive Question := Index (label : pystr) | Rates | Holidays.
(** A loop from its reply to its sleep. *)
Definition macro_reply (q : Question) (h : Http) (mono : float) (ts : Z) (m : Macro) : Macro * list Trade * LR unit :=
  match m_answered h mono m with
  | (m, Err e) => (m, [], Err e)
  | (m, Ok None) => (m, [], Ok tt)
  | (m, Ok (Some d)) =>
      if negb (vtrue d) then (m, [], Ok tt)
      else match q with
           | Index label => index_reply label d ts m
           | Rates => rates_reply d ts m
           | Holidays => let '(m, e) := holidays_reply d m in (m, [], e)
           end
  end.
Definition macro_run (m : Macro) (rs : list (Question * Http * float * Z)) : Macro * list Trade :=
  foldl (fun st r => let '(q, h, mono, ts) := r in let '(m, t, _) := macro_reply q h mono ts st.1 in (m, st.2 ++ t)) (m, []) rs.

(** The market's hours, and the calendar where it knows the day. *)
Definition is_market_open (today : pystr) (kst_us : Z) (m : Macro) : bool :=
  match dget today (holidays m) with Some false => false | _ => Exchanges.Exchanges.market_is_open kst_us end.
End polling.

(** ** The sweep reaches every code *)

Lemma mods_perm {A} (us : list A) k :
  ((fun i => us !! (i mod length us)%nat) <$> seq k (length us)) ≡ₚ Some <$> us.
Proof.
  destruct (decide (us = [])) as [->|Hn]; [done|]. assert (length us <> 0%nat) as H0 by (by destruct us).
  assert ((fun i => us !! (i mod length us)%nat) <$> seq k (length us) =
    Some <$> (drop (k mod length us) us ++ take (k mod length us) us)) as ->; [|by rewrite Permutation_app_comm, take_drop].
  pose proof (Nat.mod_upper_bound k _ H0) as Hk. set (r := (k mod length us)%nat) in *.
  apply list_eq. intros j. rewrite !list_lookup_fmap.
  destruct (decide (j < length us)%nat) as [Hj|Hj].
  - rewrite lookup_seq_lt by done. cbn [fmap option_fmap option_map]. rewrite Nat.Div0.add_mod. fold r. rewrite (Nat.mod_small j) by done.
    destruct (decide (r + j < length us)%nat) as [Hl|Hl].
    + rewrite Nat.mod_small by done. rewrite lookup_app_l by (rewrite length_drop; lia). rewrite lookup_drop.
      destruct (lookup_lt_is_Some_2 us (r + j) Hl) as [x ->]. done.
    + assert ((r + j) mod length us = r + j - length us)%nat as ->.
      { replace (r + j)%nat with ((r + j - length us) + 1 * length us)%nat at 1 by lia. rewrite Nat.Div0.mod_add, Nat.mod_small by lia. done. }
      rewrite lookup_app_r by (rewrite length_drop; lia). rewrite length_drop, lookup_take_lt by lia.
      replace (j - (length us - r))%nat with (r + j - length us)%nat by lia.
      destruct (lookup_lt_is_Some_2 us (r + j - length us)) as [x ->]; [lia|done].
  - rewrite lookup_seq_ge by lia. rewrite (lookup_ge_None_2 (_ ++ _)); [done|]. rewrite length_app, length_drop, length_take. lia.
Qed.

(** Turns of one sweep, the codes they ask for. *)
Fixpoint asked (n : nat) (idx : nat) (p : Poller) : Poller * nat * list (option pystr) :=
  match n with
  | 0%nat => (p, idx, [])
  | S n => let '(p, idx, c) := sweep_turn idx zero p in let '(p, idx, cs) := asked n idx p in (p, idx, c :: cs)
  end.

(** Any lap of a sweep, from whatever index, asks for each code of the universe exactly
    once. *)
Theorem sweep_asks_all p idx : (asked (length (universe p)) idx p).2 ≡ₚ Some <$> universe p.
Proof.
  assert (forall n idx p, (asked n idx p).2 = (fun i => universe p !! (i mod length (universe p))%nat) <$> seq idx n) as H.
  { induction n as [|n IH]; intros i q; [done|]. cbn [asked]. destruct (sweep_turn i zero q) as [[q' i'] c] eqn:E.
    assert (i' = S i \/ universe q = []) as Hi.
    { unfold sweep_turn in E. destruct (universe q) as [|u us]; [by right|]. injection E as _ <- _. by left. }
    assert (c = universe q !! (i mod length (universe q))%nat /\ universe q' = universe q) as [-> Hu].
    { unfold sweep_turn in E. destruct (universe q) as [|u us] eqn:Eu; [by injection E as <- _ <-|].
      injection E as <- _ <-. split; [done|]. by case_match. }
    specialize (IH i' q'). destruct (asked n i' q') as [[q2 i2] cs]. cbn [snd] in *. rewrite IH, Hu. cbn [seq fmap list_fmap].
    f_equal. destruct Hi as [-> | ->]; [done|]. apply list_eq. intros j. rewrite !list_lookup_fmap.
    destruct (decide (j < n)%nat); [by rewrite !lookup_seq_lt by done|by rewrite !lookup_seq_ge by lia]. }
  rewrite H. apply mods_perm.
Qed.

(** ** What the looks at a code make of it *)

(** A price and an accumulated volume that a reply gives for a code. *)
Record Look := mkLook { l_code : pystr; l_px : float; l_vol : float; l_ts : Z }.

(** Publishing a look, as far as the memory of volumes goes. *)
Definition publish (vs : list (pystr * float)) (l : Look) : list (pystr * float) * list Trade :=
  if fle (l_px l) zero then (vs, [])
  else (dset (l_code l) (l_vol l) vs,
        match dget (l_code l) vs with
        | None => []
        | Some v => if fle (l_vol l) v then [] else [synthetic (l_code l) (l_px l) (fsub (l_vol l) v) (l_ts l)]
        end).
Fixpoint publish_all (vs : list (pystr * float)) (ls : list Look) : list (pystr * float) * list Trade :=
  match ls with
  | [] => (vs, [])
  | l :: ls => let '(vs, t) := publish vs l in let '(vs, t') := publish_all vs ls in (vs, t ++ t')
  end.

(** One code's looks: a trade for every rise over the look before, none for the first. *)
Fixpoint rises (prev : option float) (ls : list Look) : list Trade :=
  match ls with
  | [] => []
  | l :: ls =>
      if fle (l_px l) zero then rises prev ls
      else match prev with
           | None => []
           | Some v => if fle (l_vol l) v then [] else [synthetic (l_code l) (l_px l) (fsub (l_vol l) v) (l_ts l)]
           end ++ rises (Some (l_vol l)) ls
  end.

Section looks.
Variable decimal : Z -> option Z.

Fixpoint row_looks (rs : list value) (ts : Z) : list Look :=
  match rs with
  | [] => []
  | r :: rs =>
      match rank_row decimal r with
      | Err _ => []
      | Ok None => row_looks rs ts
      | Ok (Some (code, px, vol)) => mkLook code px vol ts :: row_looks rs ts
      end
  end.

Definition quote_looks (code : pystr) (d : value) (ts : Z) : list Look :=
  match vget (lit "output") d with
  | Ok o =>
      match number_at decimal (lit "stck_prpr") (vor o (VObj [])), number_at decimal (lit "acml_vol") (vor o (VObj [])) with
      | Ok (Some px), Ok (Some vol) => [mkLook code px vol ts]
      | _, _ => []
      end
  | Err _ => []
  end.

(** What a reply to a loop gives. *)
Definition reply_looks (l : Loop) (h : Http) (ts : Z) : list Look :=
  match fetch h with
  | Ok d =>
      match verdict d with
      | Ok Accepted =>
          if vtrue d then
            match l with
            | Ranking _ => match rank_rows d with Ok rs => row_looks rs ts | Err _ => [] end
            | Sweep _ (Some code) => quote_looks code d ts
            | Sweep _ None => []
            end
          else []
      | _ => []
      end
  | Err _ => []
  end.
Definition looks (p : Poller) (e : Event) : list Look :=
  match e with
  | Reply id h _ ts => match dget id (loops p) with Some l => reply_looks l h ts | None => [] end
  | _ => []
  end.
Fixpoint looks_run (p : Poller) (es : list Event) : list Look :=
  match es with [] => [] | e :: es => looks p e ++ looks_run (step decimal p e).1 es end.

Lemma publish_quote_look code px vol ts p : let '(p', t) := publish_quote code px vol ts p in
  publish (last_vol p) (mkLook code px vol ts) = (last_vol p', t).
Proof. unfold publish_quote, publish. cbn [l_code l_px l_vol l_ts]. by destruct (fle px zero). Qed.

Lemma publish_rows_looks rs ts : forall p, let '(p', t, _) := publish_rows decimal rs ts p in
  publish_all (last_vol p) (row_looks rs ts) = (last_vol p', t).
Proof.
  induction rs as [|r rs IH]; intros p; [done|]. cbn [publish_rows row_looks].
  destruct (rank_row decimal r) as [[[[code px] vol]|]|]; [|apply IH|done]. cbn [publish_all].
  pose proof (publish_quote_look code px vol ts p) as H. destruct (publish_quote code px vol ts p) as [p1 t1]. rewrite H.
  specialize (IH p1). destruct (publish_rows decimal rs ts p1) as [[p2 t2] e]. by rewrite IH.
Qed.

(** Counting and pacing leave the memory alone. *)
Lemma answered_memory h mono p : last_vol (answered h mono p).1 = last_vol p.
Proof. unfold answered. by destruct (rbind _ _) as [[d []]|]. Qed.

Lemma answered_cases h mono p : match answered h mono p with
  | (_, Ok (Some d)) => fetch h = Ok d /\ verdict d = Ok Accepted
  | _ => match fetch h with Ok d => verdict d <> Ok Accepted | Err _ => True end
  end.
Proof.
  unfold answered. destruct (fetch h) as [d|]; [|done]. cbn [rbind]. destruct (verdict d) as [v|] eqn:E; [|done]. cbn [rbind].
  by destruct v.
Qed.

Lemma reply_looks_none l h ts : match fetch h with Ok d => verdict d <> Ok Accepted | Err _ => True end -> reply_looks l h ts = [].
Proof. unfold reply_looks. destruct (fetch h) as [d|]; [|done]. by destruct (verdict d) as [[]|]. Qed.

Lemma rank_reply_looks i h mono ts p : let '(p', t, _) := rank_reply decimal h mono ts p in
  publish_all (last_vol p) (reply_looks (Ranking i) h ts) = (last_vol p', t).
Proof.
  unfold rank_reply. pose proof (answered_memory h mono p) as Hm. pose proof (answered_cases h mono p) as Hc.
  destruct (answered h mono p) as [p1 [[d|]|e]]; cbn [fst] in Hm; try by rewrite (reply_looks_none _ _ _ Hc), Hm.
  destruct Hc as [Hf Hv]. unfold reply_looks. rewrite Hf, Hv. destruct (vtrue d); [|by rewrite Hm].
  destruct (rank_rows d) as [rs|]; [|cbn [last_vol count_calls]; by rewrite Hm].
  pose proof (publish_rows_looks rs ts (count_calls 1 0 0 0 p1)) as H. cbn [last_vol count_calls] in H. by rewrite <- Hm.
Qed.

Lemma sweep_reply_looks idx code h mono ts p : let '(p', t, _) := sweep_reply decimal code h mono ts p in
  publish_all (last_vol p) (reply_looks (Sweep idx (Some code)) h ts) = (last_vol p', t).
Proof.
  unfold sweep_reply. pose proof (answered_memory h mono p) as Hm. pose proof (answered_cases h mono p) as Hc.
  destruct (answered h mono p) as [p1 [[d|]|e]]; cbn [fst] in Hm; try by rewrite (reply_looks_none _ _ _ Hc), Hm.
  destruct Hc as [Hf Hv]. unfold reply_looks. rewrite Hf, Hv. destruct (vtrue d); [|by rewrite Hm].
  unfold quote_looks. cbn zeta. rewrite <- Hm. destruct (vget (lit "output") d) as [o|]; [|done]. cbn [or_ends rbind].
  destruct (number_at decimal (lit "stck_prpr") _) as [[px|]|]; try done. cbn [rbind].
  destruct (number_at decimal (lit "acml_vol") _) as [[vol|]|]; try done. cbn [rbind publish_all].
  pose proof (publish_quote_look code px vol ts (count_calls 0 1 0 0 p1)) as H. cbn [last_vol count_calls] in H.
  destruct (publish_quote _ _ _ _ _) as [p2 t2]. rewrite H. by rewrite app_nil_r.
Qed.

Lemma settle_memory id l r : let '(p', t) := settle id l r in last_vol p' = last_vol r.1.1 /\ t = r.1.2.
Proof. destruct r as [[p t] []]; done. Qed.

Lemma sweep_turn_memory idx wall p : last_vol (sweep_turn idx wall p).1.1 = last_vol p.
Proof. unfold sweep_turn. destruct (universe p); [done|]. cbn [fst]. by case_match. Qed.

Lemma step_looks p e : publish_all (last_vol p) (looks p e) = (last_vol (step decimal p e).1, (step decimal p e).2).
Proof.
  destruct e as [| |now|id wall|id h mono ts]; cbn [looks step].
  - by destruct (session p).
  - by destruct (session p) as [[]|].
  - done.
  - destruct (dget id (loops p)) as [[|idx [c|]]|]; try done. pose proof (sweep_turn_memory idx wall p) as H.
    destruct (sweep_turn idx wall p) as [[p' idx'] c]. cbn in *. by rewrite H.
  - destruct (dget id (loops p)) as [[i|idx [code|]]|]; [| | |done].
    + pose proof (rank_reply_looks i h mono ts p) as H. pose proof (settle_memory id (Ranking (S i)) (rank_reply decimal h mono ts p)) as Hs.
      destruct (rank_reply decimal h mono ts p) as [[p1 t1] e1]. destruct (settle _ _ _) as [p2 t2]. cbn in *. destruct Hs as [-> ->]. done.
    + pose proof (sweep_reply_looks idx code h mono ts p) as H. pose proof (settle_memory id (Sweep idx None) (sweep_reply decimal code h mono ts p)) as Hs.
      destruct (sweep_reply decimal code h mono ts p) as [[p1 t1] e1]. destruct (settle _ _ _) as [p2 t2]. cbn in *. destruct Hs as [-> ->]. done.
    + unfold reply_looks. destruct (fetch h); [|done]. destruct (verdict _) as [[]|]; try done. by case_match.
Qed.

Lemma publish_all_app vs ls ls' : publish_all vs (ls ++ ls') =
  (let '(vs1, t) := publish_all vs ls in let '(vs2, t') := publish_all vs1 ls' in (vs2, t ++ t')).
Proof.
  revert vs. induction ls as [|l ls IH]; intros vs; cbn [app publish_all]; [by destruct (publish_all vs ls')|].
  destruct (publish vs l) as [vs1 t1]. rewrite IH. destruct (publish_all vs1 ls) as [vs2 t2].
  destruct (publish_all vs2 ls') as [vs3 t3]. by rewrite app_assoc.
Qed.

Lemma run_cons p e es : run decimal p (e :: es) =
  ((run decimal (step decimal p e).1 es).1, (step decimal p e).2 ++ (run decimal (step decimal p e).1 es).2).
Proof.
  unfold run. cbn [foldl]. unfold trace_step at 2. cbn [fst snd app]. destruct (step decimal p e) as [p1 t1]. cbn [fst snd].
  assert (forall es p t, foldl (trace_step decimal) (p, t) es = ((foldl (trace_step decimal) (p, []) es).1, t ++ (foldl (trace_step decimal) (p, []) es).2)) as H.
  { clear. induction es as [|e es IH]; intros p t; [by cbn; rewrite app_nil_r|]. cbn [foldl]. unfold trace_step at 2 4 6. cbn [fst snd app].
    destruct (step decimal p e) as [p1 t1]. rewrite (IH p1 (t ++ t1)), (IH p1 t1). cbn [fst snd]. by rewrite app_assoc. }
  apply H.
Qed.

Lemma run_looks es : forall p, (run decimal p es).2 = (publish_all (last_vol p) (looks_run p es)).2.
Proof.
  induction es as [|e es IH]; intros p; [done|]. rewrite run_cons. cbn [snd looks_run]. rewrite publish_all_app, step_looks, IH.
  by destruct (publish_all _ (looks_run _ _)).
Qed.

Lemma publish_all_rises c ls : forall vs,
  filter (fun t => symbol t = c) (publish_all vs ls).2 = rises (dget c vs) (filter (fun l => l_code l = c) ls).
Proof.
  induction ls as [|l ls IH]; intros vs; [done|]. cbn [publish_all]. destruct (publish vs l) as [vs1 t] eqn:E.
  specialize (IH vs1). destruct (publish_all vs1 ls) as [vs2 t']. cbn [snd] in *. rewrite filter_app, IH, filter_cons.
  unfold publish in E. destruct (decide (l_code l = c)) as [<-|Hne].
  - cbn [rises]. destruct (fle (l_px l) zero); [by injection E as <- <-|]. injection E as <- <-. rewrite dget_dset_eq. f_equal.
    destruct (dget (l_code l) vs) as [v|]; [|done]. destruct (fle (l_vol l) v); [done|]. by rewrite filter_cons_True.
  - destruct (fle (l_px l) zero); injection E as <- <-; [done|]. rewrite dget_dset_ne by done.
    assert (filter (fun t => symbol t = c) (match dget (l_code l) vs with
      | Some v => if fle (l_vol l) v then [] else [synthetic (l_code l) (l_px l) (fsub (l_vol l) v) (l_ts l)] | None => [] end) = []) as ->; [|done].
    destruct (dget (l_code l) vs) as [v|]; [|done]. destruct (fle (l_vol l) v); [done|]. by rewrite filter_cons_False.
Qed.
End looks.

(** ** Properties *)

(** C40: Whatever loops run, of however many sessions, and however their replies come in,
    the trades a code is given are exactly the rises of its accumulated volume from one
    look with a price to the next, in order and with the difference for a quantity: none
    for the first look, none for a look without a rise, and none from another code's. *)
Theorem synthetic_trades decimal p es c :
  filter (fun t => symbol t = c) (run decimal p es).2 =
  rises (dget c (last_vol p)) (filter (fun l => l_code l = c) (looks_run decimal p es)).
Proof. rewrite run_looks. apply publish_all_rises. Qed.

(** ** Examples *)

Definition code_a : pystr := lit "005930".
Definition poller : Poller := new_poller [code_a; lit "000660"] (of_int 3) None.
Definition ranking (vol : string) : Http :=
  Replied (quoted ("{'rt_cd': '0', 'output': [{'mksc_shrn_iscd': '005930', 'stck_prpr': '70000', 'acml_vol': '" ++ vol ++ "'}]}")).
Definition quote (vol : string) : Http :=
  Replied (quoted ("{'rt_cd': '0', 'output': {'stck_prpr': '70000', 'acml_vol': '" ++ vol ++ "'}}")).

(** The first look makes no trade, the second one of the difference, whichever loop sees it. *)
Example two_loops :
  (run ascii_only poller
     [SessionBegins; Turn 1 (of_int 1); Reply 0 (ranking "100") (of_int 1) 5; Reply 1 (quote "120") (of_int 2) 6]).2 =
  [synthetic code_a (of_int 70000) (of_int 20) 6].
Proof. by vm_compute. Qed.

(** A look that is older than the one before is remembered as the latest: 100, 125, then a
    late 110 and 125 again make 40 shares of the 25 that were traded. *)
Example late_reply_counts_twice :
  qty <$> (run ascii_only poller
     [SessionBegins; Turn 1 (of_int 1); Reply 0 (ranking "100") (of_int 1) 5; Reply 0 (ranking "125") (of_int 2) 6;
      Reply 1 (quote "110") (of_int 3) 7; Reply 0 (ranking "125") (of_int 4) 8]).2 = [of_int 25; of_int 15].
Proof. by vm_compute. Qed.

(** A reply that is no JSON ends one loop and the session; the other loop is not awaited by
    anybody and runs on, beside those of every later session. *)
Example loops_pile_up :
  let bad id := Reply id (Replied (lit "<html>")) (of_int 1) 5 in
  let p := (run ascii_only poller [SessionBegins; bad 0%nat; SessionBegins; bad 2%nat; SessionBegins; bad 4%nat]).1 in
  loops p = [(1%nat, Sweep 0 None); (3%nat, Sweep 0 None); (5%nat, Sweep 0 None)] /\ session p = None.
Proof. by vm_compute. Qed.

(** With less than one request in two seconds configured, the first refusal shortens the
    interval. *)
Example refusal_speeds_up :
  let l := new_limiter (int_div 2 5) MAX_INTERVAL None in flt (interval (on_rate_limited (of_int 0) l)) (interval l) = true.
Proof. by vm_compute. Qed.

(** Refusals slow down to the limit, and successes in a row come back to the start. *)
Example limiter_returns :
  let l := new_limiter (of_int 3) MAX_INTERVAL None in
  let slow := Nat.iter 20 (on_rate_limited (of_int 0)) l in
  interval slow = MAX_INTERVAL /\ interval (Nat.iter 160 on_success slow) = interval l /\ backoffs slow = 20.
Proof. by vm_compute. Qed.

(** Rates: a repeated value is published once, a value that is no number every time. *)
Definition rates (v : string) : Http :=
  Replied (quoted ("{'rt_cd': '0', 'output1': [{'hts_kor_isnm': ' T-NOTE 10Y ', 'bond_mnrt_prpr': '" ++ v ++ "'}]}")).
Example rates_published :
  let ask v ts := (Rates, rates v, of_int 1, ts) in
  ts_event_ns <$> (macro_run ascii_only (new_macro (of_int 3)) [ask "4.25" 1; ask "4.250" 2; ask "4.5" 3; ask "nan" 4; ask "nan" 5]).2
  = [1; 3; 4; 5].
Proof. by vm_compute. Qed.

(** A name in the wrong field still finds its rate; a row without one is counted. *)
Example rate_rows_paired :
  parse_rate_rows ascii_only
    [VObj [(lit "a", VStr (lit "Y0101")); (lit "b", VStr [0xad6d; 0xace0; 32]); (lit "c", VStr (lit "4.5950"))]; VStr (lit "x")]
  = ([([0xad6d; 0xace0], int_div 919 200)], 1).
Proof. by vm_compute. Qed.

(** A known holiday is no trading day, a day the calendar does not know goes by the clock. *)
Example holiday_closed :
  let ask := (Holidays, Replied (quoted "{'rt_cd': '0', 'output': [{'bass_dt': '19700105', 'opnd_yn': 'N'}]}"), of_int 1, 1) in
  let m := (macro_run ascii_only (new_macro (of_int 3)) [ask]).1 in
  let ten := (4 * 86400 + 36000) * 1000000 in
  is_market_open (lit "19700105") ten m = false /\ is_market_open (lit "19700106") (ten + 86400000000) m = true.
Proof. by vm_compute. Qed.
End Polling.
