(* ===== verification/RestApi.v ===== *)
(** * The query service (src/src/mdfeed/services/rest_api.py)

    The handlers over the stored tables ([Writer.Db], [Sqlite]'s queries) and the gap
    records ([Gaps]), and the loop that counts the tables in the background.  A query runs
    in a worker thread: the handler begins, and it ends with what the store gives or with
    the query's failure; the clocks are arguments. *)

From S2P Require Import Prelude PyStr PyFloat Dict PyInt Writer Http Gaps Storage Sqlite.
From stdpp Require Import sorting.

#[local] Open Scope Z_scope.

Module RestApi.
Import Writer.Writer.

Definition SYMBOL_LIST_CAP : Z := 5000.
Definition DB_ERRORS_UNHEALTHY : Z := 20.

(** ** Queries the store answers for this service alone *)

Definition newer_trade (a b : TradeRow) : Prop := tr_ts b <= tr_ts a.
#[export] Instance newer_trade_dec a b : Decision (newer_trade a b) := ltac:(unfold newer_trade; apply _).
Definition newer_signal (a b : SignalRow) : Prop := sr_ts b <= sr_ts a.
#[export] Instance newer_signal_dec a b : Decision (newer_signal a b) := ltac:(unfold newer_signal; apply _).

(** [scan]: the order in which the rows are met, which decides between equal times. *)
Definition trades_of (venue symbol : pystr) (d : Db) : list TradeRow :=
  filter (fun r => tr_venue r = venue /\ tr_symbol r = symbol) (t_trades d).
Definition trades (scan : list TradeRow -> list TradeRow) (venue symbol : pystr) (limit : Z) (d : Db) : list TradeRow :=
  Sqlite.Sqlite.limit_rows limit (merge_sort newer_trade (scan (trades_of venue symbol d))).
Definition signals (scan : list SignalRow -> list SignalRow) (limit : Z) (d : Db) : list SignalRow :=
  Sqlite.Sqlite.limit_rows limit (merge_sort newer_signal (scan (t_signals d))).

(** ** The service *)

(** [counts]: what the background loop counted last, when, and how long it took;
    [counts_ready]: it has been round once. *)
Record Rest := mkRest
  { counts : option (list (Table * Z)); counts_at : float; counts_took : float; counts_ready : bool; db_errors : Z;
    gap_recovery_failures : Z }.
Definition new_rest : Rest := mkRest None (of_int 0) (of_int 0) false 0 0.
Definition count_error (s : Rest) : Rest :=
  mkRest (counts s) (counts_at s) (counts_took s) (counts_ready s) (db_errors s + 1) (gap_recovery_failures s).

Inductive Answer :=
| BarSymbols (items : list ((pystr * pystr) * (Z * Z)))
| SymbolList (limit : Z) (truncated : bool) (items : list (pystr * pystr * Z))
| Quotes (ts : float) (items : list ((pystr * pystr) * Latest))
| BarRows (venue symbol : pystr) (items : list BarRow)
| TradeRows (venue symbol : pystr) (items : list TradeRow)
| SignalRows (items : list SignalRow)
| Incomplete                                        (* 400 *)
| Pending                                           (* 503 *)
| Stats (counts : list (Table * Z)) (as_of age took_ms : float)
| GapNotFound (id : pystr)                          (* 404 *)
| GapStatus (s : Gaps.Gaps.Summary)
| ServerError.                                      (* the query's exception: 500 *)

Section rest.
Variable decimal : Z -> option Z.
Variable upper : pystr -> pystr.
Variable scan_trades : list TradeRow -> list TradeRow.
Variable scan_signals : list SignalRow -> list SignalRow.

(** [_q]: the query's result, or a failure that is counted and raised. *)
Definition q {A} (fails : bool) (rows : A) (k : A -> Answer) (s : Rest) : Rest * Answer :=
  if fails then (count_error s, ServerError) else (s, k rows).

Definition limit_of (r : Http.Http.Request) (default hi : Z) : Z := Http.Http.q_int decimal r (lit "limit") default 1 hi.
Definition param (r : Http.Http.Request) (key : pystr) : option pystr := dget key (Http.Http.query r).

Definition symbols (r : Http.Http.Request) (fails : bool) (d : Db) (s : Rest) : Rest * Answer :=
  if bool_decide (param r (lit "bars") ∈ [Some (lit "1"); Some (lit "true")]) then q fails (Sqlite.Sqlite.symbols d) BarSymbols s
  else
    let cap := limit_of r SYMBOL_LIST_CAP 50000 in
    q fails (Sqlite.Sqlite.latest upper cap None None d)
      (fun rows => SymbolList cap (cap <=? zlen rows) ((fun x => (x.1.1, x.1.2, la_ts x.2)) <$> rows)) s.

Definition quotes (r : Http.Http.Request) (now : float) (fails : bool) (d : Db) (s : Rest) : Rest * Answer :=
  q fails (Sqlite.Sqlite.latest upper (limit_of r 200 2000) (param r (lit "venue")) (param r (lit "symbol")) d) (Quotes now) s.

(** Both parameters, neither empty. *)
Definition instrument (r : Http.Http.Request) : option (pystr * pystr) :=
  match param r (lit "venue"), param r (lit "symbol") with
  | Some (v :: vs), Some (y :: ys) => Some (upper (v :: vs), y :: ys)
  | _, _ => None
  end.

(** Oldest first, for charts. *)
Definition bars (r : Http.Http.Request) (fails : bool) (d : Db) (s : Rest) : Rest * Answer :=
  match instrument r with
  | None => (s, Incomplete)
  | Some (v, y) => q fails (Sqlite.Sqlite.bars v y (limit_of r 200 5000) d) (fun rows => BarRows v y (rev rows)) s
  end.

Definition trades_h (r : Http.Http.Request) (fails : bool) (d : Db) (s : Rest) : Rest * Answer :=
  match instrument r with
  | None => (s, Incomplete)
  | Some (v, y) => q fails (trades scan_trades v y (limit_of r 100 2000) d) (TradeRows v y) s
  end.

Definition signals_h (r : Http.Http.Request) (fails : bool) (d : Db) (s : Rest) : Rest * Answer :=
  q fails (signals scan_signals (limit_of r 50 500) d) SignalRows s.

(** [stats], after its wait for the first count or for [stats_ttl_s]. *)
Definition stats (now : float) (s : Rest) : Answer :=
  match counts s with
  | None => Pending
  | Some c => Stats c (fround_to (counts_at s) 1) (fround_to (fsub now (counts_at s)) 1)
                (fround_to (fmul (counts_took s) (of_int 1000)) 1)
  end.

(** One round of the counting loop; [fails]: not even the failures could be counted. *)
Definition counts_round (fails : bool) (readable : Table -> bool) (took wall : float) (d : Db) (s : Rest) : Rest :=
  if fails then
    let s := count_error s in
    match counts s with
    | None => mkRest (Some []) wall took true (db_errors s) (gap_recovery_failures s)
    | Some c => mkRest (Some c) (counts_at s) took true (db_errors s) (gap_recovery_failures s)
    end
  else mkRest (Some (Sqlite.Sqlite.counts readable d)) wall took true (db_errors s) (gap_recovery_failures s).
Definition counts_delay (stats_ttl_s : float) (s : Rest) : float := fmax stats_ttl_s (fmul (counts_took s) (of_int 10)).

Definition gap_status (r : Http.Http.Request) (repo : Gaps.Gaps.Repository) (now : Z) : Answer :=
  match param r (lit "id") with
  | Some (c :: cs) =>
      match Gaps.Gaps.get repo (c :: cs) with
      | None => GapNotFound (c :: cs)
      | Some g => GapStatus (Gaps.Gaps.summarize [g] now)
      end
  | _ => GapStatus (Gaps.Gaps.summarize (Gaps.Gaps.list_gaps repo) now)
  end.

(** The gauges of a summary: open gaps, the longest's duration, recovered ones, failures of
    recovery. *)
Definition gap_metrics (sm : Gaps.Gaps.Summary) (s : Rest) : list Z :=
  [Gaps.Gaps.open_count sm; Gaps.Gaps.unrecovered_duration_seconds sm; Gaps.Gaps.recovered_count sm; gap_recovery_failures s].

Record Health := mkHealth { healthy : bool; data_healthy : bool; complete : bool; open_gaps : Z; blocking_reason : option Gaps.Gaps.Reason }.
Definition health (repo : Gaps.Gaps.Repository) (now : Z) (s : Rest) : Health :=
  let sm := Gaps.Gaps.summarize (Gaps.Gaps.list_gaps repo) now in
  mkHealth (db_errors s <? DB_ERRORS_UNHEALTHY) (Gaps.Gaps.healthy sm) (Gaps.Gaps.complete sm) (Gaps.Gaps.open_count sm)
    (p ← head (filter (fun p => Gaps.Gaps.p_recovered p = false) (Gaps.Gaps.items sm)); Gaps.Gaps.p_blocking p).

(** ** Runs *)

Inductive Event :=
| AskSymbols (r : Http.Http.Request) (fails : bool) (d : Db)
| AskQuotes (r : Http.Http.Request) (now : float) (fails : bool) (d : Db)
| AskBars (r : Http.Http.Request) (fails : bool) (d : Db)
| AskTrades (r : Http.Http.Request) (fails : bool) (d : Db)
| AskSignals (r : Http.Http.Request) (fails : bool) (d : Db)
| CountsRound (fails : bool) (readable : Table -> bool) (took wall : float) (d : Db).
Definition step (s : Rest) (e : Event) : Rest :=
  match e with
  | AskSymbols r f d => (symbols r f d s).1
  | AskQuotes r now f d => (quotes r now f d s).1
  | AskBars r f d => (bars r f d s).1
  | AskTrades r f d => (trades_h r f d s).1
  | AskSignals r f d => (signals_h r f d s).1
  | CountsRound f rd took wall d => counts_round f rd took wall d s
  end.
Definition run (es : list Event) : Rest := foldl step new_rest es.

(** ** Lemmas *)

Lemma limit_shorter {A} (limit : Z) (l : list A) : zlen (Sqlite.Sqlite.limit_rows limit l) < limit -> Sqlite.Sqlite.limit_rows limit l = l.
Proof.
  unfold Sqlite.Sqlite.limit_rows. destruct (Z.ltb_spec limit 0); [done|]. rewrite length_take. intros H'. apply take_ge. lia.
Qed.

(** ** Properties *)

(** A list of symbols that is not called truncated has every instrument of which a newest
    trade is stored, once. *)
Theorem symbols_complete r d s cap items : symbols r false d s = (s, SymbolList cap false items) ->
  items ≡ₚ (fun x => (x.1.1, x.1.2, la_ts x.2)) <$> map_to_list (t_latest d).
Proof.
  unfold symbols, q. case_bool_decide; [done|]. cbn zeta. intros [= <- Ht <-]. apply Z.leb_gt in Ht.
  unfold Sqlite.Sqlite.latest in *. rewrite limit_shorter by done. apply fmap_Permutation.
  rewrite merge_sort_Permutation. cbn [fmap option_fmap option_map]. rewrite Storage.Storage.filter_holds; [done|]. by apply Forall_true.
Qed.

(** The trades asked for are the instrument's newest, newest first, and as many as there
    are. *)
Theorem trades_are_newest v y limit d : 0 <= limit -> (forall l, scan_trades l ≡ₚ l) ->
  let rows := trades scan_trades v y limit d in
  exists rest, rows ++ rest ≡ₚ trades_of v y d /\ StronglySorted newer_trade (rows ++ rest) /\
    length rows = (Z.to_nat limit `min` length (trades_of v y d))%nat.
Proof.
  intros Hl Hs rows. unfold rows, trades, Sqlite.Sqlite.limit_rows. destruct (Z.ltb_spec limit 0); [lia|].
  set (l := merge_sort newer_trade _). assert (l ≡ₚ trades_of v y d) as Hp by (unfold l; by rewrite merge_sort_Permutation, Hs).
  exists (drop (Z.to_nat limit) l). rewrite take_drop. split; [done|]. split.
  - apply StronglySorted_merge_sort; unfold newer_trade; [intros a b c|intros a b]; lia.
  - by rewrite length_take, Hp.
Qed.

(** Errors add up for the life of the process, and nothing counts a failed recovery. *)
Theorem errors_only_grow es e : db_errors (run es) <= db_errors (run (es ++ [e])) /\ gap_recovery_failures (run es) = 0.
Proof.
  split.
  - unfold run. rewrite foldl_app. cbn [foldl]. generalize (foldl step new_rest es) as s. intros s.
    destruct e as [r [] d|r now [] d|r [] d|r [] d|r [] d|[] rd took wall d];
      cbn [step]; unfold symbols, quotes, bars, trades_h, signals_h, counts_round, q;
      repeat case_match; cbn [fst db_errors count_error]; lia.
  - induction es as [|e' es IH] using rev_ind; [done|]. unfold run in *. rewrite foldl_app. cbn [foldl].
    revert IH. generalize (foldl step new_rest es) as s. intros s IH.
    destruct e' as [r [] d|r now [] d|r [] d|r [] d|r [] d|[] rd took wall d];
      cbn [step]; unfold symbols, quotes, bars, trades_h, signals_h, counts_round, q;
      repeat case_match; cbn [fst gap_recovery_failures count_error]; done.
Qed.
End rest.

(** ** Examples *)

(** A list as long as its limit is called truncated although nothing is missing. *)
Example full_list_truncated :
  let d := mkDb [] [] [] ∅ {[ (lit "U", lit "A") := mkLatest 5 (of_int 1) (of_int 1) 0 0 ]} [] in
  let r := Http.Http.mkRequest [] [] [] [(lit "limit", lit "1")] [] [] in
  symbols (fun _ => None) (fun s => s) r false d new_rest = (new_rest, SymbolList 1 true [(lit "U", lit "A", 5)]).
Proof. by vm_compute. Qed.

(** When the first count fails the answer is an empty count of that moment, not that
    nothing has been counted. *)
Example failed_count_shown :
  let s := counts_round true (fun _ => true) (of_int 1) (of_int 100) new_db new_rest in
  stats (of_int 107) new_rest = Pending /\ stats (of_int 107) s = Stats [] (of_int 100) (of_int 7) (of_int 1000).
Proof. by vm_compute. Qed.

(** Twenty failed queries in a year make the service unhealthy until it is restarted. *)
Example unhealthy_for_good :
  let r := Http.Http.mkRequest [] [] [] [] [] [] in
  let s := run (fun _ => None) (fun s => s) (fun l => l) (fun l => l) (replicate 20 (AskSignals r true new_db) ++ replicate 100 (AskSignals r false new_db)) in
  healthy (health [] 0 s) = false.
Proof. by vm_compute. Qed.
End RestApi.
